(* ===== verification/_CoqProject ===== *)
-Q . S2P
Prelude.v
GoTime.v
GoFloat.v
GoStrings.v
GoFormat.v
GoDuration.v
GoNet.v
GoEncoding.v
Nostr.v
SignerPolicy.v
SignerLimiter.v
SignerUsedSet.v
SignerRefused.v
SignerAttest.v
SignerEvaluate.v
SignerEvaluateFacts.v
SignerExamples.v
SignerDecisions.v
SignerServer.v
SignerTrace.v
SignerGuarantees.v
BunkerPolicy.v
BunkerPolicyFacts.v
BunkerQueue.v
BunkerQueueFacts.v
BunkerGrantSpec.v
BunkerGrantSpecFacts.v
BunkerHandler.v
BunkerHandlerFacts.v
BunkerEventLog.v
BunkerEventLogFacts.v
RelayJobs.v
RelayJobsFacts.v
RelayManager.v
RelayManagerFacts.v
RelayRestart.v
RelayExamples.v
RelayReconciler.v
RelayIndexes.v
RelayIndexesFacts.v
RelayRoutes.v
RelayModeration.v
RelayModerationFacts.v
RelayMembership.v
MetricsHistory.v
MetricsHistoryFacts.v
AdminAuth.v
AdminTokens.v
AdminTokensFacts.v
AdminConfig.v
AdminServer.v
AdminAuthFacts.v
AdminServerFacts.v
ClientFollow.v
ClientFollowFacts.v
ClientPaging.v
ClientRun.v
ClientLogin.v
ClientLoginFacts.v
ClientExamples.v
ClientStream.v
ClientStreamFacts.v
ClientStreamOrderly.v
ClientStreamLocal.v
ClientRecovery.v
ClientSync.v
ClientSyncFacts.v
ClientTargets.v
ClientDuration.v
EventDiff.v
EventResolve.v
EventResolveFacts.v
EventChecks.v
ClientVault.v
KeyResolve.v
HuddleRtp.v
HuddleSfu.v
HuddleSfuFacts.v
HuddleNegotiation.v
HuddleNegotiationFacts.v
