(* ===== verification/Prelude.v ===== *)
(** * Verification of ncli: signer, bunker, relay management, client, huddle

    ncli is a command-line suite for Nostr.  Two of its parts hold a private
    key and decide, for other programs, what that key may do; several run beside
    the relay it serves, two are its side of a connection to a relay and its own
    files, and one carries calls:

    - the {b local signer} ([src/signer]) serves a socket; a YAML policy of
      rules allows or denies each request (sign an event, encrypt, decrypt,
      attest), possibly requiring attestations: events by other keys that
      approve the event to be signed and may be used once;
    - the {b bunker} ([src/cli/bunker]) serves NIP-46 apps over relays; what an
      app may do is remembered as grants, and anything else waits in a queue
      for a human;
    - the {b relay's jobs} ([src/cli/relay/jobs]) bring the store's indexes and
      the search index up to date in the background, one job per index;
    - the {b admin plane} ([src/cli/relay/adminplane]) is the listener through
      which admins see and steer the relay;
    - {b moderation and membership} ([src/cli/relay]): bans, kind rules, blocked
      addresses, members, invites and roles, changed over NIP-86 and REST; the
      {b metrics history} ([src/cli/relay/metrics]) keeps what the dashboard draws;
    - the {b event commands} ([src/cli/event]) look events up on relays, verify
      and compare them; the {b vault} ([src/client/vault]) keeps private keys
      encrypted in a file beside the preferences ([src/client/prefs]), and
      {b key resolution} ([src/client/identity.go], [src/cli/keyresolve]) says
      which of them a name means;
    - the {b client} ([src/client]) talks to relays: it logs in, publishes,
      reads, follows a subscription without missing or repeating an event,
      streams events from sources to destinations and synchronises a store with
      a relay;
    - the {b huddle} ([src/huddle/rtp], [src/huddle/sfu]) lets browsers join a
      voice room over WebRTC: audio passes between the room and RTP, video among
      the browsers.

    This development models them, proves what makes them safe, and shows where
    the code departs from what it means to do.

    ** How the parts interact

    The signer's server ([Server.authorize]) evaluates the loaded policy on a
    request, takes a token from the rule's rate limiter, records the consumed
    attestations in the used set and its file, and only then lets the library
    sign; for a rule with [unwrap_from] the decrypted text is checked before it
    is released, and refused gift wraps are remembered.  A poll reloads the
    policy when its files change.

    The bunker's handler ([Handler.Authorize]) asks the grant store; "ask" puts
    the request in the queue and blocks until a human (through [localClient])
    or the expiry sweep decides it.  A connect that is approved pairs the app
    and may remember the permissions it asked for and the grants of a staged
    spec.  The daemon keeps a bounded history of what was resolved, with an
    event log on disk.

    The relay's job manager runs each job in a goroutine, keeps a history on
    disk and recovers from crashes; the reconciler looks at every index and
    starts the jobs that are due, and the job API starts and cancels them for an
    admin.  The admin listener lets a request through its gate (host, address,
    failure limiter), authenticates it with a NIP-98 event or a session, and
    hands it to a handler; metrics are read with bearer tokens from a file.

    A NIP-86 request of an administrator, or a member's for an invite, reaches a
    method that changes the moderation state (saved before it takes effect) or
    the relay's members and invites; the relay asks the moderation state about
    every event and connection.  A sampler turns the relay's counters into points
    in a ring, with coarser points kept for longer, and hands each to the viewers.

    An event command asks relays for each reference, its hints and the base
    relays first and the author's own relays then, and acts on the best copy; the
    vault's entries are encrypted to a key that a password in the preferences'
    file unlocks.  A command that signs resolves the name it was given, or the
    sole saved key, to a public key and takes the private key from the vault.

    A client's connection has one session, shared by the reader of its messages
    and the goroutine that signs the login; publishing, reading and following
    pass every message through it and wait for the login when the relay asks for
    one.  A follow keeps what it delivered in a state shared by all its relays
    and saved to a file, and pages back through what a relay's cap left out.

    A stream hands every event to all its destinations.  Each has a queue, a
    history of what awaits an acknowledgement and, with a limit, slots for what is
    sent; a relay is written to over a connection that is replaced when it dies, a
    store by a bounded number of workers with a barrier around deletions.  What a
    destination could not take goes to recovery, which tries it again with growing
    delays.  A synchronisation finds with negentropy which events each side lacks,
    then pulls and pushes them in batches.

    A browser's session in a huddle is admitted by a signed challenge, takes a
    place in the room and in the video hub, and holds a peer connection; a sink
    turns the room's frames into one RTP stream per speaker, and each new track
    is offered to the browser anew, while its own offers, answers and candidates
    come in.

    ** The files

    - [Prelude]: results, generic lemmas, tactics.  [GoTime], [GoFloat],
      [GoStrings], [GoFormat], [GoDuration], [GoNet] (with [net.IP]), [GoEncoding]: the
      parts of Go and its standard library the sources use,
      with 64-bit wrap-around, saturating times, and float64 arithmetic as
      rationals rounded to nearest even.  [Nostr]: events, method names and the
      interface of the nmilat library ([Nmilat], with its documented laws
      [NmilatLaws] and a reference instance).
    - [SignerPolicy] ([policy.go], [nipoa.go]): the policy document, its
      validation, the compiled policy.  [SignerAttest] ([attest.go]) and
      [SignerEvaluate] ([evaluate.go], [nipoa.go]): decisions; a panic is
      [None].  [SignerLimiter] ([ratelimit.go]), [SignerUsedSet]
      ([usedset.go], with the files and a fault at each system call),
      [SignerRefused] ([refused.go]).  [SignerServer] ([server.go],
      [watch.go]): the server's state and operations.
    - [SignerEvaluateFacts], [SignerDecisions]: theorems on decisions.
      [SignerTrace]: runs of the server as a step relation, with crashes and
      restarts.  [SignerGuarantees]: theorems on runs.  [SignerExamples]:
      a policy and requests on which the theorems are instantiated.
    - [BunkerPolicy] ([policy.go]): grants, sessions, the store and its file.
      [BunkerQueue] ([queue.go]): the queue with its goroutines as a small-step
      relation over a shared heap.  [BunkerGrantSpec] ([grantspec.go]):
      declared grants and requested permissions.  [BunkerHandler]
      ([handler.go], the decisions of [client.go], the pairing of
      [daemon.go]): authorization.  [BunkerEventLog] ([eventlog.go], the
      history of [daemon.go]): the history and its log.  Each has its theorems
      in the file of the same name ending in [Facts].
    - [RelayJobs] ([jobs.go]: jobs, messages, history), [RelayManager] ([jobs.go]:
      the manager, its goroutines and channels as actions on a heap of runs),
      [RelayReconciler] ([reconciler.go]), [RelayIndexes] ([indexes.go],
      [search.go], [search_queue.go]), [RelayRoutes] ([routes.go]); theorems in
      [RelayManagerFacts], [RelayRestart], [RelayReconciler] and
      [RelayIndexesFacts], instances in [RelayExamples].
    - [RelayModeration] ([moderation.go]: state, file, policy, methods), with
      theorems in [RelayModerationFacts]; [RelayMembership]
      ([membership_admin.go], [service_nip86.go], [service_membership.go], the
      settings of [service_community.go]): members, invites, roles and who may
      call what, with its theorems; [MetricsHistory] ([metrics/history.go], the
      index collector of [sources.go]), with theorems in [MetricsHistoryFacts].
    - [AdminAuth] ([auth.go], [replay.go]: sessions, failure limiter, replay
      guard), [AdminTokens] ([tokens.go]), [AdminConfig] ([config.go]),
      [AdminServer] ([server.go]: requests as threads over the shared state);
      theorems in [AdminConfig] and the files ending in [Facts].
    - [ClientFollow] ([follow.go], [followpage.go]: the delivered state, the
      pager, the subscription's loop), [ClientRun] ([follow.go]: reconnecting and
      the start), [ClientLogin] ([login.go]: the session, its login and the
      requests); theorems in [ClientFollowFacts], [ClientPaging], [ClientRun] and
      [ClientLoginFacts], instances in [ClientExamples].
    - [ClientStream] ([stream.go]: a remote destination, the goroutines of all its
      cycles as atomic steps; the counters of [tui/model.go]), with theorems in [ClientStreamFacts]
      and, for orderly runs, [ClientStreamOrderly]; [ClientStreamLocal]
      ([stream.go]: a local destination), [ClientRecovery] ([recovery.go]), each
      with its theorems; [ClientSync] ([neg_sync.go], defaults of [spec.go]), with
      theorems in [ClientSyncFacts]; [ClientTargets] ([client.go], [publish.go]:
      the loops over targets) and [ClientDuration] ([spec.go]: durations), with
      their theorems.
    - [EventDiff] ([diff.go]) with its theorems; [EventResolve] ([resolve.go],
      references of [input.go], relay addresses of [relayurl.go], the targets of
      [spec.go] and [event_lookup.go]), with theorems in [EventResolveFacts];
      [EventChecks] ([checks.go], [verify.go]) with theorems and instances.
      [ClientVault] ([vault.go], [prefs.go]) and [KeyResolve]
      ([identity.go], [keyresolve/resolve.go]) with their theorems.
    - [HuddleRtp] ([rtp.go], [ingest.go]: frames to RTP and back), [HuddleSfu]
      ([sfu.go], [video.go], the handshake and lifetime of [session.go]),
      [HuddleNegotiation] (descriptions and candidates of [session.go]); theorems
      and instances in [HuddleRtp] and the files ending in [Facts].

    Library code the sources call is a parameter: nmilat (events, signatures,
    NIP-OA conditions, keys), YAML and JSON codecs, regular expressions,
    SHA-256, the file system's contents, the clock.  What a theorem needs of a
    parameter is a named hypothesis or a class of laws, and its witness
    instantiates the parameter.

    ** What is proved

    - {i Decisions}: an allowed request was allowed by the first applicable
      rule with every check made ([Evaluate_allow_sound],
      [Evaluate_crypto_sound], [Evaluate_attest_bounded],
      [Evaluate_consumed_window]); deny rules win ([Evaluate_deny_first]); the
      backtracking assignment is exact ([assignAttestations_exact]); loaded
      policies are well formed and evaluate without panicking ([LoadPolicy_wf],
      [Evaluate_no_panic]).
    - {i Runs of the signer}: no attestation is used twice by honest requests
      ([no_attestation_used_twice]), the used set survives any failure
      ([OpenUsedSet_crash_safe]), the rate limiter is exact
      ([limiter_burst_exact]), refused wraps are free
      ([refused_wrap_costs_nothing]), reloading is faithful ([Watch_faithful]).
    - {i Grants}: [Decide_sound], [Decide_sensitive],
      [budget_never_overspent], [grants_managed], [save_load_roundtrip].
    - {i The queue}: in every interleaving [queue_safe] and [queue_answers].
    - {i Declared grants}: [LoadGrantSpec_resolves], [GrantSpec_ipc_roundtrip],
      [parsePerms_exact].
    - {i The bunker as a whole}: [sensitive_needs_human], [connect_grants].
    - {i The history}: [history_survives], a refinement: the log on disk reads
      back as the history in memory.
    - {i Jobs}: in every interleaving one job per index and one writer of the
      store ([jobs_exclusive]), every job recorded and reported once
      ([jobs_recorded_once]), no deadlock ([jobs_drain]); after a crash the next
      process finds the interrupted jobs ([restart_recovers]) and parks a crash
      loop ([crash_loop_parks]); the reconciler's pass and the search build are
      exact ([pass_exact], [buildInto_exact]).
    - {i The admin plane}: [admin_authorized], for every interleaving of
      requests; [Resolve_valid], the type of validated settings;
      [tokens_roundtrip] and [valid_exact] for the tokens file and its cache.
    - {i Moderation and membership}: through failing saves, crashes and restarts the
      moderation is the changes put in place, and what was acknowledged is among
      them ([moderation_refines]); it decides by
      the last word about each author, event, kind and address
      ([moderation_policy]); invites are issued as asked and not touched
      otherwise ([invites_exact]), and who is no administrator can at most add
      some ([member_confined]); roles change one at a time
      ([setMemberRoles_exact]).
    - {i The metrics history}: the ring holds the last points and the rollup the
      ended buckets ([history_exact]), what viewers read is their union in order
      ([columns_exact]), quantiles are in order ([quantile_ordered]), viewers are
      few ([viewers_bounded]).
    - {i Events and keys}: a lookup asks each relay once and only while it must
      ([resolve_refines]) and acts on the best copy ([best_exact]); an event
      reported valid is what it claims to be ([verify_sound]); a diff gives both
      texts back and keeps as much as possible ([lineDiff_exact],
      [diffEvents_exact]); the vault gives back the keys it was given
      ([vault_keeps], [create_unlock], [create_refuses]), and a name gives the key
      of the identity it means ([identity_exact]).
    - {i The client}: a connection logs in at most once and for its own relay
      ([login_once]), requests are sent again only after a login
      ([publish_exact], [read_exact]); a follow delivers nothing twice
      ([follow_once]), misses nothing a relay stores ([follow_complete]), saves
      what it loads ([state_roundtrip]) and starts as [follow_starts] says.
    - {i Streams}: in every interleaving, also of cycles that overlap, every event
      of a destination is accounted for ([stream_accounts]); when cycles do not
      overlap a limit is kept ([stream_window]), and when moreover ids are not
      repeated and the relay acknowledges what it was sent, after its event is
      noted, the slots and the history are exact ([window_exact]); a deletion is
      never reordered in a store and an answer means the store has the event
      ([local_writes]);
      a pass of recovery does to each entry what its relay answered
      ([recovery_pass]) within the limit of attempts ([recovery_kept]).
    - {i Synchronising and several targets}: a pull ends and brings everything
      ([pull_complete]), a push covers everything once ([push_exact]), the rounds
      are bounded ([execute_bounded]); merged answers have each event once
      ([merge_exact], [find_agrees]) and a report is complete
      ([publish_report_exact]); written durations are read exactly
      ([duration_exact]).
    - {i The huddle}: only authenticated and permitted peers are in, and they
      leave nothing behind ([session_admits]); nobody deadlocks, and every track
      reaches the browser's description unless an offer or a write fails
      ([negotiation_complete]); candidates
      follow descriptions ([candidates_ordered]); audio is neither reordered nor
      altered ([sink_faithful], [bridge_verbatim]); video goes to the others and
      asks for keyframes sparingly ([video_to_others], [keyframes_throttled]).
    - {i Where the code departs}: [assignAttestations_duplicates],
      [Evaluate_nil_panics], [decoy_replays_attestation],
      [same_id_same_verdict], [staged_spec_misapplied], [torn_write_poisons],
      [guard_no_margin], [ServeOnce_concurrent], [AddToken_unterminated],
      [valid_restored_refused], [flood_hides_older], [read_cut_short],
      [joined_write_leaves_peer], [glare_loses_track], [early_ack_leaks_slot],
      [duplicate_leaks_slot], [unacked_vanish], [packet_error_ends],
      [store_failure_vanishes], [interrupted_dial_charged],
      [unreadable_given_up], [foreign_pull_goes_on], [closed_pull_waits],
      [late_local_target], [disallow_opens], [zone_escapes_block],
      [cross_inline_unchecked], [shadowed_npub], [torn_write_loses],
      [unreadable_orphans], [concurrent_adds_lose], [wrong_key_signs],
      [spaced_nsec_echoed], [banned_member_invites],
      [concurrent_claims_reset], [concurrent_roles_lost],
      [banned_admin_deletes], [zero_uses_decide], [compaction_forgets],
      [repeated_id_collapses], [rest_ttl_unbounded], [joined_keys_collide],
      [connections_reorder], [closed_strands_event].

    A theorem about runs says what it asks of them; where the code does not
    guarantee that, an example of the same file shows what happens without it:
    [decoy_replays_attestation], [late_request_replayed], [AddToken_unterminated],
    [flood_hides_older], [glare_loses_track], [zone_escapes_block],
    [torn_write_loses], [concurrent_adds_lose], [cross_inline_unchecked],
    [joined_keys_collide], [shutdown_unordered], [stored_unanswered] and
    [connections_reorder].

    ** Bounds

    Loops of the modelled code are structural in the model (over rules,
    attestations, lines, bytes, grants, threads).  Fuel appears only in the
    model of Go's library: an IPv6 address has at most eight groups, a number at
    most twenty-one digits, and every round of [ParseDuration] consumes a unit
    ([duration_fields_fuel]); and in [converse], a relay's conversation with a
    follow, where 101 rounds are proved enough for its 100 pages; a pull's fuel
    counts its requests, and one per needed id is proved enough against a relay
    that answers what it is asked, as is one per id for a push; and the walk
    through a diff's table, where one step per line of either text is proved
    enough.  Constants of
    the source keep their values (4096 refused wraps, 200 history entries, 200
    pending requests, 24 hours of attestation age, 5 minutes to decide, 20 jobs
    per index, 64 sessions, 10,000 addresses, 5,000 delivered ids, 8 viewers,
    4,000,000 cells of a diff's table, 16 characters of an invite, 24,000 events
    awaiting an acknowledgement, queues of 10,240); [window_exact] asks for a
    limit of at most 13,000, so that queue and slots together fit the history.
    Theorems about real time ask for a clock in the range where adding a
    duration is exact ([is_clock]).

    ** What is not modelled

    The transports (sockets, relays, HTTP), the terminal board and the command
    line; decoding of YAML scalars ([Duration], [LongDuration]); the nmilat
    library.  The mutexes of the signer and
    of the store make their operations atomic and are not modelled themselves;
    those of the queue, the job manager and the admin plane are, as the steps of
    their threads.  Of the relay's search index the event store and the
    Meilisearch client are parameters; of the admin plane the stream of points,
    the dashboard's files, TLS and the answers' headers are left out.  The client's
    connection is a parameter: what happens on it is a list.  The huddle's
    WebSocket, WebRTC library, room and frame codec are parameters.  Of a stream
    the reading sides and the wiring of [Stream.Sync] are left out; the event store
    of a local destination settles its tasks when and how it likes.  Of the
    relay's own process the membership service, the event store and the NIP-86
    handler are the nmilat library's and parameters with the laws of
    [MemberModel], [Handler86] and [Deletes].  What is left is mostly wiring:
    flags, terminals, configuration files and calls of libraries ([src/cli]), the
    specs of [src/client] that are decoded from YAML, audio devices and the web
    dashboard; the manifest lists it. *)
From stdpp Require Export base gmap sets list strings pretty.
From stdpp Require Import options.

#[export] Set Default Goal Selector "1".

(** ** Results: a Go [(value, error)] pair *)

(** A Go function that returns [(T, error)] returns either a value or an
    error, never both. *)
Inductive result (E A : Type) : Type :=
| Ok (a : A)
| Err (e : E).
Arguments Ok {E A} a.
Arguments Err {E A} e.

#[export] Instance result_ret {E} : MRet (result E) := fun _ a => Ok a.
#[export] Instance result_bind {E} : MBind (result E) :=
  fun _ _ f m => match m with Ok a => f a | Err e => Err e end.

(** Wrap an error with context, as [fmt.Errorf("...: %w", err)] does. *)
Definition wrap_err {E E' A} (f : E -> E') (m : result E A) : result E' A :=
  match m with Ok a => Ok a | Err e => Err (f e) end.

(** An early return: [if b { return err }]. *)
Definition refuse_if {E} (b : bool) (e : E) : result E unit :=
  if b then Err e else Ok ().

Definition is_ok {E A} (m : result E A) : bool :=
  match m with Ok _ => true | Err _ => false end.

(** [for _, x := range xs { y, err := f(x); if err != nil { return err } }] *)
Fixpoint mapM_res {E A B} (f : A -> result E B) (xs : list A) : result E (list B) :=
  match xs with
  | [] => Ok []
  | x :: xs => y ← f x; ys ← mapM_res f xs; Ok (y :: ys)
  end.

(** The same with the index of the iteration, which the source uses to label
    an error. *)
Fixpoint imapM_res {E A B} (f : nat -> A -> result E B) (i : nat) (xs : list A)
    : result E (list B) :=
  match xs with
  | [] => Ok []
  | x :: xs => y ← f i x; ys ← imapM_res f (S i) xs; Ok (y :: ys)
  end.

(** ** Generic lemmas *)

Section ResultLemmas.
Context {E : Type}.

Lemma bind_Ok {A B} (f : A -> result E B) (m : result E A) (b : B) :
  (m ≫= f) = Ok b <-> exists a, m = Ok a /\ f a = Ok b.
Proof. destruct m; simpl; naive_solver. Qed.

Lemma refuse_if_Ok (b : bool) (e : E) u : refuse_if b e = Ok u <-> b = false.
Proof. destruct b, u; simpl; naive_solver. Qed.

Lemma wrap_err_Ok {E' A} (f : E -> E') (m : result E A) a :
  wrap_err f m = Ok a <-> m = Ok a.
Proof. destruct m; simpl; naive_solver. Qed.

Lemma mapM_res_Ok {A B} (f : A -> result E B) xs ys :
  mapM_res f xs = Ok ys <-> Forall2 (fun x y => f x = Ok y) xs ys.
Proof.
  revert ys; induction xs as [|x xs IH]; intros ys; simpl.
  - split; [by intros [= <-] | intros HF; apply Forall2_nil_inv_l in HF; by subst].
  - rewrite bind_Ok. split.
    + intros (y & Hy & (ys' & Hys & [= <-])%bind_Ok).
      constructor; [done | by apply IH].
    + inversion 1; subst. eexists; split; [done|].
      apply bind_Ok. eexists; split; [by apply IH | done].
Qed.

Lemma mapM_res_Forall {A B} (f : A -> result E B) (P : B -> Prop) xs ys :
  (forall x y, f x = Ok y -> P y) -> mapM_res f xs = Ok ys -> Forall P ys.
Proof. intros HP H%mapM_res_Ok. induction H; constructor; eauto. Qed.

(** A loop that only refuses elements. *)
Lemma checks_Ok {A} (f : A -> bool) (e : A -> E) xs us :
  mapM_res (fun x => refuse_if (f x) (e x)) xs = Ok us -> forall x, x ∈ xs -> f x = false.
Proof.
  intros H x Hx. apply mapM_res_Ok in H.
  apply list_elem_of_lookup in Hx as (i & Hi).
  eapply Forall2_lookup_l in H as (u & _ & Hu); [|done].
  by apply refuse_if_Ok in Hu.
Qed.

Lemma imapM_res_Ok {A B} (f : nat -> A -> result E B) i xs ys :
  imapM_res f i xs = Ok ys ->
  Forall2 (fun x y => exists j, f j x = Ok y) xs ys.
Proof.
  revert i ys; induction xs as [|x xs IH]; intros i ys; simpl.
  - by intros [= <-].
  - intros (y & Hy & (ys' & Hys & [= <-])%bind_Ok)%bind_Ok.
    constructor; eauto.
Qed.
End ResultLemmas.

(** ** Maps *)

(** [for k, v := range m]: Go visits a map in an arbitrary order.  [ord] lists
    keys in the order of the visit; keys it leaves out follow, so every order
    is one for some [ord]. *)
Definition range_map {A} (ord : list string) (m : gmap string A) : list (string * A) :=
  let ks := (map_to_list m).*1 in
  omap (fun k => (fun v => (k, v)) <$> m !! k)
    (filter (fun k => k ∈ ks) (remove_dups ord) ++ filter (fun k => k ∉ ord) ks).

Lemma range_map_elem {A} ord (m : gmap string A) k v :
  (k, v) ∈ range_map ord m <-> m !! k = Some v.
Proof.
  unfold range_map. rewrite list_elem_of_omap. split.
  - intros (k' & _ & Hk). apply fmap_Some in Hk as (v' & Hv & [= -> ->]). done.
  - intros Hv. exists k. rewrite Hv. split; [|done].
    assert (Hk : k ∈ (map_to_list m).*1).
    { apply list_elem_of_fmap. exists (k, v). by rewrite elem_of_map_to_list. }
    rewrite elem_of_app, !list_elem_of_filter, elem_of_remove_dups.
    destruct (decide (k ∈ ord)); auto.
Qed.

(** ** Texts of values *)

(** A text for every value of a countable type, for instances of codecs. *)
Fixpoint bits (p : positive) : string :=
  match p with
  | xH => EmptyString
  | xO p => String (Ascii.Ascii false false false false true true false false) (bits p)
  | xI p => String (Ascii.Ascii true false false false true true false false) (bits p)
  end.

Fixpoint of_bits (s : string) : positive :=
  match s with
  | EmptyString => xH
  | String (Ascii.Ascii b _ _ _ _ _ _ _) s => if b then xI (of_bits s) else xO (of_bits s)
  end.

Definition text_of `{Countable A} (x : A) : string := bits (encode x).
Definition of_text `{Countable A} (s : string) : option A := decode (of_bits s).

Lemma of_text_of `{Countable A} (x : A) : of_text (text_of x) = Some x.
Proof.
  unfold of_text, text_of. rewrite <- decode_encode. f_equal.
  induction (encode x) as [p IH|p IH|]; cbn; by rewrite ?IH.
Qed.

(** ** Booleans *)

Lemma existsb_elem {A} (f : A -> bool) (l : list A) :
  existsb f l = true <-> exists x, x ∈ l /\ f x = true.
Proof.
  rewrite existsb_exists. by setoid_rewrite list_elem_of_In.
Qed.

Lemma forallb_elem {A} (f : A -> bool) (l : list A) :
  forallb f l = true <-> forall x, x ∈ l -> f x = true.
Proof.
  rewrite forallb_forall. by setoid_rewrite list_elem_of_In.
Qed.

(** ** Automation *)

Create HintDb ncli.

#[export] Hint Extern 0 (is_Some (Some _)) => (eexists; reflexivity) : core.

(** Turn boolean tests of the code into propositions. *)
Ltac propify :=
  repeat match goal with
  | H : _ && _ = true |- _ => apply andb_true_iff in H; destruct H
  | H : _ && _ = false |- _ => apply andb_false_iff in H
  | H : _ || _ = true |- _ => apply orb_true_iff in H
  | H : _ || _ = false |- _ => apply orb_false_iff in H; destruct H
  | H : negb _ = true |- _ => apply negb_true_iff in H
  | H : negb _ = false |- _ => apply negb_false_iff in H
  | H : bool_decide _ = true |- _ => apply bool_decide_eq_true in H
  | H : bool_decide _ = false |- _ => apply bool_decide_eq_false in H
  | H : String.eqb _ _ = true |- _ => apply String.eqb_eq in H
  | H : String.eqb _ _ = false |- _ => apply String.eqb_neq in H
  | H : Z.eqb _ _ = true |- _ => apply Z.eqb_eq in H
  | H : Z.eqb _ _ = false |- _ => apply Z.eqb_neq in H
  | H : Z.ltb _ _ = true |- _ => apply Z.ltb_lt in H
  | H : Z.ltb _ _ = false |- _ => apply Z.ltb_ge in H
  | H : Z.leb _ _ = true |- _ => apply Z.leb_le in H
  | H : Z.leb _ _ = false |- _ => apply Z.leb_gt in H
  | H : Nat.ltb _ _ = true |- _ => apply Nat.ltb_lt in H
  | H : Nat.ltb _ _ = false |- _ => apply Nat.ltb_ge in H
  | H : Nat.leb _ _ = true |- _ => apply Nat.leb_le in H
  | H : Nat.leb _ _ = false |- _ => apply Nat.leb_gt in H
  end.

(** Split the next conditional or match of a hypothesis, keeping the
    equation, and drop the branches that cannot produce the result. *)
Ltac split_match H :=
  match type of H with
  | context [match ?x with _ => _ end] =>
      let E := fresh "E" in destruct x eqn:E; try discriminate H
  end.

(** Decompose a chain of [refuse_if ...; ...] and binds that ended in [Ok]:
    each step leaves its equation (for a [refuse_if], that its test failed). *)
Ltac unbind_step H :=
  match type of H with
  | (_ ≫= _) = Ok _ =>
      let a := fresh "r" in let H1 := fresh "B" in
      apply bind_Ok in H; destruct H as (a & H1 & H);
      try (apply refuse_if_Ok in H1);
      match type of a with
      | unit => clear a || destruct a
      | (_ * _)%type =>
          let x := fresh "r" in let y := fresh "r" in
          destruct a as [x y]; cbn iota beta in H
      | _ => idtac
      end
  end.
Ltac unbind H := repeat unbind_step H.
