(* ===== verification/GoTime.v ===== *)
(** * Machine integers and Go's [time] package

    Go's [int] and [int64] are 64-bit two's complement: arithmetic wraps.
    [time.Duration] is an [int64] count of nanoseconds.  A [time.Time]
    (without a monotonic reading) is an [int64] count of seconds since
    January 1, year 1 and a nanosecond in [0, 10^9); it is modelled by the one
    number of nanoseconds since that instant, so the zero [Time] is [0].
    [time.Unix], [Time.Add] and [Time.Sub] keep what the package does at the
    edges: [Unix] wraps, [Add] and [Sub] saturate. *)
From S2P Require Import Prelude.
From stdpp Require Import numbers options.

Local Open Scope Z_scope.

(** ** [int64] *)

Definition two63 : Z := 2 ^ 63.
Definition two64 : Z := 2 ^ 64.
Definition max_int64 : Z := two63 - 1.
Definition min_int64 : Z := - two63.

(** The [int64] with the same low 64 bits. *)
Definition wrap64 (z : Z) : Z := (z + two63) `mod` two64 - two63.

Definition is_int64 (z : Z) : Prop := min_int64 <= z <= max_int64.
Definition is_int64b (z : Z) : bool := (min_int64 <=? z) && (z <=? max_int64).

Lemma is_int64b_true z : is_int64b z = true <-> is_int64 z.
Proof. unfold is_int64b, is_int64. rewrite andb_true_iff, !Z.leb_le. done. Qed.

(** The nearest [int64]. *)
Definition clamp64 (z : Z) : Z := Z.max min_int64 (Z.min max_int64 z).

Lemma wrap64_range z : is_int64 (wrap64 z).
Proof.
  unfold is_int64, wrap64, min_int64, max_int64.
  pose proof (Z.mod_pos_bound (z + two63) two64 ltac:(done)).
  assert (two64 = 2 * two63) by done. lia.
Qed.

Lemma wrap64_id z : is_int64 z -> wrap64 z = z.
Proof.
  unfold is_int64, wrap64, min_int64, max_int64. intros H.
  assert (two64 = 2 * two63) by done.
  rewrite Z.mod_small; lia.
Qed.

Lemma clamp64_id z : is_int64 z -> clamp64 z = z.
Proof. unfold is_int64, clamp64. lia. Qed.

Lemma clamp64_le_iff z d : is_int64 d -> d < max_int64 -> (clamp64 z <= d <-> z <= d).
Proof. unfold is_int64, clamp64, min_int64, max_int64, two63. lia. Qed.

(** ** [time.Duration] *)

Definition Nanosecond : Z := 1.
Definition Second : Z := 1000000000.
Definition Millisecond : Z := 1000000.
Definition Minute : Z := 60 * Second.
Definition Hour : Z := 60 * Minute.

(** ** [time.Time] *)

(** Seconds from January 1, year 1 to January 1, 1970. *)
Definition unixToInternal : Z := 62135596800.

(** [time.Unix(sec, 0)]: the internal second count wraps. *)
Definition Unix_ (sec : Z) : Z := wrap64 (sec + unixToInternal) * Second.

(** [t.Unix()] *)
Definition Time_Unix (t : Z) : Z := wrap64 (t `div` Second - unixToInternal).

(** [Time.addSec]: saturates instead of wrapping. *)
Definition clamp_sec (s : Z) : Z :=
  if max_int64 <? s then max_int64
  else if s <? min_int64 then - max_int64 else s.

(** [t.Add(d)] *)
Definition Time_Add (t d : Z) : Z :=
  clamp_sec ((t + d) `div` Second) * Second + (t + d) `mod` Second.

(** [t.Sub(u)]: the exact difference when it fits a [Duration], else the
    nearest one. *)
Definition Time_Sub (t u : Z) : Z := clamp64 (t - u).

Definition Time_Before (t u : Z) : bool := t <? u.
Definition Time_After (t u : Z) : bool := u <? t.
Definition Time_IsZero (t : Z) : bool := t =? 0.

(** A [Time] that the representation can hold. *)
Definition is_time (t : Z) : Prop :=
  min_int64 * Second <= t <= max_int64 * Second + (Second - 1).

Definition is_timeb (t : Z) : bool :=
  (min_int64 * Second <=? t) && (t <=? max_int64 * Second + (Second - 1)).

(** Clocks: a [Time] between year 1 and a few hundred thousand million years
    on, so that adding any [Duration] to it is exact. *)
Definition is_clock (t : Z) : Prop := 0 <= t <= 2 ^ 62 * Second.

Lemma Time_Add_exact t d : is_clock t -> is_int64 d -> Time_Add t d = t + d.
Proof.
  unfold is_clock, is_int64, Time_Add, clamp_sec, Second. intros [H0 H1] [H2 H3].
  pose proof (Z.div_mod (t + d) 1000000000 ltac:(done)) as Hdm.
  pose proof (Z.mod_pos_bound (t + d) 1000000000 ltac:(done)) as Hm.
  unfold min_int64, max_int64, two63 in *.
  destruct (Z.ltb_spec (2 ^ 63 - 1) ((t + d) `div` 1000000000)); [lia|].
  destruct (Z.ltb_spec ((t + d) `div` 1000000000) (- 2 ^ 63)); lia.
Qed.

Lemma Unix_is_time s : is_time (Unix_ s).
Proof.
  unfold is_time, Unix_. pose proof (wrap64_range (s + unixToInternal)) as [? ?].
  unfold Second in *. lia.
Qed.

(** A Unix second within reach of the calendar is converted exactly. *)
Lemma Unix_exact s :
  - unixToInternal <= s <= 2 ^ 62 -> Unix_ s = (s + unixToInternal) * Second.
Proof.
  intros H. unfold Unix_. rewrite wrap64_id; [done|].
  unfold is_int64, min_int64, max_int64, two63, unixToInternal in *. lia.
Qed.

Lemma Time_Unix_Unix s : is_int64 s -> Time_Unix (Unix_ s) = s.
Proof.
  intros H. unfold Time_Unix, Unix_, Second. rewrite Z.div_mul by done.
  unfold wrap64, is_int64, min_int64, max_int64, two64, two63, unixToInternal in *.
  remember (2 ^ 63) as p. assert (Hp : 2 ^ 64 = 2 * p) by (subst; done). rewrite Hp.
  assert (Hq : p = 9223372036854775808) by (subst; done). clear Heqp.
  replace ((s + 62135596800 + p) `mod` (2 * p) - p - 62135596800 + p)
    with ((s + 62135596800 + p) `mod` (2 * p) - 62135596800) by lia.
  rewrite Zminus_mod_idemp_l.
  replace (s + 62135596800 + p - 62135596800) with (s + p) by lia.
  rewrite Z.mod_small; lia.
Qed.

(** [Time.Sub] never errs on the side of freshness: an age within a duration
    limit below the maximum is the exact age. *)
Lemma Time_Sub_le t u d :
  is_int64 d -> d < max_int64 -> (Time_Sub t u <= d <-> t - u <= d).
Proof. apply clamp64_le_iff. Qed.

Lemma Time_Sub_gt t u d :
  is_int64 d -> d < max_int64 -> (d < Time_Sub t u <-> d < t - u).
Proof. intros Hd Hm. rewrite !Z.lt_nge, Time_Sub_le by done. done. Qed.
