(* ===== verification/GoFloat.v ===== *)
(** * Go's [float64] on the values the sources compute

    A finite [float64] is a rational [m * 2^e] with [|m| < 2^53]; it is
    modelled by that rational.  Each operation computes exactly and rounds to
    the nearest [float64], ties to the even one, as IEEE 754 requires of
    [+], [-], [*], [/] and of the conversion of an integer.  The exponent is
    unbounded: the operands the sources combine (64-bit counts and quotients
    of durations) stay far inside the range where neither overflow nor
    gradual underflow occurs. *)
From S2P Require Import Prelude.
From Stdlib Require Import QArith Lia.
From stdpp Require Import options.

Local Open Scope Z_scope.

Abbreviation float64 := Q.

(** The integer nearest to [n / d], ties to even. *)
Definition round_half_even (n d : Z) : Z :=
  let q := n `div` d in
  match 2 * (n `mod` d) ?= d with
  | Lt => q
  | Gt => q + 1
  | Eq => if Z.even q then q else q + 1
  end.

(** The exponent [e] with [2^e <= n / d < 2^(e+1)], for positive [n], [d]. *)
Definition exponent (n d : Z) : Z :=
  let k := Z.log2 n - Z.log2 d in
  if (if 0 <=? k then n <? d * 2 ^ k else n * 2 ^ (- k) <? d) then k - 1 else k.

(** Rounding to 53 significant bits. *)
Definition float64_round (x : Q) : float64 :=
  let n := Z.abs (Qnum x) in
  let d := Zpos (Qden x) in
  if n =? 0 then 0%Q
  else
    let s := 52 - exponent n d in
    if 0 <=? s then Qred (Qmake (Z.sgn (Qnum x) * round_half_even (n * 2 ^ s) d) (Z.to_pos (2 ^ s)))
    else Qred (inject_Z (Z.sgn (Qnum x) * (round_half_even n (d * 2 ^ (- s)) * 2 ^ (- s)))).

Definition float64_of (z : Z) : float64 := float64_round (inject_Z z).
Definition float64_add (x y : float64) : float64 := float64_round (x + y).
Definition float64_sub (x y : float64) : float64 := float64_round (x - y).
Definition float64_mul (x y : float64) : float64 := float64_round (x * y).
Definition float64_div (x y : float64) : float64 := float64_round (x / y).
Definition float64_lt (x y : float64) : bool := negb (Qle_bool y x).
Definition float64_le (x y : float64) : bool := Qle_bool x y.

(** [int64(x)] truncates towards zero. *)
Definition int64_of_float (x : float64) : Z := Z.quot (Qnum x) (Zpos (Qden x)).

(** The integers a [float64] holds exactly. *)
Definition max_exact : Z := 2 ^ 53.

Lemma float64_lt_spec x y : float64_lt x y = true <-> (x < y)%Q.
Proof. unfold float64_lt. rewrite negb_true_iff, <- not_true_iff_false, Qle_bool_iff. split.
  - apply Qnot_le_lt.
  - intros H H'. apply (Qlt_not_le _ _ H H'). Qed.

Lemma float64_lt_ge x y : float64_lt x y = false <-> (y <= x)%Q.
Proof. unfold float64_lt. by rewrite negb_false_iff, Qle_bool_iff. Qed.

(** ** Rounding *)

Lemma round_half_even_exact q d : 0 < d -> round_half_even (q * d) d = q.
Proof.
  intros Hd. unfold round_half_even. rewrite Z.div_mul, Z.mod_mul by lia.
  destruct (Z.compare_spec (2 * 0) d); lia.
Qed.

Lemma round_half_even_near n d :
  0 < d -> 2 * n - d <= 2 * (round_half_even n d * d) <= 2 * n + d.
Proof.
  intros Hd. unfold round_half_even.
  pose proof (Z.div_mod n d ltac:(lia)). pose proof (Z.mod_pos_bound n d Hd).
  destruct (Z.compare_spec (2 * (n `mod` d)) d); [destruct (Z.even _)|..]; nia.
Qed.

Lemma exponent_upper n d : 0 < n -> 0 < d -> n < max_exact * d -> exponent n d <= 52.
Proof.
  intros Hn Hd Hlt. unfold exponent, max_exact in *.
  pose proof (Z.log2_spec n Hn) as [Hn1 Hn2]. pose proof (Z.log2_spec d Hd) as [Hd1 Hd2].
  pose proof (Z.log2_nonneg n). pose proof (Z.log2_nonneg d).
  set (a := Z.log2 n) in *. set (b := Z.log2 d) in *.
  destruct (Z.le_gt_cases (a - b) 52) as [Hk|Hk]; [repeat case_match; lia|].
  assert (Hk0 : (0 <=? a - b) = true) by (apply Z.leb_le; lia). rewrite Hk0.
  destruct (Z.le_gt_cases (a - b) 53) as [He|Hbig].
  - replace (a - b) with 53 by lia. rewrite (proj2 (Z.ltb_lt _ _)) by lia. lia.
  - exfalso. assert (Hpow : 2 ^ (53 + Z.succ b) <= 2 ^ a) by (apply Z.pow_le_mono_r; lia).
    rewrite Z.pow_add_r in Hpow by lia.
    assert (2 ^ 53 * d < 2 ^ 53 * 2 ^ Z.succ b) by (apply Z.mul_lt_mono_pos_l; [done|lia]). lia.
Qed.

(** Below [2^53] rounding moves a value by at most one half, and keeps
    integers. *)
Lemma float64_round_small x :
  (0 <= x)%Q -> (x < inject_Z max_exact)%Q ->
  (x - (1 # 2) <= float64_round x <= x + (1 # 2))%Q /\
  (forall k, x == inject_Z k -> float64_round x == inject_Z k)%Q /\ (0 <= float64_round x)%Q.
Proof.
  destruct x as [n d]. unfold Qle at 1, Qlt at 1, float64_round. simpl Qnum. simpl Qden.
  rewrite !Z.mul_1_r, Z.mul_0_l. intros Hn Hlt. rewrite Z.abs_eq by lia.
  destruct (Z.eqb_spec n 0) as [->|Hn0].
  { split_and!; try done. by intros k <-. }
  set (s := 52 - exponent n (Zpos d)).
  assert (Hs : 0 <= s) by (pose proof (exponent_upper n (Zpos d)); lia).
  rewrite (proj2 (Z.leb_le 0 s) Hs). rewrite (Z.sgn_pos n) by lia. rewrite Z.mul_1_l.
  assert (Hp : 0 < 2 ^ s) by (apply Z.pow_pos_nonneg; lia). revert Hp.
  generalize (2 ^ s). clear s Hs. intros p Hp.
  pose proof (round_half_even_near (n * p) (Zpos d) ltac:(lia)) as Hnear.
  rewrite !Qred_correct. split_and!.
  - unfold Qle, Qminus, Qplus, Qopp; simpl. rewrite Pos2Z.inj_mul, Z2Pos.id by lia. nia.
  - unfold Qle, Qplus; simpl. rewrite Pos2Z.inj_mul, Z2Pos.id by lia. nia.
  - intros k Hk. rewrite Qred_correct. unfold Qeq in *; simpl in *. rewrite Z2Pos.id by lia. rewrite Z.mul_1_r in *.
    subst n. replace (k * Zpos d * p) with ((k * p) * Zpos d) by lia.
    rewrite round_half_even_exact by lia. lia.
  - unfold Qle; simpl. assert (0 <= round_half_even (n * p) (Zpos d)); [|lia].
    unfold round_half_even. pose proof (Z.div_pos (n * p) (Zpos d) ltac:(nia) ltac:(lia)).
    destruct (_ ?= _); [destruct (Z.even _)|..]; lia.
Qed.

Lemma float64_of_exact z : 0 <= z < max_exact -> (float64_of z == inject_Z z)%Q.
Proof.
  intros H. apply float64_round_small; [| |done].
  - unfold Qle; simpl; lia.
  - unfold Qlt; simpl; lia.
Qed.

Lemma round_half_even_nonneg n d : 0 <= n -> 0 < d -> 0 <= round_half_even n d.
Proof.
  intros Hn Hd. unfold round_half_even. pose proof (Z.div_pos n d Hn Hd).
  destruct (_ ?= _); [destruct (Z.even _)|..]; lia.
Qed.

Lemma float64_round_nonneg x : (0 <= x)%Q -> (0 <= float64_round x)%Q.
Proof.
  destruct x as [n d]. unfold Qle at 1, float64_round. simpl Qnum. simpl Qden.
  rewrite Z.mul_1_r, Z.mul_0_l. intros Hn. rewrite Z.abs_eq by lia.
  destruct (n =? 0); [done|]. assert (Hsgn : 0 <= Z.sgn n) by (by apply Z.sgn_nonneg).
  destruct (Z.leb_spec 0 (52 - exponent n (Zpos d))) as [Hs|Hs]; rewrite Qred_correct;
    unfold Qle; simpl; rewrite !Z.mul_1_r.
  - apply Z.mul_nonneg_nonneg; [done|]. apply round_half_even_nonneg; [|done].
    apply Z.mul_nonneg_nonneg; [done|]. apply Z.pow_nonneg. done.
  - apply Z.mul_nonneg_nonneg; [done|]. apply Z.mul_nonneg_nonneg; [|by apply Z.pow_nonneg].
    apply round_half_even_nonneg; [done|]. apply Z.mul_pos_pos; [done|].
    apply Z.pow_pos_nonneg; lia.
Qed.
