(* ===== verification/GoStrings.v ===== *)
(** * Go strings: the parts of [strings], [strconv] and [path/filepath] used

    A Go string is a sequence of bytes; it is modelled by [string], whose
    characters are 8-bit.  Literals in the source are ASCII. *)
From S2P Require Import Prelude GoTime.
From stdpp Require Import options.
From Stdlib Require Import Ascii.

Local Open Scope string_scope.

(** ** Prefixes and substrings *)

Definition is_empty (s : string) : bool :=
  match s with EmptyString => true | _ => false end.

Definition HasPrefix (s p : string) : bool := String.prefix p s.

(** [s[n:]] for [n <= len(s)] *)
Fixpoint drop_string (n : nat) (s : string) : string :=
  match n, s with
  | O, _ => s
  | S n, String _ s => drop_string n s
  | S _, EmptyString => EmptyString
  end.

(** [s[:n]] for [n <= len(s)] *)
Fixpoint take_string (n : nat) (s : string) : string :=
  match n, s with
  | S n, String c s => String c (take_string n s)
  | _, _ => EmptyString
  end.

(** [strings.CutPrefix] *)
Definition CutPrefix (s p : string) : option string :=
  if HasPrefix s p then Some (drop_string (String.length p) s) else None.

(** [strings.TrimPrefix] *)
Definition TrimPrefix (s p : string) : string := default s (CutPrefix s p).

Fixpoint rev_string (s : string) (acc : string) : string :=
  match s with
  | EmptyString => acc
  | String c s => rev_string s (String c acc)
  end.

(** [strings.HasSuffix] *)
Definition HasSuffix (s p : string) : bool :=
  HasPrefix (rev_string s "") (rev_string p "").

(** [strings.CutSuffix] *)
Definition CutSuffix (s p : string) : option string :=
  if HasSuffix s p
  then Some (take_string (String.length s - String.length p) s) else None.

(** [strings.Contains] *)
Fixpoint Contains (s sub : string) : bool :=
  HasPrefix s sub ||
  match s with EmptyString => false | String _ s' => Contains s' sub end.

(** [strings.Cut] at a one-byte separator: before, after, found. *)
Fixpoint Cut (s : string) (sep : ascii) : string * string * bool :=
  match s with
  | EmptyString => (EmptyString, EmptyString, false)
  | String c s' =>
      if Ascii.eqb c sep then (EmptyString, s', true)
      else let '(a, b, ok) := Cut s' sep in
           if ok then (String c a, b, true) else (String c s', EmptyString, false)
  end.

(** [strings.Split] at a one-byte separator. *)
Fixpoint Split (s : string) (sep : ascii) : list string :=
  match s with
  | EmptyString => [EmptyString]
  | String c s' =>
      if Ascii.eqb c sep then EmptyString :: Split s' sep
      else match Split s' sep with
           | w :: ws => String c w :: ws
           | [] => [String c EmptyString]
           end
  end.

(** [strings.Join] *)
Fixpoint Join (xs : list string) (sep : string) : string :=
  match xs with
  | [] => ""
  | [x] => x
  | x :: xs => x ++ sep ++ Join xs sep
  end.

(** [strings.ReplaceAll(s, old, new)] for a non-empty [old]: occurrences are
    found from the left and do not overlap; [skip] bytes of the current
    occurrence are still to be passed over. *)
Fixpoint ReplaceAll_from (s old new : string) (skip : nat) : string :=
  match s with
  | EmptyString => EmptyString
  | String c s' =>
      match skip with
      | S k => ReplaceAll_from s' old new k
      | O => if HasPrefix s old
             then new ++ ReplaceAll_from s' old new (pred (String.length old))
             else String c (ReplaceAll_from s' old new 0)
      end
  end.

Definition ReplaceAll (s old new : string) : string := ReplaceAll_from s old new 0.

(** ** White space *)

Definition byte_of (n : nat) : ascii := ascii_of_nat n.

(** The UTF-8 encodings of the runes [unicode.IsSpace] accepts. *)
Definition spaces : list string :=
  let b1 a := String (byte_of a) "" in
  let b2 a b := String (byte_of a) (b1 b) in
  let b3 a b c := String (byte_of a) (b2 b c) in
  ([b1 9; b1 10; b1 11; b1 12; b1 13; b1 32;
    b2 194 133; b2 194 160; b3 225 154 128] ++
   map (fun k => b3 226 128 (128 + k)) (seq 0 11) ++
   [b3 226 128 168; b3 226 128 169; b3 226 128 175; b3 226 129 159; b3 227 128 128])%list.

(** Drop leading occurrences of any of [ws]; [skip] as in [ReplaceAll_from]. *)
Fixpoint trim_left_from (ws : list string) (s : string) (skip : nat) : string :=
  match s with
  | EmptyString => EmptyString
  | String _ s' =>
      match skip with
      | S k => trim_left_from ws s' k
      | O => match List.find (HasPrefix s) ws with
             | Some w => trim_left_from ws s' (pred (String.length w))
             | None => s
             end
      end
  end.

(** [strings.TrimSpace] *)
Definition TrimSpace (s : string) : string :=
  let l := trim_left_from spaces s 0 in
  rev_string (trim_left_from (map (fun w => rev_string w "") spaces) (rev_string l "") 0) "".

(** [strings.TrimRight(s, "\n")] *)
Fixpoint TrimRightNL (s : string) : string :=
  match s with
  | EmptyString => EmptyString
  | String c s' =>
      match TrimRightNL s' with
      | EmptyString => if Ascii.eqb c "010" then EmptyString else String c EmptyString
      | t => String c t
      end
  end.

(** ** Case *)

Definition lower_byte (c : ascii) : ascii :=
  let n := nat_of_ascii c in
  if (65 <=? n)%nat && (n <=? 90)%nat then ascii_of_nat (n + 32) else c.

(** [strings.ToLower] on ASCII.  Non-ASCII runes are left alone: the source
    compares the result only with hexadecimal keys and with the words "allow"
    and "deny", to which no rune outside ASCII lowers. *)
Fixpoint ToLower (s : string) : string :=
  match s with
  | EmptyString => EmptyString
  | String c s => String (lower_byte c) (ToLower s)
  end.

(** Simple case folding towards ASCII: besides the letters, U+017F folds to
    [s] and U+212A to [k]. *)
Fixpoint fold_ascii (s : string) : string :=
  match s with
  | EmptyString => EmptyString
  | String a (String b s' as s1) =>
      if (nat_of_ascii a =? 197)%nat && (nat_of_ascii b =? 191)%nat
      then String "s" (fold_ascii s')
      else match s' with
           | String c s'' =>
               if (nat_of_ascii a =? 226)%nat && (nat_of_ascii b =? 132)%nat
                  && (nat_of_ascii c =? 170)%nat
               then String "k" (fold_ascii s'')
               else String (lower_byte a) (fold_ascii s1)
           | EmptyString => String (lower_byte a) (fold_ascii s1)
           end
  | String a EmptyString => String (lower_byte a) EmptyString
  end.

(** [strings.EqualFold] where one of the two strings is ASCII, as it is at
    every use. *)
Definition EqualFold (s t : string) : bool := String.eqb (fold_ascii s) (fold_ascii t).

(** ** Numbers *)

Definition digit_of (c : ascii) : option Z :=
  let n := nat_of_ascii c in
  if (48 <=? n)%nat && (n <=? 57)%nat then Some (Z.of_nat (n - 48)) else None.

Fixpoint parse_digits (s : string) (acc : Z) : option Z :=
  match s with
  | EmptyString => Some acc
  | String c s => match digit_of c with
                  | Some d => parse_digits s (10 * acc + d)
                  | None => None
                  end
  end.

(** [strconv.Atoi]: an optional sign, then at least one decimal digit; a value
    outside [int] is an error. *)
Definition Atoi (s : string) : option Z :=
  let '(neg, body) :=
    match s with
    | String "-" r => (true, r)
    | String "+" r => (false, r)
    | _ => (false, s)
    end in
  if is_empty body then None else
  match parse_digits body 0 with
  | None => None
  | Some n =>
      let v := if neg then - n else n in
      if (min_int64 <=? v) && (v <=? max_int64) then Some v else None
  end%Z.

(** [strconv.Itoa], and [%d] of an [int] *)
Definition Itoa (z : Z) : string := pretty z.

Lemma Itoa_inj z z' : Itoa z = Itoa z' -> z = z'.
Proof. apply (inj pretty). Qed.

Definition is_hex_byte (c : ascii) : bool :=
  let n := nat_of_ascii c in
  (((48 <=? n) && (n <=? 57)) || ((97 <=? n) && (n <=? 102))
   || ((65 <=? n) && (n <=? 70)))%nat.

Fixpoint all_bytes (f : ascii -> bool) (s : string) : bool :=
  match s with EmptyString => true | String c s => f c && all_bytes f s end.

(** ** [path/filepath] on Unix *)

Definition IsAbs (p : string) : bool := HasPrefix p "/".

(** Fold one path element into the stack of cleaned ones (last first). *)
Definition clean_elem (rooted : bool) (stack : list string) (e : string) : list string :=
  if is_empty e || String.eqb e "." then stack
  else if String.eqb e ".." then
    match stack with
    | t :: rest => if String.eqb t ".." then e :: stack else rest
    | [] => if rooted then [] else [e]
    end
  else e :: stack.

(** [filepath.Clean] *)
Definition Clean (p : string) : string :=
  if is_empty p then "." else
  let rooted := IsAbs p in
  let elems := rev (fold_left (clean_elem rooted) (Split p "/") []) in
  if rooted then "/" ++ Join elems "/"
  else match elems with [] => "." | _ => Join elems "/" end.

(** [filepath.Join(a, b)] *)
Definition Join2 (a b : string) : string :=
  if is_empty a then (if is_empty b then "" else Clean b)
  else if is_empty b then Clean a else Clean (a ++ "/" ++ b).

(** ** Lemmas *)

#[local] Arguments String.append : simpl nomatch.

Lemma append_nil_r s : (s ++ "")%string = s.
Proof. induction s; simpl; congruence. Qed.

Lemma append_assoc s t u : ((s ++ t) ++ u = s ++ (t ++ u))%string.
Proof. induction s; simpl; congruence. Qed.

Lemma length_append s t : String.length (s ++ t) = (String.length s + String.length t)%nat.
Proof. induction s; simpl; congruence. Qed.

Lemma drop_string_append s t : drop_string (String.length s) (s ++ t) = t.
Proof. by induction s. Qed.

Lemma HasPrefix_spec s p : HasPrefix s p = true <-> exists t, s = (p ++ t)%string.
Proof.
  unfold HasPrefix. revert s; induction p as [|c p IH]; intros s; simpl.
  - split; [by exists s | by destruct s].
  - destruct s as [|d s].
    + split; [done | by intros (t & [=])].
    + simpl. destruct (ascii_dec c d) as [e|Hne].
      * subst d. rewrite IH. split; [intros (t & ->); by exists t | intros (t & [= ->]); eauto].
      * split; [done | intros (t & [=]); congruence].
Qed.

Lemma lower_byte_idem c : lower_byte (lower_byte c) = lower_byte c.
Proof. by destruct c as [[] [] [] [] [] [] [] []]. Qed.

Lemma ToLower_idem s : ToLower (ToLower s) = ToLower s.
Proof. induction s as [|c s IH]; cbn [ToLower]; [done|]. by rewrite lower_byte_idem, IH. Qed.

Lemma CutPrefix_Some s p u : CutPrefix s p = Some u <-> s = (p ++ u)%string.
Proof.
  unfold CutPrefix. destruct (HasPrefix s p) eqn:E.
  - apply HasPrefix_spec in E as (t & ->). rewrite drop_string_append.
    split; [by intros [= ->] | intros H; f_equal].
    revert H. induction p; simpl; [done | intros [=]; auto].
  - split; [done|]. intros ->.
    assert (HasPrefix (p ++ u) p = true) by (apply HasPrefix_spec; eauto). congruence.
Qed.

Lemma Contains_spec s sub :
  Contains s sub = true <-> exists a b, s = (a ++ sub ++ b)%string.
Proof.
  induction s as [|c s IH]; cbn [Contains]; rewrite orb_true_iff, HasPrefix_spec.
  - split.
    + intros [(t & H)|[=]]. exists "", t. by rewrite <- H.
    + intros (a & b & H). left. destruct a; [by exists b | done].
  - rewrite IH. split.
    + intros [(t & H)|(a & b & ->)].
      * exists "", t. by rewrite <- H.
      * by exists (String c a), b.
    + intros (a & b & H). destruct a as [|c' a]; simpl in H.
      * left. by exists b.
      * right. injection H as -> ->. eauto.
Qed.

Lemma is_empty_true s : is_empty s = true <-> s = "".
Proof. by destruct s. Qed.

Lemma is_empty_false s : is_empty s = false <-> s <> "".
Proof. by destruct s. Qed.

Lemma Atoi_int64 s z : Atoi s = Some z -> is_int64 z.
Proof.
  unfold Atoi. destruct s as [|c s]; [done|].
  intros H. repeat split_match H; injection H as <-; propify; split; lia.
Qed.

(** *** Decimal numbers *)

Definition is_digit (c : ascii) : bool := match digit_of c with Some _ => true | None => false end.

Lemma pretty_N_digit x : (x < 10)%N -> digit_of (pretty_N_char x) = Some (Z.of_N x).
Proof. intros H. do 10 (destruct x as [|x] using N.peano_ind; [reflexivity|clear IHx]). lia. Qed.

Lemma parse_pretty x s : parse_digits (pretty_N_go x s) 0 = parse_digits s (Z.of_N x).
Proof.
  revert s. induction (N.lt_wf_0 x) as [x _ IH]; intros s.
  assert (x = 0 \/ 0 < x)%N as [->|Hx] by lia; [by rewrite pretty_N_go_0|].
  rewrite pretty_N_go_step, IH by (try apply N.div_lt; lia). cbn [parse_digits].
  rewrite pretty_N_digit by (apply N.mod_lt; lia). f_equal.
  rewrite N2Z.inj_div, N2Z.inj_mod. cbn. pose proof (Z.div_mod (Z.of_N x) 10 ltac:(done)). lia.
Qed.

Lemma pretty_digits x s : all_bytes is_digit s = true -> all_bytes is_digit (pretty_N_go x s) = true.
Proof.
  revert s. induction (N.lt_wf_0 x) as [x _ IH]; intros s Hs.
  assert (x = 0 \/ 0 < x)%N as [->|Hx] by lia; [by rewrite pretty_N_go_0|].
  rewrite pretty_N_go_step by done. apply IH; [by apply N.div_lt|]. cbn [all_bytes]. unfold is_digit at 1.
  by rewrite pretty_N_digit by (apply N.mod_lt; lia).
Qed.

Lemma Itoa_pos z : (0 < z)%Z -> Itoa z = pretty_N_go (Z.to_N z) "".
Proof. by destruct z. Qed.

Lemma Itoa_digits z : (0 < z)%Z -> all_bytes is_digit (Itoa z) = true.
Proof. intros Hz. rewrite Itoa_pos by done. by apply pretty_digits. Qed.

Lemma Itoa_nonempty z : (0 < z)%Z -> Itoa z <> "".
Proof.
  intros Hz H. rewrite Itoa_pos in H by done. pose proof (parse_pretty (Z.to_N z) "") as Hp.
  rewrite H in Hp. cbn in Hp. injection Hp. lia.
Qed.

(** A positive number is read back. *)
Lemma Atoi_Itoa z : (0 < z <= max_int64)%Z -> Atoi (Itoa z) = Some z.
Proof.
  intros Hz. pose proof (Itoa_digits z ltac:(lia)) as Hd. pose proof (Itoa_nonempty z ltac:(lia)) as Hne.
  assert (parse_digits (Itoa z) 0 = Some z) as Hp.
  { rewrite Itoa_pos, parse_pretty by lia. cbn. f_equal. lia. }
  unfold Atoi. destruct (Itoa z) as [|c s] eqn:E; [done|].
  assert (is_digit c = true) as Hc by by apply andb_true_iff in Hd as [? _].
  assert (match String c s with String "-" r => (true, r) | String "+" r => (false, r) | _ => (false, String c s) end
          = (false, String c s)) as ->.
  { destruct c as [[] [] [] [] [] [] [] []]; first [reflexivity|vm_compute in Hc; discriminate Hc]. }
  cbn [is_empty]. rewrite Hp. unfold max_int64, min_int64, two63 in *.
  rewrite (proj2 (Z.leb_le _ _)), (proj2 (Z.leb_le _ _)) by lia. done.
Qed.
