(* ===== verification/GoFormat.v ===== *)
(** * Printing durations: [time.Duration.Round] and [Duration.String]

    Messages of the relay print durations with [%s].  [Duration.String] writes
    hours, minutes and seconds with the fraction's trailing zeros omitted, and
    picks a smaller unit below one second. *)
From S2P Require Import Prelude GoTime GoStrings.
From stdpp Require Import options.
From Stdlib Require Import Ascii.

Local Open Scope Z_scope.

(** [time.Duration]'s conversion and product wrap. *)
Definition Duration_Mul (n d : Z) : Z := wrap64 (n * d).

(** [d.Round(m)] for [m > 0]: half away from zero; the extreme value when the
    result does not fit. *)
Definition Duration_Round (d m : Z) : Z :=
  let r := Z.rem d m in
  if d <? 0 then
    let r := - r in
    if 2 * r <? m then d + r
    else let d1 := wrap64 (d - m + r) in if d1 <? d then d1 else min_int64
  else
    if 2 * r <? m then d - r
    else let d1 := wrap64 (d + m - r) in if d <? d1 then d1 else max_int64.

(** [fmtFrac(buf, v, prec)]: the fraction [v mod 10^prec] over [10^prec] with
    its point, without trailing zeros; nothing when it is zero.  The least
    significant digit is produced first. *)
Fixpoint fmtFrac (prec : nat) (v : Z) (printed : bool) (acc : string) : string :=
  match prec with
  | O => if printed then String "." acc else acc
  | S prec =>
      let digit := v `mod` 10 in
      let printed := printed || negb (digit =? 0) in
      fmtFrac prec (v `div` 10) printed
        (if printed then (Itoa digit ++ acc)%string else acc)
  end.

Definition frac (prec : nat) (v : Z) : string := fmtFrac prec v false ""%string.

(** [d.String()] *)
Definition Duration_String (d : Z) : string :=
  let u := Z.abs d in
  let sign := if d <? 0 then "-"%string else ""%string in
  let unit_ n prec name := (Itoa n ++ frac prec u ++ name)%string in
  let body :=
    if u =? 0 then "0s"%string
    else if u <? 1000 then unit_ u O "ns"%string
    else if u <? 1000000 then unit_ (u `div` 1000) 3%nat "µs"%string
    else if u <? Second then unit_ (u `div` 1000000) 6%nat "ms"%string
    else
      let s := u `div` Second in
      let m := s `div` 60 in
      let h := m `div` 60 in
      let hours := if 0 <? h then (Itoa h ++ "h")%string else ""%string in
      let minutes := if 0 <? m then (Itoa (m `mod` 60) ++ "m")%string else ""%string in
      (hours ++ minutes ++ unit_ (s `mod` 60) 9%nat "s")%string in
  (sign ++ body)%string.

(** [t.Milliseconds()] of a [Duration] truncates towards zero. *)
Definition Duration_Milliseconds (d : Z) : Z := Z.quot d Millisecond.

Example Duration_String_samples :
  Duration_String 0 = "0s"%string /\ Duration_String 1500 = "1.5µs"%string /\
  Duration_String (100 * Millisecond) = "100ms"%string /\
  Duration_String (1234500000) = "1.2345s"%string /\
  Duration_String (30 * Minute) = "30m0s"%string /\
  Duration_String (- (Hour + 90 * Millisecond)) = "-1h0m0.09s"%string /\
  Duration_Round (1250 * Millisecond) (100 * Millisecond) = 1300 * Millisecond /\
  Duration_Round (-1249 * Millisecond) (100 * Millisecond) = -1200 * Millisecond.
Proof. vm_compute. repeat split. Qed.

(** Rounding moves a duration by at most half the unit, when it fits. *)
Lemma Duration_Round_near d m :
  0 < m -> is_int64 (d - m) -> is_int64 (d + m) ->
  2 * Z.abs (Duration_Round d m - d) <= m /\ Duration_Round d m `mod` m = 0.
Proof.
  intros Hm H1 H2. unfold Duration_Round.
  pose proof (Z.quot_rem' d m) as Hqr.
  pose proof (Z.rem_bound_abs d m ltac:(lia)) as Hb.
  pose proof (Z.rem_sign_nz d m ltac:(lia)) as Hs.
  assert (Hr : (d < 0 /\ - m < Z.rem d m <= 0) \/ (0 <= d /\ 0 <= Z.rem d m < m)) by lia.
  assert (Hmod : forall q, (m * q) `mod` m = 0) by (intros; rewrite Z.mul_comm; apply Z_mod_mult).
  assert (Hmul : forall x q, x = m * q -> x `mod` m = 0) by (intros x q ->; apply Hmod).
  repeat match goal with |- context [if ?a <? ?b then _ else _] => destruct (Z.ltb_spec a b) end;
  rewrite ?wrap64_id in * by (unfold is_int64 in *; lia); try lia; split; try lia.
  - apply (Hmul _ (Z.quot d m)). lia.
  - apply (Hmul _ (Z.quot d m - 1)). lia.
  - apply (Hmul _ (Z.quot d m)). lia.
  - apply (Hmul _ (Z.quot d m + 1)). lia.
Qed.
