(* ===== verification/GoDuration.v ===== *)
(** * [time.ParseDuration]

    A signed sequence of decimal numbers, each with an optional fraction and a
    unit.  Integers are [uint64] with the overflow checks of the package; the
    fraction is scaled with [float64] arithmetic. *)
From S2P Require Import Prelude GoTime GoFloat GoStrings GoFormat.
From stdpp Require Import options.
From Stdlib Require Import Ascii QArith.

Local Open Scope Z_scope.

(** [leadingInt]: the digits consumed, [None] on overflow. *)
Fixpoint leadingInt (s : string) (x : Z) : option (Z * string) :=
  match s with
  | EmptyString => Some (x, s)
  | String c s' =>
      match digit_of c with
      | None => Some (x, s)
      | Some d =>
          if two63 / 10 <? x then None
          else let x := x * 10 + d in
               if two63 <? x then None else leadingInt s' x
      end
  end.

(** [leadingFraction]: digits beyond what fits are dropped. *)
Fixpoint leadingFraction (s : string) (x : Z) (scale : float64) (overflow : bool) : Z * float64 * string :=
  match s with
  | EmptyString => (x, scale, s)
  | String c s' =>
      match digit_of c with
      | None => (x, scale, s)
      | Some d =>
          if overflow then leadingFraction s' x scale true
          else if max_int64 / 10 <? x then leadingFraction s' x scale true
          else let y := x * 10 + d in
               if two63 <? y then leadingFraction s' x scale true
               else leadingFraction s' y (float64_mul scale (float64_of 10)) false
      end
  end.

(** The unit's name: everything up to a digit or a point. *)
Fixpoint span_unit (s : string) : string * string :=
  match s with
  | EmptyString => (EmptyString, EmptyString)
  | String c s' =>
      if Ascii.eqb c "." || match digit_of c with Some _ => true | None => false end
      then (EmptyString, s)
      else let '(u, r) := span_unit s' in (String c u, r)
  end.

(** [unitMap]; the micro sign and the Greek letter in UTF-8. *)
Definition unitMap (u : string) : option Z :=
  if String.eqb u "ns" then Some 1
  else if String.eqb u "us" || String.eqb u "µs" || String.eqb u "μs" then Some 1000
  else if String.eqb u "ms" then Some 1000000
  else if String.eqb u "s" then Some Second
  else if String.eqb u "m" then Some Minute
  else if String.eqb u "h" then Some Hour
  else None.

(** The optional fraction after the integer part: its digits, their scale, what
    follows and whether there were any. *)
Definition fraction (s : string) : Z * float64 * string * bool :=
  match s with
  | String c s' =>
      if Ascii.eqb c "." then
        let '(f, scale, r) := leadingFraction s' 0 (float64_of 1) false in
        (f, scale, r, negb (Nat.eqb (String.length r) (String.length s')))
      else (0, float64_of 1, s, false)
  | EmptyString => (0, float64_of 1, s, false)
  end.

(** One number with its unit: its value in nanoseconds and what follows. *)
Definition duration_field (s : string) : option (Z * string) :=
  let starts := match s with
                | String c _ => Ascii.eqb c "." || match digit_of c with Some _ => true | None => false end
                | EmptyString => false
                end in
  if negb starts then None else
  '(v, s1) ← leadingInt s 0;
  let pre := negb (Nat.eqb (String.length s1) (String.length s)) in
  let '(f, scale, s2, post) := fraction s1 in
  if negb pre && negb post then None else
  let '(u, s3) := span_unit s2 in
  if is_empty u then None else
  unit_ ← unitMap u;
  if two63 / unit_ <? v then None else
  let v := v * unit_ in
  if 0 <? f then
    let v := v + int64_of_float (float64_mul (float64_of f) (float64_div (float64_of unit_) scale)) in
    if two63 <? v then None else Some (v, s3)
  else Some (v, s3).

(** The loop; every round consumes a unit, so the string's length is enough
    fuel. *)
Fixpoint duration_fields (fuel : nat) (s : string) (d : Z) : option Z :=
  if is_empty s then Some d else
  match fuel with
  | O => None
  | S fuel =>
      '(v, s) ← duration_field s;
      let d := d + v in
      if two63 <? d then None else duration_fields fuel s d
  end.

Definition ParseDuration (s : string) : option Z :=
  let '(neg, s) := match s with
                   | String "-" s => (true, s)
                   | String "+" s => (false, s)
                   | _ => (false, s)
                   end in
  if String.eqb s "0" then Some 0
  else if is_empty s then None
  else
    d ← duration_fields (String.length s) s 0;
    if neg then Some (- d)
    else if max_int64 <? d then None else Some d.

Example ParseDuration_examples :
  ParseDuration "15m" = Some (15 * Minute) /\ ParseDuration "1h30m" = Some (90 * Minute) /\
  ParseDuration "1.5s" = Some (1500 * Millisecond) /\ ParseDuration "-.5h" = Some (- 30 * Minute) /\
  ParseDuration "0" = Some 0 /\ ParseDuration "" = None /\ ParseDuration "5" = None /\
  ParseDuration "1d" = None /\ ParseDuration "9223372036854775807ns" = Some max_int64 /\
  ParseDuration "9223372036854775808ns" = None /\ ParseDuration "-9223372036854775808ns" = Some min_int64.
Proof. repeat split; vm_compute; reflexivity. Qed.

(** Every round of the loop consumes something, so the fuel is never what
    stops it. *)
Lemma leadingInt_length s x v r : leadingInt s x = Some (v, r) -> (String.length r <= String.length s)%nat.
Proof.
  revert x. induction s as [|c s IH]; intros x; cbn; [by intros [= <- <-]|].
  repeat case_match; try done; [intros Hr%IH; lia|by intros [= <- <-]].
Qed.

Lemma leadingFraction_length s x sc o f sc' r :
  leadingFraction s x sc o = (f, sc', r) -> (String.length r <= String.length s)%nat.
Proof.
  revert x sc o. induction s as [|c s IH]; intros x sc o; cbn -[float64_mul float64_of]; [by intros [= <- <- <-]|].
  repeat case_match; try (by intros [= <- <- <-]); intros Hr%IH; lia.
Qed.

Lemma span_unit_length s u r :
  span_unit s = (u, r) -> (String.length u + String.length r = String.length s)%nat.
Proof.
  revert u r. induction s as [|c s IH]; intros u r; cbn; [by intros [= <- <-]|].
  case_match; [by intros [= <- <-]|]. destruct (span_unit s) as [u' r'] eqn:E.
  intros [= <- <-]. cbn. by rewrite <- (IH _ _ eq_refl).
Qed.

Lemma fraction_length s f sc r post :
  fraction s = (f, sc, r, post) -> (String.length r <= String.length s)%nat.
Proof.
  unfold fraction. destruct s as [|c s]; [by intros [= <- <- <- <-]|].
  case_match; [|by intros [= <- <- <- <-]].
  destruct (leadingFraction _ _ _ _) as [[f' sc'] r'] eqn:E. apply leadingFraction_length in E.
  intros [= <- <- <- <-]. cbn. lia.
Qed.

Lemma duration_field_length s v r : duration_field s = Some (v, r) -> (String.length r < String.length s)%nat.
Proof.
  unfold duration_field. destruct (negb _) in |- *; [done|].
  destruct (leadingInt s 0) as [[w s1]|] eqn:E1; [|done]. apply leadingInt_length in E1. cbn [mbind option_bind].
  destruct (fraction s1) as [[[f sc] s2] post] eqn:E2. apply fraction_length in E2.
  destruct (_ && _) in |- *; [done|]. destruct (span_unit s2) as [u s3] eqn:E3. apply span_unit_length in E3.
  destruct u as [|c u]; [done|]. cbn [is_empty]. cbn in E3.
  destruct (unitMap _); [|done]. cbn -[float64_mul float64_of float64_div]. intros H'.
  repeat case_match; simplify_eq; lia.
Qed.

(** More fuel than the string's length changes nothing. *)
Lemma duration_fields_fuel n s d :
  (String.length s <= n)%nat -> duration_fields n s d = duration_fields (String.length s) s d.
Proof.
  revert s d. induction n as [n IH] using lt_wf_ind. intros s d Hn.
  destruct s as [|c s]; [by destruct n|]. destruct n as [|n]; [cbn in Hn; lia|].
  cbn [duration_fields is_empty String.length].
  destruct (duration_field (String c s)) as [[v r]|] eqn:E; [|done]. apply duration_field_length in E.
  cbn [mbind option_bind]. cbn in E, Hn. case_match; [done|].
  rewrite (IH n); [|lia..]. symmetry. apply IH; lia.
Qed.
