(* ===== verification/GoNet.v ===== *)
(** * Host and port pairs and IP addresses: the parts of [net] and [net/netip]

    [SplitHostPort] and [JoinHostPort]; addresses as 32- or 128-bit numbers,
    an IPv6 one with its zone; prefixes.  Errors are values without a text:
    the callers print or drop them.  In Go 1.26 an IPv4-mapped loopback address
    is a loopback address. *)
From S2P Require Import Prelude GoTime GoStrings.
From stdpp Require Import options.
From Stdlib Require Import Ascii.

Local Open Scope Z_scope.

(** ** Positions of bytes *)

(** [strings.IndexByte] *)
Fixpoint IndexByte (s : string) (c : ascii) : option nat :=
  match s with
  | EmptyString => None
  | String d s => if Ascii.eqb d c then Some O else S <$> IndexByte s c
  end.

(** [strings.LastIndexByte] *)
Fixpoint LastIndexByte (s : string) (c : ascii) : option nat :=
  match s with
  | EmptyString => None
  | String d s =>
      match LastIndexByte s c with
      | Some i => Some (S i)
      | None => if Ascii.eqb d c then Some O else None
      end
  end.

Definition has_byte (s : string) (c : ascii) : bool :=
  match IndexByte s c with Some _ => true | None => false end.

(** ** [net.SplitHostPort], [net.JoinHostPort] *)

Inductive AddrError := missingPort | tooManyColons | missingBracket | unexpectedOpen | unexpectedClose.

Definition split_tail (hostport host : string) (i j k : nat) : result AddrError (string * string) :=
  if has_byte (drop_string j hostport) "[" then Err unexpectedOpen
  else if has_byte (drop_string k hostport) "]" then Err unexpectedClose
  else Ok (host, drop_string (S i) hostport).

Definition SplitHostPort (hostport : string) : result AddrError (string * string) :=
  match LastIndexByte hostport ":" with
  | None => Err missingPort
  | Some i =>
      if HasPrefix hostport "[" then
        match IndexByte hostport "]" with
        | None => Err missingBracket
        | Some end_ =>
            if Nat.eqb (S end_) (String.length hostport) then Err missingPort
            else if Nat.eqb (S end_) i
            then split_tail hostport (take_string (end_ - 1) (drop_string 1 hostport)) i 1 (S end_)
            else if HasPrefix (drop_string (S end_) hostport) ":" then Err tooManyColons
            else Err missingPort
        end
      else
        let host := take_string i hostport in
        if has_byte host ":" then Err tooManyColons else split_tail hostport host i 0 0
  end.

Definition JoinHostPort (host port : string) : string :=
  if has_byte host ":" then ("[" ++ host ++ "]:" ++ port)%string else (host ++ ":" ++ port)%string.

(** ** Addresses *)

Inductive Addr :=
| Addr4 (a : Z)
| Addr6 (a : Z) (zone : string).

#[export] Instance Addr_eq_dec : EqDecision Addr.
Proof. solve_decision. Defined.

Definition BitLen (a : Addr) : Z := match a with Addr4 _ => 32 | Addr6 _ _ => 128 end.
Definition addr_bits (a : Addr) : Z := match a with Addr4 a => a | Addr6 a _ => a end.
Definition hasZone (a : Addr) : bool := match a with Addr4 _ => false | Addr6 _ z => negb (is_empty z) end.

Definition Is4In6 (a : Addr) : bool :=
  match a with Addr4 _ => false | Addr6 a _ => Z.shiftr a 32 =? 65535 end.

Definition Unmap (a : Addr) : Addr :=
  if Is4In6 a then Addr4 (Z.land (addr_bits a) (2 ^ 32 - 1)) else a.

Definition IsLoopback (a : Addr) : bool :=
  match Unmap a with
  | Addr4 a => Z.shiftr a 24 =? 127
  | Addr6 a _ => a =? 1
  end.

(** An octet: a decimal number up to 255 without leading zeros. *)
Definition parse_octet (s : string) : option Z :=
  match s with
  | EmptyString => None
  | String "0" (String _ _) => None
  | _ => match parse_digits s 0 with
         | Some n => if n <=? 255 then Some n else None
         | None => None
         end
  end.

Definition parseIPv4Fields (s : string) : option Z :=
  match mapM parse_octet (Split s ".") with
  | Some [a; b; c; d] => Some (((a * 256 + b) * 256 + c) * 256 + d)
  | _ => None
  end.

Definition hex_digit (c : ascii) : option Z :=
  let n := nat_of_ascii c in
  if is_hex_byte c
  then Some (Z.of_nat (if (n <=? 57)%nat then n - 48 else if (n <=? 70)%nat then n - 55 else n - 87))
  else None.

(** The hexadecimal number at the start of a field: its value, how many
    digits it has and what follows. *)
Fixpoint hex_run (s : string) (acc : Z) (n : nat) : Z * nat * string :=
  match s with
  | EmptyString => (acc, n, s)
  | String c s' =>
      match hex_digit c with
      | Some d => hex_run s' (acc * 16 + d) (S n)
      | None => (acc, n, s)
      end
  end.

(** The loop of [parseIPv6]: at most eight 16-bit groups, the position of the
    ellipsis, and what is left.  [groups] holds the ones read so far. *)
Fixpoint ipv6_groups (fuel : nat) (s : string) (groups : list Z) (ell : option nat)
    : option (list Z * option nat * string) :=
  match fuel with
  | O => Some (groups, ell, s)
  | S fuel =>
      let '(acc, n, rest) := hex_run s 0 0 in
      if (4 <? n)%nat || (n =? 0)%nat then None
      else if HasPrefix rest "." then
        if bool_decide (ell = None) && negb (length groups =? 6)%nat then None
        else if (8 <? length groups + 2)%nat then None
        else a ← parseIPv4Fields s;
             Some ((groups ++ [Z.shiftr a 16; Z.land a 65535])%list, ell, ""%string)
      else
        let groups := (groups ++ [acc])%list in
        match rest with
        | EmptyString => Some (groups, ell, rest)
        | String ":" EmptyString => None
        | String ":" (String ":" s) =>
            match ell with
            | Some _ => None
            | None =>
                if is_empty s then Some (groups, Some (length groups), s)
                else ipv6_groups fuel s groups (Some (length groups))
            end
        | String ":" s => ipv6_groups fuel s groups ell
        | _ => None
        end
  end.

Definition groups_value (groups : list Z) : Z := fold_left (fun a g => a * 65536 + g) groups 0.

(** The address of the groups, the ellipsis expanded. *)
Definition expand (groups : list Z) (ell : option nat) : option Z :=
  if (length groups <? 8)%nat then
    match ell with
    | None => None
    | Some e => Some (groups_value (take e groups ++ replicate (8 - length groups) 0 ++ drop e groups)%list)
    end
  else match ell with Some _ => None | None => Some (groups_value groups) end.

Definition parseIPv6 (input : string) : option Addr :=
  let '(s, zone, explicit) := Cut input "%" in
  if explicit && is_empty zone then None else
  let '(s, ell) := if HasPrefix s "::" then (drop_string 2 s, Some O) else (s, None) in
  if bool_decide (ell = Some O) && is_empty s then Some (Addr6 0 zone) else
  match ipv6_groups 8 s [] ell with
  | None => None
  | Some (groups, ell, rest) =>
      if is_empty rest then (fun a => Addr6 a zone) <$> expand groups ell else None
  end.

(** [netip.ParseAddr] decides by the first of the bytes [.], [:] and [%]. *)
Fixpoint addr_family (s : string) : option bool :=
  match s with
  | EmptyString => None
  | String c s =>
      if Ascii.eqb c "." then Some true
      else if Ascii.eqb c ":" then Some false
      else if Ascii.eqb c "%" then None else addr_family s
  end.

Definition ParseAddr (s : string) : option Addr :=
  match addr_family s with
  | Some true => Addr4 <$> parseIPv4Fields s
  | Some false => parseIPv6 s
  | None => None
  end.

(** ** Prefixes *)

Record Prefix := mkPrefix { pf_ip : Addr; pf_bits : Z }.

Definition withoutZone (a : Addr) : Addr :=
  match a with Addr4 _ => a | Addr6 a _ => Addr6 a ""%string end.

(** [netip.PrefixFrom] of a number of bits in range *)
Definition PrefixFrom (a : Addr) (bits : Z) : Prefix := mkPrefix (withoutZone a) bits.

Definition ParsePrefix (s : string) : option Prefix :=
  i ← LastIndexByte s "/";
  a ← ParseAddr (take_string i s);
  if hasZone a then None else
  let bits := drop_string (S i) s in
  let first_ok := match bits with
                  | String c (String _ _) => bool_decide (c ∈ ["1"; "2"; "3"; "4"; "5"; "6"; "7"; "8"; "9"]%char)
                  | _ => true
                  end in
  if negb first_ok then None else
  n ← Atoi bits;
  if (n <? 0) || (BitLen a <? n) then None else Some (PrefixFrom a n).

(** The bits beyond the prefix are cleared. *)
Definition Masked (p : Prefix) : Prefix :=
  let low := BitLen (pf_ip p) - pf_bits p in
  let clear a := Z.shiftl (Z.shiftr a low) low in
  mkPrefix (match pf_ip p with Addr4 a => Addr4 (clear a) | Addr6 a z => Addr6 (clear a) z end) (pf_bits p).

(** [p.Contains(ip)] of a valid prefix *)
Definition Prefix_Contains (p : Prefix) (ip : Addr) : bool :=
  negb (hasZone ip) && (BitLen (pf_ip p) =? BitLen ip) &&
  (Z.shiftr (Z.lxor (addr_bits ip) (addr_bits (pf_ip p))) (BitLen ip - pf_bits p) =? 0).

(** ** Examples *)

Example SplitHostPort_examples :
  SplitHostPort "127.0.0.1:80" = Ok ("127.0.0.1", "80")%string /\
  SplitHostPort "[::1]:80" = Ok ("::1", "80")%string /\
  SplitHostPort ":80" = Ok ("", "80")%string /\
  SplitHostPort "::1:80" = Err tooManyColons /\ SplitHostPort "[::1]" = Err missingPort /\
  SplitHostPort "[::1]a:80" = Err missingPort /\ SplitHostPort "a]:80" = Err unexpectedClose.
Proof. repeat split. Qed.

Example ParseAddr_examples :
  ParseAddr "127.0.0.1" = Some (Addr4 2130706433) /\ ParseAddr "127.0.0.01" = None /\
  ParseAddr "1.2.3" = None /\ ParseAddr "::1" = Some (Addr6 1 "") /\ ParseAddr "::" = Some (Addr6 0 "") /\
  ParseAddr "::ffff:127.0.0.1" = Some (Addr6 281472812449793 "") /\
  ParseAddr "fe80::1%eth0" = Some (Addr6 (65152 * 2 ^ 112 + 1) "eth0") /\
  ParseAddr "1:2:3:4:5:6:7:8" = Some (Addr6 5192455318486707404433266433261576 "") /\
  ParseAddr "1:2:3:4:5:6:7::" = Some (Addr6 5192455318486707404433266433261568 "") /\
  ParseAddr "1::2::3" = None /\ ParseAddr "1:2:3:4:5:6:7:8:9" = None /\ ParseAddr "12345::" = None /\
  ParseAddr "1:" = None /\ ParseAddr "fe80::1%" = None /\ ParseAddr "localhost" = None.
Proof. repeat split. Qed.

Example Prefix_examples :
  IsLoopback (Addr6 281472812449793 "") = true /\
  (Masked <$> ParsePrefix "10.1.2.3/8") = Some (mkPrefix (Addr4 (10 * 2 ^ 24)) 8) /\
  ParsePrefix "10.0.0.0/08" = None /\ ParsePrefix "10.0.0.0/33" = None /\
  (flip Prefix_Contains (Addr4 (10 * 2 ^ 24 + 77)) <$> ParsePrefix "10.0.0.0/8") = Some true /\
  (flip Prefix_Contains (Addr4 (11 * 2 ^ 24 + 77)) <$> ParsePrefix "10.0.0.0/8") = Some false /\
  (flip Prefix_Contains (Addr4 5) <$> ParsePrefix "::/0") = Some false.
Proof. repeat split. Qed.

(** ** Round trips *)

#[local] Arguments String.append : simpl nomatch.

Lemma IndexByte_absent s c : all_bytes (fun d => negb (Ascii.eqb d c)) s = true -> IndexByte s c = None.
Proof.
  induction s as [|d s IH]; cbn [all_bytes IndexByte]; [done|]. rewrite andb_true_iff. intros [Hd Hs].
  destruct (Ascii.eqb d c); [done|]. by rewrite (IH Hs).
Qed.

Lemma IndexByte_at s t c :
  all_bytes (fun d => negb (Ascii.eqb d c)) s = true -> IndexByte (s ++ String c t) c = Some (String.length s).
Proof.
  induction s as [|d s IH]; cbn [all_bytes IndexByte String.append String.length]; [by rewrite Ascii.eqb_refl|].
  rewrite andb_true_iff. intros [Hd Hs]. destruct (Ascii.eqb d c); [done|]. by rewrite (IH Hs).
Qed.

Lemma LastIndexByte_at s t c :
  all_bytes (fun d => negb (Ascii.eqb d c)) t = true -> LastIndexByte (s ++ String c t) c = Some (String.length s).
Proof.
  intros Ht. induction s as [|d s IH]; cbn [LastIndexByte String.append String.length]; [|by rewrite IH].
  assert (LastIndexByte t c = None) as ->; [|by rewrite Ascii.eqb_refl].
  clear -Ht. induction t as [|d t IH]; cbn [all_bytes LastIndexByte] in *; [done|].
  apply andb_true_iff in Ht as [Hd Ht]. rewrite (IH Ht). by destruct (Ascii.eqb d c).
Qed.

(** Neither a colon nor a bracket. *)
Definition is_plain (c : ascii) : bool := negb (Ascii.eqb c ":") && (negb (Ascii.eqb c "[") && negb (Ascii.eqb c "]")).

Lemma take_append s t : take_string (String.length s) (s ++ t) = s.
Proof. induction s as [|c s IH]; [by destruct t|]. cbn. by rewrite IH. Qed.

(** A host without colons or brackets and a port are read back. *)
Lemma SplitHostPort_Join h p :
  all_bytes is_plain h = true -> all_bytes is_plain p = true -> SplitHostPort (JoinHostPort h p) = Ok (h, p).
Proof.
  intros Hh Hp.
  assert (forall s c, all_bytes is_plain s = true -> is_plain c = false -> all_bytes (fun d => negb (Ascii.eqb d c)) s = true) as Hno.
  { intros s c Hs Hc. induction s as [|d s IH]; [done|]. cbn [all_bytes] in *. apply andb_true_iff in Hs as [Hd Hs].
    rewrite (IH Hs), andb_true_r. destruct (Ascii.eqb_spec d c) as [->|]; [by rewrite Hc in Hd|done]. }
  unfold JoinHostPort, has_byte. rewrite IndexByte_absent by (by apply Hno).
  change (h ++ ":" ++ p)%string with (h ++ String ":" p)%string.
  unfold SplitHostPort. rewrite LastIndexByte_at by (by apply Hno).
  assert (HasPrefix (h ++ String ":" p) "[" = false) as ->.
  { destruct h as [|c h]; [done|]. cbn [all_bytes] in Hh. apply andb_true_iff in Hh as [Hc _]. revert Hc. clear.
    unfold HasPrefix. cbn [String.append String.prefix]. destruct (ascii_dec "[" c) as [<-|]; done. }
  rewrite take_append. unfold has_byte. rewrite IndexByte_absent by (by apply Hno).
  unfold split_tail, has_byte. cbn [drop_string].
  assert (forall c, is_plain c = false -> Ascii.eqb ":" c = false -> IndexByte (h ++ String ":" p) c = None) as Hb.
  { intros c Hc Hcc. apply IndexByte_absent. clear -Hh Hp Hc Hcc Hno.
    induction h as [|d h IH]; cbn [all_bytes String.append] in *.
    - rewrite Hcc. cbn. by apply Hno.
    - apply andb_true_iff in Hh as [Hd Hh]. rewrite (IH Hh), andb_true_r.
      destruct (Ascii.eqb_spec d c) as [->|]; [by rewrite Hc in Hd|done]. }
  rewrite !Hb by done. f_equal. f_equal. clear. induction h as [|c h IH]; [done|]. exact IH.
Qed.

(** * [net.ParseIP] and [IP.String]

    A [net.IP] as [ParseIP] returns it is sixteen bytes, here one 128-bit
    number; an IPv4 address is mapped into [::ffff:0:0/96].  Zones are not part
    of it: [ParseIP] refuses them. *)

Definition v4InV6 (a : Z) : Z := 65535 * 2 ^ 32 + a.

Definition ParseIP (s : string) : option Z :=
  match ParseAddr s with
  | Some (Addr4 a) => Some (v4InV6 a)
  | Some (Addr6 a zone) => if is_empty zone then Some a else None
  | None => None
  end.

(** Lower-case hexadecimal without leading zeros, of a number below [16^k]. *)
Definition hex_char (d : Z) : ascii := ascii_of_nat (Z.to_nat (if d <? 10 then 48 + d else 87 + d)).

Fixpoint hex_digits (k : nat) (n : Z) (acc : string) : string :=
  match k with
  | O => acc
  | S k =>
      let acc := String (hex_char (n `mod` 16)) acc in
      if n `div` 16 =? 0 then acc else hex_digits k (n `div` 16) acc
  end.

Definition v6u16 (a : Z) : list Z := (fun i => Z.land (Z.shiftr a (16 * i)) 65535) <$> [7; 6; 5; 4; 3; 2; 1; 0].

Fixpoint zero_run (gs : list Z) : nat :=
  match gs with
  | g :: gs => if g =? 0 then S (zero_run gs) else O
  | [] => O
  end.

(** The first longest run of two zero groups or more: where and how long. *)
Definition longest_zeros (gs : list Z) : nat * nat :=
  foldl (fun best i => let l := zero_run (drop i gs) in
           if (2 <=? l)%nat && (best.2 <? l)%nat then (i, l) else best) (8%nat, 0%nat) (seq 0 8).

Definition text4 (a : Z) : string :=
  Join (pretty <$> [Z.shiftr a 24; Z.land (Z.shiftr a 16) 255; Z.land (Z.shiftr a 8) 255; Z.land a 255]) ".".

Definition text6 (a : Z) : string :=
  let gs := v6u16 a in
  let hex gs := Join ((fun g => hex_digits 4 g "") <$> gs) ":" in
  let '(start, len) := longest_zeros gs in
  if (len =? 0)%nat then hex gs
  else (hex (take start gs) ++ "::" ++ hex (drop (start + len) gs))%string.

Definition IP_String (a : Z) : string :=
  if Z.shiftr a 32 =? 65535 then text4 (Z.land a (2 ^ 32 - 1)) else text6 a.

Example IP_String_examples :
  (IP_String <$> ParseIP "192.0.2.7") = Some "192.0.2.7"%string /\
  (IP_String <$> ParseIP "::ffff:192.0.2.7") = Some "192.0.2.7"%string /\
  (IP_String <$> ParseIP "::1") = Some "::1"%string /\ (IP_String <$> ParseIP "::") = Some "::"%string /\
  (IP_String <$> ParseIP "2001:DB8:0:0:1:0:0:1") = Some "2001:db8::1:0:0:1"%string /\
  (IP_String <$> ParseIP "1:0:3:4:5:6:7:8") = Some "1:0:3:4:5:6:7:8"%string /\
  (IP_String <$> ParseIP "fe80:0:0:0:0:0:0:0") = Some "fe80::"%string /\
  ParseIP "fe80::1%eth0" = None /\ ParseIP "192.0.2" = None.
Proof. repeat split. Qed.
