(* ===== verification/GoEncoding.v ===== *)
(** * Text encodings: [strings.Fields], [encoding/hex], [encoding/base64],
    [bufio.Scanner]'s lines and dates

    Byte slices are strings, as in [GoStrings]. *)
From S2P Require Import Prelude GoTime GoStrings GoNet.
From stdpp Require Import options.
From Stdlib Require Import Ascii.

Local Open Scope Z_scope.

(** ** [strings.Fields] *)

(** [cur] is the field being read, reversed; [skip] bytes of the current space
    are still to be passed over. *)
Fixpoint fields_from (s : string) (skip : nat) (cur : string) : list string :=
  let emit (rest : list string) := if is_empty cur then rest else rev_string cur "" :: rest in
  match s with
  | EmptyString => emit []
  | String c s' =>
      match skip with
      | S k => fields_from s' k cur
      | O =>
          match List.find (HasPrefix s) spaces with
          | Some w => emit (fields_from s' (pred (String.length w)) "")
          | None => fields_from s' 0 (String c cur)
          end
      end
  end.

Definition Fields (s : string) : list string := fields_from s 0 "".

(** ** [encoding/hex] *)

Definition hex_char (n : nat) : ascii := ascii_of_nat (if (n <? 10)%nat then 48 + n else 87 + n)%nat.

Fixpoint hex_EncodeToString (s : string) : string :=
  match s with
  | EmptyString => EmptyString
  | String c s =>
      let n := nat_of_ascii c in
      String (hex_char (n / 16)) (String (hex_char (n mod 16)) (hex_EncodeToString s))
  end.

Fixpoint hex_DecodeString (s : string) : option string :=
  match s with
  | EmptyString => Some EmptyString
  | String a (String b s) =>
      x ← hex_digit a; y ← hex_digit b; r ← hex_DecodeString s;
      Some (String (ascii_of_nat (Z.to_nat (x * 16 + y))) r)
  | String _ EmptyString => None
  end.

(** ** [base64.RawURLEncoding] *)

Definition b64_char (n : nat) : ascii :=
  ascii_of_nat (if (n <? 26)%nat then 65 + n
                else if (n <? 52)%nat then 71 + n
                else if (n <? 62)%nat then n - 4
                else if (n =? 62)%nat then 45 else 95)%nat.

Fixpoint base64url (s : string) : string :=
  match s with
  | EmptyString => EmptyString
  | String a EmptyString =>
      let n := (nat_of_ascii a * 16)%nat in
      String (b64_char (n / 64)) (String (b64_char (n mod 64)) "")
  | String a (String b EmptyString) =>
      let n := ((nat_of_ascii a * 256 + nat_of_ascii b) * 4)%nat in
      String (b64_char (n / 4096)) (String (b64_char (n / 64 mod 64)) (String (b64_char (n mod 64)) ""))
  | String a (String b (String c s)) =>
      let n := ((Z.of_nat (nat_of_ascii a) * 256 + Z.of_nat (nat_of_ascii b)) * 256 + Z.of_nat (nat_of_ascii c))%Z in
      let at_ k := b64_char (Z.to_nat (n / k mod 64)) in
      String (at_ 262144) (String (at_ 4096) (String (at_ 64) (String (at_ 1) (base64url s))))
  end.

(** ** [bufio.Scanner] *)

(** [bufio.MaxScanTokenSize]: a line this long does not fit the buffer. *)
Definition MaxScanTokenSize : Z := 65536.

Definition dropCR (s : string) : string := default s (CutSuffix s (String (byte_of 13) "")).

(** A last line without an end is a line when it is not empty. *)
Fixpoint drop_last_empty (ls : list string) : list string :=
  match ls with
  | [] => []
  | [l] => if is_empty l then [] else [l]
  | l :: ls => l :: drop_last_empty ls
  end.

(** The lines of the input as they stand in it, before [dropCR]. *)
Definition raw_lines (s : string) : list string := drop_last_empty (Split s "010").

Definition too_long (line : string) : bool := MaxScanTokenSize <=? Z.of_nat (String.length line).

(** ** [t.UTC().Format("2006-01-02")] *)

(** The date of a day counted from January 1, year 1. *)
Definition civil (days : Z) : Z * Z * Z :=
  let z := days + 306 in
  let era := z / 146097 in
  let doe := z mod 146097 in
  let yoe := (doe - doe / 1460 + doe / 36524 - doe / 146096) / 365 in
  let doy := doe - (365 * yoe + yoe / 4 - yoe / 100) in
  let mp := (5 * doy + 2) / 153 in
  let d := doy - (153 * mp + 2) / 5 + 1 in
  let m := if mp <? 10 then mp + 3 else mp - 9 in
  (yoe + era * 400 + (if m <=? 2 then 1 else 0), m, d).

(** [appendInt(b, x, width)] *)
Fixpoint zeros (n : nat) : string := match n with O => "" | S n => String "0" (zeros n) end%string.

Fixpoint decimal_from (fuel : nat) (n : Z) (acc : string) : string :=
  let acc := String (ascii_of_nat (48 + Z.to_nat (n mod 10))) acc in
  match fuel with
  | O => acc
  | S fuel => if n <? 10 then acc else decimal_from fuel (n / 10) acc
  end.

Definition appendInt (x : Z) (width : nat) : string :=
  let digits := decimal_from 20 (Z.abs x) "" in
  let sign := if x <? 0 then "-"%string else ""%string in
  (sign ++ zeros (width - String.length digits) ++ digits)%string.

Definition format_date (t : Z) : string :=
  let '(y, m, d) := civil (t / (86400 * Second)) in
  (appendInt y 4 ++ "-" ++ appendInt m 2 ++ "-" ++ appendInt d 2)%string.

Example encoding_examples :
  Fields " a  bc d " = ["a"; "bc"; "d"]%string /\ hex_EncodeToString "aZ" = "615a"%string /\
  hex_DecodeString "615A" = Some "aZ"%string /\ hex_DecodeString "6" = None /\
  base64url "Man" = "TWFu"%string /\ base64url "Ma" = "TWE"%string /\ base64url "M?>" = "TT8-"%string /\
  format_date 0 = "0001-01-01"%string /\ format_date (Unix_ 1709164800) = "2024-02-29"%string /\
  format_date (Unix_ 946684799) = "1999-12-31"%string.
Proof. repeat split; vm_compute; reflexivity. Qed.

(** ** Words without white space *)

#[local] Arguments String.append : simpl nomatch.

(** Visible ASCII characters. *)
Definition is_graph (c : ascii) : bool := (33 <=? nat_of_ascii c)%nat && (nat_of_ascii c <? 127)%nat.

Abbreviation graphic s := (all_bytes is_graph s = true).

Lemma all_bytes_app f s t : all_bytes f (s ++ t) = all_bytes f s && all_bytes f t.
Proof. induction s as [|c s IH]; [done|]. cbn [all_bytes String.append]. by rewrite IH, andb_assoc. Qed.

Lemma all_bytes_impl (f g : ascii -> bool) s :
  (forall c, f c = true -> g c = true) -> all_bytes f s = true -> all_bytes g s = true.
Proof. intros Hfg. induction s as [|c s IH]; cbn; [done|]. rewrite !andb_true_iff. naive_solver. Qed.

Lemma rev_string_spec s acc : rev_string s acc = (rev_string s "" ++ acc)%string.
Proof.
  revert acc. induction s as [|c s IH]; intros acc; cbn; [done|].
  rewrite (IH (String c acc)), (IH (String c "")). by rewrite append_assoc.
Qed.

Lemma rev_string_app s t : rev_string (s ++ t) "" = (rev_string t "" ++ rev_string s "")%string.
Proof.
  induction s as [|c s IH]; cbn; [by rewrite append_nil_r|].
  rewrite rev_string_spec, IH, (rev_string_spec s (String c "")). by rewrite append_assoc.
Qed.

Lemma rev_string_inv s : rev_string (rev_string s "") "" = s.
Proof.
  induction s as [|c s IH]; cbn; [done|]. rewrite (rev_string_spec s), rev_string_app, IH. done.
Qed.

Lemma graph_not_space c s :
  is_graph c = true ->
  List.find (HasPrefix (String c s)) spaces = None /\
  List.find (HasPrefix (String c s)) (map (fun w => rev_string w "") spaces) = None.
Proof. destruct c as [[] [] [] [] [] [] [] []]; try discriminate; intros _; split; reflexivity. Qed.

(** A text that starts and ends with visible characters is left as it is. *)
Lemma TrimSpace_graph c s d t :
  is_graph c = true -> is_graph d = true -> String c s = (t ++ String d "")%string ->
  TrimSpace (String c s) = String c s.
Proof.
  intros Hc Hd He. unfold TrimSpace. cbn [trim_left_from].
  rewrite (proj1 (graph_not_space c s Hc)). rewrite He, rev_string_app. cbn [rev_string String.append trim_left_from].
  rewrite (proj2 (graph_not_space d _ Hd)). cbn [rev_string].
  by rewrite rev_string_spec, rev_string_inv.
Qed.

Lemma fields_word w s cur :
  graphic w -> fields_from (w ++ s) 0 cur = fields_from s 0 (rev_string w cur).
Proof.
  revert cur. induction w as [|c w IH]; intros cur; cbn [all_bytes String.append fields_from rev_string]; [done|].
  rewrite andb_true_iff. intros [Hc Hw]. by rewrite (proj1 (graph_not_space c _ Hc)), IH.
Qed.

Lemma rev_string_empty s acc : is_empty (rev_string s acc) = is_empty s && is_empty acc.
Proof. revert acc. induction s as [|c s IH]; intros acc; cbn; [done|]. rewrite IH. cbn. apply andb_false_r. Qed.

Lemma space_found s : List.find (HasPrefix (String " " s)) spaces = Some " "%string.
Proof. vm_compute. by destruct s. Qed.

(** A word, then a space. *)
Lemma Fields_cons w s : graphic w -> w <> ""%string -> Fields (w ++ String " " s) = w :: Fields s.
Proof.
  intros Hw Hne. unfold Fields. rewrite fields_word by done.
  cbn [fields_from]. rewrite space_found. cbn [pred String.length].
  rewrite rev_string_empty, rev_string_inv. destruct w; done.
Qed.

Lemma Fields_one w : graphic w -> w <> ""%string -> Fields w = [w].
Proof.
  intros Hw Hne. unfold Fields. rewrite <- (append_nil_r w) at 1. rewrite fields_word by done.
  cbn [fields_from]. rewrite rev_string_empty, rev_string_inv. destruct w; done.
Qed.

(** ** Hexadecimal *)

Lemma hex_byte c :
  let n := nat_of_ascii c in
  is_graph (hex_char (n / 16)) = true /\ is_graph (hex_char (n mod 16)) = true /\
  exists x y, hex_digit (hex_char (n / 16)) = Some x /\ hex_digit (hex_char (n mod 16)) = Some y /\
    ascii_of_nat (Z.to_nat (x * 16 + y)) = c.
Proof.
  destruct c as [[] [] [] [] [] [] [] []];
    (split_and!; [reflexivity..|]; eexists _, _; split_and!; reflexivity).
Qed.

Lemma hex_roundtrip s : hex_DecodeString (hex_EncodeToString s) = Some s.
Proof.
  induction s as [|c s IH]; [done|].
  destruct (hex_byte c) as (_ & _ & x & y & Hx & Hy & Hc).
  cbn [hex_EncodeToString hex_DecodeString]. rewrite Hx, Hy, IH. cbn. by rewrite Hc.
Qed.

Lemma hex_graphic s : graphic (hex_EncodeToString s).
Proof.
  induction s as [|c s IH]; [done|]. destruct (hex_byte c) as (H1 & H2 & _).
  cbn [hex_EncodeToString all_bytes]. by rewrite H1, H2.
Qed.

Lemma b64_graph n : is_graph (b64_char n) = true.
Proof.
  destruct (decide (n < 64)%nat) as [H|H].
  - by do 64 (destruct n as [|n]; [reflexivity|]); lia.
  - unfold b64_char. rewrite !(proj2 (Nat.ltb_ge _ _)) by lia.
    rewrite (proj2 (Nat.eqb_neq _ _)) by lia. done.
Qed.

Lemma base64url_graphic s : graphic (base64url s).
Proof.
  induction s as [s IH] using (induction_ltof1 _ String.length).
  destruct s as [|a [|b [|c s]]]; cbn [base64url all_bytes]; rewrite ?b64_graph; try done.
  rewrite !andb_true_l. apply IH. unfold ltof. cbn. lia.
Qed.

(** ** Dates *)

Definition is_date_byte (c : ascii) : bool :=
  Ascii.eqb c "-" || match digit_of c with Some _ => true | None => false end.

Lemma digit_is_date n : is_date_byte (ascii_of_nat (48 + Z.to_nat (n mod 10))) = true.
Proof.
  pose proof (Z.mod_pos_bound n 10 ltac:(done)) as Hn.
  generalize dependent (n mod 10). intros k Hk.
  assert (Z.to_nat k < 10)%nat as Hlt by lia. revert Hlt. generalize (Z.to_nat k) as j. clear.
  intros j Hj. do 10 (destruct j as [|j]; [reflexivity|]). lia.
Qed.

Lemma decimal_date fuel n acc :
  all_bytes is_date_byte acc = true -> all_bytes is_date_byte (decimal_from fuel n acc) = true.
Proof.
  revert n acc. induction fuel as [|fuel IH]; intros n acc Hacc; cbn [decimal_from all_bytes].
  - by rewrite digit_is_date.
  - case_match; [by cbn [all_bytes]; rewrite digit_is_date|]. apply IH. cbn [all_bytes]. by rewrite digit_is_date.
Qed.

Lemma appendInt_date x w : all_bytes is_date_byte (appendInt x w) = true.
Proof.
  unfold appendInt. rewrite !all_bytes_app, decimal_date, andb_true_r by done.
  apply andb_true_iff. split; [by case_match|]. by induction (w - _)%nat.
Qed.

Lemma format_date_bytes t : all_bytes is_date_byte (format_date t) = true.
Proof. unfold format_date. destruct (civil _) as [[y m] d]. by rewrite !all_bytes_app, !appendInt_date. Qed.

Lemma date_byte_graph c : is_date_byte c = true -> is_graph c && negb (Ascii.eqb c "=") = true.
Proof. destruct c as [[] [] [] [] [] [] [] []]; cbn; done. Qed.
