(* ===== verification/Nostr.v ===== *)
(** * Nostr events and the libraries the sources call

    [github.com/ohstr/nmilat] (events, keys, NIP-46, NIP-OA), the YAML decoder,
    [regexp] and [crypto/sha256] are not part of the repository: the model
    takes what it uses of them as the operations of the class [Nmilat], so
    every theorem holds for any implementation of them.  What a theorem needs
    of them is a named hypothesis, and [NmilatLaws] collects the documented
    behaviour several theorems share.  [reference_nmilat] is a small concrete
    implementation used by the witnesses. *)
From S2P Require Import Prelude GoTime GoStrings.
From stdpp Require Import options.
From Stdlib Require Import Ascii.

Local Open Scope string_scope.

(** ** [nip01.Event] *)

(** [CreatedAt] is a [uint64], [Kind] an [int]. *)
Record Event := mkEvent {
  ev_ID : string;
  ev_PubKey : string;
  ev_CreatedAt : Z;
  ev_Kind : Z;
  ev_Tags : list (list string);
  ev_Content : string;
  ev_Sig : string;
}.

#[export] Instance Event_eq_dec : EqDecision Event.
Proof. solve_decision. Defined.

(** ** Method names ([nip46], [nipOA.MethodSignAttestation]) *)

Definition MethodConnect := "connect".
Definition MethodSignEvent := "sign_event".
Definition MethodPing := "ping".
Definition MethodGetPublicKey := "get_public_key".
Definition MethodGetRelays := "get_relays".
Definition MethodNIP04Encrypt := "nip04_encrypt".
Definition MethodNIP04Decrypt := "nip04_decrypt".
Definition MethodNIP44Encrypt := "nip44_encrypt".
Definition MethodNIP44Decrypt := "nip44_decrypt".
Definition MethodNIP44MessageKeys := "nip44_message_keys".
Definition MethodSwitchRelays := "switch_relays".
Definition MethodLogout := "logout".
Definition MethodAttest := "nipoa_attest".

(** [nip59.KindSeal] *)
Definition KindSeal : Z := 13.

(** ** [nipOA.Conditions] *)

Record Conditions := mkConditions {
  c_Kinds : list Z;
  c_CreatedAtLT : list Z;
}.

(** ** The libraries as an interface *)

Class Nmilat := {
  (** [utils.Validate32Key(s) == nil] *)
  Validate32Key : string -> bool;
  (** [nip19.DecodePublicKey] *)
  DecodePublicKey : string -> option string;
  (** [ev.Verify() == nil] *)
  Verify : Event -> bool;
  (** [ev.Verify(nip01.WithoutPowCheck()) == nil] *)
  VerifyWithoutPow : Event -> bool;
  (** [json.Unmarshal] into a [nip01.Event] *)
  UnmarshalEvent : string -> option Event;
  (** [nipOA.ParseConditions] *)
  ParseConditions : string -> option Conditions;
  (** [regexp.Compile], with the compiled expression's [MatchString] *)
  regexp_Compile : string -> option (string -> bool);
  (** [hex(sha256.Sum256(data))] *)
  sha256_hex : string -> string;
}.

(** Documented behaviour: a 32-byte key is written as 64 hexadecimal digits,
    an npub decodes to such a key, and an event that verifies carries its
    id. *)
Class NmilatLaws (N : Nmilat) := {
  Validate32Key_hex s :
    Validate32Key s = true ->
    String.length s = 64%nat /\ all_bytes is_hex_byte s = true;
  DecodePublicKey_hex s k :
    DecodePublicKey s = Some k ->
    String.length k = 64%nat /\ all_bytes is_hex_byte k = true;
  Verify_ID e : Verify e = true -> ev_ID e <> "";
}.

(** ** Small list searches written out in the source *)

Definition containsString (xs : list string) (x : string) : bool :=
  existsb (fun v => String.eqb v x) xs.

Definition containsInt (xs : list Z) (x : Z) : bool :=
  existsb (fun v => Z.eqb v x) xs.

Lemma containsString_true xs x : containsString xs x = true <-> x ∈ xs.
Proof.
  unfold containsString. rewrite existsb_elem. split.
  - intros (v & Hv & ->%String.eqb_eq). done.
  - intros Hx. exists x. by rewrite String.eqb_refl.
Qed.

Lemma containsInt_true xs x : containsInt xs x = true <-> x ∈ xs.
Proof.
  unfold containsInt. rewrite existsb_elem. split.
  - intros (v & Hv & ->%Z.eqb_eq). done.
  - intros Hx. exists x. by rewrite Z.eqb_refl.
Qed.

(** ** A concrete implementation, for witnesses *)

Definition is_key (s : string) : bool :=
  (String.length s =? 64)%nat && all_bytes is_hex_byte s.

(** An event verifies when it has an id and its signature reads "sig:" and the
    id; events are
    written as a fixed list of examples elsewhere; conditions read
    [created_at<N]; a regular expression is a substring search; the digest of
    a text is the text itself. *)
Definition reference_nmilat : Nmilat := {|
  Validate32Key := is_key;
  DecodePublicKey s :=
    match CutPrefix s "npub1" with
    | Some k => if is_key k then Some k else None
    | None => None
    end;
  Verify e := negb (is_empty (ev_ID e)) && String.eqb (ev_Sig e) ("sig:" ++ ev_ID e);
  VerifyWithoutPow e := String.eqb (ev_Sig e) ("sig:" ++ ev_ID e);
  UnmarshalEvent s :=
    match CutPrefix s "seal:" with
    | Some k => Some (mkEvent "seal-id" k 0 13 [] "" "sig:seal-id")
    | None => None
    end;
  ParseConditions s :=
    match CutPrefix s "created_at<" with
    | Some n => option_map (fun z => mkConditions [] [z]) (Atoi n)
    | None => None
    end;
  regexp_Compile p := if is_empty p then None else Some (fun s => Contains s p);
  sha256_hex s := s;
|}.

#[export] Instance reference_laws : NmilatLaws reference_nmilat.
Proof.
  constructor; simpl.
  - unfold is_key. intros s [H%Nat.eqb_eq ?]%andb_true_iff. done.
  - intros s k H. destruct (CutPrefix s "npub1") as [k'|]; [|done].
    destruct (is_key k') eqn:E; [|done]. injection H as ->.
    unfold is_key in E. apply andb_true_iff in E as [E%Nat.eqb_eq ?]. done.
  - intros e [H _]%andb_true_iff Hid. by rewrite Hid in H.
Qed.
