(* ===== verification/SignerPolicy.v ===== *)
(** * The signer's policy: data and validation

    Models [src/signer/policy.go] and the policy half of [src/signer/nipoa.go]:
    the policy document ([Policy], [Rule], [Selector], [AttestSelector],
    [AttestationSpec], [Bind]), its validation ([ParsePolicy] and everything it
    calls) and the accessors of a validated policy.  Validation fills the
    unexported fields (key sets, compiled expressions, parsed rate), which are
    zero in a decoded document; a rejected document is an [Err] naming the
    check that refused it.  [policy_wf] states what a loaded policy is
    guaranteed to satisfy and [ParsePolicy_wf] proves it. *)
From S2P Require Import Prelude GoTime GoStrings Nostr.
From stdpp Require Import options.
From Stdlib Require Import Ascii.

Local Open Scope string_scope.

(** ** Constants *)

Definition PolicyKind := "signer-policy".
Definition DefaultMaxClockSkew : Z := 10 * Minute.
Definition MaxAttestationAge : Z := 24 * Hour.

Definition ruleMethods : list string :=
  [MethodSignEvent; MethodNIP04Encrypt; MethodNIP04Decrypt; MethodNIP44Encrypt;
   MethodNIP44Decrypt; MethodNIP44MessageKeys; MethodAttest].

(** ** Data *)

Record AttestSelector := mkAttestSelector {
  as_Subordinates : list string;
  as_MaxUntil : option Z;
  as_Kinds : list Z;
  as_any : bool;
  as_subs : gset string;
}.

(** [s_counterparts] and [s_unwrapFrom] are maps that may be nil, which the
    evaluation distinguishes from an empty map. *)
Record Selector := mkSelector {
  s_Methods : list string;
  s_Kinds : list Z;
  s_Counterparts : list string;
  s_Tags : gmap string (list string);
  s_TagsOne : gmap string (list string);
  s_UnwrapFrom : list string;
  s_Attest : option AttestSelector;
  s_counterparts : option (gset string);
  s_unwrapFrom : option (gset string);
}.

Definition set_s_Methods (ms : list string) (s : Selector) : Selector :=
  mkSelector ms (s_Kinds s) (s_Counterparts s) (s_Tags s) (s_TagsOne s)
    (s_UnwrapFrom s) (s_Attest s) (s_counterparts s) (s_unwrapFrom s).
Definition set_s_Attest (a : option AttestSelector) (s : Selector) : Selector :=
  mkSelector (s_Methods s) (s_Kinds s) (s_Counterparts s) (s_Tags s) (s_TagsOne s)
    (s_UnwrapFrom s) a (s_counterparts s) (s_unwrapFrom s).
Definition set_s_counterparts (c : option (gset string)) (s : Selector) : Selector :=
  mkSelector (s_Methods s) (s_Kinds s) (s_Counterparts s) (s_Tags s) (s_TagsOne s)
    (s_UnwrapFrom s) (s_Attest s) c (s_unwrapFrom s).
Definition set_s_unwrapFrom (u : option (gset string)) (s : Selector) : Selector :=
  mkSelector (s_Methods s) (s_Kinds s) (s_Counterparts s) (s_Tags s) (s_TagsOne s)
    (s_UnwrapFrom s) (s_Attest s) (s_counterparts s) u.

Definition null {A} (l : list A) : bool := match l with [] => true | _ => false end.
Definition null_map (m : gmap string (list string)) : bool := bool_decide (m = ∅).
Definition is_some {A} (o : option A) : bool := match o with Some _ => true | None => false end.

Definition Selector_empty (s : Selector) : bool :=
  null (s_Methods s) && null (s_Kinds s) && null (s_Counterparts s)
  && null_map (s_Tags s) && null_map (s_TagsOne s) && null (s_UnwrapFrom s)
  && negb (is_some (s_Attest s)).

Record Bind := mkBind {
  b_Tag : string;
  b_From : string;
  b_Content : option string;
  b_ContentContains : option string;
}.

(** [b.bindsID()]: the bind names the target's id. *)
Definition Bind_bindsID (b : Bind) : bool :=
  match b_Content b, b_ContentContains b with
  | Some t, _ => Contains t "{id}"
  | None, Some t => Contains t "{id}"
  | None, None => String.eqb (b_From b) "id"
  end.

Record AttestationSpec := mkAttestationSpec {
  a_Name : string;
  a_Kinds : list Z;
  a_Authors : list string;
  a_AuthorsFile : string;
  a_MaxAge : Z;
  a_Binds : list Bind;
  a_authors : gset string;
  a_authorsSum : string;
  a_bindsID : bool;
}.

Record Rate := mkRate { rate_N : Z; rate_Per : Z }.

#[export] Instance Rate_eq_dec : EqDecision Rate.
Proof. solve_decision. Defined.

Record Rule := mkRule {
  r_Name : string;
  r_Allow : option Selector;
  r_Deny : option Selector;
  r_DenyMatching : list string;
  r_Rate : string;
  r_MaxClockSkew : option Z;
  r_Require : option (list AttestationSpec);
  r_denyRe : list (string -> bool);
  r_rate : option Rate;
}.

(** [r.selector()]: nil when the rule has neither. *)
Definition Rule_selector (r : Rule) : option Selector :=
  match r_Allow r with Some s => Some s | None => r_Deny r end.

Record Policy := mkPolicy {
  p_Kind : string;
  p_MaxClockSkew : option Z;
  p_Rules : list Rule;
  p_SHA256 : string;
  p_Files : list string;
  p_fileSums : list string;
}.

Definition Policy_Skew (p : Policy) : Z := default DefaultMaxClockSkew (p_MaxClockSkew p).

Definition Policy_ruleSkew (p : Policy) (r : Rule) : Z :=
  default (Policy_Skew p) (r_MaxClockSkew r).

Definition UsesAttestations (p : Policy) : bool :=
  existsb (fun r => match r_Require r with Some atts => negb (null atts) | None => false end)
    (p_Rules p).

(** [p.snapshot()]: each file with the hash it had when the policy was read;
    [Files] and [fileSums] grow together. *)
Definition Policy_snapshot (p : Policy) : string :=
  Join (zip_with (fun f s => f ++ "=" ++ s) (p_Files p) (p_fileSums p)) (String "010" "").

Record LoadOptions := mkLoadOptions { AllowCatchAll : bool; lo_SignerPub : string }.

(** What validation can refuse, one constructor per error of the source. *)
Inductive PolicyError :=
| EUnmarshal | EKind (k : string) | ENoRules | EReadFile (path : string)
| ERule (label : string) (e : PolicyError) | EDuplicateRule (name : string)
| ENameRequired | EAllowXorDeny | ECatchAll
| EUnknownMethod (m : string) | EAttestCombined | EAttestMethods
| EUnwrapCombined | EUnwrapMethods | EPubkey (field s : string)
| ESplitRules | EKindsMethod (m : string) | ECounterpartsSignEvent
| ETags | ETagsOne
| ESubordinates | EAttestDeny | EMaxUntil | EAttestKind (k : Z)
| EAttestRuleFields | EAttestAllow | EUnwrapDeny | EMessageKeys | EDenyFields
| ERegexp (i : nat) | ERate (s : string)
| ERequireEmpty | ERequireSignEvent
| EAttestation (label : string) (e : PolicyError) | EDuplicateAttestation (name : string)
| EKindsRequired | EMaxAgeRequired | EMaxAgeCap (d : Z) | EBindsRequired
| EAuthorsFile (path : string) | EAuthorsLine (path : string) (line : nat)
| EAuthorsRequired | EAuthorsSigner
| EBind (i : nat) (e : PolicyError) | EBindForm | ETagFrom | EFrom (s : string)
| ETemplateEmpty | EPlaceholder (s : string) | ETemplateTags.

(** The files [os.ReadFile] sees. *)
Abbreviation FileSystem := (string -> option string).

Section Validation.
Context `{NL : Nmilat}.

(** [ParsePubkey]: an npub or 64-char hex key, as lowercase hex. *)
Definition ParsePubkey (s : string) : option string :=
  let s := TrimSpace s in
  if HasPrefix s "npub1" then option_map ToLower (DecodePublicKey s)
  else if Validate32Key s then Some (ToLower s) else None.

Definition parse_keys (field : string) (xs : list string) : result PolicyError (list string) :=
  mapM_res (fun c => match ParsePubkey c with
                     | Some k => Ok k
                     | None => Err (EPubkey field c)
                     end) xs.

(** [ParseRate] *)
Definition ParseRate (s : string) : option Rate :=
  match Cut (TrimSpace s) "/" with
  | (n, unit_, true) =>
      match Atoi n with
      | Some count =>
          if (count <=? 0)%Z then None
          else if String.eqb unit_ "s" then Some (mkRate count Second)
          else if String.eqb unit_ "m" then Some (mkRate count Minute)
          else if String.eqb unit_ "h" then Some (mkRate count Hour)
          else None
      | None => None
      end
  | _ => None
  end.

(** [a.validate(allow)] of an attest selector. *)
Definition AttestSelector_validate (allow : bool) (a : AttestSelector)
    : result PolicyError AttestSelector :=
  refuse_if (null (as_Subordinates a)) ESubordinates ;;
  keys ← parse_keys "attest: subordinates"
           (List.filter (fun s => negb (String.eqb (TrimSpace s) "*")) (as_Subordinates a));
  let a := mkAttestSelector (as_Subordinates a) (as_MaxUntil a) (as_Kinds a)
             (existsb (fun s => String.eqb (TrimSpace s) "*") (as_Subordinates a))
             (list_to_set keys) in
  if negb allow then
    refuse_if (is_some (as_MaxUntil a) || negb (null (as_Kinds a))) EAttestDeny ;; Ok a
  else
    refuse_if (negb (is_some (as_MaxUntil a))) EMaxUntil ;;
    mapM_res (fun k => refuse_if ((k <? 0) || (65535 <? k))%Z (EAttestKind k)) (as_Kinds a) ;;
    Ok a.

Definition known_method (m : string) : bool := containsString ruleMethods m.

Definition tags_entry_ok (e : string * list string) : bool :=
  negb (is_empty e.1) && negb (null e.2).

(** The [unwrap_from] block of [validateSelector]. *)
Definition validateUnwrapFrom (s : Selector) : result PolicyError Selector :=
  refuse_if (negb (null (s_Counterparts s)) || negb (null (s_Kinds s))
             || negb (null_map (s_Tags s)) || negb (null_map (s_TagsOne s))) EUnwrapCombined ;;
  let s := if null (s_Methods s) then set_s_Methods [MethodNIP44Decrypt] s else s in
  refuse_if (negb (bool_decide (s_Methods s = [MethodNIP44Decrypt]))) EUnwrapMethods ;;
  keys ← parse_keys "unwrap_from" (s_UnwrapFrom s);
  Ok (set_s_unwrapFrom (Some (list_to_set keys)) s).

(** The methods a selector without a [methods] field covers, and the checks
    on one that has it. *)
Definition validateMethods (s : Selector) : result PolicyError Selector :=
  let eventFields := negb (null (s_Kinds s)) || negb (null_map (s_Tags s))
                     || negb (null_map (s_TagsOne s)) in
  let hasCounterparts := negb (null (s_Counterparts s)) in
  if null (s_Methods s) then
    if eventFields && hasCounterparts then Err ESplitRules
    else if eventFields then Ok (set_s_Methods [MethodSignEvent] s)
    else if hasCounterparts then
      Ok (set_s_Methods [MethodNIP04Encrypt; MethodNIP04Decrypt;
                         MethodNIP44Encrypt; MethodNIP44Decrypt] s)
    else Ok s
  else
    mapM_res (fun m =>
      refuse_if (eventFields && negb (String.eqb m MethodSignEvent)) (EKindsMethod m) ;;
      refuse_if (hasCounterparts && String.eqb m MethodSignEvent) ECounterpartsSignEvent)
      (s_Methods s) ;;
    Ok s.

(** [validateSelector]: checks [s] and fills its derived fields. *)
Definition validateSelector (s : Selector) : result PolicyError Selector :=
  mapM_res (fun m => refuse_if (negb (known_method m)) (EUnknownMethod m)) (s_Methods s) ;;
  if is_some (s_Attest s) then
    refuse_if (negb (null (s_Counterparts s)) || negb (null (s_Kinds s))
               || negb (null_map (s_Tags s)) || negb (null_map (s_TagsOne s))
               || negb (null (s_UnwrapFrom s))) EAttestCombined ;;
    let s := if null (s_Methods s) then set_s_Methods [MethodAttest] s else s in
    refuse_if (negb (bool_decide (s_Methods s = [MethodAttest]))) EAttestMethods ;;
    Ok s
  else
    s ← (if null (s_UnwrapFrom s) then Ok s else validateUnwrapFrom s);
    s ← validateMethods s;
    refuse_if (negb (forallb tags_entry_ok (map_to_list (s_Tags s)))) ETags ;;
    refuse_if (negb (forallb (fun e => tags_entry_ok e && negb (is_some (s_Tags s !! e.1)))
                       (map_to_list (s_TagsOne s)))) ETagsOne ;;
    if null (s_Counterparts s) then Ok s
    else
      keys ← parse_keys "counterparts" (s_Counterparts s);
      Ok (set_s_counterparts (Some (list_to_set keys)) s).

Definition onlySignEvent (s : Selector) : bool :=
  bool_decide (s_Methods s = [MethodSignEvent]).

(** ** Templates *)

(** The bodies of the matches of [placeholderRe], in order: [{], bytes other
    than braces, [}].  [cur] is the body read since the last [{], reversed. *)
Fixpoint placeholders_from (s : string) (cur : option string) : list string :=
  match s with
  | EmptyString => []
  | String c s' =>
      if Ascii.eqb c "{" then placeholders_from s' (Some "")
      else if Ascii.eqb c "}" then
        match cur with
        | Some b => rev_string b "" :: placeholders_from s' None
        | None => placeholders_from s' None
        end
      else placeholders_from s' (option_map (String c) cur)
  end.

Definition placeholders (s : string) : list string := placeholders_from s None.

Fixpoint check_placeholders (phs : list string) (tagName : string) : result PolicyError unit :=
  match phs with
  | [] => Ok ()
  | ph :: phs =>
      if String.eqb ph "id" then check_placeholders phs tagName
      else match CutPrefix ph "tag:" with
           | None => Err (EPlaceholder ph)
           | Some u =>
               refuse_if (is_empty u) (EPlaceholder ph) ;;
               refuse_if (negb (is_empty tagName) && negb (String.eqb tagName u)) ETemplateTags ;;
               check_placeholders phs u
           end
  end.

Definition validateTemplate (t : string) : result PolicyError unit :=
  refuse_if (is_empty (TrimSpace t)) ETemplateEmpty ;;
  check_placeholders (placeholders t) "".

Definition validateBind (b : Bind) : result PolicyError unit :=
  let forms := ((if negb (is_empty (b_Tag b)) || negb (is_empty (b_From b)) then 1 else 0)
                + (if is_some (b_Content b) then 1 else 0)
                + (if is_some (b_ContentContains b) then 1 else 0))%nat in
  refuse_if (negb (forms =? 1)%nat) EBindForm ;;
  match b_Content b, b_ContentContains b with
  | Some t, _ => validateTemplate t
  | None, Some t => validateTemplate t
  | None, None =>
      refuse_if (is_empty (b_Tag b) || is_empty (b_From b)) ETagFrom ;;
      if String.eqb (b_From b) "id" then Ok ()
      else match CutPrefix (b_From b) "tag:" with
           | Some u => refuse_if (is_empty u) (EFrom (b_From b))
           | None => Err (EFrom (b_From b))
           end
  end.

(** ** Attestations *)

Definition resolvePath (baseDir p : string) : string :=
  if IsAbs p || is_empty baseDir then p else Join2 baseDir p.

(** [readAuthorsFile]: the keys of the file and its digest. *)
Definition readAuthorsFile (fs : FileSystem) (path : string)
    : result PolicyError (list string * string) :=
  match fs path with
  | None => Err (EAuthorsFile path)
  | Some data =>
      keys ← imapM_res (fun i line =>
               let s := TrimSpace line in
               if is_empty s || HasPrefix s "#" then Ok []
               else match ParsePubkey s with
                    | Some k => Ok [k]
                    | None => Err (EAuthorsLine path (S i))
                    end) 0 (Split data "010");
      Ok (List.concat keys, sha256_hex data)
  end.

Definition validateAttestation (fs : FileSystem) (baseDir : string) (opts : LoadOptions)
    (a : AttestationSpec) : result PolicyError AttestationSpec :=
  refuse_if (is_empty (a_Name a)) ENameRequired ;;
  refuse_if (null (a_Kinds a)) EKindsRequired ;;
  refuse_if (a_MaxAge a <=? 0)%Z EMaxAgeRequired ;;
  refuse_if (MaxAttestationAge <? a_MaxAge a)%Z (EMaxAgeCap (a_MaxAge a)) ;;
  refuse_if (null (a_Binds a)) EBindsRequired ;;
  own ← parse_keys "authors" (a_Authors a);
  '(keys, sum) ← (if is_empty (a_AuthorsFile a) then Ok ([], "")
                  else readAuthorsFile fs (resolvePath baseDir (a_AuthorsFile a)));
  let authors : gset string := list_to_set (own ++ keys)%list in
  refuse_if (bool_decide (authors = ∅)) EAuthorsRequired ;;
  refuse_if (negb (is_empty (lo_SignerPub opts))
             && bool_decide (ToLower (lo_SignerPub opts) ∈ authors)) EAuthorsSigner ;;
  imapM_res (fun i b => wrap_err (EBind (S i)) (validateBind b)) 0 (a_Binds a) ;;
  Ok (mkAttestationSpec (a_Name a) (a_Kinds a) (a_Authors a) (a_AuthorsFile a) (a_MaxAge a)
        (a_Binds a) authors sum (existsb Bind_bindsID (a_Binds a))).

Definition label_or_index (name : string) (i : nat) : string :=
  if is_empty name then "#" ++ Itoa (Z.of_nat i + 1) else name.

(** The attestation loop of [validateRule]: the checked specs and the authors
    files they read. *)
Fixpoint validateAttestations (fs : FileSystem) (baseDir : string) (opts : LoadOptions)
    (i : nat) (seen : gset string) (atts : list AttestationSpec)
    : result PolicyError (list AttestationSpec * list (string * string)) :=
  match atts with
  | [] => Ok ([], [])
  | a :: atts =>
      a ← wrap_err (EAttestation (label_or_index (a_Name a) i))
            (validateAttestation fs baseDir opts a);
      refuse_if (bool_decide (a_Name a ∈ seen)) (EDuplicateAttestation (a_Name a)) ;;
      '(rest, files) ← validateAttestations fs baseDir opts (S i) ({[a_Name a]} ∪ seen) atts;
      Ok (a :: rest,
          ((if is_empty (a_AuthorsFile a) then []
            else [(resolvePath baseDir (a_AuthorsFile a), a_authorsSum a)]) ++ files)%list)
  end.

(** ** Rules *)

Definition compile_all (pats : list string) : result PolicyError (list (string -> bool)) :=
  imapM_res (fun i pat => match regexp_Compile pat with
                          | Some re => Ok re
                          | None => Err (ERegexp (S i))
                          end) 0 pats.

(** The checks of [validateRule] that relate a rule's fields to its (checked)
    selector. *)
Definition validateRuleFields (r : Rule) (sel : Selector) : result PolicyError Selector :=
  let allow := is_some (r_Allow r) in
  let extras := negb (null (r_DenyMatching r)) || is_some (r_Require r)
                || is_some (r_MaxClockSkew r) in
  sel ← match s_Attest sel with
        | Some a =>
            a ← AttestSelector_validate allow a;
            refuse_if extras EAttestRuleFields ;;
            Ok (set_s_Attest (Some a) sel)
        | None =>
            refuse_if (allow && containsString (s_Methods sel) MethodAttest) EAttestAllow ;;
            Ok sel
        end;
  refuse_if (is_some (r_Deny r) && negb (null (s_UnwrapFrom sel))) EUnwrapDeny ;;
  refuse_if (allow && containsString (s_Methods sel) MethodNIP44MessageKeys
             && null (s_Counterparts sel)) EMessageKeys ;;
  refuse_if (is_some (r_Deny r) && (extras || negb (is_empty (r_Rate r)))) EDenyFields ;;
  Ok sel.

Definition validateRule (fs : FileSystem) (baseDir : string) (opts : LoadOptions) (r : Rule)
    : result PolicyError (Rule * list (string * string)) :=
  refuse_if (is_empty (r_Name r)) ENameRequired ;;
  refuse_if (Bool.eqb (is_some (r_Allow r)) (is_some (r_Deny r))) EAllowXorDeny ;;
  match Rule_selector r with
  | None => Err EAllowXorDeny
  | Some sel =>
      let allow := is_some (r_Allow r) in
      refuse_if (allow && Selector_empty sel && negb (AllowCatchAll opts)) ECatchAll ;;
      sel ← validateSelector sel;
      sel ← validateRuleFields r sel;
      res ← compile_all (r_DenyMatching r);
      rate ← (if is_empty (r_Rate r) then Ok None
              else match ParseRate (r_Rate r) with
                   | Some rt => Ok (Some rt)
                   | None => Err (ERate (r_Rate r))
                   end);
      '(req, files) ←
        match r_Require r with
        | None => Ok (None, [])
        | Some atts =>
            refuse_if (null atts) ERequireEmpty ;;
            refuse_if (negb (onlySignEvent sel)) ERequireSignEvent ;;
            '(atts, files) ← validateAttestations fs baseDir opts 0 ∅ atts;
            Ok (Some atts, files)
        end;
      Ok (mkRule (r_Name r) (if allow then Some sel else None) (if allow then None else Some sel)
            (r_DenyMatching r) (r_Rate r) (r_MaxClockSkew r) req res rate, files)
  end.

(** ** The document *)

Fixpoint validateRules (fs : FileSystem) (baseDir : string) (opts : LoadOptions)
    (i : nat) (names : gset string) (rules : list Rule)
    : result PolicyError (list Rule * list (string * string)) :=
  match rules with
  | [] => Ok ([], [])
  | r :: rules =>
      '(r, files) ← wrap_err (ERule (label_or_index (r_Name r) i))
                      (validateRule fs baseDir opts r);
      refuse_if (bool_decide (r_Name r ∈ names)) (EDuplicateRule (r_Name r)) ;;
      '(rest, files') ← validateRules fs baseDir opts (S i) ({[r_Name r]} ∪ names) rules;
      Ok (r :: rest, (files ++ files')%list)
  end.

(** [yaml.UnmarshalStrict] into a [Policy], a parameter; decoding leaves the
    unexported fields at their zero value. *)
Variable UnmarshalPolicy : string -> option Policy.

Definition Selector_decoded (s : Selector) : Selector :=
  set_s_counterparts None (set_s_unwrapFrom None s).

Definition Rule_decoded (r : Rule) : Rule :=
  mkRule (r_Name r) (option_map Selector_decoded (r_Allow r)) (option_map Selector_decoded (r_Deny r))
    (r_DenyMatching r) (r_Rate r) (r_MaxClockSkew r) (r_Require r) [] None.

Definition ParsePolicy (fs : FileSystem) (data baseDir : string) (opts : LoadOptions)
    : result PolicyError Policy :=
  match UnmarshalPolicy data with
  | None => Err EUnmarshal
  | Some p =>
      refuse_if (negb (EqualFold (p_Kind p) PolicyKind)) (EKind (p_Kind p)) ;;
      refuse_if (null (p_Rules p)) ENoRules ;;
      '(rules, files) ← validateRules fs baseDir opts 0 ∅ (map Rule_decoded (p_Rules p));
      Ok (mkPolicy (p_Kind p) (p_MaxClockSkew p) rules (sha256_hex data) files.*1 files.*2)
  end.

(** [filepath.Dir] of the policy's path is an argument. *)
Definition LoadPolicy (fs : FileSystem) (path dir : string) (opts : LoadOptions)
    : result PolicyError Policy :=
  match fs path with
  | None => Err (EReadFile path)
  | Some data =>
      p ← ParsePolicy fs data dir opts;
      Ok (mkPolicy (p_Kind p) (p_MaxClockSkew p) (p_Rules p) (p_SHA256 p)
            (path :: p_Files p) (p_SHA256 p :: p_fileSums p))
  end.
End Validation.

(** ** What a loaded policy satisfies *)

Record attestation_wf (opts : LoadOptions) (a : AttestationSpec) : Prop := {
  awf_name : a_Name a <> "";
  awf_kinds : a_Kinds a <> [];
  awf_age : (0 < a_MaxAge a <= MaxAttestationAge)%Z;
  awf_binds : a_Binds a <> [];
  awf_authors : a_authors a <> ∅;
  awf_signer : lo_SignerPub opts <> "" -> ToLower (lo_SignerPub opts) ∉ a_authors a;
  awf_bindsID : a_bindsID a = existsb Bind_bindsID (a_Binds a);
}.

Record selector_wf (opts : LoadOptions) (allow : bool) (s : Selector) : Prop := {
  swf_known m : m ∈ s_Methods s -> m ∈ ruleMethods;
  swf_attest a : s_Attest s = Some a ->
    s_Methods s = [MethodAttest] /\ (allow = true -> is_Some (as_MaxUntil a));
  swf_no_attest : s_Attest s = None -> allow = true -> MethodAttest ∉ s_Methods s;
  swf_any : allow = true -> s_Methods s = [] -> AllowCatchAll opts = true;
  swf_message_keys : allow = true -> MethodNIP44MessageKeys ∈ s_Methods s ->
    is_Some (s_counterparts s);
  swf_unwrap : s_Attest s = None -> s_UnwrapFrom s <> [] ->
    s_Methods s = [MethodNIP44Decrypt] /\ is_Some (s_unwrapFrom s);
  swf_unwrap_set : is_Some (s_unwrapFrom s) -> s_Methods s = [MethodNIP44Decrypt];
}.

Record rule_wf (opts : LoadOptions) (r : Rule) : Prop := {
  rwf_name : r_Name r <> "";
  rwf_selector : exists sel,
    Rule_selector r = Some sel /\ selector_wf opts (is_some (r_Allow r)) sel;
  rwf_one : is_some (r_Allow r) = negb (is_some (r_Deny r));
  rwf_deny : is_some (r_Deny r) = true ->
    r_Require r = None /\ r_MaxClockSkew r = None /\ r_rate r = None /\ r_denyRe r = [];
  rwf_require atts : r_Require r = Some atts ->
    atts <> [] /\ Forall (attestation_wf opts) atts /\ NoDup (a_Name <$> atts) /\
    (exists sel, Rule_selector r = Some sel /\ s_Methods sel = [MethodSignEvent]);
}.

Record policy_wf (opts : LoadOptions) (p : Policy) : Prop := {
  pwf_rules : Forall (rule_wf opts) (p_Rules p);
  pwf_some : p_Rules p <> [];
  pwf_names : NoDup (r_Name <$> p_Rules p);
  pwf_files : length (p_Files p) = length (p_fileSums p);
}.

Lemma null_true {A} (l : list A) : null l = true <-> l = [].
Proof. by destruct l. Qed.
Lemma null_false {A} (l : list A) : null l = false <-> l <> [].
Proof. by destruct l. Qed.
Lemma null_map_true m : null_map m = true <-> m = ∅.
Proof. apply bool_decide_eq_true. Qed.

(** Turn emptiness tests into equations. *)
Ltac clean_nulls :=
  propify;
  repeat match goal with
  | H : null _ = true |- _ => apply null_true in H
  | H : null _ = false |- _ => apply null_false in H
  | H : null_map _ = true |- _ => apply null_map_true in H
  | H : is_empty _ = false |- _ => apply is_empty_false in H
  | H : is_empty _ = true |- _ => apply is_empty_true in H
  end.

Section ValidationLemmas.
Context `{NL : Nmilat}.

Lemma validateAttestation_wf fs dir opts a a' :
  validateAttestation fs dir opts a = Ok a' ->
  attestation_wf opts a' /\ a_Name a' = a_Name a.
Proof.
  unfold validateAttestation. intros H. unbind H.
  injection H as <-. propify.
  apply is_empty_false in B. apply null_false in B0, B3.
  split; [|done]. constructor; simpl; try done.
  intros Hp. destruct B7 as [He|He]; propify; [|done]. by destruct (lo_SignerPub opts).
Qed.

Lemma validateAttestations_wf fs dir opts i seen atts atts' files :
  validateAttestations fs dir opts i seen atts = Ok (atts', files) ->
  Forall (attestation_wf opts) atts' /\ NoDup (a_Name <$> atts') /\
  length atts' = length atts /\ (forall n, n ∈ seen -> n ∉ a_Name <$> atts').
Proof.
  revert i seen atts' files. induction atts as [|a atts IH]; simpl; intros i seen atts' files H.
  - injection H as <- <-. split_and!; [done | constructor | done | set_solver].
  - unbind H. injection H as <- <-.
    apply wrap_err_Ok, validateAttestation_wf in B as [Hwf Hn].
    apply IH in B1 as (Hall & Hnd & Hlen & Hdis). propify. simpl. split_and!.
    + by constructor.
    + constructor; [|done]. apply Hdis. set_solver.
    + by rewrite Hlen.
    + intros n Hin. rewrite not_elem_of_cons. split; [set_solver | apply Hdis; set_solver].
Qed.

Lemma validateUnwrapFrom_spec s s' :
  validateUnwrapFrom s = Ok s' ->
  exists ks, parse_keys "unwrap_from" (s_UnwrapFrom s) = Ok ks /\
    (s_Methods s = [] \/ s_Methods s = [MethodNIP44Decrypt]) /\
    s_Kinds s = [] /\ s_Counterparts s = [] /\ s_Tags s = ∅ /\ s_TagsOne s = ∅ /\
    s' = set_s_unwrapFrom (Some (list_to_set ks)) (set_s_Methods [MethodNIP44Decrypt] s).
Proof.
  unfold validateUnwrapFrom. intros H. unbind H. injection H as <-. clean_nulls.
  destruct s as [ms ks cs tags ones uf att cp u]; simpl in *; subst.
  destruct ms as [|m ms]; simpl in *; subst; [by eauto 10|].
  injection B0 as -> ->. eauto 10.
Qed.

Lemma validateMethods_spec s s' :
  validateMethods s = Ok s' ->
  s' = s \/ (s_Methods s = [] /\ exists ms, s' = set_s_Methods ms s /\
            (ms = [MethodSignEvent] \/
             ms = [MethodNIP04Encrypt; MethodNIP04Decrypt; MethodNIP44Encrypt; MethodNIP44Decrypt])).
Proof.
  unfold validateMethods. intros H.
  destruct (null (s_Methods s)) eqn:En.
  - apply null_true in En. repeat split_match H; injection H as <-; eauto 10.
  - unbind H. injection H as <-. by left.
Qed.

(** A selector that ends up without methods was empty. *)
Lemma validateMethods_any s s' :
  validateMethods s = Ok s' -> s_Methods s' = [] ->
  s' = s /\ s_Methods s = [] /\ s_Kinds s = [] /\ s_Counterparts s = [] /\
  s_Tags s = ∅ /\ s_TagsOne s = ∅.
Proof.
  unfold validateMethods. intros H Hm.
  destruct (null (s_Methods s)) eqn:En.
  - apply null_true in En. repeat split_match H; injection H as <-; try done.
    by clean_nulls.
  - unbind H. injection H as <-. by rewrite Hm in En.
Qed.

(** What [validateSelector] guarantees, whichever rule the selector is of. *)
Record selector_checked (s s' : Selector) : Prop := {
  sc_known m : m ∈ s_Methods s' -> m ∈ ruleMethods;
  sc_attest : s_Attest s' = s_Attest s;
  sc_attest_methods : is_some (s_Attest s) = true -> s_Methods s' = [MethodAttest];
  sc_unwrapFrom : s_UnwrapFrom s' = s_UnwrapFrom s;
  sc_counterparts : s_Counterparts s' = s_Counterparts s;
  sc_any : s_Methods s' = [] -> Selector_empty s = true;
  sc_unwrap : s_Attest s = None -> s_UnwrapFrom s <> [] ->
    s_Methods s' = [MethodNIP44Decrypt] /\ is_Some (s_unwrapFrom s');
  sc_unwrap_set : s_unwrapFrom s = None -> is_Some (s_unwrapFrom s') ->
    s_Methods s' = [MethodNIP44Decrypt];
  sc_counterparts_set : s_Attest s = None -> s_Counterparts s <> [] ->
    is_Some (s_counterparts s');
}.

Lemma ruleMethods_defaults ms m :
  ms = [MethodSignEvent] \/
  ms = [MethodNIP04Encrypt; MethodNIP04Decrypt; MethodNIP44Encrypt; MethodNIP44Decrypt] \/
  ms = [MethodNIP44Decrypt] \/ ms = [MethodAttest] ->
  m ∈ ms -> m ∈ ruleMethods.
Proof.
  unfold ruleMethods. intros [->|[->|[->| ->]]]; rewrite !elem_of_cons; tauto.
Qed.

(** The tail of [validateSelector], once a selector without [attest] has its
    methods. *)
Lemma validateCounterparts_spec s s' :
  (refuse_if (negb (forallb tags_entry_ok (map_to_list (s_Tags s)))) ETags ;;
   refuse_if (negb (forallb (fun e => tags_entry_ok e && negb (is_some (s_Tags s !! e.1)))
                       (map_to_list (s_TagsOne s)))) ETagsOne ;;
   if null (s_Counterparts s) then Ok s
   else keys ← parse_keys "counterparts" (s_Counterparts s);
        Ok (set_s_counterparts (Some (list_to_set keys)) s)) = Ok s' ->
  exists c, s' = set_s_counterparts c s /\ (s_Counterparts s <> [] -> is_Some c).
Proof.
  intros H. unbind H. split_match H.
  - injection H as <-. clean_nulls. exists (s_counterparts s). by destruct s.
  - unbind H. injection H as <-. eauto.
Qed.

Lemma validateSelector_checked s s' :
  validateSelector s = Ok s' -> selector_checked s s'.
Proof.
  unfold validateSelector. intros H. unbind_step H.
  assert (Hknown : forall m, m ∈ s_Methods s -> m ∈ ruleMethods).
  { intros m Hm. eapply checks_Ok in B; [|done]. propify. by apply containsString_true. }
  clear B r. destruct (s_Attest s) as [a|] eqn:Ea; simpl in H.
  - unbind H. injection H as <-. clean_nulls.
    destruct s as [ms ks cs tags ones uf att cp u]; simpl in *; subst.
    destruct ms as [|m ms]; simpl in *; subst; constructor; simpl; try done; try congruence;
      try (intros ? [? ?]; congruence); intros m'; eauto using ruleMethods_defaults.
  - apply bind_Ok in H as (s1 & H1 & H). apply bind_Ok in H as (s2 & H2 & H).
    apply validateCounterparts_spec in H as (c & -> & Hc).
    destruct (null (s_UnwrapFrom s)) eqn:Eu; clean_nulls.
    + injection H1 as <-. constructor; simpl.
      * apply validateMethods_spec in H2 as [->|(Hm & ms & -> & Hms)]; [done|].
        intros m. apply ruleMethods_defaults. simpl. naive_solver.
      * apply validateMethods_spec in H2 as [->|(_ & ms & -> & _)]; done.
      * by rewrite Ea.
      * apply validateMethods_spec in H2 as [->|(_ & ms & -> & _)]; done.
      * apply validateMethods_spec in H2 as [->|(_ & ms & -> & _)]; done.
      * intros Hany. apply validateMethods_any in H2 as (_ & ? & ? & ? & ? & ?); [|done].
        unfold Selector_empty. destruct s; simpl in *; by subst.
      * done.
      * intros Hu [x Hx]. assert (s_unwrapFrom s2 = s_unwrapFrom s) as Heq
          by (by apply validateMethods_spec in H2 as [->|(_ & ms & -> & _)]).
        congruence.
      * intros _ Hne. apply Hc.
        by apply validateMethods_spec in H2 as [->|(_ & ms & -> & _)].
    + apply validateUnwrapFrom_spec in H1 as (ks & _ & _ & _ & Hcp & _ & _ & ->).
      apply validateMethods_spec in H2 as [->|(Hm & _)]; [|done].
      constructor; simpl; try done; try congruence.
      * intros m. apply ruleMethods_defaults. naive_solver.
      * by rewrite Ea.
Qed.

Lemma AttestSelector_validate_wf allow a a' :
  AttestSelector_validate allow a = Ok a' ->
  as_MaxUntil a' = as_MaxUntil a /\ as_Kinds a' = as_Kinds a /\
  (allow = true -> is_Some (as_MaxUntil a')).
Proof.
  unfold AttestSelector_validate. intros H. unbind H. destruct allow; simpl in H; unbind H;
    injection H as <-; simpl; [|done].
  split_and!; [done..|]. intros _. destruct (as_MaxUntil a); [by eexists | done].
Qed.

(** The selector of an accepted rule. *)
Lemma validateRuleFields_wf opts r s0 sel sel' :
  (is_some (r_Allow r) && Selector_empty s0 && negb (AllowCatchAll opts)) = false ->
  s_unwrapFrom s0 = None -> selector_checked s0 sel -> validateRuleFields r sel = Ok sel' ->
  selector_wf opts (is_some (r_Allow r)) sel' /\ s_Methods sel' = s_Methods sel /\
  (is_some (r_Deny r) = true -> r_DenyMatching r = [] /\ r_Require r = None /\
     r_MaxClockSkew r = None /\ r_Rate r = "").
Proof.
  intros Hcatch Hzero [] H. unfold validateRuleFields in H. unbind_step H.
  assert (Hsel : s_Methods r0 = s_Methods sel /\ s_UnwrapFrom r0 = s_UnwrapFrom sel /\
    s_Counterparts r0 = s_Counterparts sel /\ s_counterparts r0 = s_counterparts sel /\
    s_unwrapFrom r0 = s_unwrapFrom sel /\ is_some (s_Attest r0) = is_some (s_Attest sel) /\
    (forall a, s_Attest r0 = Some a -> is_some (r_Allow r) = true -> is_Some (as_MaxUntil a)) /\
    (s_Attest r0 = None -> is_some (r_Allow r) = true -> MethodAttest ∉ s_Methods sel)).
  { destruct (s_Attest sel) as [a|] eqn:Ea.
    - unbind B. injection B as <-. apply AttestSelector_validate_wf in B0 as (_ & _ & Hm).
      simpl. split_and!; try done. by intros ? [= <-].
    - unbind B. injection B as <-. rewrite Ea. split_and!; try done.
      intros _ Hal Hin%containsString_true. rewrite Hal, Hin in B0. done. }
  destruct Hsel as (Hm & Hu & Hc & Hcs & Hus & Hat & Hmu & Hna).
  unbind H. injection H as <-. split_and!; [|done|].
  - constructor; rewrite ?Hm, ?Hu, ?Hcs, ?Hus; try done.
    + intros a Ha. rewrite Ha in Hat. split; [|by apply Hmu].
      apply sc_attest_methods0. by rewrite <- sc_attest0, <- Hat.
    + intros Hal Hany. rewrite Hal, (sc_any0 Hany) in Hcatch. by apply negb_false_iff in Hcatch.
    + intros Hal Hin. rewrite Hal, Hm in B1.
      assert (Hin' := Hin). apply containsString_true in Hin'. rewrite Hin' in B1. simpl in B1.
      clean_nulls. rewrite Hc in B1. apply sc_counterparts_set0; [|congruence].
      destruct (s_Attest s0) eqn:E0; [|done].
      rewrite sc_attest_methods0 in Hin by done. by apply list_elem_of_singleton in Hin.
    + intros Hno Hne. apply sc_unwrap0; [|congruence].
      destruct (s_Attest s0); [|done]. rewrite Hno in Hat. by rewrite sc_attest0 in Hat.
    + by apply sc_unwrap_set0.
  - intros Hd. rewrite Hd in B2. simpl in B2. clean_nulls.
    destruct (r_Require r), (r_MaxClockSkew r); done.
Qed.

Lemma compile_all_nil res : compile_all [] = Ok res -> res = [].
Proof. by intros [= <-]. Qed.

Lemma validateRule_wf fs dir opts r r' files :
  (forall s, Rule_selector r = Some s -> s_unwrapFrom s = None) ->
  validateRule fs dir opts r = Ok (r', files) -> rule_wf opts r' /\ r_Name r' = r_Name r.
Proof.
  unfold validateRule. intros Hzero H. unbind H.
  destruct (Rule_selector r) as [s0|] eqn:Es; [|done]. unbind H. injection H as <- <-.
  apply validateSelector_checked in B2.
  pose proof (validateRuleFields_wf opts r s0 _ _ B1 (Hzero s0 eq_refl) B2 B3) as (Hwf & Hms & Hdeny).
  clear B2. apply is_empty_false in B. split; [|done].
  assert (Hone : is_some (r_Allow r) = negb (is_some (r_Deny r)))
    by (destruct (r_Allow r), (r_Deny r); done).
  constructor; simpl.
  - done.
  - exists r1. unfold Rule_selector; simpl. by destruct (is_some (r_Allow r)).
  - by destruct (is_some (r_Allow r)).
  - intros Hd. destruct (is_some (r_Allow r)); [done|].
    destruct Hdeny as (Hdm & Hr & Hk & Hrt); [by destruct (is_some (r_Deny r))|].
    rewrite Hr in B6. rewrite Hrt in B5. rewrite Hdm in B4. apply compile_all_nil in B4.
    injection B5 as <-. injection B6 as <- <-. done.
  - intros atts ->. destruct (r_Require r) as [atts0|]; [|by injection B6].
    unbind B6. injection B6 as -> ->.
    apply validateAttestations_wf in B8 as (Hall & Hnd & Hlen & _).
    unfold onlySignEvent in *. clean_nulls.
    split_and!; try done.
    + intros ->. by destruct atts0.
    + exists r1. unfold Rule_selector; simpl. split; [by destruct (is_some (r_Allow r))|done].
Qed.

Lemma Rule_decoded_zero r s : Rule_selector (Rule_decoded r) = Some s -> s_unwrapFrom s = None.
Proof.
  unfold Rule_selector, Rule_decoded. simpl.
  destruct (r_Allow r), (r_Deny r); simpl; intros; by simplify_eq.
Qed.

Lemma validateRules_wf fs dir opts i names rules rules' files :
  Forall (fun r => forall s, Rule_selector r = Some s -> s_unwrapFrom s = None) rules ->
  validateRules fs dir opts i names rules = Ok (rules', files) ->
  Forall (rule_wf opts) rules' /\ NoDup (r_Name <$> rules') /\
  length rules' = length rules /\ (forall n, n ∈ names -> n ∉ r_Name <$> rules').
Proof.
  intros Hzero. revert i names rules' files.
  induction Hzero as [|r rules Hz Hzero IH]; simpl; intros i names rules' files H.
  - injection H as <- <-. split_and!; [done | constructor | done | set_solver].
  - unbind H. injection H as <- <-.
    apply wrap_err_Ok, validateRule_wf in B as [Hwf Hn]; [|done].
    apply IH in B1 as (Hall & Hnd & Hlen & Hdis). propify. simpl. split_and!.
    + by constructor.
    + constructor; [|done]. apply Hdis. set_solver.
    + by rewrite Hlen.
    + intros n Hin. rewrite not_elem_of_cons. split; [set_solver | apply Hdis; set_solver].
Qed.

Lemma ParsePolicy_policy_wf Unmarshal fs data dir opts p :
  ParsePolicy Unmarshal fs data dir opts = Ok p -> policy_wf opts p.
Proof.
  unfold ParsePolicy. destruct (Unmarshal data) as [p0|]; [|done]. intros H. unbind H.
  injection H as <-. apply validateRules_wf in B1 as (Hall & Hnd & Hlen & _);
    [|apply Forall_fmap, Forall_forall; intros r _ s; apply Rule_decoded_zero].
  constructor; simpl; try done.
  - intros ->. by destruct (p_Rules p0).
  - by rewrite !length_fmap.
Qed.

Lemma LoadPolicy_policy_wf Unmarshal fs path dir opts p :
  LoadPolicy Unmarshal fs path dir opts = Ok p -> policy_wf opts p.
Proof.
  unfold LoadPolicy. destruct (fs path); [|done]. intros H. unbind H. injection H as <-.
  apply ParsePolicy_policy_wf in B as []. constructor; simpl; try done. by f_equal.
Qed.

End ValidationLemmas.
