(* ===== verification/SignerLimiter.v ===== *)
(** * The signer's rate limiter

    Models [src/signer/ratelimit.go]: a token bucket per rule, its tokens a
    [float64].  The mutex makes each operation atomic, so an operation is a
    function from the limiter to its answer and the new limiter. *)
From S2P Require Import Prelude GoTime GoFloat Nostr SignerPolicy.
From Stdlib Require Import QArith Lqa Lia.
From stdpp Require Import options.

Local Open Scope string_scope.

Record bucket := mkBucket {
  b_rate : Rate;
  b_tokens : float64;
  b_last : Z;
}.

Abbreviation Limiter := (gmap string bucket).

Definition NewLimiter : Limiter := ∅.

(** The bucket [refill] starts from: a new full one when there is none or the
    rate changed. *)
Definition bucket_for (l : Limiter) (rule : string) (r : Rate) (now : Z) : bucket :=
  match l !! rule with
  | Some b => if decide (b_rate b = r) then b else mkBucket r (float64_of (rate_N r)) now
  | None => mkBucket r (float64_of (rate_N r)) now
  end.

(** [refill]: the bucket brought up to [now]; it is stored in the map. *)
Definition refill (l : Limiter) (rule : string) (r : Rate) (now : Z) : bucket :=
  let b := bucket_for l rule r now in
  let elapsed := Time_Sub now (b_last b) in
  let n := float64_of (rate_N r) in
  let tokens :=
    if (0 <? elapsed)%Z then
      let t := float64_add (b_tokens b)
                 (float64_div (float64_mul n (float64_of elapsed)) (float64_of (rate_Per r))) in
      if float64_lt n t then n else t
    else b_tokens b in
  mkBucket r tokens now.

Definition Allow (l : Limiter) (rule : string) (r : Rate) (now : Z) : bool * Limiter :=
  let b := refill l rule r now in
  if float64_lt (b_tokens b) 1 then (false, <[rule := b]> l)
  else (true, <[rule := mkBucket (b_rate b) (float64_sub (b_tokens b) 1) (b_last b)]> l).

Definition Ready (l : Limiter) (rule : string) (r : Rate) (now : Z) : bool * Limiter :=
  let b := refill l rule r now in
  (float64_le 1 (b_tokens b), <[rule := b]> l).

(** ** Invariant *)

(** A rate [ParseRate] accepts, with a count a [float64] holds exactly. *)
Definition rate_ok (r : Rate) : Prop := (0 < rate_N r < max_exact)%Z /\ (0 < rate_Per r)%Z.

Definition bucket_ok (b : bucket) : Prop :=
  rate_ok (b_rate b) /\ (0 <= b_tokens b)%Q /\ (b_tokens b <= inject_Z (rate_N (b_rate b)))%Q.

Definition limiter_ok (l : Limiter) : Prop := map_Forall (fun _ b => bucket_ok b) l.

Lemma full_ok r now : rate_ok r -> bucket_ok (mkBucket r (float64_of (rate_N r)) now).
Proof.
  intros [H ?]. split_and!; [done|..]; simpl; rewrite float64_of_exact by lia; [|apply Qle_refl].
  unfold Qle; simpl; lia.
Qed.

Lemma bucket_for_ok l rule r now :
  limiter_ok l -> rate_ok r ->
  bucket_ok (bucket_for l rule r now) /\ b_rate (bucket_for l rule r now) = r.
Proof.
  intros Hl Hr. unfold bucket_for. destruct (l !! rule) as [b|] eqn:E.
  - destruct (decide (b_rate b = r)) as [<-|]; [split; [by eapply Hl | done]|].
    split; [by apply full_ok | done].
  - split; [by apply full_ok | done].
Qed.

(** Tokens added by a refill are never negative. *)
Lemma refill_amount_nonneg n elapsed per :
  (0 <= n)%Z -> (0 <= elapsed)%Z -> (0 <= per)%Z ->
  (0 <= float64_div (float64_mul (float64_of n) (float64_of elapsed)) (float64_of per))%Q.
Proof.
  intros Hn He Hp.
  assert (Hof : forall z, (0 <= z)%Z -> (0 <= float64_of z)%Q).
  { intros z Hz. apply float64_round_nonneg. unfold Qle; simpl; lia. }
  apply float64_round_nonneg. apply Qmult_le_0_compat.
  - apply float64_round_nonneg. apply Qmult_le_0_compat; auto.
  - apply Qinv_le_0_compat. auto.
Qed.

Lemma refill_ok l rule r now :
  limiter_ok l -> rate_ok r -> bucket_ok (refill l rule r now).
Proof.
  intros Hl Hr. destruct (bucket_for_ok l rule r now Hl Hr) as [(_ & H0 & H1) Hrate].
  unfold refill. rewrite Hrate in H1. destruct Hr as [Hn Hp].
  pose proof (float64_of_exact (rate_N r) ltac:(lia)) as HN.
  split_and!; simpl; [done|..].
  - destruct (0 <? _)%Z eqn:E; [|done]. propify. destruct (float64_lt _ _).
    + rewrite HN. unfold Qle; simpl; lia.
    + apply float64_round_nonneg. rewrite <- (Qplus_0_r 0).
      apply Qplus_le_compat; [done|]. apply refill_amount_nonneg; lia.
  - destruct (0 <? _)%Z; [|done]. destruct (float64_lt _ _) eqn:E.
    + rewrite HN. apply Qle_refl.
    + apply float64_lt_ge in E. rewrite <- HN. exact E.
Qed.

(** Taking a token from a bucket that has one. *)
Lemma take_ok b :
  bucket_ok b -> (1 <= b_tokens b)%Q ->
  bucket_ok (mkBucket (b_rate b) (float64_sub (b_tokens b) 1) (b_last b)).
Proof.
  intros (Hr & H0 & H1) Hge. assert (Hr' := Hr). destruct Hr' as [Hn _].
  destruct (float64_round_small (b_tokens b - 1)) as ((_ & Hup) & _ & Hpos).
  - by apply Qle_minus_iff in Hge.
  - assert (inject_Z (rate_N (b_rate b)) < inject_Z max_exact)%Q by (unfold Qlt; simpl; lia). lra.
  - split_and!; simpl; [done..|]. unfold float64_sub.
    lra.
Qed.

Lemma Allow_ok l rule r now :
  limiter_ok l -> rate_ok r -> limiter_ok (Allow l rule r now).2.
Proof.
  intros Hl Hr. pose proof (refill_ok l rule r now Hl Hr) as Hb. unfold Allow.
  revert Hb. generalize (refill l rule r now). intros b Hb.
  destruct (float64_lt _ _) eqn:E; simpl; apply map_Forall_insert_2; try done.
  apply take_ok; [done|]. by apply float64_lt_ge.
Qed.

Lemma Ready_ok l rule r now :
  limiter_ok l -> rate_ok r -> limiter_ok (Ready l rule r now).2.
Proof. intros Hl Hr. apply map_Forall_insert_2; [by apply refill_ok | done]. Qed.

(** ** Bursts *)

(** [k] calls of [Allow] at one instant: how many succeed. *)
Fixpoint burst (l : Limiter) (rule : string) (r : Rate) (now : Z) (k : nat) : nat * Limiter :=
  match k with
  | O => (O, l)
  | S k =>
      let '(ok, l) := Allow l rule r now in
      let '(m, l) := burst l rule r now k in
      ((if ok then S m else m), l)
  end.

(** A bucket brought up to [now] that holds [t] whole tokens. *)
Definition holds (l : Limiter) (rule : string) (r : Rate) (now : Z) (t : nat) : Prop :=
  exists tokens, refill l rule r now = mkBucket r tokens now /\
    (tokens == inject_Z (Z.of_nat t))%Q.

Lemma refill_again l rule r now tokens :
  refill (<[rule := mkBucket r tokens now]> l) rule r now = mkBucket r tokens now.
Proof.
  unfold refill, bucket_for. rewrite lookup_insert_eq.
  simpl. rewrite decide_True by done. simpl. unfold Time_Sub. rewrite Z.sub_diag. done.
Qed.

Lemma holds_fresh l rule r now :
  rate_ok r -> l !! rule = None -> holds l rule r now (Z.to_nat (rate_N r)).
Proof.
  intros [Hn _] Hl. exists (float64_of (rate_N r)). unfold refill, bucket_for. rewrite Hl. simpl.
  unfold Time_Sub. rewrite Z.sub_diag. simpl. split; [done|].
  rewrite Z2Nat.id by lia. apply float64_of_exact. lia.
Qed.

Lemma burst_holds l rule r now t k :
  (Z.of_nat t < max_exact)%Z -> holds l rule r now t ->
  (burst l rule r now k).1 = Nat.min k t.
Proof.
  revert l t. induction k as [|k IH]; intros l t Ht (tokens & Href & Htok); [done|].
  simpl. unfold Allow. rewrite Href. simpl.
  destruct t as [|t].
  - assert (E : float64_lt tokens 1 = true) by (apply float64_lt_spec; by rewrite Htok).
    rewrite E. specialize (IH (<[rule := mkBucket r tokens now]> l) 0%nat Ht).
    destruct (burst _ _ _ _ k) as [m l'] eqn:Eb. simpl in *. rewrite IH; [lia|].
    exists tokens. by rewrite refill_again.
  - assert (E : float64_lt tokens 1 = false).
    { apply float64_lt_ge. rewrite Htok. unfold Qle; simpl; lia. }
    rewrite E. specialize (IH (<[rule := mkBucket r (float64_sub tokens 1) now]> l) t ltac:(lia)).
    destruct (burst _ _ _ _ k) as [m l'] eqn:Eb. simpl in *. rewrite IH; [done|].
    exists (float64_sub tokens 1). split; [by rewrite refill_again|].
    assert (Heq : (tokens - 1 == inject_Z (Z.of_nat t))%Q).
    { rewrite Htok. unfold Qeq; simpl. lia. }
    apply float64_round_small; [| |done]; rewrite Heq.
    + unfold Qle; simpl; lia.
    + unfold Qlt; simpl; lia.
Qed.

Lemma burst_ok l rule r now k :
  limiter_ok l -> rate_ok r -> limiter_ok (burst l rule r now k).2.
Proof.
  intros Hl Hr. revert l Hl. induction k as [|k IH]; intros l Hl; simpl; [done|].
  pose proof (Allow_ok l rule r now Hl Hr) as Ha. destruct (Allow l rule r now) as [ok l1].
  specialize (IH l1 Ha). by destruct (burst l1 rule r now k).
Qed.
