(* ===== verification/SignerUsedSet.v ===== *)
(** * The set of consumed attestations

    Models [src/signer/usedset.go]: the ids in memory and the append-only file
    that survives a restart.  The disk is part of the model: the file is a
    list of lines, each either a decoded entry or text that does not decode,
    and possibly unterminated text at its end (what an interrupted write
    leaves); the temporary file of the compaction is kept beside it.  Every
    system call may fail: an operation takes the call that fails, if any, and
    returns what is then on disk.  Go ranges over a map in no fixed order; the
    compacted file is read back into a map, so the order does not matter. *)
From S2P Require Import Prelude GoTime Nostr SignerPolicy.
From stdpp Require Import options.

Local Open Scope string_scope.

Definition usedRetention : Z := MaxAttestationAge + Hour.

Record UsedEntry := mkUsedEntry { ue_ID : string; ue_CreatedAt : Z }.

(** [None] is text that is not an entry's JSON. *)
Abbreviation line := (option UsedEntry).

Record file := mkFile {
  f_lines : list line;
  f_tail : option line;
}.

Record disk := mkDisk { d_main : option file; d_tmp : option file }.

(** [us_open]: the file is open for append ([f] is not nil). *)
Record UsedSet := mkUsedSet { us_ids : gmap string Z; us_open : bool }.

Definition NewMemoryUsedSet : UsedSet := mkUsedSet ∅ false.

(** ** The file *)

(** Writing one terminated line: after unterminated text it does not decode. *)
Definition write_line (f : file) (e : UsedEntry) : file :=
  match f_tail f with
  | None => mkFile (f_lines f ++ [Some e]) None
  | Some _ => mkFile (f_lines f ++ [None]) None
  end.

Definition write_lines (f : file) (es : list UsedEntry) : file := fold_left write_line es f.

(** Leaving unterminated text at the end. *)
Definition write_tail (f : file) (t : option line) : file :=
  match t with
  | None => f
  | Some l => mkFile (f_lines f) (Some (match f_tail f with None => l | Some _ => None end))
  end.

(** The scanning loop of [OpenUsedSet]: the scanner yields the unterminated
    text at the end too. *)
Definition scan_line (ids : gmap string Z) (l : line) : gmap string Z :=
  match l with
  | Some e => if String.eqb (ue_ID e) "" then ids else <[ue_ID e := ue_CreatedAt e]> ids
  | None => ids
  end.

Definition file_lines (f : file) : list line :=
  (f_lines f ++ match f_tail f with Some l => [l] | None => [] end)%list.

Definition read_file (f : file) : gmap string Z := fold_left scan_line (file_lines f) ∅.

Definition read_disk (d : disk) : gmap string Z :=
  match d_main d with Some f => read_file f | None => ∅ end.

(** ** [OpenUsedSet] *)

(** The call that fails; [k] lines were encoded before. *)
Inductive OpenFault :=
| FMkdirAll | FOpen | FScan | FCreateTmp | FEncode (k : nat) | FSync | FCloseTmp
| FRename | FOpenAppend.

#[export] Instance OpenFault_eq_dec : EqDecision OpenFault.
Proof. solve_decision. Defined.

Definition cutoff (now : Z) : Z := Time_Unix (Time_Add now (wrap64 (- usedRetention))).

Definition prune (now : Z) (ids : gmap string Z) : gmap string Z :=
  filter (fun p => ¬ (p.2 < cutoff now)%Z) ids.

Definition entries_of (ids : gmap string Z) : list UsedEntry :=
  map (fun p => mkUsedEntry p.1 p.2) (map_to_list ids).

Definition OpenUsedSet (fault : option OpenFault) (d : disk) (now : Z)
    : result OpenFault UsedSet * disk :=
  let fails f := bool_decide (fault = Some f) in
  if fails FMkdirAll then (Err FMkdirAll, d)
  else if fails FOpen then (Err FOpen, d)
  else if fails FScan then (Err FScan, d)
  else
    let ids := prune now (read_disk d) in
    let es := entries_of ids in
    if fails FCreateTmp then (Err FCreateTmp, d)
    else
      let tmp k := Some (write_lines (mkFile [] None) (take k es)) in
      match fault with
      | Some (FEncode k) => (Err (FEncode k), mkDisk (d_main d) (tmp k))
      | _ =>
          let all := tmp (length es) in
          if fails FSync then (Err FSync, mkDisk (d_main d) all)
          else if fails FCloseTmp then (Err FCloseTmp, mkDisk (d_main d) all)
          else if fails FRename then (Err FRename, mkDisk (d_main d) all)
          else if fails FOpenAppend then (Err FOpenAppend, mkDisk all None)
          else (Ok (mkUsedSet ids true), mkDisk all None)
      end.

(** ** The operations of an open set *)

Definition Persistent (u : UsedSet) : bool := us_open u.

Definition Has (u : UsedSet) (id : string) : bool :=
  match us_ids u !! id with Some _ => true | None => false end.

(** [WriteFails k t]: [k] whole lines and the text [t] of the next reached the
    file. *)
Inductive AddFault := WriteFails (k : nat) (t : option line) | SyncFails.

Definition record_ids (ids : gmap string Z) (es : list UsedEntry) : gmap string Z :=
  fold_left (fun m e => <[ue_ID e := ue_CreatedAt e]> m) es ids.

Definition on_main (f : file -> file) (d : disk) : disk :=
  mkDisk (option_map f (d_main d)) (d_tmp d).

Definition Add (fault : option AddFault) (u : UsedSet) (d : disk) (es : list UsedEntry)
    : result AddFault UsedSet * disk :=
  if null es then (Ok u, d)
  else
    let ok := Ok (mkUsedSet (record_ids (us_ids u) es) (us_open u)) in
    if us_open u then
      match fault with
      | Some (WriteFails k t) =>
          (Err (WriteFails k t), on_main (fun f => write_tail (write_lines f (take k es)) t) d)
      | Some SyncFails => (Err SyncFails, on_main (fun f => write_lines f es) d)
      | None => (ok, on_main (fun f => write_lines f es) d)
      end
    else (ok, d).

(** [f.Close()]'s own error aside, the set is memory-only afterwards. *)
Definition UsedSet_Close (u : UsedSet) : UsedSet := mkUsedSet (us_ids u) false.

(** ** Lemmas *)

Lemma Has_elem u id : Has u id = true <-> id ∈ dom (us_ids u).
Proof.
  unfold Has. rewrite elem_of_dom. destruct (us_ids u !! id) as [x|]; split; try done.
Qed.

Lemma record_ids_dom ids es :
  dom (record_ids ids es) = dom ids ∪ list_to_set (ue_ID <$> es).
Proof.
  revert ids. induction es as [|e es IH]; intros ids; simpl; [set_solver|].
  unfold record_ids in *. rewrite IH, dom_insert_L. set_solver.
Qed.

(** A file without unterminated text receives lines verbatim. *)
Lemma write_lines_clean f es :
  f_tail f = None ->
  write_lines f es = mkFile (f_lines f ++ map Some es) None.
Proof.
  revert f. induction es as [|e es IH]; intros [ls t]; simpl; intros ->.
  - by rewrite app_nil_r.
  - unfold write_lines in *. rewrite IH by done. simpl. by rewrite <- app_assoc.
Qed.

(** Scanning good entries records them. *)
Lemma scan_entries ids es :
  Forall (fun e => ue_ID e <> "") es ->
  fold_left scan_line (map Some es) ids = record_ids ids es.
Proof.
  revert ids. induction es as [|e es IH]; intros ids Hall; simpl; [done|].
  apply Forall_cons in Hall as [He Hall]. rewrite IH by done.
  by rewrite (proj2 (String.eqb_neq _ _) He).
Qed.

Lemma read_write_lines f es :
  f_tail f = None -> Forall (fun e => ue_ID e <> "") es ->
  read_file (write_lines f es) = record_ids (read_file f) es.
Proof.
  intros Ht Hall. rewrite write_lines_clean by done. unfold read_file, file_lines. simpl.
  rewrite Ht, !app_nil_r, fold_left_app. by apply scan_entries.
Qed.

(** Every id a scan records is the id of a line, which is never empty. *)
Lemma scan_fold_elem ls ids id at_ :
  fold_left scan_line ls ids !! id = Some at_ ->
  (id <> "" /\ Some (mkUsedEntry id at_) ∈ ls) \/ ids !! id = Some at_.
Proof.
  revert ids. induction ls as [|l ls IH]; intros ids; simpl; [by right|].
  intros H. apply IH in H as [[? ?]|H]; [left; set_solver|].
  destruct l as [[i a]|]; simpl in H; [|by right].
  destruct (String.eqb i "") eqn:E; [by right|]. propify.
  apply lookup_insert_Some in H as [[-> ->]|[_ H]]; [left; set_solver | by right].
Qed.

Lemma read_disk_nonempty d id : id ∈ dom (read_disk d) -> id <> "".
Proof.
  rewrite elem_of_dom. intros [a H]. unfold read_disk in H.
  destruct (d_main d) as [f|]; [|by rewrite lookup_empty in H].
  apply scan_fold_elem in H as [[? _]|H]; [done | by rewrite lookup_empty in H].
Qed.

Lemma entries_of_nonempty now d :
  Forall (fun e => ue_ID e <> "") (entries_of (prune now (read_disk d))).
Proof.
  apply Forall_forall. intros e He. unfold entries_of in He.
  apply list_elem_of_fmap in He as ([id a] & -> & H). simpl.
  apply elem_of_map_to_list in H. apply map_lookup_filter_Some in H as [H _].
  apply (read_disk_nonempty d), elem_of_dom. eauto.
Qed.

Lemma record_ids_list ids l :
  NoDup l.*1 ->
  record_ids ids (map (fun p => mkUsedEntry p.1 p.2) l) = list_to_map l ∪ ids.
Proof.
  unfold record_ids. revert ids. induction l as [|[i a] l IH]; intros ids Hnd; simpl.
  - by rewrite (left_id_L ∅ (∪)).
  - apply NoDup_cons in Hnd as [Hni Hnd]. rewrite IH by done.
    rewrite <- insert_union_r by (by apply not_elem_of_list_to_map_1). by rewrite insert_union_l.
Qed.

Lemma record_entries_of ids : record_ids ∅ (entries_of ids) = ids.
Proof.
  unfold entries_of. rewrite record_ids_list by apply NoDup_fst_map_to_list.
  by rewrite list_to_map_to_list, (right_id_L ∅ (∪)).
Qed.

(** The compacted file reads back as the pruned set. *)
Lemma read_compacted now d :
  read_file (write_lines (mkFile [] None)
    (take (length (entries_of (prune now (read_disk d)))) (entries_of (prune now (read_disk d)))))
  = prune now (read_disk d).
Proof.
  rewrite take_ge by done. rewrite read_write_lines by (done || apply entries_of_nonempty).
  apply record_entries_of.
Qed.

Definition compacted (now : Z) (d : disk) : file :=
  let es := entries_of (prune now (read_disk d)) in
  write_lines (mkFile [] None) (take (length es) es).

Lemma compacted_clean now d : f_tail (compacted now d) = None.
Proof. unfold compacted. cbv zeta. by rewrite write_lines_clean. Qed.

(** The file is either untouched or replaced by the compacted one. *)
Lemma OpenUsedSet_cases fault d now r d' :
  OpenUsedSet fault d now = (r, d') ->
  (d_main d' = d_main d /\ is_ok r = false /\ is_Some fault) \/
  (d_main d' = Some (compacted now d) /\
   (r = Ok (mkUsedSet (prune now (read_disk d)) true) \/ is_ok r = false /\ is_Some fault)).
Proof.
  unfold OpenUsedSet. cbv zeta. intros H.
  repeat case_match; simplify_eq; propify; subst; simpl; try done; eauto 10.
Qed.

(** What [OpenUsedSet] does to the recorded ids, whichever call fails: the disk
    never gains an id and never loses one that is recent enough; on success
    the set is the pruned one and the disk holds exactly it. *)
Lemma OpenUsedSet_spec fault d now r d' :
  OpenUsedSet fault d now = (r, d') ->
  prune now (read_disk d) ⊆ read_disk d' /\ read_disk d' ⊆ read_disk d /\
  (is_ok r = false -> is_Some fault) /\
  (forall u, r = Ok u -> us_ids u = prune now (read_disk d) /\ us_open u = true /\
     exists f, d_main d' = Some f /\ f_tail f = None /\ read_file f = us_ids u).
Proof.
  intros H. assert (Hsub : prune now (read_disk d) ⊆ read_disk d) by apply map_filter_subseteq.
  apply OpenUsedSet_cases in H as [(Hmain & Hr & Hf)|(Hmain & Hr)].
  - assert (Heq : read_disk d' = read_disk d) by (unfold read_disk; by rewrite Hmain).
    rewrite Heq. split_and!; try done. by intros u ->.
  - assert (Heq : read_disk d' = prune now (read_disk d)).
    { unfold read_disk at 1. rewrite Hmain. apply read_compacted. }
    rewrite Heq. split_and!; try done; [naive_solver|].
    intros u ->. destruct Hr as [[= ->]|[? _]]; [|done]. split_and!; try done.
    exists (compacted now d). split_and!; [done | apply compacted_clean | apply read_compacted].
Qed.

(** ** Durability *)

(** Every id the open set answers for is in the file, which ends in a whole
    line. *)
Definition durable (u : UsedSet) (d : disk) : Prop :=
  us_open u = true ->
  exists f, d_main d = Some f /\ f_tail f = None /\ dom (us_ids u) ⊆ dom (read_file f).

(** The write that failed left no unterminated text. *)
Definition whole_lines (fault : option AddFault) : bool :=
  match fault with Some (WriteFails _ (Some _)) => false | _ => true end.

Lemma Add_cases fault u d es r d' :
  Add fault u d es = (r, d') -> whole_lines fault = true ->
  (exists k, d' = d \/ d' = on_main (fun f => write_lines f (take k es)) d) /\
  ((is_ok r = false /\ is_Some fault) \/
   exists u', r = Ok u' /\ us_ids u' = record_ids (us_ids u) es /\ us_open u' = us_open u /\
     (us_open u = true -> d' = on_main (fun f => write_lines f es) d)).
Proof.
  assert (Hall : forall f, write_lines f es = write_lines f (take (length es) es))
    by (intros; by rewrite take_ge).
  assert (Honm : on_main (fun f => write_lines f es) d =
                 on_main (fun f => write_lines f (take (length es) es)) d).
  { unfold on_main. by destruct (d_main d); simpl; rewrite ?Hall. }
  unfold Add. destruct (null es) eqn:En; intros H Hw.
  - apply null_true in En as ->. simplify_eq. split; [exists 0%nat; by left|].
    right. exists u. split_and!; try done. intros _. destruct d' as [[]]; done.
  - destruct (us_open u) eqn:Eo; [destruct fault as [[k [t|]|]|]|]; simplify_eq; simpl in *;
      try done; split.
    all: try (exists (length es); right; unfold on_main; by rewrite Honm).
    all: try (right; eexists; split_and!; done).
    all: try (left; by eauto).
    + exists k. by right.
    + exists 0%nat. by left.
Qed.

Lemma Add_durable fault u d es r d' :
  durable u d -> whole_lines fault = true -> Forall (fun e => ue_ID e <> "") es ->
  Add fault u d es = (r, d') ->
  durable u d' /\
  forall u', r = Ok u' -> durable u' d' /\ us_open u' = us_open u /\
    us_ids u' = record_ids (us_ids u) es.
Proof.
  intros Hd Hw Hne H. destruct (Add_cases _ _ _ _ _ _ H Hw) as ((k & Hk) & Hr). split.
  - intros Ho. destruct (Hd Ho) as (f & Hf & Ht & Hsub). destruct Hk as [->| ->]; [by eauto|].
    exists (write_lines f (take k es)). unfold on_main. rewrite Hf. split_and!; [done|..].
    + by rewrite write_lines_clean.
    + rewrite read_write_lines by (done || by apply Forall_take). rewrite record_ids_dom. set_solver.
  - intros u' ->. destruct Hr as [[? _]|(u2 & [= <-] & Hids & Hop & Hdisk)]; [done|].
    split_and!; try done. intros Ho. rewrite Hop in Ho. rewrite (Hdisk Ho).
    destruct (Hd Ho) as (f & Hf & Ht & Hsub). exists (write_lines f es).
    unfold on_main. rewrite Hf. split_and!; [done|..].
    + by rewrite write_lines_clean.
    + rewrite read_write_lines, Hids, !record_ids_dom by done. set_solver.
Qed.
