(* ===== verification/SignerRefused.v ===== *)
(** * The memory of refused gift wraps

    Models [src/signer/refused.go].  The policy pointer is a generation
    number, since the code compares pointers: a reload that reads the same
    document still yields a new policy.  The digest of a wrap is the
    hexadecimal one of the [Nmilat] interface. *)
From S2P Require Import Prelude GoTime GoStrings Nostr.
From stdpp Require Import options.
From Stdlib Require Import Ascii.

Local Open Scope string_scope.

Definition RateLimitReason := "rate limit exceeded".

(** [nipLS.Error] as far as it is read: whether it is a denial, and its
    reason. *)
Record lsError := mkLsError { le_denied : bool; le_Reason : string }.

(** [RateLimited]; [None] is an error of another type. *)
Definition RateLimited (err : option lsError) : bool :=
  match err with
  | None => false
  | Some e => le_denied e && HasSuffix (le_Reason e) RateLimitReason
  end.

Definition refusedWrapsMax : nat := 4096.

Lemma refusedWrapsMax_pos : (0 < refusedWrapsMax)%nat.
Proof. apply Nat.ltb_lt. vm_compute. done. Qed.

#[global] Opaque refusedWrapsMax.

Definition wrapKey `{NL : Nmilat} (counterpart ciphertext : string) : string :=
  sha256_hex (ToLower counterpart ++ String "010" ciphertext).

(** [rw_seen] is a map that may be nil. *)
Record refusedWraps := mkRefused {
  rw_policy : option nat;
  rw_seen : option (gset string);
  rw_order : list string;
}.

Definition no_refused : refusedWraps := mkRefused None None [].

Definition seen_set (r : refusedWraps) : gset string := default ∅ (rw_seen r).

Definition refused_has (r : refusedWraps) (p : nat) (k : string) : bool :=
  bool_decide (rw_policy r = Some p) && bool_decide (k ∈ seen_set r).

(** [add] *)
Definition refused_add (r : refusedWraps) (p : nat) (k : string) : refusedWraps :=
  let r := if negb (bool_decide (rw_policy r = Some p)) || bool_decide (rw_seen r = None)
           then mkRefused (Some p) (Some ∅) [] else r in
  if bool_decide (k ∈ seen_set r) then r
  else
    let '(seen, order) :=
      if (refusedWrapsMax <=? length (rw_order r))%nat then
        match rw_order r with
        | k0 :: order => (seen_set r ∖ {[k0]}, order)
        | [] => (seen_set r, [])
        end
      else (seen_set r, rw_order r) in
    mkRefused (rw_policy r) (Some ({[k]} ∪ seen)) (order ++ [k])%list.

(** ** Specification: a queue of distinct keys per policy, at most
    [refusedWrapsMax] long, the oldest leaving first. *)

Definition refused_spec (q : option (nat * list string)) (p : nat) (k : string)
    : option (nat * list string) :=
  let ks := match q with Some (p', ks) => if bool_decide (p' = p) then ks else [] | None => [] end in
  Some (p, if bool_decide (k ∈ ks) then ks
           else ((if (refusedWrapsMax <=? length ks)%nat then tail ks else ks) ++ [k])%list).

Definition refused_abs (r : refusedWraps) : option (nat * list string) :=
  match rw_policy r, rw_seen r with
  | Some p, Some _ => Some (p, rw_order r)
  | _, _ => None
  end.

Record refused_ok (r : refusedWraps) : Prop := {
  rok_seen : seen_set r = list_to_set (rw_order r);
  rok_nodup : NoDup (rw_order r);
  rok_cap : (length (rw_order r) <= refusedWrapsMax)%nat;
  rok_nil : rw_seen r = None -> rw_policy r = None /\ rw_order r = [];
}.

Lemma no_refused_ok : refused_ok no_refused.
Proof. constructor; simpl; try done; [constructor | apply Nat.le_0_l]. Qed.

(** The reset of [add]. *)
Lemma refused_reset_ok p : refused_ok (mkRefused (Some p) (Some ∅) []).
Proof. constructor; simpl; try done; [constructor | apply Nat.le_0_l]. Qed.

Lemma refused_add_ok r p k : refused_ok r -> refused_ok (refused_add r p k).
Proof.
  intros Hr. unfold refused_add. cbv zeta.
  set (r1 := if negb (bool_decide (rw_policy r = Some p)) || _ then _ else r).
  assert (H1 : refused_ok r1) by (unfold r1; case_match; [apply refused_reset_ok | done]).
  assert (Hs : rw_seen r1 <> None).
  { unfold r1. case_match; [done|]. by propify. }
  clearbody r1. clear r Hr. destruct H1. case_bool_decide as Hk; [done|].
  rewrite rok_seen0 in *. destruct (refusedWrapsMax <=? _)%nat eqn:E; propify.
  - destruct (rw_order r1) as [|k0 ks]; simpl in *; [pose proof refusedWrapsMax_pos; lia|].
    apply NoDup_cons in rok_nodup0 as [Hni Hnd]. constructor; simpl.
    + rewrite list_to_set_app_L. unfold seen_set. simpl. clear -Hni Hk. set_solver.
    + apply NoDup_app. split_and!; [done | clear -Hk; set_solver | apply NoDup_singleton].
    + rewrite length_app. simpl. lia.
    + done.
  - constructor; simpl.
    + rewrite list_to_set_app_L. unfold seen_set. simpl. clear. set_solver.
    + apply NoDup_app. split_and!; [done | clear -Hk; set_solver | apply NoDup_singleton].
    + rewrite length_app. simpl. lia.
    + done.
Qed.

Lemma refused_has_abs r p k :
  refused_ok r ->
  refused_has r p k = true <-> exists ks, refused_abs r = Some (p, ks) /\ k ∈ ks.
Proof.
  intros []. unfold refused_has, refused_abs. rewrite rok_seen0.
  rewrite andb_true_iff, !bool_decide_eq_true, elem_of_list_to_set.
  destruct (rw_policy r) as [p'|], (rw_seen r) as [s|]; split; try naive_solver.
Qed.

Lemma refused_add_abs r p k :
  refused_ok r -> refused_abs (refused_add r p k) = refused_spec (refused_abs r) p k.
Proof.
  intros []. unfold refused_add, refused_spec, refused_abs. cbv zeta.
  destruct (rw_seen r) as [s|] eqn:Es.
  - rewrite (bool_decide_eq_false_2 (Some s = None)) by done. rewrite orb_false_r.
    assert (Hord : forall k, k ∈ s <-> k ∈ rw_order r).
    { intros k'. unfold seen_set in rok_seen0. rewrite Es in rok_seen0. simpl in rok_seen0.
      by rewrite rok_seen0, elem_of_list_to_set. }
    destruct (rw_policy r) as [p'|] eqn:Ep.
    + destruct (decide (p' = p)) as [->|Hne].
      * rewrite !(bool_decide_eq_true_2 _ eq_refl). simpl. unfold seen_set. rewrite Es. simpl.
        rewrite (bool_decide_ext _ _ (Hord k)).
        case_bool_decide; [by rewrite Ep, Es|]. destruct (_ <=? _)%nat eqn:E; simpl; rewrite Ep; [|done].
        propify. destruct (rw_order r); simpl in *; [pose proof refusedWrapsMax_pos; lia|done].
      * rewrite (bool_decide_eq_false_2 (Some p' = Some p)) by congruence.
        rewrite (bool_decide_eq_false_2 (p' = p)) by done. simpl.
        rewrite !bool_decide_eq_false_2 by set_solver. done.
    + rewrite (bool_decide_eq_false_2 (None = Some p)) by done. simpl.
      rewrite !bool_decide_eq_false_2 by set_solver. done.
  - destruct (rok_nil0 eq_refl) as [-> _].
    rewrite (bool_decide_eq_true_2 (None = None)) by done. rewrite orb_true_r. simpl.
    rewrite !bool_decide_eq_false_2 by set_solver. done.
Qed.

(** What was just added is refused. *)
Lemma refused_added r p k : refused_ok r -> refused_has (refused_add r p k) p k = true.
Proof.
  intros Hr. apply refused_has_abs; [by apply refused_add_ok|]. rewrite refused_add_abs by done.
  unfold refused_spec. eexists. split; [done|]. case_bool_decide; set_solver.
Qed.
