(* ===== verification/SignerAttest.v ===== *)
(** * Checking one attestation against one requirement

    Models [src/signer/attest.go]: [checkAttestation], [checkBind],
    [expandTemplate] and [tagValues].  A Go [error] that only says why is an
    [option]: [None] is nil, the check passed.  The theorems at the end show
    what an accepted attestation is: genuine, by a listed author, inside its
    age window in real time (whatever the unsigned [created_at] is), unused,
    and naming the target as the bind asks. *)
From S2P Require Import Prelude GoTime GoStrings Nostr SignerPolicy.
From stdpp Require Import options.
From Stdlib Require Import Ascii.

Local Open Scope string_scope.

(** [tagValues]: the first value of every tag named [name]. *)
Fixpoint tag_values_of (name : string) (tags : list (list string)) : list string :=
  match tags with
  | [] => []
  | (n :: v :: _) :: tags =>
      if String.eqb n name then v :: tag_values_of name tags else tag_values_of name tags
  | _ :: tags => tag_values_of name tags
  end.

Definition tagValues (ev : Event) (name : string) : list string :=
  tag_values_of name (ev_Tags ev).

(** [unixTime] of a [uint64] of seconds. *)
Definition unixTime (s : Z) : Z := Unix_ (wrap64 s).

Inductive BindErr :=
| BContent | BContains | BNoTag (u : string) | BMissingTag (tag w : string).

(** [expandTemplate] *)
Definition expandTemplate (t : string) (target : Event) : result BindErr (list string) :=
  let base := ReplaceAll t "{id}" (ev_ID target) in
  match placeholders base with
  | [] => Ok [base]
  | m :: _ =>
      let u := TrimPrefix m "tag:" in
      match tagValues target u with
      | [] => Err (BNoTag u)
      | vals => Ok (map (fun v => ReplaceAll base ("{tag:" ++ u ++ "}") v) vals)
      end
  end.

(** The first element that is not in [have]. *)
Fixpoint first_missing (want have : list string) : option string :=
  match want with
  | [] => None
  | w :: want => if containsString have w then first_missing want have else Some w
  end.

Definition checkBind (b : Bind) (att target : Event) : option BindErr :=
  match b_Content b, b_ContentContains b with
  | Some t, _ =>
      match expandTemplate t target with
      | Err e => Some e
      | Ok want =>
          if forallb (fun w => String.eqb (TrimSpace (ev_Content att)) (TrimSpace w)) want
          then None else Some BContent
      end
  | None, Some t =>
      match expandTemplate t target with
      | Err e => Some e
      | Ok want =>
          if forallb (Contains (ev_Content att)) want then None else Some BContains
      end
  | None, None =>
      let tagged (want : list string) : option BindErr :=
        option_map (BMissingTag (b_Tag b)) (first_missing want (tagValues att (b_Tag b))) in
      if String.eqb (b_From b) "id" then tagged [ev_ID target]
      else
        let u := TrimPrefix (b_From b) "tag:" in
        match tagValues target u with
        | [] => Some (BNoTag u)
        | want => tagged want
        end
  end.

(** The request-wide input to [checkAttestation]; a nil [Used] checks
    nothing. *)
Record attestContext := mkAttestContext {
  ac_Target : Event;
  ac_Now : Z;
  ac_StartTime : Z;
  ac_Skew : Z;
  ac_SignerPub : string;
  ac_Used : option (string -> bool);
}.

Inductive AttErr :=
| AMissing | ABadSignature | ABySigner | AWrongKind (k : Z) | AAuthor
| AFuture | AStale (d : Z) | ABeforeStart | AUsed
| ABind (i : nat) (e : BindErr) | APredates.

Fixpoint checkBinds (i : nat) (binds : list Bind) (att target : Event) : option AttErr :=
  match binds with
  | [] => None
  | b :: binds =>
      match checkBind b att target with
      | Some e => Some (ABind i e)
      | None => checkBinds (S i) binds att target
      end
  end.

Section Check.
Context `{NL : Nmilat}.

(** [checkAttestation]: why [att] does not satisfy [spec] for the target, or
    [None] if it does.  [att] is a pointer. *)
Definition checkAttestation (att : option Event) (spec : AttestationSpec) (c : attestContext)
    : option AttErr :=
  match att with
  | None => Some AMissing
  | Some att =>
      if negb (Verify att) then Some ABadSignature
      else if EqualFold (ev_PubKey att) (ac_SignerPub c) then Some ABySigner
      else if negb (containsInt (a_Kinds spec) (ev_Kind att)) then Some (AWrongKind (ev_Kind att))
      else if negb (bool_decide (ToLower (ev_PubKey att) ∈ a_authors spec)) then Some AAuthor
      else
        let created := unixTime (ev_CreatedAt att) in
        if Time_After created (Time_Add (ac_Now c) (ac_Skew c)) then Some AFuture
        else if (a_MaxAge spec <? Time_Sub (ac_Now c) created)%Z then Some (AStale (a_MaxAge spec))
        else if negb (Time_IsZero (ac_StartTime c))
                && Time_Before created (Time_Add (ac_StartTime c) (wrap64 (- ac_Skew c)))
             then Some ABeforeStart
        else if match ac_Used c with Some used => used (ev_ID att) | None => false end
             then Some AUsed
        else match checkBinds 1 (a_Binds spec) att (ac_Target c) with
             | Some e => Some e
             | None =>
                 if a_bindsID spec
                    && Time_Before (Time_Add created (ac_Skew c))
                         (unixTime (ev_CreatedAt (ac_Target c)))
                 then Some APredates else None
             end
  end.

(** ** What an accepted attestation is *)

Lemma tagValues_spec ev name v :
  v ∈ tagValues ev name <-> exists rest, (name :: v :: rest) ∈ ev_Tags ev.
Proof.
  unfold tagValues. induction (ev_Tags ev) as [|t tags IH]; simpl.
  - split; [by intros []%not_elem_of_nil | by intros (? & []%not_elem_of_nil)].
  - destruct t as [|n [|w rest]]; [rewrite IH; set_solver..|].
    destruct (String.eqb n name) eqn:E; propify; rewrite ?elem_of_cons, IH.
    + subst. split; [intros [->|[r Hr]]; set_solver|].
      intros (r & Hr). apply elem_of_cons in Hr as [[= -> ->]|Hr]; eauto.
    + split; [intros [r Hr]; set_solver|].
      intros (r & Hr). apply elem_of_cons in Hr as [[= -> -> ->]|Hr]; [done|eauto].
Qed.

Lemma first_missing_None want have :
  first_missing want have = None <-> forall w, w ∈ want -> w ∈ have.
Proof.
  induction want as [|w want IH]; simpl; [set_solver|].
  destruct (containsString have w) eqn:E.
  - apply containsString_true in E. rewrite IH. set_solver.
  - split; [done|]. intros H. exfalso.
    assert (w ∈ have) as Hw by set_solver. apply containsString_true in Hw. congruence.
Qed.

Lemma checkBinds_None i binds att target :
  checkBinds i binds att target = None <-> Forall (fun b => checkBind b att target = None) binds.
Proof.
  revert i. induction binds as [|b binds IH]; intros i; simpl; [done|].
  rewrite Forall_cons. destruct (checkBind b att target); [naive_solver|].
  rewrite IH. naive_solver.
Qed.

(** The passing attestations, as a proposition. *)
Record attestation_ok (att : Event) (spec : AttestationSpec) (c : attestContext) : Prop := {
  aok_verified : Verify att = true;
  aok_not_signer : EqualFold (ev_PubKey att) (ac_SignerPub c) = false;
  aok_kind : ev_Kind att ∈ a_Kinds spec;
  aok_author : ToLower (ev_PubKey att) ∈ a_authors spec;
  aok_not_future : (unixTime (ev_CreatedAt att) <= Time_Add (ac_Now c) (ac_Skew c))%Z;
  aok_fresh : (Time_Sub (ac_Now c) (unixTime (ev_CreatedAt att)) <= a_MaxAge spec)%Z;
  aok_after_start : ac_StartTime c = 0%Z \/
    (Time_Add (ac_StartTime c) (wrap64 (- ac_Skew c)) <= unixTime (ev_CreatedAt att))%Z;
  aok_unused used : ac_Used c = Some used -> used (ev_ID att) = false;
  aok_binds : Forall (fun b => checkBind b att (ac_Target c) = None) (a_Binds spec);
  aok_order : a_bindsID spec = true ->
    (unixTime (ev_CreatedAt (ac_Target c)) <= Time_Add (unixTime (ev_CreatedAt att)) (ac_Skew c))%Z;
}.

Lemma checkAttestation_None att spec c :
  checkAttestation att spec c = None <-> exists e, att = Some e /\ attestation_ok e spec c.
Proof.
  destruct att as [e|]; [|naive_solver]. simpl.
  unfold Time_After, Time_Before, Time_IsZero. split.
  - intros H. exists e. split; [done|]. repeat split_match H; propify.
    all: rewrite checkBinds_None in *; rewrite ?containsInt_true in *.
    all: constructor; try done; rewrite <- ?containsInt_true; try done.
    all: try (intros; simplify_eq; try done; lia).
    all: try (destruct (ac_Used c); naive_solver).
    all: try (match goal with H : _ \/ _ |- _ \/ _ => destruct H; propify; [by left | right; lia] end).
    all: try (intros Hb; match goal with H : _ \/ _ |- _ => destruct H; propify; [congruence|lia] end).
  - intros (? & [= <-] & []). rewrite aok_verified0, aok_not_signer0. simpl.
    apply containsInt_true in aok_kind0. rewrite aok_kind0. simpl.
    rewrite bool_decide_eq_true_2 by done. simpl.
    destruct (Z.ltb_spec (Time_Add (ac_Now c) (ac_Skew c)) (unixTime (ev_CreatedAt e))); [lia|].
    destruct (Z.ltb_spec (a_MaxAge spec) (Time_Sub (ac_Now c) (unixTime (ev_CreatedAt e)))); [lia|].
    assert (Hs : negb (ac_StartTime c =? 0)%Z &&
      (unixTime (ev_CreatedAt e) <? Time_Add (ac_StartTime c) (wrap64 (- ac_Skew c)))%Z = false).
    { destruct aok_after_start0 as [->|Hst]; [done|].
      apply andb_false_iff. right. by apply Z.ltb_ge. }
    rewrite Hs.
    assert (Hu : match ac_Used c with Some used => used (ev_ID e) | None => false end = false)
      by (destruct (ac_Used c); eauto).
    rewrite Hu. apply checkBinds_None with (i := 1%nat) in aok_binds0. rewrite aok_binds0.
    destruct (a_bindsID spec); simpl; [|done].
    by rewrite (proj2 (Z.ltb_ge _ _)) by eauto.
Qed.

(** A present-day clock: at least a day after the Unix epoch, and far from the
    end of the representable range. *)
Definition is_modern (t : Z) : Prop :=
  (unixToInternal * Second + MaxAttestationAge <= t <= 2 ^ 62 * Second)%Z.

Lemma is_modern_clock t : is_modern t -> is_clock t.
Proof. unfold is_modern, is_clock. assert (0 <= unixToInternal * Second + MaxAttestationAge)%Z by done. lia. Qed.

(** The instant a Unix second count names, without machine arithmetic. *)
Definition real_time (created_at : Z) : Z := (created_at + unixToInternal) * Second.

(** An unsigned [created_at] whose converted time is recent is converted
    exactly: neither the sign change nor the wrap-around of the conversion can
    make another value look recent. *)
Lemma unixTime_recent c t d :
  (0 <= c < 2 ^ 64)%Z -> is_modern t -> (0 <= d <= MaxAttestationAge)%Z ->
  (t - unixTime c <= d)%Z -> unixTime c = real_time c.
Proof.
  unfold is_modern, unixTime, Unix_, real_time. intros Hc Ht Hd Hrecent.
  f_equal. set (w := wrap64 (wrap64 c + unixToInternal)) in *.
  assert (Hw : (0 < w * Second)%Z).
  { assert (0 < unixToInternal * Second)%Z by done. lia. }
  assert (Hw' : (unixToInternal <= w)%Z) by (unfold unixToInternal, Second, MaxAttestationAge in *; lia).
  clear Hrecent Ht Hd Hw. subst w.
  unfold wrap64, two64, two63, unixToInternal in *.
  change (2 ^ 63)%Z with 9223372036854775808%Z in *.
  change (2 ^ 64)%Z with 18446744073709551616%Z in *.
  pose proof (Z.div_mod (c + 9223372036854775808) 18446744073709551616 ltac:(done)) as E1.
  pose proof (Z.mod_pos_bound (c + 9223372036854775808) 18446744073709551616 ltac:(done)).
  set (m1 := ((c + 9223372036854775808) `mod` 18446744073709551616)%Z) in *.
  set (x := (m1 - 9223372036854775808 + 62135596800 + 9223372036854775808)%Z) in *.
  pose proof (Z.div_mod x 18446744073709551616 ltac:(done)) as E2.
  pose proof (Z.mod_pos_bound x 18446744073709551616 ltac:(done)).
  subst x. lia.
Qed.

Lemma age_int64 d :
  (0 <= d <= MaxAttestationAge)%Z -> is_int64 d /\ (d < max_int64)%Z.
Proof.
  intros Hd. assert (MaxAttestationAge < max_int64)%Z by done.
  assert (min_int64 <= 0)%Z by done. unfold is_int64. lia.
Qed.

(** An accepted attestation was created, in real time, at most [max_age] before
    the decision and at most the clock skew after it. *)
Lemma attestation_ok_window opts att spec c :
  attestation_ok att spec c -> attestation_wf opts spec ->
  (0 <= ev_CreatedAt att < 2 ^ 64)%Z -> is_modern (ac_Now c) -> is_int64 (ac_Skew c) ->
  (ac_Now c - a_MaxAge spec <= real_time (ev_CreatedAt att) <= ac_Now c + ac_Skew c)%Z.
Proof.
  intros [] [] Hc Hnow Hskew.
  destruct (age_int64 (a_MaxAge spec)) as [? ?]; [lia|].
  apply Time_Sub_le in aok_fresh0; [|done..].
  pose proof (unixTime_recent (ev_CreatedAt att) (ac_Now c) (a_MaxAge spec) Hc Hnow
    ltac:(lia) ltac:(lia)) as Hreal.
  rewrite Hreal in *.
  rewrite Time_Add_exact in aok_not_future0 by eauto using is_modern_clock. lia.
Qed.
End Check.

Arguments checkAttestation {NL} att spec c : simpl never.
