(* ===== verification/SignerEvaluate.v ===== *)
(** * Deciding a request against a policy

    Models [src/signer/evaluate.go] and the request half of
    [src/signer/nipoa.go].  A nil dereference, which panics in Go, is [None]:
    the functions that can reach one return an [option], and
    [Evaluate_no_panic] shows that a loaded policy never makes them do so.
    Go randomises the order of a map's iteration; the loops over [tags] and
    [tags_one] only ask whether all entries match, so any order gives the same
    answer and the model goes through [map_to_list]. *)
From S2P Require Import Prelude GoTime GoStrings Nostr SignerPolicy SignerAttest.
From stdpp Require Import options.
From Stdlib Require Import Ascii.

Local Open Scope string_scope.

Record Request := mkRequest {
  q_Method : string;
  q_Event : option Event;
  q_Counterpart : string;
  q_Plaintext : string;
  q_Attestations : list (option Event);
  q_Subordinate : string;
  q_Conditions : string;
  q_Now : Z;
  q_StartTime : Z;
  q_SignerPub : string;
}.

Definition nip59MaxBackdate : Z := 48 * Hour.

(** Why an attestation request is refused ([AttestSelector.check]). *)
Inductive AttestReason :=
| ANoBound | ABoundPassed | ABoundBeyond (d : Z) | ANoKind | AKindNotAllowed (k : Z).

(** Why a request is denied, one constructor per reason of the source;
    pattern numbers are 1-based. *)
Inductive Reason :=
| RUnsupported (m : string)
| RSubordinate | RSelfAttest | RConditions
| RMissingEvent | RPubkey | RFuture
| RNoRule | RDeniedByRule
| RDenyContent (i : nat) | RDenyTag (i : nat) | RDenyPlaintext (i : nat)
| RAttest (r : AttestReason)
| RAttRequired (name : string) | RAttFailed (name : string) (e : AttErr) | RAttDistinct
| RTooOld (limit : Z).

(** [Reason] is [""] in the source when the request is allowed. *)
Record Decision_ := mkDecision {
  d_Allow : bool;
  d_Rule : string;
  d_Reason : option Reason;
  d_Consumed : list string;
  d_Rate : option Rate;
  d_UnwrapFrom : option (gset string);
}.

Definition deny (rule : string) (r : Reason) : Decision_ :=
  mkDecision false rule (Some r) [] None None.

(** ** Selectors *)

(** A pattern of [tags]: a value, or a prefix when it ends in [*]. *)
Definition tag_pattern_matches (v p : string) : bool :=
  match CutSuffix p "*" with
  | Some prefix => HasPrefix v prefix
  | None => String.eqb v p
  end.

Definition anyTagMatches (values patterns : list string) : bool :=
  existsb (fun v => existsb (tag_pattern_matches v) patterns) values.

(** The loop of [oneTagMatches]; [found] is what it collected. *)
Fixpoint one_tag_loop (name : string) (tags : list (list string)) (found : option string)
    : option (option string) :=
  match tags with
  | [] => Some found
  | [] :: tags => one_tag_loop name tags found
  | (n :: rest) :: tags =>
      if negb (String.eqb n name) then one_tag_loop name tags found
      else match rest, found with
           | v :: _, None => one_tag_loop name tags (Some v)
           | _, _ => None
           end
  end.

Definition oneTagMatches (ev : Event) (name : string) (patterns : list string) : bool :=
  match one_tag_loop name (ev_Tags ev) None with
  | Some (Some v) => anyTagMatches [v] patterns
  | _ => false
  end.

Definition AttestSelector_matches (a : AttestSelector) (subordinate : string) : bool :=
  as_any a || bool_decide (subordinate ∈ as_subs a).

(** [matches]; [None] is the nil dereference of a [sign_event] without an
    event. *)
Definition matches (s : Selector) (req : Request) : option bool :=
  if negb (null (s_Methods s)) && negb (containsString (s_Methods s) (q_Method req))
  then Some false
  else match s_Attest s with
  | Some a => Some (String.eqb (q_Method req) MethodAttest
                    && AttestSelector_matches a (q_Subordinate req))
  | None =>
      if match s_counterparts s with
         | Some cs => negb (bool_decide (ToLower (q_Counterpart req) ∈ cs))
         | None => false
         end then Some false
      else if negb (String.eqb (q_Method req) MethodSignEvent) then Some true
      else
        ev ← q_Event req;
        Some ((null (s_Kinds s) || containsInt (s_Kinds s) (ev_Kind ev))
              && forallb (fun e => anyTagMatches (tagValues ev e.1) e.2) (map_to_list (s_Tags s))
              && forallb (fun e => oneTagMatches ev e.1 e.2) (map_to_list (s_TagsOne s)))
  end.

(** ** [deny_matching] *)

(** The index (from [i]) of the first pattern that matches, with where. *)
Fixpoint deny_event_loop (i : nat) (res : list (string -> bool)) (ev : Event) : option Reason :=
  match res with
  | [] => None
  | re :: res =>
      if re (ev_Content ev) then Some (RDenyContent i)
      else if existsb (existsb re) (ev_Tags ev) then Some (RDenyTag i)
      else deny_event_loop (S i) res ev
  end.

Fixpoint deny_plaintext_loop (i : nat) (res : list (string -> bool)) (t : string)
    : option Reason :=
  match res with
  | [] => None
  | re :: res => if re t then Some (RDenyPlaintext i) else deny_plaintext_loop (S i) res t
  end.

Definition matchDenyPatterns (r : Rule) (req : Request) : option (option Reason) :=
  if null (r_denyRe r) then Some None
  else if String.eqb (q_Method req) MethodSignEvent then
    ev ← q_Event req; Some (deny_event_loop 1 (r_denyRe r) ev)
  else Some (deny_plaintext_loop 1 (r_denyRe r) (q_Plaintext req)).

(** ** Assigning attestations to requirements *)

(** The backtracking search: one row per requirement, [None] where the
    attestation satisfies it. *)
Fixpoint solve_rows (rows : list (list (option AttErr))) (n : nat) (taken : gset nat)
    : option (list nat) :=
  match rows with
  | [] => Some []
  | row :: rows =>
      (fix try (cands : list nat) : option (list nat) :=
         match cands with
         | [] => None
         | a :: cands =>
             if bool_decide (a ∈ taken) || is_some (mjoin (row !! a)) then try cands
             else match solve_rows rows n ({[a]} ∪ taken) with
                  | Some ps => Some (a :: ps)
                  | None => try cands
                  end
         end) (seq 0 n)
  end.

Section Assign.
Context `{NL : Nmilat}.

Definition ok_rows (specs : list AttestationSpec) (atts : list (option Event))
    (c : attestContext) : list (list (option AttErr)) :=
  map (fun spec => map (fun att => checkAttestation att spec c) atts) specs.

(** The failure of one requirement: [Some None] when some attestation
    satisfies it, else the error reported; the outer [None] is the nil
    dereference [atts[a].Kind]. *)
Fixpoint row_reason (spec : AttestationSpec) (c : attestContext) (atts : list (option Event))
    (reason : option AttErr) : option (option (option AttErr)) :=
  match atts with
  | [] => Some (Some reason)
  | att :: atts =>
      match checkAttestation att spec c with
      | None => Some None
      | Some e =>
          match reason with
          | None => row_reason spec c atts (Some e)
          | Some _ =>
              a ← att;
              row_reason spec c atts
                (if containsInt (a_Kinds spec) (ev_Kind a) then Some e else reason)
          end
      end
  end.

Fixpoint unsatisfied (specs : list AttestationSpec) (c : attestContext)
    (atts : list (option Event)) : option Reason :=
  match specs with
  | [] => Some RAttDistinct
  | spec :: specs =>
      r ← row_reason spec c atts None;
      match r with
      | None => unsatisfied specs c atts
      | Some None => Some (RAttRequired (a_Name spec))
      | Some (Some e) => Some (RAttFailed (a_Name spec) e)
      end
  end.

(** [assignAttestations]: the chosen index per requirement, or why not. *)
Definition assignAttestations (specs : list AttestationSpec) (atts : list (option Event))
    (c : attestContext) : option (result Reason (list nat)) :=
  match solve_rows (ok_rows specs atts c) (length atts) ∅ with
  | Some picked => Some (Ok picked)
  | None => r ← unsatisfied specs c atts; Some (Err r)
  end.

(** ** NIP-OA requests *)

(** [parseAttestRequest] *)
Definition parseAttestRequest (req : Request) : result Reason Conditions :=
  let sub := q_Subordinate req in
  refuse_if (negb (String.length sub =? 64)%nat || negb (String.eqb (ToLower sub) sub)
             || negb (Validate32Key sub)) RSubordinate ;;
  refuse_if (EqualFold sub (q_SignerPub req)) RSelfAttest ;;
  match ParseConditions (q_Conditions req) with
  | Some conds => Ok conds
  | None => Err RConditions
  end.

(** [a.check(conds, now)]: the inner option is the reason; the outer [None] is
    the nil dereference of [max_until]. *)
Definition AttestSelector_check (a : AttestSelector) (conds : Conditions) (now : Z)
    : option (option AttestReason) :=
  match c_CreatedAtLT conds with
  | [] => Some (Some ANoBound)
  | u :: us =>
      let until := fold_left Z.min us u in
      if (wrap64 until <=? Time_Unix now)%Z then Some (Some ABoundPassed)
      else
        max_until ← as_MaxUntil a;
        if (Time_Unix (Time_Add now max_until) <? wrap64 until)%Z
        then Some (Some (ABoundBeyond max_until))
        else if null (as_Kinds a) then Some None
        else if null (c_Kinds conds) then Some (Some ANoKind)
        else Some (match List.find (fun k => negb (containsInt (as_Kinds a) k)) (c_Kinds conds) with
                   | Some k => Some (AKindNotAllowed k)
                   | None => None
                   end)
  end.

(** ** The decision *)

(** The first rule that applies; a rule not written for attestations never
    allows one.  The outer [None] is a panic. *)
Fixpoint find_rule (rules : list Rule) (req : Request) : option (option Rule) :=
  match rules with
  | [] => Some None
  | r :: rules =>
      if String.eqb (q_Method req) MethodAttest
         && match r_Allow r with Some s => negb (is_some (s_Attest s)) | None => false end
      then find_rule rules req
      else
        s ← Rule_selector r;
        b ← matches s req;
        if (b : bool) then Some (Some r) else find_rule rules req
  end.

(** The age limit once the requirements are met: an attestation that binds the
    id extends it. *)
Definition bound_age (specs : list AttestationSpec) (maxAge : Z) : Z :=
  fold_left (fun m spec => if a_bindsID spec && (m <? a_MaxAge spec)%Z then a_MaxAge spec else m)
    specs maxAge.

(** The [sign_event] checks after the rule matched: attestations, seal, age. *)
Definition evaluate_event (req : Request) (ev : Event) (p : Policy) (r : Rule)
    (used : option (string -> bool)) : option (result Reason (list string)) :=
  let skew := Policy_ruleSkew p r in
  res ← match r_Require r with
        | None => Some (Ok ([], skew))
        | Some specs =>
            let c := mkAttestContext ev (q_Now req) (q_StartTime req) skew (q_SignerPub req) used in
            a ← assignAttestations specs (q_Attestations req) c;
            match a with
            | Err reason => Some (Err reason)
            | Ok picked =>
                ids ← mapM (fun i => a ← mjoin (q_Attestations req !! i); Some (ev_ID a)) picked;
                Some (Ok (ids, bound_age specs skew))
            end
        end;
  Some (
    '(consumed, maxAge) ← res;
    let seal := wrap64 (nip59MaxBackdate + skew) in
    let maxAge := if (ev_Kind ev =? KindSeal)%Z && (maxAge <? seal)%Z then seal else maxAge in
    let created := unixTime (ev_CreatedAt ev) in
    refuse_if (Time_After created (Time_Add (q_Now req) skew)) RFuture ;;
    refuse_if (maxAge <? Time_Sub (q_Now req) created)%Z (RTooOld maxAge) ;;
    Ok consumed).

Definition finish (req : Request) (p : Policy) (r : Rule) (conds : Conditions)
    (used : option (string -> bool)) : option Decision_ :=
  reason ← matchDenyPatterns r req;
  match reason with
  | Some reason => Some (deny (r_Name r) reason)
  | None =>
      if String.eqb (q_Method req) MethodAttest then
        s ← r_Allow r; a ← s_Attest s;
        reason ← AttestSelector_check a conds (q_Now req);
        match reason with
        | Some reason => Some (deny (r_Name r) (RAttest reason))
        | None => Some (mkDecision true (r_Name r) None [] (r_rate r) None)
        end
      else
        s ← Rule_selector r;
        let allow consumed :=
          mkDecision true (r_Name r) None consumed (r_rate r) (s_unwrapFrom s) in
        if String.eqb (q_Method req) MethodSignEvent then
          ev ← q_Event req;
          res ← evaluate_event req ev p r used;
          match res with
          | Err reason => Some (deny (r_Name r) reason)
          | Ok consumed => Some (allow consumed)
          end
        else Some (allow [])
  end.

(** The checks made before any rule is looked at. *)
Definition precheck (req : Request) (p : Policy) : result Reason Conditions :=
  refuse_if (negb (known_method (q_Method req))) (RUnsupported (q_Method req)) ;;
  conds ← (if String.eqb (q_Method req) MethodAttest then parseAttestRequest req
           else Ok (mkConditions [] []));
  (if String.eqb (q_Method req) MethodSignEvent then
     match q_Event req with
     | None => Err RMissingEvent
     | Some ev =>
         refuse_if (negb (EqualFold (ev_PubKey ev) (q_SignerPub req))) RPubkey ;;
         refuse_if (Time_After (unixTime (ev_CreatedAt ev)) (Time_Add (q_Now req) (Policy_Skew p)))
           RFuture
     end
   else Ok ()) ;;
  Ok conds.

(** [Evaluate] *)
Definition Evaluate (req : Request) (p : Policy) (used : option (string -> bool))
    : option Decision_ :=
  match precheck req p with
  | Err reason => Some (deny "" reason)
  | Ok conds =>
      rule ← find_rule (p_Rules p) req;
      match rule with
      | None => Some (deny "" RNoRule)
      | Some r =>
          if is_some (r_Deny r) then Some (deny (r_Name r) RDeniedByRule)
          else finish req p r conds used
      end
  end.

(** [CheckUnwrapResult]: why a decrypted gift wrap may not be released. *)
Inductive UnwrapReason := UNotSeal | UBadSeal | UUnlisted.

Definition CheckUnwrapResult (d : Decision_) (result_ : string) : option UnwrapReason :=
  match d_UnwrapFrom d with
  | None => None
  | Some senders =>
      match UnmarshalEvent result_ with
      | None => Some UNotSeal
      | Some seal =>
          if negb (ev_Kind seal =? KindSeal)%Z then Some UNotSeal
          else if negb (VerifyWithoutPow seal) then Some UBadSeal
          else if negb (bool_decide (ToLower (ev_PubKey seal) ∈ senders)) then Some UUnlisted
          else None
      end
  end.
End Assign.
