(* ===== verification/SignerEvaluateFacts.v ===== *)
(** * Facts about the evaluator

    Shared lemmas on [src/signer/evaluate.go]'s model: the backtracking search
    finds an assignment exactly when there is one, the rule loop picks the
    first rule that applies, and an allowed request went through every
    check. *)
From S2P Require Import Prelude GoTime GoStrings Nostr SignerPolicy SignerAttest.
From S2P Require Import SignerEvaluate.
From stdpp Require Import options.

Local Open Scope string_scope.

(** ** The backtracking search *)

(** One distinct free attestation per requirement. *)
Definition assignment (rows : list (list (option AttErr))) (n : nat) (taken : gset nat)
    (ps : list nat) : Prop :=
  Forall2 (fun row a => (a < n)%nat /\ mjoin (row !! a) = None /\ a ∉ taken) rows ps /\ NoDup ps.

Lemma is_some_false {A} (o : option A) : is_some o = false <-> o = None.
Proof. by destruct o. Qed.

Lemma is_some_true {A} (o : option A) : is_some o = true <-> is_Some o.
Proof. rewrite is_Some_alt. by destruct o; split. Qed.

(** The inner loop of the search, over the candidates left. *)
Definition try_cands (row : list (option AttErr)) (rows : list (list (option AttErr)))
    (n : nat) (taken : gset nat) : list nat -> option (list nat) :=
  fix try (cands : list nat) : option (list nat) :=
    match cands with
    | [] => None
    | a :: cands =>
        if bool_decide (a ∈ taken) || is_some (mjoin (row !! a)) then try cands
        else match solve_rows rows n ({[a]} ∪ taken) with
             | Some ps => Some (a :: ps)
             | None => try cands
             end
    end.

Lemma solve_rows_cons row rows n taken :
  solve_rows (row :: rows) n taken = try_cands row rows n taken (seq 0 n).
Proof. done. Qed.

(** What the loop returns: the first usable candidate whose rest can be
    solved. *)
Lemma try_cands_Some row rows n taken cands ps :
  try_cands row rows n taken cands = Some ps ->
  exists a ps', a ∈ cands /\ ps = (a :: ps') /\ (a ∉ taken) /\ mjoin (row !! a) = None /\
    solve_rows rows n ({[a]} ∪ taken) = Some ps'.
Proof.
  induction cands as [|a cands IH]; simpl; [done|].
  destruct (bool_decide (a ∈ taken) || is_some (mjoin (row !! a))) eqn:E.
  - intros H. destruct (IH H) as (b & ps' & ? & ?). exists b, ps'. set_solver.
  - propify. rewrite is_some_false in *.
    destruct (solve_rows rows n ({[a]} ∪ taken)) as [ps'|] eqn:Es.
    + intros [= <-]. exists a, ps'. set_solver.
    + intros H'. destruct (IH H') as (b & ps' & ? & ?). exists b, ps'. set_solver.
Qed.

Lemma try_cands_None row rows n taken cands a :
  try_cands row rows n taken cands = None ->
  a ∈ cands -> a ∉ taken -> mjoin (row !! a) = None ->
  solve_rows rows n ({[a]} ∪ taken) = None.
Proof.
  induction cands as [|b cands IH]; simpl; [set_solver|].
  intros H Ha Hfree Hok.
  destruct (bool_decide (b ∈ taken) || is_some (mjoin (row !! b))) eqn:E.
  - apply elem_of_cons in Ha as [->|Ha]; [|by apply IH].
    rewrite bool_decide_eq_false_2, Hok in E by done. done.
  - destruct (solve_rows rows n ({[b]} ∪ taken)) as [ps'|] eqn:Es; [done|].
    apply elem_of_cons in Ha as [->|Ha]; [done | by apply IH].
Qed.

Lemma elem_of_seq0 a n : a ∈ seq 0 n <-> (a < n)%nat.
Proof. rewrite elem_of_seq. lia. Qed.

Lemma solve_rows_sound rows n taken ps :
  solve_rows rows n taken = Some ps -> assignment rows n taken ps.
Proof.
  revert taken ps. induction rows as [|row rows IH]; intros taken ps.
  - intros [= <-]. split; constructor.
  - rewrite solve_rows_cons. intros (a & ps' & Ha & -> & Hfree & Hok & Hrest)%try_cands_Some.
    apply IH in Hrest as [Hall Hnd]. apply elem_of_seq0 in Ha. split.
    + constructor; [done|]. eapply Forall2_impl; [exact Hall|]. set_solver.
    + constructor; [|done]. intros Hin. apply list_elem_of_lookup in Hin as (i & Hi).
      eapply Forall2_lookup_r in Hall as (row' & _ & ? & ? & Hnot); [|exact Hi]. set_solver.
Qed.

Lemma solve_rows_complete rows n taken ps :
  assignment rows n taken ps -> is_Some (solve_rows rows n taken).
Proof.
  revert taken ps. induction rows as [|row rows IH]; intros taken ps [Hall Hnd]; [by eexists|].
  rewrite solve_rows_cons.
  destruct (try_cands row rows n taken (seq 0 n)) as [qs|] eqn:E; [by eexists|]. exfalso.
  inversion Hall as [|? a ? ps' (Hlt & Hok & Hfree) Hrest]; subst.
  apply NoDup_cons in Hnd as [Hni Hnd].
  assert (Hsome : is_Some (solve_rows rows n ({[a]} ∪ taken))).
  { apply (IH _ ps'). split; [|done].
    apply Forall2_same_length_lookup. split; [by eapply Forall2_length|].
    intros i row' b Hrow Hb.
    eapply Forall2_lookup_lr in Hrest as (? & ? & ?); [|done..].
    split_and!; try done. apply not_elem_of_union. split; [|done].
    intros ->%elem_of_singleton. apply Hni. by eapply list_elem_of_lookup_2. }
  rewrite (try_cands_None _ _ _ _ _ a E) in Hsome by (done || by apply elem_of_seq0).
  by destruct Hsome.
Qed.

(** ** The rule loop *)

(** Whether the loop of [Evaluate] stops at a rule. *)
Definition rule_applies (r : Rule) (req : Request) : option bool :=
  if String.eqb (q_Method req) MethodAttest
     && match r_Allow r with Some s => negb (is_some (s_Attest s)) | None => false end
  then Some false
  else s ← Rule_selector r; matches s req.

Lemma find_rule_cons r rules req :
  find_rule (r :: rules) req =
  b ← rule_applies r req; if (b : bool) then Some (Some r) else find_rule rules req.
Proof.
  unfold rule_applies; simpl. destruct (_ && _); [done|].
  by destruct (Rule_selector r).
Qed.

Lemma find_rule_Some rules req r :
  find_rule rules req = Some (Some r) <->
  exists before after, rules = (before ++ r :: after)%list /\ rule_applies r req = Some true /\
    Forall (fun r' => rule_applies r' req = Some false) before.
Proof.
  induction rules as [|r0 rules IH].
  - split; [done|]. by intros ([] & ? & ? & ?).
  - rewrite find_rule_cons. destruct (rule_applies r0 req) as [[]|] eqn:E; simpl.
    + split.
      * intros [= <-]. by exists [], rules.
      * intros ([|r1 before] & after & [= -> ->] & Ha & Hb); [done|].
        inversion Hb; congruence.
    + rewrite IH. split.
      * intros (before & after & -> & ? & ?). exists (r0 :: before), after. eauto.
      * intros ([|r1 before] & after & [= -> ->] & Ha & Hb); [congruence|].
        inversion Hb; eauto.
    + split; [done|].
      intros ([|r1 before] & after & [= -> ->] & Ha & Hb); [congruence|].
      inversion Hb; congruence.
Qed.

Lemma find_rule_None rules req :
  find_rule rules req = Some None <-> Forall (fun r => rule_applies r req = Some false) rules.
Proof.
  induction rules as [|r0 rules IH]; [done|].
  rewrite find_rule_cons, Forall_cons.
  destruct (rule_applies r0 req) as [[]|] eqn:E; simpl; rewrite ?IH; naive_solver.
Qed.

(** ** Allowed requests *)

Section Allowed.
Context `{NL : Nmilat}.

Definition attest_context (req : Request) (ev : Event) (p : Policy) (r : Rule)
    (used : option (string -> bool)) : attestContext :=
  mkAttestContext ev (q_Now req) (q_StartTime req) (Policy_ruleSkew p r) (q_SignerPub req) used.

(** The requirements of a rule are met by the attestations at [picked]. *)
Definition requirements_met (specs : list AttestationSpec) (atts : list (option Event))
    (c : attestContext) (picked : list nat) : Prop :=
  NoDup picked /\
  Forall2 (fun spec i => exists e, atts !! i = Some (Some e) /\ attestation_ok e spec c)
    specs picked.

Lemma ok_rows_lookup specs atts c i spec a :
  specs !! i = Some spec ->
  exists row, ok_rows specs atts c !! i = Some row /\
    mjoin (row !! a) = (att ← atts !! a; checkAttestation att spec c).
Proof.
  intros Hi. exists (map (fun att => checkAttestation att spec c) atts).
  unfold ok_rows. rewrite list_lookup_fmap, Hi. split; [done|].
  change (map ?f atts) with (f <$> atts).
  rewrite list_lookup_fmap. by destruct (atts !! a).
Qed.

Lemma assignment_met specs atts c ps :
  assignment (ok_rows specs atts c) (length atts) ∅ ps <-> requirements_met specs atts c ps.
Proof.
  unfold assignment, requirements_met. rewrite (comm and (NoDup ps)).
  rewrite !Forall2_same_length_lookup. unfold ok_rows at 1. rewrite length_map.
  enough (Hiff : (forall i row a, ok_rows specs atts c !! i = Some row -> ps !! i = Some a ->
                    (a < length atts)%nat /\ mjoin (row !! a) = None /\ a ∉ (∅ : gset nat)) <->
                 (forall i spec a, specs !! i = Some spec -> ps !! i = Some a ->
                    exists e, atts !! a = Some (Some e) /\ attestation_ok e spec c)) by tauto.
  split.
  - intros H i spec a Hi Ha.
    destruct (ok_rows_lookup specs atts c i spec a Hi) as (row & Hrow & Hr).
    destruct (H i row a Hrow Ha) as (Hlt & Hnone & _).
    apply lookup_lt_is_Some in Hlt as [att Hatt]. rewrite Hatt in *.
    rewrite Hnone in Hr. symmetry in Hr. simpl in Hr.
    apply checkAttestation_None in Hr as (e & -> & Hok). eauto.
  - intros H i row a Hrow Ha.
    assert (is_Some (specs !! i)) as [spec Hi].
    { apply lookup_lt_is_Some. apply lookup_lt_Some in Hrow.
      unfold ok_rows in Hrow. by rewrite length_map in Hrow. }
    destruct (ok_rows_lookup specs atts c i spec a Hi) as (row' & Hrow' & Hr).
    rewrite Hrow in Hrow'. injection Hrow' as <-.
    destruct (H i spec a Hi Ha) as (e & Hatt & Hok). split_and!.
    + by eapply lookup_lt_Some.
    + rewrite Hr, Hatt. simpl. apply checkAttestation_None. eauto.
    + set_solver.
Qed.

Lemma assignAttestations_Ok specs atts c picked :
  assignAttestations specs atts c = Some (Ok picked) -> requirements_met specs atts c picked.
Proof.
  unfold assignAttestations. destruct (solve_rows _ _ _) as [ps|] eqn:E.
  - intros [= <-]. by apply assignment_met, solve_rows_sound.
  - by destruct (unsatisfied specs c atts).
Qed.

Lemma assignAttestations_complete specs atts c ps :
  requirements_met specs atts c ps ->
  exists picked, assignAttestations specs atts c = Some (Ok picked).
Proof.
  intros H%assignment_met%solve_rows_complete. unfold assignAttestations.
  destruct H as [qs ->]. eauto.
Qed.

(** The age a target may have under rule [r]. *)
Definition age_limit (p : Policy) (r : Rule) (ev : Event) : Z :=
  let skew := Policy_ruleSkew p r in
  let base := match r_Require r with None => skew | Some specs => bound_age specs skew end in
  let seal := wrap64 (nip59MaxBackdate + skew) in
  if (ev_Kind ev =? KindSeal)%Z && (base <? seal)%Z then seal else base.

Definition ids_at (atts : list (option Event)) (picked : list nat) : option (list string) :=
  mapM (fun i => a ← mjoin (atts !! i); Some (ev_ID a)) picked.

Lemma evaluate_event_Ok req ev p r used consumed :
  evaluate_event req ev p r used = Some (Ok consumed) ->
  (unixTime (ev_CreatedAt ev) <= Time_Add (q_Now req) (Policy_ruleSkew p r))%Z /\
  (Time_Sub (q_Now req) (unixTime (ev_CreatedAt ev)) <= age_limit p r ev)%Z /\
  match r_Require r with
  | None => consumed = []
  | Some specs => exists picked,
      requirements_met specs (q_Attestations req) (attest_context req ev p r used) picked /\
      ids_at (q_Attestations req) picked = Some consumed
  end.
Proof.
  unfold evaluate_event, age_limit, Time_After. intros H.
  destruct (r_Require r) as [specs|]; simpl in H.
  - destruct (assignAttestations _ _ _) as [[picked|e]|] eqn:Ea; simpl in H; [|done..].
    fold (ids_at (q_Attestations req) picked) in H.
    destruct (ids_at (q_Attestations req) picked) as [ids|] eqn:Ei; simpl in H; [|done].
    injection H as H. unbind H. injection H as <-. propify. split_and!; [done..|].
    exists picked. split; [by apply assignAttestations_Ok | done].
  - injection H as H. unbind H. injection H as <-. by propify.
Qed.

Lemma finish_allow req p r conds used d :
  finish req p r conds used = Some d -> d_Allow d = true ->
  exists s, Rule_selector r = Some s /\ matchDenyPatterns r req = Some None /\
    d_Rule d = r_Name r /\ d_Rate d = r_rate r /\ d_Reason d = None /\
    ((q_Method req = MethodAttest /\ r_Allow r = Some s /\ d_Consumed d = [] /\
        d_UnwrapFrom d = None /\
        exists a, s_Attest s = Some a /\ AttestSelector_check a conds (q_Now req) = Some None) \/
     (q_Method req <> MethodAttest /\ d_UnwrapFrom d = s_unwrapFrom s /\
        (q_Method req <> MethodSignEvent /\ d_Consumed d = [] \/
         q_Method req = MethodSignEvent /\
         exists ev, q_Event req = Some ev /\
           evaluate_event req ev p r used = Some (Ok (d_Consumed d))))).
Proof.
  unfold finish. intros H Hal.
  destruct (matchDenyPatterns r req) as [[reason|]|]; simpl in H; [by simplify_eq| |done].
  destruct (String.eqb (q_Method req) MethodAttest) eqn:Em; propify.
  - destruct (r_Allow r) as [s|] eqn:Es; simpl in H; [|done].
    destruct (s_Attest s) as [a|] eqn:Ea; simpl in H; [|done].
    destruct (AttestSelector_check a conds (q_Now req)) as [[reason|]|] eqn:Ec;
      simpl in H; simplify_eq; try done.
    exists s. unfold Rule_selector. rewrite Es. simpl. naive_solver.
  - destruct (Rule_selector r) as [s|] eqn:Es; simpl in H; [|done]. exists s.
    destruct (String.eqb (q_Method req) MethodSignEvent) eqn:Ems; propify.
    + destruct (q_Event req) as [ev|] eqn:Ev; simpl in H; [|done].
      destruct (evaluate_event req ev p r used) as [[consumed|reason]|] eqn:Ee;
        simpl in H; simplify_eq; try done. simpl. naive_solver.
    + simplify_eq. simpl. naive_solver.
Qed.

(** An allowed request passed the checks made before the rules, and the first
    rule that applies is an allow rule whose own checks it passed. *)
Lemma Evaluate_allow_inv req p used d :
  Evaluate req p used = Some d -> d_Allow d = true ->
  exists conds r, precheck req p = Ok conds /\ find_rule (p_Rules p) req = Some (Some r) /\
    r_Deny r = None /\ finish req p r conds used = Some d.
Proof.
  unfold Evaluate. intros H Hal.
  destruct (precheck req p) as [conds|e] eqn:Ep; [|by simplify_eq].
  destruct (find_rule (p_Rules p) req) as [[r|]|] eqn:Er; simpl in H; [|by simplify_eq..].
  destruct (r_Deny r) as [s|] eqn:Ed; simpl in H; [by simplify_eq|]. by exists conds, r.
Qed.

Lemma precheck_sign req p conds :
  precheck req p = Ok conds -> q_Method req = MethodSignEvent ->
  exists ev, q_Event req = Some ev /\ EqualFold (ev_PubKey ev) (q_SignerPub req) = true /\
    (unixTime (ev_CreatedAt ev) <= Time_Add (q_Now req) (Policy_Skew p))%Z.
Proof.
  unfold precheck, Time_After. intros H Hm. rewrite Hm in H. unbind H. simpl in B1.
  destruct (q_Event req) as [ev|]; [|done]. exists ev. unbind B1.
  apply refuse_if_Ok in B1. by propify.
Qed.

Lemma precheck_attest req p conds :
  precheck req p = Ok conds -> q_Method req = MethodAttest ->
  parseAttestRequest req = Ok conds.
Proof.
  unfold precheck. intros H Hm. rewrite Hm in H. unbind H. by simplify_eq.
Qed.
Lemma ids_at_elem atts picked ids id :
  ids_at atts picked = Some ids -> id ∈ ids ->
  exists i e, i ∈ picked /\ atts !! i = Some (Some e) /\ ev_ID e = id.
Proof.
  intros H Hid. apply mapM_Some in H.
  apply list_elem_of_lookup in Hid as (j & Hj).
  eapply Forall2_lookup_r in H as (i & Hi & Hx); [|exact Hj].
  destruct (atts !! i) as [[e|]|] eqn:E; simpl in Hx; [|done..].
  exists i, e. split_and!; [by eapply list_elem_of_lookup_2 | done | by injection Hx].
Qed.

Lemma requirements_met_elem specs atts c picked i :
  requirements_met specs atts c picked -> i ∈ picked ->
  exists spec e, spec ∈ specs /\ atts !! i = Some (Some e) /\ attestation_ok e spec c.
Proof.
  intros [_ H] (j & Hj)%list_elem_of_lookup.
  eapply Forall2_lookup_r in H as (spec & Hs & e & He & Hok); [|exact Hj].
  exists spec, e. split_and!; [by eapply list_elem_of_lookup_2 | done..].
Qed.

(** The rule a decision names, for an allowed request under a loaded policy. *)
Lemma allowed_rule opts req p used d :
  policy_wf opts p -> Evaluate req p used = Some d -> d_Allow d = true ->
  exists conds r s, precheck req p = Ok conds /\ r ∈ p_Rules p /\ rule_wf opts r /\
    Rule_selector r = Some s /\ rule_applies r req = Some true /\ r_Deny r = None /\
    finish req p r conds used = Some d.
Proof.
  intros [Hwf _ _ _] H Hal.
  destruct (Evaluate_allow_inv _ _ _ _ H Hal) as (conds & r & Hpre & Hfind & Hd & Hfin).
  apply find_rule_Some in Hfind as (before & after & Heq & Happ & _).
  assert (Hin : r ∈ p_Rules p) by (rewrite Heq; set_solver).
  assert (Hr : rule_wf opts r) by (by eapply Forall_forall in Hwf).
  destruct (rwf_selector _ _ Hr) as (s & Hs & _). exists conds, r, s. done.
Qed.

(** Where a consumed id comes from. *)
Lemma consumed_elem opts req p used d id :
  policy_wf opts p -> Evaluate req p used = Some d -> d_Allow d = true -> id ∈ d_Consumed d ->
  exists r specs spec e ev, r ∈ p_Rules p /\ d_Rule d = r_Name r /\
    r_Require r = Some specs /\ spec ∈ specs /\ attestation_wf opts spec /\
    Some e ∈ q_Attestations req /\ ev_ID e = id /\
    attestation_ok e spec (attest_context req ev p r used) /\ d_UnwrapFrom d = None.
Proof.
  intros Hwf H Hal Hid.
  destruct (allowed_rule opts req p used d Hwf H Hal)
    as (conds & r & s & _ & Hin & Hrwf & Hs & _ & _ & Hfin).
  destruct (finish_allow _ _ _ _ _ _ Hfin Hal) as (s2 & Hs2 & _ & Hrule & _ & _ & Hcases).
  assert (s2 = s) as -> by congruence.
  destruct Hcases as [(_ & _ & Hc & _)|(_ & Huf & [[_ Hc]|(_ & ev & Hev & Hee)])];
    [rewrite Hc in Hid; by apply not_elem_of_nil in Hid..|].
  apply evaluate_event_Ok in Hee as (_ & _ & Hreq). destruct (r_Require r) as [specs|] eqn:Er.
  2: { rewrite Hreq in Hid. by apply not_elem_of_nil in Hid. }
  destruct Hreq as (picked & Hmet & Hids).
  destruct (ids_at_elem _ _ _ _ Hids Hid) as (i & e & Hi & He & <-).
  destruct (requirements_met_elem _ _ _ _ _ Hmet Hi) as (spec & e' & Hspec & He' & Hok).
  rewrite He in He'. injection He' as <-.
  destruct (rwf_require _ _ Hrwf _ Er) as (_ & Hall & _ & s3 & Hs3 & Hms).
  assert (s3 = s) as -> by congruence.
  eapply Forall_forall in Hall; [|exact Hspec].
  exists r, specs, spec, e, ev. split_and!; try done; [by eapply list_elem_of_lookup_2|].
  rewrite Huf. destruct (s_unwrapFrom s) eqn:E; [|done].
  destruct (rwf_selector _ _ Hrwf) as (s4 & Hs4 & []). assert (s4 = s) as -> by congruence.
  rewrite swf_unwrap_set in Hms by (by eexists). done.
Qed.
End Allowed.
