(* ===== verification/SignerExamples.v ===== *)
(** * A concrete policy and concrete requests

    Inputs at which the hypotheses of the theorems hold: one policy with a
    rule of each form, loaded through [ParsePolicy] with the reference
    libraries of [Nostr.v], and requests that exercise it. *)
From S2P Require Import Prelude GoTime GoStrings Nostr SignerPolicy SignerAttest.
From S2P Require Import SignerEvaluate.
From stdpp Require Import options.
From Stdlib Require Import Ascii.

Local Open Scope string_scope.

#[local] Existing Instance reference_nmilat.

Fixpoint repeat_byte (n : nat) (c : ascii) : string :=
  match n with O => "" | S n => String c (repeat_byte n c) end.

Definition alice := repeat_byte 64 "a".
Definition bob := repeat_byte 64 "b".
Definition carol := repeat_byte 64 "c".
(** The signer's own key. *)
Definition signer_pub := repeat_byte 64 "d".

(** A decoded selector: the derived fields are zero. *)
Definition ex_selector (ms : list string) (ks : list Z) (cps uf : list string)
    (att : option AttestSelector) : Selector :=
  mkSelector ms ks cps ∅ ∅ uf att None None.

Definition ex_rule (name : string) (allow deny : option Selector) (pats : list string)
    (rate : string) (req : option (list AttestationSpec)) : Rule :=
  mkRule name allow deny pats rate None req [] None.

(** "review" wants a kind 1111 event by alice or bob, at most 15 minutes old,
    whose [e] tag names the target. *)
Definition ex_spec (name : string) : AttestationSpec :=
  mkAttestationSpec name [1111%Z] [alice; bob] "" (15 * Minute)
    [mkBind "e" "id" None None] ∅ "" false.

Definition ex_document : Policy :=
  mkPolicy "Signer-Policy" None
    [ex_rule "no-deletes" None (Some (ex_selector [] [5%Z] [] [] None)) [] "" None;
     ex_rule "release" (Some (ex_selector [] [30063%Z] [] [] None)) None [] "60/m"
       (Some [ex_spec "review"]);
     ex_rule "two-reviews" (Some (ex_selector [] [30064%Z] [] [] None)) None [] ""
       (Some [ex_spec "first"; ex_spec "second"]);
     ex_rule "chat" (Some (ex_selector [] [9%Z] [] [] None)) None ["nsec1"] "10/s" None;
     ex_rule "prove" (Some (ex_selector [MethodNIP44MessageKeys] [] [bob] [] None)) None [] "" None;
     ex_rule "dm" (Some (ex_selector [] [] [bob] [] None)) None [] "" None;
     ex_rule "inbox" (Some (ex_selector [] [] [] [alice] None)) None [] "1/m" None;
     ex_rule "agents"
       (Some (ex_selector [] [] [] []
                (Some (mkAttestSelector ["*"] (Some (720 * Hour)%Z) [] false ∅)))) None [] "" None]
    "" [] [].

Definition ex_opts : LoadOptions := mkLoadOptions false signer_pub.

Definition no_files : FileSystem := fun _ => None.
Definition ex_unmarshal : string -> option Policy := fun _ => Some ex_document.

Definition ex_load : result PolicyError Policy :=
  ParsePolicy ex_unmarshal no_files "policy" "" ex_opts.

Definition ex_policy : Policy := match ex_load with Ok p => p | Err _ => ex_document end.

Lemma ex_load_Ok : ex_load = Ok ex_policy.
Proof. vm_compute. reflexivity. Qed.

Definition ex_unix : Z := 1760000000.
Definition ex_now : Z := Unix_ ex_unix.

(** A target event of kind [k], created now by the signer. *)
Definition ex_target (k : Z) (content : string) : Event :=
  mkEvent "target" signer_pub ex_unix k [] content "".

(** Approval of the target by [author], signed a minute ago. *)
Definition ex_review (author : string) : Event :=
  mkEvent "review-1" author (ex_unix - 60) 1111 [["e"; "target"]] "LGTM" "sig:review-1".

Definition ex_sign (k : Z) (content : string) (atts : list (option Event)) : Request :=
  mkRequest MethodSignEvent (Some (ex_target k content)) "" "" atts "" "" ex_now 0 signer_pub.

Definition ex_crypto (method counterpart : string) : Request :=
  mkRequest method None counterpart "hello" [] "" "" ex_now 0 signer_pub.

Definition ex_attest (sub conds : string) : Request :=
  mkRequest MethodAttest None "" "" [] sub conds ex_now 0 signer_pub.

Definition nothing_used : option (string -> bool) := Some (fun _ => false).

(** The same policy read from a file. *)
Definition ex_fs : FileSystem :=
  fun path => if String.eqb path "policy.yaml" then Some "policy" else None.

Definition ex_loaded : Policy :=
  match LoadPolicy ex_unmarshal ex_fs "policy.yaml" "" ex_opts with
  | Ok p => p
  | Err _ => ex_document
  end.

(** A rule of the loaded policy, by its index. *)
Definition ex_nth (i : nat) : Rule :=
  nth i (p_Rules ex_policy) (ex_rule "" None None [] "" None).

Definition ex_release : Rule := ex_nth 1.

(** [ex_spec] once validated. *)
Definition ex_checked_spec (name : string) : AttestationSpec :=
  mkAttestationSpec name [1111%Z] [alice; bob] "" (15 * Minute)
    [mkBind "e" "id" None None] {[alice; bob]} "" true.

Definition ex_two_specs : list AttestationSpec := default [] (r_Require (ex_nth 2)).

Definition ex_two_context : attestContext :=
  mkAttestContext (ex_target 30064 "") ex_now 0 DefaultMaxClockSkew signer_pub nothing_used.
