(* ===== verification/SignerDecisions.v ===== *)
(** * What the signer's decisions guarantee

    The theorems of [src/signer/evaluate.go], [attest.go] and [nipoa.go]: an
    allowed request satisfied every condition of the first rule that applies,
    a deny rule that applies first wins, a loaded policy never makes the
    evaluation panic, the attestation search is exact, attestations of
    subordinate keys are bounded.  Two theorems record where the code does
    less than its documentation says. *)
From S2P Require Import Prelude GoTime GoStrings Nostr SignerPolicy SignerAttest.
From S2P Require Import SignerEvaluate SignerEvaluateFacts SignerExamples.
From stdpp Require Import options.

Local Open Scope string_scope.

Section Decisions.
Context `{NL : Nmilat}.

(** ** No panic *)

Definition no_nil (atts : list (option Event)) : Prop := Forall is_Some atts.

Lemma matches_Some s req :
  (q_Method req = MethodSignEvent -> is_Some (q_Event req)) -> is_Some (matches s req).
Proof.
  intros Hev. unfold matches. repeat (case_match; try done). all: propify.
  all: destruct Hev as [ev ->]; done.
Qed.

Lemma rule_applies_Some opts r req :
  rule_wf opts r -> (q_Method req = MethodSignEvent -> is_Some (q_Event req)) ->
  is_Some (rule_applies r req).
Proof.
  intros [] Hev. unfold rule_applies. case_match; [done|].
  destruct rwf_selector as (s & -> & _). by apply matches_Some.
Qed.

Lemma find_rule_total opts rules req :
  Forall (rule_wf opts) rules -> (q_Method req = MethodSignEvent -> is_Some (q_Event req)) ->
  is_Some (find_rule rules req).
Proof.
  intros Hwf Hev. induction Hwf as [|r rules Hr Hwf IH]; [by eexists|].
  rewrite find_rule_cons. destruct (rule_applies_Some opts r req Hr Hev) as [[] ->]; simpl; eauto.
Qed.

Lemma row_reason_total spec c atts reason :
  no_nil atts -> is_Some (row_reason spec c atts reason).
Proof.
  intros H. revert reason. induction H as [|att atts [a ->] H IH]; intros reason; simpl; [done|].
  destruct (checkAttestation (Some a) spec c); [|done]. destruct reason; simpl; apply IH.
Qed.

Lemma unsatisfied_total specs c atts : no_nil atts -> is_Some (unsatisfied specs c atts).
Proof.
  intros H. induction specs as [|spec specs IH]; simpl; [done|].
  destruct (row_reason_total spec c atts None H) as [[[e|]|] ->]; done.
Qed.

Lemma ids_at_total specs atts c picked :
  requirements_met specs atts c picked -> is_Some (ids_at atts picked).
Proof.
  intros [_ H]. unfold ids_at. apply mapM_is_Some.
  induction H as [|spec i specs picked (e & Hi & _) H IH]; constructor; [|done].
  simpl. rewrite Hi. done.
Qed.

Lemma evaluate_event_total req ev p r used :
  no_nil (q_Attestations req) -> is_Some (evaluate_event req ev p r used).
Proof.
  intros Hn. unfold evaluate_event. destruct (r_Require r) as [specs|]; simpl; [|done].
  fold (attest_context req ev p r used).
  destruct (assignAttestations specs (q_Attestations req) (attest_context req ev p r used))
    as [[picked|e]|] eqn:E; simpl; [|done|].
  - apply assignAttestations_Ok, ids_at_total in E as [ids E].
    unfold ids_at in E. rewrite E. done.
  - unfold assignAttestations in E. destruct (solve_rows _ _ _); [done|].
    destruct (unsatisfied_total specs (attest_context req ev p r used) _ Hn) as [x Hx].
    by rewrite Hx in E.
Qed.

Lemma AttestSelector_check_total a conds now :
  is_Some (as_MaxUntil a) -> is_Some (AttestSelector_check a conds now).
Proof.
  intros [m Hm]. unfold AttestSelector_check. rewrite Hm. simpl.
  repeat (case_match; try done).
Qed.

Lemma matchDenyPatterns_total r req :
  (q_Method req = MethodSignEvent -> is_Some (q_Event req)) ->
  is_Some (matchDenyPatterns r req).
Proof.
  intros Hev. unfold matchDenyPatterns. destruct (null _); [done|].
  destruct (String.eqb (q_Method req) MethodSignEvent) eqn:E; propify; [|done].
  by destruct (Hev E) as [ev ->].
Qed.

(** A rule found for an attestation request that is not a deny rule has an
    [attest] selector with its end bound. *)
Lemma found_attest opts r req :
  rule_wf opts r -> r_Deny r = None -> rule_applies r req = Some true ->
  q_Method req = MethodAttest ->
  exists s a, r_Allow r = Some s /\ s_Attest s = Some a /\ is_Some (as_MaxUntil a) /\
    AttestSelector_matches a (q_Subordinate req) = true.
Proof.
  intros [] Hd Happ Hm. rewrite Hd in rwf_one. simpl in rwf_one.
  destruct rwf_selector as (s & Hs & Hswf). unfold rule_applies in Happ. rewrite Hm in Happ.
  simpl in Happ. unfold Rule_selector in *. destruct (r_Allow r) as [s'|]; [|done].
  injection Hs as ->. destruct (s_Attest s) as [a|] eqn:Ea; simpl in Happ; [|done].
  exists s, a. unfold matches in Happ. rewrite Ea, Hm in Happ.
  destruct Hswf. destruct (swf_attest a Ea) as [_ Hmu].
  split_and!; eauto. destruct (_ && _) in Happ; [done|]. by injection Happ.
Qed.

(** Under a loaded policy and without nil attestations, the evaluation always
    produces a decision. *)
Lemma Evaluate_total opts req p used :
  policy_wf opts p -> no_nil (q_Attestations req) -> is_Some (Evaluate req p used).
Proof.
  intros [Hwf _ _ _] Hn. unfold Evaluate.
  destruct (precheck req p) as [conds|e] eqn:Ep; [|done].
  assert (Hev : q_Method req = MethodSignEvent -> is_Some (q_Event req)).
  { intros Hm. destruct (precheck_sign _ _ _ Ep Hm) as (ev & -> & _). by eexists. }
  destruct (find_rule_total opts _ _ Hwf Hev) as [[r|] Hr]; rewrite Hr; simpl; [|done].
  destruct (r_Deny r) eqn:Ed; simpl; [done|].
  apply find_rule_Some in Hr as (before & after & Heq & Happ & _).
  assert (Hrwf : rule_wf opts r).
  { rewrite Heq in Hwf. by apply Forall_app in Hwf as [_ [? _]%Forall_cons]. }
  unfold finish. destruct (matchDenyPatterns_total r req Hev) as [[reason|] ->]; simpl; [done|].
  destruct (String.eqb (q_Method req) MethodAttest) eqn:Em; propify.
  - destruct (found_attest opts r req) as (s & a & -> & Ha & Hmu & _); [done..|]. simpl.
    rewrite Ha. simpl. destruct (AttestSelector_check_total a conds (q_Now req) Hmu) as [[] ->]; done.
  - destruct Hrwf. destruct rwf_selector as (s & -> & _). simpl.
    destruct (String.eqb (q_Method req) MethodSignEvent) eqn:Ems; propify; [|done].
    destruct (Hev Ems) as [ev ->]. simpl.
    by destruct (evaluate_event_total req ev p r used Hn) as [[] ->].
Qed.

(** ** Decisions *)

(** C2: A request is allowed only by the first rule that applies to it: every
    earlier rule does not apply, the rule is an allow rule whose selector
    matches and none of whose deny patterns match.  An allowed [sign_event]
    is by the signer's own key, is dated neither beyond the clock skew nor
    before the rule's age limit, and each requirement of the rule is met by an
    attestation of its own position in the request that is genuine, fresh,
    unused and bound to the event; exactly those attestations are consumed. *)
Theorem Evaluate_allow_sound req p used d :
  Evaluate req p used = Some d -> d_Allow d = true ->
  exists before r after s,
    p_Rules p = (before ++ r :: after)%list /\
    Forall (fun r' => rule_applies r' req = Some false) before /\
    rule_applies r req = Some true /\ r_Deny r = None /\ Rule_selector r = Some s /\
    matchDenyPatterns r req = Some None /\
    d_Rule d = r_Name r /\ d_Rate d = r_rate r /\
    (q_Method req = MethodSignEvent -> exists ev,
       q_Event req = Some ev /\ EqualFold (ev_PubKey ev) (q_SignerPub req) = true /\
       (unixTime (ev_CreatedAt ev) <= Time_Add (q_Now req) (Policy_Skew p))%Z /\
       (unixTime (ev_CreatedAt ev) <= Time_Add (q_Now req) (Policy_ruleSkew p r))%Z /\
       (Time_Sub (q_Now req) (unixTime (ev_CreatedAt ev)) <= age_limit p r ev)%Z /\
       match r_Require r with
       | None => d_Consumed d = []
       | Some specs => exists picked,
           requirements_met specs (q_Attestations req) (attest_context req ev p r used) picked /\
           ids_at (q_Attestations req) picked = Some (d_Consumed d)
       end).
Proof.
  intros H Hal. destruct (Evaluate_allow_inv _ _ _ _ H Hal) as (conds & r & Hpre & Hfind & Hd & Hfin).
  apply find_rule_Some in Hfind as (before & after & Heq & Happ & Hbefore).
  destruct (finish_allow _ _ _ _ _ _ Hfin Hal) as (s & Hs & Hdm & Hrule & Hrate & _ & Hcases).
  exists before, r, after, s. split_and!; try done. intros Hm.
  destruct (precheck_sign _ _ _ Hpre Hm) as (ev & Hev & Hpub & Hfut).
  destruct Hcases as [(Hm' & _)|(_ & _ & [[Hm' _]|(_ & ev' & Hev' & Hee)])];
    [by rewrite Hm in Hm' | done|].
  rewrite Hev in Hev'. injection Hev' as <-.
  apply evaluate_event_Ok in Hee as (? & ? & ?). exists ev. done.
Qed.

(** A deny rule that applies before any other rule wins, whatever rules
    follow it, and a request to which no rule applies is denied. *)
Theorem Evaluate_deny_first req p used conds :
  precheck req p = Ok conds ->
  (forall before r after,
     p_Rules p = (before ++ r :: after)%list ->
     Forall (fun r' => rule_applies r' req = Some false) before ->
     rule_applies r req = Some true -> is_Some (r_Deny r) ->
     Evaluate req p used = Some (deny (r_Name r) RDeniedByRule)) /\
  (Forall (fun r => rule_applies r req = Some false) (p_Rules p) ->
     Evaluate req p used = Some (deny "" RNoRule)).
Proof.
  intros Hpre. unfold Evaluate. rewrite Hpre. split.
  - intros before r after Heq Hbefore Happ [s Hd].
    assert (Hfind : find_rule (p_Rules p) req = Some (Some r)) by (apply find_rule_Some; eauto).
    rewrite Hfind. simpl. by rewrite Hd.
  - intros Hnone%find_rule_None. by rewrite Hnone.
Qed.

(** C5: The backtracking assignment is exact: it succeeds if and only if the
    request's attestations contain, for every requirement, one that satisfies
    it, no position being used twice; and what it returns is such a choice. *)
Theorem assignAttestations_exact specs atts c :
  (forall picked, assignAttestations specs atts c = Some (Ok picked) ->
     requirements_met specs atts c picked) /\
  ((exists picked, assignAttestations specs atts c = Some (Ok picked)) <->
   (exists picked, requirements_met specs atts c picked)).
Proof.
  split; [apply assignAttestations_Ok|]. split.
  - intros (picked & H%assignAttestations_Ok). eauto.
  - intros (picked & H). by eapply assignAttestations_complete.
Qed.

(** Under a policy that loaded, and for a request without nil attestations,
    [Evaluate] never panics: it returns a decision. *)
Theorem Evaluate_no_panic Unmarshal fs path dir opts p req used :
  LoadPolicy Unmarshal fs path dir opts = Ok p -> no_nil (q_Attestations req) ->
  exists d, Evaluate req p used = Some d.
Proof.
  intros H%LoadPolicy_policy_wf Hn. destruct (Evaluate_total opts req p used H Hn) as [d Hd]. eauto.
Qed.

Lemma fold_min_elem us u :
  fold_left Z.min us u ∈ u :: us /\ Forall (fun v => fold_left Z.min us u <= v)%Z (u :: us).
Proof.
  revert u. induction us as [|v us IH]; intros u; simpl.
  - split; [set_solver|]. constructor; [lia|constructor].
  - destruct (IH (Z.min u v)) as [H1 H2]. apply Forall_cons in H2 as [H2 H3]. split.
    + apply elem_of_cons in H1 as [H1|H1]; [|set_solver]. rewrite H1.
      destruct (Z.min_dec u v) as [->| ->]; set_solver.
    + constructor; [lia|]. constructor; [lia|done].
Qed.

(** What [AttestSelector.check] accepts. *)
Lemma AttestSelector_check_None a conds now max_until :
  as_MaxUntil a = Some max_until -> AttestSelector_check a conds now = Some None ->
  exists until, until ∈ c_CreatedAtLT conds /\
    Forall (fun v => until <= v)%Z (c_CreatedAtLT conds) /\
    (Time_Unix now < wrap64 until <= Time_Unix (Time_Add now max_until))%Z /\
    (as_Kinds a <> [] -> c_Kinds conds <> [] /\ Forall (fun k => k ∈ as_Kinds a) (c_Kinds conds)).
Proof.
  intros Hmu. unfold AttestSelector_check. rewrite Hmu. simpl.
  destruct (c_CreatedAtLT conds) as [|u us]; [done|]. intros H.
  destruct (fold_min_elem us u) as [Hin Hall]. exists (fold_left Z.min us u).
  split_match H. split_match H. propify. split_and!; [done..|].
  intros Hk. destruct (null (as_Kinds a)) eqn:E1; [by apply null_true in E1|].
  destruct (null (c_Kinds conds)) eqn:E2; [done|]. split; [by apply null_false|].
  apply Forall_forall. intros k Hin'. destruct (List.find _ _) eqn:Ef; [done|].
  apply list_elem_of_In in Hin'. apply (find_none _ _ Ef) in Hin'. propify.
  by apply containsInt_true.
Qed.

(** A rule that applies to an encryption or decryption. *)
Lemma applies_crypto r s req :
  Rule_selector r = Some s -> q_Method req <> MethodSignEvent -> q_Method req <> MethodAttest ->
  rule_applies r req = Some true ->
  (s_Methods s = [] \/ q_Method req ∈ s_Methods s) /\ s_Attest s = None /\
  (forall cs, s_counterparts s = Some cs -> ToLower (q_Counterpart req) ∈ cs).
Proof.
  intros Hs Hns Hna Happ. unfold rule_applies in Happ.
  apply String.eqb_neq in Hns, Hna. rewrite Hna in Happ. simpl in Happ. rewrite Hs in Happ.
  simpl in Happ. unfold matches in Happ. rewrite Hns, Hna in Happ. simpl in Happ.
  split_match Happ. split_match Happ. split_match Happ. split_and!.
  - propify. destruct E as [E|E]; propify; [left; by apply null_true|right].
    by apply containsString_true.
  - done.
  - intros cs Hcs. rewrite Hcs in E1. by propify.
Qed.

Lemma CheckUnwrapResult_None d senders text :
  d_UnwrapFrom d = Some senders -> CheckUnwrapResult d text = None ->
  exists seal, UnmarshalEvent text = Some seal /\ ev_Kind seal = KindSeal /\
    VerifyWithoutPow seal = true /\ ToLower (ev_PubKey seal) ∈ senders.
Proof.
  intros Hd. unfold CheckUnwrapResult. rewrite Hd. intros H.
  repeat split_match H. propify. eauto.
Qed.

(** The reason loop dereferences the nil it meets after a failure. *)
Lemma row_reason_nil spec c att atts after :
  Forall is_Some (att :: atts) ->
  Forall (fun a => forall e, a = Some e -> ~ attestation_ok e spec c)
    (att :: atts ++ None :: after)%list ->
  row_reason spec c (att :: atts ++ None :: after)%list None = None.
Proof.
  intros [[e ->] Hsome]%Forall_cons [Hbad Hbads]%Forall_cons. simpl.
  assert (Hfail : forall a, (forall e, a = Some e -> ~ attestation_ok e spec c) ->
            exists err, checkAttestation a spec c = Some err).
  { intros a Ha. destruct (checkAttestation a spec c) as [err|] eqn:E; [by eexists|].
    apply checkAttestation_None in E as (e' & -> & Hok). by destruct (Ha e'). }
  destruct (Hfail _ Hbad) as [err ->]. clear e Hbad. revert err.
  induction Hsome as [|a atts [e ->] Hsome IH]; intros err; simpl.
  - done.
  - apply Forall_cons in Hbads as [Hbad Hbads]. destruct (Hfail _ Hbad) as [err' ->]. simpl.
    destruct (containsInt _ _); by apply IH.
Qed.

(** What a loaded policy guarantees, whatever the document said: rule names
    are unique, every rule is either an allow or a deny rule, only a rule
    allowed as a catch-all covers every method, attestation requirements name
    kinds, authors (never the signer) and binds and last at most 24 hours, an
    attest rule has an end bound, [nip44_message_keys] needs counterparts. *)
Theorem LoadPolicy_wf Unmarshal fs path dir opts p :
  LoadPolicy Unmarshal fs path dir opts = Ok p -> policy_wf opts p.
Proof. apply LoadPolicy_policy_wf. Qed.

(** Every attestation an allowed [sign_event] consumes is in the request,
    verifies, is neither by the signer nor used before, and was created in
    real time at most 24 hours before the decision and at most the rule's
    clock skew after it: no [created_at], however large, wraps around into the
    window. *)
Theorem Evaluate_consumed_window Unmarshal fs path dir opts p req used d :
  LoadPolicy Unmarshal fs path dir opts = Ok p ->
  Evaluate req p used = Some d -> d_Allow d = true -> q_Method req = MethodSignEvent ->
  is_modern (q_Now req) ->
  (forall e, Some e ∈ q_Attestations req -> (0 <= ev_CreatedAt e < 2 ^ 64)%Z) ->
  (forall r, r ∈ p_Rules p -> is_int64 (Policy_ruleSkew p r)) ->
  forall id, id ∈ d_Consumed d ->
  exists r e, r ∈ p_Rules p /\ d_Rule d = r_Name r /\
    Some e ∈ q_Attestations req /\ ev_ID e = id /\ Verify e = true /\
    EqualFold (ev_PubKey e) (q_SignerPub req) = false /\
    (forall f, used = Some f -> f id = false) /\
    (q_Now req - MaxAttestationAge <= real_time (ev_CreatedAt e)
       <= q_Now req + Policy_ruleSkew p r)%Z.
Proof.
  intros Hwf%LoadPolicy_policy_wf H Hal Hm Hnow Hcreated Hskew id Hid.
  destruct (consumed_elem opts req p used d id Hwf H Hal Hid)
    as (r & specs & spec & e & ev & Hin & Hrule & _ & _ & Hspec & Hine & <- & Hok & _).
  pose proof (attestation_ok_window opts e spec _ Hok Hspec (Hcreated _ Hine) Hnow (Hskew _ Hin))
    as Hwin.
  simpl in Hwin. destruct Hok, Hspec. exists r, e. split_and!; try done; lia.
Qed.

(** An allowed [nipoa_attest] was allowed by a rule written for
    attestations, never by a catch-all: the subordinate is a listed key (or
    the rule lists "*"), is well formed and is not the signer; the earliest
    [created_at<] bound of the conditions lies after now and no further than
    the rule's [max_until]; and when the rule lists kinds the conditions name
    at least one kind, each of them listed. *)
Theorem Evaluate_attest_bounded Unmarshal fs path dir opts p req used d :
  LoadPolicy Unmarshal fs path dir opts = Ok p ->
  Evaluate req p used = Some d -> d_Allow d = true -> q_Method req = MethodAttest ->
  exists r s a conds max_until until,
    r ∈ p_Rules p /\ d_Rule d = r_Name r /\ r_Allow r = Some s /\ s_Attest s = Some a /\
    (as_any a = true \/ q_Subordinate req ∈ as_subs a) /\
    EqualFold (q_Subordinate req) (q_SignerPub req) = false /\
    Validate32Key (q_Subordinate req) = true /\ ToLower (q_Subordinate req) = q_Subordinate req /\
    ParseConditions (q_Conditions req) = Some conds /\ as_MaxUntil a = Some max_until /\
    until ∈ c_CreatedAtLT conds /\ Forall (fun v => until <= v)%Z (c_CreatedAtLT conds) /\
    (Time_Unix (q_Now req) < wrap64 until <= Time_Unix (Time_Add (q_Now req) max_until))%Z /\
    (as_Kinds a <> [] -> c_Kinds conds <> [] /\ Forall (fun k => k ∈ as_Kinds a) (c_Kinds conds)).
Proof.
  intros Hwf%LoadPolicy_policy_wf H Hal Hm.
  destruct (allowed_rule opts req p used d Hwf H Hal)
    as (conds & r & s & Hpre & Hin & Hrwf & _ & Happ & Hd & Hfin).
  destruct (found_attest opts r req Hrwf Hd Happ Hm) as (s' & a & Hs' & Ha & [mu Hmu] & Hmatch).
  destruct (finish_allow _ _ _ _ _ _ Hfin Hal) as (s2 & _ & _ & Hrule & _ & _ & Hcases).
  destruct Hcases as [(_ & Hs2 & _ & _ & a' & Ha' & Hcheck)|(Hm' & _)]; [|done].
  assert (s2 = s') as -> by congruence. assert (a' = a) as -> by congruence.
  apply precheck_attest in Hpre; [|done]. unfold parseAttestRequest in Hpre. unbind Hpre.
  split_match Hpre. injection Hpre as ->. propify.
  unfold AttestSelector_matches in Hmatch. propify.
  destruct (AttestSelector_check_None a conds (q_Now req) mu Hmu Hcheck)
    as (until & ? & ? & ? & ?).
  exists r, s', a, conds, mu, until. split_and!; try done; try lia.
  destruct Hmatch as [?|?]; propify; [by left | by right].
Qed.

(** An allowed encryption or decryption is one the rule's [methods] list
    (unless catch-all rules are enabled); a rule with [counterparts] allows
    only those; [nip44_message_keys], which exposes a conversation's keys, is
    always limited to listed counterparts when catch-all rules are disabled;
    and under a rule with [unwrap_from] the decrypted text is released only if
    it is a seal that verifies by a listed sender. *)
Theorem Evaluate_crypto_sound Unmarshal fs path dir opts p req used d :
  LoadPolicy Unmarshal fs path dir opts = Ok p -> AllowCatchAll opts = false ->
  Evaluate req p used = Some d -> d_Allow d = true ->
  q_Method req <> MethodSignEvent -> q_Method req <> MethodAttest ->
  exists r s, r ∈ p_Rules p /\ d_Rule d = r_Name r /\ r_Allow r = Some s /\
    q_Method req ∈ s_Methods s /\
    (forall cs, s_counterparts s = Some cs -> ToLower (q_Counterpart req) ∈ cs) /\
    (q_Method req = MethodNIP44MessageKeys ->
       exists cs, s_counterparts s = Some cs /\ ToLower (q_Counterpart req) ∈ cs) /\
    (s_UnwrapFrom s <> [] -> q_Method req = MethodNIP44Decrypt /\
       forall text, CheckUnwrapResult d text = None ->
       exists senders seal, s_unwrapFrom s = Some senders /\ UnmarshalEvent text = Some seal /\
         ev_Kind seal = KindSeal /\ VerifyWithoutPow seal = true /\
         ToLower (ev_PubKey seal) ∈ senders).
Proof.
  intros Hwf%LoadPolicy_policy_wf Hca H Hal Hns Hna.
  destruct (allowed_rule opts req p used d Hwf H Hal)
    as (conds & r & s & _ & Hin & Hrwf & Hs & Happ & Hd & Hfin).
  destruct (finish_allow _ _ _ _ _ _ Hfin Hal) as (s2 & Hs2 & _ & Hrule & _ & _ & Hcases).
  destruct Hcases as [(Hm' & _)|(_ & Huf & _)]; [done|].
  assert (s2 = s) as -> by congruence. destruct Hrwf. rewrite Hd in rwf_one. simpl in rwf_one.
  destruct (r_Allow r) as [s'|] eqn:Ea; [|done].
  assert (s' = s) as -> by (unfold Rule_selector in Hs; rewrite Ea in Hs; congruence).
  destruct rwf_selector as (s' & Hs' & []). assert (s' = s) as -> by congruence.
  destruct (applies_crypto r s req Hs Hns Hna Happ) as (Hms & Hatt & Hcp).
  assert (Hmeth : q_Method req ∈ s_Methods s).
  { destruct Hms as [Hms|?]; [|done]. specialize (swf_any eq_refl Hms). congruence. }
  exists r, s. split_and!; try done.
  - intros Hmk. rewrite Hmk in Hmeth. destruct (swf_message_keys eq_refl Hmeth) as [cs Hcs]. eauto.
  - intros Hne. destruct (swf_unwrap Hatt Hne) as (Hm1 & senders & Hsenders).
    rewrite Hm1 in Hmeth. apply list_elem_of_singleton in Hmeth. split; [done|].
    intros text Htext. rewrite Hsenders in Huf. eapply CheckUnwrapResult_None in Htext; [|done].
    naive_solver.
Qed.

(** ** Where the code does less than its documentation *)

(** One event can satisfy several requirements: listed once per
    requirement, a single attestation that satisfies each of them meets them
    all, although the documentation asks for distinct events. *)
Theorem assignAttestations_duplicates specs c e :
  Forall (fun spec => attestation_ok e spec c) specs ->
  exists picked,
    assignAttestations specs (replicate (length specs) (Some e)) c = Some (Ok picked).
Proof.
  intros Hall. apply (assignAttestations_complete _ _ _ (seq 0 (length specs))). split.
  - apply NoDup_seq.
  - apply Forall2_same_length_lookup. rewrite length_seq. split; [done|].
    intros i spec j Hi Hj. apply lookup_seq in Hj as [-> Hlt]. exists e. split.
    + rewrite lookup_replicate_2 by lia. done.
    + exact (Forall_lookup_1 _ _ _ _ Hall Hi).
Qed.

(** [Evaluate] panics on a nil attestation that follows one the rule's
    first requirement refuses, if nothing satisfies that requirement: the loop
    that picks the reason reads [Kind] through the nil pointer, which
    [checkAttestation] itself reports as missing. *)
Theorem Evaluate_nil_panics req ev p r spec specs used before att atts after :
  precheck req p = Ok before -> q_Method req = MethodSignEvent -> q_Event req = Some ev ->
  find_rule (p_Rules p) req = Some (Some r) -> r_Deny r = None ->
  matchDenyPatterns r req = Some None -> r_Require r = Some (spec :: specs) ->
  q_Attestations req = (att :: atts ++ None :: after)%list -> Forall is_Some (att :: atts) ->
  Forall (fun a => forall e, a = Some e -> ~ attestation_ok e spec (attest_context req ev p r used))
    (q_Attestations req) ->
  Evaluate req p used = None.
Proof.
  intros Hpre Hm Hev Hfind Hd Hdm Hreq Hatts Hsome Hbad. unfold Evaluate.
  rewrite Hpre, Hfind. simpl. rewrite Hd. simpl. unfold finish. rewrite Hdm. simpl. rewrite Hm. simpl.
  destruct (Rule_selector r) as [s|]; [|done]. simpl. rewrite Hev. simpl. unfold evaluate_event.
  rewrite Hreq. simpl. fold (attest_context req ev p r used). set (c := attest_context req ev p r used) in *.
  enough (Hnone : assignAttestations (spec :: specs) (q_Attestations req) c = None) by by rewrite Hnone.
  unfold assignAttestations. destruct (solve_rows _ _ _) as [ps|] eqn:Es.
  - apply solve_rows_sound, assignment_met in Es as [_ Hall].
    apply Forall2_cons_inv_l in Hall as (i & ? & (e & He & Hok) & _).
    eapply Forall_lookup_1 in Hbad; [|exact He]. by destruct (Hbad e).
  - simpl. rewrite Hatts in *. rewrite row_reason_nil by done. done.
Qed.
End Decisions.

(** ** The theorems at concrete inputs *)

Lemma ex_path_load :
  LoadPolicy (NL := reference_nmilat) ex_unmarshal ex_fs "policy.yaml" "" ex_opts = Ok ex_loaded.
Proof. vm_compute. reflexivity. Qed.

Lemma Evaluate_allow_sound_witness : exists before r after,
  p_Rules ex_policy = (before ++ r :: after)%list /\ r_Name r = "release".
Proof.
  destruct (Evaluate_allow_sound (NL := reference_nmilat)
    (ex_sign 30063 "" [Some (ex_review alice)]) ex_policy nothing_used
    (mkDecision true "release" None ["review-1"] (Some (mkRate 60 Minute)) None))
    as (before & r & after & s & Heq & _ & _ & _ & _ & _ & Hn & _);
    [vm_compute; reflexivity | reflexivity |].
  exists before, r, after. split; [exact Heq | symmetry; exact Hn].
Defined.

Lemma Evaluate_deny_first_witness :
  Evaluate (NL := reference_nmilat) (ex_sign 30065 "" []) ex_policy nothing_used
    = Some (deny "" RNoRule).
Proof.
  apply (Evaluate_deny_first (NL := reference_nmilat) (ex_sign 30065 "" []) ex_policy nothing_used
           (mkConditions [] [])); [vm_compute; reflexivity|].
  apply find_rule_None. vm_compute. reflexivity.
Defined.

Lemma Evaluate_no_panic_witness : exists d,
  Evaluate (NL := reference_nmilat) (ex_sign 30064 "" [Some (ex_review carol); Some (ex_review bob)])
    ex_loaded nothing_used = Some d.
Proof.
  apply (Evaluate_no_panic (NL := reference_nmilat) ex_unmarshal ex_fs "policy.yaml" "" ex_opts).
  - exact ex_path_load.
  - repeat (constructor; [eexists; reflexivity|]). constructor.
Defined.

Lemma LoadPolicy_wf_witness : policy_wf ex_opts ex_loaded.
Proof.
  apply (LoadPolicy_wf (NL := reference_nmilat) ex_unmarshal ex_fs "policy.yaml" "").
  exact ex_path_load.
Defined.

Lemma ex_skews r : r ∈ p_Rules ex_loaded -> is_int64 (Policy_ruleSkew ex_loaded r).
Proof.
  assert (H : forallb (fun r => is_int64b (Policy_ruleSkew ex_loaded r)) (p_Rules ex_loaded) = true)
    by (vm_compute; reflexivity).
  intros Hr. by apply is_int64b_true, (proj1 (forallb_elem _ _) H).
Qed.

Lemma ex_now_modern : is_modern ex_now.
Proof. split; vm_compute; discriminate. Qed.

Lemma ex_release_decision :
  Evaluate (NL := reference_nmilat) (ex_sign 30063 "" [Some (ex_review alice)]) ex_loaded
    nothing_used = Some (mkDecision true "release" None ["review-1"] (Some (mkRate 60 Minute)) None).
Proof. vm_compute. reflexivity. Qed.

Lemma Evaluate_consumed_window_witness : exists r e,
  r ∈ p_Rules ex_loaded /\ ev_ID e = "review-1" /\
  (ex_now - MaxAttestationAge <= real_time (ev_CreatedAt e))%Z.
Proof.
  destruct (Evaluate_consumed_window (NL := reference_nmilat) ex_unmarshal ex_fs "policy.yaml" ""
    ex_opts ex_loaded (ex_sign 30063 "" [Some (ex_review alice)]) nothing_used
    (mkDecision true "release" None ["review-1"] (Some (mkRate 60 Minute)) None)
    ex_path_load ex_release_decision eq_refl eq_refl ex_now_modern)
    with (id := "review-1") as (r & e & Hr & _ & _ & Hid & _ & _ & _ & Hw & _).
  - intros e [= ->]%list_elem_of_singleton. split; vm_compute; congruence.
  - exact ex_skews.
  - left.
  - exists r, e. split_and!; assumption.
Defined.

Lemma Evaluate_attest_bounded_witness : exists r,
  r ∈ p_Rules ex_loaded /\ r_Name r = "agents".
Proof.
  destruct (Evaluate_attest_bounded (NL := reference_nmilat) ex_unmarshal ex_fs "policy.yaml" ""
    ex_opts ex_loaded (ex_attest carol "created_at<1760086400") nothing_used
    (mkDecision true "agents" None [] None None) ex_path_load)
    as (r & s & a & conds & mu & until & Hr & Hn & _);
    [vm_compute; reflexivity | reflexivity | reflexivity|].
  exists r. split; [exact Hr | symmetry; exact Hn].
Defined.

Lemma Evaluate_crypto_sound_witness : exists r,
  r ∈ p_Rules ex_loaded /\ r_Name r = "inbox".
Proof.
  destruct (Evaluate_crypto_sound (NL := reference_nmilat) ex_unmarshal ex_fs "policy.yaml" ""
    ex_opts ex_loaded (ex_crypto MethodNIP44Decrypt alice) nothing_used
    (mkDecision true "inbox" None [] (Some (mkRate 1 Minute)) (Some {[alice]})) ex_path_load)
    as (r & s & Hr & Hn & _);
    [reflexivity | vm_compute; reflexivity | reflexivity | discriminate | discriminate |].
  exists r. split; [exact Hr | symmetry; exact Hn].
Defined.

(** One review, listed twice, releases an event that needs two. *)
Lemma assignAttestations_duplicates_witness : exists picked,
  assignAttestations (NL := reference_nmilat) ex_two_specs
    [Some (ex_review alice); Some (ex_review alice)] ex_two_context = Some (Ok picked).
Proof.
  apply (assignAttestations_duplicates (NL := reference_nmilat) ex_two_specs ex_two_context
           (ex_review alice)).
  assert (H : Forall (fun spec => checkAttestation (NL := reference_nmilat)
                (Some (ex_review alice)) spec ex_two_context = None) ex_two_specs)
    by (repeat constructor; vm_compute; reflexivity).
  eapply Forall_impl; [exact H|]. intros spec (e & He & Hok)%checkAttestation_None.
  injection He as <-. exact Hok.
Defined.

Lemma Evaluate_nil_panics_witness :
  Evaluate (NL := reference_nmilat) (ex_sign 30063 "" [Some (ex_review carol); None]) ex_policy
    nothing_used = None.
Proof.
  eapply (Evaluate_nil_panics (NL := reference_nmilat)
    (ex_sign 30063 "" [Some (ex_review carol); None]) (ex_target 30063 "") ex_policy
    ex_release (ex_checked_spec "review") [] nothing_used (mkConditions [] [])
    (Some (ex_review carol)) [] []);
    [vm_compute; reflexivity .. | repeat (constructor; [eexists; reflexivity|]); constructor |].
  constructor; [intros e [= <-] Hok | constructor; [intros e [=] | constructor]].
  assert (H : checkAttestation (NL := reference_nmilat) (Some (ex_review carol))
    (ex_checked_spec "review") (attest_context (ex_sign 30063 "" [Some (ex_review carol); None])
       (ex_target 30063 "") ex_policy ex_release nothing_used) = None)
    by (apply checkAttestation_None; eauto).
  vm_compute in H. discriminate H.
Defined.
