(* ===== verification/SignerServer.v ===== *)
(** * The signer's server

    Models [src/signer/server.go] and [src/signer/watch.go] with the signing
    half of [src/signer/nipoa.go]: the server's state, loading and reloading
    the policy, authorizing a request, checking the result of an unwrap,
    answering [nipoa_attest], the decision log, and the poll of the policy's
    files.  [nipLS] (the socket server that calls these, under its sign lock
    for [sign_event]) is outside the repository: [SignerTrace.v] lets it call
    them in any order.  A request's identity is its pointer, a number. *)
From S2P Require Import Prelude GoTime GoFloat GoStrings Nostr SignerPolicy.
From S2P Require Import SignerAttest SignerEvaluate SignerLimiter SignerUsedSet SignerRefused.
From stdpp Require Import options.
From Stdlib Require Import Ascii QArith.

Local Open Scope string_scope.

(** The keys of [nipLS] and [nipOA], by the private key in hexadecimal. *)
Class Keys := {
  (** [nipLS.NewLocalKey(k)] with its [PubKey()] *)
  NewLocalKey : string -> option string;
  (** [nipOA.NewKeySigner(k)] with its [PubKey()] *)
  NewKeySigner : string -> option string;
  (** [nipOA.Sign(ctx, k, subordinate, conditions)]: the signature, which is
      the fourth field of the tag it returns *)
  nipOA_Sign : string -> string -> string -> option string;
  (** [nipLS.Decision.Allowed], by whether [Err] is nil *)
  dec_Allowed : bool -> bool;
}.

Record Config := mkConfig {
  cfg_PrivKeyHex : string;
  cfg_PolicyPath : string;
  cfg_PolicyDir : string;
  cfg_AllowCatchAll : bool;
  cfg_StateDir : string;
  cfg_AllowUIDs : list Z;
  cfg_AllowGIDs : list Z;
  cfg_PeerCredSupported : bool;
  cfg_Denials : bool;
  cfg_Version : string;
}.

(** [nipLS.Request] *)
Record lsRequest := mkLsRequest {
  lq_ptr : nat;
  lq_ID : string;
  lq_Method : string;
  lq_Event : option Event;
  lq_Attestations : list (option Event);
  lq_Counterpart : string;
  lq_Plaintext : string;
  lq_Ciphertext : string;
  lq_Params : list string;
  lq_Rule : string;
}.

Definition set_lq_Rule (rule : string) (q : lsRequest) : lsRequest :=
  mkLsRequest (lq_ptr q) (lq_ID q) (lq_Method q) (lq_Event q) (lq_Attestations q)
    (lq_Counterpart q) (lq_Plaintext q) (lq_Ciphertext q) (lq_Params q) rule.

(** Why the server refuses a request; [rule] is [""] when the reason is not
    prefixed with one. *)
Inductive DenyReason :=
| DPolicy (r : option Reason) | DRefusedBefore | DRateLimit | DNotRecorded | DUnwrap (r : UnwrapReason).
Inductive ServerError :=
| SDeny (rule : string) (r : DenyReason)
| SInvalid | SKey | SAttest (r : Reason) | SSign.

Inductive NewError :=
| NKey | NPeerCred | NPolicy (e : PolicyError) | NStateDir (f : OpenFault) | NNotPersistent | NServer.

Record unwrapCheck := mkUnwrapCheck { u_d : Decision_; u_policy : nat; u_key : string }.

(** One line of the decision log. *)
Record LogRecord := mkLogRecord {
  lr_Time : Z;
  lr_ReqID : string;
  lr_Method : string;
  lr_Kind : option Z;
  lr_EventID : string;
  lr_Counterpart : string;
  lr_Subordinate : string;
  lr_Conditions : string;
  lr_Decision : string;
  lr_Rule : string;
  lr_Reason : option ServerError;
  lr_Attestations : list string;
}.

Record Server := mkServer {
  sv_pub : string;
  sv_policy : Policy;
  sv_gen : nat;
  sv_loaded : Z;
  sv_started : Z;
  sv_limiter : Limiter;
  sv_used : UsedSet;
  sv_consumed : gmap nat (list string);
  sv_unwrap : gmap nat unwrapCheck;
  sv_refused : refusedWraps;
  sv_Decisions : list LogRecord;
  sv_Denials : list LogRecord;
}.

Definition set_policy (p : Policy) (loaded : Z) (s : Server) : Server :=
  mkServer (sv_pub s) p (S (sv_gen s)) loaded (sv_started s) (sv_limiter s) (sv_used s)
    (sv_consumed s) (sv_unwrap s) (sv_refused s) (sv_Decisions s) (sv_Denials s).
Definition set_limiter (l : Limiter) (s : Server) : Server :=
  mkServer (sv_pub s) (sv_policy s) (sv_gen s) (sv_loaded s) (sv_started s) l (sv_used s)
    (sv_consumed s) (sv_unwrap s) (sv_refused s) (sv_Decisions s) (sv_Denials s).
Definition set_used (u : UsedSet) (s : Server) : Server :=
  mkServer (sv_pub s) (sv_policy s) (sv_gen s) (sv_loaded s) (sv_started s) (sv_limiter s) u
    (sv_consumed s) (sv_unwrap s) (sv_refused s) (sv_Decisions s) (sv_Denials s).
Definition set_consumed (c : gmap nat (list string)) (s : Server) : Server :=
  mkServer (sv_pub s) (sv_policy s) (sv_gen s) (sv_loaded s) (sv_started s) (sv_limiter s)
    (sv_used s) c (sv_unwrap s) (sv_refused s) (sv_Decisions s) (sv_Denials s).
Definition set_unwrap (u : gmap nat unwrapCheck) (s : Server) : Server :=
  mkServer (sv_pub s) (sv_policy s) (sv_gen s) (sv_loaded s) (sv_started s) (sv_limiter s)
    (sv_used s) (sv_consumed s) u (sv_refused s) (sv_Decisions s) (sv_Denials s).
Definition set_refused (r : refusedWraps) (s : Server) : Server :=
  mkServer (sv_pub s) (sv_policy s) (sv_gen s) (sv_loaded s) (sv_started s) (sv_limiter s)
    (sv_used s) (sv_consumed s) (sv_unwrap s) r (sv_Decisions s) (sv_Denials s).
Definition add_logs (ds ns : list LogRecord) (s : Server) : Server :=
  mkServer (sv_pub s) (sv_policy s) (sv_gen s) (sv_loaded s) (sv_started s) (sv_limiter s)
    (sv_used s) (sv_consumed s) (sv_unwrap s) (sv_refused s) (sv_Decisions s ++ ds)
    (sv_Denials s ++ ns).

(** [clip] *)
Definition clip (v : string) : string :=
  if (200 <? String.length v)%nat then String.substring 0 200 v ++ "…" else v.

(** [hashFiles] *)
Definition hashFiles `{NL : Nmilat} (fs : FileSystem) (paths : list string) : string :=
  Join (map (fun p => match fs p with
                      | None => p ++ "=missing"
                      | Some data => p ++ "=" ++ sha256_hex data
                      end) paths) (String "010" "").

(** [AttestationConditions]: the clauses in a fixed order. *)
Definition AttestationConditions (kinds : list Z) (until : Z) : string :=
  let parts := map (fun k => "kind=" ++ Itoa k) kinds in
  let last := if Time_IsZero until then [] else ["created_at<" ++ Itoa (Time_Unix until)] in
  Join (parts ++ last)%list "&".

(** [AuthTag]; [nipOA.TagName] is "auth". *)
Definition AuthTag (attester conditions sig : string) : list string :=
  ["auth"; attester; conditions; sig].

Section Server.
Context `{NL : Nmilat} `{K : Keys}.
Variable UnmarshalPolicy : string -> option Policy.
Variable cfg : Config.

(** [SignAttestation]: it checks its inputs as the policy does first. *)
Definition SignAttestation (privKeyHex subordinate conditions : string)
    : result ServerError string :=
  match NewKeySigner privKeyHex with
  | None => Err SKey
  | Some pub =>
      wrap_err SAttest
        (parseAttestRequest (mkRequest "" None "" "" [] subordinate conditions 0 0 pub)) ;;
      match nipOA_Sign privKeyHex subordinate conditions with
      | Some sig => Ok sig
      | None => Err SSign
      end
  end.

Definition load_options (pub : string) : LoadOptions := mkLoadOptions (cfg_AllowCatchAll cfg) pub.

Definition load (fs : FileSystem) (pub : string) : result PolicyError Policy :=
  LoadPolicy UnmarshalPolicy fs (cfg_PolicyPath cfg) (cfg_PolicyDir cfg) (load_options pub).

(** [s.checkPolicy(p)] passes. *)
Definition checkPolicy (u : UsedSet) (p : Policy) : bool :=
  negb (UsesAttestations p && negb (Persistent u)).

(** [New]; [newServer] is whether [nipLS.NewServer] succeeds. *)
Definition New (fs : FileSystem) (newServer : bool) (fault : option OpenFault) (d : disk) (now : Z)
    : result NewError Server * disk :=
  match NewLocalKey (cfg_PrivKeyHex cfg) with
  | None => (Err NKey, d)
  | Some pub =>
      if (negb (null (cfg_AllowUIDs cfg)) || negb (null (cfg_AllowGIDs cfg)))
         && negb (cfg_PeerCredSupported cfg)
      then (Err NPeerCred, d)
      else match load fs pub with
      | Err e => (Err (NPolicy e), d)
      | Ok p =>
          let '(used, d) :=
            if is_empty (cfg_StateDir cfg) then (Ok NewMemoryUsedSet, d)
            else OpenUsedSet fault d now in
          match used with
          | Err f => (Err (NStateDir f), d)
          | Ok u =>
              if negb (checkPolicy u p) then (Err NNotPersistent, d)
              else if negb newServer then (Err NServer, d)
              else (Ok (mkServer pub p 0 (Time_Unix now) now NewLimiter u ∅ ∅ no_refused [] []), d)
          end
      end
  end.

(** [Reload]: a new pointer, hence a new generation, on success. *)
Definition Reload (fs : FileSystem) (now : Z) (s : Server) : result NewError unit * Server :=
  match load fs (sv_pub s) with
  | Err e => (Err (NPolicy e), s)
  | Ok p =>
      if checkPolicy (sv_used s) p then (Ok (), set_policy p (Time_Unix now) s)
      else (Err NNotPersistent, s)
  end.

(** One tick of [Watch]; [failed] is the content whose reload failed. *)
Definition Watch_tick (fs : FileSystem) (now : Z) (s : Server) (failed : string)
    : Server * string :=
  let cur := hashFiles fs (p_Files (sv_policy s)) in
  if String.eqb cur (Policy_snapshot (sv_policy s)) || String.eqb cur failed then (s, failed)
  else match Reload fs now s with
       | (Err _, s) => (s, cur)
       | (Ok _, s) => (s, "")
       end.

(** ** Authorizing *)

Definition policy_request (q : lsRequest) (s : Server) (now : Z) : Request :=
  mkRequest (lq_Method q) (lq_Event q) (lq_Counterpart q) (lq_Plaintext q) (lq_Attestations q)
    "" "" now (sv_started s) (sv_pub s).

Definition authorize_decision (q : lsRequest) (s : Server) (now : Z) : option Decision_ :=
  Evaluate (policy_request q s now) (sv_policy s) (Some (Has (sv_used s))).

(** The inner loop: the first attestation with the id; [None] is the nil
    dereference [a.ID]. *)
Fixpoint entry_for (aid : string) (atts : list (option Event)) : option (list UsedEntry) :=
  match atts with
  | [] => Some []
  | None :: _ => None
  | Some a :: atts =>
      if String.eqb (ev_ID a) aid then Some [mkUsedEntry aid (wrap64 (ev_CreatedAt a))]
      else entry_for aid atts
  end.

Definition entries_for (ids : list string) (atts : list (option Event))
    : option (list UsedEntry) :=
  es ← mapM (fun aid => entry_for aid atts) ids; Some (List.concat es).

(** The limit of a decision, when it has one. *)
Definition take_rate (d : Decision_) (now : Z) (l : Limiter) : bool * Limiter :=
  match d_Rate d with Some r => Allow l (d_Rule d) r now | None => (true, l) end.
Definition rate_ready (d : Decision_) (now : Z) (l : Limiter) : bool * Limiter :=
  match d_Rate d with Some r => Ready l (d_Rule d) r now | None => (true, l) end.

(** [s.authorize]: the outcome, the server, the disk and the request with its
    rule; [None] is a panic. *)
Definition authorize (fault : option AddFault) (now : Z) (s : Server) (dk : disk) (q : lsRequest)
    : option (result ServerError unit * Server * disk * lsRequest) :=
  d ← authorize_decision q s now;
  let q := set_lq_Rule (d_Rule d) q in
  if negb (d_Allow d) then
    Some (Err (SDeny (d_Rule d) (DPolicy (d_Reason d))), s, dk, q)
  else if is_some (d_UnwrapFrom d) then
    let key := wrapKey (lq_Counterpart q) (lq_Ciphertext q) in
    if refused_has (sv_refused s) (sv_gen s) key
    then Some (Err (SDeny (d_Rule d) DRefusedBefore), s, dk, q)
    else
      let '(ready, l) := rate_ready d now (sv_limiter s) in
      let s := set_limiter l s in
      if negb ready then Some (Err (SDeny (d_Rule d) DRateLimit), s, dk, q)
      else Some (Ok (), set_unwrap (<[lq_ptr q := mkUnwrapCheck d (sv_gen s) key]> (sv_unwrap s)) s,
                 dk, q)
  else
    let '(ok, l) := take_rate d now (sv_limiter s) in
    let s := set_limiter l s in
    if negb ok then Some (Err (SDeny "" DRateLimit), s, dk, q)
    else
      es ← entries_for (d_Consumed d) (lq_Attestations q);
      match Add fault (sv_used s) dk es with
      | (Err _, dk) => Some (Err (SDeny "" DNotRecorded), s, dk, q)
      | (Ok u, dk) =>
          let s := set_used u s in
          let s := if null (d_Consumed d) then s
                   else set_consumed (<[lq_ptr q := d_Consumed d]> (sv_consumed s)) s in
          Some (Ok (), s, dk, q)
      end.

(** [AuthorizeResult] *)
Definition AuthorizeResult (now : Z) (s : Server) (q : lsRequest) (text : string)
    : result ServerError unit * Server :=
  match sv_unwrap s !! lq_ptr q with
  | None => (Ok (), s)
  | Some u =>
      let s := set_unwrap (delete (lq_ptr q) (sv_unwrap s)) s in
      match CheckUnwrapResult (u_d u) text with
      | Some reason =>
          (Err (SDeny (d_Rule (u_d u)) (DUnwrap reason)),
           set_refused (refused_add (sv_refused s) (u_policy u) (u_key u)) s)
      | None =>
          let '(ok, l) := take_rate (u_d u) now (sv_limiter s) in
          let s := set_limiter l s in
          (if ok then Ok () else Err (SDeny (d_Rule (u_d u)) DRateLimit), s)
      end
  end.

(** [record]: [err] is the decision's error. *)
Definition record (now : Z) (q : lsRequest) (err : option ServerError) (s : Server) : Server :=
  let allowed := dec_Allowed (negb (is_some err)) in
  let s := match sv_unwrap s !! lq_ptr q with
           | Some u =>
               let s := set_unwrap (delete (lq_ptr q) (sv_unwrap s)) s in
               if negb allowed
               then set_refused (refused_add (sv_refused s) (u_policy u) (u_key u)) s else s
           | None => s
           end in
  let params := if String.eqb (lq_Method q) MethodAttest
                then match lq_Params q with [a; b] => (clip a, clip b) | _ => ("", "") end
                else ("", "") in
  let used := match sv_consumed s !! lq_ptr q with
              | Some ids => if allowed then ids else [] | None => [] end in
  let r := mkLogRecord now (lq_ID q)
             (if is_empty (lq_Method q) then "connect" else lq_Method q)
             (option_map ev_Kind (lq_Event q))
             (match lq_Event q with Some e => ev_ID e | None => "" end)
             (lq_Counterpart q) params.1 params.2
             (if allowed then "allow" else "deny") (lq_Rule q)
             (if allowed then None else err) used in
  add_logs [r] (if negb allowed && cfg_Denials cfg then [r] else [])
    (set_consumed (delete (lq_ptr q) (sv_consumed s)) s).

(** The closure of [attest] up to its signature. *)
Definition attest_body (now : Z) (s : Server) (q : lsRequest)
    : option (result ServerError string * Server * lsRequest) :=
  match lq_Params q with
  | [sub; conds] =>
      d ← Evaluate (mkRequest MethodAttest None "" "" [] sub conds now 0 (sv_pub s))
            (sv_policy s) (Some (Has (sv_used s)));
      let q := set_lq_Rule (d_Rule d) q in
      if negb (d_Allow d) then
        Some (Err (SDeny (d_Rule d) (DPolicy (d_Reason d))), s, q)
      else
        let '(ok, l) := take_rate d now (sv_limiter s) in
        let s := set_limiter l s in
        if negb ok then Some (Err (SDeny "" DRateLimit), s, q)
        else Some (SignAttestation (cfg_PrivKeyHex cfg) sub conds, s, q)
  | _ => Some (Err SInvalid, s, q)
  end.

(** [attest] *)
Definition attest (now : Z) (s : Server) (q : lsRequest)
    : option (result ServerError string * Server) :=
  '(res, s, q) ← attest_body now s q;
  Some (res, record now q (match res with Ok _ => None | Err e => Some e end) s).

(** [signer_status]; [Seconds] of the uptime is a [float64]. *)
Record Status := mkStatus {
  st_Version : string; st_PubKey : string; st_PolicySHA256 : string;
  st_Rules : Z; st_LoadedAt : Z; st_UptimeS : Z;
}.

Definition Duration_Seconds (d : Z) : float64 :=
  float64_add (float64_of (Z.quot d Second))
    (float64_div (float64_of (Z.rem d Second)) (float64_of Second)).

Definition status (now : Z) (s : Server) : Status :=
  mkStatus (cfg_Version cfg) (sv_pub s) (p_SHA256 (sv_policy s))
    (Z.of_nat (length (p_Rules (sv_policy s)))) (sv_loaded s)
    (int64_of_float (Duration_Seconds (Time_Sub now (sv_started s)))).
End Server.

(** ** Reloading and the file poll *)

Section ReloadLemmas.
Context `{NL : Nmilat} `{K : Keys}.

Lemma Reload_Err Unmarshal cfg fs now s e s' :
  Reload Unmarshal cfg fs now s = (Err e, s') -> s' = s.
Proof. unfold Reload. intros H. repeat case_match; by simplify_eq. Qed.

(** Each file a policy read is listed with the digest of its content. *)
Definition digests_ok (fs : FileSystem) (files : list (string * string)) : Prop :=
  Forall (fun f => exists data, fs f.1 = Some data /\ f.2 = sha256_hex data) files.

Lemma validateAttestation_sum fs dir opts a a' :
  validateAttestation fs dir opts a = Ok a' ->
  a_AuthorsFile a' = a_AuthorsFile a /\
  (a_AuthorsFile a <> "" -> exists data,
     fs (resolvePath dir (a_AuthorsFile a)) = Some data /\ a_authorsSum a' = sha256_hex data).
Proof.
  unfold validateAttestation. intros H. unbind H. injection H as <-. simpl. split; [done|].
  intros Hne. rewrite (proj2 (is_empty_false _) Hne) in B5. unfold readAuthorsFile in B5.
  destruct (fs _) as [data|]; [|done]. unbind B5. injection B5 as _ <-. eauto.
Qed.

Lemma validateAttestations_digests fs dir opts i seen atts atts' files :
  validateAttestations fs dir opts i seen atts = Ok (atts', files) -> digests_ok fs files.
Proof.
  revert i seen atts' files. induction atts as [|a atts IH]; simpl; intros i seen atts' files H.
  - injection H as <- <-. constructor.
  - unbind H. injection H as <- <-. apply wrap_err_Ok, validateAttestation_sum in B as [Hf Hs].
    apply IH in B1. destruct (is_empty (a_AuthorsFile _)) eqn:E; [done|].
    apply is_empty_false in E. rewrite Hf in *. constructor; [simpl; eauto | done].
Qed.

Lemma validateRules_digests fs dir opts i names rules rules' files :
  validateRules fs dir opts i names rules = Ok (rules', files) -> digests_ok fs files.
Proof.
  revert i names rules' files. induction rules as [|r rules IH]; simpl; intros i names rules' files H.
  - injection H as <- <-. constructor.
  - unbind H. injection H as <- <-. apply Forall_app. split; [|by eapply IH].
    apply wrap_err_Ok in B. unfold validateRule in B. unbind B.
    destruct (Rule_selector r) as [s|]; [|done]. unbind B. injection B as _ <-.
    match goal with Hq : match r_Require r with _ => _ end = Ok _ |- _ => rename Hq into Hreq end.
    destruct (r_Require r) as [atts|]; [|injection Hreq as _ <-; constructor].
    unbind Hreq. injection Hreq as _ <-. by eapply validateAttestations_digests.
Qed.

(** The snapshot of a policy just loaded is the digest of its files. *)
Lemma load_snapshot Unmarshal fs path dir opts p :
  LoadPolicy Unmarshal fs path dir opts = Ok p -> hashFiles fs (p_Files p) = Policy_snapshot p.
Proof.
  unfold LoadPolicy. destruct (fs path) as [data|] eqn:Ef; [|done]. intros H. unbind H.
  injection H as <-. unfold ParsePolicy in B. destruct (Unmarshal data) as [p0|]; [|done].
  unbind B. injection B as <-. apply validateRules_digests in B2.
  unfold hashFiles, Policy_snapshot. f_equal. cbn [p_Files p_fileSums p_SHA256 map zip_with].
  rewrite Ef. f_equal. induction B2 as [|[f sum] files (data' & Hf & Hs) _ IH]; [done|].
  cbn in *. rewrite Hf, Hs. by f_equal.
Qed.

Lemma reload_snapshot Unmarshal cfg fs now s s' :
  Reload Unmarshal cfg fs now s = (Ok (), s') ->
  hashFiles fs (p_Files (sv_policy s')) = Policy_snapshot (sv_policy s').
Proof.
  unfold Reload. destruct (load _ _ _ _) as [p|] eqn:El; [|done].
  destruct (checkPolicy _ _); [|done]. intros [= <-]. by eapply load_snapshot.
Qed.
End ReloadLemmas.
