(* ===== verification/SignerTrace.v ===== *)
(** * Runs of the signer

    The server, its state directory and the clock as one transition system:
    requests are authorized, results checked, attestations signed, decisions
    recorded and policies reloaded in any order, with any arguments; the
    process stops at any point and starts again; any system call may fail as
    long as a failed write leaves no unterminated text behind.  The set of
    ids consumed so far is ghost state.  The main invariant: no attestation is
    ever consumed twice, restarts and pruning included. *)
From S2P Require Import Prelude GoTime GoFloat GoStrings Nostr SignerPolicy.
From S2P Require Import SignerAttest SignerEvaluate SignerEvaluateFacts SignerLimiter SignerUsedSet SignerRefused.
From S2P Require Import SignerServer.
From stdpp Require Import options.

Local Open Scope string_scope.

Record world := mkWorld {
  w_srv : option Server;
  w_disk : disk;
  w_time : Z;
  w_consumed : gset string;
}.

(** ** What [authorize] does *)

Lemma entry_for_Some aid atts es :
  entry_for aid atts = Some es -> (exists e, Some e ∈ atts /\ ev_ID e = aid) ->
  exists e, Some e ∈ atts /\ ev_ID e = aid /\ es = [mkUsedEntry aid (wrap64 (ev_CreatedAt e))].
Proof.
  induction atts as [|[a|] atts IH]; simpl; intros H (e & He & Hid); [by apply not_elem_of_nil in He| |done].
  destruct (String.eqb (ev_ID a) aid) eqn:E; propify.
  - injection H as <-. exists a. set_solver.
  - destruct IH as (e' & ? & ? & ?); [done| |exists e'; set_solver].
    exists e. apply elem_of_cons in He as [[= ->]|He]; [done|]. done.
Qed.

Lemma entries_for_Some ids atts es :
  entries_for ids atts = Some es ->
  Forall (fun id => exists e, Some e ∈ atts /\ ev_ID e = id) ids ->
  ue_ID <$> es = ids /\
  Forall (fun u => exists e, Some e ∈ atts /\ ev_ID e = ue_ID u /\
                     ue_CreatedAt u = wrap64 (ev_CreatedAt e)) es.
Proof.
  unfold entries_for. intros H. apply bind_Some in H as (ess & Hm & [= <-]).
  apply mapM_Some in Hm. induction Hm as [|id e1 ids ess H1 Hm IH]; intros Hall; simpl; [done|].
  apply Forall_cons in Hall as [He Hall]. destruct (IH Hall) as [IH1 IH2].
  destruct (entry_for_Some _ _ _ H1 He) as (e & Hin & Hid & ->).
  cbn [List.concat app]. rewrite fmap_cons, IH1. split; [done|].
  constructor; [|done]. exists e. done.
Qed.

(** Adding the entries of a request keeps the disk's invariant. *)
Lemma Add_disk (born : string -> Z) fault u d es r d' :
  (forall f, d_main d = Some f -> f_tail f = None) ->
  (forall id a, read_disk d !! id = Some a -> a = wrap64 (born id)) ->
  Forall (fun e => ue_ID e <> "" /\ ue_CreatedAt e = wrap64 (born (ue_ID e))) es ->
  whole_lines fault = true -> Add fault u d es = (r, d') ->
  (forall f, d_main d' = Some f -> f_tail f = None) /\
  (forall id a, read_disk d' !! id = Some a -> a = wrap64 (born id)) /\
  dom (read_disk d) ⊆ dom (read_disk d').
Proof.
  intros Ht Hb Hes Hw H. apply Add_cases in H as ((k & Hk) & _); [|done].
  destruct Hk as [->| ->]; [done|]. unfold read_disk, on_main in *. simpl.
  destruct (d_main d) as [f|] eqn:Ef; simpl; [|done].
  assert (Hk : Forall (fun e => ue_ID e <> "" /\ ue_CreatedAt e = wrap64 (born (ue_ID e))) (take k es))
    by (by apply Forall_take).
  assert (Hne : Forall (fun e => ue_ID e <> "") (take k es)) by (eapply Forall_impl; [done|naive_solver]).
  split_and!.
  - intros f' [= <-]. rewrite write_lines_clean; eauto.
  - rewrite read_write_lines by eauto. clear Hne. revert Hk Hb. generalize (read_file f).
    induction (take k es) as [|e es' IH]; intros m Hk Hb; simpl; [done|].
    apply Forall_cons in Hk as [[_ He] Hk]. apply IH; [done|].
    intros id a [[<- <-]|[_ ?]]%lookup_insert_Some; eauto.
  - rewrite read_write_lines, record_ids_dom by eauto. set_solver.
Qed.
Section Authorize.
Context `{NL : Nmilat}.

(** The ways [authorize] can end. *)
Lemma authorize_cases fault now s dk q r s' d' q' :
  authorize fault now s dk q = Some (r, s', d', q') ->
  exists d, authorize_decision q s now = Some d /\
    sv_pub s' = sv_pub s /\ sv_policy s' = sv_policy s /\ sv_refused s' = sv_refused s /\
    ((d' = dk /\ sv_used s' = sv_used s /\
       (is_ok r = true -> d_Allow d = true /\ is_Some (d_UnwrapFrom d))) \/
     (d_Allow d = true /\ exists es ra,
        entries_for (d_Consumed d) (lq_Attestations q) = Some es /\
        Add fault (sv_used s) dk es = (ra, d') /\
        match ra with
        | Ok u => sv_used s' = u /\ is_ok r = true
        | Err _ => sv_used s' = sv_used s /\ is_ok r = false
        end)).
Proof.
  unfold authorize. intros H. destruct (authorize_decision q s now) as [d|]; [|done].
  exists d. split; [done|]. cbn [mbind option_bind] in H. destruct (d_Allow d); cbn [negb] in H.
  2: { simplify_eq. split_and!; try done. by left. }
  destruct (d_UnwrapFrom d) eqn:Eu; cbn [is_some] in H; cbv zeta in H.
  - destruct (refused_has _ _ _); [simplify_eq; split_and!; try done; left; by eauto|].
    destruct (rate_ready _ _ _) as [[] l]; cbn [negb] in H; simplify_eq;
      split_and!; try done; left; by eauto.
  - destruct (take_rate _ _ _) as [[] l]; cbn [negb] in H;
      [|simplify_eq; split_and!; try done; left; by eauto].
    cbn in H. destruct (entries_for _ _) as [es|] eqn:Ees; [|done]. cbn in H.
    destruct (Add _ _ _ _) as [[u|f] d2] eqn:Ea; simplify_eq; cbn.
    + destruct (null (d_Consumed d)); cbn; split_and!; try done; right; split; try done;
        exists es, (Ok u); done.
    + split_and!; try done; right; split; try done. exists es, (Err f); done.
Qed.
End Authorize.

Section Start.
Context `{NL : Nmilat} `{K : Keys}.

(** The ways [New] can end. *)
Lemma New_cases Unmarshal cfg fs newServer fault d now r d' :
  New Unmarshal cfg fs newServer fault d now = (r, d') ->
  (d' = d \/ exists ru, OpenUsedSet fault d now = (ru, d')) /\
  forall s, r = Ok s ->
    policy_wf (load_options cfg (sv_pub s)) (sv_policy s) /\
    (UsesAttestations (sv_policy s) = true -> us_open (sv_used s) = true) /\
    refused_ok (sv_refused s) /\
    (sv_used s = NewMemoryUsedSet \/
     us_ids (sv_used s) = prune now (read_disk d) /\
     exists f, d_main d' = Some f /\ f_tail f = None /\ read_file f = us_ids (sv_used s)).
Proof.
  unfold New. intros H. destruct (NewLocalKey _) as [pub|]; [|by simplify_eq; split; [eauto|]].
  destruct ((_ || _) && _); [by simplify_eq; split; [eauto|]|].
  destruct (load _ _ _ _) as [p|e] eqn:El; [|by simplify_eq; split; [eauto|]].
  apply LoadPolicy_policy_wf in El.
  destruct (if is_empty (cfg_StateDir cfg) then _ else _) as [used d2] eqn:Eu.
  assert (Hd2 : d2 = d \/ exists ru, OpenUsedSet fault d now = (ru, d2))
    by (destruct (is_empty _); simplify_eq; eauto).
  destruct used as [u|f]; [|by simplify_eq; split; [eauto|]].
  destruct (checkPolicy u p) eqn:Ec; simpl in H; [|by simplify_eq; split; [eauto|]].
  destruct newServer; simpl in H; simplify_eq; simpl; [|split; [done | by intros ? [=]]]. split; [done|].
  intros s [= <-]. simpl. split_and!; [done | | apply no_refused_ok |].
  - intros Hua. unfold checkPolicy, Persistent in Ec. rewrite Hua in Ec. by destruct (us_open u).
  - destruct (is_empty _); simplify_eq; [by left|right].
    destruct (OpenUsedSet_spec _ _ _ _ _ Eu) as (_ & _ & _ & Hspec).
    destruct (Hspec u eq_refl) as (? & ? & ?). done.
Qed.
End Start.

(** The fields no result check, log line or attestation touches. *)
Definition same_core (s s' : Server) : Prop :=
  sv_pub s' = sv_pub s /\ sv_policy s' = sv_policy s /\ sv_used s' = sv_used s /\
  (refused_ok (sv_refused s) -> refused_ok (sv_refused s')).

Section Frames.
Context `{NL : Nmilat} `{K : Keys}.

Lemma AuthorizeResult_core now s q text r s' :
  AuthorizeResult now s q text = (r, s') -> same_core s s'.
Proof.
  unfold AuthorizeResult, same_core. intros H. repeat case_match; simplify_eq; simpl; split_and!; try done.
  apply refused_add_ok.
Qed.

Lemma record_core cfg now q err s : same_core s (record cfg now q err s).
Proof.
  unfold record, same_core. destruct (sv_unwrap s !! lq_ptr q); [|done].
  destruct (dec_Allowed _); simpl; split_and!; try done. apply refused_add_ok.
Qed.

Lemma attest_core cfg now s q r s' : attest cfg now s q = Some (r, s') -> same_core s s'.
Proof.
  unfold attest. destruct (attest_body cfg now s q) as [[[res s1] q1]|] eqn:E; [|done].
  cbn. intros [= _ <-].
  assert (H1 : same_core s s1).
  { unfold attest_body in E.
    destruct (lq_Params q) as [|sub [|conds [|? ?]]]; [by simplify_eq..| |by simplify_eq].
    destruct (Evaluate _ _ _) as [d|]; cbn in E; [|done].
    destruct (d_Allow d); cbn in E; [|by simplify_eq].
    destruct (take_rate _ _ _) as [[] l]; cbn in E; by simplify_eq. }
  destruct H1 as (? & ? & ? & ?), (record_core cfg now q1 (match res with Ok _ => None | Err e => Some e end) s1)
    as (? & ? & ? & ?).
  split_and!; try congruence. eauto.
Qed.
End Frames.

Section Trace.
Context `{NL : Nmilat} `{K : Keys} {Laws : NmilatLaws NL}.
Variable cfg : Config.
(** When the event with an id was created. *)
Variable born : string -> Z.

(** Every event of the request carries the [created_at] its id commits to. *)
Definition honest (q : lsRequest) : Prop :=
  forall e, Some e ∈ lq_Attestations q ->
    (0 <= ev_CreatedAt e < 2 ^ 64)%Z /\ ev_CreatedAt e = born (ev_ID e).

(** What an authorized request consumed. *)
Definition consumed_by (q : lsRequest) (s : Server) (now : Z) (ok : bool) : gset string :=
  if ok then match authorize_decision q s now with
             | Some d => list_to_set (d_Consumed d)
             | None => ∅
             end
  else ∅.

(** ** The invariant *)

(** Too old, at an instant already past, to be kept on disk. *)
Definition stale (now : Z) (id : string) : Prop :=
  exists t, is_modern t /\ (t <= now)%Z /\ (wrap64 (born id) < cutoff t)%Z.

Record server_inv (s : Server) (d : disk) (now : Z) (consumed : gset string) : Prop := {
  si_policy : policy_wf (load_options cfg (sv_pub s)) (sv_policy s);
  si_persistent : UsesAttestations (sv_policy s) = true -> us_open (sv_used s) = true;
  si_durable : durable (sv_used s) d;
  si_used id : us_open (sv_used s) = true -> id ∈ consumed ->
    id ∈ dom (us_ids (sv_used s)) \/ stale now id;
  si_refused : refused_ok (sv_refused s);
}.

Record world_inv (w : world) : Prop := {
  wi_tail f : d_main (w_disk w) = Some f -> f_tail f = None;
  wi_born id a : read_disk (w_disk w) !! id = Some a -> a = wrap64 (born id);
  wi_disk id : id ∈ w_consumed w -> id ∈ dom (read_disk (w_disk w)) \/ stale (w_time w) id;
  wi_server s : w_srv w = Some s -> server_inv s (w_disk w) (w_time w) (w_consumed w);
}.

Lemma stale_later t t' id : (t <= t')%Z -> stale t id -> stale t' id.
Proof. intros Hle (t0 & ? & ? & ?). exists t0. split_and!; [done|lia|done]. Qed.

(** An accepted attestation is at most a day old, whatever clock skew the
    policy allows. *)
Lemma attestation_ok_recent opts att spec c :
  attestation_ok att spec c -> attestation_wf opts spec ->
  (0 <= ev_CreatedAt att < 2 ^ 64)%Z -> is_modern (ac_Now c) ->
  (ac_Now c - MaxAttestationAge <= real_time (ev_CreatedAt att))%Z /\
  wrap64 (ev_CreatedAt att) = ev_CreatedAt att.
Proof.
  intros [] [] Hc Hnow. destruct (age_int64 (a_MaxAge spec)) as [? ?]; [lia|].
  apply Time_Sub_le in aok_fresh; [|done..].
  pose proof (unixTime_recent (ev_CreatedAt att) (ac_Now c) (a_MaxAge spec) Hc Hnow
    ltac:(lia) ltac:(lia)) as Hreal.
  rewrite Hreal in aok_fresh. split; [lia|]. apply wrap64_id.
  unfold unixTime, Unix_, real_time in Hreal.
  pose proof (wrap64_range (wrap64 (ev_CreatedAt att) + unixToInternal)) as [_ Hup].
  apply Z.mul_reg_r in Hreal; [|done]. rewrite Hreal in Hup.
  assert (0 < unixToInternal)%Z by done.
  unfold is_int64, min_int64, max_int64, two63 in *. lia.
Qed.

(** What is stale cannot be accepted. *)
Lemma stale_not_recent now id :
  is_modern now -> stale now id -> wrap64 (born id) = born id ->
  (real_time (born id) < now - MaxAttestationAge)%Z.
Proof.
  intros Hnow (t & Ht & Hle & Hlt) Hw. rewrite Hw in Hlt. unfold cutoff in Hlt.
  assert (Hret : wrap64 (- usedRetention) = (- usedRetention)%Z) by done.
  rewrite Hret, Time_Add_exact in Hlt by (by apply is_modern_clock || done).
  unfold Time_Unix in Hlt. unfold real_time.
  assert (Hday : (usedRetention = MaxAttestationAge + Hour)%Z) by done.
  assert (Hh : (0 < Hour)%Z) by done.
  assert (Hrange : is_int64 ((t + - usedRetention) `div` Second - unixToInternal)).
  { unfold is_modern in Ht. unfold is_int64.
    pose proof (Z.div_mod (t + - usedRetention) Second ltac:(done)).
    pose proof (Z.mod_pos_bound (t + - usedRetention) Second ltac:(done)).
    unfold usedRetention, MaxAttestationAge, min_int64, max_int64, two63, unixToInternal, Hour,
      Minute, Second in *. lia. }
  rewrite wrap64_id in Hlt by done.
  pose proof (Z.div_mod (t + - usedRetention) Second ltac:(done)).
  pose proof (Z.mod_pos_bound (t + - usedRetention) Second ltac:(done)).
  unfold Second in *. lia.
Qed.

(** ** Preservation *)

(** What a consumed id is, at the moment it is consumed. *)
Lemma decision_facts q s now d id :
  policy_wf (load_options cfg (sv_pub s)) (sv_policy s) -> honest q -> is_modern now ->
  authorize_decision q s now = Some d -> d_Allow d = true -> id ∈ d_Consumed d ->
  (id ∉ dom (us_ids (sv_used s))) /\ ¬ stale now id /\ id <> "" /\
  UsesAttestations (sv_policy s) = true /\ d_UnwrapFrom d = None /\
  exists e, Some e ∈ lq_Attestations q /\ ev_ID e = id.
Proof using Laws.
  intros Hwf Hq Hnow Hd Hal Hid.
  destruct (consumed_elem _ _ _ _ _ _ Hwf Hd Hal Hid)
    as (r & specs & spec & e & ev & Hr & _ & Hreq & Hspec & Hswf & He & <- & Hok & Huf).
  simpl in He. destruct (Hq e He) as [Hrange Hborn].
  destruct (attestation_ok_recent _ _ _ _ Hok Hswf Hrange Hnow) as [Hrec Hwrap]. simpl in Hrec.
  split_and!.
  - rewrite <- Has_elem. rewrite (aok_unused _ _ _ Hok _ eq_refl). done.
  - intros Hst. rewrite Hborn in Hrec, Hwrap.
    pose proof (stale_not_recent now (ev_ID e) Hnow Hst Hwrap). lia.
  - eapply Verify_ID, aok_verified. done.
  - unfold UsesAttestations. apply existsb_elem. exists r. rewrite Hreq. split; [done|].
    destruct specs; [by apply not_elem_of_nil in Hspec | done].
  - done.
  - eauto.
Qed.

(** A step that leaves the policy, the used set and the disk alone. *)
Lemma server_inv_frame s s' d now now' consumed :
  server_inv s d now consumed -> (now <= now')%Z -> sv_pub s' = sv_pub s ->
  sv_policy s' = sv_policy s -> sv_used s' = sv_used s -> refused_ok (sv_refused s') ->
  server_inv s' d now' consumed.
Proof.
  intros [] Hle Hpub Hp Hu Hr. constructor; rewrite ?Hpub, ?Hp, ?Hu; try done.
  intros id Ho Hid. destruct (si_used0 id Ho Hid) as [?|Hst]; [by left | right].
  by eapply stale_later.
Qed.

Lemma world_inv_frame w s s' now :
  world_inv w -> w_srv w = Some s -> (w_time w <= now)%Z ->
  server_inv s' (w_disk w) now (w_consumed w) ->
  world_inv (mkWorld (Some s') (w_disk w) now (w_consumed w)).
Proof.
  intros [] Hs Hle Hinv. constructor; simpl; try done.
  - intros id Hid. destruct (wi_disk0 id Hid) as [?|?]; [by left | right; by eapply stale_later].
  - by intros ? [= <-].
Qed.

Lemma Forall_consumed q s now d :
  policy_wf (load_options cfg (sv_pub s)) (sv_policy s) -> honest q -> is_modern now ->
  authorize_decision q s now = Some d -> d_Allow d = true ->
  Forall (fun id => exists e, Some e ∈ lq_Attestations q /\ ev_ID e = id) (d_Consumed d) /\
  Forall (fun id => id <> "") (d_Consumed d).
Proof using Laws.
  intros Hwf Hq Hnow Hd Hal. split; apply Forall_forall; intros id Hid;
    by destruct (decision_facts q s now d id Hwf Hq Hnow Hd Hal Hid) as (_ & _ & ? & _ & _ & ?).
Qed.

(** The recorded entries of an honest request. *)
Lemma honest_entries q ids es :
  honest q -> entries_for ids (lq_Attestations q) = Some es ->
  Forall (fun id => exists e, Some e ∈ lq_Attestations q /\ ev_ID e = id) ids ->
  Forall (fun id => id <> "") ids ->
  ue_ID <$> es = ids /\
  Forall (fun e => ue_ID e <> "" /\ ue_CreatedAt e = wrap64 (born (ue_ID e))) es.
Proof.
  intros Hq Hes Hex Hne. destruct (entries_for_Some _ _ _ Hes Hex) as [Hids Hall].
  split; [done|]. rewrite <- Hids in Hne.
  apply Forall_forall. intros u Hu.
  eapply Forall_forall in Hne; [|apply list_elem_of_fmap_2; exact Hu].
  eapply Forall_forall in Hall as (e & He & Hid & Hc); [|exact Hu].
  destruct (Hq e He) as [_ Hb]. rewrite <- Hid, <- Hb. split; [|done]. by rewrite Hid.
Qed.

(** Authorizing a request. *)
Lemma authorize_inv w s q fault now r s' d' q' :
  world_inv w -> w_srv w = Some s -> (w_time w <= now)%Z -> is_modern now -> honest q ->
  whole_lines fault = true -> authorize fault now s (w_disk w) q = Some (r, s', d', q') ->
  world_inv (mkWorld (Some s') d' now (consumed_by q s now (is_ok r) ∪ w_consumed w)).
Proof using Laws.
  intros Hw Hs Hle Hnow Hq Hwhole H. assert (Hsrv := wi_server w Hw s Hs).
  destruct (authorize_cases _ _ _ _ _ _ _ _ _ H) as (d & Hd & Hpub & Hpol & Href & Hcases).
  unfold consumed_by. rewrite Hd. assert (Hwf := si_policy _ _ _ _ Hsrv).
  destruct Hcases as [(-> & Hu & Hunwrap)|(Hal & es & ra & Hes & Hadd & Hra)].
  - replace (if is_ok r then _ else _) with (∅ : gset string).
    { rewrite union_empty_l_L. eapply world_inv_frame; [done..|].
      eapply server_inv_frame; [done..|]. rewrite Href. apply (si_refused _ _ _ _ Hsrv). }
    destruct (is_ok r) eqn:Er; [|done]. destruct (Hunwrap eq_refl) as [Hal [x Hx]].
    destruct (d_Consumed d) as [|id ids] eqn:Ec; [done|]. exfalso.
    destruct (decision_facts q s now d id Hwf Hq Hnow Hd Hal) as (_ & _ & _ & _ & Hn & _);
      [rewrite Ec; set_solver | congruence].
  - destruct (Forall_consumed q s now d Hwf Hq Hnow Hd Hal) as [Hex Hne].
    destruct (honest_entries q _ es Hq Hes Hex Hne) as [Hids Hall].
    destruct (Add_disk born fault _ _ _ _ _ (wi_tail w Hw) (wi_born w Hw) Hall Hwhole Hadd)
      as (Ht & Hb & Hdom).
    assert (Hne' : Forall (fun e => ue_ID e <> "") es) by (eapply Forall_impl; [done|naive_solver]).
    destruct (Add_durable fault _ _ _ _ _ (si_durable _ _ _ _ Hsrv) Hwhole Hne' Hadd) as [Hdur Hok].
    destruct ra as [u|e]; destruct Hra as [Hu ->].
    + destruct (Hok u eq_refl) as (Hdur' & Hop & Hidsu).
      assert (Hdomu : dom (us_ids u) = dom (us_ids (sv_used s)) ∪ list_to_set (d_Consumed d))
        by (by rewrite Hidsu, record_ids_dom, Hids).
      assert (Hopen : d_Consumed d <> [] -> us_open (sv_used s) = true).
      { destruct (d_Consumed d) as [|id ids] eqn:Ec; [done|]. intros _.
        apply (si_persistent _ _ _ _ Hsrv).
        destruct (decision_facts q s now d id Hwf Hq Hnow Hd Hal) as (_ & _ & _ & ? & _ & _);
          [rewrite Ec; set_solver | done]. }
      constructor; simpl; try done.
      * intros id [Hid|Hid]%elem_of_union.
        { left. destruct (Hdur' ltac:(rewrite Hop; apply Hopen; intros Hn; rewrite Hn in Hid; set_solver))
            as (f & Hf & _ & Hsub).
          unfold read_disk. rewrite Hf. apply Hsub. rewrite Hdomu. set_solver. }
        destruct (wi_disk w Hw id Hid) as [?|?]; [left; set_solver | right; by eapply stale_later].
      * intros ? [= <-]. constructor; rewrite ?Hpub, ?Hpol, ?Hu, ?Hop, ?Href; try apply Hsrv; try done.
        intros id Ho [Hid|Hid]%elem_of_union; [left; rewrite Hdomu; set_solver|].
        destruct (si_used _ _ _ _ Hsrv id Ho Hid) as [?|?];
          [left; rewrite Hdomu; set_solver | right; by eapply stale_later].
    + rewrite union_empty_l_L. constructor; simpl; try done.
      * intros id Hid. destruct (wi_disk w Hw id Hid) as [?|?]; [left; set_solver | right; by eapply stale_later].
      * intros ? [= <-]. eapply (server_inv_frame s); [|done..|].
        { destruct Hsrv. constructor; done. }
        rewrite Href. apply Hsrv.
Qed.
(** ** The transition system *)

Variable UnmarshalPolicy : string -> option Policy.

Inductive step (w : world) : world -> Prop :=
| step_start fs newServer fault now r d' :
    w_srv w = None -> (w_time w <= now)%Z -> is_modern now ->
    New UnmarshalPolicy cfg fs newServer fault (w_disk w) now = (r, d') ->
    step w (mkWorld (match r with Ok s => Some s | Err _ => None end) d' now (w_consumed w))
| step_stop : step w (mkWorld None (w_disk w) (w_time w) (w_consumed w))
| step_authorize s q fault now r s' d' q' :
    w_srv w = Some s -> (w_time w <= now)%Z -> is_modern now -> honest q ->
    whole_lines fault = true ->
    authorize fault now s (w_disk w) q = Some (r, s', d', q') ->
    step w (mkWorld (Some s') d' now (consumed_by q s now (is_ok r) ∪ w_consumed w))
| step_result s q now text r s' :
    w_srv w = Some s -> (w_time w <= now)%Z -> is_modern now ->
    AuthorizeResult now s q text = (r, s') ->
    step w (mkWorld (Some s') (w_disk w) now (w_consumed w))
| step_record s q now err :
    w_srv w = Some s -> (w_time w <= now)%Z -> is_modern now ->
    step w (mkWorld (Some (record cfg now q err s)) (w_disk w) now (w_consumed w))
| step_attest s q now r s' :
    w_srv w = Some s -> (w_time w <= now)%Z -> is_modern now ->
    attest cfg now s q = Some (r, s') ->
    step w (mkWorld (Some s') (w_disk w) now (w_consumed w))
| step_reload s fs now r s' :
    w_srv w = Some s -> (w_time w <= now)%Z -> is_modern now ->
    Reload UnmarshalPolicy cfg fs now s = (r, s') ->
    step w (mkWorld (Some s') (w_disk w) now (w_consumed w)).

Definition initial (w : world) : Prop :=
  w_srv w = None /\ w_disk w = mkDisk None None /\ w_consumed w = ∅.

Lemma initial_inv w : initial w -> world_inv w.
Proof.
  intros (Hs & Hd & Hc). constructor; rewrite ?Hs, ?Hd, ?Hc; simpl; try done; try set_solver.
Qed.

(** Starting the process: whatever is dropped from the disk is stale. *)
Lemma start_inv w fs newServer fault now r d' :
  world_inv w -> (w_time w <= now)%Z -> is_modern now ->
  New UnmarshalPolicy cfg fs newServer fault (w_disk w) now = (r, d') ->
  world_inv (mkWorld (match r with Ok s => Some s | Err _ => None end) d' now (w_consumed w)).
Proof using Laws.
  intros Hw Hle Hnow H.
  destruct (New_cases UnmarshalPolicy cfg fs newServer fault (w_disk w) now r d' H)
    as (Hdisk & Hsrv).
  assert (Hcons : forall id, id ∈ w_consumed w ->
            id ∈ dom (prune now (read_disk (w_disk w))) \/ stale now id).
  { intros id Hid. destruct (wi_disk w Hw id Hid) as [Hin|?]; [|right; by eapply stale_later].
    apply elem_of_dom in Hin as [a Ha]. destruct (decide (a < cutoff now)%Z) as [Hlt|Hge].
    - right. exists now. rewrite <- (wi_born w Hw id a Ha). done.
    - left. apply elem_of_dom. exists a. by apply map_lookup_filter_Some. }
  assert (Hdisk' : world_inv (mkWorld None d' now (w_consumed w))).
  { destruct Hdisk as [->|(ru & Hopen)].
    - destruct Hw. constructor; simpl; try done. intros id Hid.
      destruct (wi_disk0 id Hid) as [?|?]; [by left | right; by eapply stale_later].
    - destruct (OpenUsedSet_spec _ _ _ _ _ Hopen) as (Hsub & Hsup & _ & _). constructor; simpl; try done.
      + intros f Hf. apply OpenUsedSet_cases in Hopen as [(Hmain & _)|(Hmain & _)].
        * rewrite Hmain in Hf. by apply (wi_tail w Hw).
        * rewrite Hmain in Hf. injection Hf as <-. apply compacted_clean.
      + intros id a Ha. apply (wi_born w Hw). by eapply lookup_weaken.
      + intros id Hid. destruct (Hcons id Hid) as [Hin|?]; [left | by right].
        apply subseteq_dom in Hsub. set_solver. }
  destruct r as [s|e]; [|done]. destruct (Hsrv s eq_refl) as (Hp & Hpers & Hr & Hused).
  destruct Hdisk'. constructor; try done. simpl. intros ? [= <-].
  constructor; simpl in *; try done.
  - destruct Hused as [->|(Hids & f & Hf & Ht & Hread)]; [done|].
    intros _. exists f. by rewrite Hread.
  - intros id Ho Hid. destruct Hused as [Hmem|(Hids & _)]; [by rewrite Hmem in Ho|].
    rewrite Hids. auto.
Qed.
Lemma core_inv w s s' now :
  world_inv w -> w_srv w = Some s -> (w_time w <= now)%Z -> same_core s s' ->
  world_inv (mkWorld (Some s') (w_disk w) now (w_consumed w)).
Proof.
  intros Hw Hs Hle (? & ? & ? & Hr). assert (Hsrv := wi_server w Hw s Hs).
  eapply world_inv_frame; [done..|]. eapply server_inv_frame; [done..|]. apply Hr, Hsrv.
Qed.

Lemma reload_inv w s fs now r s' :
  world_inv w -> w_srv w = Some s -> (w_time w <= now)%Z ->
  Reload UnmarshalPolicy cfg fs now s = (r, s') ->
  world_inv (mkWorld (Some s') (w_disk w) now (w_consumed w)).
Proof using Laws.
  intros Hw Hs Hle H. assert (Hsrv := wi_server w Hw s Hs). unfold Reload in H.
  destruct (load _ _ _ _) as [p|e] eqn:El; [|simplify_eq; by apply (core_inv w s')].
  apply LoadPolicy_policy_wf in El.
  destruct (checkPolicy (sv_used s) p) eqn:Ec; simplify_eq; [|by apply (core_inv w s')].
  eapply world_inv_frame; [done..|]. destruct Hsrv. constructor; simpl; try done.
  - intros Hua. unfold checkPolicy, Persistent in Ec. rewrite Hua in Ec. by destruct (us_open _).
  - intros id Ho Hid. destruct (si_used0 id Ho Hid); [by left | right; by eapply stale_later].
Qed.

Lemma step_inv w w' : world_inv w -> step w w' -> world_inv w'.
Proof using Laws.
  intros Hw H. destruct H.
  - by eapply start_inv.
  - destruct Hw. by constructor.
  - by eapply authorize_inv.
  - eapply core_inv; [done..|]. by eapply AuthorizeResult_core.
  - eapply core_inv; [done..|]. apply record_core.
  - eapply core_inv; [done..|]. by eapply attest_core.
  - by eapply reload_inv.
Qed.

Lemma reachable_inv w0 w : initial w0 -> rtc step w0 w -> world_inv w.
Proof using Laws.
  intros H0 Hr. apply initial_inv in H0. induction Hr as [|w0 w1 w2 Hs _ IH]; [done|].
  by apply IH, (step_inv w0).
Qed.
End Trace.
