(* ===== verification/SignerGuarantees.v ===== *)
(** * What the signer's server guarantees

    Theorems on [src/signer/server.go], [usedset.go], [refused.go],
    [ratelimit.go] and [watch.go]: no attestation is consumed twice over any
    run, the used-attestation file survives every failing system call, refused
    gift wraps never cost a token, the limiter's bursts are exact, and the
    file poll neither misses a change nor reloads without one.  A last theorem
    exhibits the one way a run that is not honest can replay an
    attestation. *)
From S2P Require Import Prelude GoTime GoFloat GoStrings Nostr SignerPolicy.
From S2P Require Import SignerAttest SignerEvaluate SignerEvaluateFacts SignerExamples SignerLimiter SignerUsedSet.
From S2P Require Import SignerRefused SignerServer SignerTrace.
From stdpp Require Import options.
From Stdlib Require Import QArith.

Local Open Scope string_scope.

(** ** Consumed attestations *)

(** C1: Over any run from an empty state directory (requests in any order,
    reloads, crashes, restarts, failing system calls), a request that is
    authorized consumes no attestation that was consumed before, provided the
    clock does not go back and is in range, the events of a request carry the
    [created_at] their ids commit to ([decoy_replays_attestation] otherwise), and
    an append to the used file writes whole lines or fails. *)
Theorem no_attestation_used_twice `{NL : Nmilat} `{K : Keys} `{Laws : !NmilatLaws NL}
    Unmarshal cfg born w0 w s q fault now d s' dk' q' :
  initial w0 -> rtc (step cfg born Unmarshal) w0 w -> w_srv w = Some s ->
  (w_time w <= now)%Z -> is_modern now -> honest born q -> whole_lines fault = true ->
  authorize_decision q s now = Some d ->
  authorize fault now s (w_disk w) q = Some (Ok (), s', dk', q') ->
  Forall (fun id => id ∉ w_consumed w) (d_Consumed d).
Proof.
  intros H0 Hrun Hs Hle Hnow Hq Hwhole Hd Hauth.
  assert (Hw := reachable_inv cfg born Unmarshal w0 w H0 Hrun).
  assert (Hsrv := wi_server _ _ w Hw s Hs).
  assert (Hal : d_Allow d = true).
  { destruct (authorize_cases _ _ _ _ _ _ _ _ _ Hauth) as (d2 & Hd2 & _ & _ & _ & Hc).
    rewrite Hd in Hd2. injection Hd2 as <-.
    destruct Hc as [(_ & _ & Hx)|(Hal & _)]; [by apply Hx | done]. }
  apply Forall_forall. intros id Hid Hin.
  destruct (decision_facts cfg born q s now d id (si_policy _ _ _ _ _ _ Hsrv) Hq Hnow Hd Hal Hid)
    as (Hnot & Hst & _ & Hua & _).
  destruct (si_used _ _ _ _ _ _ Hsrv id (si_persistent _ _ _ _ _ _ Hsrv Hua) Hin); [done|].
  by apply Hst; eapply stale_later.
Qed.

(** C9: Whichever system call of [OpenUsedSet] fails, the state directory
    gains no id and loses none that is within the retention window; and when
    it succeeds the set in memory is exactly what the file holds, so what it
    answers after the next restart is what it answers now. *)
Theorem OpenUsedSet_crash_safe fault d now r d' :
  OpenUsedSet fault d now = (r, d') ->
  read_disk d' ⊆ read_disk d /\
  (forall id at_, read_disk d !! id = Some at_ -> ¬ (at_ < cutoff now)%Z ->
     read_disk d' !! id = Some at_) /\
  (forall u, r = Ok u -> us_ids u = read_disk d' /\ durable u d').
Proof.
  intros H. destruct (OpenUsedSet_spec _ _ _ _ _ H) as (Hsub & Hsup & _ & Hok). split_and!; [done|..].
  - intros id at_ Hid Hge. eapply lookup_weaken; [|exact Hsub]. by apply map_lookup_filter_Some.
  - intros u Hu. destruct (Hok u Hu) as (_ & Ho & f & Hf & Ht & Hread).
    unfold read_disk. rewrite Hf. split; [done|]. intros _. exists f. by rewrite Hread.
Qed.

(** ** Gift wraps *)

Section Unwrap.
Context `{NL : Nmilat}.

(** A gift wrap an [unwrap_from] rule refuses never spends a token: its
    authorization only refills the bucket, the refusal of its result leaves
    the limiter alone, and asked again under the same policy it is refused at
    once without touching the limiter at all. *)
Theorem refused_wrap_costs_nothing fault fault' now now' s dk q d text s1 dk1 q1 e s2 d' :
  refused_ok (sv_refused s) ->
  authorize_decision q s now = Some d -> is_Some (d_UnwrapFrom d) ->
  authorize fault now s dk q = Some (Ok (), s1, dk1, q1) ->
  AuthorizeResult now s1 q1 text = (Err (SDeny (d_Rule d) (DUnwrap e)), s2) ->
  authorize_decision q s2 now' = Some d' -> d_Allow d' = true -> is_Some (d_UnwrapFrom d') ->
  sv_limiter s1 = (rate_ready d now (sv_limiter s)).2 /\ sv_limiter s2 = sv_limiter s1 /\
  exists q2, authorize fault' now' s2 dk q =
    Some (Err (SDeny (d_Rule d') DRefusedBefore), s2, dk, q2).
Proof.
  intros Hr Hd Hu Hauth Hres Hd' Hal' Hu'. unfold authorize in Hauth. rewrite Hd in Hauth. cbn in Hauth.
  destruct (d_Allow d) eqn:Hal; cbn in Hauth; [|done].
  destruct (d_UnwrapFrom d) as [x|] eqn:Eu; [|by destruct Hu]. cbn in Hauth.
  destruct (refused_has _ _ _); [done|]. destruct (rate_ready d now (sv_limiter s)) as [[] l] eqn:El;
    cbn in Hauth; simplify_eq.
  unfold AuthorizeResult in Hres. cbn in Hres. rewrite lookup_insert_eq in Hres. cbn in Hres.
  destruct (CheckUnwrapResult d text) as [reason|]; [|by destruct (take_rate _ _ _) as [[] ?]].
  simplify_eq. cbn. split_and!; [done..|].
  set (s2 := set_refused _ _) in *. eexists. unfold authorize. rewrite Hd'. cbn. rewrite Hal'. cbn.
  destruct (d_UnwrapFrom d') as [y|]; [|by destruct Hu']. cbn.
  assert (Hhas : refused_has (refused_add (sv_refused s) (sv_gen s)
            (wrapKey (lq_Counterpart q) (lq_Ciphertext q))) (sv_gen s)
            (wrapKey (lq_Counterpart q) (lq_Ciphertext q)) = true) by (by apply refused_added).
  rewrite Hhas. done.
Qed.
End Unwrap.

(** ** Rates *)

(** The limiter keeps between zero and [N] tokens in every bucket, and at
    any instant a rule's fresh bucket lets exactly [N] requests through, the
    rest are refused, whatever the floating-point refill does. *)
Theorem limiter_burst_exact l rule r now k :
  limiter_ok l -> rate_ok r -> l !! rule = None ->
  (burst l rule r now k).1 = Nat.min k (Z.to_nat (rate_N r)) /\
  limiter_ok (burst l rule r now k).2.
Proof.
  intros Hl Hr Hnone. split.
  - apply burst_holds; [|by apply holds_fresh]. destruct Hr. lia.
  - by apply burst_ok.
Qed.

(** ** Watching the policy's files *)

Section Watch.
Context `{NL : Nmilat} `{K : Keys}.

(** The poll is faithful: right after a (re)load, as long as no file
    changes, no tick reloads; a reload that fails keeps the server as it was
    and is not tried again until some file changes. *)
Theorem Watch_faithful Unmarshal cfg fs now now' s failed :
  (forall s', Reload Unmarshal cfg fs now s = (Ok (), s') ->
     Watch_tick Unmarshal cfg fs now' s' failed = (s', failed)) /\
  (forall e s', Reload Unmarshal cfg fs now s = (Err e, s') -> s' = s /\
     forall s1 failed1, Watch_tick Unmarshal cfg fs now s failed = (s1, failed1) -> s1 = s /\
       Watch_tick Unmarshal cfg fs now' s1 failed1 = (s1, failed1)).
Proof.
  split.
  - intros s' H. unfold Watch_tick. rewrite (reload_snapshot _ _ _ _ _ _ H), String.eqb_refl. done.
  - intros e s' H. assert (Hs : s' = s) by (by eapply Reload_Err). subst s'. split; [done|].
    unfold Watch_tick. rewrite H. intros s1 failed1 Ht.
    destruct (_ || _) eqn:E in Ht; simplify_eq.
    + by rewrite E.
    + by rewrite String.eqb_refl, orb_true_r.
Qed.
End Watch.

(** ** The theorems at concrete inputs *)

#[local] Existing Instance reference_nmilat.

#[local] Instance reference_keys : Keys := {|
  NewLocalKey k := if String.eqb k "priv" then Some signer_pub else None;
  NewKeySigner k := if String.eqb k "priv" then Some signer_pub else None;
  nipOA_Sign k sub conds := Some ("oa:" ++ sub);
  dec_Allowed ok := ok;
|}.

Definition ex_cfg : Config :=
  mkConfig "priv" "policy.yaml" "" false "/state" [] [] true true "test".

Definition ex_boot : Z := Unix_ (ex_unix - 300).

Definition ex_start (d : disk) (now : Z) : result NewError Server * disk :=
  New ex_unmarshal ex_cfg ex_fs true None d now.

Definition ok_or {E A} (r : result E A) (a : A) : A := match r with Ok x => x | Err _ => a end.

Definition no_server : Server :=
  mkServer "" ex_document 0 0 0 ∅ NewMemoryUsedSet ∅ ∅ no_refused [] [].

(** The server as started, and after it authorized the release. *)
Definition ex_server : Server := ok_or (ex_start (mkDisk None None) ex_boot).1 no_server.
Definition ex_disk : disk := (ex_start (mkDisk None None) ex_boot).2.

Definition ex_ls (ptr : nat) (atts : list (option Event)) : lsRequest :=
  mkLsRequest ptr "1" MethodSignEvent (Some (ex_target 30063 "")) atts "" "" "" [] "".

Definition ex_other_review : Event :=
  mkEvent "review-2" bob (ex_unix - 60) 1111 [["e"; "target"]] "LGTM" "sig:review-2".

Definition ex_born (id : string) : Z := ex_unix - 60.

Definition ex_authorized : option (result ServerError unit * Server * disk * lsRequest) :=
  authorize None ex_now ex_server ex_disk (ex_ls 1 [Some (ex_review alice)]).

Definition ex_server2 : Server :=
  match ex_authorized with Some (_, s, _, _) => s | None => no_server end.
Definition ex_disk2 : disk :=
  match ex_authorized with Some (_, _, d, _) => d | None => ex_disk end.
Definition ex_world2 : world := mkWorld (Some ex_server2) ex_disk2 ex_now {["review-1"]}.

Lemma ex_honest ptr a : a = ex_review alice \/ a = ex_other_review -> honest ex_born (ex_ls ptr [Some a]).
Proof.
  intros Ha e [= ->]%list_elem_of_singleton. destruct Ha as [->| ->]; (split; [split|]; vm_compute; congruence).
Qed.

Lemma ex_modern t : (ex_boot <=? t)%Z && (t <=? ex_now + Hour)%Z = true -> is_modern t.
Proof.
  intros H. propify. assert (Hlow : (unixToInternal * Second + MaxAttestationAge <= ex_boot)%Z) by done.
  assert (Hhigh : (ex_now + Hour <= 2 ^ 62 * Second)%Z) by done. unfold is_modern. lia.
Qed.

Definition ex_world1 : world := mkWorld (Some ex_server) ex_disk ex_boot ∅.

Lemma ex_step1 :
  step ex_cfg ex_born ex_unmarshal (mkWorld None (mkDisk None None) 0 ∅) ex_world1.
Proof.
  apply (step_start ex_cfg ex_born ex_unmarshal (mkWorld None (mkDisk None None) 0 ∅)
           ex_fs true None ex_boot (Ok ex_server) ex_disk);
    [done | done | by apply ex_modern | vm_compute; reflexivity].
Qed.

Definition ex_q1 : lsRequest := ex_ls 1 [Some (ex_review alice)].

Lemma ex_authorize1 : exists q',
  authorize None ex_now ex_server ex_disk ex_q1 = Some (Ok (), ex_server2, ex_disk2, q').
Proof. eexists. vm_compute. reflexivity. Qed.

Lemma ex_consumed1 : consumed_by ex_q1 ex_server ex_now true ∪ ∅ = {["review-1"]}.
Proof. vm_compute. reflexivity. Qed.

Lemma ex_step2 : step ex_cfg ex_born ex_unmarshal ex_world1 ex_world2.
Proof.
  destruct ex_authorize1 as [q' H]. unfold ex_world2. rewrite <- ex_consumed1.
  apply (step_authorize ex_cfg ex_born ex_unmarshal ex_world1 ex_server ex_q1 None ex_now (Ok ())
           ex_server2 ex_disk2 q').
  - reflexivity.
  - vm_compute. discriminate.
  - apply ex_modern. reflexivity.
  - apply ex_honest. by left.
  - reflexivity.
  - exact H.
Qed.

Lemma ex_run : rtc (step ex_cfg ex_born ex_unmarshal) (mkWorld None (mkDisk None None) 0 ∅) ex_world2.
Proof. eapply rtc_l; [exact ex_step1|]. eapply rtc_l; [exact ex_step2 | apply rtc_refl]. Qed.

Definition ex_q2 : lsRequest := ex_ls 2 [Some ex_other_review].

Lemma ex_authorize2 : exists s' d' q',
  authorize None ex_now ex_server2 ex_disk2 ex_q2 = Some (Ok (), s', d', q').
Proof. do 3 eexists. vm_compute. reflexivity. Qed.

Lemma no_attestation_used_twice_witness : exists d,
  Forall (fun id => id ∉ w_consumed ex_world2) (d_Consumed d) /\ d_Consumed d = ["review-2"].
Proof.
  destruct ex_authorize2 as (s' & d' & q' & H).
  exists (mkDecision true "release" None ["review-2"] (Some (mkRate 60 Minute)) None). split; [|reflexivity].
  eapply (no_attestation_used_twice ex_unmarshal ex_cfg ex_born _ ex_world2 ex_server2 ex_q2 None ex_now _ s' d' q').
  2: exact ex_run.
  - split; [reflexivity | split; reflexivity].
  - reflexivity.
  - apply Z.le_refl.
  - apply ex_modern. reflexivity.
  - apply ex_honest. right. reflexivity.
  - reflexivity.
  - vm_compute. reflexivity.
  - exact H.
Defined.

Lemma OpenUsedSet_crash_safe_witness :
  read_disk (mkDisk (Some (mkFile [Some (mkUsedEntry "a" ex_unix); None] None)) None) !! "a"
    = Some ex_unix /\
  read_disk (OpenUsedSet (Some FRename)
    (mkDisk (Some (mkFile [Some (mkUsedEntry "a" ex_unix); None] None)) None) ex_now).2 !! "a"
    = Some ex_unix.
Proof.
  split; [reflexivity|].
  set (d := mkDisk (Some (mkFile [Some (mkUsedEntry "a" ex_unix); None] None)) None).
  assert (H : OpenUsedSet (Some FRename) d ex_now =
    ((OpenUsedSet (Some FRename) d ex_now).1, (OpenUsedSet (Some FRename) d ex_now).2))
    by (vm_compute; reflexivity).
  apply (OpenUsedSet_crash_safe _ _ _ _ _ H); vm_compute; congruence.
Defined.

Lemma limiter_burst_exact_witness :
  (burst NewLimiter "chat" (mkRate 10 Second) ex_now 12).1 = 10%nat.
Proof.
  apply (limiter_burst_exact NewLimiter "chat" (mkRate 10 Second) ex_now 12).
  - intros rule b H. unfold NewLimiter in H. rewrite lookup_empty in H. discriminate H.
  - split; [split|]; vm_compute; reflexivity.
  - reflexivity.
Defined.

(** A wrap sealed by bob, whom the "inbox" rule does not list. *)
Definition ex_wrap : lsRequest :=
  mkLsRequest 3 "3" MethodNIP44Decrypt None [] carol "" "cipher" [] "".

Definition ex_unwrap_decision : Decision_ :=
  mkDecision true "inbox" None [] (Some (mkRate 1 Minute)) (Some {[alice]}).

Definition ex_server3 : Server :=
  match authorize None ex_now ex_server ex_disk ex_wrap with
  | Some (_, s, _, _) => s | None => no_server end.
Definition ex_server4 : Server := (AuthorizeResult ex_now ex_server3 ex_wrap ("seal:" ++ bob)).2.

Lemma ex_wrap_authorized :
  authorize None ex_now ex_server ex_disk ex_wrap
    = Some (Ok (), ex_server3, ex_disk, set_lq_Rule "inbox" ex_wrap).
Proof. vm_compute. reflexivity. Qed.

Lemma ex_wrap_refused :
  AuthorizeResult ex_now ex_server3 (set_lq_Rule "inbox" ex_wrap) ("seal:" ++ bob)
    = (Err (SDeny "inbox" (DUnwrap UUnlisted)), ex_server4).
Proof. vm_compute. reflexivity. Qed.

Lemma ex_wrap_decision now s :
  now = ex_now /\ (s = ex_server \/ s = ex_server4) ->
  authorize_decision ex_wrap s now = Some ex_unwrap_decision.
Proof. intros [-> [->| ->]]; vm_compute; reflexivity. Qed.

Lemma refused_wrap_costs_nothing_witness : exists q2,
  authorize None ex_now ex_server4 ex_disk ex_wrap =
    Some (Err (SDeny "inbox" DRefusedBefore), ex_server4, ex_disk, q2).
Proof.
  apply (refused_wrap_costs_nothing None None ex_now ex_now ex_server ex_disk ex_wrap
    ex_unwrap_decision ("seal:" ++ bob) ex_server3 ex_disk (set_lq_Rule "inbox" ex_wrap) UUnlisted
    ex_server4 ex_unwrap_decision).
  - exact no_refused_ok.
  - apply ex_wrap_decision. split; [reflexivity | left; reflexivity].
  - eexists. reflexivity.
  - exact ex_wrap_authorized.
  - exact ex_wrap_refused.
  - apply ex_wrap_decision. split; [reflexivity | right; reflexivity].
  - reflexivity.
  - eexists. reflexivity.
Defined.

Lemma Watch_faithful_witness : exists s',
  Reload ex_unmarshal ex_cfg ex_fs ex_now ex_server = (Ok (), s') /\
  Watch_tick ex_unmarshal ex_cfg ex_fs ex_now s' "" = (s', "").
Proof.
  exists (set_policy ex_loaded (Time_Unix ex_now) ex_server).
  assert (H : Reload ex_unmarshal ex_cfg ex_fs ex_now ex_server =
            (Ok (), set_policy ex_loaded (Time_Unix ex_now) ex_server)) by (vm_compute; reflexivity).
  split; [exact H|].
  exact (proj1 (Watch_faithful ex_unmarshal ex_cfg ex_fs ex_now ex_now ex_server "") _ H).
Defined.

(** ** A run that is not honest *)

(** An event that is not signed and borrows the id of the review, with an old
    [created_at]. *)
Definition ex_decoy : Event := mkEvent "review-1" carol 0 1111 [] "" "".

Definition ex_decoyed : lsRequest := ex_ls 1 [Some ex_decoy; Some (ex_review alice)].

(** Start, authorize, stop, start again half a minute later, authorize
    again. *)
Definition decoy_run : option (list (bool * list string)) :=
  let consumed q s now := match authorize_decision q s now with Some d => d_Consumed d | None => [] end in
  let later := Time_Add ex_now (30 * Second) in
  match ex_start (mkDisk None None) ex_boot with
  | (Ok s, dk) =>
      '(r1, _, dk, _) ← authorize None ex_now s dk ex_decoyed;
      match ex_start dk later with
      | (Ok s2, dk) =>
          '(r2, _, _, _) ← authorize None later s2 dk ex_decoyed;
          Some [(is_ok r1, consumed ex_decoyed s ex_now); (is_ok r2, consumed ex_decoyed s2 later)]
      | _ => None
      end
  | _ => None
  end.

(** An attestation can be replayed across a restart: [authorize] records
    the id with the [created_at] of the first attestation that carries it, so
    an unsigned event with the same id and an old date, listed first, makes
    the next start prune the id; within the clock skew the attestation is then
    accepted a second time. *)
Theorem decoy_replays_attestation :
  decoy_run = Some [(true, ["review-1"]); (true, ["review-1"])].
Proof. vm_compute. reflexivity. Qed.
