(* ===== verification/BunkerPolicy.v ===== *)
(** * The bunker's remembered permissions

    Models [src/cli/bunker/policy.go]: grants, sessions and the [Store] with
    every operation on it.  The mutex makes each operation atomic: an
    operation takes the store and the clock and returns its answer and the new
    store.  The store keeps what was last written to [sessions.yaml]; a save
    may fail, and then leaves the file as it was or with other content.  Go
    ranges over the session map in no fixed order; what is written is read
    back into a map. *)
From S2P Require Import Prelude GoTime GoStrings Nostr.
From stdpp Require Import options.
From Stdlib Require Import Ascii.

Local Open Scope string_scope.

(** [Decision] *)
Inductive Verdict := Ask | Allow | Deny.

#[export] Instance Verdict_eq_dec : EqDecision Verdict.
Proof. solve_decision. Defined.

Definition Verdict_String (d : Verdict) : string :=
  match d with Allow => "allow" | Deny => "deny" | Ask => "ask" end.

Definition sensitiveKinds (k : Z) : bool := containsInt [0; 3; 5]%Z k.

Record Grant := mkGrant {
  g_Method : string;
  g_Verdict : Verdict;
  g_Kind : option Z;
  g_ExpiresAt : option Z;
  g_RemainingUses : option Z;
  g_CreatedAt : Z;
}.

#[export] Instance Grant_eq_dec : EqDecision Grant.
Proof. solve_decision. Defined.

Definition Grant_expired (g : Grant) (now : Z) : bool :=
  match g_ExpiresAt g with Some e => negb (Time_Before now e) | None => false end.

Definition Grant_matches (g : Grant) (method : string) (kind : Z) (exactOnly : bool) : bool :=
  if negb (String.eqb (g_Method g) method) then false
  else match g_Kind g with
  | Some k =>
      if negb (k =? kind)%Z then false
      else negb (bool_decide (g_Verdict g = Allow) && String.eqb method MethodSignEvent
                 && sensitiveKinds kind)
  | None =>
      if exactOnly then false
      else negb (String.eqb method MethodSignEvent && sensitiveKinds kind)
  end.

Record Session := mkSession {
  se_Pubkey : string;
  se_AppName : string;
  se_AppURL : string;
  se_Nickname : string;
  se_PairedAt : Z;
  se_Grants : list Grant;
}.

Definition set_grants (gs : list Grant) (s : Session) : Session :=
  mkSession (se_Pubkey s) (se_AppName s) (se_AppURL s) (se_Nickname s) (se_PairedAt s) gs.

(** [st_file] is the content of [sessions.yaml]. *)
Record Store := mkStore {
  st_byPub : gmap string Session;
  st_file : option string;
}.

(** How a save fails: before the write, or leaving other content behind. *)
Inductive SaveFault := SaveEarly | SaveWrite (content : string).

Section Store.
(** [yaml.Marshal] and [yaml.UnmarshalStrict] of the sessions. *)
Variable Marshal : list Session -> string.
Variable Unmarshal : string -> option (list Session).

(** [LoadStore] of the file's content, [None] when it does not exist; an
    unreadable file is an error of the caller's. *)
Definition LoadStore (file : option string) : option Store :=
  match file with
  | None => Some (mkStore ∅ None)
  | Some data =>
      ss ← Unmarshal data;
      Some (mkStore (fold_left (fun m s => <[se_Pubkey s := s]> m) ss ∅) (Some data))
  end.

(** [saveLocked] *)
Definition saveLocked (fault : option SaveFault) (s : Store) : bool * Store :=
  match fault with
  | Some SaveEarly => (false, s)
  | Some (SaveWrite content) => (false, mkStore (st_byPub s) (Some content))
  | None => (true, mkStore (st_byPub s) (Some (Marshal (map snd (map_to_list (st_byPub s))))))
  end.

Definition put_session (pub : string) (sess : Session) (s : Store) : Store :=
  mkStore (<[pub := sess]> (st_byPub s)) (st_file s).

(** [pruneSessionLocked] *)
Definition pruneSession (now : Z) (sess : Session) : Session :=
  set_grants (List.filter (fun g => negb (Grant_expired g now)) (se_Grants sess)) sess.

Definition prune_changes (now : Z) (sess : Session) : bool :=
  existsb (fun g => Grant_expired g now) (se_Grants sess).

(** [indexOfMatch]; [None] is -1. *)
Fixpoint indexOfMatch (grants : list Grant) (method : string) (kind : Z) (exactOnly : bool)
    : option nat :=
  match grants with
  | [] => None
  | g :: gs => if Grant_matches g method kind exactOnly then Some 0%nat
               else S <$> indexOfMatch gs method kind exactOnly
  end.

Definition spend (g : Grant) (remaining : Z) : Grant :=
  mkGrant (g_Method g) (g_Verdict g) (g_Kind g) (g_ExpiresAt g) (Some remaining) (g_CreatedAt g).

(** [resolveGrantLocked] on the session stored at [pub]; [None] is an index
    out of range. *)
Definition resolveGrant (fault : option SaveFault) (pub : string) (sess : Session) (idx : nat)
    (s : Store) : option (Verdict * Store) :=
  g ← se_Grants sess !! idx;
  match g_RemainingUses g with
  | None => Some (g_Verdict g, put_session pub sess s)
  | Some uses =>
      let remaining := wrap64 (uses - 1) in
      let gs := if (remaining <=? 0)%Z then delete idx (se_Grants sess)
                else <[idx := spend g remaining]> (se_Grants sess) in
      Some (g_Verdict g, (saveLocked fault (put_session pub (set_grants gs sess) s)).2)
  end.

(** [Decide] *)
Definition Decide (fault : option SaveFault) (now : Z) (pubkey method : string) (kind : Z)
    (s : Store) : option (Verdict * Store) :=
  match st_byPub s !! pubkey with
  | None => Some (Ask, s)
  | Some sess =>
      let sess := pruneSession now sess in
      match indexOfMatch (se_Grants sess) method kind true with
      | Some idx => resolveGrant fault pubkey sess idx s
      | None =>
          match indexOfMatch (se_Grants sess) method kind false with
          | Some idx => resolveGrant fault pubkey sess idx s
          | None => Some (Ask, put_session pubkey sess s)
          end
      end
  end.

(** [Prune] *)
Definition Prune (fault : option SaveFault) (now : Z) (s : Store) : Store :=
  let s' := mkStore (pruneSession now <$> st_byPub s) (st_file s) in
  if existsb (fun p => prune_changes now p.2) (map_to_list (st_byPub s))
  then (saveLocked fault s').2 else s'.

(** [Pair] *)
Definition Pair (fault : option SaveFault) (now : Z) (pubkey appName appURL : string) (s : Store)
    : bool * Store :=
  match st_byPub s !! pubkey with
  | Some _ => (true, s)
  | None => saveLocked fault (put_session pubkey (mkSession pubkey appName appURL "" now []) s)
  end.

Definition IsPaired (pubkey : string) (s : Store) : bool :=
  match st_byPub s !! pubkey with Some _ => true | None => false end.

(** [sameScope] *)
Definition sameScope (a b : Grant) : bool :=
  String.eqb (g_Method a) (g_Method b)
  && match g_Kind a, g_Kind b with
     | None, None => true
     | Some x, Some y => (x =? y)%Z
     | _, _ => false
     end.

(** The loop of [Remember]: replace the first grant of the same scope. *)
Fixpoint replace_scope (gs : list Grant) (grant : Grant) : option (list Grant) :=
  match gs with
  | [] => None
  | g :: gs => if sameScope g grant then Some (grant :: gs)
               else cons g <$> replace_scope gs grant
  end.

Definition remember_grants (gs : list Grant) (grant : Grant) : list Grant :=
  match replace_scope gs grant with Some gs => gs | None => gs ++ [grant] end.

(** [Remember] *)
Definition Remember (fault : option SaveFault) (now : Z) (pubkey : string) (grant : Grant)
    (s : Store) : bool * Store :=
  let sess := default (mkSession pubkey "" "" "" now []) (st_byPub s !! pubkey) in
  saveLocked fault
    (put_session pubkey (set_grants (remember_grants (se_Grants sess) grant) sess) s).

(** [Revoke]: whether there was one, and whether it was saved. *)
Definition Revoke (fault : option SaveFault) (pubkey : string) (s : Store) : bool * bool * Store :=
  match st_byPub s !! pubkey with
  | None => (false, true, s)
  | Some _ =>
      let '(ok, s) := saveLocked fault (mkStore (delete pubkey (st_byPub s)) (st_file s)) in
      (true, ok, s)
  end.

(** The loop of [RevokeGrant]: drop the first grant of the scope. *)
Fixpoint drop_scope (gs : list Grant) (target : Grant) : option (list Grant) :=
  match gs with
  | [] => None
  | g :: gs => if sameScope g target then Some gs else cons g <$> drop_scope gs target
  end.

(** [RevokeGrant] *)
Definition RevokeGrant (fault : option SaveFault) (pubkey method : string) (kind : option Z)
    (s : Store) : bool * bool * Store :=
  match st_byPub s !! pubkey with
  | None => (false, true, s)
  | Some sess =>
      match drop_scope (se_Grants sess) (mkGrant method Ask kind None None 0) with
      | None => (false, true, s)
      | Some gs =>
          let '(ok, s) := saveLocked fault (put_session pubkey (set_grants gs sess) s) in
          (true, ok, s)
      end
  end.

(** [SetName] *)
Definition SetName (fault : option SaveFault) (pubkey name : string) (s : Store)
    : bool * bool * Store :=
  match st_byPub s !! pubkey with
  | None => (false, true, s)
  | Some sess =>
      let sess := mkSession (se_Pubkey sess) (se_AppName sess) (se_AppURL sess) name
                    (se_PairedAt sess) (se_Grants sess) in
      let '(ok, s) := saveLocked fault (put_session pubkey sess s) in (true, ok, s)
  end.

(** [List]: the sessions in the map's order. *)
Definition Store_List (s : Store) : list Session := map snd (map_to_list (st_byPub s)).
End Store.

(** ** Labels *)

Definition shortHex (s : string) : string :=
  if (String.length s <=? 8)%nat then s else String.substring 0 8 s.

Definition summarizeApp (s : Session) : string :=
  if is_empty (se_AppName s) then "-"
  else if is_empty (se_AppURL s) then se_AppName s
  else se_AppName s ++ " (" ++ se_AppURL s ++ ")".

Definition labelFor (s : Session) : string :=
  if negb (is_empty (se_Nickname s)) then se_Nickname s
  else if negb (String.eqb (summarizeApp s) "-") then summarizeApp s
  else shortHex (se_Pubkey s).

Definition Label (pubkey : string) (s : Store) : string :=
  match st_byPub s !! pubkey with Some sess => labelFor sess | None => shortHex pubkey end.

(** ** Grant constructors *)

Definition newGrant (method : string) (verdict : Verdict) (kind : option Z) (now : Z) : Grant :=
  mkGrant method verdict kind None None now.

Definition GrantForDuration (method : string) (kind : option Z) (dur now : Z) : Grant :=
  mkGrant method Allow kind (Some (Time_Add now dur)) None now.

Definition GrantForUses (method : string) (kind : option Z) (uses now : Z) : Grant :=
  mkGrant method Allow kind None (Some uses) now.

Definition GrantForever (method : string) (kind : option Z) (now : Z) : Grant :=
  newGrant method Allow kind now.

Definition DenyAlways (method : string) (now : Z) : Grant := newGrant method Deny None now.
