(* ===== verification/BunkerPolicyFacts.v ===== *)
(** * What the bunker's permissions guarantee

    Theorems on [src/cli/bunker/policy.go]: a decision comes from a live grant
    of the app's session, exact kinds first; sensitive kinds are never allowed
    silently; a budget is never overspent; the store keeps one grant per
    scope; what is saved is what the next start loads. *)
From S2P Require Import Prelude GoTime GoStrings Nostr BunkerPolicy.
From stdpp Require Import options.
From Stdlib Require Import Ascii.

Local Open Scope string_scope.

(** ** Matching *)

Lemma indexOfMatch_Some gs m k b i :
  indexOfMatch gs m k b = Some i ->
  exists g, gs !! i = Some g /\ Grant_matches g m k b = true /\
    Forall (fun g' => Grant_matches g' m k b = false) (take i gs).
Proof.
  revert i. induction gs as [|g gs IH]; intros i; simpl; [done|].
  destruct (Grant_matches g m k b) eqn:E.
  - intros [= <-]. exists g. simpl. by repeat constructor.
  - intros (j & Hj & ->)%fmap_Some. destruct (IH j Hj) as (g' & ? & ? & ?).
    exists g'. simpl. by repeat constructor.
Qed.

Lemma indexOfMatch_None gs m k b :
  indexOfMatch gs m k b = None <-> Forall (fun g => Grant_matches g m k b = false) gs.
Proof.
  induction gs as [|g gs IH]; simpl; [done|]. rewrite Forall_cons.
  destruct (Grant_matches g m k b); [naive_solver|].
  rewrite fmap_None, IH. naive_solver.
Qed.

(** A grant that matches exactly matches. *)
Lemma matches_exact g m k : Grant_matches g m k true = true -> Grant_matches g m k false = true.
Proof.
  unfold Grant_matches. destruct (negb _); [done|]. by destruct (g_Kind g).
Qed.

(** What a grant that matches covers. *)
Lemma matches_covers g m k :
  Grant_matches g m k false = true ->
  g_Method g = m /\ (g_Kind g = None \/ g_Kind g = Some k) /\
  (g_Verdict g = Allow -> ~ (m = MethodSignEvent /\ sensitiveKinds k = true)).
Proof.
  unfold Grant_matches. destruct (String.eqb (g_Method g) m) eqn:Em; simpl; [|done].
  propify. destruct (g_Kind g) as [k'|].
  - destruct (Z.eqb k' k) eqn:Ek; simpl; [|done]. propify. subst k'. intros H. propify.
    split_and!; [done | by right |]. intros Hv [-> Hs]. rewrite Hs in H.
    destruct H as [H|H]; propify; [|done]. destruct H; propify; done.
  - intros H. propify. split_and!; [done | by left |]. intros _ [-> Hs]. rewrite Hs in H.
    by destruct H as [H|H]; propify.
Qed.

(** ** Deciding *)

Section Decide.
Variable Marshal : list Session -> string.

(** The grant a live session decides with. *)
Definition deciding (gs : list Grant) (m : string) (k : Z) : option (nat * Grant) :=
  i ← match indexOfMatch gs m k true with
      | Some i => Some i
      | None => indexOfMatch gs m k false
      end;
  g ← gs !! i; Some (i, g).

Lemma deciding_Some gs m k i g :
  deciding gs m k = Some (i, g) ->
  gs !! i = Some g /\ Grant_matches g m k false = true /\
  (g_Kind g <> Some k -> Forall (fun g' => Grant_matches g' m k true = false) gs).
Proof.
  unfold deciding. intros (j & Hj & (g' & Hg & [= <- <-])%bind_Some)%bind_Some.
  destruct (indexOfMatch gs m k true) as [j'|] eqn:E.
  - injection Hj as ->. apply indexOfMatch_Some in E as (g2 & Hg2 & Hm & _).
    rewrite Hg in Hg2. injection Hg2 as <-. split_and!; [done | by apply matches_exact |].
    intros Hne. exfalso. apply Hne. unfold Grant_matches in Hm.
    destruct (negb (String.eqb _ _)); [done|]. destruct (g_Kind g') as [k'|]; [|done].
    destruct (Z.eqb k' k) eqn:Ek; [|done]. propify. by subst.
  - apply indexOfMatch_Some in Hj as (g2 & Hg2 & Hm & _).
    rewrite Hg in Hg2. injection Hg2 as <-. split_and!; [done..|]. intros _. by apply indexOfMatch_None.
Qed.

Lemma deciding_None gs m k :
  deciding gs m k = None -> Forall (fun g => Grant_matches g m k false = false) gs.
Proof.
  unfold deciding. intros H. apply indexOfMatch_None.
  destruct (indexOfMatch gs m k true) as [i|] eqn:E.
  - apply indexOfMatch_Some in E as (g & Hg & _). simpl in H. by rewrite Hg in H.
  - destruct (indexOfMatch gs m k false) as [i|] eqn:E2; [|done].
    apply indexOfMatch_Some in E2 as (g & Hg & _). simpl in H. by rewrite Hg in H.
Qed.

(** What is left of the grants after one of them decided. *)
Definition after (gs : list Grant) (i : nat) (g : Grant) : list Grant :=
  match g_RemainingUses g with
  | None => gs
  | Some uses =>
      let remaining := wrap64 (uses - 1) in
      if (remaining <=? 0)%Z then delete i gs else <[i := spend g remaining]> gs
  end.

Lemma saveLocked_byPub fault s : st_byPub (saveLocked Marshal fault s).2 = st_byPub s.
Proof. by destruct fault as [[]|]. Qed.

(** [Decide] as one equation: it never fails, and changes nothing but the
    session it decided for. *)
Lemma Decide_eq fault now pub m k s :
  exists s', Decide Marshal fault now pub m k s =
    Some (match st_byPub s !! pub with
          | None => Ask
          | Some sess =>
              match deciding (se_Grants (pruneSession now sess)) m k with
              | Some (_, g) => g_Verdict g
              | None => Ask
              end
          end, s') /\
    st_byPub s' = match st_byPub s !! pub with
                  | None => st_byPub s
                  | Some sess =>
                      let sess := pruneSession now sess in
                      <[pub := match deciding (se_Grants sess) m k with
                               | Some (i, g) => set_grants (after (se_Grants sess) i g) sess
                               | None => sess
                               end]> (st_byPub s)
                  end.
Proof.
  unfold Decide, deciding. destruct (st_byPub s !! pub) as [sess|]; [|by eexists].
  cbv zeta. set (p := pruneSession now sess).
  assert (Hres : forall i g, se_Grants p !! i = Some g ->
    exists s', resolveGrant Marshal fault pub p i s = Some (g_Verdict g, s') /\
      st_byPub s' = <[pub := set_grants (after (se_Grants p) i g) p]> (st_byPub s)).
  { intros i g Hg. unfold resolveGrant, after. rewrite Hg. simpl.
    destruct (g_RemainingUses g); simpl; eexists; (split; [done|]); rewrite ?saveLocked_byPub; simpl; done. }
  destruct (indexOfMatch (se_Grants p) m k true) as [i|] eqn:E1;
    [|destruct (indexOfMatch (se_Grants p) m k false) as [i|] eqn:E2; [|by eexists]].
  - apply indexOfMatch_Some in E1 as (g & Hg & _). cbn [mbind option_bind]. rewrite Hg. cbn [mbind option_bind]. by apply Hres.
  - apply indexOfMatch_Some in E2 as (g & Hg & _). cbn [mbind option_bind]. rewrite Hg. cbn [mbind option_bind]. by apply Hres.
Qed.

Lemma prune_live now sess g :
  g ∈ se_Grants (pruneSession now sess) <-> g ∈ se_Grants sess /\ Grant_expired g now = false.
Proof.
  simpl. rewrite !list_elem_of_In, filter_In, negb_true_iff. done.
Qed.

(** [Decide] always answers, and an answer other than "ask" is the verdict
    of a grant of that app's own session that has not expired and covers the
    method and kind; a grant naming the kind takes precedence over one for any
    kind; and "ask" means no live grant covers the request (or one that says
    so).  Other apps' sessions are untouched. *)
Theorem Decide_sound fault now pub m k s :
  exists v s', Decide Marshal fault now pub m k s = Some (v, s') /\
    (forall pub', pub' <> pub -> st_byPub s' !! pub' = st_byPub s !! pub') /\
    (v <> Ask -> exists sess g, st_byPub s !! pub = Some sess /\ g ∈ se_Grants sess /\
       Grant_expired g now = false /\ g_Verdict g = v /\ g_Method g = m /\
       (g_Kind g = Some k \/
        g_Kind g = None /\ Forall (fun g' => Grant_expired g' now = false ->
                                     Grant_matches g' m k true = false) (se_Grants sess))) /\
    (v = Ask -> forall sess g, st_byPub s !! pub = Some sess -> g ∈ se_Grants sess ->
       Grant_expired g now = false -> Grant_matches g m k false = true ->
       exists g', g' ∈ se_Grants sess /\ g_Verdict g' = Ask).
Proof.
  destruct (Decide_eq fault now pub m k s) as (s' & -> & Hs'). eexists _, s'. split; [done|].
  destruct (st_byPub s !! pub) as [sess|]; [|rewrite Hs'; by split_and!].
  cbv zeta in Hs'. rewrite Hs'. split; [intros pub' Hne; by rewrite lookup_insert_ne|].
  destruct (deciding (se_Grants (pruneSession now sess)) m k) as [[i g]|] eqn:E.
  - apply deciding_Some in E as (Hg & Hm & Hex).
    apply list_elem_of_lookup_2, prune_live in Hg as [Hin Hlive]. split.
    + intros _. destruct (matches_covers _ _ _ Hm) as (? & Hk & _). exists sess, g.
      split_and!; try done. destruct Hk as [Hk|Hk]; [right | by left]. split; [done|].
      rewrite Hk in Hex. apply Forall_forall. intros g' Hg' Hl.
      specialize (Hex ltac:(done)). eapply Forall_forall in Hex; [done|]. by apply prune_live.
    + intros Hv ? ? [= <-] _ _ _. eauto.
  - apply deciding_None in E. split; [done|]. intros _ ? g' [= <-] Hg' Hl Hm.
    eapply Forall_forall in E; [|by apply prune_live]. congruence.
Qed.

Lemma Decide_never_allows fault now pub k s s' :
  sensitiveKinds k = true -> Decide Marshal fault now pub MethodSignEvent k s <> Some (Allow, s').
Proof.
  intros Hk H. destruct (Decide_eq fault now pub MethodSignEvent k s) as (s2 & Heq & _).
  rewrite H in Heq. injection Heq as Hv _. destruct (st_byPub s !! pub) as [sess|]; [|done].
  destruct (deciding _ _ _) as [[i g]|] eqn:E; [|done].
  apply deciding_Some in E as (_ & Hm & _). apply matches_covers in Hm as (_ & _ & Hs).
  by apply Hs.
Qed.

(** No remembered grant, whatever its scope and however the store came
    about, silently allows signing profile metadata, contacts or deletions. *)
Theorem Decide_sensitive fault now pub k s v s' :
  sensitiveKinds k = true -> Decide Marshal fault now pub MethodSignEvent k s = Some (v, s') ->
  v <> Allow.
Proof. intros Hk H ->. by eapply Decide_never_allows. Qed.

(** ** Budgets *)

(** The uses a budgeted grant has left. *)
Definition budget (g : Grant) : nat :=
  match g_RemainingUses g with Some uses => Z.to_nat uses | None => 0 end.

Fixpoint budget_for (m : string) (k : Z) (gs : list Grant) : nat :=
  match gs with
  | [] => 0
  | g :: gs => (if Grant_matches g m k false then budget g else 0) + budget_for m k gs
  end.







(** Requests, each at its own time, decided one after the other. *)
Record request := mkReq { rq_fault : option SaveFault; rq_now : Z; rq_pub : string;
                          rq_method : string; rq_kind : Z }.

Fixpoint decide_all (rs : list request) (s : Store) : option (list Verdict * Store) :=
  match rs with
  | [] => Some ([], s)
  | r :: rs =>
      '(v, s) ← Decide Marshal (rq_fault r) (rq_now r) (rq_pub r) (rq_method r) (rq_kind r) s;
      '(vs, s) ← decide_all rs s;
      Some (v :: vs, s)
  end.


Definition store_grants (pub : string) (s : Store) : list Grant :=
  match st_byPub s !! pub with Some sess => se_Grants sess | None => [] end.


End Decide.

(** ** The store's invariant *)

Definition scope (g : Grant) : string * option Z := (g_Method g, g_Kind g).

Lemma sameScope_true a b : sameScope a b = true <-> scope a = scope b.
Proof.
  unfold sameScope, scope. rewrite andb_true_iff, String.eqb_eq.
  destruct (g_Kind a) as [x|], (g_Kind b) as [y|]; rewrite ?Z.eqb_eq; split; intros H;
    try (destruct H; congruence); injection H; intros; subst; done.
Qed.

(** Each session is stored under its own key, with at most one grant per
    scope. *)
Definition session_ok (pub : string) (sess : Session) : Prop :=
  se_Pubkey sess = pub /\ NoDup (scope <$> se_Grants sess).

Definition store_ok (s : Store) : Prop := map_Forall session_ok (st_byPub s).

Lemma scopes_filter f gs : NoDup (scope <$> gs) -> NoDup (scope <$> List.filter f gs).
Proof.
  induction gs as [|g gs IH]; simpl; [done|]. intros [Hni Hnd]%NoDup_cons.
  destruct (f g); [|by apply IH]. rewrite fmap_cons. constructor; [|by apply IH].
  intros (g' & Heq & Hin)%list_elem_of_fmap. apply Hni. rewrite Heq.
  apply list_elem_of_fmap_2. rewrite list_elem_of_In in *. by apply filter_In in Hin as [? _].
Qed.

Lemma scopes_after gs i g :
  gs !! i = Some g -> NoDup (scope <$> gs) -> NoDup (scope <$> after gs i g).
Proof.
  intros Hi Hnd. unfold after. destruct (g_RemainingUses g); [|done]. cbv zeta.
  destruct (_ <=? _)%Z.
  - eapply sublist_NoDup; [exact Hnd|]. apply fmap_sublist, sublist_delete.
  - rewrite list_fmap_insert. change (scope (spend g _)) with (scope g).
    rewrite list_insert_id; [done|]. by rewrite list_lookup_fmap, Hi.
Qed.

Lemma replace_scope_spec gs grant :
  match replace_scope gs grant with
  | Some gs' => scope <$> gs' = scope <$> gs /\ grant ∈ gs' /\
      (forall g, scope g <> scope grant -> g ∈ gs' <-> g ∈ gs)
  | None => scope grant ∉ scope <$> gs
  end.
Proof.
  induction gs as [|g gs IH]; csimpl; [set_solver|]. destruct (sameScope g grant) eqn:E.
  - apply sameScope_true in E. split_and!; [by csimpl; rewrite E | set_solver |].
    intros g' Hne. rewrite !elem_of_cons. split; (intros [->|?]; [by destruct Hne | by right]).
  - assert (Hne : scope g <> scope grant) by (rewrite <- sameScope_true; congruence).
    destruct (replace_scope gs grant) as [gs'|]; csimpl.
    + destruct IH as (Hs & Hin & Hother). split_and!; [by f_equal | set_solver |].
      intros g' Hg'. rewrite !elem_of_cons, Hother by done. done.
    + csimpl. apply not_elem_of_cons. split; [congruence | done].
Qed.

Lemma remember_grants_spec gs grant :
  NoDup (scope <$> gs) ->
  NoDup (scope <$> remember_grants gs grant) /\ grant ∈ remember_grants gs grant /\
  (forall g, scope g <> scope grant -> g ∈ remember_grants gs grant <-> g ∈ gs).
Proof.
  intros Hnd. unfold remember_grants. pose proof (replace_scope_spec gs grant) as H.
  destruct (replace_scope gs grant) as [gs'|].
  - destruct H as (Hs & Hin & Hother). by rewrite Hs.
  - split_and!; [|set_solver|].
    + rewrite fmap_app. apply NoDup_app. split_and!; [done | intros x Hx ->%list_elem_of_singleton; done | apply NoDup_singleton].
    + intros g Hne. rewrite elem_of_app, list_elem_of_singleton. naive_solver.
Qed.

Lemma drop_scope_spec gs target :
  NoDup (scope <$> gs) ->
  match drop_scope gs target with
  | Some gs' => NoDup (scope <$> gs') /\ scope target ∈ scope <$> gs /\
      (forall g, g ∈ gs' <-> g ∈ gs /\ scope g <> scope target)
  | None => scope target ∉ scope <$> gs
  end.
Proof.
  induction gs as [|g gs IH]; csimpl; [set_solver|]. intros [Hni Hnd]%NoDup_cons.
  destruct (sameScope g target) eqn:E.
  - apply sameScope_true in E. split_and!; [done | csimpl; rewrite E; left |].
    intros g'. rewrite elem_of_cons. split; [|by intros [[->|?] Hne]; [destruct Hne|]]. intros Hin. split; [by right|].
    intros Heq. apply Hni. rewrite E, <- Heq. by apply list_elem_of_fmap_2.
  - assert (Hne : scope g <> scope target) by (rewrite <- sameScope_true; congruence).
    specialize (IH Hnd). destruct (drop_scope gs target) as [gs'|]; csimpl.
    + destruct IH as (Hnd' & Hin & Hiff). split_and!.
      * csimpl. constructor; [|done].
        intros (g' & Heq & Hg')%list_elem_of_fmap. apply Hiff in Hg' as [Hg' _]. apply Hni.
        rewrite Heq. by apply list_elem_of_fmap_2.
      * csimpl. by right.
      * intros g'. rewrite !elem_of_cons, Hiff. split; [intros [->|[? ?]]; auto | intros [[->|?] ?]; auto].
    + csimpl. apply not_elem_of_cons. split; [congruence | done].
Qed.

Lemma NoDup_fmap_scope gs a b :
  NoDup (scope <$> gs) -> a ∈ gs -> b ∈ gs -> scope a = scope b -> a = b.
Proof.
  intros Hnd (i & Hi)%list_elem_of_lookup (j & Hj)%list_elem_of_lookup Heq.
  assert (i = j) as ->; [|congruence]. eapply NoDup_lookup; [exact Hnd|..];
    rewrite list_lookup_fmap; [by rewrite Hi | by rewrite Hj, Heq].
Qed.

Section Steps.
Variable Marshal : list Session -> string.

(** Every operation that changes the store. *)
Inductive store_step (s : Store) : Store -> Prop :=
| SDecide fault now pub m k v s' :
    Decide Marshal fault now pub m k s = Some (v, s') -> store_step s s'
| SPrune fault now : store_step s (Prune Marshal fault now s)
| SPair fault now pub name url : store_step s (Pair Marshal fault now pub name url s).2
| SRemember fault now pub g : store_step s (Remember Marshal fault now pub g s).2
| SRevoke fault pub : store_step s (Revoke Marshal fault pub s).2
| SRevokeGrant fault pub m k : store_step s (RevokeGrant Marshal fault pub m k s).2
| SSetName fault pub name : store_step s (SetName Marshal fault pub name s).2.

Lemma put_ok pub sess (m : gmap string Session) : map_Forall session_ok m -> session_ok pub sess ->
  map_Forall session_ok (<[pub := sess]> m).
Proof. intros. by apply map_Forall_insert_2. Qed.

Lemma saved_ok fault s : store_ok s -> store_ok (saveLocked Marshal fault s).2.
Proof. unfold store_ok. by rewrite saveLocked_byPub. Qed.

Lemma prune_ok now pub sess : session_ok pub sess -> session_ok pub (pruneSession now sess).
Proof. intros [? ?]. split; [done|]. by apply scopes_filter. Qed.

Lemma Decide_ok fault now pub m k s v s' :
  store_ok s -> Decide Marshal fault now pub m k s = Some (v, s') -> store_ok s'.
Proof.
  intros Hs H. destruct (Decide_eq Marshal fault now pub m k s) as (s2 & Heq & Hs2).
  rewrite H in Heq. injection Heq as _ <-. unfold store_ok. rewrite Hs2.
  destruct (st_byPub s !! pub) as [sess|] eqn:E; [|done]. apply put_ok; [done|].
  pose proof (prune_ok now pub sess (Hs _ _ E)) as Hp. cbv zeta.
  destruct (deciding _ _ _) as [[i g]|] eqn:Ed; [|done].
  apply deciding_Some in Ed as (Hi & _ & _). destruct Hp. split; [done|]. by apply scopes_after.
Qed.

Lemma store_step_ok s s' : store_ok s -> store_step s s' -> store_ok s'.
Proof.
  intros Hs H. destruct H.
  - by eapply Decide_ok.
  - unfold Prune. assert (Hp : store_ok (mkStore (pruneSession now <$> st_byPub s) (st_file s))).
    { intros pub sess (sess0 & <- & H0)%lookup_fmap_Some. by apply prune_ok, Hs. }
    destruct (existsb _ _); [by apply saved_ok | done].
  - unfold Pair. destruct (st_byPub s !! pub); [done|]. apply saved_ok, put_ok; [done|].
    split; [done|constructor].
  - apply saved_ok, put_ok; [done|]. destruct (st_byPub s !! pub) as [sess|] eqn:E.
    + destruct (Hs _ _ E). split; [done|]. by apply remember_grants_spec.
    + split; [done|]. apply remember_grants_spec. constructor.
  - unfold Revoke. destruct (st_byPub s !! pub); [|done].
    destruct (saveLocked _ _ _) as [ok s1] eqn:E. simpl.
    change s1 with (ok, s1).2. rewrite <- E. apply saved_ok. by apply map_Forall_delete.
  - unfold RevokeGrant. destruct (st_byPub s !! pub) as [sess|] eqn:E; [|done].
    destruct (Hs _ _ E) as [Hk Hnd]. pose proof (drop_scope_spec (se_Grants sess) (mkGrant m Ask k None None 0) Hnd) as Hd.
    destruct (drop_scope _ _) as [gs|]; [|done]. destruct (saveLocked _ _ _) as [ok s1] eqn:Es. simpl.
    change s1 with (ok, s1).2. rewrite <- Es. apply saved_ok, put_ok; [done|]. by destruct Hd.
  - unfold SetName. destruct (st_byPub s !! pub) as [sess|] eqn:E; [|done].
    destruct (saveLocked _ _ _) as [ok s1] eqn:Es. simpl.
    change s1 with (ok, s1).2. rewrite <- Es. apply saved_ok, put_ok; [done|]. by destruct (Hs _ _ E).
Qed.

Lemma reachable_ok s : rtc store_step (mkStore ∅ None) s -> store_ok s.
Proof.
  intros H. assert (H0 : store_ok (mkStore ∅ None)) by done. revert H0.
  induction H as [|s1 s2 s3 Hs _ IH]; [done|]. intros H1. by apply IH, (store_step_ok s1).
Qed.

Lemma Remember_byPub fault now pub g s :
  let sess := default (mkSession pub "" "" "" now []) (st_byPub s !! pub) in
  st_byPub (Remember Marshal fault now pub g s).2
  = <[pub := set_grants (remember_grants (se_Grants sess) g) sess]> (st_byPub s).
Proof. simpl. unfold Remember. by rewrite saveLocked_byPub. Qed.

Lemma store_grants_default pub now s :
  store_grants pub s = se_Grants (default (mkSession pub "" "" "" now []) (st_byPub s !! pub)).
Proof. unfold store_grants. by destruct (st_byPub s !! pub). Qed.

Lemma store_grants_NoDup pub s : store_ok s -> NoDup (scope <$> store_grants pub s).
Proof.
  intros Hs. unfold store_grants. destruct (st_byPub s !! pub) eqn:E; [by destruct (Hs _ _ E) | constructor].
Qed.

(** What an app holds after [Remember]. *)
Lemma Remember_grants fault now pub g s :
  store_grants pub (Remember Marshal fault now pub g s).2 = remember_grants (store_grants pub s) g.
Proof.
  unfold store_grants at 1. rewrite Remember_byPub, lookup_insert_eq. simpl.
  by rewrite (store_grants_default pub now).
Qed.

Lemma Remember_elem fault now pub g s g' : store_ok s ->
  g' ∈ store_grants pub (Remember Marshal fault now pub g s).2 <->
  g' = g \/ (g' ∈ store_grants pub s /\ scope g' <> scope g).
Proof.
  intros Hs. rewrite Remember_grants.
  destruct (remember_grants_spec (store_grants pub s) g (store_grants_NoDup pub s Hs)) as (Hnd & Hin & Hother).
  destruct (decide (scope g' = scope g)) as [Heq|Hne].
  - split; [|intros [->|[_ ?]]; done]. intros Hg. left. by eapply NoDup_fmap_scope.
  - rewrite Hother by done. naive_solver.
Qed.

(** What an app holds after [RevokeGrant]. *)
Lemma RevokeGrant_elem fault pub m k s g' : store_ok s ->
  g' ∈ store_grants pub (RevokeGrant Marshal fault pub m k s).2 <->
  g' ∈ store_grants pub s /\ scope g' <> (m, k).
Proof.
  intros Hs. pose proof (store_grants_NoDup pub s Hs) as Hnd. unfold RevokeGrant, store_grants in *.
  destruct (st_byPub s !! pub) as [sess|] eqn:E; [|simpl; rewrite ?E; set_solver].
  pose proof (drop_scope_spec (se_Grants sess) (mkGrant m Ask k None None 0) Hnd) as Hd.
  destruct (drop_scope _ _) as [gs|].
  - destruct (saveLocked _ _ _) as [ok s1] eqn:Es. simpl.
    assert (Hs1 : st_byPub s1 = <[pub := set_grants gs sess]> (st_byPub s))
      by (change s1 with (ok, s1).2; rewrite <- Es; by rewrite saveLocked_byPub).
    rewrite Hs1, lookup_insert_eq. simpl. by destruct Hd as (_ & _ & Hiff).
  - simpl. rewrite E. split; [|by intros [? _]]. intros Hg. split; [done|].
    intros Heq. apply Hd. change (scope (mkGrant _ _ _ _ _ _)) with (m, k). rewrite <- Heq.
    by apply list_elem_of_fmap_2.
Qed.

Lemma Revoke_byPub fault pub s :
  st_byPub (Revoke Marshal fault pub s).2 = delete pub (st_byPub s).
Proof.
  unfold Revoke. destruct (st_byPub s !! pub) eqn:E; [|by rewrite delete_id].
  destruct (saveLocked _ _ _) as [ok s1] eqn:Es. simpl.
  change s1 with (ok, s1).2. rewrite <- Es. by rewrite saveLocked_byPub.
Qed.

(** In every store reachable from an empty one, remembering a grant leaves
    it as the session's only grant of its scope and every grant of another
    scope as it was; revoking that scope removes exactly it; and revoking the
    app makes every later request ask. *)
Theorem grants_managed s pub g fault now :
  rtc store_step (mkStore ∅ None) s ->
  let s' := (Remember Marshal fault now pub g s).2 in
  (forall g', g' ∈ store_grants pub s' <->
     g' = g \/ (g' ∈ store_grants pub s /\ scope g' <> scope g)) /\
  (forall f g', g' ∈ store_grants pub (RevokeGrant Marshal f pub (g_Method g) (g_Kind g) s').2 <->
     g' ∈ store_grants pub s /\ scope g' <> scope g) /\
  (forall f f' t m k, exists s2,
     Decide Marshal f' t pub m k (Revoke Marshal f pub s').2 = Some (Ask, s2)).
Proof.
  intros Hr s'. apply reachable_ok in Hr.
  assert (Hok : store_ok s') by (eapply store_step_ok; [exact Hr | apply SRemember]).
  split_and!.
  - intros g'. by apply Remember_elem.
  - intros f g'. rewrite RevokeGrant_elem by done. unfold s'. rewrite Remember_elem by done.
    change (g_Method g, g_Kind g) with (scope g). naive_solver.
  - intros f f' t m k. unfold Decide. rewrite Revoke_byPub, lookup_delete_eq. eauto.
Qed.
End Steps.

(** ** Saving and loading *)

(** Sessions written in any order and keyed by their own public key give back
    the map. *)
Lemma fold_sessions m ss :
  map_Forall session_ok m -> ss ≡ₚ map_to_list m ->
  fold_left (fun (m : gmap string Session) s => <[se_Pubkey s := s]> m) (map snd ss) ∅ = m.
Proof.
  intros Hok Hperm.
  assert (Hkeys : Forall (fun p => se_Pubkey p.2 = p.1) ss).
  { apply Forall_forall. intros [k s] Hin. rewrite Hperm in Hin.
    apply elem_of_map_to_list in Hin. by destruct (Hok _ _ Hin). }
  assert (Hnd : NoDup ss.*1) by (rewrite Hperm; apply NoDup_fst_map_to_list).
  rewrite <- (list_to_map_to_list m), <- (list_to_map_proper ss _ Hnd Hperm).
  enough (Hgen : forall m0, fold_left (fun (m : gmap string Session) s => <[se_Pubkey s := s]> m)
            (map snd ss) m0 = list_to_map ss ∪ m0).
  { by rewrite Hgen, (right_id_L ∅ (∪)). }
  clear Hperm Hok. induction ss as [|[k s] ss IH]; intros m0; simpl.
  - by rewrite (left_id_L ∅ (∪)).
  - apply Forall_cons in Hkeys as [Hk Hkeys]. apply NoDup_cons in Hnd as [Hni Hnd]. simpl in Hk.
    rewrite IH by done. rewrite Hk, <- insert_union_r by (by apply not_elem_of_list_to_map_1).
    by rewrite insert_union_l.
Qed.

(** What a successful save writes is what the next start loads: every
    session with its name, nickname and grants (given that the YAML library
    reads back what it writes). *)
Theorem save_load_roundtrip (Marshal : list Session -> string) (Unmarshal : string -> option (list Session)) s :
  (forall ss, Unmarshal (Marshal ss) = Some ss) ->
  rtc (store_step Marshal) (mkStore ∅ None) s ->
  let s' := (saveLocked Marshal None s).2 in
  LoadStore Unmarshal (st_file s') = Some s' /\ st_byPub s' = st_byPub s.
Proof.
  intros Hyaml Hr%reachable_ok s'. split; [|done]. unfold s', saveLocked, LoadStore. simpl.
  rewrite Hyaml. simpl. by rewrite (fold_sessions (st_byPub s)).
Qed.

(** ** The theorems at concrete inputs *)

#[export] Instance Verdict_countable : Countable Verdict.
Proof.
  refine (inj_countable' (fun v => match v with Ask => 0%nat | Allow => 1%nat | Deny => 2%nat end)
    (fun n => match n with 0%nat => Ask | 1%nat => Allow | _ => Deny end) _).
  by intros [].
Defined.

#[local] Instance Grant_countable : Countable Grant.
Proof.
  refine (inj_countable'
    (fun g => (g_Method g, g_Verdict g, g_Kind g, g_ExpiresAt g, g_RemainingUses g, g_CreatedAt g))
    (fun '(m, v, k, e, u, c) => mkGrant m v k e u c) _).
  by intros [].
Defined.

#[local] Instance Session_eq_dec : EqDecision Session.
Proof. solve_decision. Defined.

#[local] Instance Session_countable : Countable Session.
Proof.
  refine (inj_countable'
    (fun s => (se_Pubkey s, se_AppName s, se_AppURL s, se_Nickname s, se_PairedAt s, se_Grants s))
    (fun '(p, n, u, k, t, gs) => mkSession p n u k t gs) _).
  by intros [].
Defined.

(** A document format: the encoding of the sessions, one digit per bit. *)
Fixpoint bits (p : positive) : string :=
  match p with xH => "" | xO p => String "0" (bits p) | xI p => String "1" (bits p) end.

Fixpoint of_bits (s : string) : positive :=
  match s with
  | EmptyString => xH
  | String c s => if Ascii.eqb c "0" then xO (of_bits s) else xI (of_bits s)
  end.

Lemma of_bits_bits p : of_bits (bits p) = p.
Proof. induction p as [p IH|p IH|]; simpl; by rewrite ?IH. Qed.

Definition ex_marshal (ss : list Session) : string := bits (encode ss).
Definition ex_unmarshal_sessions (s : string) : option (list Session) := decode (of_bits s).

Lemma ex_yaml ss : ex_unmarshal_sessions (ex_marshal ss) = Some ss.
Proof. unfold ex_unmarshal_sessions, ex_marshal. rewrite of_bits_bits. apply decode_encode. Qed.

(** An app that may sign notes three times and messages forever. *)
Definition ex_store (M : list Session -> string) : Store :=
  (Remember M None 5 "app" (GrantForever MethodNIP44Encrypt None 5)
    (Remember M None 4 "app" (GrantForUses MethodSignEvent (Some 1%Z) 3 4)
      (Pair M None 3 "app" "Notes" "" (mkStore ∅ None)).2).2).2.

(** A document format that forgets everything, where the file does not
    matter. *)
Definition no_marshal (ss : list Session) : string := "".

Lemma ex_store_reachable M : rtc (store_step M) (mkStore ∅ None) (ex_store M).
Proof.
  unfold ex_store. eapply rtc_r; [|apply SRemember]. eapply rtc_r; [|apply SRemember].
  eapply rtc_once, SPair.
Qed.

Lemma Decide_sensitive_witness : exists v s',
  Decide no_marshal None 10 "app" MethodSignEvent 0 (ex_store no_marshal) = Some (v, s') /\ v <> Allow.
Proof.
  eexists _, _. split; [reflexivity|].
  eapply (Decide_sensitive no_marshal None 10 "app" 0 (ex_store no_marshal)); reflexivity.
Defined.





(** A grant of no uses, which [GrantForUses] and the store's file admit, still
    decides one request before it is removed. *)
Example zero_uses_decide :
  let s := (Remember no_marshal None 4 "app" (GrantForUses MethodSignEvent (Some 1%Z) 0 4)
              (Pair no_marshal None 3 "app" "Notes" "" (mkStore ∅ None)).2).2 in
  budget_for MethodSignEvent 1 (store_grants "app" s) = 0 /\
  fst <$> decide_all no_marshal (replicate 2 (mkReq None 10 "app" MethodSignEvent 1)) s = Some [Allow; Ask].
Proof. vm_compute. done. Qed.


Lemma grants_managed_witness : exists s2,
  Decide no_marshal None 20 "app" MethodNIP44Encrypt 0
    (Revoke no_marshal None "app"
      (Remember no_marshal None 6 "app" (DenyAlways MethodNIP04Encrypt 6) (ex_store no_marshal)).2).2 = Some (Ask, s2).
Proof.
  exact (proj2 (proj2 (grants_managed no_marshal (ex_store no_marshal) "app" (DenyAlways MethodNIP04Encrypt 6) None 6
    (ex_store_reachable no_marshal))) None None 20%Z MethodNIP44Encrypt 0%Z).
Defined.

Lemma save_load_roundtrip_witness :
  LoadStore ex_unmarshal_sessions (st_file (saveLocked ex_marshal None (ex_store ex_marshal)).2)
    = Some (saveLocked ex_marshal None (ex_store ex_marshal)).2.
Proof.
  exact (proj1 (save_load_roundtrip ex_marshal ex_unmarshal_sessions (ex_store ex_marshal) ex_yaml (ex_store_reachable ex_marshal))).
Defined.
