(* ===== verification/BunkerQueue.v ===== *)
(** * The queue of requests waiting for a human

    Models [src/cli/bunker/queue.go] with its concurrency.  What runs under
    [q.mu] is one step; everything outside it is a step of its own, taken by
    any goroutine at any time: the callbacks, the write of [result], the close
    of [done], and the receive of a blocked [Add].  Entries are shared
    objects: they live in a heap, [byID] holds addresses, and a goroutine that
    blocked on an entry keeps its address after the entry left the map. *)
From S2P Require Import Prelude GoTime GoStrings Nostr BunkerPolicy.
From stdpp Require Import options.

Local Open Scope string_scope.

Definition DefaultMaxPending : Z := 200.
Definition DefaultPendingTTL : Z := 5 * Minute.

Record Pending := mkPending {
  p_ID : string;
  p_ClientKey : string;
  p_Method : string;
  p_Kind : Z;
  p_Params : list string;
  p_Perms : string;
  p_CreatedAt : Z;
  p_ExpiresAt : Z;
  p_Event : option Event;
}.

Definition set_times (created expires : Z) (p : Pending) : Pending :=
  mkPending (p_ID p) (p_ClientKey p) (p_Method p) (p_Kind p) (p_Params p) (p_Perms p)
    created expires (p_Event p).

Record resolution := mkResolution {
  rs_verdict : Verdict;
  rs_remembered : bool;
  rs_expired : bool;
}.

(** The zero value of [result]. *)
Definition no_result : resolution := mkResolution Ask false false.

Record ResolvedEvent := mkResolvedEvent {
  re_Pending : Pending;
  re_Verdict : Verdict;
  re_Remembered : bool;
  re_Expired : bool;
  re_AutoApproved : bool;
}.

Record entry := mkEntry {
  e_pending : Pending;
  e_done : bool;
  e_result : resolution;
  e_resolved : bool;
}.

Record Queue := mkQueue {
  q_byID : gmap string nat;
  q_heap : list entry;
  q_max : Z;
  q_ttl : Z;
}.

Definition NewQueue (max ttl : Z) : Queue :=
  mkQueue ∅ [] (if (max <=? 0)%Z then DefaultMaxPending else max)
    (if (ttl <=? 0)%Z then DefaultPendingTTL else ttl).

Definition set_heap (h : list entry) (q : Queue) : Queue :=
  mkQueue (q_byID q) h (q_max q) (q_ttl q).

(** An entry of the map that is still pending. *)
Definition unresolved (q : Queue) (a : nat) : bool :=
  match q_heap q !! a with Some e => negb (e_resolved e) | None => false end.

(** The addresses in the map, in some order. *)
Definition addrs (q : Queue) : list nat := (map_to_list (q_byID q)).*2.

Definition pendingCount (q : Queue) : nat := length (List.filter (unresolved q) (addrs q)).

(** ** The critical sections *)

(** Up to the unlock of [Add]: wait on the entry that is there, refuse, or
    create one. *)
Inductive added := AddExisting (a : nat) | AddFull | AddNew (a : nat) (p : Pending).

Definition q_add (now : Z) (p : Pending) (q : Queue) : added * Queue :=
  match q_byID q !! p_ID p with
  | Some a => (AddExisting a, q)
  | None =>
      if (q_max q <=? Z.of_nat (pendingCount q))%Z then (AddFull, q)
      else
        let p := set_times now (Time_Add now (q_ttl q)) p in
        let a := length (q_heap q) in
        (AddNew a p,
         mkQueue (<[p_ID p := a]> (q_byID q)) (q_heap q ++ [mkEntry p false no_result false])
           (q_max q) (q_ttl q))
  end.

Definition mark_resolved (e : entry) : entry :=
  mkEntry (e_pending e) (e_done e) (e_result e) true.

(** Up to the unlock of [Resolve]; [None] is [ErrNotPending]. *)
Definition q_resolve (id : string) (q : Queue) : option (nat * Queue) :=
  a ← q_byID q !! id;
  e ← q_heap q !! a;
  if e_resolved e then None
  else Some (a, set_heap (<[a := mark_resolved e]> (q_heap q)) q).

(** [Get] *)
Definition q_Get (id : string) (q : Queue) : option Pending :=
  a ← q_byID q !! id;
  e ← q_heap q !! a;
  if e_resolved e then None else Some (e_pending e).

(** [List], in the map's order. *)
Definition q_List (q : Queue) : list Pending :=
  omap (fun a => e ← q_heap q !! a; if e_resolved e then None else Some (e_pending e)) (addrs q).

Definition entry_expired (now : Z) (e : entry) : bool :=
  negb (e_resolved e) && negb (Time_Before now (p_ExpiresAt (e_pending e))).

(** What [sweepExpired] expires, and what it prunes. *)
Definition sweep_expired (now : Z) (q : Queue) : list nat :=
  List.filter (fun a => match q_heap q !! a with
                        | Some e => entry_expired now e | None => false end) (addrs q).

Definition mark_all (as_ : list nat) (h : list entry) : list entry :=
  foldr (fun a h => alter mark_resolved a h) h as_.

(** Up to the unlock of [sweepExpired]. *)
Definition q_sweep (now : Z) (q : Queue) : list nat * Queue :=
  let ex := sweep_expired now q in
  (ex, mkQueue (filter (fun p => unresolved q p.2 = true) (q_byID q)) (mark_all ex (q_heap q))
         (q_max q) (q_ttl q)).

(** ** Outside the lock *)

Definition set_result (r : resolution) (e : entry) : entry :=
  mkEntry (e_pending e) (e_done e) r (e_resolved e).
Definition close_done (e : entry) : entry :=
  mkEntry (e_pending e) true (e_result e) (e_resolved e).

Definition resolved_event (e : entry) (r : resolution) : ResolvedEvent :=
  mkResolvedEvent (e_pending e) (rs_verdict r) (rs_remembered r) (rs_expired r) false.

(** How far a goroutine is with the first of the entries it finishes. *)
Inductive phase := PWrite | PNotify | PClose.

(** A goroutine inside an operation of the queue.  [Returned] remembers which
    entry the answer came from. *)
Inductive thread :=
| AddNotify (a : nat) (p : Pending)
| AddWait (a : nat)
| Returned (a : nat) (v : Verdict) (remembered : bool)
| RefusedFull
| NotPending
| Finish (ph : phase) (a : nat) (r : resolution) (rest : list nat)
| Finished.

Record system := mkSystem {
  s_queue : Queue;
  s_threads : list thread;
  s_added : list Pending;
  s_events : list (nat * ResolvedEvent);
}.

Definition spawn (t : thread) (q : Queue) (s : system) : system :=
  mkSystem q (s_threads s ++ [t]) (s_added s) (s_events s).

Definition set_thread (i : nat) (t : thread) (s : system) : system :=
  mkSystem (s_queue s) (<[i := t]> (s_threads s)) (s_added s) (s_events s).

Definition on_heap (f : list entry -> list entry) (s : system) : system :=
  mkSystem (set_heap (f (q_heap (s_queue s))) (s_queue s)) (s_threads s) (s_added s) (s_events s).

Definition expired_resolution : resolution := mkResolution Deny false true.

(** What a sweep leaves its goroutine to do. *)
Definition finish_all (as_ : list nat) : thread :=
  match as_ with
  | [] => Finished
  | a :: rest => Finish PWrite a expired_resolution rest
  end.

(** The steps: a call enters its critical section, a goroutine goes on, or the
    process panics on a double close ([None]). *)
Inductive qstep (s : system) : option system -> Prop :=
| step_add now p :
    qstep s (Some (let '(r, q) := q_add now p (s_queue s) in
                   spawn (match r with
                          | AddExisting a => AddWait a
                          | AddFull => RefusedFull
                          | AddNew a p => AddNotify a p
                          end) q s))
| step_resolve id v remembered :
    qstep s (Some (match q_resolve id (s_queue s) with
                   | Some (a, q) => spawn (Finish PWrite a (mkResolution v remembered false) []) q s
                   | None => spawn NotPending (s_queue s) s
                   end))
| step_sweep now :
    qstep s (Some (let '(ex, q) := q_sweep now (s_queue s) in spawn (finish_all ex) q s))
| step_onAdded i a p :
    s_threads s !! i = Some (AddNotify a p) ->
    qstep s (Some (let s := set_thread i (AddWait a) s in
                   mkSystem (s_queue s) (s_threads s) (s_added s ++ [p]) (s_events s)))
| step_receive i a e :
    s_threads s !! i = Some (AddWait a) -> q_heap (s_queue s) !! a = Some e -> e_done e = true ->
    qstep s (Some (set_thread i
      (Returned a (rs_verdict (e_result e)) (rs_remembered (e_result e))) s))
| step_write i a r rest :
    s_threads s !! i = Some (Finish PWrite a r rest) ->
    qstep s (Some (on_heap (alter (set_result r) a) (set_thread i (Finish PNotify a r rest) s)))
| step_onResolved i a r rest e :
    s_threads s !! i = Some (Finish PNotify a r rest) -> q_heap (s_queue s) !! a = Some e ->
    qstep s (Some (let s := set_thread i (Finish PClose a r rest) s in
                   mkSystem (s_queue s) (s_threads s) (s_added s)
                     (s_events s ++ [(a, resolved_event e r)])))
| step_close i a r rest e :
    s_threads s !! i = Some (Finish PClose a r rest) -> q_heap (s_queue s) !! a = Some e ->
    e_done e = false ->
    qstep s (Some (on_heap (alter close_done a) (set_thread i (finish_all rest) s)))
| step_close_panic i a r rest e :
    s_threads s !! i = Some (Finish PClose a r rest) -> q_heap (s_queue s) !! a = Some e ->
    e_done e = true -> qstep s None.

Definition start (max ttl : Z) : system := mkSystem (NewQueue max ttl) [] [] [].
