(* ===== verification/BunkerQueueFacts.v ===== *)
(** * What the approval queue guarantees

    Invariants of [src/cli/bunker/queue.go]'s concurrent runs, proved over
    every interleaving: [done] is closed at most once, every goroutine blocked
    on a request gets the one verdict it was decided with, the queue stays
    within its capacity, each decision is reported exactly once and before
    anyone acts on it, and nobody waits for ever. *)
From S2P Require Import Prelude GoTime GoStrings Nostr BunkerPolicy BunkerQueue.
From stdpp Require Import options.

Local Open Scope nat_scope.

(** ** Who finishes which entry *)

Definition tasks_of (t : thread) : list nat :=
  match t with Finish _ a _ rest => a :: rest | _ => [] end.

Definition occ (a : nat) (l : list nat) : nat := length (List.filter (Nat.eqb a) l).

Definition total (a : nat) (ts : list thread) : nat := sum_list (map (fun t => occ a (tasks_of t)) ts).

Lemma total_app a ts us : total a (ts ++ us) = total a ts + total a us.
Proof. unfold total. rewrite map_app. induction (map _ ts); simpl; lia. Qed.

Lemma total_insert a ts i t0 t :
  ts !! i = Some t0 ->
  total a (<[i := t]> ts) + occ a (tasks_of t0) = total a ts + occ a (tasks_of t).
Proof.
  revert i. induction ts as [|u ts IH]; intros [|i]; simpl; [done|done|..].
  - intros [= ->]. unfold total; simpl. lia.
  - intros H. specialize (IH i H). unfold total in *; simpl. lia.
Qed.

Lemma occ_pos a l : 0 < occ a l <-> a ∈ l.
Proof.
  unfold occ. induction l as [|b l IH]; simpl; [split; [lia | by intros ?%not_elem_of_nil]|].
  destruct (Nat.eqb_spec a b) as [->|Hne]; simpl; rewrite elem_of_cons; [intuition lia|].
  rewrite IH. naive_solver.
Qed.

Lemma occ_NoDup a l : NoDup l -> a ∈ l -> occ a l = 1.
Proof.
  induction 1 as [|b l Hni Hnd IH]; [by intros ?%not_elem_of_nil|]. unfold occ in *. simpl.
  intros [->|Hin]%elem_of_cons.
  - rewrite Nat.eqb_refl. simpl. f_equal. destruct (length (List.filter (Nat.eqb b) l)) eqn:E; [done|].
    exfalso. apply Hni, occ_pos. unfold occ. lia.
  - destruct (Nat.eqb_spec a b) as [->|]; [done|]. by apply IH.
Qed.

Lemma total_pos a ts i t : ts !! i = Some t -> occ a (tasks_of t) <= total a ts.
Proof.
  revert i. induction ts as [|u ts IH]; intros [|i]; simpl; [done|done|..]; unfold total in *; simpl.
  - intros [= ->]. lia.
  - intros H. specialize (IH i H). lia.
Qed.

Lemma total_two a ts i j t u :
  ts !! i = Some t -> ts !! j = Some u -> i <> j ->
  occ a (tasks_of t) + occ a (tasks_of u) <= total a ts.
Proof.
  revert i j. induction ts as [|w ts IH]; intros [|i] [|j]; simpl; try done; unfold total in *; simpl.
  - intros [= ->] H _. pose proof (total_pos a ts j u H). unfold total in *. lia.
  - intros H [= ->] _. pose proof (total_pos a ts i t H). unfold total in *. lia.
  - intros Hi Hj Hne. specialize (IH i j Hi Hj ltac:(lia)). lia.
Qed.

(** ** The invariant *)

(** One goroutine has to finish an entry that is decided but not closed. *)
Definition open_task (h : list entry) (a : nat) : nat :=
  match h !! a with Some e => if e_resolved e && negb (e_done e) then 1 else 0 | None => 0 end.

Record queue_inv (s : system) : Prop := {
  qi_tasks a : total a (s_threads s) = open_task (q_heap (s_queue s)) a;
  qi_done a e : q_heap (s_queue s) !! a = Some e -> e_done e = true -> e_resolved e = true;
  qi_map id a : q_byID (s_queue s) !! id = Some a ->
    exists e, q_heap (s_queue s) !! a = Some e /\ p_ID (e_pending e) = id;
  qi_pending a e : q_heap (s_queue s) !! a = Some e -> e_resolved e = false ->
    q_byID (s_queue s) !! p_ID (e_pending e) = Some a;
  qi_cap : (Z.of_nat (pendingCount (s_queue s)) <= q_max (s_queue s))%Z;
  qi_wait i a : s_threads s !! i = Some (AddWait a) -> a < length (q_heap (s_queue s));
  qi_notify i a p : s_threads s !! i = Some (AddNotify a p) -> a < length (q_heap (s_queue s));
  qi_phase i ph a r rest : s_threads s !! i = Some (Finish ph a r rest) -> ph <> PWrite ->
    exists e, q_heap (s_queue s) !! a = Some e /\ e_result e = r;
  qi_returned i a v rem : s_threads s !! i = Some (Returned a v rem) ->
    exists e, q_heap (s_queue s) !! a = Some e /\ e_done e = true /\
      rs_verdict (e_result e) = v /\ rs_remembered (e_result e) = rem;
  qi_events : NoDup (s_events s).*1;
  qi_event a : a ∈ (s_events s).*1 <->
    (exists e, q_heap (s_queue s) !! a = Some e /\ e_done e = true) \/
    (exists i r rest, s_threads s !! i = Some (Finish PClose a r rest));
  qi_content a ev : (a, ev) ∈ s_events s ->
    exists e, q_heap (s_queue s) !! a = Some e /\ ev = resolved_event e (e_result e);
}.

Lemma queue_start max ttl : queue_inv (start max ttl).
Proof.
  constructor; simpl; try done.
  - unfold pendingCount, addrs; simpl. rewrite map_to_list_empty. simpl.
    destruct (Z.leb_spec max 0); unfold DefaultMaxPending; lia.
  - constructor.
  - intros a. split; [by intros ?%not_elem_of_nil|]. intros [(? & ? & _)|(? & ? & ? & ?)]; done.
  - by intros a ev ?%not_elem_of_nil.
Qed.

(** ** Entering an operation *)

Lemma snoc_lookup {A} (l : list A) x i y :
  (l ++ [x]) !! i = Some y -> l !! i = Some y \/ (i = length l /\ y = x).
Proof.
  rewrite lookup_app_Some. intros [H|[Hle H]]; [by left|right].
  destruct (i - length l) as [|n] eqn:E; simpl in H; [|done]. injection H as <-. split; [lia|done].
Qed.

(** A goroutine that has nothing to finish. *)
Lemma spawn_idle s t :
  queue_inv s -> tasks_of t = [] ->
  (forall a, t = AddWait a -> a < length (q_heap (s_queue s))) ->
  (forall a p, t = AddNotify a p -> a < length (q_heap (s_queue s))) ->
  (forall a v r, t <> Returned a v r) ->
  queue_inv (spawn t (s_queue s) s).
Proof.
  intros [] Ht Hw Hn Hr.
  assert (Hlook : forall i u, (s_threads s ++ [t]) !! i = Some u -> s_threads s !! i = Some u \/ u = t)
    by (intros i u [?|[_ ?]]%snoc_lookup; auto).
  constructor; simpl; try done.
  - intros a. rewrite total_app, qi_tasks0. unfold total. simpl. rewrite Ht. unfold occ; simpl. lia.
  - intros i a [?|?]%Hlook; eauto.
  - intros i a p [?|?]%Hlook; eauto.
  - intros i ph a r rest [?|?]%Hlook; [eauto|]. subst t. done.
  - intros i a v r [?|?]%Hlook; [eauto|]. by destruct (Hr a v r).
  - intros a. rewrite qi_event0. split; (intros [?|(i & r & rest & H)]; [by left|right]).
    + exists i, r, rest. by rewrite lookup_app_l by (by eapply lookup_lt_Some).
    + apply Hlook in H as [?|?]; [eauto|]. subst t. done.
Qed.

Lemma filter_length_le {A} (f g : A -> bool) l :
  (forall x, x ∈ l -> f x = true -> g x = true) ->
  length (List.filter f l) <= length (List.filter g l).
Proof.
  induction l as [|x l IH]; simpl; intros H; [done|].
  assert (Hl : length (List.filter f l) <= length (List.filter g l)) by (apply IH; set_solver).
  destruct (f x) eqn:E; [|destruct (g x); simpl; lia].
  rewrite (H x) by (set_solver || done). simpl. lia.
Qed.

Lemma addrs_insert q id a :
  q_byID q !! id = None ->
  (map_to_list (<[id := a]> (q_byID q))).*2 ≡ₚ a :: addrs q.
Proof. intros H. unfold addrs. by rewrite map_to_list_insert. Qed.

Lemma filter_perm {A} (f : A -> bool) l l' :
  l ≡ₚ l' -> length (List.filter f l) = length (List.filter f l').
Proof. induction 1; simpl; repeat (destruct (f _)); simpl; lia. Qed.

Lemma addrs_elem q a : a ∈ addrs q <-> exists id, q_byID q !! id = Some a.
Proof.
  unfold addrs. rewrite list_elem_of_fmap. split.
  - intros ([id b] & -> & H%elem_of_map_to_list). eauto.
  - intros (id & H). exists (id, a). by rewrite elem_of_map_to_list.
Qed.

(** A new entry. *)
Lemma extend_inv s now p q a p' :
  queue_inv s -> q_add now p (s_queue s) = (AddNew a p', q) ->
  queue_inv (mkSystem q (s_threads s) (s_added s) (s_events s)) /\ a < length (q_heap q).
Proof.
  intros [] H. unfold q_add in H. destruct (q_byID (s_queue s) !! p_ID p) eqn:Eid; [done|].
  destruct (q_max (s_queue s) <=? _)%Z eqn:Ec; [done|]. injection H as <- Hp' <-. propify.
  set (pn := set_times _ _ _) in *. clear p' Hp'.
  assert (Hlook : forall b e, (q_heap (s_queue s) ++ [mkEntry pn false no_result false]) !! b = Some e ->
    q_heap (s_queue s) !! b = Some e \/ (b = length (q_heap (s_queue s)) /\ e = mkEntry pn false no_result false))
    by (intros b e; apply snoc_lookup).
  assert (Hkeep : forall b e, q_heap (s_queue s) !! b = Some e ->
    (q_heap (s_queue s) ++ [mkEntry pn false no_result false]) !! b = Some e)
    by (intros b e Hb; by apply lookup_app_l_Some).
  split; [|simpl; rewrite length_app; simpl; lia]. constructor; simpl; try done.
  - intros b. rewrite qi_tasks0. unfold open_task. simpl.
    destruct (q_heap (s_queue s) !! b) as [e|] eqn:Eb; [by rewrite (Hkeep b e Eb)|].
    destruct ((q_heap (s_queue s) ++ [mkEntry pn false no_result false]) !! b) as [e|] eqn:Eb2; [|done].
    apply Hlook in Eb2 as [?|[_ ->]]; [congruence | done].
  - intros b e [?|[_ ->]]%Hlook; [eauto|done].
  - intros id b [[<- <-]|[Hne Hb]]%lookup_insert_Some.
    + eexists. split; [apply list_lookup_middle; done|done].
    + destruct (qi_map0 id b Hb) as (e & He & Hid). eauto.
  - intros b e [He|[-> ->]]%Hlook Hr; simpl; [|by rewrite lookup_insert_eq].
    rewrite lookup_insert_ne; [by apply qi_pending0|].
    intros Heq. specialize (qi_pending0 b e He Hr). rewrite <- Heq in qi_pending0.
    by rewrite Eid in qi_pending0.
  - unfold pendingCount, addrs at 1. simpl. rewrite (filter_perm _ _ _ (addrs_insert _ _ _ Eid)). simpl.
    assert (Hle : length (List.filter (unresolved (mkQueue (<[p_ID p := length (q_heap (s_queue s))]> (q_byID (s_queue s)))
        (q_heap (s_queue s) ++ [mkEntry pn false no_result false]) (q_max (s_queue s)) (q_ttl (s_queue s)))) (addrs (s_queue s)))
      <= pendingCount (s_queue s)).
    { apply filter_length_le. intros b (id & Hb)%addrs_elem. unfold unresolved. simpl.
      destruct (qi_map0 id b Hb) as (e & He & _). by rewrite (Hkeep b e He), He. }
    destruct (unresolved _ _); simpl; lia.
  - intros i b Hb. rewrite length_app. simpl. specialize (qi_wait0 i b Hb). lia.
  - intros i b p0 Hb. rewrite length_app. simpl. specialize (qi_notify0 i b p0 Hb). lia.
  - intros i ph b r rest Hi Hph. destruct (qi_phase0 i ph b r rest Hi Hph) as (e & He & ?). eauto.
  - intros i b v rem Hi. destruct (qi_returned0 i b v rem Hi) as (e & He & ?). eauto.
  - intros b. rewrite qi_event0. split; (intros [(e & He & Hd)|?]; [left|by right]); [by eauto|].
    apply Hlook in He as [?|[_ ->]]; [by eauto | done].
  - intros b ev Hb. destruct (qi_content0 b ev Hb) as (e & He & ->). eauto.
Qed.

(** ** Deciding entries *)

Lemma mark_all_lookup as_ h b :
  mark_all as_ h !! b = if decide (b ∈ as_) then mark_resolved <$> h !! b else h !! b.
Proof.
  induction as_ as [|a as_ IH]; simpl.
  - by destruct (decide (b ∈ [])) as [?%not_elem_of_nil|].
  - destruct (decide (a = b)) as [->|Hne].
    + rewrite list_lookup_alter_eq, IH. rewrite (decide_True (P := b ∈ b :: as_)) by set_solver.
      destruct (decide (b ∈ as_)); [|done]. by destruct (h !! b).
    + rewrite list_lookup_alter_ne, IH by done.
      destruct (decide (b ∈ as_)); [rewrite decide_True by set_solver | rewrite decide_False by set_solver]; done.
Qed.

Lemma mark_all_length as_ h : length (mark_all as_ h) = length h.
Proof. induction as_ as [|a as_ IH]; simpl; [done|]. by rewrite length_alter. Qed.

Lemma filter_submseteq {A} (f : A -> bool) l l' :
  l ⊆+ l' -> length (List.filter f l) <= length (List.filter f l').
Proof.
  intros (k & Hk)%submseteq_Permutation. rewrite (filter_perm f _ _ Hk).
  rewrite List.filter_app, length_app. lia.
Qed.

(** What is marked was pending before. *)
Lemma marked_pending as_ q q' b :
  q_heap q' = mark_all as_ (q_heap q) -> unresolved q' b = true -> unresolved q b = true.
Proof.
  unfold unresolved. intros ->. rewrite mark_all_lookup.
  destruct (decide (b ∈ as_)); [|done]. by destruct (q_heap q !! b).
Qed.

(** Each marked entry is a task more. *)
Lemma mark_tasks s as_ b :
  queue_inv s -> NoDup as_ -> (forall a, a ∈ as_ -> unresolved (s_queue s) a = true) ->
  open_task (mark_all as_ (q_heap (s_queue s))) b = open_task (q_heap (s_queue s)) b + occ b as_.
Proof.
  intros Hinv Hnd Hun. unfold open_task. rewrite mark_all_lookup. destruct (decide (b ∈ as_)) as [Hb|Hb].
  - specialize (Hun b Hb). unfold unresolved in Hun.
    destruct (q_heap (s_queue s) !! b) as [e|] eqn:Eb; [|done]. propify. simpl. rewrite Hun. simpl.
    destruct (e_done e) eqn:Ed; [by rewrite (qi_done s Hinv b e Eb Ed) in Hun|]. simpl.
    by rewrite (occ_NoDup b as_ Hnd Hb).
  - pose proof (occ_pos b as_) as Hocc. destruct (occ b as_); [by rewrite Nat.add_0_r|].
    exfalso. apply Hb, Hocc. lia.
Qed.

(** Deciding distinct pending entries, with one goroutine left to finish
    them. *)
Lemma mark_inv s as_ byID' t :
  queue_inv s -> NoDup as_ ->
  (forall a, a ∈ as_ -> unresolved (s_queue s) a = true) ->
  tasks_of t = as_ -> (forall ph a r rest, t = Finish ph a r rest -> ph = PWrite) ->
  (as_ = [] -> t = Finished) ->
  byID' ⊆ q_byID (s_queue s) ->
  (forall id a, q_byID (s_queue s) !! id = Some a -> unresolved (s_queue s) a = true ->
     byID' !! id = Some a) ->
  let q := mkQueue byID' (mark_all as_ (q_heap (s_queue s))) (q_max (s_queue s)) (q_ttl (s_queue s)) in
  queue_inv (spawn t q s).
Proof.
  intros Hinv Hnd Hun Ht Hph Hnil Hsub Hkeep q.
  pose proof (fun b => mark_tasks s as_ b Hinv Hnd Hun) as Htasks. destruct Hinv.
  assert (Hlook : forall b e, q_heap q !! b = Some e -> exists e0, q_heap (s_queue s) !! b = Some e0 /\
    e_pending e = e_pending e0 /\ e_done e = e_done e0 /\ e_result e = e_result e0 /\
    (e_resolved e = false -> e_resolved e0 = false) /\ (e_resolved e0 = true -> e = e0)).
  { intros b e. simpl. rewrite mark_all_lookup. destruct (decide (b ∈ as_)) as [Hb|]; [|naive_solver].
    intros (e0 & He0 & ->)%fmap_Some_1. exists e0. simpl. split_and!; try done.
    specialize (Hun b Hb). unfold unresolved in Hun. rewrite He0 in Hun. propify. congruence. }
  assert (Hfwd : forall b e0, q_heap (s_queue s) !! b = Some e0 -> exists e, q_heap q !! b = Some e /\
    e_pending e = e_pending e0 /\ e_done e = e_done e0 /\ e_result e = e_result e0).
  { intros b e0 He0. simpl. rewrite mark_all_lookup, He0. destruct (decide _); eexists; (split; [done|done]). }
  assert (Htl : forall i u, (s_threads s ++ [t]) !! i = Some u -> s_threads s !! i = Some u \/ u = t)
    by (intros i u [?|[_ ?]]%snoc_lookup; auto).
  assert (Ht' : match t with Finish _ _ _ _ | Finished => True | _ => False end).
  { destruct as_; [by rewrite Hnil|]. by destruct t. }
  constructor; unfold spawn; cbn [s_queue s_threads s_added s_events]; try done.
  - intros b. rewrite total_app. unfold total at 2. simpl. by rewrite Ht, Nat.add_0_r, qi_tasks0, Htasks.
  - intros b e (e0 & He0 & _ & Hd & _ & _ & Hr)%Hlook Hdone. rewrite Hd in Hdone.
    rewrite (Hr (qi_done0 b e0 He0 Hdone)). eauto.
  - intros id b Hb. eapply lookup_weaken in Hb; [|exact Hsub].
    destruct (qi_map0 id b Hb) as (e0 & He0 & Hid). destruct (Hfwd b e0 He0) as (e & He & Hp & _).
    exists e. by rewrite Hp.
  - intros b e (e0 & He0 & Hp & _ & _ & Hr & _)%Hlook Hres. rewrite Hp. specialize (Hr Hres).
    apply Hkeep; [by apply qi_pending0|]. unfold unresolved. rewrite He0. by rewrite Hr.
  - assert (Hle : pendingCount q <= pendingCount (s_queue s)); [|simpl; lia]. unfold pendingCount.
    eapply Nat.le_trans; [apply filter_submseteq|].
    { unfold addrs. apply fmap_submseteq, map_to_list_submseteq. exact Hsub. }
    apply filter_length_le. intros b _. by apply (marked_pending as_).
  - intros i b Hb. simpl. rewrite mark_all_length. apply Htl in Hb as [?|?]; [eauto|]. by subst t.
  - intros i b p Hb. simpl. rewrite mark_all_length. apply Htl in Hb as [?|?]; [eauto|]. by subst t.
  - intros i ph b r rest Hb Hne. apply Htl in Hb as [Hb|Hb]; [|by destruct Hne; eapply Hph].
    destruct (qi_phase0 i ph b r rest Hb Hne) as (e0 & He0 & Hr).
    destruct (Hfwd b e0 He0) as (e & He & _ & _ & Hr'). exists e. by rewrite Hr'.
  - intros i b v rem Hb. apply Htl in Hb as [Hb|Hb]; [|by subst t].
    destruct (qi_returned0 i b v rem Hb) as (e0 & He0 & Hd & Hv & Hm).
    destruct (Hfwd b e0 He0) as (e & He & _ & Hd' & Hr'). exists e. by rewrite Hd', Hr'.
  - intros b. rewrite qi_event0. split; (intros [(e & He & Hd)|(i & r & rest & Hi)]; [left|right]).
    + destruct (Hfwd b e He) as (e' & He' & _ & Hd' & _). exists e'. by rewrite Hd'.
    + exists i, r, rest. by rewrite lookup_app_l by (by eapply lookup_lt_Some).
    + apply Hlook in He as (e0 & He0 & _ & Hd' & _). exists e0. by rewrite <- Hd'.
    + apply Htl in Hi as [?|Hi]; [eauto|]. by specialize (Hph _ _ _ _ (eq_sym Hi)).
  - intros b ev Hb. destruct (qi_content0 b ev Hb) as (e0 & He0 & ->).
    destruct (Hfwd b e0 He0) as (e & He & Hp & _ & Hr). exists e. split; [done|].
    unfold resolved_event. by rewrite Hp, Hr.
Qed.

(** ** Going on *)

Lemma insert_thread (ts : list thread) i t j u :
  <[i := t]> ts !! j = Some u -> (j = i /\ u = t) \/ (j <> i /\ ts !! j = Some u).
Proof. rewrite list_lookup_insert_Some. naive_solver. Qed.

Lemma insert_thread_ne (ts : list thread) i t j u :
  ts !! j = Some u -> j <> i -> <[i := t]> ts !! j = Some u.
Proof. intros H Hne. by rewrite list_lookup_insert_ne. Qed.

(** A goroutine that has nothing to finish before and after its step. *)
Lemma idle_step s i t0 t added :
  queue_inv s -> s_threads s !! i = Some t0 -> tasks_of t0 = [] -> tasks_of t = [] ->
  (forall a, t = AddWait a -> a < length (q_heap (s_queue s))) ->
  (forall a p, t <> AddNotify a p) ->
  (forall a v rem, t = Returned a v rem -> exists e, q_heap (s_queue s) !! a = Some e /\
     e_done e = true /\ rs_verdict (e_result e) = v /\ rs_remembered (e_result e) = rem) ->
  queue_inv (mkSystem (s_queue s) (<[i := t]> (s_threads s)) added (s_events s)).
Proof.
  intros [] Hi Ht0 Ht Hw Hn Hr. constructor; simpl; try done.
  - intros a. pose proof (total_insert a (s_threads s) i t0 t Hi) as H. rewrite Ht0, Ht in H.
    rewrite <- qi_tasks0. unfold occ in H; simpl in H. lia.
  - intros j a [[-> <-]|[_ ?]]%insert_thread; eauto.
  - intros j a p [[-> <-]|[_ ?]]%insert_thread; [by destruct (Hn a p)|eauto].
  - intros j ph a r rest [[-> <-]|[_ ?]]%insert_thread; [done|eauto].
  - intros j a v rem [[-> <-]|[_ ?]]%insert_thread; eauto.
  - intros a. rewrite qi_event0. split; (intros [?|(j & r & rest & H)]; [by left|right]).
    + exists j, r, rest. apply insert_thread_ne; [done|]. intros ->. rewrite Hi in H. by simplify_eq.
    + apply insert_thread in H as [[-> <-]|[_ ?]]; [done|eauto].
Qed.

(** The entry a goroutine is finishing is decided and not closed, and nobody
    else is finishing it. *)
Lemma finishing s i ph a r rest :
  queue_inv s -> s_threads s !! i = Some (Finish ph a r rest) ->
  (exists e, q_heap (s_queue s) !! a = Some e /\ e_resolved e = true /\ e_done e = false) /\
  (forall j ph' a' r' rest', s_threads s !! j = Some (Finish ph' a' r' rest') ->
     a ∈ a' :: rest' -> j = i) /\
  a ∉ rest.
Proof.
  intros [] Hi. pose proof (total_pos a (s_threads s) i _ Hi) as Hp. rewrite qi_tasks0 in Hp.
  assert (H1 : 0 < occ a (tasks_of (Finish ph a r rest))) by (apply occ_pos; simpl; set_solver).
  assert (Hle : open_task (q_heap (s_queue s)) a <= 1)
    by (unfold open_task; destruct (_ !! a) as [e|]; [destruct (_ && _)|]; lia).
  split_and!.
  - unfold open_task in Hp. destruct (q_heap (s_queue s) !! a) as [e|]; [|lia].
    destruct (e_resolved e && negb (e_done e)) eqn:E; [|lia]. propify. eauto.
  - intros j ph' a' r' rest' Hj Hin. destruct (decide (j = i)) as [|Hne]; [done|exfalso].
    pose proof (total_two a (s_threads s) j i _ _ Hj Hi Hne) as H2. rewrite qi_tasks0 in H2.
    assert (0 < occ a (tasks_of (Finish ph' a' r' rest'))) by (by apply occ_pos). lia.
  - intros Hin. simpl in Hp. unfold occ in Hp. simpl in Hp. rewrite Nat.eqb_refl in Hp. simpl in Hp.
    assert (0 < occ a rest) by (by apply occ_pos). unfold occ in *. lia.
Qed.

(** An update of one entry, read backwards and forwards. *)
Lemma alter_back (f : entry -> entry) (a : nat) (h : list entry) b e : alter f a h !! b = Some e ->
  exists e1, h !! b = Some e1 /\ e = if decide (b = a) then f e1 else e1.
Proof.
  destruct (decide (b = a)) as [->|Hne].
  - rewrite list_lookup_alter_eq. by intros (e1 & ? & ->)%fmap_Some_1; eauto.
  - rewrite list_lookup_alter_ne by done. eauto.
Qed.

Lemma alter_forth (f : entry -> entry) (a : nat) (h : list entry) b e1 : h !! b = Some e1 ->
  alter f a h !! b = Some (if decide (b = a) then f e1 else e1).
Proof.
  intros H. destruct (decide (b = a)) as [->|Hne];
    [by rewrite list_lookup_alter_eq, H | by rewrite list_lookup_alter_ne].
Qed.

(** An update that leaves the request and whether it is decided alone keeps
    the map and the capacity as they are. *)
Lemma alter_map s f a :
  (forall e, e_pending (f e) = e_pending e /\ e_resolved (f e) = e_resolved e) -> queue_inv s ->
  let q := set_heap (alter f a (q_heap (s_queue s))) (s_queue s) in
  (forall id b, q_byID q !! id = Some b -> exists e, q_heap q !! b = Some e /\ p_ID (e_pending e) = id) /\
  (forall b e, q_heap q !! b = Some e -> e_resolved e = false -> q_byID q !! p_ID (e_pending e) = Some b) /\
  (Z.of_nat (pendingCount q) <= q_max q)%Z.
Proof.
  intros Hf [_ _ Hmap Hpend Hcap _ _ _ _ _ _ _] q. split_and!; simpl.
  - intros id b Hb. destruct (Hmap id b Hb) as (e1 & He1 & Hid). rewrite (alter_forth f a _ b e1 He1).
    eexists. split; [done|]. destruct (decide (b = a)); [by rewrite (proj1 (Hf e1)) | done].
  - intros b e (e1 & He1 & ->)%alter_back. destruct (Hf e1) as [Hp Hr].
    destruct (decide (b = a)); rewrite ?Hp, ?Hr; eauto.
  - eapply Z.le_trans; [|exact Hcap]. apply Nat2Z.inj_le. apply filter_length_le.
    intros b _. unfold unresolved. simpl. destruct (alter f a _ !! b) as [e|] eqn:E; [|done].
    apply alter_back in E as (e1 & -> & ->). destruct (decide (b = a)); [by rewrite (proj2 (Hf e1)) | done].
Qed.

(** Writing the result. *)
Lemma write_inv s i a r rest :
  queue_inv s -> s_threads s !! i = Some (Finish PWrite a r rest) ->
  queue_inv (on_heap (alter (set_result r) a) (set_thread i (Finish PNotify a r rest) s)).
Proof.
  intros Hinv Hi. destruct (finishing s i PWrite a r rest Hinv Hi) as ((e0 & He0 & Hr0 & Hd0) & Huniq & _).
  destruct (alter_map s (set_result r) a ltac:(done) Hinv) as (Hmap & Hpend & Hcap). destruct Hinv.
  assert (Hlook : forall b e, alter (set_result r) a (q_heap (s_queue s)) !! b = Some e ->
    exists e1, q_heap (s_queue s) !! b = Some e1 /\ e_pending e = e_pending e1 /\
      e_done e = e_done e1 /\ e_resolved e = e_resolved e1 /\
      (b <> a -> e = e1) /\ (b = a -> e_result e = r)).
  { intros b e (e1 & He1 & ->)%alter_back. exists e1. destruct (decide (b = a)); by split_and!. }
  assert (Hfwd : forall b e1, q_heap (s_queue s) !! b = Some e1 ->
    exists e, alter (set_result r) a (q_heap (s_queue s)) !! b = Some e /\ e_pending e = e_pending e1 /\
      e_done e = e_done e1 /\ e_resolved e = e_resolved e1 /\ (b <> a -> e = e1) /\
      (b = a -> e_result e = r)).
  { intros b e1 He1. rewrite (alter_forth _ a _ b e1 He1). eexists. split; [done|].
    destruct (decide (b = a)); by split_and!. }
  constructor; simpl; try done.
  - intros b. pose proof (total_insert b (s_threads s) i _ (Finish PNotify a r rest) Hi) as H.
    simpl in H. transitivity (open_task (q_heap (s_queue s)) b); [rewrite <- qi_tasks0; lia|].
    unfold open_task. destruct (q_heap (s_queue s) !! b) as [e1|] eqn:E1.
    + destruct (Hfwd b e1 E1) as (e & He & _ & Hd & Hr & _). by rewrite He, Hd, Hr.
    + destruct (alter _ _ _ !! b) as [e|] eqn:E2; [|done].
      destruct (Hlook b e E2) as (e1 & ? & _). congruence.
  - intros b e (e1 & He1 & _ & Hd & Hr & _)%Hlook. rewrite Hd, Hr. eauto.
  - intros j b [[-> ?]|[_ ?]]%insert_thread; [done|]. rewrite length_alter. eauto.
  - intros j b p [[-> ?]|[_ ?]]%insert_thread; [done|]. rewrite length_alter. eauto.
  - intros j ph b r' rest' [[-> [= -> -> -> ->]]|[Hne Hj]]%insert_thread Hph.
    + destruct (Hfwd a e0 He0) as (e & He & _ & _ & _ & _ & Hres). eauto.
    + destruct (qi_phase0 j ph b r' rest' Hj Hph) as (e1 & He1 & Hr1).
      destruct (Hfwd b e1 He1) as (e & He & _ & _ & _ & Heq & _). exists e. split; [done|]. rewrite Heq; [done|].
      intros ->. apply Hne. eapply Huniq; [exact Hj|]. left.
  - intros j b v rem [[-> ?]|[_ Hj]]%insert_thread; [done|].
    destruct (qi_returned0 j b v rem Hj) as (e1 & He1 & Hd & ?).
    destruct (Hfwd b e1 He1) as (e & He & _ & _ & _ & Heq & _). exists e. split; [done|]. rewrite Heq; [done|].
    intros ->. congruence.
  - intros b. rewrite qi_event0. split; (intros [(e & He & Hd)|(j & r' & rest' & Hj)]; [left|right]).
    + destruct (Hfwd b e He) as (e' & He' & _ & Hd' & _). exists e'. by rewrite Hd'.
    + exists j, r', rest'. apply insert_thread_ne; [done|]. intros ->. rewrite Hi in Hj. done.
    + destruct (Hlook b e He) as (e1 & He1 & _ & Hd' & _). exists e1. by rewrite <- Hd'.
    + apply insert_thread in Hj as [[-> ?]|[_ ?]]; [done|eauto].
  - intros b ev Hb. destruct (qi_content0 b ev Hb) as (e1 & He1 & ->).
    destruct (Hfwd b e1 He1) as (e & He & _ & _ & _ & Heq & _). exists e. split; [done|].
    rewrite Heq; [done|]. intros ->. apply list_elem_of_fmap_2 with (f := fst), qi_event0 in Hb.
    simpl in Hb. destruct Hb as [(e2 & He2 & Hd2)|(j & r' & rest' & Hj)]; [congruence|].
    assert (j = i) as -> by (eapply Huniq; [exact Hj | left]). rewrite Hi in Hj. discriminate Hj.
Qed.

(** Reporting the decision. *)
Lemma notify_inv s i a r rest e :
  queue_inv s -> s_threads s !! i = Some (Finish PNotify a r rest) ->
  q_heap (s_queue s) !! a = Some e ->
  queue_inv (mkSystem (s_queue s) (<[i := Finish PClose a r rest]> (s_threads s)) (s_added s)
               (s_events s ++ [(a, resolved_event e r)])).
Proof.
  intros Hinv Hi He. destruct (finishing s i PNotify a r rest Hinv Hi) as ((e0 & He0 & Hr0 & Hd0) & Huniq & _).
  rewrite He in He0. injection He0 as <-. destruct Hinv.
  assert (Hnot : a ∉ (s_events s).*1).
  { rewrite qi_event0. intros [(e1 & He1 & Hd1)|(j & r' & rest' & Hj)]; [congruence|].
    assert (j = i) as -> by (eapply Huniq; [exact Hj | left]). rewrite Hi in Hj. discriminate Hj. }
  constructor; simpl; try done.
  - intros b. pose proof (total_insert b (s_threads s) i _ (Finish PClose a r rest) Hi) as H.
    simpl in H. rewrite <- qi_tasks0. lia.
  - intros j b [[-> ?]|[_ ?]]%insert_thread; [done|eauto].
  - intros j b p [[-> ?]|[_ ?]]%insert_thread; [done|eauto].
  - intros j ph b r' rest' [[-> [= -> -> -> ->]]|[_ Hj]]%insert_thread Hph; [|eauto].
    by apply (qi_phase0 i PNotify a r rest Hi).
  - intros j b v rem [[-> ?]|[_ ?]]%insert_thread; [done|eauto].
  - rewrite fmap_app. apply NoDup_app. split_and!; [done | | apply NoDup_singleton].
    intros b Hb ->%list_elem_of_singleton. done.
  - intros b. rewrite fmap_app, elem_of_app. change ([(a, resolved_event e r)].*1) with [a].
    rewrite list_elem_of_singleton, qi_event0. split.
    + intros [[?|(j & r' & rest' & Hj)]| ->]; [by left| |].
      * right. exists j, r', rest'. apply insert_thread_ne; [done|]. intros ->. rewrite Hi in Hj. discriminate Hj.
      * right. exists i, r, rest. apply list_lookup_insert_eq. by eapply lookup_lt_Some.
    + intros [?|(j & r' & rest' & [[-> [= -> -> ->]]|[_ Hj]]%insert_thread)]; [by left; left | by right |].
      left. right. eauto.
  - intros b ev [Hb|[= -> ->]%list_elem_of_singleton]%elem_of_app; [by apply qi_content0|].
    destruct (qi_phase0 i PNotify a r rest Hi) as (e1 & He1 & Hr1); [done|].
    rewrite He in He1. injection He1 as <-. exists e. by rewrite Hr1.
Qed.

(** What a goroutine has left after it closed an entry. *)
Lemma tasks_finish_all l : tasks_of (finish_all l) = l.
Proof. by destruct l. Qed.

Lemma finish_all_thread l : match finish_all l with Finish ph _ _ _ => ph = PWrite | Finished => True | _ => False end.
Proof. by destruct l. Qed.

(** Closing [done]. *)
Lemma close_inv s i a r rest :
  queue_inv s -> s_threads s !! i = Some (Finish PClose a r rest) ->
  queue_inv (on_heap (alter close_done a) (set_thread i (finish_all rest) s)).
Proof.
  intros Hinv Hi. destruct (finishing s i PClose a r rest Hinv Hi) as ((e0 & He0 & Hr0 & Hd0) & Huniq & Hrest).
  pose proof (finish_all_thread rest) as Hft.
  destruct (alter_map s close_done a ltac:(done) Hinv) as (Hmap & Hpend & Hcap). destruct Hinv.
  assert (Hlook : forall b e, alter close_done a (q_heap (s_queue s)) !! b = Some e ->
    exists e1, q_heap (s_queue s) !! b = Some e1 /\ e_pending e = e_pending e1 /\
      e_result e = e_result e1 /\ e_resolved e = e_resolved e1 /\
      (b <> a -> e = e1) /\ (b = a -> e_done e = true)).
  { intros b e (e1 & He1 & ->)%alter_back. exists e1. destruct (decide (b = a)); by split_and!. }
  assert (Hfwd : forall b e1, q_heap (s_queue s) !! b = Some e1 ->
    exists e, alter close_done a (q_heap (s_queue s)) !! b = Some e /\ e_pending e = e_pending e1 /\
      e_result e = e_result e1 /\ e_resolved e = e_resolved e1 /\
      (e_done e1 = true \/ b = a -> e_done e = true) /\ (e_done e = true -> e_done e1 = true \/ b = a)).
  { intros b e1 He1. rewrite (alter_forth _ a _ b e1 He1). eexists. split; [done|].
    destruct (decide (b = a)); split_and!; try done; auto. naive_solver. }
  assert (Hthread : forall j u, <[i := finish_all rest]> (s_threads s) !! j = Some u ->
    match u with Finish ph _ _ _ => ph = PWrite \/ s_threads s !! j = Some u
    | Finished => True | _ => s_threads s !! j = Some u end).
  { intros j u [[-> ->]|[_ Hj]]%insert_thread; [|by destruct u; auto].
    destruct (finish_all rest); try done. by left. }
  constructor; simpl; try done.
  - intros b. pose proof (total_insert b (s_threads s) i _ (finish_all rest) Hi) as H.
    rewrite tasks_finish_all, qi_tasks0 in H. simpl in H. unfold occ in H. simpl in H.
    unfold open_task in *. destruct (Nat.eqb_spec b a) as [Hba|Hne]; [subst b|].
    + rewrite list_lookup_alter_eq, He0. rewrite He0, Hr0, Hd0 in H. simpl in *.
      rewrite Hr0. simpl. lia.
    + rewrite list_lookup_alter_ne by done. lia.
  - intros b e (e1 & He1 & _ & _ & Hr & Heq & _)%Hlook Hd. rewrite Hr.
    destruct (decide (b = a)) as [->|Hne]; [congruence|]. rewrite (Heq Hne) in Hd. eauto.
  - intros j b Hj. rewrite length_alter. apply (qi_wait0 j), (Hthread j _ Hj).
  - intros j b p Hj. rewrite length_alter. apply (qi_notify0 j b p), (Hthread j _ Hj).
  - intros j ph b r' rest' Hj Hph. destruct (Hthread j _ Hj) as [?|Hj']; [done|].
    destruct (qi_phase0 j ph b r' rest' Hj' Hph) as (e1 & He1 & Hr1).
    destruct (Hfwd b e1 He1) as (e & He & _ & Hres & _). exists e. by rewrite Hres.
  - intros j b v rem Hj. apply Hthread in Hj. destruct (qi_returned0 j b v rem Hj) as (e1 & He1 & Hd & ?).
    destruct (Hfwd b e1 He1) as (e & He & _ & Hres & _ & Hdone & _). exists e. rewrite Hres. eauto.
  - intros b. rewrite qi_event0. split.
    + intros [(e & He & Hd)|(j & r' & rest' & Hj)].
      * destruct (Hfwd b e He) as (e' & He' & _ & _ & _ & Hd' & _). left. eauto.
      * destruct (decide (j = i)) as [->|Hne].
        { rewrite Hi in Hj. injection Hj as -> -> ->.
          destruct (Hfwd b e0 He0) as (e' & He' & _ & _ & _ & Hd' & _). left. eauto. }
        right. exists j, r', rest'. by apply insert_thread_ne.
    + intros [(e & He & Hd)|(j & r' & rest' & Hj)].
      * destruct (Hlook b e He) as (e1 & He1 & _). destruct (Hfwd b e1 He1) as (e' & He' & _ & _ & _ & _ & Hd').
        rewrite He in He'. injection He' as <-. destruct (Hd' Hd) as [?| ->]; [left; eauto|right].
        exists i, r, rest. done.
      * destruct (Hthread j _ Hj) as [?|Hj']; [done|]. right. eauto.
  - intros b ev Hb. destruct (qi_content0 b ev Hb) as (e1 & He1 & ->).
    destruct (Hfwd b e1 He1) as (e & He & Hp & Hr & _). exists e. split; [done|].
    unfold resolved_event. by rewrite Hp, Hr.
Qed.

(** ** Every step *)

Lemma sweep_expired_NoDup s now : queue_inv s -> NoDup (sweep_expired now (s_queue s)).
Proof.
  intros []. unfold sweep_expired.
  apply NoDup_ListNoDup, List.NoDup_filter, NoDup_ListNoDup. unfold addrs. apply NoDup_fmap_2_strong; [|apply NoDup_map_to_list].
  intros [id a] [id' a'] H1%elem_of_map_to_list H2%elem_of_map_to_list Heq. simpl in Heq. subst a'.
  destruct (qi_map0 id a H1) as (e & He & Hid). destruct (qi_map0 id' a H2) as (e' & He' & Hid').
  congruence.
Qed.

Lemma sweep_expired_elem s now a :
  a ∈ sweep_expired now (s_queue s) <->
  a ∈ addrs (s_queue s) /\ exists e, q_heap (s_queue s) !! a = Some e /\ entry_expired now e = true.
Proof.
  unfold sweep_expired. rewrite list_elem_of_In, filter_In, <- list_elem_of_In.
  destruct (q_heap (s_queue s) !! a) as [e|]; [|naive_solver]. naive_solver.
Qed.

Lemma entry_expired_pending now e : entry_expired now e = true -> e_resolved e = false.
Proof. unfold entry_expired. intros H. by propify. Qed.

Lemma sweep_inv s now :
  queue_inv s ->
  queue_inv (spawn (finish_all (sweep_expired now (s_queue s))) (q_sweep now (s_queue s)).2 s).
Proof.
  intros Hinv. apply (mark_inv s (sweep_expired now (s_queue s))); [done|..].
  - by apply sweep_expired_NoDup.
  - intros a (_ & e & He & Hx)%sweep_expired_elem. unfold unresolved. rewrite He.
    by rewrite (entry_expired_pending now e Hx).
  - apply tasks_finish_all.
  - intros ph a r rest H. pose proof (finish_all_thread (sweep_expired now (s_queue s))) as Hf.
    by rewrite H in Hf.
  - by intros ->.
  - apply map_filter_subseteq.
  - intros id a Hid Hun. by apply map_lookup_filter_Some.
Qed.

Lemma alter_insert {A} (f : A -> A) (l : list A) a x :
  l !! a = Some x -> alter f a l = <[a := f x]> l.
Proof.
  revert a. induction l as [|y l IH]; intros [|a]; simpl; [done|done|by intros [= ->]|].
  intros H. unfold alter in *. simpl. f_equal. by apply IH.
Qed.

Lemma resolve_inv s id a q r :
  queue_inv s -> q_resolve id (s_queue s) = Some (a, q) -> queue_inv (spawn (Finish PWrite a r []) q s).
Proof.
  intros Hinv H. unfold q_resolve in H. apply bind_Some in H as (b & Hb & H).
  apply bind_Some in H as (e & He & H). destruct (e_resolved e) eqn:Er; [done|]. injection H as -> <-.
  replace (set_heap _ _) with
    (mkQueue (q_byID (s_queue s)) (mark_all [a] (q_heap (s_queue s))) (q_max (s_queue s)) (q_ttl (s_queue s))).
  2: { unfold set_heap. f_equal. simpl. by apply alter_insert. }
  apply mark_inv; [done | apply NoDup_singleton | | done | by intros ? ? ? ? [= <-] | done | done | done].
  intros a' ->%list_elem_of_singleton. unfold unresolved. by rewrite He, Er.
Qed.

Lemma add_inv s now p :
  queue_inv s ->
  queue_inv (let '(r, q) := q_add now p (s_queue s) in
             spawn (match r with AddExisting a => AddWait a | AddFull => RefusedFull
                    | AddNew a p => AddNotify a p end) q s).
Proof.
  intros Hinv. destruct (q_add now p (s_queue s)) as [[a| |a p'] q] eqn:E.
  - assert (Hq : q = s_queue s /\ q_byID (s_queue s) !! p_ID p = Some a)
      by (unfold q_add in E; repeat case_match; simplify_eq; done).
    destruct Hq as [-> Hid]. apply spawn_idle; try done. intros b [= <-].
    destruct (qi_map s Hinv _ _ Hid) as (e & He & _). by eapply lookup_lt_Some.
  - assert (q = s_queue s) as -> by (unfold q_add in E; repeat case_match; simplify_eq; done).
    by apply spawn_idle.
  - destruct (extend_inv s now p q a p' Hinv E) as [Hinv' Hlt].
    apply (spawn_idle _ (AddNotify a p')) in Hinv'; try done. by intros ? ? [= <- <-].
Qed.

Lemma step_keeps s s' : queue_inv s -> qstep s (Some s') -> queue_inv s'.
Proof.
  intros Hinv H. inversion H; subst; clear H.
  - by apply add_inv.
  - destruct (q_resolve id (s_queue s)) as [[a q]|] eqn:E; [by eapply resolve_inv | by apply spawn_idle].
  - by apply sweep_inv.
  - eapply (idle_step s i (AddNotify a p)); try done. intros b [= <-]. by eapply (qi_notify s Hinv).
  - eapply (idle_step s i (AddWait a)); try done. intros b v rem [= <- <- <-]. eauto.
  - by apply write_inv.
  - by apply notify_inv.
  - by apply (close_inv s i a r).
Qed.

Definition qsteps : relation system := rtc (fun s s' => qstep s (Some s')).

Lemma steps_keep s s' : queue_inv s -> qsteps s s' -> queue_inv s'.
Proof. intros Hinv H. induction H; [done|]. eauto using step_keeps. Qed.

Lemma queue_reachable max ttl s : qsteps (start max ttl) s -> queue_inv s.
Proof. apply steps_keep, queue_start. Qed.

Lemma q_List_length q : length (q_List q) = pendingCount q.
Proof.
  unfold q_List, pendingCount. induction (addrs q) as [|a l IH]; simpl; [done|].
  unfold unresolved. destruct (q_heap q !! a) as [e|]; simpl; [|exact IH].
  destruct (e_resolved e); simpl; [exact IH | f_equal; exact IH].
Qed.

(** ** Nobody waits for ever *)

Lemma qstep_once s s' : qstep s (Some s') -> qsteps s s'.
Proof. intros H. by apply rtc_once. Qed.

(** Some goroutine has the entry among its tasks. *)
Lemma task_owner a ts : 0 < total a ts ->
  exists i ph b r rest, ts !! i = Some (Finish ph b r rest) /\ a ∈ b :: rest.
Proof.
  induction ts as [|t ts IH]; unfold total; simpl; [lia|]. intros H.
  destruct (occ a (tasks_of t)) eqn:E.
  - destruct (IH H) as (i & ph & b & r & rest & Hi & Hin). by exists (S i), ph, b, r, rest.
  - assert (Hin : a ∈ tasks_of t) by (apply occ_pos; lia).
    destruct t; simpl in Hin; try by apply not_elem_of_nil in Hin.
    by exists 0, ph, a0, r, rest.
Qed.

(** One pass of the sweep over the queue. *)
Definition sweep (now : Z) (s : system) : system :=
  spawn (finish_all (sweep_expired now (s_queue s))) (q_sweep now (s_queue s)).2 s.

Lemma sweep_steps now s : qsteps s (sweep now s).
Proof. apply qstep_once. apply (step_sweep s now). Qed.

(** A step of a goroutine that is inside an operation: calls, decisions and
    sweeps start one more. *)
Definition goes_on (s s' : system) : Prop :=
  qstep s (Some s') /\ length (s_threads s') = length (s_threads s).

(** The steps a goroutine has to go. *)
Definition thread_work (t : thread) : nat :=
  match t with
  | AddNotify _ _ => 2
  | AddWait _ => 1
  | Finish ph _ _ rest => (match ph with PWrite => 3 | PNotify => 2 | PClose => 1 end) + 3 * length rest
  | _ => 0
  end.

Definition work (s : system) : nat := sum_list (map thread_work (s_threads s)).

Lemma work_insert ts i t0 t :
  ts !! i = Some t0 -> sum_list (map thread_work (<[i := t]> ts)) + thread_work t0 = sum_list (map thread_work ts) + thread_work t.
Proof.
  revert i. induction ts as [|u ts IH]; intros [|i]; simpl; [done|done|..].
  - intros [= ->]. lia.
  - intros H. specialize (IH i H). lia.
Qed.

Lemma goes_on_work s s' : goes_on s s' -> work s' < work s.
Proof.
  intros [H Hlen]. inversion H; subst; clear H; unfold work; simpl in *.
  - destruct (q_add now p (s_queue s)) as [[]]; simpl in Hlen; rewrite length_app in Hlen; simpl in Hlen; lia.
  - destruct (q_resolve id (s_queue s)) as [[]|]; simpl in Hlen; rewrite length_app in Hlen; simpl in Hlen; lia.
  - rewrite length_app in Hlen. simpl in Hlen. lia.
  - pose proof (work_insert _ _ _ (AddWait a) H1) as Hw. simpl in Hw. lia.
  - match goal with |- context [<[_ := ?t]> _] => pose proof (work_insert _ _ _ t H1) as Hw end. simpl in Hw. lia.
  - match goal with |- context [<[_ := ?t]> _] => pose proof (work_insert _ _ _ t H1) as Hw end. simpl in Hw. lia.
  - match goal with |- context [<[_ := ?t]> _] => pose proof (work_insert _ _ _ t H1) as Hw end. simpl in Hw. lia.
  - match goal with |- context [<[_ := ?t]> _] => pose proof (work_insert _ _ _ t H1) as Hw end. destruct rest; simpl in *; lia.
Qed.

(** An entry that is decided, and one that is denied: every goroutine that has it
    in hand writes that result. *)
Definition decided (a : nat) (s : system) : Prop :=
  exists e, q_heap (s_queue s) !! a = Some e /\ e_resolved e = true.

Definition denied (a : nat) (s : system) : Prop :=
  (forall e, q_heap (s_queue s) !! a = Some e -> e_done e = true -> e_result e = expired_resolution) /\
  (forall j ph r rest, s_threads s !! j = Some (Finish ph a r rest) -> r = expired_resolution).

Lemma decided_step s s' a : qstep s (Some s') -> decided a s -> decided a s'.
Proof.
  intros H (e & He & Hr). unfold decided. inversion H; subst; clear H; simpl; eauto.
  - unfold q_add. repeat case_match; simplify_eq; simpl; eauto. eexists. by rewrite (lookup_app_l_Some _ _ _ _ He).
  - destruct (q_resolve id (s_queue s)) as [[b q]|] eqn:E; [|by eauto]. simpl.
    unfold q_resolve in E. apply bind_Some in E as (c & Hc & E). apply bind_Some in E as (e' & He' & E).
    destruct (e_resolved e') eqn:Er; [done|]. injection E as -> <-. simpl.
    rewrite list_lookup_insert_ne by congruence. eauto.
  - rewrite mark_all_lookup, He. destruct (decide _); eexists; (split; [done|done]).
  - destruct (decide (a0 = a)) as [->|Hne];
      [rewrite list_lookup_alter_eq, He; by eexists | rewrite list_lookup_alter_ne by done; eauto].
  - destruct (decide (a0 = a)) as [->|Hne];
      [rewrite list_lookup_alter_eq, He; by eexists | rewrite list_lookup_alter_ne by done; eauto].
Qed.

(** Going on with an entry, or to the next. *)
Lemma denied_thread (ts : list thread) i t a :
  (forall j ph r rest, ts !! j = Some (Finish ph a r rest) -> r = expired_resolution) ->
  (forall ph r rest, t = Finish ph a r rest -> r = expired_resolution) ->
  forall j ph r rest, <[i := t]> ts !! j = Some (Finish ph a r rest) -> r = expired_resolution.
Proof. intros Hts Ht j ph r rest [[_ E]|[_ E]]%insert_thread; [by eapply Ht | by eapply Hts]. Qed.

Lemma denied_spawn (ts : list thread) t a :
  (forall j ph r rest, ts !! j = Some (Finish ph a r rest) -> r = expired_resolution) ->
  (forall ph r rest, t = Finish ph a r rest -> r = expired_resolution) ->
  forall j ph r rest, (ts ++ [t]) !! j = Some (Finish ph a r rest) -> r = expired_resolution.
Proof. intros Hts Ht j ph r rest [E|[_ E]]%snoc_lookup; [by eapply Hts | by eapply Ht]. Qed.

Lemma finish_all_expired as_ ph a r rest : finish_all as_ = Finish ph a r rest -> r = expired_resolution.
Proof. destruct as_; [done|]. by intros [= _ _ <- _]. Qed.

Lemma denied_step s s' a : queue_inv s -> qstep s (Some s') -> decided a s -> denied a s -> denied a s'.
Proof.
  intros Hinv H (e & He & Hr) [Hd Ht]. split.
  - inversion H; subst; clear H; simpl; try done.
    + unfold q_add. repeat case_match; simplify_eq; simpl; try done. by rewrite (lookup_app_l_Some _ _ _ _ He), <- He.
    + destruct (q_resolve id (s_queue s)) as [[b q]|] eqn:E; [|done]. simpl.
      unfold q_resolve in E. apply bind_Some in E as (c & Hc & E). apply bind_Some in E as (e' & He' & E).
      destruct (e_resolved e') eqn:Er; [done|]. injection E as -> <-. simpl.
      by rewrite list_lookup_insert_ne by congruence.
    + rewrite mark_all_lookup, He. intros e'. destruct (decide _); intros [= <-]; simpl; by apply Hd.
    + intros e'. destruct (decide (a0 = a)) as [->|Hne]; [|rewrite list_lookup_alter_ne by done; apply Hd].
      rewrite list_lookup_alter_eq, He. intros [= <-]. simpl. intros Hdone.
      destruct (finishing s i PWrite a r rest Hinv H1) as ((e2 & He2 & _ & Hd2) & _). congruence.
    + intros e'. destruct (decide (a0 = a)) as [->|Hne]; [|rewrite list_lookup_alter_ne by done; apply Hd].
      rewrite list_lookup_alter_eq, He. intros [= <-] _. simpl.
      destruct (qi_phase s Hinv i PClose a r rest H1) as (e2 & He2 & Hr2); [done|]. rewrite He in He2. injection He2 as <-.
      rewrite Hr2. by eapply Ht.
  - inversion H; subst; clear H; simpl; try (apply denied_thread; [done|]; intros ? ? ? [=]; subst; by eapply Ht).
    + destruct (q_add now p (s_queue s)) as [[]]; simpl; by apply denied_spawn.
    + destruct (q_resolve id (s_queue s)) as [[b q]|] eqn:E; simpl; apply denied_spawn; try done.
      intros ? ? ? [= <- <- <- <-]. unfold q_resolve in E. apply bind_Some in E as (c & Hc & E).
      apply bind_Some in E as (e' & He' & E). destruct (e_resolved e') eqn:Er; [done|]. injection E as -> <-. congruence.
    + apply denied_spawn; [done|]. intros ? ? ?. apply finish_all_expired.
    + apply denied_thread; [done|]. intros ? ? ?. apply finish_all_expired.
Qed.

(** A waiter waits or was answered. *)
Definition waiter (i a : nat) (s : system) : Prop :=
  s_threads s !! i = Some (AddWait a) \/ exists v rem, s_threads s !! i = Some (Returned a v rem).

Lemma waiter_kept s s' i a : qstep s (Some s') -> waiter i a s -> waiter i a s'.
Proof.
  intros H Hw. unfold waiter.
  assert (Hlt : i < length (s_threads s)) by (destruct Hw as [E|(? & ? & E)]; by eapply lookup_lt_Some).
  assert (Hsnoc : forall t, waiter i a (mkSystem (s_queue s) (s_threads s ++ [t]) (s_added s) (s_events s))).
  { intros t. unfold waiter. simpl. by rewrite lookup_app_l by done. }
  assert (Hset : forall j t, (s_threads s !! j <> Some (AddWait a) /\ forall v rem, s_threads s !! j <> Some (Returned a v rem)) ->
    <[j := t]> (s_threads s) !! i = Some (AddWait a) \/ exists v rem, <[j := t]> (s_threads s) !! i = Some (Returned a v rem)).
  { intros j t [Hj1 Hj2]. rewrite list_lookup_insert_ne; [done|]. intros ->. by destruct Hw as [?|(? & ? & ?)]; [|eapply Hj2]. }
  inversion H; subst; clear H; simpl; try (apply Hset; rewrite H1; done).
  - destruct (q_add now p (s_queue s)) as [[]]; apply Hsnoc.
  - destruct (q_resolve id (s_queue s)) as [[]|]; apply Hsnoc.
  - apply Hsnoc.
  - destruct (decide (i0 = i)) as [->|Hne]; [|by rewrite list_lookup_insert_ne].
    rewrite list_lookup_insert_eq by done. right. destruct Hw as [Hw|(v & rem & Hw)]; rewrite Hw in H1; [|done].
    injection H1 as <-. eauto.
Qed.

(** After a decision someone can always go on until the waiter is answered. *)
Lemma decided_goes_on s i a : queue_inv s -> decided a s -> s_threads s !! i = Some (AddWait a) -> exists s', goes_on s s'.
Proof.
  intros Hinv (e & He & Hr) Hi. destruct (e_done e) eqn:Ed.
  { eexists. split; [by eapply step_receive|]. simpl. by rewrite length_insert. }
  assert (Ht : total a (s_threads s) = 1) by (rewrite (qi_tasks s Hinv); unfold open_task; by rewrite He, Hr, Ed).
  destruct (task_owner a (s_threads s)) as (j & ph & b & r & rest & Hj & Hin); [lia|].
  destruct (finishing s j ph b r rest Hinv Hj) as ((e' & He' & _ & Hd') & _).
  destruct ph; eexists; (split; [by econstructor|simpl; by rewrite length_insert]).
Qed.

Lemma after_decision s i a :
  queue_inv s -> decided a s -> waiter i a s -> forall s', qsteps s s' ->
  queue_inv s' /\ decided a s' /\ waiter i a s' /\ (denied a s -> denied a s').
Proof.
  intros Hinv Hd Hw s' H. induction H as [|s1 s2 s3 H1 _ IH]; [done|].
  destruct IH as (? & ? & ? & Hden); [by eapply step_keeps | by eapply decided_step | by eapply waiter_kept |].
  split_and!; try done. intros Hs. by apply Hden, (denied_step s1).
Qed.

(** A sweep past the deadline decides the entry, and denies it unless it was
    decided. *)
Lemma sweep_decides s a e now :
  queue_inv s -> q_heap (s_queue s) !! a = Some e -> (p_ExpiresAt (e_pending e) <= now)%Z ->
  decided a (sweep now s) /\ (e_resolved e = false -> denied a (sweep now s)).
Proof.
  intros Hinv He Hexp.
  assert (Hin : e_resolved e = false -> a ∈ sweep_expired now (s_queue s)).
  { intros Hr. apply sweep_expired_elem. split; [apply addrs_elem; eexists; by apply (qi_pending s Hinv)|].
    exists e. split; [done|]. unfold entry_expired, Time_Before. rewrite Hr. by rewrite (proj2 (Z.ltb_ge _ _) Hexp). }
  split.
  - unfold decided. simpl. rewrite mark_all_lookup, He.
    destruct (decide _) as [?|Hni]; simpl; eexists; (split; [done|]); [done|]. destruct (e_resolved e); [done|]. by destruct Hni; apply Hin.
  - intros Hr. split; simpl.
    + rewrite mark_all_lookup, He. intros e'. rewrite decide_True by auto. intros [= <-] Hd. simpl in Hd.
      by rewrite (qi_done s Hinv a e He Hd) in Hr.
    + apply denied_spawn; [|intros ? ? ?; apply finish_all_expired]. intros j ph r rest Hj.
      destruct (finishing s j ph a r rest Hinv Hj) as ((e' & He' & Hr' & _) & _). congruence.
Qed.

(** ** The theorems *)

(** C3: In every interleaving of additions, decisions and sweeps: no channel is
    closed twice; the pending requests never exceed the capacity; every
    decision is reported exactly once; and everyone who was waiting on a
    request gets the same verdict, the one that was reported. *)
Theorem queue_safe max ttl s :
  qsteps (start max ttl) s ->
  ¬ qstep s None /\
  (Z.of_nat (length (q_List (s_queue s))) <= q_max (s_queue s))%Z /\
  NoDup (s_events s).*1 /\
  (forall i a v rem, s_threads s !! i = Some (Returned a v rem) ->
     exists ev, (a, ev) ∈ s_events s /\ re_Verdict ev = v /\ re_Remembered ev = rem) /\
  (forall i j a v v' rem rem', s_threads s !! i = Some (Returned a v rem) ->
     s_threads s !! j = Some (Returned a v' rem') -> v = v' /\ rem = rem').
Proof.
  intros Hinv%queue_reachable. split_and!.
  - intros H. inversion H as [| | | | | | | |i a r rest e Hi He Hd]; subst.
    destruct (finishing s i PClose a r rest Hinv Hi) as ((e' & He' & _ & Hd') & _). congruence.
  - rewrite q_List_length. apply (qi_cap s Hinv).
  - apply (qi_events s Hinv).
  - intros i a v rem Hi. destruct (qi_returned s Hinv i a v rem Hi) as (e & He & Hd & Hv & Hm).
    assert (Hin : a ∈ (s_events s).*1) by (apply (qi_event s Hinv); left; eauto).
    apply list_elem_of_fmap in Hin as ([b ev] & -> & Hin). exists ev. split; [done|].
    destruct (qi_content s Hinv b ev Hin) as (e' & He' & ->). simpl in He. rewrite He in He'.
    injection He' as <-. done.
  - intros i j a v v' rem rem' Hi Hj.
    destruct (qi_returned s Hinv i a v rem Hi) as (e & He & _ & Hv & Hm).
    destruct (qi_returned s Hinv j a v' rem' Hj) as (e' & He' & _ & Hv' & Hm'). split; congruence.
Qed.

(** C28: Nobody waits for ever: take a caller blocked on a request, in any state
    the queue can be in, and one sweep at or after the request's deadline.  From
    then on, whatever else is called, decided or swept meanwhile, the caller has
    its answer or some goroutine inside the queue can go on by itself; each such
    step leaves less to do, so with no further call the answer comes.  The
    answer is a denial, not remembered, when nobody had decided the request
    before the sweep. *)
Theorem queue_answers max ttl s i a e now :
  qsteps (start max ttl) s -> s_threads s !! i = Some (AddWait a) ->
  q_heap (s_queue s) !! a = Some e -> (p_ExpiresAt (e_pending e) <= now)%Z ->
  (forall s1 s2, goes_on s1 s2 -> work s2 < work s1) /\
  (forall s', qsteps (sweep now s) s' ->
     (s_threads s' !! i = Some (AddWait a) /\ exists s2, goes_on s' s2) \/
     (exists v rem, s_threads s' !! i = Some (Returned a v rem) /\ (e_resolved e = false -> v = Deny /\ rem = false))).
Proof.
  intros Hinv%queue_reachable Hi He Hexp. split; [apply goes_on_work|]. intros s' Hs.
  destruct (sweep_decides s a e now Hinv He Hexp) as [Hd Hden].
  destruct (after_decision (sweep now s) i a) with (s' := s') as (Hinv' & Hd' & Hw & Hden'); try done.
  { by apply sweep_inv. }
  { left. by apply lookup_app_l_Some. }
  destruct Hw as [Hw|(v & rem & Hw)]; [left; split; [done | by eapply decided_goes_on] | right].
  exists v, rem. split; [done|]. intros Hr. destruct (qi_returned s' Hinv' i a v rem Hw) as (e' & He' & Hdone & <- & <-).
  destruct (Hden' (Hden Hr)) as [Hres _]. by rewrite (Hres e' He' Hdone).
Qed.

(** A request is answered with the verdict of any other request that has
    the same id, from any app and for any method or event: as long as the
    decided entry is in the map (until the sweep after the one that sees it
    decided), [Add] returns its verdict at once, without the new request ever
    being shown or reported. *)
Theorem same_id_same_verdict max ttl s p a e :
  qsteps (start max ttl) s -> q_byID (s_queue s) !! p_ID p = Some a ->
  q_heap (s_queue s) !! a = Some e -> e_done e = true ->
  exists s', qsteps s s' /\
    s_threads s' = s_threads s ++ [Returned a (rs_verdict (e_result e)) (rs_remembered (e_result e))] /\
    s_queue s' = s_queue s /\ s_added s' = s_added s /\ s_events s' = s_events s.
Proof.
  intros _ Hid He Hd.
  pose proof (step_add s 0 p) as H1. unfold q_add in H1. rewrite Hid in H1.
  eexists. split; [eapply rtc_l; [exact H1|]; apply qstep_once;
    eapply (step_receive _ (length (s_threads s)) a e); [by apply list_lookup_middle | done | done]|].
  simpl. split_and!; try done. by rewrite insert_app_r_alt, Nat.sub_diag by lia.
Qed.

(** ** The theorems at concrete inputs *)

Local Open Scope string_scope.

(** A note by one app, and the profile metadata of another, under one id. *)
Definition ex_note : Pending := mkPending "7" "app-a" MethodSignEvent 1 [] "" 0 0 None.
Definition ex_metadata : Pending := mkPending "7" "app-b" MethodSignEvent 0 [] "" 0 0 None.

Definition ex_shown : Pending := set_times 100 (Time_Add 100 DefaultPendingTTL) ex_note.

Definition ex_added : system :=
  let '(r, q) := q_add 100 ex_note (s_queue (start 0 0)) in spawn (AddNotify 0 ex_shown) q (start 0 0).

Definition ex_wait : system := mkSystem (s_queue ex_added) [AddWait 0] [ex_shown] [].

Lemma ex_wait_steps : qsteps (start 0 0) ex_wait.
Proof.
  eapply (rtc_l _ _ ex_added); [exact (step_add (start 0 0) 100 ex_note)|].
  apply qstep_once. exact (step_onAdded ex_added 0 0 ex_shown eq_refl).
Qed.

(** The note is approved. *)
Definition ex_approved_entry : entry :=
  mkEntry ex_shown true
    (mkResolution Allow false false) true.

Definition ex_deciding (ph : phase) (e : entry) (evs : list (nat * ResolvedEvent)) : system :=
  mkSystem (set_heap [e] (s_queue ex_wait))
    [AddWait 0; Finish ph 0 (mkResolution Allow false false) []] [ex_shown] evs.

Definition ex_approved : system :=
  mkSystem (set_heap [ex_approved_entry] (s_queue ex_wait)) [AddWait 0; Finished] [ex_shown]
    [(0, resolved_event ex_approved_entry (mkResolution Allow false false))].

Lemma ex_approved_steps : qsteps (start 0 0) ex_approved.
Proof.
  transitivity ex_wait; [exact ex_wait_steps|].
  set (r := mkResolution Allow false false). set (ev := resolved_event ex_approved_entry r).
  eapply (rtc_l _ _ (ex_deciding PWrite (mkEntry ex_shown false no_result true) []));
    [exact (step_resolve ex_wait "7" Allow false)|].
  eapply (rtc_l _ _ (ex_deciding PNotify (mkEntry ex_shown false r true) []));
    [exact (step_write (ex_deciding PWrite (mkEntry ex_shown false no_result true) []) 1 0 r [] eq_refl)|].
  eapply (rtc_l _ _ (ex_deciding PClose (mkEntry ex_shown false r true) [(0, ev)]));
    [exact (step_onResolved (ex_deciding PNotify (mkEntry ex_shown false r true) []) 1 0 r []
              (mkEntry ex_shown false r true) eq_refl eq_refl)|].
  apply qstep_once.
  exact (step_close (ex_deciding PClose (mkEntry ex_shown false r true) [(0, ev)]) 1 0 r []
           (mkEntry ex_shown false r true) eq_refl eq_refl eq_refl).
Qed.

Lemma queue_safe_witness :
  (Z.of_nat (length (q_List (s_queue ex_wait))) <= q_max (s_queue ex_wait))%Z.
Proof. apply (queue_safe 0 0 ex_wait ex_wait_steps). Defined.

Lemma queue_answers_witness : exists s', goes_on (sweep (100 + DefaultPendingTTL) ex_wait) s' /\
  work s' < work (sweep (100 + DefaultPendingTTL) ex_wait).
Proof.
  destruct (queue_answers 0 0 ex_wait 0 0 (mkEntry ex_shown false no_result false)
    (100 + DefaultPendingTTL)%Z ex_wait_steps eq_refl eq_refl) as [Hw H]; [vm_compute; discriminate|].
  destruct (H _ (rtc_refl _ _)) as [(_ & s' & Hs)|(v & rem & Ht & _)]; [|discriminate Ht].
  exists s'. split; [exact Hs | exact (Hw _ _ Hs)].
Defined.

(** The app that was never shown to anyone gets the note's approval. *)
Lemma same_id_same_verdict_witness : exists s s',
  qsteps s s' /\ s_threads s' = (s_threads s ++ [Returned 0 Allow false])%list /\ s_added s' = s_added s.
Proof.
  destruct (same_id_same_verdict 0 0 ex_approved ex_metadata 0 ex_approved_entry ex_approved_steps
    eq_refl eq_refl eq_refl)
    as (s' & Hs' & Ht & _ & Ha & _).
  exists ex_approved, s'. split; [exact Hs' | split; [exact Ht | exact Ha]].
Defined.
