(* ===== verification/BunkerGrantSpec.v ===== *)
(** * Declared grants: [kind: bunker] files and requested permissions

    Models [src/cli/bunker/grantspec.go].  The YAML and JSON libraries decode
    a document into the fields of its structs and call back the [UnmarshalJSON]
    methods of the source; the model starts from those fields ([entry_json],
    [spec_json], [envelope_json]) and the strict decoder that yields them is a
    parameter.  A string field that is absent and one that is empty decode
    alike. *)
From S2P Require Import Prelude GoTime GoStrings Nostr BunkerPolicy.
From stdpp Require Import options.
From Stdlib Require Import Ascii.

Local Open Scope string_scope.

Definition grantableMethods (m : string) : bool :=
  containsString [MethodSignEvent; MethodPing; MethodGetPublicKey; MethodGetRelays;
    MethodNIP04Encrypt; MethodNIP04Decrypt; MethodNIP44Encrypt; MethodNIP44Decrypt;
    MethodNIP44MessageKeys] m.

Inductive GrantError :=
| KindsInvalid (s : string)
| KindsShape
| KindsEmpty
| MethodMissing
| MethodIsConnect
| MethodUnknown (m : string)
| KindsMissing
| KindsMisplaced (m : string)
| VerdictInvalid (v : string)
| ExpiresAndUses
| ExpiresInvalid (s : string)
| ExpiresNotPositive (s : string)
| UsesNegative (n : Z)
| GrantsEmpty
| DuplicateScope (key : string)
| ReadFailed
| DecodeFailed
| WrongKind (k : string).

(** ** [KindsSpec] *)

(** [Kinds] is nil or a slice. *)
Record KindsSpec := mkKinds { k_Any : bool; k_Kinds : option (list Z) }.

(** The JSON value of a [kinds] field, as the two [json.Unmarshal] calls see
    it: a string, a list of integers that fit [int], or anything else. *)
Inductive kinds_json := KNull | KString (s : string) | KList (l : list Z) | KOther.

Definition KindsSpec_MarshalJSON (k : KindsSpec) : kinds_json :=
  if k_Any k then KString "any"
  else match k_Kinds k with None => KNull | Some l => KList l end.

Definition KindsSpec_UnmarshalJSON (data : kinds_json) (k : KindsSpec)
    : result GrantError KindsSpec :=
  match data with
  | KNull => Ok (mkKinds false None)
  | KString s => if negb (EqualFold s "any") then Err (KindsInvalid s)
                 else Ok (mkKinds true (k_Kinds k))
  | KOther => Err KindsShape
  | KList [] => Err KindsEmpty
  | KList l => Ok (mkKinds (k_Any k) (Some l))
  end.

Definition isZero (k : KindsSpec) : bool :=
  negb (k_Any k) && match k_Kinds k with None => true | Some _ => false end.

(** ** [GrantEntrySpec] *)

Record GrantEntrySpec := mkGrantEntry {
  ge_Method : string;
  ge_Kinds : KindsSpec;
  ge_Verdict : string;
  ge_Expires : string;
  ge_Uses : Z;
  ge_expiresDur : Z;
}.

(** The decoded fields of an entry; [kinds] may be absent. *)
Record entry_json := mkEntryJson {
  ej_Method : string;
  ej_Kinds : option kinds_json;
  ej_Verdict : string;
  ej_Expires : string;
  ej_Uses : Z;
}.

Section Spec.
(** [client.ParseDuration] *)
Variable ParseDuration : string -> option Z.

(** The decode of the alias, which calls back [KindsSpec.UnmarshalJSON] when
    the field is there. *)
Definition decode_kinds (j : option kinds_json) : result GrantError KindsSpec :=
  match j with
  | None => Ok (mkKinds false None)
  | Some data => KindsSpec_UnmarshalJSON data (mkKinds false None)
  end.

Definition check_method (m : string) (kinds : KindsSpec) : result GrantError unit :=
  _ ← refuse_if (is_empty m) MethodMissing;
  _ ← refuse_if (String.eqb m MethodConnect) MethodIsConnect;
  _ ← refuse_if (negb (grantableMethods m)) (MethodUnknown m);
  if String.eqb m MethodSignEvent then refuse_if (isZero kinds) KindsMissing
  else refuse_if (negb (isZero kinds)) (KindsMisplaced m).

Definition canonical_verdict (v : string) : result GrantError string :=
  if is_empty (ToLower v) || String.eqb (ToLower v) "allow" then Ok "allow"
  else if String.eqb (ToLower v) "deny" then Ok "deny" else Err (VerdictInvalid v).

Definition parse_expires (s : string) : result GrantError Z :=
  if is_empty s then Ok 0%Z else
  match ParseDuration s with
  | None => Err (ExpiresInvalid s)
  | Some dur => if (dur <=? 0)%Z then Err (ExpiresNotPositive s) else Ok dur
  end.

Definition GrantEntrySpec_UnmarshalJSON (j : entry_json) : result GrantError GrantEntrySpec :=
  kinds ← decode_kinds (ej_Kinds j);
  _ ← check_method (ej_Method j) kinds;
  verdict ← canonical_verdict (ej_Verdict j);
  _ ← refuse_if (negb (is_empty (ej_Expires j)) && negb (ej_Uses j =? 0)%Z) ExpiresAndUses;
  dur ← parse_expires (ej_Expires j);
  _ ← refuse_if (ej_Uses j <? 0)%Z (UsesNegative (ej_Uses j));
  Ok (mkGrantEntry (ej_Method j) kinds verdict (ej_Expires j) (ej_Uses j) dur).

(** [json.Marshal] of an entry: the tagged fields, [kinds] always. *)
Definition GrantEntrySpec_json (e : GrantEntrySpec) : entry_json :=
  mkEntryJson (ge_Method e) (Some (KindsSpec_MarshalJSON (ge_Kinds e))) (ge_Verdict e)
    (ge_Expires e) (ge_Uses e).

Definition kind_key (m : string) (k : Z) : string := m ++ ":kind:" ++ Itoa k.

Definition scopeKeys (e : GrantEntrySpec) : list string :=
  if negb (String.eqb (ge_Method e) MethodSignEvent) then [ge_Method e]
  else if k_Any (ge_Kinds e) then [ge_Method e ++ ":any"]
  else map (kind_key (ge_Method e)) (default [] (k_Kinds (ge_Kinds e))).

(** ** [GrantSpec] *)

Record GrantSpec := mkGrantSpec { gs_Nickname : string; gs_Grants : list GrantEntrySpec }.
Record spec_json := mkSpecJson { sj_Nickname : string; sj_Grants : list entry_json }.

(** The loops over the entries' keys. *)
Fixpoint check_scopes (seen keys : list string) : result GrantError unit :=
  match keys with
  | [] => Ok ()
  | key :: keys => if containsString seen key then Err (DuplicateScope key)
                   else check_scopes (key :: seen) keys
  end.

Definition GrantSpec_UnmarshalJSON (j : spec_json) : result GrantError GrantSpec :=
  grants ← mapM_res GrantEntrySpec_UnmarshalJSON (sj_Grants j);
  _ ← refuse_if (match grants with [] => true | _ => false end) GrantsEmpty;
  _ ← check_scopes [] (concat (map scopeKeys grants));
  Ok (mkGrantSpec (sj_Nickname j) grants).

Definition GrantSpec_json (s : GrantSpec) : spec_json :=
  mkSpecJson (gs_Nickname s) (map GrantEntrySpec_json (gs_Grants s)).

(** The [kind]/[spec] wrapper; [spec] may be absent. *)
Record envelope_json := mkEnvelope { en_Kind : string; en_Spec : option spec_json }.

(** [yaml.UnmarshalStrict] of a file, as far as the wrapper's fields. *)
Variable UnmarshalStrict : string -> option envelope_json.

(** [LoadGrantSpec] of a file's content, [None] when it cannot be read. *)
Definition LoadGrantSpec (file : option string) : result GrantError GrantSpec :=
  match file with
  | None => Err ReadFailed
  | Some data =>
      match UnmarshalStrict data with
      | None => Err DecodeFailed
      | Some env =>
          spec ← match en_Spec env with
                 | None => Ok (mkGrantSpec "" [])
                 | Some j => GrantSpec_UnmarshalJSON j
                 end;
          _ ← refuse_if (negb (EqualFold (en_Kind env) "bunker")) (WrongKind (en_Kind env));
          Ok spec
      end
  end.
End Spec.

(** ** [Resolve] *)

Definition entry_verdict (e : GrantEntrySpec) : Verdict :=
  if String.eqb (ge_Verdict e) "deny" then Deny else Allow.

Definition entry_kinds (e : GrantEntrySpec) : list (option Z) :=
  if String.eqb (ge_Method e) MethodSignEvent && negb (k_Any (ge_Kinds e))
  then map Some (default [] (k_Kinds (ge_Kinds e))) else [None].

Definition entry_grant (e : GrantEntrySpec) (now : Z) (kind : option Z) : Grant :=
  let g := newGrant (ge_Method e) (entry_verdict e) kind now in
  if (0 <? ge_expiresDur e)%Z
  then mkGrant (g_Method g) (g_Verdict g) (g_Kind g) (Some (Time_Add now (ge_expiresDur e)))
         (g_RemainingUses g) (g_CreatedAt g)
  else if (0 <? ge_Uses e)%Z
  then mkGrant (g_Method g) (g_Verdict g) (g_Kind g) (g_ExpiresAt g) (Some (ge_Uses e))
         (g_CreatedAt g)
  else g.

Definition Resolve (s : GrantSpec) (now : Z) : list Grant :=
  concat (map (fun e => map (entry_grant e now) (entry_kinds e)) (gs_Grants s)).

(** ** [parsePerms] *)

(** One element of the list: the scope it asks for, or [None] when it is
    skipped. *)
Definition perm_scope (entry : string) : option (string * option Z) :=
  let entry := TrimSpace entry in
  if is_empty entry then None else
  let '(method, param, hasParam) := Cut entry ":" in
  let method := TrimSpace method in
  if negb (grantableMethods method) then None else
  if hasParam && String.eqb method MethodSignEvent then
    k ← Atoi (TrimSpace param); Some (method, Some k)
  else Some (method, None).

Definition perm_key (sc : string * option Z) : string :=
  match sc.2 with Some k => sc.1 ++ ":" ++ Itoa k | None => sc.1 end.

Fixpoint parse_perm_list (entries seen : list string) (now : Z) : list Grant :=
  match entries with
  | [] => []
  | entry :: entries =>
      match perm_scope entry with
      | None => parse_perm_list entries seen now
      | Some sc =>
          if containsString seen (perm_key sc) then parse_perm_list entries seen now
          else newGrant sc.1 Allow sc.2 now
               :: parse_perm_list entries (perm_key sc :: seen) now
      end
  end.

Definition parsePerms (perms : string) (now : Z) : list Grant :=
  parse_perm_list (Split perms ",") [] now.
