(* ===== verification/BunkerGrantSpecFacts.v ===== *)
(** * Facts about declared grants and requested permissions

    Theorems on [BunkerGrantSpec.v]: what a loaded file resolves to, that a
    spec survives the trip to the daemon, and what a permission list of an
    unauthenticated client can obtain. *)
From S2P Require Import Prelude GoTime GoStrings Nostr BunkerPolicy BunkerPolicyFacts.
From S2P Require Import BunkerGrantSpec.
From stdpp Require Import options.
From Stdlib Require Import Ascii.

Local Open Scope string_scope.

(** ** Entries *)

(** What [GrantEntrySpec.UnmarshalJSON] guarantees of an entry. *)
Record entry_ok (e : GrantEntrySpec) : Prop := mkEntryOk {
  eo_method : grantableMethods (ge_Method e) = true;
  eo_kinds : ge_Method e = MethodSignEvent <-> isZero (ge_Kinds e) = false;
  eo_verdict : ge_Verdict e = "allow" \/ ge_Verdict e = "deny";
  eo_dur : (0 <= ge_expiresDur e)%Z;
  eo_uses : (0 <= ge_Uses e)%Z;
  eo_one : (0 < ge_expiresDur e)%Z -> ge_Uses e = 0%Z;
}.

Section Entries.
Variable ParseDuration : string -> option Z.

Lemma canonical_verdict_Ok v w : canonical_verdict v = Ok w -> w = "allow" \/ w = "deny".
Proof. unfold canonical_verdict. intros H. repeat split_match H; injection H as <-; auto. Qed.

Lemma check_method_Ok m kinds u : check_method m kinds = Ok u ->
  grantableMethods m = true /\ (m = MethodSignEvent <-> isZero kinds = false).
Proof.
  unfold check_method. intros H. unbind H. propify.
  destruct (String.eqb m MethodSignEvent) eqn:E; apply refuse_if_Ok in H; propify; (split; [done | split; congruence]).
Qed.

Lemma parse_expires_Ok s d : parse_expires ParseDuration s = Ok d ->
  (s = "" /\ d = 0%Z) \/ (s <> "" /\ (0 < d)%Z /\ ParseDuration s = Some d).
Proof.
  unfold parse_expires. destruct (is_empty s) eqn:E.
  - apply is_empty_true in E. intros [= <-]. auto.
  - apply is_empty_false in E. destruct (ParseDuration s); [|done].
    destruct (_ <=? _)%Z eqn:L; [done|]. intros [= <-]. propify. auto.
Qed.

Lemma entry_unmarshal_ok j e :
  GrantEntrySpec_UnmarshalJSON ParseDuration j = Ok e -> entry_ok e.
Proof.
  unfold GrantEntrySpec_UnmarshalJSON. intros H. unbind H. injection H as <-.
  match goal with B : check_method _ _ = Ok _ |- _ => apply check_method_Ok in B as [? ?] end.
  match goal with B : canonical_verdict _ = Ok _ |- _ => apply canonical_verdict_Ok in B end.
  match goal with B : parse_expires _ _ = Ok _ |- _ => apply parse_expires_Ok in B as Hd end.
  propify. constructor; simpl; [done.. | lia | lia |].
  intros Hpos. destruct Hd as [[_ ->]|(Hne & _)]; [lia|].
  match goal with B : negb _ = false \/ _ |- _ => destruct B as [E|E] end; propify; [|done].
  by apply is_empty_true in E.
Qed.

Lemma decode_kinds_again j k :
  decode_kinds j = Ok k -> decode_kinds (Some (KindsSpec_MarshalJSON k)) = Ok k.
Proof.
  destruct j as [[|s|[|z l]|]|]; simpl; intros H; repeat split_match H; try injection H as <-; done.
Qed.

Lemma canonical_verdict_again v w : canonical_verdict v = Ok w -> canonical_verdict w = Ok w.
Proof. by intros [-> | ->]%canonical_verdict_Ok. Qed.

Lemma entry_again j e :
  GrantEntrySpec_UnmarshalJSON ParseDuration j = Ok e ->
  GrantEntrySpec_UnmarshalJSON ParseDuration (GrantEntrySpec_json e) = Ok e.
Proof.
  unfold GrantEntrySpec_UnmarshalJSON. intros H. unbind H. injection H as <-.
  unfold GrantEntrySpec_json; cbn [ej_Kinds ej_Method ej_Verdict ej_Expires ej_Uses
    ge_Kinds ge_Method ge_Verdict ge_Expires ge_Uses].
  repeat match goal with
  | B : decode_kinds _ = Ok _ |- _ => apply decode_kinds_again in B; rewrite B; clear B
  | B : check_method _ _ = Ok _ |- _ => simpl; rewrite B; clear B
  | B : canonical_verdict _ = Ok _ |- _ =>
      apply canonical_verdict_again in B; simpl; rewrite B; clear B
  | B : parse_expires _ _ = Ok _ |- _ => simpl; rewrite B; clear B
  | B : ?b = false |- context [refuse_if ?b _] => rewrite B; clear B
  end. done.
Qed.
End Entries.

(** ** Files *)

(** A grant as a file may declare it. *)
Definition declared (now : Z) (g : Grant) : Prop :=
  grantableMethods (g_Method g) = true /\ g_Verdict g <> Ask /\ g_CreatedAt g = now /\
  (is_Some (g_Kind g) -> g_Method g = MethodSignEvent) /\
  Grant_expired g now = false /\
  (forall u, g_RemainingUses g = Some u -> (0 < u)%Z) /\
  (g_ExpiresAt g = None \/ g_RemainingUses g = None).

(** The key under which a scope is checked for duplicates. *)
Definition scope_key (sc : string * option Z) : string :=
  if negb (String.eqb sc.1 MethodSignEvent) then sc.1
  else match sc.2 with None => sc.1 ++ ":any" | Some k => kind_key sc.1 k end.

Lemma scope_entry_grant e now k : scope (entry_grant e now k) = (ge_Method e, k).
Proof. unfold entry_grant. by repeat case_match. Qed.

Lemma entry_scopes e now :
  map (fun g => scope_key (scope g)) (map (entry_grant e now) (entry_kinds e)) = scopeKeys e.
Proof.
  rewrite map_map.
  rewrite (map_ext _ (fun k => scope_key (ge_Method e, k)))
    by (intros k; by rewrite scope_entry_grant).
  unfold scopeKeys, entry_kinds, scope_key; simpl.
  destruct (String.eqb (ge_Method e) MethodSignEvent), (k_Any (ge_Kinds e)); simpl; try done.
  by rewrite map_map.
Qed.

Lemma Resolve_keys s now :
  map (fun g => scope_key (scope g)) (Resolve s now) = concat (map scopeKeys (gs_Grants s)).
Proof.
  unfold Resolve. rewrite concat_map, map_map. f_equal. apply map_ext; intros e; apply entry_scopes.
Qed.

Lemma check_scopes_Ok seen keys u :
  check_scopes seen keys = Ok u -> NoDup keys /\ Forall (fun k => k ∉ seen) keys.
Proof.
  revert seen; induction keys as [|key keys IH]; intros seen; simpl; [by split; constructor|].
  destruct (containsString seen key) eqn:E; [done|]. intros [Hnd Hs]%IH.
  assert (Hni : key ∉ seen) by (rewrite <- containsString_true; congruence).
  rewrite Forall_forall in Hs. split; constructor; [|done..|].
  - intros Hin. apply (Hs key Hin). left.
  - apply Forall_forall. intros k Hk Hin. apply (Hs k Hk). by right.
Qed.

Lemma entry_grant_declared e now k :
  entry_ok e -> is_clock now -> is_int64 (ge_expiresDur e) -> k ∈ entry_kinds e ->
  declared now (entry_grant e now k).
Proof.
  intros [Hm _ Hv Hd Hu H1] Hc H64 Hk. pose proof (scope_entry_grant e now k) as [= Hgm Hgk].
  unfold declared. rewrite Hgm, Hgk. split_and!; [done|..].
  - unfold entry_grant, entry_verdict. repeat case_match; done.
  - unfold entry_grant. repeat case_match; done.
  - intros [z ->]. unfold entry_kinds in Hk.
    destruct (String.eqb (ge_Method e) MethodSignEvent) eqn:E; [by apply String.eqb_eq|].
    simpl in Hk. apply list_elem_of_singleton in Hk. done.
  - unfold entry_grant, Grant_expired, Time_Before. destruct (0 <? ge_expiresDur e)%Z eqn:E; simpl.
    + rewrite Time_Add_exact by done. propify. apply negb_false_iff, Z.ltb_lt. lia.
    + by destruct (0 <? ge_Uses e)%Z.
  - intros u. unfold entry_grant. repeat case_match; simpl; try done. intros [= <-]. by propify.
  - unfold entry_grant. repeat case_match; simpl; auto.
Qed.

Section Files.
Variable ParseDuration : string -> option Z.
Variable UnmarshalStrict : string -> option envelope_json.

(** A loaded spec: that of a file without a [spec] block, or a checked one. *)
Lemma LoadGrantSpec_cases file s : LoadGrantSpec ParseDuration UnmarshalStrict file = Ok s ->
  s = mkGrantSpec "" [] \/ exists j, GrantSpec_UnmarshalJSON ParseDuration j = Ok s.
Proof.
  unfold LoadGrantSpec. destruct file as [data|]; [|done].
  destruct (UnmarshalStrict data) as [[kind [j|]]|]; [..|done]; cbn [en_Spec en_Kind]; intros H; unbind H;
    injection H as <-; [eauto|]. left. by injection B.
Qed.

Lemma unmarshal_entries j s : GrantSpec_UnmarshalJSON ParseDuration j = Ok s ->
  Forall2 (fun x y => GrantEntrySpec_UnmarshalJSON ParseDuration x = Ok y) (sj_Grants j) (gs_Grants s) /\
  gs_Grants s <> [] /\ check_scopes [] (concat (map scopeKeys (gs_Grants s))) = Ok () /\
  gs_Nickname s = sj_Nickname j.
Proof.
  unfold GrantSpec_UnmarshalJSON. intros H. unbind H. injection H as <-. simpl.
  split_and!; [by apply mapM_res_Ok | by destruct r | | done].
  match goal with B : check_scopes _ _ = Ok ?u |- _ => by destruct u end.
Qed.

Lemma checked_scopes j s now : GrantSpec_UnmarshalJSON ParseDuration j = Ok s ->
  NoDup (scope <$> Resolve s now).
Proof.
  intros (_ & _ & Hs & _)%unmarshal_entries. apply check_scopes_Ok in Hs as [Hnd _].
  rewrite <- (Resolve_keys s now) in Hnd.
  apply (NoDup_fmap_1 scope_key). by rewrite <- list_fmap_compose.
Qed.

Lemma entry_dur_int64 j e :
  (forall s d, ParseDuration s = Some d -> is_int64 d) ->
  GrantEntrySpec_UnmarshalJSON ParseDuration j = Ok e -> is_int64 (ge_expiresDur e).
Proof.
  unfold GrantEntrySpec_UnmarshalJSON. intros Hp H. unbind H. injection H as <-. simpl.
  match goal with B : parse_expires _ _ = Ok _ |- _ =>
    apply parse_expires_Ok in B as [[_ ->]|(_ & _ & ?)] end; [done | eauto].
Qed.

(** A [kind: bunker] file that loads resolves, at whatever time the app
    pairs, to at most one grant per scope; each is for a method that may be
    granted (never "connect"), allows or denies, names a kind only for
    [sign_event], is live at that time, and is limited by time or by a
    positive number of uses but not by both. *)
Theorem LoadGrantSpec_resolves file s now :
  (forall str d, ParseDuration str = Some d -> is_int64 d) -> is_clock now ->
  LoadGrantSpec ParseDuration UnmarshalStrict file = Ok s ->
  NoDup (scope <$> Resolve s now) /\ Forall (declared now) (Resolve s now).
Proof.
  intros Hp Hc [-> | (j & Hj)]%LoadGrantSpec_cases; [by split; constructor|].
  split; [by eapply checked_scopes|]. apply unmarshal_entries in Hj as (HF & _).
  apply Forall_forall. intros g Hg. unfold Resolve in Hg.
  apply list_elem_of_In, in_concat in Hg as (gs & Hgs & Hg).
  apply in_map_iff in Hgs as (e & <- & He). apply in_map_iff in Hg as (k & <- & Hk).
  apply list_elem_of_In in He. apply list_elem_of_In in Hk. apply list_elem_of_lookup in He as (i & Hi).
  eapply Forall2_lookup_r in HF as (x & _ & Hx); [|done].
  apply entry_grant_declared; [by eapply entry_unmarshal_ok | done | by eapply entry_dur_int64 | done].
Qed.

(** The trip to the daemon is faithful: marshalling a loaded spec and
    unmarshalling the result gives the same spec back, entry by entry, with
    the parsed durations; only the spec of a file without a [spec] block, which
    loads as one without grants, is refused on the other side. *)
Theorem GrantSpec_ipc_roundtrip file s :
  LoadGrantSpec ParseDuration UnmarshalStrict file = Ok s ->
  GrantSpec_UnmarshalJSON ParseDuration (GrantSpec_json s) =
    match gs_Grants s with [] => Err GrantsEmpty | _ => Ok s end.
Proof.
  intros [-> | (j & Hj)]%LoadGrantSpec_cases; [done|].
  apply unmarshal_entries in Hj as (HF & Hne & Hs & _).
  unfold GrantSpec_UnmarshalJSON, GrantSpec_json; cbn [sj_Grants sj_Nickname].
  assert (Hm : mapM_res (GrantEntrySpec_UnmarshalJSON ParseDuration)
                 (map GrantEntrySpec_json (gs_Grants s)) = Ok (gs_Grants s)).
  { clear Hne Hs. apply mapM_res_Ok. induction HF; simpl; constructor; [by eapply entry_again | done]. }
  rewrite Hm; simpl. destruct s as [nick [|e es]]; [done|]. simpl in *. by rewrite Hs.
Qed.
End Files.

(** ** Permission lists *)

Definition perm_ok (sc : string * option Z) : Prop :=
  grantableMethods sc.1 = true /\ (is_Some sc.2 -> sc.1 = MethodSignEvent).

Lemma perm_scope_ok entry sc : perm_scope entry = Some sc -> perm_ok sc.
Proof.
  unfold perm_scope. intros H. repeat split_match H.
  - destruct (Atoi _); [|done]. injection H as <-. propify. by split.
  - injection H as <-. propify. split; [done|]. by intros [? ?].
Qed.

Lemma grantable_no_colon m k : grantableMethods m = true -> m <> MethodSignEvent ++ ":" ++ Itoa k.
Proof.
  unfold grantableMethods. rewrite containsString_true. intros H ->.
  repeat (apply elem_of_cons in H as [[=]|H]). by apply elem_of_nil in H.
Qed.

Lemma append_inj_l s t u : (s ++ t = s ++ u)%string -> t = u.
Proof. induction s; simpl; [done|]. intros [=]; auto. Qed.

Lemma perm_key_inj a b : perm_ok a -> perm_ok b -> perm_key a = perm_key b -> a = b.
Proof.
  destruct a as [m [k|]], b as [m' [k'|]]; intros [Ha Ha'] [Hb Hb']; unfold perm_key; simpl in *.
  - rewrite Ha', Hb' by eauto. intros ?%append_inj_l%(append_inj_l ":")%Itoa_inj. by subst.
  - rewrite Ha' by eauto. intros Heq. by destruct (grantable_no_colon m' k Hb).
  - rewrite Hb' by eauto. intros Heq. by destruct (grantable_no_colon m k' Ha).
  - by intros ->.
Qed.

(** A grant that the elements [entries] obtain when [seen] was granted. *)
Definition perm_granted (entries seen : list string) (now : Z) (g : Grant) : Prop :=
  (perm_key (scope g) ∉ seen) /\ perm_ok (scope g) /\
  g = GrantForever (g_Method g) (g_Kind g) now /\
  exists entry, entry ∈ entries /\ perm_scope entry = Some (scope g).

Lemma perm_granted_later entry entries seen seen' now gs :
  seen ⊆ seen' -> Forall (perm_granted entries seen' now) gs ->
  Forall (perm_granted (entry :: entries) seen now) gs.
Proof.
  intros Hs HF. eapply Forall_impl; [exact HF|]. intros g (? & ? & ? & x & ? & ?).
  split_and!; try done; [by intros ?%Hs|]. exists x. split; [by right|done].
Qed.

Lemma parse_perm_list_spec entries seen now :
  let gs := parse_perm_list entries seen now in
  NoDup (perm_key ∘ scope <$> gs) /\ Forall (perm_granted entries seen now) gs /\
  forall entry sc, entry ∈ entries -> perm_scope entry = Some sc ->
    perm_key sc ∈ seen \/ sc ∈ scope <$> gs.
Proof.
  revert seen; induction entries as [|entry entries IH]; intros seen; simpl.
  { split_and!; [constructor.. | set_solver]. }
  destruct (perm_scope entry) as [sc|] eqn:E;
    [destruct (containsString seen (perm_key sc)) eqn:Es|].
  1, 3: destruct (IH seen) as (Hnd & HF & Hc); split_and!;
    [done | by eapply perm_granted_later|];
    intros x sc' [->|Hx]%elem_of_cons Hsc; [rewrite E in Hsc; simplify_eq | by eapply Hc].
  { left. by apply containsString_true. }
  assert (Hni : perm_key sc ∉ seen) by (rewrite <- containsString_true; congruence).
  destruct (IH (perm_key sc :: seen)) as (Hnd & HF & Hc). destruct sc as [m k]. csimpl. split_and!.
  - constructor; [|done]. intros (g & Heq & Hg)%list_elem_of_fmap.
    rewrite Forall_forall in HF. destruct (HF g Hg) as (Hs & _). apply Hs.
    change (perm_key (m, k) = perm_key (scope g)) in Heq. rewrite <- Heq. left.
  - constructor; [|eapply perm_granted_later; [|exact HF]; set_solver].
    split_and!; [done | by eapply perm_scope_ok | done |]. exists entry. split; [left|done].
  - intros x sc' [->|Hx]%elem_of_cons Hsc.
    + rewrite E in Hsc. injection Hsc as <-. right. left.
    + destruct (Hc x sc' Hx Hsc) as [[Hk|?]%elem_of_cons|?]; [|by left | right; by right].
      right. apply perm_key_inj in Hk as ->; [left | by eapply perm_scope_ok..].
Qed.

Lemma parsePerms_NoDup perms now : NoDup (scope <$> parsePerms perms now).
Proof.
  destruct (parse_perm_list_spec (Split perms ",") [] now) as (Hnd & _).
  apply (NoDup_fmap_1 perm_key). by rewrite <- list_fmap_compose.
Qed.

(** What a client's permission list obtains: exactly one grant for every
    scope that some element of the list asks for, each an unlimited allow of a
    method that may be granted and created at that moment; elements that are
    malformed or name another method (such as "connect") obtain nothing. *)
Theorem parsePerms_exact perms now :
  NoDup (scope <$> parsePerms perms now) /\
  (forall sc, sc ∈ scope <$> parsePerms perms now <->
     exists entry, entry ∈ Split perms "," /\ perm_scope entry = Some sc) /\
  Forall (fun g => g = GrantForever (g_Method g) (g_Kind g) now /\
                   grantableMethods (g_Method g) = true) (parsePerms perms now).
Proof.
  destruct (parse_perm_list_spec (Split perms ",") [] now) as (_ & HF & Hc). split_and!.
  - apply parsePerms_NoDup.
  - intros sc. split.
    + intros (g & -> & Hg)%list_elem_of_fmap. rewrite Forall_forall in HF. by apply HF.
    + intros (entry & Hin & Hsc). by destruct (Hc entry sc Hin Hsc) as [?%elem_of_nil|].
  - eapply Forall_impl; [exact HF|]. simpl. intros g (_ & [? _] & ? & _). done.
Qed.

Example parsePerms_example :
  scope <$> parsePerms "sign_event:1, nip44_encrypt ,connect,sign_event:x,ping:7,sign_event:1" 0
  = [("sign_event", Some 1%Z); ("nip44_encrypt", None); ("ping", None)].
Proof. vm_compute. reflexivity. Qed.

(** ** Witnesses *)

Definition ex_entry (m verdict expires : string) (kinds : option kinds_json) (uses : Z) : entry_json :=
  mkEntryJson m kinds verdict expires uses.

Definition ex_grants_file : spec_json :=
  mkSpecJson "laptop"
    [ex_entry "sign_event" "" "24h" (Some (KList [1; 7]%Z)) 0;
     ex_entry "nip44_decrypt" "Deny" "" None 0;
     ex_entry "nip44_encrypt" "allow" "" None 5].

Definition ex_ParseDuration (s : string) : option Z :=
  if String.eqb s "24h" then Some (24 * Hour)%Z else None.

Definition ex_UnmarshalStrict (s : string) : option envelope_json :=
  if String.eqb s "" then None else Some (mkEnvelope "Bunker" (Some ex_grants_file)).

Definition ex_grant_spec : GrantSpec :=
  match GrantSpec_UnmarshalJSON ex_ParseDuration ex_grants_file with
  | Ok s => s | Err _ => mkGrantSpec "" [] end.

Lemma ex_grant_spec_loads :
  LoadGrantSpec ex_ParseDuration ex_UnmarshalStrict (Some "file") = Ok ex_grant_spec.
Proof. vm_compute. reflexivity. Qed.

Lemma ex_durations s d : ex_ParseDuration s = Some d -> is_int64 d.
Proof. unfold ex_ParseDuration. destruct (String.eqb _ _); intros [= <-]. done. Qed.

Lemma LoadGrantSpec_resolves_witness :
  length (Resolve ex_grant_spec Second) = 4 /\ NoDup (scope <$> Resolve ex_grant_spec Second) /\
  Forall (declared Second) (Resolve ex_grant_spec Second).
Proof.
  split; [reflexivity|].
  apply (LoadGrantSpec_resolves ex_ParseDuration ex_UnmarshalStrict (Some "file"));
    [exact ex_durations | done | exact ex_grant_spec_loads].
Defined.

Lemma GrantSpec_ipc_roundtrip_witness :
  GrantSpec_UnmarshalJSON ex_ParseDuration (GrantSpec_json ex_grant_spec) = Ok ex_grant_spec.
Proof.
  exact (GrantSpec_ipc_roundtrip ex_ParseDuration ex_UnmarshalStrict (Some "file") ex_grant_spec
           ex_grant_spec_loads).
Defined.
