(* ===== verification/BunkerHandler.v ===== *)
(** * The bunker's authorization path

    Models [src/cli/bunker/handler.go] (the policy of the NIP-46 signer), the
    decisions of [localClient] in [client.go] and the pairing entry points of
    [daemon.go].  The signer itself ([bunker.Server]: dispatch, encryption,
    pairing secrets) is in the nmilat library and calls [Authorize] and
    [decided].  [Authorize] blocks inside [Queue.Add]: [Authorize] runs up to
    there and leaves a goroutine of the queue behind, [Authorize_resume] goes
    on when that goroutine has an answer.  Each call of the store is atomic;
    what [pair] does between its calls is not interleaved with other
    operations. *)
From S2P Require Import Prelude GoTime GoStrings Nostr BunkerPolicy BunkerQueue.
From S2P Require Import BunkerGrantSpec.
From stdpp Require Import options.

Local Open Scope string_scope.

Definition PairingSecretTTL : Z := DefaultPendingTTL.

(** [bunker.Call]; the metadata is a name and a URL. *)
Record Call := mkCall {
  c_ID : string;
  c_Client : string;
  c_Method : string;
  c_Params : list string;
  c_Perms : string;
  c_Event : option Event;
  c_Metadata : option (string * string);
}.

(** The texts given to [nip46.Deny]. *)
Inductive DenyText := NotPaired | RejectedText | SignerBusy.

(** [h_armed] is the last [ArmSecret]; [h_autoApproved] and [h_signed] are what
    [OnAutoApproved] and [OnSigned] were called with; [h_serverOk] is whether
    [server] could be built. *)
Record Handler := mkHandler {
  h_Store : Store;
  h_Queue : system;
  h_pendingGrantSpec : option GrantSpec;
  h_pairingSecretTTL : Z;
  h_serverOk : bool;
  h_armed : option (string * Z);
  h_autoApproved : list Pending;
  h_signed : list (string * Event);
}.

Definition set_store (s : Store) (h : Handler) : Handler :=
  mkHandler s (h_Queue h) (h_pendingGrantSpec h) (h_pairingSecretTTL h) (h_serverOk h)
    (h_armed h) (h_autoApproved h) (h_signed h).
Definition set_queue (q : system) (h : Handler) : Handler :=
  mkHandler (h_Store h) q (h_pendingGrantSpec h) (h_pairingSecretTTL h) (h_serverOk h)
    (h_armed h) (h_autoApproved h) (h_signed h).
Definition set_spec (spec : option GrantSpec) (h : Handler) : Handler :=
  mkHandler (h_Store h) (h_Queue h) spec (h_pairingSecretTTL h) (h_serverOk h)
    (h_armed h) (h_autoApproved h) (h_signed h).
Definition set_armed (a : option (string * Z)) (h : Handler) : Handler :=
  mkHandler (h_Store h) (h_Queue h) (h_pendingGrantSpec h) (h_pairingSecretTTL h) (h_serverOk h)
    a (h_autoApproved h) (h_signed h).
Definition OnAutoApproved (p : Pending) (h : Handler) : Handler :=
  mkHandler (h_Store h) (h_Queue h) (h_pendingGrantSpec h) (h_pairingSecretTTL h) (h_serverOk h)
    (h_armed h) (h_autoApproved h ++ [p])%list (h_signed h).
Definition OnSigned (id : string) (ev : Event) (h : Handler) : Handler :=
  mkHandler (h_Store h) (h_Queue h) (h_pendingGrantSpec h) (h_pairingSecretTTL h) (h_serverOk h)
    (h_armed h) (h_autoApproved h) (h_signed h ++ [(id, ev)])%list.

(** ** Staging a pairing *)

Definition SetPendingSecret (secret : string) (h : Handler) : Handler :=
  let ttl := if (h_pairingSecretTTL h =? 0)%Z then PairingSecretTTL else h_pairingSecretTTL h in
  let h := set_spec None h in
  if h_serverOk h then set_armed (Some (secret, ttl)) h else h.

Definition SetPendingGrants (spec : GrantSpec) (h : Handler) : Handler := set_spec (Some spec) h.

Definition takePendingGrantSpec (h : Handler) : option GrantSpec * Handler :=
  (h_pendingGrantSpec h, set_spec None h).

Definition hasPendingGrantSpec (h : Handler) : bool :=
  match h_pendingGrantSpec h with Some _ => true | None => false end.

(** [NewBunkerPairingWithGrants] with the secret it generated. *)
Definition NewBunkerPairingWithGrants (secret : string) (spec : option GrantSpec) (h : Handler)
    : Handler :=
  let h := SetPendingSecret secret h in
  match spec with Some spec => SetPendingGrants spec h | None => h end.

Section Handler.
Variable Marshal : list Session -> string.

(** How the saves of a pairing fare, by the call that makes them. *)
Record pair_io := mkPairIO {
  io_pair : option SaveFault;
  io_perms : nat -> option SaveFault;
  io_spec : nat -> option SaveFault;
  io_name : option SaveFault;
}.

Definition io_fine : pair_io := mkPairIO None (fun _ => None) (fun _ => None) None.

(** [for _, g := range grants { _ = Store.Remember(peer, g) }] *)
Fixpoint remember_all (fault : nat -> option SaveFault) (now : Z) (peer : string)
    (gs : list Grant) (s : Store) : Store :=
  match gs with
  | [] => s
  | g :: gs =>
      remember_all (fun n => fault (S n)) now peer gs (Remember Marshal (fault 0%nat) now peer g s).2
  end.

(** Applying a spec: its grants, then its nickname. *)
Definition apply_spec (io : pair_io) (now : Z) (peer : string) (spec : option GrantSpec) (s : Store)
    : Store :=
  match spec with
  | None => s
  | Some spec =>
      let s := remember_all (io_spec io) now peer (Resolve spec now) s in
      if is_empty (gs_Nickname spec) then s
      else (SetName Marshal (io_name io) peer (gs_Nickname spec) s).2
  end.

Definition app_identity (meta : option (string * string)) : string * string :=
  default ("", "") meta.

(** [pair] *)
Definition pair (io : pair_io) (now : Z) (call : Call) (persistReqPerms : bool) (h : Handler)
    : Handler :=
  let peer := c_Client call in
  let '(name, url) := app_identity (c_Metadata call) in
  let s := (Pair Marshal (io_pair io) now peer name url (h_Store h)).2 in
  let s := if persistReqPerms
           then remember_all (io_perms io) now peer (parsePerms (c_Perms call) now) s else s in
  let '(spec, h) := takePendingGrantSpec h in
  set_store (apply_spec io now peer spec s) h.

(** What [InitiateNostrconnectWithGrants] does to the store once the library
    has accepted the URI; its lines in the activity log and the wait for the
    app's first request are left out. *)
Definition register_nostrconnect (io : pair_io) (now : Z) (peer : string)
    (meta : option (string * string)) (perms : string) (spec : option GrantSpec) (h : Handler)
    : Handler :=
  let '(name, url) := app_identity meta in
  let s := (Pair Marshal (io_pair io) now peer name url (h_Store h)).2 in
  let s := remember_all (io_perms io) now peer (parsePerms perms now) s in
  set_store (apply_spec io now peer spec s) h.

(** ** [Authorize] *)

Definition call_kind (call : Call) : Z :=
  match c_Event call with Some ev => ev_Kind ev | None => 0 end.

Definition call_pending (call : Call) (created : Z) : Pending :=
  mkPending (c_ID call) (c_Client call) (c_Method call) (call_kind call) (c_Params call)
    (c_Perms call) created 0 (c_Event call).

(** [Queue.Add] up to where it blocks. *)
Definition enter_add (now : Z) (p : Pending) (s : system) : system :=
  let '(r, q) := q_add now p (s_queue s) in
  spawn (match r with
         | AddExisting a => AddWait a
         | AddFull => RefusedFull
         | AddNew a p => AddNotify a p
         end) q s.

(** [Answered None] is the nil error; [Waiting i] blocks as goroutine [i]. *)
Inductive outcome := Answered (r : option DenyText) | Waiting (i : nat).

Definition Authorize (io : pair_io) (fault : option SaveFault) (now : Z) (call : Call) (h : Handler)
    : option (outcome * Handler) :=
  let peer := c_Client call in
  if String.eqb (c_Method call) MethodConnect && hasPendingGrantSpec h then
    let h := OnAutoApproved
               (mkPending (c_ID call) peer (c_Method call) 0 [] "" now 0 None) h in
    Some (Answered None, pair io now call true h)
  else if String.eqb (c_Method call) MethodSwitchRelays
          || String.eqb (c_Method call) MethodLogout then
    if negb (IsPaired peer (h_Store h)) then Some (Answered (Some NotPaired), h)
    else Some (Answered None, h)
  else
    '(v, s) ← Decide Marshal fault now peer (c_Method call) (call_kind call) (h_Store h);
    let h := set_store s h in
    match v with
    | Deny => Some (Answered (Some RejectedText), h)
    | Ask =>
        Some (Waiting (length (s_threads (h_Queue h))),
              set_queue (enter_add now (call_pending call 0) (h_Queue h)) h)
    | Allow =>
        let h := OnAutoApproved (call_pending call now) h in
        Some (Answered None,
              if String.eqb (c_Method call) MethodConnect then pair io now call false h else h)
    end.

(** The rest of [Authorize], when [Queue.Add] returned as goroutine [t] says;
    [None] while it is blocked. *)
Definition Authorize_resume (io : pair_io) (now : Z) (call : Call) (t : thread) (h : Handler)
    : option (option DenyText * Handler) :=
  match t with
  | RefusedFull => Some (Some SignerBusy, h)
  | Returned _ verdict remembered =>
      if negb (bool_decide (verdict = Allow)) then Some (Some RejectedText, h)
      else Some (None, if String.eqb (c_Method call) MethodConnect
                       then pair io now call remembered h else h)
  | _ => None
  end.

(** [json.Unmarshal] of a result into an event. *)
Variable UnmarshalEvent : string -> option Event.

(** [decided], with [Decision.Allowed] and [Decision.Result]; [OnDecision] only
    logs. *)
Definition decided (fault : option SaveFault) (allowed : bool) (call : Call) (result : string)
    (h : Handler) : Handler :=
  if negb allowed then h
  else if String.eqb (c_Method call) MethodSignEvent then
    match UnmarshalEvent result with Some ev => OnSigned (c_ID call) ev h | None => h end
  else if String.eqb (c_Method call) MethodLogout then
    set_store (Revoke Marshal fault (c_Client call) (h_Store h)).2 h
  else h.

(** ** [localClient] *)

Inductive ResolveError := ErrGrantWithoutPending | ErrNotSaved | ErrNotPending.

(** [Queue.Resolve] up to its unlock; the goroutine it leaves delivers the
    verdict. *)
Definition enter_resolve (id : string) (v : Verdict) (remembered : bool) (s : system)
    : option ResolveError * system :=
  match q_resolve id (s_queue s) with
  | Some (a, q) => (None, spawn (Finish PWrite a (mkResolution v remembered false) []) q s)
  | None => (Some ErrNotPending, spawn NotPending (s_queue s) s)
  end.

(** [resolve] *)
Definition resolve (fault : option SaveFault) (now : Z) (id : string) (v : Verdict)
    (remember : option Grant) (h : Handler) : option ResolveError * Handler :=
  let finish (h : Handler) :=
    let '(e, q) := enter_resolve id v (match remember with Some _ => true | None => false end)
                     (h_Queue h) in
    (e, set_queue q h) in
  match remember with
  | None => finish h
  | Some g =>
      match q_Get id (s_queue (h_Queue h)) with
      | None => (Some ErrGrantWithoutPending, h)
      | Some p =>
          let '(ok, s) := Remember Marshal fault now (p_ClientKey p) g (h_Store h) in
          if ok then finish (set_store s h) else (Some ErrNotSaved, set_store s h)
      end
  end.

(** One tick of [Queue.Run]: the sweep, whose goroutine then denies what it
    expired, and the store's prune, each at its own reading of the clock. *)
Definition Run_tick (fault : option SaveFault) (now now' : Z) (h : Handler) : Handler :=
  let '(expired, q) := q_sweep now (s_queue (h_Queue h)) in
  set_store (Prune Marshal fault now' (h_Store h))
    (set_queue (spawn (finish_all expired) q (h_Queue h)) h).

Definition Approve fault now id := resolve fault now id Allow.
Definition Reject fault now id := resolve fault now id Deny.
End Handler.
