(* ===== verification/BunkerHandlerFacts.v ===== *)
(** * What the bunker authorizes

    The handler, the store and the queue together: runs of the bunker as a
    step relation over [BunkerHandler.v], with calls that block and resume,
    decisions by a human, and changes of the store from elsewhere. *)
From S2P Require Import Prelude GoTime GoStrings Nostr BunkerPolicy BunkerPolicyFacts.
From S2P Require Import BunkerQueue BunkerQueueFacts BunkerGrantSpec BunkerGrantSpecFacts.
From S2P Require Import BunkerHandler.
From stdpp Require Import options.

Local Open Scope string_scope.

(** ** Pairing *)

(** A spec whose grants never name a scope twice. *)
Definition spec_ok (spec : option GrantSpec) : Prop :=
  forall s now, spec = Some s -> NoDup (scope <$> Resolve s now).

Section Pairing.
Variable Marshal : list Session -> string.

Lemma Remember_store_ok fault now pub g s :
  store_ok s -> store_ok (Remember Marshal fault now pub g s).2.
Proof. intros Hs. eapply store_step_ok; [exact Hs | apply SRemember]. Qed.

Lemma remember_all_ok fault now peer gs s :
  store_ok s -> store_ok (remember_all Marshal fault now peer gs s).
Proof.
  revert fault s; induction gs as [|g gs IH]; intros fault s Hs; simpl; [done|].
  by apply IH, Remember_store_ok.
Qed.

Lemma remember_all_others fault now peer gs s pub : pub <> peer ->
  st_byPub (remember_all Marshal fault now peer gs s) !! pub = st_byPub s !! pub.
Proof.
  intros Hne. revert fault s; induction gs as [|g gs IH]; intros fault s; simpl; [done|].
  by rewrite IH, Remember_byPub, lookup_insert_ne.
Qed.

Lemma remember_all_paired fault now peer gs s :
  IsPaired peer s = true -> IsPaired peer (remember_all Marshal fault now peer gs s) = true.
Proof.
  revert fault s; induction gs as [|g gs IH]; intros fault s Hs; simpl; [done|].
  apply IH. unfold IsPaired. by rewrite Remember_byPub, lookup_insert_eq.
Qed.

Lemma remember_all_elem fault now peer gs s g :
  store_ok s -> NoDup (scope <$> gs) ->
  g ∈ store_grants peer (remember_all Marshal fault now peer gs s) <->
  g ∈ gs \/ (g ∈ store_grants peer s /\ ¬ (scope g ∈ scope <$> gs)).
Proof.
  revert fault s; induction gs as [|g0 gs IH]; intros fault s Hs; csimpl; [set_solver|].
  intros [Hni Hnd]%NoDup_cons. rewrite IH by (done || by apply Remember_store_ok).
  rewrite Remember_elem by done. rewrite !elem_of_cons. split.
  - intros [?|[[->|[? ?]] ?]]; [by left; right | by left; left | right; split; [done|]].
    by intros [?|?].
  - intros [[->|?]|[? Hn]]; [right | by left | right]; (split; [|by auto]); [by left | right; auto].
Qed.

Lemma SetName_facts fault peer name s :
  let s' := (SetName Marshal fault peer name s).2 in
  (store_ok s -> store_ok s') /\ (forall pub, IsPaired pub s' = IsPaired pub s) /\
  (forall pub, store_grants pub s' = store_grants pub s) /\
  (forall pub, pub <> peer -> st_byPub s' !! pub = st_byPub s !! pub).
Proof.
  cbv zeta. split; [intros Hs; eapply store_step_ok; [exact Hs | apply SSetName]|].
  unfold SetName, IsPaired, store_grants. destruct (st_byPub s !! peer) as [sess|] eqn:E; [|done].
  destruct (saveLocked _ _ _) as [ok s1] eqn:Es. simpl.
  change s1 with (ok, s1).2. rewrite <- Es, saveLocked_byPub. simpl. clear Es.
  split_and!; intros pub; destruct (decide (pub = peer)) as [->|Hne];
    rewrite ?lookup_insert_eq, ?lookup_insert_ne by done; rewrite ?E; done.
Qed.

Lemma Pair_facts fault now peer name url s :
  let s' := (Pair Marshal fault now peer name url s).2 in
  (store_ok s -> store_ok s') /\ IsPaired peer s' = true /\
  (forall pub, store_grants pub s' = store_grants pub s) /\
  (forall pub, pub <> peer -> st_byPub s' !! pub = st_byPub s !! pub).
Proof.
  cbv zeta. split; [intros Hs; eapply store_step_ok; [exact Hs | apply SPair]|].
  unfold Pair, IsPaired, store_grants. destruct (st_byPub s !! peer) as [sess|] eqn:E;
    [simpl; by rewrite E|].
  rewrite saveLocked_byPub. simpl. split_and!; [by rewrite lookup_insert_eq|..];
    intros pub; destruct (decide (pub = peer)) as [->|Hne];
    rewrite ?lookup_insert_eq, ?lookup_insert_ne by done; rewrite ?E; done.
Qed.

(** The grants a pairing adds. *)
Definition staged (spec : option GrantSpec) (now : Z) : list Grant :=
  match spec with Some s => Resolve s now | None => [] end.

Definition requested (persist : bool) (perms : string) (now : Z) : list Grant :=
  if persist then parsePerms perms now else [].

Lemma apply_spec_facts io now peer spec s :
  store_ok s -> spec_ok spec ->
  let s' := apply_spec Marshal io now peer spec s in
  store_ok s' /\ (IsPaired peer s = true -> IsPaired peer s' = true) /\
  (forall pub, pub <> peer -> st_byPub s' !! pub = st_byPub s !! pub) /\
  (forall g, g ∈ store_grants peer s' <->
     g ∈ staged spec now \/ (g ∈ store_grants peer s /\ ¬ (scope g ∈ scope <$> staged spec now))).
Proof.
  intros Hs Hspec. destruct spec as [spec|]; simpl; [|split_and!; set_solver].
  specialize (Hspec spec now eq_refl).
  set (s1 := remember_all _ _ _ _ _ _).
  assert (Hs1 : store_ok s1) by by apply remember_all_ok.
  assert (Hb : store_ok s1 /\ (IsPaired peer s = true -> IsPaired peer s1 = true) /\
    (forall pub, pub <> peer -> st_byPub s1 !! pub = st_byPub s !! pub) /\
    (forall g, g ∈ store_grants peer s1 <-> g ∈ Resolve spec now \/
       (g ∈ store_grants peer s /\ ¬ (scope g ∈ scope <$> Resolve spec now)))).
  { split_and!; [done | apply remember_all_paired | apply remember_all_others |].
    intros g. by apply remember_all_elem. }
  destruct (is_empty _); [done|].
  destruct (SetName_facts (io_name io) peer (gs_Nickname spec) s1) as (Ha & Hp & Hg & Ho).
  destruct Hb as (_ & Hp1 & Ho1 & Hg1). split_and!; [by apply Ha | by rewrite Hp | |].
  - intros pub Hne. by rewrite Ho, Ho1.
  - intros g. by rewrite Hg, Hg1.
Qed.

(** What [pair] leaves behind. *)
Record paired (now : Z) (call : Call) (persist : bool) (h h' : Handler) : Prop := {
  pd_ok : store_ok (h_Store h');
  pd_spec : h_pendingGrantSpec h' = None;
  pd_paired : IsPaired (c_Client call) (h_Store h') = true;
  pd_others pub : pub <> c_Client call ->
    st_byPub (h_Store h') !! pub = st_byPub (h_Store h) !! pub;
  pd_grants g : g ∈ store_grants (c_Client call) (h_Store h') <->
    g ∈ staged (h_pendingGrantSpec h) now \/
    (¬ (scope g ∈ scope <$> staged (h_pendingGrantSpec h) now) /\
     (g ∈ requested persist (c_Perms call) now \/
      (¬ (scope g ∈ scope <$> requested persist (c_Perms call) now) /\
       g ∈ store_grants (c_Client call) (h_Store h))));
  pd_queue : h_Queue h' = h_Queue h;
}.

Lemma pair_paired io now call persist h :
  store_ok (h_Store h) -> spec_ok (h_pendingGrantSpec h) ->
  paired now call persist h (pair Marshal io now call persist h).
Proof.
  intros Hs Hspec. unfold pair. destruct (app_identity (c_Metadata call)) as [name url]. simpl.
  destruct (Pair_facts (io_pair io) now (c_Client call) name url (h_Store h)) as (Hok & Hp & Hg & Ho).
  set (s1 := (Pair _ _ _ _ _ _ _).2) in *. specialize (Hok Hs).
  set (s2 := if persist then _ else _).
  assert (H2 : store_ok s2 /\ IsPaired (c_Client call) s2 = true /\
    (forall pub, pub <> c_Client call -> st_byPub s2 !! pub = st_byPub (h_Store h) !! pub) /\
    (forall g, g ∈ store_grants (c_Client call) s2 <-> g ∈ requested persist (c_Perms call) now \/
       (g ∈ store_grants (c_Client call) (h_Store h) /\
        ¬ (scope g ∈ scope <$> requested persist (c_Perms call) now)))).
  { unfold s2, requested. destruct persist.
    - split_and!; [by apply remember_all_ok | by apply remember_all_paired | |].
      + intros pub Hne. by rewrite remember_all_others, Ho.
      + intros g. rewrite remember_all_elem by (done || apply parsePerms_NoDup). by rewrite Hg.
    - split_and!; [done | done | done |]. intros g. rewrite Hg. csimpl. set_solver. }
  destruct H2 as (Hok2 & Hp2 & Ho2 & Hg2).
  destruct (apply_spec_facts io now (c_Client call) (h_pendingGrantSpec h) s2 Hok2 Hspec)
    as (Hok3 & Hp3 & Ho3 & Hg3).
  constructor; simpl; try done.
  - by apply Hp3.
  - intros pub Hne. by rewrite Ho3, Ho2.
  - intros g. rewrite Hg3, Hg2. tauto.
Qed.
End Pairing.

(** ** Waiting in the queue *)

(** Goroutine [i] asked for, and waits on or was answered for, the id [id]. *)
Definition waiter (s : system) (i : nat) (id : string) : Prop :=
  exists t, s_threads s !! i = Some t /\
    match t with
    | AddNotify a _ | AddWait a | Returned a _ _ =>
        exists e, q_heap (s_queue s) !! a = Some e /\ p_ID (e_pending e) = id
    | RefusedFull => True
    | _ => False
    end.

(** The pending request of an entry never changes. *)
Definition heap_grows (h h' : list entry) : Prop :=
  forall a e, h !! a = Some e -> exists e', h' !! a = Some e' /\ e_pending e' = e_pending e.

Lemma heap_grows_refl h : heap_grows h h.
Proof. intros a e H. eauto. Qed.

Lemma heap_grows_alter f a h :
  (forall e, e_pending (f e) = e_pending e) -> heap_grows h (alter f a h).
Proof.
  intros Hf b e Hb. destruct (decide (b = a)) as [->|Hne].
  - exists (f e). by rewrite list_lookup_alter_eq, Hb.
  - exists e. by rewrite list_lookup_alter_ne.
Qed.

Lemma heap_grows_mark_all as_ h : heap_grows h (mark_all as_ h).
Proof.
  intros b e Hb. rewrite mark_all_lookup, Hb. destruct (decide _); simpl; eauto.
Qed.

Lemma heap_grows_app h l : heap_grows h (h ++ l).
Proof. intros a e H. exists e. by rewrite (lookup_app_l_Some _ _ _ _ H). Qed.

Lemma waiter_grows s s' i id :
  heap_grows (q_heap (s_queue s)) (q_heap (s_queue s')) ->
  (forall t, s_threads s !! i = Some t -> exists t', s_threads s' !! i = Some t' /\
     match t with
     | AddNotify a _ | AddWait a | Returned a _ _ =>
         match t' with AddNotify b _ | AddWait b | Returned b _ _ => b = a | _ => False end
     | RefusedFull => t' = RefusedFull
     | _ => True
     end) ->
  waiter s i id -> waiter s' i id.
Proof.
  intros Hh Ht (t & Hi & Hm). destruct (Ht t Hi) as (t' & Hi' & Hrel). exists t'. split; [done|].
  destruct t; try done; [..|by subst];
    destruct Hm as (e & He & <-); destruct (Hh _ _ He) as (e' & He' & Hp);
    destruct t'; subst; try done; exists e'; by rewrite Hp.
Qed.

Lemma thread_kept (t : thread) :
  match t with
  | AddNotify a _ | AddWait a | Returned a _ _ =>
      match t with AddNotify b _ | AddWait b | Returned b _ _ => b = a | _ => False end
  | RefusedFull => t = RefusedFull
  | _ => True
  end.
Proof. by destruct t. Qed.

Lemma waiter_spawn s t q i id :
  heap_grows (q_heap (s_queue s)) (q_heap q) -> waiter s i id -> waiter (spawn t q s) i id.
Proof.
  intros Hh. apply waiter_grows; [done|]. intros t' Ht'. exists t'. split; [|apply thread_kept].
  simpl. by apply lookup_app_l_Some.
Qed.

(** A goroutine's own step changes no other goroutine. *)
Lemma waiter_step s s' j t0 t1 i id :
  s_threads s !! j = Some t0 -> s_threads s' = <[j := t1]> (s_threads s) ->
  heap_grows (q_heap (s_queue s)) (q_heap (s_queue s')) ->
  match t0 with
  | AddNotify a _ | AddWait a =>
      match t1 with AddNotify b _ | AddWait b | Returned b _ _ => b = a | _ => False end
  | Returned _ _ _ | RefusedFull => False
  | _ => True
  end ->
  waiter s i id -> waiter s' i id.
Proof.
  intros Hj Ht Hh Hrel. apply waiter_grows; [done|]. intros t Hi. rewrite Ht.
  destruct (decide (i = j)) as [->|Hne].
  - exists t1. rewrite list_lookup_insert_eq by (by eapply lookup_lt_Some). split; [done|].
    rewrite Hj in Hi. injection Hi as <-. by destruct t0.
  - exists t. rewrite list_lookup_insert_ne by done. split; [done | apply thread_kept].
Qed.

Lemma q_add_grows now p q : heap_grows (q_heap q) (q_heap (q_add now p q).2).
Proof.
  unfold q_add. destruct (q_byID q !! p_ID p); [apply heap_grows_refl|].
  destruct (_ <=? _)%Z; [apply heap_grows_refl | apply heap_grows_app].
Qed.

Lemma q_resolve_grows id q a q' : q_resolve id q = Some (a, q') -> heap_grows (q_heap q) (q_heap q').
Proof.
  unfold q_resolve. destruct (q_byID q !! id) as [b|]; [|done]. simpl.
  destruct (q_heap q !! b) as [e|] eqn:E; [|done]. simpl. destruct (e_resolved e); [done|].
  intros [= <- <-]. simpl. rewrite <- (alter_insert mark_resolved _ _ _ E). by apply heap_grows_alter.
Qed.

Lemma waiter_qstep s s' i id : qstep s (Some s') -> waiter s i id -> waiter s' i id.
Proof.
  intros H. inversion H; subst; clear H.
  - pose proof (q_add_grows now p (s_queue s)) as Hg. destruct (q_add _ _ _) as [r q]. by apply waiter_spawn.
  - destruct (q_resolve _ _) as [[a q]|] eqn:E; apply waiter_spawn;
      [by eapply q_resolve_grows | apply heap_grows_refl].
  - apply waiter_spawn, heap_grows_mark_all.
  - eapply waiter_step; try done. apply heap_grows_refl.
  - eapply waiter_step; try done. apply heap_grows_refl.
  - eapply waiter_step; try done. by apply heap_grows_alter.
  - eapply waiter_step; try done. apply heap_grows_refl.
  - eapply waiter_step; try done. by apply heap_grows_alter.
Qed.

Lemma events_grow s s' : qstep s (Some s') -> exists l, s_events s' = (s_events s ++ l)%list.
Proof.
  intros H. inversion H; subst; clear H; repeat case_match;
    try (exists []; by rewrite app_nil_r); simpl; eauto.
Qed.

(** ** Runs *)

(** The calls that are blocked, with the goroutine each blocks as, and the
    answers given so far. *)
Record bunker := mkBunker {
  b_h : Handler;
  b_waiting : list (nat * Call);
  b_done : list (Call * option DenyText);
}.

Section Runs.
Variable Marshal : list Session -> string.
Variable UnmarshalEvent : string -> option Event.
Variable ParseDuration : string -> option Z.

(** Specs are staged as they come out of [GrantSpec.UnmarshalJSON]. *)
Inductive bstep (b : bunker) : bunker -> Prop :=
| BAnswer io fault now call r h :
    Authorize Marshal io fault now call (b_h b) = Some (Answered r, h) ->
    bstep b (mkBunker h (b_waiting b) (b_done b ++ [(call, r)]))
| BBlock io fault now call i h :
    Authorize Marshal io fault now call (b_h b) = Some (Waiting i, h) ->
    bstep b (mkBunker h (b_waiting b ++ [(i, call)]) (b_done b))
| BResume io now i call t r h l1 l2 :
    b_waiting b = (l1 ++ (i, call) :: l2)%list ->
    s_threads (h_Queue (b_h b)) !! i = Some t ->
    Authorize_resume Marshal io now call t (b_h b) = Some (r, h) ->
    bstep b (mkBunker h (l1 ++ l2) (b_done b ++ [(call, r)]))
| BQueue q :
    qstep (h_Queue (b_h b)) (Some q) ->
    bstep b (mkBunker (set_queue q (b_h b)) (b_waiting b) (b_done b))
| BStore s :
    store_step Marshal (h_Store (b_h b)) s ->
    bstep b (mkBunker (set_store s (b_h b)) (b_waiting b) (b_done b))
| BResolve fault now id v remember :
    bstep b (mkBunker (resolve Marshal fault now id v remember (b_h b)).2 (b_waiting b) (b_done b))
| BTick fault now now' :
    bstep b (mkBunker (Run_tick Marshal fault now now' (b_h b)) (b_waiting b) (b_done b))
| BDecided fault allowed call result :
    bstep b (mkBunker (decided Marshal UnmarshalEvent fault allowed call result (b_h b))
               (b_waiting b) (b_done b))
| BStage secret spec :
    (forall s, spec = Some s -> exists j, GrantSpec_UnmarshalJSON ParseDuration j = Ok s) ->
    bstep b (mkBunker (NewBunkerPairingWithGrants secret spec (b_h b)) (b_waiting b) (b_done b))
| BConnect io now peer meta perms spec :
    (forall s, spec = Some s -> exists j, GrantSpec_UnmarshalJSON ParseDuration j = Ok s) ->
    bstep b (mkBunker (register_nostrconnect Marshal io now peer meta perms spec (b_h b))
               (b_waiting b) (b_done b)).

(** A bunker that starts with an empty store and queue. *)
Definition boot (max ttl secretTTL : Z) (serverOk : bool) : bunker :=
  mkBunker (mkHandler (mkStore ∅ None) (start max ttl) None secretTTL serverOk None [] []) [] [].

(** A human allowed a request with this id. *)
Definition approved (s : system) (id : string) : Prop :=
  exists a ev, (a, ev) ∈ s_events s /\ re_Verdict ev = Allow /\ p_ID (re_Pending ev) = id.

Definition sensitive (call : Call) : Prop :=
  c_Method call = MethodSignEvent /\ sensitiveKinds (call_kind call) = true.

Record bunker_inv (b : bunker) : Prop := {
  bi_store : store_ok (h_Store (b_h b));
  bi_queue : queue_inv (h_Queue (b_h b));
  bi_spec : spec_ok (h_pendingGrantSpec (b_h b));
  bi_waiting i call : (i, call) ∈ b_waiting b -> waiter (h_Queue (b_h b)) i (c_ID call);
  bi_done call : (call, None) ∈ b_done b -> sensitive call ->
    approved (h_Queue (b_h b)) (c_ID call);
}.

Lemma unmarshalled_spec_ok spec :
  (forall s, spec = Some s -> exists j, GrantSpec_UnmarshalJSON ParseDuration j = Ok s) -> spec_ok spec.
Proof.
  intros H s now Hs. destruct (H s Hs) as (j & Hj). by eapply checked_scopes.
Qed.

Lemma spec_ok_None : spec_ok None.
Proof. by intros ? ? [=]. Qed.

(** A step that leaves the queue alone and answers nothing sensitive. *)
Lemma inv_frame b h w d :
  bunker_inv b -> h_Queue h = h_Queue (b_h b) -> store_ok (h_Store h) ->
  spec_ok (h_pendingGrantSpec h) -> (forall x, x ∈ w -> x ∈ b_waiting b) ->
  (forall call, (call, None) ∈ d -> (call, None) ∈ b_done b \/ ¬ sensitive call \/
     approved (h_Queue (b_h b)) (c_ID call)) ->
  bunker_inv (mkBunker h w d).
Proof.
  intros [Hs Hq Hp Hw Hd] Hqe Hs' Hp' Hw' Hd'. constructor; simpl; rewrite ?Hqe; try done.
  - intros i call Hin. by apply Hw, Hw'.
  - intros call [?|[?|?]]%Hd' Hsen; [by apply Hd | done | done].
Qed.

(** A step of the queue. *)
Lemma inv_queue b q w :
  bunker_inv b -> qstep (h_Queue (b_h b)) (Some q) ->
  (forall i call, (i, call) ∈ w -> (i, call) ∈ b_waiting b \/ waiter q i (c_ID call)) ->
  bunker_inv (mkBunker (set_queue q (b_h b)) w (b_done b)).
Proof.
  intros [Hs Hq Hp Hw Hd] Hstep Hw'. constructor; simpl; try done.
  - by eapply step_keeps.
  - intros i call [Hin|?]%Hw'; [|done]. by eapply waiter_qstep, Hw.
  - intros call Hin Hsen. destruct (Hd call Hin Hsen) as (a & ev & Hev & ? & ?).
    destruct (events_grow _ _ Hstep) as (l & Hl). exists a, ev. rewrite Hl. set_solver.
Qed.

Lemma enter_add_step now p s : qstep s (Some (enter_add now p s)).
Proof. apply step_add. Qed.

Lemma enter_add_waiter now p s :
  queue_inv s -> waiter (enter_add now p s) (length (s_threads s)) (p_ID p).
Proof.
  intros Hinv. unfold enter_add, q_add. destruct (q_byID (s_queue s) !! p_ID p) as [a|] eqn:E.
  - destruct (qi_map s Hinv _ _ E) as (e & He & Hid). exists (AddWait a). simpl.
    split; [by apply list_lookup_middle|]. eauto.
  - destruct (_ <=? _)%Z; [exists RefusedFull|eexists (AddNotify _ _)]; simpl;
      (split; [by apply list_lookup_middle|]); [done|].
    eexists. split; [by apply list_lookup_middle | done].
Qed.

(** An answer of "allow" was given by a human and reported. *)
Lemma returned_approved s i id a rem :
  queue_inv s -> waiter s i id -> s_threads s !! i = Some (Returned a Allow rem) -> approved s id.
Proof.
  intros Hinv (t & Ht & Hm) Hi. rewrite Hi in Ht. injection Ht as <-.
  destruct Hm as (e & He & Hid). destruct (qi_returned s Hinv i a Allow rem Hi) as (e' & He' & Hd & Hv & _).
  rewrite He in He'. injection He' as <-.
  assert (Hin : a ∈ (s_events s).*1) by (apply (qi_event s Hinv); left; eauto).
  apply list_elem_of_fmap in Hin as ([b ev] & -> & Hin).
  destruct (qi_content s Hinv b ev Hin) as (e2 & He2 & ->). simpl in He. rewrite He in He2.
  injection He2 as <-. exists b, (resolved_event e (e_result e)). by split_and!.
Qed.

Lemma done_snoc (d : list (Call * option DenyText)) call r call' :
  (call', None) ∈ (d ++ [(call, r)])%list -> (call', None) ∈ d \/ (call' = call /\ r = None).
Proof. rewrite elem_of_app, list_elem_of_singleton. intros [?|[= <- <-]]; auto. Qed.

Lemma pair_frame b io now call persist h w d :
  bunker_inv b -> h_Store h = h_Store (b_h b) \/ store_ok (h_Store h) ->
  h_Queue h = h_Queue (b_h b) -> h_pendingGrantSpec h = h_pendingGrantSpec (b_h b) ->
  (forall x, x ∈ w -> x ∈ b_waiting b) ->
  (forall call, (call, None) ∈ d -> (call, None) ∈ b_done b \/ ¬ sensitive call \/
     approved (h_Queue (b_h b)) (c_ID call)) ->
  bunker_inv (mkBunker (pair Marshal io now call persist h) w d).
Proof.
  intros Hb Hs Hq Hp Hw Hd. pose proof Hb as [Hs0 _ Hp0 _ _].
  assert (Hok : store_ok (h_Store h)) by (destruct Hs as [->|]; done).
  destruct (pair_paired Marshal io now call persist h Hok ltac:(by rewrite Hp)) as [H1 H2 H3 H4 H5 H6].
  eapply inv_frame; [exact Hb | by rewrite H6 | done | rewrite H2; apply spec_ok_None | done | done].
Qed.

(** Where [Authorize] answers at once. *)
Lemma answer_inv b io fault now call r h :
  bunker_inv b -> Authorize Marshal io fault now call (b_h b) = Some (Answered r, h) ->
  bunker_inv (mkBunker h (b_waiting b) (b_done b ++ [(call, r)])).
Proof.
  intros Hb. pose proof Hb as [Hs Hq Hp _ _]. unfold Authorize.
  assert (Hdone : ¬ sensitive call -> forall call', (call', None) ∈ (b_done b ++ [(call, r)])%list ->
    (call', None) ∈ b_done b \/ ¬ sensitive call' \/ approved (h_Queue (b_h b)) (c_ID call')).
  { intros Hns call' [?|[-> _]]%done_snoc; auto. }
  destruct (String.eqb (c_Method call) MethodConnect && _) eqn:Ec.
  { apply andb_true_iff in Ec as [Ec%String.eqb_eq _]. intros [= <- <-]. apply (pair_frame b); auto.
    apply Hdone. intros [Hm _]. rewrite Hm in Ec. discriminate Ec. }
  destruct (String.eqb (c_Method call) MethodSwitchRelays || _) eqn:Em.
  { assert (Hns : ¬ sensitive call) by (intros [Hm _]; rewrite Hm in Em; done).
    destruct (negb _); intros [= <- <-]; apply (inv_frame b); auto. }
  clear Ec Em. destruct (Decide _ _ _ _ _ _ _) as [[v s]|] eqn:Ed; [|done]. simpl.
  assert (Hs' : store_ok s) by (by eapply Decide_ok). destruct v; [done|..].
  - assert (Hns : ¬ sensitive call).
    { intros [Hm Hk]. rewrite Hm in Ed. by eapply Decide_never_allows in Ed. }
    intros [= <- <-]. destruct (String.eqb _ _); [apply (pair_frame b) | apply (inv_frame b)]; auto.
  - intros [= <- <-]. apply (inv_frame b); auto. intros call' [?|[_ [=]]]%done_snoc. auto.
Qed.

(** Where it blocks. *)
Lemma block_inv b io fault now call i h :
  bunker_inv b -> Authorize Marshal io fault now call (b_h b) = Some (Waiting i, h) ->
  bunker_inv (mkBunker h (b_waiting b ++ [(i, call)]) (b_done b)).
Proof.
  intros Hb. pose proof Hb as [Hs Hq Hp _ _]. unfold Authorize.
  destruct (_ && _); [done|]. destruct (_ || _); [by destruct (negb _)|].
  destruct (Decide _ _ _ _ _ _ _) as [[v s]|] eqn:Ed; [|done]. simpl.
  assert (Hs' : store_ok s) by (by eapply Decide_ok). destruct v; [|done..].
  intros [= <- <-].
  assert (Hb' : bunker_inv (mkBunker (set_store s (b_h b)) (b_waiting b) (b_done b)))
    by (apply (inv_frame b); auto).
  apply (inv_queue _ _ _ Hb'); [apply enter_add_step|]. simpl.
  intros j call' [?|Hin%list_elem_of_singleton]%elem_of_app; [by left|]. right.
  injection Hin as -> ->. by apply (enter_add_waiter now (call_pending call 0)).
Qed.

Lemma resume_inv b io now i call t r h l1 l2 :
  bunker_inv b -> b_waiting b = (l1 ++ (i, call) :: l2)%list ->
  s_threads (h_Queue (b_h b)) !! i = Some t ->
  Authorize_resume Marshal io now call t (b_h b) = Some (r, h) ->
  bunker_inv (mkBunker h (l1 ++ l2) (b_done b ++ [(call, r)])).
Proof.
  intros Hb Hw Ht Hr. pose proof Hb as [Hs Hq Hp Hwt _].
  assert (Hsub : forall x, x ∈ (l1 ++ l2)%list -> x ∈ b_waiting b) by (rewrite Hw; set_solver).
  assert (Hwait : waiter (h_Queue (b_h b)) i (c_ID call)) by (apply Hwt; rewrite Hw; set_solver).
  destruct t; try done; simpl in Hr.
  - destruct (negb _) eqn:Ev; propify.
    + injection Hr as <- <-. apply (inv_frame b); auto. intros call' [?|[_ [=]]]%done_snoc. auto.
    + subst v. pose proof (returned_approved _ _ _ _ _ Hq Hwait Ht) as Happ.
      injection Hr as <- <-.
      destruct (String.eqb _ _); [apply (pair_frame b) | apply (inv_frame b)]; auto;
        intros call' [?|[-> _]]%done_snoc; auto.
  - injection Hr as <- <-. apply (inv_frame b); auto. intros call' [?|[_ [=]]]%done_snoc. auto.
Qed.

Lemma resolve_step_inv b fault now id v remember :
  bunker_inv b ->
  bunker_inv (mkBunker (resolve Marshal fault now id v remember (b_h b)).2 (b_waiting b) (b_done b)).
Proof.
  intros Hb. unfold resolve.
  assert (Hfin : forall s rem, store_ok s -> bunker_inv (mkBunker
    (let '(e, q) := enter_resolve id v rem (h_Queue (b_h b)) in (e, set_queue q (set_store s (b_h b)))).2
    (b_waiting b) (b_done b))).
  { intros s rem Hs.
    assert (Hb' : bunker_inv (mkBunker (set_store s (b_h b)) (b_waiting b) (b_done b)))
      by (apply (inv_frame b); auto; apply Hb).
    pose proof (step_resolve (h_Queue (b_h b)) id v rem) as Hq. unfold enter_resolve.
    destruct (q_resolve _ _) as [[a q]|]; apply (inv_queue _ _ _ Hb'); auto. }
  destruct remember as [g|].
  - destruct (q_Get _ _) as [p|]; [|by destruct b].
    destruct (Remember _ _ _ _ _ _) as [ok s] eqn:Er.
    assert (Hs : store_ok s) by (change s with (ok, s).2; rewrite <- Er; apply Remember_store_ok, Hb).
    destruct ok; [by apply Hfin | apply (inv_frame b); auto; apply Hb].
  - pose proof (Hfin (h_Store (b_h b)) false ltac:(apply Hb)) as H. by destruct (b_h b).
Qed.
Lemma bstep_inv b b' : bunker_inv b -> bstep b b' -> bunker_inv b'.
Proof.
  intros Hb H. pose proof Hb as [Hs Hq Hp _ _].
  inversion H as [io fault now call r h Ha|io fault now call i h Ha|io now i call t r h l1 l2 Hw Ht Hr
                 |q Hstep|s Hstep|fault now id v remember|fault now now'|fault allowed call result
                 |secret spec Hspec|io now peer meta perms spec Hspec]; subst; clear H.
  - by eapply answer_inv.
  - by eapply block_inv.
  - by eapply resume_inv.
  - by apply inv_queue; auto.
  - apply (inv_frame b); auto. by eapply store_step_ok.
  - by apply resolve_step_inv.
  - unfold Run_tick. pose proof (step_sweep (h_Queue (b_h b)) now) as Hsw.
    destruct (q_sweep now (s_queue (h_Queue (b_h b)))) as [ex q].
    eapply (inv_frame (mkBunker (set_queue (spawn (finish_all ex) q (h_Queue (b_h b))) (b_h b))
              (b_waiting b) (b_done b))); auto; [by apply inv_queue; auto|].
    eapply store_step_ok; [exact Hs | apply SPrune].
  - unfold decided. repeat case_match; try (by destruct b);
      apply (inv_frame b); auto; simpl. eapply store_step_ok; [exact Hs | apply SRevoke].
  - apply unmarshalled_spec_ok in Hspec.
    unfold NewBunkerPairingWithGrants, SetPendingSecret, SetPendingGrants.
    destruct spec as [spec|]; (destruct (h_serverOk _); apply (inv_frame b); auto; apply spec_ok_None).
  - apply unmarshalled_spec_ok in Hspec. unfold register_nostrconnect.
    destruct (app_identity meta) as [name url].
    destruct (Pair_facts Marshal (io_pair io) now peer name url (h_Store (b_h b))) as (Hok & _).
    apply (inv_frame b); auto. simpl.
    by apply apply_spec_facts; [apply remember_all_ok, Hok|].
Qed.

Lemma boot_inv max ttl secretTTL ok : bunker_inv (boot max ttl secretTTL ok).
Proof.
  constructor; simpl; [done | apply queue_start | apply spec_ok_None | set_solver | set_solver].
Qed.

Lemma run_inv max ttl secretTTL ok b :
  rtc bstep (boot max ttl secretTTL ok) b -> bunker_inv b.
Proof.
  intros H. pose proof (boot_inv max ttl secretTTL ok) as H0. revert H0.
  induction H as [|b1 b2 b3 Hs _ IH]; [done|]. intros H1. by apply IH, (bstep_inv b1).
Qed.


Lemma paired_auto now call persist p h h' :
  paired now call persist (OnAutoApproved p h) h' -> paired now call persist h h'.
Proof. by intros []. Qed.

Lemma pair_auto io now call persist h :
  h_autoApproved (pair Marshal io now call persist h) = h_autoApproved h.
Proof. unfold pair. by destruct (app_identity _). Qed.

(** What pairing grants.  With a staged spec a connect is approved at once
    (and reported without its parameters, which carry the secret); the app
    then holds the spec's grants, the permissions it asked for and what it
    held before, each scope once, the first of these winning, and the spec is
    used up.  A connect that a human allowed does the same, with the
    permissions asked for only if the human chose to remember: "Approve Once"
    with nothing staged changes no app's grants.  Other apps are never
    affected. *)
Theorem connect_grants max ttl secretTTL ok b io fault now call :
  rtc bstep (boot max ttl secretTTL ok) b -> c_Method call = MethodConnect ->
  (is_Some (h_pendingGrantSpec (b_h b)) ->
     exists h, Authorize Marshal io fault now call (b_h b) = Some (Answered None, h) /\
       paired now call true (b_h b) h /\
       h_autoApproved h = (h_autoApproved (b_h b) ++
         [mkPending (c_ID call) (c_Client call) MethodConnect 0 [] "" now 0 None])%list) /\
  (forall a remembered,
     exists h, Authorize_resume Marshal io now call (Returned a Allow remembered) (b_h b) = Some (None, h) /\
       paired now call remembered (b_h b) h /\
       (remembered = false -> h_pendingGrantSpec (b_h b) = None -> forall pub g,
          g ∈ store_grants pub (h_Store h) <-> g ∈ store_grants pub (h_Store (b_h b)))).
Proof.
  intros Hb%run_inv Hm. pose proof Hb as [Hs _ Hp _ _]. split.
  - intros [spec Hspec]. unfold Authorize, hasPendingGrantSpec. rewrite Hspec, Hm. simpl.
    eexists. split_and!; [done| |apply pair_auto].
    eapply paired_auto. by apply pair_paired.
  - intros a rem. simpl. rewrite Hm. simpl. eexists. split; [done|].
    pose proof (pair_paired Marshal io now call rem (b_h b) Hs Hp) as Hpd. split; [done|].
    intros -> Hnone pub g. destruct (decide (pub = c_Client call)) as [->|Hne].
    + rewrite (pd_grants _ _ _ _ _ Hpd), Hnone. csimpl. set_solver.
    + unfold store_grants. by rewrite (pd_others _ _ _ _ _ Hpd).
Qed.

(** A staged spec can go to the wrong app: if a connect that was made for
    an earlier pairing is still waiting for a human when a spec is staged for
    another one, then approving it, even once, gives that app every grant of
    the spec; and the app the spec was meant for finds none staged, so that it
    has to be approved by hand. *)
Theorem staged_spec_misapplied max ttl secretTTL ok b now call i a rem l1 l2 spec :
  rtc bstep (boot max ttl secretTTL ok) b -> b_waiting b = (l1 ++ (i, call) :: l2)%list ->
  s_threads (h_Queue (b_h b)) !! i = Some (Returned a Allow rem) -> c_Method call = MethodConnect ->
  h_pendingGrantSpec (b_h b) = Some spec ->
  exists h, bstep b (mkBunker h (l1 ++ l2) (b_done b ++ [(call, None)])) /\
    (forall g, g ∈ Resolve spec now -> g ∈ store_grants (c_Client call) (h_Store h)) /\
    hasPendingGrantSpec h = false.
Proof.
  intros Hb%run_inv Hw Ht Hm Hspec. pose proof Hb as [Hs _ Hp _ _].
  pose proof (pair_paired Marshal io_fine now call rem (b_h b) Hs Hp) as Hpd.
  exists (pair Marshal io_fine now call rem (b_h b)). split_and!.
  - eapply (BResume b io_fine now i call _ None); [done | exact Ht|]. simpl. by rewrite Hm.
  - intros g Hg. apply (pd_grants _ _ _ _ _ Hpd). left. by rewrite Hspec.
  - unfold hasPendingGrantSpec. by rewrite (pd_spec _ _ _ _ _ Hpd).
Qed.
End Runs.

(** ** Concrete runs *)

(** Let goroutine [i] take its next step. *)
Definition sched (i : nat) (s : system) : option system :=
  t ← s_threads s !! i;
  match t with
  | AddNotify a p =>
      let s := set_thread i (AddWait a) s in
      Some (mkSystem (s_queue s) (s_threads s) (s_added s ++ [p]) (s_events s))
  | AddWait a =>
      e ← q_heap (s_queue s) !! a;
      if e_done e
      then Some (set_thread i (Returned a (rs_verdict (e_result e)) (rs_remembered (e_result e))) s)
      else None
  | Finish PWrite a r rest =>
      Some (on_heap (alter (set_result r) a) (set_thread i (Finish PNotify a r rest) s))
  | Finish PNotify a r rest =>
      e ← q_heap (s_queue s) !! a;
      let s := set_thread i (Finish PClose a r rest) s in
      Some (mkSystem (s_queue s) (s_threads s) (s_added s) (s_events s ++ [(a, resolved_event e r)]))
  | Finish PClose a r rest =>
      e ← q_heap (s_queue s) !! a;
      if e_done e then None
      else Some (on_heap (alter close_done a) (set_thread i (finish_all rest) s))
  | _ => None
  end.

Fixpoint sched_all (js : list nat) (s : system) : option system :=
  match js with [] => Some s | i :: js => s ← sched i s; sched_all js s end.

Lemma sched_step i s s' : sched i s = Some s' -> qstep s (Some s').
Proof.
  unfold sched. destruct (s_threads s !! i) as [[a p|a| | | |[] a r rest|]|] eqn:Ht; simpl; try done.
  - intros [= <-]. by apply (step_onAdded s i a p).
  - destruct (q_heap (s_queue s) !! a) as [e|] eqn:He; [|done]. simpl.
    destruct (e_done e) eqn:Hd; [|done]. intros [= <-]. by eapply step_receive.
  - intros [= <-]. by apply step_write.
  - destruct (q_heap (s_queue s) !! a) as [e|] eqn:He; [|done]. simpl.
    intros [= <-]. by apply (step_onResolved s i a r rest e).
  - destruct (q_heap (s_queue s) !! a) as [e|] eqn:He; [|done]. simpl.
    destruct (e_done e) eqn:Hd; [done|]. intros [= <-]. by eapply step_close.
Qed.

Section Example_run.
Let step := bstep (fun _ => "") (fun _ => None) ex_ParseDuration.

Lemma sched_run js b q :
  sched_all js (h_Queue (b_h b)) = Some q ->
  rtc step b (mkBunker (set_queue q (b_h b)) (b_waiting b) (b_done b)).
Proof.
  revert b; induction js as [|i js IH]; intros b; simpl.
  - intros [= <-]. destruct b as [[]]. constructor.
  - destruct (sched i _) as [q1|] eqn:E; [|done]. simpl. intros H.
    eapply rtc_l; [eapply BQueue; eapply sched_step; exact E|]. apply (IH (mkBunker (set_queue q1 (b_h b)) _ _)). exact H.
Qed.

(** A call blocks, a spec is staged, the call is approved once and its
    goroutine is answered. *)
Definition ex_blocked (call : Call) : bunker :=
  let b := boot 0 0 0 true in
  mkBunker (set_queue (enter_add 100 (call_pending call 0) (h_Queue (b_h b))) (b_h b)) [(0%nat, call)] [].

Definition ex_decided (spec : option GrantSpec) (call : Call) : bunker :=
  let b := ex_blocked call in
  let h := NewBunkerPairingWithGrants "secret" spec (b_h b) in
  mkBunker (resolve (fun _ => "") None 200 (c_ID call) Allow None h).2 (b_waiting b) (b_done b).

Definition ex_answered (spec : option GrantSpec) (call : Call) : bunker :=
  let b := ex_decided spec call in
  match sched_all [0; 1; 1; 1; 0]%nat (h_Queue (b_h b)) with
  | Some q => mkBunker (set_queue q (b_h b)) (b_waiting b) (b_done b)
  | None => b
  end.


Definition ex_connect_call : Call :=
  mkCall "5" "app-a" MethodConnect ["pub"; "old-secret"] "ping" None None.


Lemma ex_connect_run : rtc step (boot 0 0 0 true) (ex_answered (Some ex_grant_spec) ex_connect_call).
Proof.
  eapply rtc_l; [exact (BBlock _ _ _ (boot 0 0 0 true) io_fine None 100 ex_connect_call 0 _ eq_refl)|].
  eapply rtc_l; [apply (BStage _ _ _ (ex_blocked ex_connect_call) "secret" (Some ex_grant_spec))|].
  { intros s [= <-]. exists ex_grants_file. reflexivity. }
  eapply rtc_l; [eapply (BResolve _ _ _ _ None 200 "5" Allow None)|].
  apply (sched_run [0; 1; 1; 1; 0]%nat (ex_decided (Some ex_grant_spec) ex_connect_call)). reflexivity.
Qed.
End Example_run.




Lemma connect_grants_witness :
  exists h, Authorize (fun _ => "") io_fine None 300 ex_connect_call
              (b_h (ex_answered (Some ex_grant_spec) ex_connect_call)) = Some (Answered None, h) /\
    h_pendingGrantSpec h = None.
Proof.
  destruct (connect_grants _ _ _ 0 0 0 true _ io_fine None 300 ex_connect_call ex_connect_run eq_refl)
    as [H _].
  destruct (H ltac:(by eexists)) as (h & Ha & [] & _). exists h. split; assumption.
Defined.

Lemma staged_spec_misapplied_witness : exists h,
  (forall g, g ∈ Resolve ex_grant_spec 300 -> g ∈ store_grants "app-a" (h_Store h)) /\
  hasPendingGrantSpec h = false.
Proof.
  destruct (staged_spec_misapplied _ _ _ 0 0 0 true _ 300 ex_connect_call 0 0 false [] [] ex_grant_spec
              ex_connect_run eq_refl eq_refl eq_refl eq_refl) as (h & _ & Hg & Hn).
  exists h. split; assumption.
Defined.
