(* ===== verification/BunkerEventLog.v ===== *)
(** * The bunker's request history and its log

    Models [src/cli/bunker/eventlog.go] and the history of [daemon.go]
    ([recordAdded], [recordHistory], [recordAutoApproved], [recordSignedEvent],
    [History]) with the activity log's tail.  The event log is a text file of
    one JSON object per line; a write may fail having written any part of its
    line.  [historyMu] makes the append, the tail and the compaction of one
    resolution atomic.  JSON encoding is a parameter ([WalCodec]). *)
From S2P Require Import Prelude GoTime GoStrings Nostr BunkerPolicy BunkerQueue.
From stdpp Require Import options.
From Stdlib Require Import Ascii.

Local Open Scope string_scope.

Definition maxHistoryTail : nat := 200.
Definition maxLogTail : nat := 500.

(** [if len(xs) > n { xs = xs[len(xs)-n:] }] *)
Definition trim {A} (n : nat) (xs : list A) : list A :=
  if (n <? length xs)%nat then drop (length xs - n) xs else xs.

Record HistoryEntry := mkHistory {
  he_ID : string;
  he_ClientKey : string;
  he_Method : string;
  he_Kind : Z;
  he_CreatedAt : Z;
  he_ResolvedAt : Z;
  he_Verdict : Verdict;
  he_Remembered : bool;
  he_AutoApproved : bool;
  he_Expired : bool;
  he_Event : option Event;
}.

Definition set_event (ev : option Event) (h : HistoryEntry) : HistoryEntry :=
  mkHistory (he_ID h) (he_ClientKey h) (he_Method h) (he_Kind h) (he_CreatedAt h)
    (he_ResolvedAt h) (he_Verdict h) (he_Remembered h) (he_AutoApproved h) (he_Expired h) ev.

(** ** The log's lines *)

Definition walAdded := "added".
Definition walResolved := "resolved".
Definition walSigned := "signed".

Record walEntry := mkWal {
  w_Type : string;
  w_Pending : option Pending;
  w_History : option HistoryEntry;
  w_ID : string;
  w_Event : option Event;
}.

Definition added_entry (p : Pending) : walEntry := mkWal walAdded (Some p) None "" None.
Definition resolved_entry (h : HistoryEntry) : walEntry := mkWal walResolved None (Some h) "" None.
Definition signed_entry (id : string) (ev : option Event) : walEntry := mkWal walSigned None None id ev.

(** [json.Marshal] and [json.Unmarshal] of a line. *)
Class WalCodec := {
  wal_Marshal : walEntry -> string;
  wal_Unmarshal : string -> option walEntry;
}.

Definition NL : ascii := "010".
Definition newline : string := String NL "".

(** What the encoder documents: a value (whose strings are valid UTF-8, as
    everything decoded from JSON is) reads back as itself, in one non-empty
    line; an object cut short is not a value, nor is one followed by another
    object. *)
Class WalCodecLaws (C : WalCodec) : Prop := {
  wal_roundtrip e : wal_Unmarshal (wal_Marshal e) = Some e;
  wal_oneline e : all_bytes (fun c => negb (Ascii.eqb c NL)) (wal_Marshal e) = true;
  wal_nonempty e : wal_Marshal e <> "";
  wal_torn e a b : wal_Marshal e = (a ++ b)%string -> a <> "" -> b <> "" -> wal_Unmarshal a = None;
  wal_glued e a b e' : wal_Marshal e = (a ++ b)%string -> a <> "" -> b <> "" ->
    wal_Unmarshal (a ++ wal_Marshal e') = None;
}.

Section Log.
Context `{C : WalCodec}.

(** ** Writing *)

Inductive WalError := ReadError | CorruptLine (n : nat) | OpenError | WriteError | CompactError.

(** [l_open] is whether the handle [f] is open. *)
Record EventLog := mkLog {
  l_file : string;
  l_open : bool;
  l_resolvedSinceCompact : Z;
}.

(** How an append fails: part of the line is written, or all of it and the
    sync fails. *)
Inductive WriteFault := PartialWrite (n : nat) | SyncFails.

(** [appendLocked]: whether it succeeded. *)
Definition appendLocked (fault : option WriteFault) (e : walEntry) (l : EventLog) : bool * EventLog :=
  let data := wal_Marshal e ++ newline in
  if negb (l_open l) then (false, l) else
  match fault with
  | Some (PartialWrite n) =>
      (false, mkLog (l_file l ++ take_string n data) (l_open l) (l_resolvedSinceCompact l))
  | Some SyncFails => (false, mkLog (l_file l ++ data) (l_open l) (l_resolvedSinceCompact l))
  | None => (true, mkLog (l_file l ++ data) (l_open l) (l_resolvedSinceCompact l))
  end.

Definition AppendAdded fault (p : Pending) := appendLocked fault (added_entry p).

Definition AppendResolved fault (h : HistoryEntry) (l : EventLog) : bool * EventLog :=
  let '(ok, l) := appendLocked fault (resolved_entry h) l in
  if ok then (true, mkLog (l_file l) (l_open l) (wrap64 (l_resolvedSinceCompact l + 1)))
  else (false, l).

Definition AppendSigned fault (requestID : string) (ev : option Event) :=
  appendLocked fault (signed_entry requestID ev).

Definition CompactDue (l : EventLog) : bool :=
  (Z.of_nat maxHistoryTail <=? l_resolvedSinceCompact l)%Z.

(** The lines of a log. *)
Fixpoint wal_lines (es : list walEntry) : string :=
  match es with [] => "" | e :: es => wal_Marshal e ++ newline ++ wal_lines es end.

(** How [compact] fails: while writing the temporary file, at the close of the
    handle or at the rename, which leave the log as it was but for the closed
    handle, or at the reopen. *)
Inductive CompactFault := TmpFails | CloseFails | RenameFails | ReopenFails.

(** [compact] *)
Definition compact (fault : option CompactFault) (entries : list HistoryEntry) (l : EventLog)
    : bool * EventLog :=
  let data := wal_lines (map resolved_entry entries) in
  match fault with
  | Some TmpFails => (false, l)
  | Some CloseFails | Some RenameFails =>
      (false, mkLog (l_file l) false (l_resolvedSinceCompact l))
  | Some ReopenFails => (false, mkLog data false (l_resolvedSinceCompact l))
  | None =>
      if negb (l_open l) then (false, l)
      else (true, mkLog data true 0)
  end.

(** ** Reading *)

(** The loop of [readWALEntries]; [n] is the number of lines before. *)
Fixpoint parse_lines (n : nat) (lines : list string) : result WalError (list walEntry) :=
  match lines with
  | [] => Ok []
  | line :: lines' =>
      match wal_Unmarshal line with
      | None => match lines' with [] => Ok [] | _ => Err (CorruptLine (S n)) end
      | Some e => es ← parse_lines (S n) lines'; Ok (e :: es)
      end
  end.

(** [readWALEntries] of the file's content, [None] when it does not exist. *)
Definition readWALEntries (file : option string) : result WalError (list walEntry) :=
  match file with
  | None => Ok []
  | Some data =>
      let trimmed := TrimRightNL data in
      if is_empty trimmed then Ok [] else parse_lines 0 (Split trimmed NL)
  end.

Record replay := mkReplay {
  r_pending : gmap string Pending;
  r_history : gmap string HistoryEntry;
  r_order : list string;
}.

Definition replay_entry (r : replay) (e : walEntry) : replay :=
  if String.eqb (w_Type e) walAdded then
    match w_Pending e with
    | Some p => match r_history r !! p_ID p with
                | None => mkReplay (<[p_ID p := p]> (r_pending r)) (r_history r) (r_order r)
                | Some _ => r
                end
    | None => r
    end
  else if String.eqb (w_Type e) walResolved then
    match w_History e with
    | Some h => mkReplay (delete (he_ID h) (r_pending r)) (<[he_ID h := h]> (r_history r))
                  (match r_history r !! he_ID h with
                   | Some _ => r_order r | None => r_order r ++ [he_ID h] end)%list
    | None => r
    end
  else if String.eqb (w_Type e) walSigned then
    match r_history r !! w_ID e with
    | Some h => mkReplay (r_pending r) (<[w_ID e := set_event (w_Event e) h]> (r_history r)) (r_order r)
    | None => r
    end
  else r.

Definition replay_all (es : list walEntry) : replay :=
  fold_left replay_entry es (mkReplay ∅ ∅ []).

Definition expired_entry (now : Z) (p : Pending) : HistoryEntry :=
  mkHistory (p_ID p) (p_ClientKey p) (p_Method p) (p_Kind p) (p_CreatedAt p) now Deny
    false false true None.

(** The ids of the map in the order of [sort.Slice] by creation. *)
Variable leftoverIDs : gmap string Pending -> list string.

(** The loop that records the leftovers; the fault is that of the first write
    that fails. *)
Fixpoint append_leftovers (faults : list (option WriteFault)) (now : Z) (ps : list Pending)
    (r : replay) (l : EventLog) : bool * replay * EventLog :=
  match ps with
  | [] => (true, r, l)
  | p :: ps =>
      let h := expired_entry now p in
      let '(ok, l) := AppendResolved (default None (head faults)) h l in
      if ok
      then append_leftovers (tail faults) now ps
             (mkReplay (r_pending r) (<[he_ID h := h]> (r_history r)) (r_order r ++ [he_ID h])) l
      else (false, r, l)
  end.

Definition replayed (r : replay) : list HistoryEntry := omap (fun id => r_history r !! id) (r_order r).

(** [LoadEventLog]: the result, and the file afterwards. *)
Definition LoadEventLog (openFails : bool) (faults : list (option WriteFault))
    (cfault : option CompactFault) (now : Z) (file : option string)
    : result WalError (EventLog * list HistoryEntry) * option string :=
  match readWALEntries file with
  | Err e => (Err e, file)
  | Ok entries =>
      let r := replay_all entries in
      if openFails then (Err OpenError, file) else
      let l := mkLog (default "" file) true 0 in
      let ps := omap (fun id => r_pending r !! id) (leftoverIDs (r_pending r)) in
      let '(ok, r, l) := append_leftovers faults now ps r l in
      if negb ok then (Err WriteError, Some (l_file l)) else
      let out := replayed r in
      if (maxHistoryTail <? length out)%nat then
        let out := drop (length out - maxHistoryTail) out in
        let '(ok, l) := compact cfault out l in
        if ok then (Ok (l, out), Some (l_file l)) else (Err CompactError, Some (l_file l))
      else (Ok (l, out), Some (l_file l))
  end.

(** ** The daemon's history *)

(** [d_EventLog] is nil in a daemon without a log.  The activity-log lines the
    operations below add are left out; see [daemon_log]. *)
Record Daemon := mkDaemon {
  d_EventLog : option EventLog;
  d_historyTail : list HistoryEntry;
}.

Definition recordAdded (fault : option WriteFault) (p : Pending) (d : Daemon) : Daemon :=
  match d_EventLog d with
  | None => d
  | Some l => mkDaemon (Some (AppendAdded fault p l).2) (d_historyTail d)
  end.

Definition history_of (now : Z) (ev : ResolvedEvent) : HistoryEntry :=
  let p := re_Pending ev in
  mkHistory (p_ID p) (p_ClientKey p) (p_Method p) (p_Kind p) (p_CreatedAt p) now
    (re_Verdict ev) (re_Remembered ev) (re_AutoApproved ev) (re_Expired ev) (p_Event p).

Definition recordHistory (fault : option WriteFault) (cfault : option CompactFault) (now : Z)
    (ev : ResolvedEvent) (d : Daemon) : Daemon :=
  let h := history_of now ev in
  let log := match d_EventLog d with Some l => Some (AppendResolved fault h l).2 | None => None end in
  let tail := trim maxHistoryTail (d_historyTail d ++ [h])%list in
  mkDaemon (match log with
            | Some l => Some (if CompactDue l then (compact cfault tail l).2 else l)
            | None => None
            end) tail.

Definition recordAutoApproved fault cfault now (p : Pending) (d : Daemon) : Daemon :=
  recordHistory fault cfault now (mkResolvedEvent p Allow false false true) d.

(** The search from the end: the patched tail, or [None]. *)
Fixpoint sign_last (id : string) (ev : option Event) (hs : list HistoryEntry)
    : option (list HistoryEntry) :=
  match hs with
  | [] => None
  | h :: hs =>
      match sign_last id ev hs with
      | Some hs' => Some (h :: hs')
      | None => if String.eqb (he_ID h) id then Some (set_event ev h :: hs) else None
      end
  end.

Definition recordSignedEvent (fault : option WriteFault) (id : string) (ev : option Event) (d : Daemon)
    : Daemon :=
  match sign_last id ev (d_historyTail d) with
  | None => d
  | Some tail =>
      mkDaemon (match d_EventLog d with
                | Some l => Some (AppendSigned fault id ev l).2 | None => None end) tail
  end.

Definition History (d : Daemon) : list HistoryEntry := rev (d_historyTail d).
End Log.

(** ** The activity log *)

Record LogSnapshot := mkLogSnapshot { ls_Lines : list string; ls_Total : Z }.

(** [log] on the tail and the count. *)
Definition daemon_log (line : string) (s : LogSnapshot) : LogSnapshot :=
  mkLogSnapshot (trim maxLogTail (ls_Lines s ++ [line])) (wrap64 (ls_Total s + 1)).
