(* ===== verification/BunkerEventLogFacts.v ===== *)
(** * The history survives

    Theorems on [BunkerEventLog.v]: what a daemon's event log reads back as
    after a crash or a restart. *)
From S2P Require Import Prelude GoTime GoStrings Nostr BunkerPolicy BunkerQueue.
From S2P Require Import BunkerPolicyFacts BunkerEventLog.
From stdpp Require Import options.
From Stdlib Require Import Ascii.

Local Open Scope string_scope.

(** ** Tails *)

Section Trim.
Context {A : Type}.
Implicit Types l m : list A.

Lemma trim_drop n l : trim n l = drop (length l - n) l.
Proof.
  unfold trim. destruct (Nat.ltb_spec n (length l)); [done|].
  by replace (length l - n)%nat with 0%nat by lia.
Qed.

Lemma trim_length n l : (length (trim n l) <= n)%nat.
Proof. rewrite trim_drop, length_drop. lia. Qed.

Lemma trim_small n l : (length l <= n)%nat -> trim n l = l.
Proof. intros H. rewrite trim_drop. by replace (length l - n)%nat with 0%nat by lia. Qed.

(** What was trimmed away before does not matter. *)
Lemma trim_app n l m : trim n (trim n l ++ m)%list = trim n (l ++ m)%list.
Proof.
  destruct (Nat.le_gt_cases (length l) n) as [Hle|Hgt]; [by rewrite (trim_small n l)|].
  set (k := (length l - n)%nat).
  rewrite (trim_drop n (l ++ m)%list), (trim_drop n (trim n l ++ m)%list), !length_app.
  rewrite (trim_drop n l), length_drop. fold k.
  replace (length l - k + length m - n)%nat with (length m) by lia.
  replace (length l + length m - n)%nat with (k + length m)%nat by lia.
  rewrite <- drop_drop. f_equal. rewrite drop_app_le by lia. done.
Qed.

Lemma trim_suffix n l : exists l', l = (l' ++ trim n l)%list.
Proof. exists (take (length l - n) l). by rewrite trim_drop, take_drop. Qed.
End Trim.

Lemma trim_fmap {A B} n (f : A -> B) (l : list A) : trim n (f <$> l) = f <$> trim n l.
Proof. rewrite !trim_drop, length_fmap. by rewrite fmap_drop. Qed.

(** ** Lines *)

Lemma append_String c s t : String c s ++ t = String c (s ++ t).
Proof. done. Qed.

Definition oneline (s : string) : Prop := all_bytes (fun c => negb (Ascii.eqb c NL)) s = true.

Lemma Split_line s t : oneline s -> Split (s ++ newline ++ t) NL = s :: Split t NL.
Proof.
  unfold oneline. induction s as [|c s IH]; simpl; [done|].
  intros [Hc Hs]%andb_true_iff. apply negb_true_iff in Hc. rewrite Hc. by rewrite IH.
Qed.

Lemma Split_last s : oneline s -> Split s NL = [s].
Proof.
  unfold oneline. induction s as [|c s IH]; simpl; [done|].
  intros [Hc Hs]%andb_true_iff. apply negb_true_iff in Hc. rewrite Hc. by rewrite IH.
Qed.

Lemma TrimRightNL_id t : oneline t -> t <> "" -> TrimRightNL t = t.
Proof.
  unfold oneline. induction t as [|c t IH]; [done|]. cbn [all_bytes TrimRightNL].
  intros [Hc Ht]%andb_true_iff _. apply negb_true_iff in Hc. unfold NL in Hc.
  destruct t as [|d t]; [simpl; by rewrite Hc|]. by rewrite IH.
Qed.

Lemma TrimRightNL_keep s t : oneline t -> t <> "" -> TrimRightNL (s ++ t) = s ++ t.
Proof.
  intros Ht Hne. induction s as [|c s IH]; [by apply TrimRightNL_id|].
  rewrite append_String. simpl. rewrite IH. destruct (s ++ t) eqn:E; [|done]. by destruct s, t.
Qed.

Lemma TrimRightNL_end s : TrimRightNL (s ++ newline) = TrimRightNL s.
Proof. induction s as [|c s IH]; simpl; [done|]. by rewrite IH. Qed.

Section Log.
Context `{C : WalCodec}.
Context `{Laws : !WalCodecLaws C}.

Lemma wal_lines_app es es' : wal_lines (es ++ es')%list = wal_lines es ++ wal_lines es'.
Proof. induction es as [|e es IH]; simpl; [done|]. by rewrite IH, !append_assoc. Qed.

Lemma wal_lines_snoc es e : wal_lines (es ++ [e])%list = wal_lines es ++ wal_Marshal e ++ newline.
Proof. rewrite wal_lines_app. simpl. by rewrite append_nil_r. Qed.

Lemma Split_wal es t : Split (wal_lines es ++ t) NL = (map wal_Marshal es ++ Split t NL)%list.
Proof using Laws.
  induction es as [|e es IH]; simpl; [done|]. rewrite !append_assoc.
  rewrite Split_line by apply wal_oneline. by rewrite IH.
Qed.

Lemma parse_entries n es ls :
  parse_lines n (map wal_Marshal es ++ ls)%list =
    match parse_lines (length es + n) ls with Ok es' => Ok (es ++ es')%list | Err e => Err e end.
Proof using Laws.
  revert n; induction es as [|e es IH]; intros n; simpl; [by destruct (parse_lines n ls)|].
  rewrite wal_roundtrip. rewrite IH. replace (length es + S n)%nat with (S (length es + n)) by lia.
  by destruct (parse_lines _ ls).
Qed.

(** A log reads back, whole or with its last line cut short. *)
Lemma read_wal es t :
  t = "" \/ (oneline t /\ t <> "" /\ wal_Unmarshal t = None) ->
  readWALEntries (Some (wal_lines es ++ t)) = Ok es.
Proof using Laws.
  intros Ht. unfold readWALEntries. destruct Ht as [->|(H1 & Hne & Hu)].
  - rewrite append_nil_r. destruct es as [|e es _] using rev_ind; [done|].
    assert (Hne : wal_lines es ++ wal_Marshal e <> "").
    { intros H. apply (wal_nonempty e). by destruct (wal_lines es). }
    rewrite wal_lines_snoc, <- append_assoc, TrimRightNL_end.
    rewrite TrimRightNL_keep by (apply wal_oneline || apply wal_nonempty).
    apply is_empty_false in Hne. rewrite Hne, Split_wal, Split_last by apply wal_oneline.
    rewrite parse_entries. simpl. by rewrite wal_roundtrip.
  - rewrite TrimRightNL_keep by done.
    assert (H : is_empty (wal_lines es ++ t) = false).
    { apply is_empty_false. intros H. apply Hne. by destruct (wal_lines es). }
    rewrite H, Split_wal, Split_last by done. rewrite parse_entries. simpl. rewrite Hu.
    by rewrite app_nil_r.
Qed.
End Log.

(** ** Replaying *)

Record replay_ok (r : replay) : Prop := {
  ro_nodup : NoDup (r_order r);
  ro_order id : id ∈ r_order r <-> is_Some (r_history r !! id);
  ro_key id h : r_history r !! id = Some h -> he_ID h = id;
  ro_pending id p : r_pending r !! id = Some p -> p_ID p = id /\ r_history r !! id = None;
}.

Lemma replay_empty : replay_ok (mkReplay ∅ ∅ []).
Proof.
  constructor; simpl; [constructor | | by intros ? ? ?%lookup_empty_Some | by intros ? ? ?%lookup_empty_Some].
  intros id. rewrite lookup_empty. split; [by intros ?%elem_of_nil | by intros [? ?]].
Qed.

Lemma replayed_ids r : replay_ok r -> he_ID <$> replayed r = r_order r.
Proof.
  intros [_ Ho Hk _]. unfold replayed.
  assert (H : forall id, id ∈ r_order r -> is_Some (r_history r !! id)) by (intros id; apply Ho).
  clear Ho. induction (r_order r) as [|id l IH]; csimpl; [done|].
  destruct (H id) as [h Hh]; [left|]. rewrite Hh. csimpl. rewrite (Hk _ _ Hh). f_equal.
  apply IH. intros id' Hid'. apply H. by right.
Qed.

Lemma replayed_ext (m m' : gmap string HistoryEntry) (l : list string) :
  (forall id, id ∈ l -> m !! id = m' !! id) ->
  omap (fun id => m !! id) l = omap (fun id => m' !! id) l.
Proof.
  induction l as [|id l IH]; intros H; [done|]. csimpl. rewrite (H id) by left.
  rewrite IH; [done|]. intros id' Hid'. apply H. by right.
Qed.

(** A resolution of a new id is appended. *)
Lemma replay_resolved r h : replay_ok r -> r_history r !! he_ID h = None ->
  let r' := replay_entry r (resolved_entry h) in
  replay_ok r' /\ r_pending r' = delete (he_ID h) (r_pending r) /\
  r_history r' = <[he_ID h := h]> (r_history r) /\ r_order r' = (r_order r ++ [he_ID h])%list /\
  replayed r' = (replayed r ++ [h])%list.
Proof.
  intros [Hnd Ho Hk Hp] Hnew. cbv zeta.
  assert (Heq : replay_entry r (resolved_entry h) = mkReplay (delete (he_ID h) (r_pending r))
    (<[he_ID h := h]> (r_history r)) (r_order r ++ [he_ID h])%list)
    by (unfold replay_entry; simpl; by rewrite Hnew).
  rewrite Heq. clear Heq.
  assert (Hni : ¬ (he_ID h ∈ r_order r)) by (rewrite Ho, Hnew; by intros [? ?]).
  split_and!; try done.
  - constructor; simpl.
    + apply NoDup_app. split_and!; [done | set_solver | apply NoDup_singleton].
    + intros id. rewrite elem_of_app, list_elem_of_singleton, Ho.
      destruct (decide (id = he_ID h)) as [->|Hne];
        [rewrite lookup_insert_eq | rewrite lookup_insert_ne by done]; naive_solver.
    + intros id h'. destruct (decide (id = he_ID h)) as [->|Hne];
        [rewrite lookup_insert_eq; by intros [= <-] | rewrite lookup_insert_ne by done; apply Hk].
    + intros id p [Hne Hip]%lookup_delete_Some. rewrite lookup_insert_ne by done. by apply Hp.
  - unfold replayed; simpl. rewrite omap_app. simpl. rewrite lookup_insert_eq. f_equal.
    apply replayed_ext. intros id Hid. apply lookup_insert_ne. by intros <-.
Qed.

(** Resolutions of new, distinct ids. *)
Lemma replay_resolutions hs r :
  replay_ok r -> NoDup (he_ID <$> hs) -> Forall (fun h => r_history r !! he_ID h = None) hs ->
  let r' := fold_left replay_entry (map resolved_entry hs) r in
  replay_ok r' /\ replayed r' = (replayed r ++ hs)%list /\
  (forall id p, r_pending r' !! id = Some p <-> r_pending r !! id = Some p /\ ¬ (id ∈ he_ID <$> hs)) /\
  r_history r' = fold_left (fun m h => <[he_ID h := h]> m) hs (r_history r) /\
  r_order r' = (r_order r ++ map he_ID hs)%list.
Proof.
  revert r; induction hs as [|h hs IH]; intros r Hr; csimpl.
  { intros _ _. rewrite !app_nil_r. split_and!; try done. set_solver. }
  intros [Hni Hnd]%NoDup_cons [Hh Hhs]%Forall_cons.
  destruct (replay_resolved r h Hr Hh) as (Hr' & Hp & Hm & Hord & Hout). cbv zeta in *.
  set (r1 := replay_entry r (resolved_entry h)) in *.
  destruct (IH r1 Hr' Hnd) as (Hok & Ho & Hpend & Hh' & Ho').
  { apply Forall_forall. intros h' Hin. rewrite Hm, lookup_insert_ne.
    - rewrite Forall_forall in Hhs. by apply Hhs.
    - intros Heq. apply Hni. rewrite Heq. by apply list_elem_of_fmap_2. }
  split_and!; [done | by rewrite Ho, Hout, <- app_assoc | | by rewrite Hh', Hm
              | by rewrite Ho', Hord, <- app_assoc].
  intros id p. rewrite Hpend, Hp, lookup_delete_Some. set_solver.
Qed.

(** A new or repeated request changes nothing that is resolved; it waits unless
    it is resolved already. *)
Lemma replay_added r p : replay_ok r ->
  let r' := replay_entry r (added_entry p) in
  replay_ok r' /\ r_order r' = r_order r /\ replayed r' = replayed r /\
  r_pending r' = if decide (is_Some (r_history r !! p_ID p)) then r_pending r else <[p_ID p := p]> (r_pending r).
Proof.
  intros Hr. cbv zeta. unfold replay_entry; simpl.
  destruct (r_history r !! p_ID p) eqn:E; [by rewrite decide_True by eauto|].
  rewrite decide_False by (by intros [? ?]).
  destruct Hr as [Hnd Ho Hk Hp]. split_and!; try done.
  constructor; simpl; try done. intros id q.
  destruct (decide (id = p_ID p)) as [->|Hne];
    [rewrite lookup_insert_eq; by intros [= <-] | rewrite lookup_insert_ne by done; apply Hp].
Qed.

(** A signature is attached to the entry with its id. *)
Definition patch (id : string) (ev : option Event) (h : HistoryEntry) : HistoryEntry :=
  if String.eqb (he_ID h) id then set_event ev h else h.

Lemma replayed_fmap (f : HistoryEntry -> HistoryEntry) (m m' : gmap string HistoryEntry) (l : list string) :
  (forall id, m' !! id = f <$> m !! id) ->
  omap (fun id => m' !! id) l = f <$> omap (fun id => m !! id) l.
Proof.
  intros Hm. induction l as [|x l IH]; [done|]. csimpl. rewrite Hm.
  destruct (m !! x); csimpl; by rewrite IH.
Qed.

Lemma replay_signed r id ev : replay_ok r ->
  let r' := replay_entry r (signed_entry id ev) in
  replay_ok r' /\ r_order r' = r_order r /\ r_pending r' = r_pending r /\
  replayed r' = patch id ev <$> replayed r.
Proof.
  intros Hr. pose proof Hr as [Hnd Ho Hk Hp]. cbv zeta. unfold replay_entry, replayed; simpl.
  destruct (r_history r !! id) as [h|] eqn:E; simpl.
  - assert (Hm : forall id', <[id := set_event ev h]> (r_history r) !! id' = patch id ev <$> r_history r !! id').
    { intros id'. unfold patch. destruct (decide (id' = id)) as [->|Hne].
      - rewrite lookup_insert_eq, E. simpl. by rewrite (Hk _ _ E), String.eqb_refl.
      - rewrite lookup_insert_ne by done. destruct (r_history r !! id') as [h'|] eqn:E'; [|done]. simpl.
        rewrite (Hk _ _ E'). by destruct (String.eqb_spec id' id). }
    split_and!; try done; [|by apply replayed_fmap].
    constructor; simpl; try done; intros id'.
    + rewrite Ho, Hm. by destruct (r_history r !! id').
    + intros h'. rewrite Hm. destruct (r_history r !! id') as [h0|] eqn:E0; [|done]. simpl.
      intros [= <-]. unfold patch. rewrite <- (Hk _ _ E0). by destruct (String.eqb _ _).
    + intros p Hip. destruct (Hp _ _ Hip) as [? Hn]. rewrite Hm, Hn. done.
  - split_and!; try done. apply replayed_fmap. intros id'. destruct (r_history r !! id') as [h'|] eqn:E'; [|done].
    simpl. unfold patch. rewrite (Hk _ _ E'). destruct (String.eqb_spec id' id); [congruence|done].
Qed.

Lemma patch_other id ev (hs : list HistoryEntry) : ¬ (id ∈ he_ID <$> hs) -> patch id ev <$> hs = hs.
Proof.
  induction hs as [|h hs IH]; [done|]. csimpl. intros [Hne Hn]%not_elem_of_cons.
  rewrite (IH Hn). unfold patch. destruct (String.eqb_spec (he_ID h) id); [congruence|done].
Qed.

Lemma sign_last_elem id ev hs hs' : sign_last id ev hs = Some hs' -> id ∈ he_ID <$> hs.
Proof.
  revert hs'; induction hs as [|h hs IH]; intros hs'; simpl; [done|].
  destruct (sign_last id ev hs); [intros _; csimpl; right; by eapply IH|].
  destruct (String.eqb_spec (he_ID h) id) as [<-|]; [intros _; csimpl; left | done].
Qed.

(** Where ids do not repeat, the last entry with an id is the only one. *)
Lemma sign_last_patch id ev hs : NoDup (he_ID <$> hs) ->
  match sign_last id ev hs with
  | Some hs' => hs' = patch id ev <$> hs
  | None => ¬ (id ∈ he_ID <$> hs)
  end.
Proof.
  induction hs as [|h hs IH]; csimpl; [set_solver|]. intros [Hni Hnd]%NoDup_cons. specialize (IH Hnd).
  destruct (sign_last id ev hs) as [hs'|] eqn:E.
  - apply sign_last_elem in E. subst hs'. csimpl. f_equal. unfold patch.
    destruct (String.eqb_spec (he_ID h) id) as [<-|]; done.
  - destruct (String.eqb_spec (he_ID h) id) as [<-|Hne].
    + csimpl. unfold patch at 1. rewrite String.eqb_refl. by rewrite patch_other.
    + apply not_elem_of_cons. split; [congruence|done].
Qed.

(** ** Runs *)

Section Runs.
Context `{C : WalCodec}.
Variable leftoverIDs : gmap string Pending -> list string.

(** A line that was written reached the file whole, whether or not it was
    synced. *)
Definition written (fault : option WriteFault) : Prop :=
  match fault with Some (PartialWrite _) => False | _ => True end.

(** A compaction that is given up leaves the log as it was. *)
Definition harmless (cfault : option CompactFault) : Prop :=
  match cfault with None | Some TmpFails => True | _ => False end.

(** Whether [recordHistory] rewrites the log. *)
Definition compacts (fault : option WriteFault) (cfault : option CompactFault) (h : HistoryEntry) (d : Daemon) : bool :=
  match d_EventLog d, cfault with
  | Some l, None => CompactDue (AppendResolved fault h l).2
  | _, _ => false
  end.

(** Runs of a daemon from an empty log, with any number of clean restarts, whose
    lines reach the file ([torn_write_poisons] shows what happens otherwise) and
    where no id is resolved twice ([repeated_id_collapses]).  The first set holds
    the ids that were resolved, the second those the log has; the map holds the
    requests that wait: those that were recorded since the last compaction
    ([compaction_forgets]) and are not resolved. *)
Inductive history_run : gset string -> gset string -> gmap string Pending -> Daemon -> Prop :=
| HStart : history_run ∅ ∅ ∅ (mkDaemon (Some (mkLog "" true 0)) [])
| HAdded ids logged waiting d fault p :
    history_run ids logged waiting d -> written fault ->
    history_run ids logged (if decide (p_ID p ∈ logged) then waiting else <[p_ID p := p]> waiting)
      (recordAdded fault p d)
| HResolved ids logged waiting d fault cfault now ev :
    history_run ids logged waiting d -> written fault -> harmless cfault -> (p_ID (re_Pending ev) ∉ ids) ->
    compacts fault cfault (history_of now ev) d = false ->
    history_run ({[p_ID (re_Pending ev)]} ∪ ids) ({[p_ID (re_Pending ev)]} ∪ logged)
      (delete (p_ID (re_Pending ev)) waiting) (recordHistory fault cfault now ev d)
| HCompacted ids logged waiting d fault cfault now ev :
    history_run ids logged waiting d -> written fault -> (p_ID (re_Pending ev) ∉ ids) ->
    compacts fault cfault (history_of now ev) d = true ->
    history_run ({[p_ID (re_Pending ev)]} ∪ ids)
      (list_to_set (he_ID <$> d_historyTail (recordHistory fault cfault now ev d))) ∅
      (recordHistory fault cfault now ev d)
| HSigned ids logged waiting d fault id ev :
    history_run ids logged waiting d -> written fault ->
    history_run ids logged waiting (recordSignedEvent fault id ev d)
| HRestart ids logged waiting d now l l' out file :
    history_run ids logged waiting d -> d_EventLog d = Some l ->
    LoadEventLog leftoverIDs false [] None now (Some (l_file l)) = (Ok (l', out), file) ->
    history_run (dom waiting ∪ ids) (list_to_set (he_ID <$> out)) ∅ (mkDaemon (Some l') out).

(** The log [l] holds the lines [es], which replay to the history whose tail
    is [tail] and to the requests that wait. *)
Record log_inv (ids logged : gset string) (waiting : gmap string Pending) (l : EventLog) (tail : list HistoryEntry)
    (es : list walEntry) : Prop := {
  li_file : l_file l = wal_lines es;
  li_open : l_open l = true;
  li_replay : replay_ok (replay_all es);
  li_tail : trim maxHistoryTail (replayed (replay_all es)) = tail;
  li_ids : logged ⊆ ids;
  li_logged id : id ∈ r_order (replay_all es) <-> id ∈ logged;
  li_pending : r_pending (replay_all es) = waiting;
}.

Lemma replay_all_snoc es e : replay_all (es ++ [e])%list = replay_entry (replay_all es) e.
Proof. unfold replay_all. by rewrite fold_left_app. Qed.

Lemma append_ok fault e l es : written fault -> l_open l = true -> l_file l = wal_lines es ->
  exists b, appendLocked fault e l = (b, mkLog (wal_lines (es ++ [e])%list) true (l_resolvedSinceCompact l)).
Proof.
  intros Hw Ho Hf. unfold appendLocked. rewrite Ho, Hf. simpl. rewrite wal_lines_snoc.
  destruct fault as [[]|]; [done|by eexists..].
Qed.

Lemma start_log : log_inv ∅ ∅ ∅ (mkLog "" true 0) [] [].
Proof. constructor; try done; [apply replay_empty | set_solver]. Qed.

Lemma added_log ids logged waiting l tail es fault p :
  log_inv ids logged waiting l tail es -> written fault ->
  log_inv ids logged (if decide (p_ID p ∈ logged) then waiting else <[p_ID p := p]> waiting)
    (AppendAdded fault p l).2 tail (es ++ [added_entry p]).
Proof.
  intros [Hf Ho Hr Ht Hs Hi Hp] Hw. unfold AppendAdded. destruct (append_ok fault (added_entry p) l es Hw Ho Hf) as (b & ->). simpl.
  destruct (replay_added (replay_all es) p Hr) as (Hr' & Hord & Hout & Hpend).
  constructor; rewrite ?replay_all_snoc; simpl; try done.
  - by rewrite Hout.
  - intros id. rewrite Hord. apply Hi.
  - rewrite Hpend, Hp. apply decide_ext. by rewrite <- Hi, (ro_order _ Hr).
Qed.

Lemma signed_log ids logged waiting l tail es fault id ev :
  log_inv ids logged waiting l tail es -> written fault ->
  log_inv ids logged waiting (AppendSigned fault id ev l).2 (patch id ev <$> tail) (es ++ [signed_entry id ev]).
Proof.
  intros [Hf Ho Hr Ht Hs Hi Hp] Hw. unfold AppendSigned. destruct (append_ok fault (signed_entry id ev) l es Hw Ho Hf) as (b & ->). simpl.
  destruct (replay_signed (replay_all es) id ev Hr) as (Hr' & Hord & Hpend & Hout).
  constructor; rewrite ?replay_all_snoc; simpl; try done.
  - by rewrite Hout, trim_fmap, Ht.
  - intros id'. rewrite Hord. apply Hi.
  - by rewrite Hpend.
Qed.

Lemma tail_ids ids logged waiting l tail es : log_inv ids logged waiting l tail es ->
  NoDup (he_ID <$> tail) /\ (forall id, id ∈ he_ID <$> tail -> id ∈ logged).
Proof.
  intros [_ _ Hr Ht _ Hi _]. pose proof (replayed_ids _ Hr) as Hids.
  destruct (trim_suffix maxHistoryTail (replayed (replay_all es))) as (pre & Hpre). rewrite Ht in Hpre.
  rewrite Hpre, fmap_app in Hids. pose proof (ro_nodup _ Hr) as Hnd. rewrite <- Hids in Hnd, Hi.
  apply NoDup_app in Hnd as (_ & _ & Hnd). split; [done|]. intros id Hid. apply Hi, elem_of_app. by right.
Qed.

(** Resolutions of new ids, appended one by one or in bulk. *)
Lemma resolved_entries ids logged waiting l tail es hs l' :
  log_inv ids logged waiting l tail es -> l_file l' = wal_lines (es ++ map resolved_entry hs) -> l_open l' = true ->
  NoDup (he_ID <$> hs) -> Forall (fun h => r_history (replay_all es) !! he_ID h = None) hs ->
  log_inv (list_to_set (he_ID <$> hs) ∪ ids) (list_to_set (he_ID <$> hs) ∪ logged)
    (filter (fun x => ¬ (x.1 ∈ he_ID <$> hs)) waiting) l' (trim maxHistoryTail (tail ++ hs)) (es ++ map resolved_entry hs).
Proof.
  clear leftoverIDs.
  intros [Hf Ho Hr Ht Hs Hi Hp] Hf' Ho' Hnd Hnew.
  assert (Hall : replay_all (es ++ map resolved_entry hs)%list
                 = fold_left replay_entry (map resolved_entry hs) (replay_all es))
    by (unfold replay_all; by rewrite fold_left_app).
  destruct (replay_resolutions hs (replay_all es) Hr Hnd Hnew) as (Hr' & Hout & Hpend & _).
  rewrite <- Hall in Hr', Hout, Hpend. constructor; try done.
  - by rewrite Hout, <- trim_app, Ht.
  - by apply union_mono_l.
  - intros id. rewrite <- (replayed_ids _ Hr'), Hout, fmap_app, (replayed_ids _ Hr).
    rewrite elem_of_app, elem_of_union, elem_of_list_to_set, Hi. tauto.
  - apply map_eq. intros id. apply option_eq. intros q. rewrite Hpend, Hp, map_lookup_filter_Some. done.
Qed.

(** A compacted log. *)
Lemma compacted_log ids tail l' :
  NoDup (he_ID <$> tail) -> (length tail <= maxHistoryTail)%nat ->
  (forall id, id ∈ he_ID <$> tail -> id ∈ ids) ->
  l_file l' = wal_lines (map resolved_entry tail) -> l_open l' = true ->
  log_inv ids (list_to_set (he_ID <$> tail)) ∅ l' tail (map resolved_entry tail).
Proof.
  clear leftoverIDs.
  intros Hnd Hlen Hids Hf Ho.
  destruct (replay_resolutions tail (mkReplay ∅ ∅ []) replay_empty Hnd) as (Hr & Hout & Hpend & _).
  { apply Forall_forall. intros h _. apply lookup_empty. }
  change (fold_left _ _ _) with (replay_all (map resolved_entry tail)) in *.
  constructor; try done.
  - rewrite Hout. by apply trim_small.
  - intros id Hid%elem_of_list_to_set. by apply Hids.
  - intros id. rewrite <- (replayed_ids _ Hr), Hout. by rewrite elem_of_list_to_set.
  - apply map_eq. intros id. apply option_eq. intros q. rewrite Hpend. simpl. rewrite lookup_empty. naive_solver.
Qed.

Lemma fresh_history es (logged ids : gset string) h : replay_ok (replay_all es) -> logged ⊆ ids ->
  (forall id, id ∈ r_order (replay_all es) <-> id ∈ logged) -> (h ∉ ids) ->
  r_history (replay_all es) !! h = None.
Proof.
  clear leftoverIDs.
  intros Hr Hs Hi Hni. destruct (r_history (replay_all es) !! h) eqn:E; [|done].
  exfalso. apply Hni, Hs, Hi, (ro_order _ Hr). eauto.
Qed.

Lemma filter_single (m : gmap string Pending) id : filter (fun x => ¬ (x.1 ∈ [id])) m = delete id m.
Proof.
  clear leftoverIDs.
  apply map_eq. intros i. apply option_eq. intros q. rewrite map_lookup_filter_Some, lookup_delete_Some, list_elem_of_singleton. naive_solver.
Qed.

Lemma resolved_log ids logged waiting l tail es fault cfault h :
  log_inv ids logged waiting l tail es -> (he_ID h ∉ ids) -> written fault -> harmless cfault ->
  let l1 := (AppendResolved fault h l).2 in
  let tail' := trim maxHistoryTail (tail ++ [h])%list in
  let l2 := if CompactDue l1 then (compact cfault tail' l1).2 else l1 in
  (match cfault with None => CompactDue l1 | Some _ => false end = false ->
   exists es', log_inv ({[he_ID h]} ∪ ids) ({[he_ID h]} ∪ logged) (delete (he_ID h) waiting) l2 tail' es') /\
  (match cfault with None => CompactDue l1 | Some _ => false end = true ->
   exists es', log_inv ({[he_ID h]} ∪ ids) (list_to_set (he_ID <$> tail')) ∅ l2 tail' es').
Proof.
  clear leftoverIDs.
  intros Hl Hni Hw Hh. cbv zeta. pose proof Hl as [Hf Ho Hr Ht Hs Hi Hp].
  assert (Hl1 : exists n, (AppendResolved fault h l).2 = mkLog (wal_lines (es ++ [resolved_entry h])%list) true n).
  { unfold AppendResolved. destruct (append_ok fault (resolved_entry h) l es Hw Ho Hf) as ([|] & ->); by eexists. }
  destruct Hl1 as (n & ->). set (l1 := mkLog _ _ n).
  pose proof (resolved_entries ids logged waiting l tail es [h] l1 Hl eq_refl eq_refl) as H1. csimpl in H1.
  rewrite filter_single, (right_id_L ∅ (∪)) in H1. specialize (H1 ltac:(apply NoDup_singleton)).
  specialize (H1 ltac:(constructor; [by eapply fresh_history|constructor])).
  split.
  - intros Hc. exists (es ++ [resolved_entry h])%list. destruct (CompactDue l1); [|done].
    destruct cfault as [[]|]; done.
  - intros Hc. destruct cfault; [done|]. rewrite Hc. simpl.
    destruct (tail_ids _ _ _ _ _ _ H1) as [Hnd Hids]. eexists.
    apply compacted_log; try done; [apply trim_length|]. intros id Hid%Hids. revert id Hid. fold (({[he_ID h]} ∪ logged) ⊆ ({[he_ID h]} ∪ ids)). by apply union_mono_l.
Qed.

(** What [LoadEventLog] makes of a log, whose last line may be cut short. *)
Lemma append_leftovers_ok now ps r l :
  l_open l = true ->
  exists n, append_leftovers [] now ps r l =
    (true, mkReplay (r_pending r)
             (fold_left (fun m h => <[he_ID h := h]> m) (map (expired_entry now) ps) (r_history r))
             (r_order r ++ map p_ID ps)%list,
     mkLog (l_file l ++ wal_lines (map resolved_entry (map (expired_entry now) ps))) true n).
Proof.
  revert r l; induction ps as [|p ps IH]; intros r l Ho; simpl.
  { rewrite append_nil_r, app_nil_r. destruct r, l; simpl in *; subst. eauto. }
  unfold AppendResolved, appendLocked. rewrite Ho. simpl.
  match goal with |- context [append_leftovers [] now ps ?r1 ?l1] =>
    destruct (IH r1 l1 eq_refl) as (n & ->) end.
  exists n. simpl. by rewrite <- !append_assoc, <- app_assoc.
Qed.

Hypothesis leftoverIDs_perm : forall m, leftoverIDs m ≡ₚ (map_to_list m).*1.

Lemma leftovers_spec (m : gmap string Pending) :
  (forall id p, m !! id = Some p -> p_ID p = id) ->
  let left := omap (fun id => m !! id) (leftoverIDs m) in
  NoDup (p_ID <$> left) /\ (forall p, p ∈ left -> m !! p_ID p = Some p) /\ list_to_set (p_ID <$> left) = dom m.
Proof using leftoverIDs_perm.
  intros Hk left.
  assert (Hin : forall p, p ∈ left -> m !! p_ID p = Some p).
  { intros p (id & Hid & Hp)%list_elem_of_omap. by rewrite (Hk _ _ Hp). }
  assert (Hids : p_ID <$> left = leftoverIDs m).
  { assert (Hall : forall id, id ∈ leftoverIDs m -> is_Some (m !! id)).
    { intros id. rewrite leftoverIDs_perm. intros ([id' p] & -> & Hp)%list_elem_of_fmap.
      apply elem_of_map_to_list in Hp. eauto. }
    unfold left. clear Hin left. induction (leftoverIDs m) as [|id ids IH]; csimpl; [done|].
    destruct (Hall id) as [p Hp]; [left|]. rewrite Hp. csimpl. rewrite (Hk _ _ Hp). f_equal.
    apply IH. intros id' Hid'. apply Hall. by right. }
  rewrite Hids. split; [rewrite leftoverIDs_perm; apply NoDup_fst_map_to_list|]. split; [done|].
  apply set_eq. intros id. rewrite elem_of_list_to_set, leftoverIDs_perm, elem_of_dom, list_elem_of_fmap. split.
  - intros ([i p] & -> & Hp%elem_of_map_to_list). by eexists.
  - intros [p Hp]. exists (id, p). by rewrite elem_of_map_to_list.
Qed.

Lemma leftovers_perm (m : gmap string Pending) :
  omap (fun id => m !! id) (leftoverIDs m) ≡ₚ (map_to_list m).*2.
Proof using leftoverIDs_perm.
  rewrite leftoverIDs_perm.
  assert (H : forall l : list (string * Pending), (forall x, x ∈ l -> m !! x.1 = Some x.2) -> omap (fun id => m !! id) l.*1 = l.*2).
  { induction l as [|[i p] l IH]; intros Hl; [done|]. csimpl. pose proof (Hl (i, p) ltac:(left)) as Hip. simpl in Hip. rewrite Hip. f_equal. apply IH.
    intros x Hx. apply Hl. by right. }
  rewrite H; [done|]. intros [i p] Hx. by apply elem_of_map_to_list in Hx.
Qed.

Definition cut_short (t : string) : Prop :=
  t = "" \/ (oneline t /\ t <> "" /\ wal_Unmarshal t = None).

Lemma load_log `{Laws : !WalCodecLaws C} ids logged waiting l tail es torn now :
  log_inv ids logged waiting l tail es -> cut_short torn ->
  let left := omap (fun id => waiting !! id) (leftoverIDs waiting) in
  let out := trim maxHistoryTail (tail ++ map (expired_entry now) left)%list in
  exists l', LoadEventLog leftoverIDs false [] None now (Some (l_file l ++ torn)) = (Ok (l', out), Some (l_file l')) /\
    (torn = "" -> exists es', log_inv (dom waiting ∪ ids) (list_to_set (he_ID <$> out)) ∅ l' out es').
Proof using leftoverIDs_perm.
  intros Hl Hcut left out. pose proof Hl as [Hf Ho Hr Ht Hs Hi Hp]. unfold LoadEventLog.
  rewrite Hf, (read_wal es torn) by done. simpl. set (r := replay_all es) in *. rewrite Hp. fold left.
  assert (Hkey : forall id p, waiting !! id = Some p -> p_ID p = id /\ r_history r !! id = None)
    by (intros id p; rewrite <- Hp; apply (ro_pending _ Hr)).
  destruct (leftovers_spec waiting) as (Hnd & Hin & Hdom); [by intros id p [? _]%Hkey|].
  fold left in Hnd, Hin, Hdom.
  set (hs := map (expired_entry now) left) in *.
  destruct (append_leftovers_ok now left r (mkLog (wal_lines es ++ torn) true 0) eq_refl) as (n & ->). fold hs.
  assert (Hhs : he_ID <$> hs = p_ID <$> left) by (unfold hs; by rewrite <- list_fmap_compose).
  assert (Hnew : Forall (fun h => r_history r !! he_ID h = None) hs).
  { apply Forall_forall. intros h (p & -> & Hq%Hin)%list_elem_of_fmap. by apply Hkey in Hq as [_ ?]. }
  destruct (replay_resolutions hs r Hr ltac:(by rewrite Hhs) Hnew) as (_ & Hout & _ & Hm & Hord).
  assert (Hrep : replayed (mkReplay (r_pending r) (fold_left (fun m h => <[he_ID h := h]> m) hs (r_history r))
                    (r_order r ++ map p_ID left)%list) = (replayed r ++ hs)%list).
  { rewrite <- Hout. unfold replayed; simpl. rewrite Hm, Hord. unfold hs. by rewrite map_map. }
  rewrite Hrep. clear Hrep Hm Hord.
  set (l1 := mkLog (wal_lines (es ++ map resolved_entry hs)%list) true n).
  pose proof (resolved_entries ids logged waiting l tail es hs l1 Hl eq_refl eq_refl ltac:(by rewrite Hhs) Hnew) as H1.
  rewrite Hhs, Hdom in H1.
  fold out in H1. assert (Htail : out = trim maxHistoryTail (replayed r ++ hs)%list)
    by (unfold out; rewrite <- Ht; apply trim_app).
  destruct (tail_ids _ _ _ _ _ _ H1) as [Hndt Hidt].
  assert (Hsub : forall id, id ∈ he_ID <$> out -> id ∈ dom waiting ∪ ids).
  { intros id Hid%Hidt. revert id Hid. by apply union_mono_l. }
  destruct (maxHistoryTail <? length (replayed r ++ hs))%nat eqn:Elen; unfold trim in Htail; rewrite Elen in Htail.
  - rewrite <- Htail. simpl. exists (mkLog (wal_lines (map resolved_entry out)) true 0). split; [reflexivity|]. intros _. eexists. apply compacted_log; try done. apply trim_length.
  - rewrite <- Htail. eexists. split; [reflexivity|]. intros ->. rewrite append_nil_r. simpl. rewrite <- wal_lines_app.
    exists (es ++ map resolved_entry hs)%list.
    assert (Hall : replay_all (es ++ map resolved_entry hs)%list = fold_left replay_entry (map resolved_entry hs) r)
      by (unfold r, replay_all; by rewrite fold_left_app).
    destruct H1 as [G1 G2 G3 G4 G5 G6 G7]. constructor; try done.
    + intros id Hid%elem_of_list_to_set. by apply Hsub.
    + intros id. rewrite elem_of_list_to_set, Htail, <- Hout, <- Hall, (replayed_ids _ G3). done.
    + rewrite G7. apply map_eq. intros id. rewrite lookup_empty. apply map_lookup_filter_None. right.
      intros p Hw Hn. apply Hn. simpl. rewrite <- (elem_of_list_to_set (C:=gset string)), Hdom. by eapply elem_of_dom_2.
Qed.

Context `{Laws : !WalCodecLaws C}.

Lemma run_log ids logged waiting d : history_run ids logged waiting d ->
  exists l es, d_EventLog d = Some l /\ log_inv ids logged waiting l (d_historyTail d) es.
Proof using leftoverIDs_perm Laws.
  induction 1 as [|ids logged waiting d fault p _ IH Hw|ids logged waiting d fault cfault now ev _ IH Hw Hh Hni Hc
                 |ids logged waiting d fault cfault now ev _ IH Hw Hni Hc|ids logged waiting d fault id ev _ IH Hw
                 |ids logged waiting d now l l' out file _ IH Hd Hload].
  - eexists _, _. split; [done | apply start_log].
  - destruct IH as (l & es & Hl & Hinv). unfold recordAdded. rewrite Hl. eexists _, _.
    split; [done | by apply added_log].
  - destruct IH as (l & es & Hl & Hinv). unfold recordHistory, compacts in *. rewrite Hl in *.
    destruct (resolved_log _ _ _ l _ es fault cfault (history_of now ev) Hinv Hni Hw Hh) as [Hno _].
    destruct Hno as (es' & Hinv'); [by destruct cfault|]. eexists _, _. split; [done | exact Hinv'].
  - destruct IH as (l & es & Hl & Hinv). unfold recordHistory, compacts in *. rewrite Hl in *.
    destruct cfault; [done|].
    destruct (resolved_log _ _ _ l _ es fault None (history_of now ev) Hinv Hni Hw I) as [_ Hyes].
    destruct (Hyes Hc) as (es' & Hinv'). eexists _, _. split; [done | exact Hinv'].
  - destruct IH as (l & es & Hl & Hinv). unfold recordSignedEvent.
    destruct (tail_ids _ _ _ _ _ _ Hinv) as [Hnd _]. pose proof (sign_last_patch id ev _ Hnd) as Hs.
    destruct (sign_last id ev (d_historyTail d)) as [tail'|]; [|by eauto].
    rewrite Hl. subst tail'. eexists _, _. split; [done | by apply signed_log].
  - destruct IH as (l0 & es & Hl & Hinv). rewrite Hl in Hd. injection Hd as ->.
    destruct (load_log _ _ _ l _ es "" now Hinv ltac:(by left)) as (l1 & Heq & Hinv').
    rewrite append_nil_r in Heq. rewrite Hload in Heq. injection Heq as -> -> ->.
    destruct (Hinv' eq_refl) as (es' & Hi). by eexists _, es'.
Qed.

(** Part of a line: what a write that did not complete leaves. *)
Definition torn_line (t : string) : Prop :=
  exists e rest, wal_Marshal e = t ++ rest /\ t <> "" /\ rest <> "".

Lemma oneline_prefix s t : oneline (s ++ t) -> oneline s.
Proof using.
  unfold oneline. induction s as [|c s IH]; [done|].
  rewrite append_String. simpl. intros [-> ?]%andb_true_iff. by apply IH.
Qed.

Lemma oneline_app s t : oneline s -> oneline t -> oneline (s ++ t).
Proof using.
  unfold oneline. induction s as [|c s IH]; [done|].
  rewrite append_String. simpl. intros [-> ?]%andb_true_iff ?. by apply IH.
Qed.

Lemma torn_cut_short t : torn_line t -> cut_short t.
Proof using Laws.
  intros (e & rest & He & Ht & Hr). right. split_and!; [|done | by eapply wal_torn].
  eapply oneline_prefix. rewrite <- He. apply wal_oneline.
Qed.

(** C10: The history survives crashes and restarts.  Take any run of a daemon
    (requests that started waiting, resolutions, signatures, compactions,
    earlier restarts after a clean stop; a sync or a compaction's temporary file
    may fail) in which every line reached the file and no id was resolved twice.
    Then even if it stops in the middle of its last write, the next start
    succeeds and reads back its history: the entries it held, signatures
    included, followed by exactly the requests that were recorded as waiting
    since the last compaction and are not resolved, as denied and expired, cut to
    the last 200. *)
Theorem history_survives ids logged waiting d l torn now :
  history_run ids logged waiting d -> d_EventLog d = Some l -> torn = "" \/ torn_line torn ->
  let left := omap (fun id => waiting !! id) (leftoverIDs waiting) in
  left ≡ₚ (map_to_list waiting).*2 /\
  exists l', LoadEventLog leftoverIDs false [] None now (Some (l_file l ++ torn))
      = (Ok (l', trim maxHistoryTail (d_historyTail d ++ map (expired_entry now) left)%list),
         Some (l_file l')).
Proof using leftoverIDs_perm Laws.
  intros (l0 & es & Hl & Hinv)%run_log Hd Ht left. rewrite Hl in Hd. injection Hd as ->.
  split; [by apply leftovers_perm|].
  assert (Hcut : cut_short torn) by (destruct Ht as [->|?]; [by left | by apply torn_cut_short]).
  destruct (load_log _ _ _ l _ es torn now Hinv Hcut) as (l' & Heq & _). by exists l'.
Qed.

Lemma load_opens now file l out file' :
  LoadEventLog leftoverIDs false [] None now file = (Ok (l, out), file') ->
  l_open l = true /\ file' = Some (l_file l).
Proof using.
  unfold LoadEventLog. destruct (readWALEntries file) as [es|e]; [|done]. simpl.
  destruct (append_leftovers_ok now (omap (fun id => r_pending (replay_all es) !! id)
    (leftoverIDs (r_pending (replay_all es)))) (replay_all es) (mkLog (default "" file) true 0) eq_refl) as (n & ->).
  simpl. case_match; by intros [= <- <- <-].
Qed.

(** A write cut short poisons the log.  The next start opens the file as it
    is, so the first record it appends continues the broken line: it is
    acknowledged as durable but reads back as nothing, and once another record
    follows, every later start fails. *)
Theorem torn_write_poisons es torn now l out e1 e2 :
  torn_line torn ->
  LoadEventLog leftoverIDs false [] None now (Some (wal_lines es ++ torn))
    = (Ok (l, out), Some (wal_lines es ++ torn)) ->
  let '(ok1, l1) := appendLocked None e1 l in
  let '(ok2, l2) := appendLocked None e2 l1 in
  ok1 = true /\ ok2 = true /\
  readWALEntries (Some (l_file l1)) = Ok es /\
  forall now', LoadEventLog leftoverIDs false [] None now' (Some (l_file l2))
    = (Err (CorruptLine (S (length es))), Some (l_file l2)).
Proof using Laws.
  intros (e & rest & He & Ht & Hr) Hload. apply load_opens in Hload as [Ho [= Hf]].
  unfold appendLocked. rewrite Ho. simpl. rewrite <- Hf. simpl. rewrite !append_assoc.
  set (bad := torn ++ wal_Marshal e1).
  assert (Hbad : wal_Unmarshal bad = None) by (by eapply wal_glued).
  assert (Hone : oneline bad).
  { apply oneline_app; [eapply oneline_prefix; rewrite <- He|]; apply wal_oneline. }
  assert (Hnb : bad <> "") by (unfold bad; by destruct torn).
  split_and!; [done | done|..].
  - rewrite <- (append_assoc torn), <- append_assoc. fold bad. unfold readWALEntries.
    rewrite TrimRightNL_end. pose proof (read_wal es bad ltac:(right; by split_and!)) as Hread.
    unfold readWALEntries in Hread. exact Hread.
  - intros now'. unfold LoadEventLog, readWALEntries.
    replace (wal_lines es ++ torn ++ wal_Marshal e1 ++ newline ++ wal_Marshal e2 ++ newline)
      with ((wal_lines es ++ bad ++ newline ++ wal_Marshal e2) ++ newline)
      by (unfold bad; by rewrite !append_assoc).
    rewrite TrimRightNL_end.
    replace (wal_lines es ++ bad ++ newline ++ wal_Marshal e2)
      with ((wal_lines es ++ bad ++ newline) ++ wal_Marshal e2) by (by rewrite !append_assoc).
    rewrite TrimRightNL_keep by (apply wal_oneline || apply wal_nonempty). rewrite !append_assoc.
    assert (H : is_empty (wal_lines es ++ bad ++ newline ++ wal_Marshal e2) = false).
    { apply is_empty_false. unfold bad. destruct (wal_lines es), torn; done. }
    rewrite H, Split_wal, Split_line, Split_last by (done || apply wal_oneline).
    rewrite parse_entries. simpl. rewrite Hbad. by rewrite Nat.add_0_r.
Qed.
End Runs.

(** ** Witnesses *)

#[local] Instance Event_countable : Countable Event.
Proof.
  refine (inj_countable'
    (fun e => (ev_ID e, ev_PubKey e, ev_CreatedAt e, ev_Kind e, ev_Tags e, ev_Content e, ev_Sig e))
    (fun '(a, b, c, d, e, f, g) => mkEvent a b c d e f g) _).
  by intros [].
Defined.

#[local] Instance Pending_eq_dec : EqDecision Pending.
Proof. solve_decision. Defined.

#[local] Instance Pending_countable : Countable Pending.
Proof.
  refine (inj_countable'
    (fun p => (p_ID p, p_ClientKey p, p_Method p, p_Kind p, p_Params p, p_Perms p, p_CreatedAt p,
               p_ExpiresAt p, p_Event p))
    (fun '(a, b, c, d, e, f, g, h, i) => mkPending a b c d e f g h i) _).
  by intros [].
Defined.

#[local] Instance HistoryEntry_eq_dec : EqDecision HistoryEntry.
Proof. solve_decision. Defined.

#[local] Instance HistoryEntry_countable : Countable HistoryEntry.
Proof.
  refine (inj_countable'
    (fun h => (he_ID h, he_ClientKey h, he_Method h, he_Kind h, he_CreatedAt h, he_ResolvedAt h,
               he_Verdict h, he_Remembered h, he_AutoApproved h, he_Expired h, he_Event h))
    (fun '(a, b, c, d, e, f, g, h, i, j, k) => mkHistory a b c d e f g h i j k) _).
  by intros [].
Defined.

#[local] Instance walEntry_eq_dec : EqDecision walEntry.
Proof. solve_decision. Defined.

#[local] Instance walEntry_countable : Countable walEntry.
Proof.
  refine (inj_countable' (fun w => (w_Type w, w_Pending w, w_History w, w_ID w, w_Event w))
    (fun '(a, b, c, d, e) => mkWal a b c d e) _).
  by intros [].
Defined.

(** A line format: the entry's encoding, one digit per bit, in brackets. *)
Fixpoint read_bits (s : string) : option positive :=
  match s with
  | EmptyString => None
  | String c s' =>
      if Ascii.eqb c ">" then (if is_empty s' then Some xH else None)
      else if Ascii.eqb c "0" then xO <$> read_bits s'
      else if Ascii.eqb c "1" then xI <$> read_bits s' else None
  end.

Definition reference_codec : WalCodec := {|
  wal_Marshal e := String "<" (bits (encode e) ++ ">");
  wal_Unmarshal s := match s with
                     | String c s' => if Ascii.eqb c "<" then p ← read_bits s'; decode p else None
                     | EmptyString => None
                     end;
|}.

Lemma read_bits_bits p : read_bits (bits p ++ ">") = Some p.
Proof.
  induction p as [p IH|p IH|]; cbn [bits]; [..|done]; rewrite append_String; simpl; by rewrite IH.
Qed.

Lemma bits_oneline p : oneline (bits p ++ ">").
Proof. apply oneline_app; [|done]. induction p as [p IH|p IH|]; done. Qed.

(** A bracketed number cut before its end, with nothing or an opening bracket
    after it. *)
Lemma read_bits_cut p a b x :
  (bits p ++ ">" = a ++ b)%string -> b <> "" -> read_bits a = None /\ read_bits (a ++ String "<" x) = None.
Proof.
  revert a; induction p as [p IH|p IH|]; intros [|c a] Heq Hb; try done.
  1, 2: cbn [bits] in Heq; rewrite !append_String in Heq; injection Heq as <- Heq;
    destruct (IH a Heq Hb) as [H1 H2]; rewrite append_String; simpl; by rewrite H1, H2.
  rewrite append_String in Heq. injection Heq as _ Heq. by destruct a, b.
Qed.

#[local] Instance reference_codec_laws : WalCodecLaws reference_codec.
Proof.
  assert (Hcut : forall e a b, String "<" (bits (encode (A:=walEntry) e) ++ ">") = (a ++ b)%string -> a <> "" -> b <> "" ->
    exists a', a = String "<" a' /\ (bits (encode e) ++ ">" = a' ++ b)%string).
  { intros e [|c a] b Heq Ha Hb; [done|].
    rewrite append_String in Heq. injection Heq as <- Heq. eauto. }
  constructor; cbn [wal_Marshal wal_Unmarshal reference_codec].
  - intros e. simpl. rewrite read_bits_bits. simpl. apply decode_encode.
  - intros e. simpl. apply bits_oneline.
  - done.
  - intros e a b Heq Ha Hb. destruct (Hcut e a b Heq Ha Hb) as (a' & -> & Heq').
    simpl. by destruct (read_bits_cut _ a' b "" Heq' Hb) as [-> _].
  - intros e a b e' Heq Ha Hb. destruct (Hcut e a b Heq Ha Hb) as (a' & -> & Heq').
    rewrite append_String. simpl.
    by destruct (read_bits_cut _ a' b (bits (encode e') ++ ">") Heq' Hb) as [_ ->].
Qed.

#[local] Existing Instance reference_codec.

Definition map_ids (m : gmap string Pending) : list string := (map_to_list m).*1.

Definition ex_wait_1 : Pending := mkPending "1" "app-a" MethodSignEvent 1 [] "" 5 6 None.
Definition ex_wait_2 : Pending := mkPending "2" "app-b" MethodPing 0 [] "" 7 8 None.

Definition ex_history : Daemon :=
  recordHistory None None 9 (mkResolvedEvent ex_wait_1 Allow false false false)
    (recordAdded None ex_wait_2 (recordAdded None ex_wait_1 (mkDaemon (Some (mkLog "" true 0)) []))).

Definition ex_signed_event : Event := mkEvent "id" "pub" 9 1 [] "hello" "sig".

Lemma ex_history_run :
  history_run map_ids {["1"]} {["1"]} {["2" := ex_wait_2]}
    (recordSignedEvent (Some SyncFails) "1" (Some ex_signed_event) ex_history).
Proof.
  assert (H : history_run map_ids ({["1"]} ∪ ∅) ({["1"]} ∪ ∅) (delete "1" (<["2" := ex_wait_2]> (<["1" := ex_wait_1]> ∅))) ex_history).
  { apply (HResolved map_ids ∅ ∅ (<["2" := ex_wait_2]> (<["1" := ex_wait_1]> ∅)) _ None None 9
      (mkResolvedEvent ex_wait_1 Allow false false false)); [|done..|set_solver|reflexivity].
    assert (Hne : forall id : string, id ∉ (∅ : gset string)) by set_solver.
    pose proof (HAdded map_ids ∅ ∅ ∅ _ None ex_wait_1 (HStart map_ids) I) as H1. rewrite decide_False in H1 by apply Hne.
    pose proof (HAdded map_ids ∅ ∅ _ _ None ex_wait_2 H1 I) as H2. rewrite decide_False in H2 by apply Hne. exact H2. }
  assert (E : delete "1" (<["2" := ex_wait_2]> (<["1" := ex_wait_1]> (∅ : gmap string Pending))) = {["2" := ex_wait_2]})
    by (vm_compute; reflexivity).
  rewrite !(right_id_L ∅ (∪)), E in H. by apply HSigned.
Qed.

Definition ex_history_log : EventLog :=
  default (mkLog "" false 0)
    (d_EventLog (recordSignedEvent (Some SyncFails) "1" (Some ex_signed_event) ex_history)).

Lemma ex_torn : torn_line "<".
Proof.
  exists (added_entry ex_wait_1), (bits (encode (added_entry ex_wait_1)) ++ ">").
  split; [reflexivity|]. split; [done|]. by destruct (bits _).
Qed.

Lemma history_survives_witness : exists l',
  LoadEventLog map_ids false [] None 20 (Some (l_file ex_history_log ++ "<")) =
    (Ok (l', [set_event (Some ex_signed_event) (history_of 9 (mkResolvedEvent ex_wait_1 Allow false false false));
              expired_entry 20 ex_wait_2]), Some (l_file l')).
Proof.
  destruct (history_survives map_ids (fun m => Permutation_refl _) _ _ _ _ ex_history_log "<" 20
    ex_history_run eq_refl (or_intror ex_torn)) as (_ & l' & H).
  exists l'. rewrite H. vm_compute. reflexivity.
Defined.

(** The history a start reads from a log. *)
Definition restarted (l : EventLog) : option (list HistoryEntry) :=
  match (LoadEventLog map_ids false [] None 20 (Some (l_file l))).1 with Ok (_, out) => Some out | Err _ => None end.

(** A compaction keeps the history only: a request that waits meanwhile is gone
    after a restart. *)
Example compaction_forgets :
  let d := recordHistory None None 9 (mkResolvedEvent ex_wait_1 Allow false false false)
             (recordAdded None ex_wait_2 (mkDaemon (Some (mkLog "" true 199)) [])) in
  match d_EventLog d with
  | Some l => restarted l = Some [history_of 9 (mkResolvedEvent ex_wait_1 Allow false false false)]
  | None => False
  end.
Proof. vm_compute. reflexivity. Qed.

(** Two requests with the same id, which apps choose: the history has both, a
    restart only the second. *)
Example repeated_id_collapses :
  let twin := mkPending "1" "app-b" MethodPing 0 [] "" 7 8 None in
  let d := recordHistory None None 10 (mkResolvedEvent twin Deny false false false) ex_history in
  length (d_historyTail d) = 2 /\
  match d_EventLog d with
  | Some l => restarted l = Some [history_of 10 (mkResolvedEvent twin Deny false false false); expired_entry 20 ex_wait_2]
  | None => False
  end.
Proof. vm_compute. split; reflexivity. Qed.

Definition ex_poisoned : EventLog :=
  (appendLocked None (added_entry ex_wait_2)
     (appendLocked None (added_entry ex_wait_1) (mkLog "<" true 0)).2).2.

Lemma torn_write_poisons_witness :
  LoadEventLog map_ids false [] None 30 (Some (l_file ex_poisoned))
  = (Err (CorruptLine 1), Some (l_file ex_poisoned)).
Proof.
  exact (proj2 (proj2 (proj2 (torn_write_poisons map_ids [] "<" 20 (mkLog "<" true 0) []
    (added_entry ex_wait_1) (added_entry ex_wait_2) ex_torn eq_refl))) 30%Z).
Defined.
