(* ===== verification/RelayJobs.v ===== *)
(** * The relay's background jobs: data, texts and the job history

    Models the types, texts and history handling of
    [src/cli/relay/jobs/jobs.go]: a job and its one-line summary, what
    [execute] records when an index operation ends, the bounded history, and
    reading the history file on start, where a job found running died with the
    process and an index whose jobs keep dying is parked.  The manager's
    goroutines are in [RelayManager]. *)
From S2P Require Import Prelude GoTime GoStrings GoFormat.
From stdpp Require Import options.
From Stdlib Require Import Ascii.

Local Open Scope Z_scope.

(** ** Kinds, triggers, states *)

Abbreviation Kind := string (only parsing).
Definition KindCatchUp : Kind := "catch_up".
Definition KindRebuild : Kind := "rebuild".
Definition KindRescore : Kind := "rescore".
Definition KindReap : Kind := "reap".
Definition KindDrop : Kind := "drop".

Abbreviation Trigger := string (only parsing).
Definition TriggerReconcile : Trigger := "reconcile".
Definition TriggerAdmin : Trigger := "admin".

Abbreviation State := string (only parsing).
Definition StateRunning : State := "running".
Definition StateSucceeded : State := "succeeded".
Definition StateFailed : State := "failed".
Definition StateCancelled : State := "cancelled".
Definition StateSuperseded : State := "superseded".
Definition StateInterrupted : State := "interrupted".

Record Job := mkJob {
  j_ID : string;
  j_Index : string;
  j_Kind : Kind;
  j_Trigger : Trigger;
  j_Reason : string;
  j_State : State;
  j_Phase : string;
  j_Done : Z;
  j_Total : Z;
  j_Applied : Z;
  j_EntriesBefore : Z;
  j_EntriesAfter : Z;
  j_StartedAt : Z;
  j_FinishedAt : Z;
  j_DurationMs : Z;
  j_Error : string;
  j_Summary : string;
  j_Noop : bool;
  j_Parked : bool;
}.

#[export] Instance Job_eq_dec : EqDecision Job.
Proof. solve_decision. Defined.

(** Assignments to a field. *)
Definition set_State (v : string) (j : Job) : Job :=
  mkJob (j_ID j) (j_Index j) (j_Kind j) (j_Trigger j) (j_Reason j) v (j_Phase j) (j_Done j)
    (j_Total j) (j_Applied j) (j_EntriesBefore j) (j_EntriesAfter j) (j_StartedAt j)
    (j_FinishedAt j) (j_DurationMs j) (j_Error j) (j_Summary j) (j_Noop j) (j_Parked j).
Definition set_Phase (v : string) (j : Job) : Job :=
  mkJob (j_ID j) (j_Index j) (j_Kind j) (j_Trigger j) (j_Reason j) (j_State j) v (j_Done j)
    (j_Total j) (j_Applied j) (j_EntriesBefore j) (j_EntriesAfter j) (j_StartedAt j)
    (j_FinishedAt j) (j_DurationMs j) (j_Error j) (j_Summary j) (j_Noop j) (j_Parked j).
Definition set_Done (v : Z) (j : Job) : Job :=
  mkJob (j_ID j) (j_Index j) (j_Kind j) (j_Trigger j) (j_Reason j) (j_State j) (j_Phase j) v
    (j_Total j) (j_Applied j) (j_EntriesBefore j) (j_EntriesAfter j) (j_StartedAt j)
    (j_FinishedAt j) (j_DurationMs j) (j_Error j) (j_Summary j) (j_Noop j) (j_Parked j).
Definition set_Total (v : Z) (j : Job) : Job :=
  mkJob (j_ID j) (j_Index j) (j_Kind j) (j_Trigger j) (j_Reason j) (j_State j) (j_Phase j)
    (j_Done j) v (j_Applied j) (j_EntriesBefore j) (j_EntriesAfter j) (j_StartedAt j)
    (j_FinishedAt j) (j_DurationMs j) (j_Error j) (j_Summary j) (j_Noop j) (j_Parked j).
Definition set_Applied (v : Z) (j : Job) : Job :=
  mkJob (j_ID j) (j_Index j) (j_Kind j) (j_Trigger j) (j_Reason j) (j_State j) (j_Phase j)
    (j_Done j) (j_Total j) v (j_EntriesBefore j) (j_EntriesAfter j) (j_StartedAt j)
    (j_FinishedAt j) (j_DurationMs j) (j_Error j) (j_Summary j) (j_Noop j) (j_Parked j).
Definition set_EntriesBefore (v : Z) (j : Job) : Job :=
  mkJob (j_ID j) (j_Index j) (j_Kind j) (j_Trigger j) (j_Reason j) (j_State j) (j_Phase j)
    (j_Done j) (j_Total j) (j_Applied j) v (j_EntriesAfter j) (j_StartedAt j)
    (j_FinishedAt j) (j_DurationMs j) (j_Error j) (j_Summary j) (j_Noop j) (j_Parked j).
Definition set_EntriesAfter (v : Z) (j : Job) : Job :=
  mkJob (j_ID j) (j_Index j) (j_Kind j) (j_Trigger j) (j_Reason j) (j_State j) (j_Phase j)
    (j_Done j) (j_Total j) (j_Applied j) (j_EntriesBefore j) v (j_StartedAt j)
    (j_FinishedAt j) (j_DurationMs j) (j_Error j) (j_Summary j) (j_Noop j) (j_Parked j).
Definition set_FinishedAt (v : Z) (j : Job) : Job :=
  mkJob (j_ID j) (j_Index j) (j_Kind j) (j_Trigger j) (j_Reason j) (j_State j) (j_Phase j)
    (j_Done j) (j_Total j) (j_Applied j) (j_EntriesBefore j) (j_EntriesAfter j)
    (j_StartedAt j) v (j_DurationMs j) (j_Error j) (j_Summary j) (j_Noop j) (j_Parked j).
Definition set_DurationMs (v : Z) (j : Job) : Job :=
  mkJob (j_ID j) (j_Index j) (j_Kind j) (j_Trigger j) (j_Reason j) (j_State j) (j_Phase j)
    (j_Done j) (j_Total j) (j_Applied j) (j_EntriesBefore j) (j_EntriesAfter j)
    (j_StartedAt j) (j_FinishedAt j) v (j_Error j) (j_Summary j) (j_Noop j) (j_Parked j).
Definition set_Error (v : string) (j : Job) : Job :=
  mkJob (j_ID j) (j_Index j) (j_Kind j) (j_Trigger j) (j_Reason j) (j_State j) (j_Phase j)
    (j_Done j) (j_Total j) (j_Applied j) (j_EntriesBefore j) (j_EntriesAfter j)
    (j_StartedAt j) (j_FinishedAt j) (j_DurationMs j) v (j_Summary j) (j_Noop j)
    (j_Parked j).
Definition set_Summary (v : string) (j : Job) : Job :=
  mkJob (j_ID j) (j_Index j) (j_Kind j) (j_Trigger j) (j_Reason j) (j_State j) (j_Phase j)
    (j_Done j) (j_Total j) (j_Applied j) (j_EntriesBefore j) (j_EntriesAfter j)
    (j_StartedAt j) (j_FinishedAt j) (j_DurationMs j) (j_Error j) v (j_Noop j) (j_Parked j).
Definition set_Noop (v : bool) (j : Job) : Job :=
  mkJob (j_ID j) (j_Index j) (j_Kind j) (j_Trigger j) (j_Reason j) (j_State j) (j_Phase j)
    (j_Done j) (j_Total j) (j_Applied j) (j_EntriesBefore j) (j_EntriesAfter j)
    (j_StartedAt j) (j_FinishedAt j) (j_DurationMs j) (j_Error j) (j_Summary j) v
    (j_Parked j).
Definition set_Parked (v : bool) (j : Job) : Job :=
  mkJob (j_ID j) (j_Index j) (j_Kind j) (j_Trigger j) (j_Reason j) (j_State j) (j_Phase j)
    (j_Done j) (j_Total j) (j_Applied j) (j_EntriesBefore j) (j_EntriesAfter j)
    (j_StartedAt j) (j_FinishedAt j) (j_DurationMs j) (j_Error j) (j_Summary j) (j_Noop j) v.

(** The zero [Job{}]. *)
Definition Job_zero : Job := mkJob "" "" "" "" "" "" "" 0 0 0 0 0 0 0 0 "" "" false false.

Definition Job_Ended (j : Job) : bool := negb (String.eqb (j_State j) StateRunning).

Record Progress := mkProgress {
  p_Phase : string;
  p_Done : Z;
  p_Total : Z;
  p_Applied : Z;
}.

Record Result := mkResult {
  res_Applied : Z;
  res_EntriesBefore : Z;
  res_EntriesAfter : Z;
}.

Definition Result_zero : Result := mkResult 0 0 0.

(** ** Errors

    The package's sentinel errors, the causes of a cancelled context, errors
    of the index's backend, and [fmt.Errorf] with [%w]. *)
Inductive error :=
| ErrNothingToDo
| ErrUnknownIndex
| ErrUnavailable
| ErrEnabled
| ErrBusy
| ErrNotFound
| ErrNotCancellable
| errCancelled
| errSuperseded
| errShutdown
| OtherError (text : string)
| Wrapped (before : string) (e : error) (after : string).

#[export] Instance error_eq_dec : EqDecision error.
Proof. solve_decision. Defined.

(** [err.Error()] *)
Fixpoint error_text (e : error) : string :=
  match e with
  | ErrNothingToDo => "nothing to do"
  | ErrUnknownIndex => "unknown index"
  | ErrUnavailable => "index unavailable"
  | ErrEnabled => "index in use"
  | ErrBusy => "another job is running on this index"
  | ErrNotFound => "no such job"
  | ErrNotCancellable => "job can't be cancelled"
  | errCancelled => "cancelled"
  | errSuperseded => "superseded"
  | errShutdown => "relay stopping"
  | OtherError text => text
  | Wrapped before e after => before ++ error_text e ++ after
  end%string.

(** [errors.Is(err, target)] for a sentinel [target]; [None] is [nil]. *)
Fixpoint error_is (e target : error) : bool :=
  bool_decide (e = target) ||
  match e with Wrapped _ e _ => error_is e target | _ => false end.

Definition errors_Is (e : option error) (target : error) : bool :=
  match e with Some e => error_is e target | None => false end.

(** ** Texts *)

Definition describe (k : Kind) : string :=
  if String.eqb k KindCatchUp then "catch-up"
  else if String.eqb k KindReap then "freeing old data"
  else k.

(** The loop of [Count] over the digits: a space before each digit that has a
    multiple of three digits from it to the end, the first apart. *)
Fixpoint group_digits (first : bool) (s : string) : string :=
  match s with
  | EmptyString => EmptyString
  | String c rest =>
      if negb first && (String.length s mod 3 =? 0)%nat
      then String " " (String c (group_digits false rest))
      else String c (group_digits false rest)
  end.

Definition Count (n : Z) : string :=
  let s := Itoa n in
  if n <? 0 then ("-" ++ group_digits true (drop_string 1 s))%string
  else group_digits true s.

(** How long a job took, as its summary prints it. *)
Definition took (j : Job) : string :=
  Duration_String (Duration_Round (Duration_Mul (j_DurationMs j) Millisecond) (100 * Millisecond)).

Definition errDied : string := "the relay process ended while it ran".

Definition summarize (j : Job) : string :=
  (let d := describe (j_Kind j) in
   let change := Count (j_EntriesBefore j) ++ " → " ++ Count (j_EntriesAfter j) ++ " entries" in
   if String.eqb (j_State j) StateFailed then
     j_Index j ++ ": " ++ d ++ " failed after " ++ took j ++ ": " ++ j_Error j
   else if String.eqb (j_State j) StateCancelled then
     j_Index j ++ ": " ++ d ++ " cancelled after " ++ took j
   else if String.eqb (j_State j) StateSuperseded then
     j_Index j ++ ": " ++ d ++ " stopped for a rebuild"
   else if String.eqb (j_State j) StateInterrupted then
     if String.eqb (j_Error j) errDied then
       j_Index j ++ ": " ++ d ++ " ended with the relay process; it resumes on its own"
     else
       j_Index j ++ ": " ++ d ++ " interrupted by a relay stop; it resumes on its own"
   else if String.eqb (j_Kind j) KindRebuild then
     j_Index j ++ ": rebuilt in " ++ took j ++ ", " ++ change
   else if String.eqb (j_Kind j) KindCatchUp then
     j_Index j ++ ": caught up in " ++ took j ++ ", " ++ Count (j_Applied j)
       ++ " changes applied, " ++ change
   else if String.eqb (j_Kind j) KindRescore then
     j_Index j ++ ": rescored in " ++ took j ++ ", " ++ Count (j_Applied j) ++ " scores changed"
   else if String.eqb (j_Kind j) KindReap then
     j_Index j ++ ": freed " ++ Count (j_Applied j) ++ " old entries in " ++ took j
   else if String.eqb (j_Kind j) KindDrop then
     j_Index j ++ ": dropped " ++ Count (j_EntriesBefore j) ++ " entries"
   else
     j_Index j ++ ": " ++ j_Kind j ++ " done in " ++ took j)%string.

(** ** A job's life *)

(** The job [Start] makes. *)
Definition started_job (id index : string) (kind : Kind) (trigger : Trigger)
    (reason : string) (now entries : Z) : Job :=
  mkJob id index kind trigger reason StateRunning "" 0 0 0 entries 0 (Time_Unix now) 0 0 ""
    (index ++ ": " ++ describe kind ++ " started")%string false false.

(** [progress]'s update. *)
Definition job_progress (p : Progress) (j : Job) : Job :=
  set_Applied (p_Applied p) (set_Total (p_Total p) (set_Done (p_Done p) (set_Phase (p_Phase p) j))).

(** The state an ended job gets from its operation's error and the cause its
    context was cancelled with; only a failure keeps the error. *)
Definition end_state (err : option error) (cause : option error) (j : Job) : Job :=
  match err with
  | None => set_State StateSucceeded j
  | Some e =>
      if error_is e ErrNothingToDo then set_State StateSucceeded j
      else if errors_Is cause errSuperseded then set_State StateSuperseded j
      else if errors_Is cause errShutdown then set_State StateInterrupted j
      else if errors_Is cause errCancelled then set_State StateCancelled j
      else set_Error (error_text e) (set_State StateFailed j)
  end.

(** What [execute] records of the run [j] when it ends at [now], [elapsed]
    after it began. *)
Definition finish_job (now elapsed : Z) (res : Result) (err cause : option error) (j : Job) : Job :=
  let ok := bool_decide (err = None) in
  let j := set_DurationMs (Duration_Milliseconds elapsed) (set_FinishedAt (Time_Unix now) j) in
  let j :=
    if negb (res_EntriesBefore res =? 0) || negb (res_EntriesAfter res =? 0) || ok
    then set_EntriesAfter (res_EntriesAfter res) (set_EntriesBefore (res_EntriesBefore res) j)
    else j in
  let j := set_Applied (Z.max (j_Applied j) (res_Applied res)) j in
  let j :=
    if negb (Job_Ended j) && ok then
      let total := Z.max (j_Total j) (j_Done j) in set_Done total (set_Total total j)
    else j in
  let j := end_state err cause (set_Phase "" j) in
  if errors_Is err ErrNothingToDo then set_Summary (j_Index j ++ ": nothing to do")%string j
  else set_Summary (summarize j) j.

(** ** The history *)

Definition keptJobs : nat := 20.

(** The loop of [trimLocked], with how many jobs of each index were kept. *)
Fixpoint trim_from (per : gmap string nat) (history : list Job) : list Job :=
  match history with
  | [] => []
  | j :: history =>
      let n := default O (per !! j_Index j) in
      if (n <? keptJobs)%nat
      then j :: trim_from (<[j_Index j := S n]> per) history
      else trim_from per history
  end.

Definition trim (history : list Job) : list Job := trim_from ∅ history.

(** [sort.SliceStable] by start, newest first. *)
Fixpoint insert_newest (j : Job) (l : list Job) : list Job :=
  match l with
  | [] => [j]
  | k :: l' => if j_StartedAt j <? j_StartedAt k then k :: insert_newest j l' else j :: l
  end.

Fixpoint sort_newest (l : list Job) : list Job :=
  match l with [] => [] | j :: l => insert_newest j (sort_newest l) end.

(** A job recorded as running died with the previous process. *)
Definition mark_died (j : Job) : Job :=
  if String.eqb (j_State j) StateRunning then
    let j := set_Error errDied (set_Phase "" (set_State StateInterrupted j)) in
    let j := if j_FinishedAt j =? 0 then set_FinishedAt (j_StartedAt j) j else j in
    set_Summary (summarize j) j
  else j.

Definition crashLoopRuns : nat := 3.
Definition crashLoopWindow : Z := Hour.

Definition died (j : Job) : bool :=
  String.eqb (j_State j) StateInterrupted && String.eqb (j_Error j) errDied.

(** The loop of [parkLocked]: the first jobs of [index] in the history, up to
    [crashLoopRuns], as long as they died. *)
Fixpoint died_run (n : nat) (index : string) (history : list Job) : list Job :=
  match history with
  | [] => []
  | j :: history =>
      if negb (String.eqb (j_Index j) index) then died_run n index history
      else match n with
           | O => []
           | S n => if died j then j :: died_run n index history else []
           end
  end.

Definition park_job (index : string) (j : Job) : Job :=
  let j := set_Parked true (set_State StateFailed j) in
  let j := set_Error ("the relay stopped " ++ Itoa (Z.of_nat crashLoopRuns) ++
             " times in a row during " ++ describe (j_Kind j) ++
             ", so the relay no longer starts it; ncli relay index rebuild (or drop) " ++
             index ++ " starts over")%string j in
  set_Summary (summarize j) j.

(** Whether [parkLocked] parks [index]. *)
Definition crash_loop (index : string) (history : list Job) : bool :=
  match died_run crashLoopRuns index history with
  | [] => false
  | (first :: rest) as l =>
      let last := List.last rest first in
      (crashLoopRuns <=? length l)%nat &&
      negb (crashLoopWindow / Second <? wrap64 (j_StartedAt first - j_StartedAt last))
  end.

(** [died[0]] is the newest job of the index. *)
Fixpoint update_newest (index : string) (f : Job -> Job) (history : list Job) : list Job :=
  match history with
  | [] => []
  | j :: history =>
      if String.eqb (j_Index j) index then f j :: history
      else j :: update_newest index f history
  end.

(** [parkLocked], apart from saving. *)
Definition park (index : string) (history : list Job) : list Job :=
  if crash_loop index history then update_newest index (park_job index) history else history.

(** [load] of the decoded file. *)
Definition load_jobs (order : list string) (jobs : list Job) : list Job :=
  foldl (fun h name => park name h) (trim (sort_newest (mark_died <$> jobs))) order.

(** [LastJob] and the other reads of the history. *)
Definition of_index (index : string) (l : list Job) : list Job :=
  filter (fun j => j_Index j = index) l.

Definition LastJob (index : string) (history : list Job) : option Job :=
  head (of_index index history).

Definition Parked (index : string) (history : list Job) : string :=
  match LastJob index history with
  | Some j => if j_Parked j then j_Error j else ""%string
  | None => ""%string
  end.

(** The loop of [LastShown]. *)
Fixpoint last_shown (index : string) (reap : option Job) (history : list Job) : option Job :=
  match history with
  | [] => reap
  | j :: history =>
      if negb (String.eqb (j_Index j) index) then last_shown index reap history
      else if negb (String.eqb (j_Kind j) KindReap) then Some j
      else last_shown index (match reap with None => Some j | Some _ => reap end) history
  end.

Definition LastShown (index : string) (history : list Job) : option Job :=
  last_shown index None history.

Example Count_samples :
  Count 0 = "0"%string /\ Count 999 = "999"%string /\ Count 18402 = "18 402"%string /\
  Count (-1234567) = "-1 234 567"%string.
Proof. vm_compute. repeat split. Qed.
