(* ===== verification/RelayJobsFacts.v ===== *)
(** * Lemmas on jobs, the bounded history and its reading back

    What an ended job keeps of its run, that [trimLocked] keeps the newest
    twenty jobs of each index, that the stable sort keeps the order of an
    index's jobs, and when [parkLocked] parks. *)
From S2P Require Import Prelude GoTime GoStrings GoFormat RelayJobs.
From stdpp Require Import options.
From Stdlib Require Import Ascii Sorted.

Local Open Scope Z_scope.

(** ** Fields *)

(** What stays of a job whatever happens to it. *)
Definition same_run (j j' : Job) : Prop :=
  j_ID j' = j_ID j /\ j_Index j' = j_Index j /\ j_Kind j' = j_Kind j /\
  j_Trigger j' = j_Trigger j /\ j_Reason j' = j_Reason j /\ j_StartedAt j' = j_StartedAt j.

Lemma same_run_refl j : same_run j j.
Proof. done. Qed.

Lemma same_run_trans j k l : same_run j k -> same_run k l -> same_run j l.
Proof. unfold same_run. intuition congruence. Qed.

Lemma same_run_index j j' : same_run j j' -> j_Index j' = j_Index j.
Proof. by intros (_ & ? & _). Qed.

#[export] Hint Resolve same_run_refl : ncli.

Lemma job_progress_same p j : same_run j (job_progress p j).
Proof. done. Qed.

Lemma end_state_same err cause j : same_run j (end_state err cause j).
Proof. unfold end_state. repeat case_match; done. Qed.

Lemma finish_job_same now elapsed res err cause j :
  same_run j (finish_job now elapsed res err cause j).
Proof.
  unfold finish_job. cbv zeta.
  match goal with |- context [end_state err cause ?k] => set (k0 := k) end.
  assert (Hk : same_run j k0) by (subst k0; repeat case_match; done).
  pose proof (end_state_same err cause k0) as He.
  case_match; (eapply same_run_trans; [exact Hk | exact He]).
Qed.

Lemma mark_died_same j : same_run j (mark_died j).
Proof. unfold mark_died. repeat case_match; done. Qed.

Lemma park_job_same index j : same_run j (park_job index j).
Proof. done. Qed.

(** ** What a snapshot keeps of a running job *)

(** The fields that reports of progress and a cancellation change are saved
    only now and then. *)
Definition forget (j : Job) : Job := set_Phase "" (set_Done 0 (set_Total 0 (set_Applied 0 j))).

Lemma forget_same_run j j' : forget j = forget j' -> same_run j j'.
Proof. intros E. unfold same_run. destruct j, j'. cbn in E. injection E. intros; subst. done. Qed.

Lemma forget_state j j' :
  forget j = forget j' -> j_State j = j_State j' /\ j_Parked j = j_Parked j'.
Proof. intros E. destruct j, j'. cbn in E. by injection E. Qed.

Definition option_list {A} (o : option A) : list A := match o with Some x => [x] | None => [] end.

Lemma fmap_option_list {A B} (f : A -> B) (o : option A) : f <$> option_list o = option_list (f <$> o).
Proof. by destruct o. Qed.

(** An ended job's state is decided by its error and cause, and is never
    "running". *)
Lemma end_state_ended err cause j : Job_Ended (end_state err cause j) = true.
Proof. unfold end_state, Job_Ended. repeat case_match; done. Qed.

Lemma set_Summary_ended v j : Job_Ended (set_Summary v j) = Job_Ended j.
Proof. done. Qed.

Lemma finish_job_ended now elapsed res err cause j :
  Job_Ended (finish_job now elapsed res err cause j) = true.
Proof. unfold finish_job. cbv zeta. case_match; rewrite set_Summary_ended; apply end_state_ended. Qed.

Lemma mark_died_ended j : Job_Ended (mark_died j) = true.
Proof.
  unfold mark_died, Job_Ended. destruct (String.eqb_spec (j_State j) StateRunning) as [E|E].
  - by case_match.
  - apply negb_true_iff. by apply String.eqb_neq.
Qed.

(** ** Per index *)

Lemma of_index_cons index j l :
  of_index index (j :: l) = (if String.eqb (j_Index j) index then [j] else []) ++ of_index index l.
Proof.
  unfold of_index. rewrite filter_cons.
  destruct (String.eqb_spec (j_Index j) index), (decide (j_Index j = index)); done.
Qed.

Lemma of_index_app index l l' : of_index index (l ++ l') = of_index index l ++ of_index index l'.
Proof. apply filter_app. Qed.

Lemma of_index_fmap index (f : Job -> Job) l :
  (forall j, j ∈ l -> j_Index (f j) = j_Index j) ->
  of_index index (f <$> l) = f <$> of_index index l.
Proof.
  induction l as [|j l IH]; intros Hf; [done|].
  rewrite fmap_cons, !of_index_cons, Hf, IH, fmap_app by set_solver.
  by destruct (String.eqb _ _).
Qed.

Lemma of_index_elem index l j : j ∈ of_index index l <-> j_Index j = index /\ j ∈ l.
Proof. unfold of_index. by rewrite list_elem_of_filter. Qed.

Lemma of_index_self index l : Forall (fun j => j_Index j = index) l -> of_index index l = l.
Proof.
  induction 1 as [|j l Hj _ IH]; [done|].
  rewrite of_index_cons, IH. by rewrite (proj2 (String.eqb_eq _ _) Hj).
Qed.

Lemma of_index_perm index l l' : l ≡ₚ l' -> of_index index l ≡ₚ of_index index l'.
Proof. unfold of_index. by intros ->. Qed.

(** ** The bounded history *)

Abbreviation kept per index := (default O (per !! index)).

Lemma trim_from_index per index l :
  of_index index (trim_from per l) = take (keptJobs - kept per index) (of_index index l).
Proof.
  revert per; induction l as [|j l IH]; intros per; cbn [trim_from].
  - by destruct (keptJobs - kept per index)%nat.
  - rewrite of_index_cons. destruct (Nat.ltb_spec (kept per (j_Index j)) keptJobs) as [Hlt|Hge].
    + rewrite of_index_cons, IH. destruct (String.eqb_spec (j_Index j) index) as [<-|Hne].
      * rewrite lookup_insert_eq. cbn [default from_option app].
        destruct (keptJobs - kept per (j_Index j))%nat eqn:E; [lia|].
        cbn [take]. unfold id in *. do 2 f_equal. lia.
      * by rewrite lookup_insert_ne by done.
    + rewrite IH. destruct (String.eqb_spec (j_Index j) index) as [<-|Hne]; [|done].
      by replace (keptJobs - kept per (j_Index j))%nat with O by lia.
Qed.

(** [trimLocked] keeps the newest [keptJobs] of each index. *)
Lemma trim_index index l : of_index index (trim l) = take keptJobs (of_index index l).
Proof. unfold trim. rewrite trim_from_index, lookup_empty. by rewrite Nat.sub_0_r. Qed.

Lemma trim_from_sublist per l : trim_from per l `sublist_of` l.
Proof.
  revert per; induction l as [|j l IH]; intros per; cbn [trim_from]; [done|].
  case_match; by constructor.
Qed.

Lemma trim_elem l j : j ∈ trim l -> j ∈ l.
Proof. intros Hj. eapply elem_of_submseteq; [exact Hj|]. apply sublist_submseteq, trim_from_sublist. Qed.

Lemma trim_from_again per per' l :
  (forall k, (kept per' k <= kept per k)%nat) -> trim_from per (trim_from per' l) = trim_from per l.
Proof.
  assert (Hins : forall (p : gmap string nat) k n i, kept (<[k := n]> p) i = if decide (i = k) then n else kept p i).
  { intros p k n i. case_decide; subst; [by rewrite lookup_insert_eq | by rewrite lookup_insert_ne]. }
  revert per per'; induction l as [|j l IH]; intros per per' Hle; [done|].
  pose proof (Hle (j_Index j)) as Hj. cbn [trim_from].
  destruct (Nat.ltb_spec (kept per' (j_Index j)) keptJobs) as [H'|H'];
  destruct (Nat.ltb_spec (kept per (j_Index j)) keptJobs) as [H|H]; try lia.
  - cbn [trim_from]. rewrite (proj2 (Nat.ltb_lt _ _) H). f_equal.
    apply IH. intros k. rewrite !Hins. case_decide; [lia | apply Hle].
  - cbn [trim_from]. rewrite (proj2 (Nat.ltb_ge _ _) H).
    apply IH. intros k. rewrite !Hins. case_decide; [subst; lia | apply Hle].
  - by apply IH.
Qed.

(** Trimming as jobs end is trimming once at the end. *)
Lemma trim_again l l' : trim (l ++ trim l') = trim (l ++ l').
Proof.
  unfold trim. assert (Hg : forall per, trim_from per (l ++ trim_from ∅ l') = trim_from per (l ++ l')).
  { induction l as [|j l IH]; intros per.
    - apply trim_from_again. intros k. rewrite lookup_empty. cbn. lia.
    - cbn [app trim_from]. case_match; by rewrite IH. }
  apply Hg.
Qed.

(** ** Sorting by start *)

Definition newest_first : list Job -> Prop := StronglySorted (fun j k => j_StartedAt k <= j_StartedAt j).

Lemma insert_newest_perm j l : insert_newest j l ≡ₚ j :: l.
Proof.
  induction l as [|k l IH]; cbn; [done|]. case_match; [|done].
  rewrite IH. apply Permutation_swap.
Qed.

Lemma sort_newest_perm l : sort_newest l ≡ₚ l.
Proof. induction l as [|j l IH]; cbn; [done|]. by rewrite insert_newest_perm, IH. Qed.

Lemma insert_newest_sorted j l : newest_first l -> newest_first (insert_newest j l).
Proof.
  unfold newest_first. induction 1 as [|k l Hs IH Hf]; cbn; [repeat constructor|].
  destruct (Z.ltb_spec (j_StartedAt j) (j_StartedAt k)).
  - constructor; [done|]. rewrite insert_newest_perm. constructor; [lia|done].
  - constructor; [by constructor|]. constructor; [done|].
    eapply Forall_impl; [exact Hf|]. cbn. lia.
Qed.

Lemma sort_newest_sorted l : newest_first (sort_newest l).
Proof. induction l; cbn; [constructor | by apply insert_newest_sorted]. Qed.

Lemma newest_first_of_index index l : newest_first l -> newest_first (of_index index l).
Proof.
  unfold newest_first. induction 1 as [|j l Hs IH Hf]; [constructor|].
  rewrite of_index_cons. destruct (String.eqb _ _); [|done]. cbn. constructor; [done|].
  apply Forall_forall. intros k [_ Hk]%of_index_elem. by apply (proj1 (Forall_forall _ _) Hf).
Qed.

(** Inserting a job among others, seen from one index. *)
Lemma insert_newest_index index j l :
  newest_first l ->
  of_index index (insert_newest j l)
  = if String.eqb (j_Index j) index then insert_newest j (of_index index l) else of_index index l.
Proof.
  intros Hs. induction Hs as [|k l Hs IH Hf]; cbn [insert_newest].
  - by rewrite of_index_cons; destruct (String.eqb _ _).
  - destruct (Z.ltb_spec (j_StartedAt j) (j_StartedAt k)) as [Hlt|Hge].
    + rewrite of_index_cons, IH, (of_index_cons index k).
      destruct (String.eqb (j_Index j) index), (String.eqb (j_Index k) index); cbn; try done.
      by rewrite (proj2 (Z.ltb_lt _ _) Hlt).
    + rewrite (of_index_cons index j). destruct (String.eqb (j_Index j) index); [|done]. cbn [app].
      assert (Hall : Forall (fun x => j_StartedAt x <= j_StartedAt j) (of_index index (k :: l))).
      { apply Forall_forall. intros x [_ Hx]%of_index_elem.
        apply elem_of_cons in Hx as [->|Hx]; [done|].
        pose proof (proj1 (Forall_forall _ _) Hf x Hx). cbn in *. lia. }
      destruct Hall as [|x l' Hx]; cbn; [done|]. by rewrite (proj2 (Z.ltb_ge _ _) Hx).
Qed.

Lemma sort_newest_index index l : of_index index (sort_newest l) = sort_newest (of_index index l).
Proof.
  induction l as [|j l IH]; [done|]. cbn [sort_newest].
  rewrite insert_newest_index, of_index_cons, IH by apply sort_newest_sorted.
  by destruct (String.eqb _ _).
Qed.

(** Sorting what is already sorted changes nothing. *)
Lemma sort_newest_id l : newest_first l -> sort_newest l = l.
Proof.
  induction 1 as [|j l Hs IH Hf]; cbn; [done|]. rewrite IH.
  destruct Hf as [|k l Hk]; cbn; [done|]. by rewrite (proj2 (Z.ltb_ge _ _) Hk).
Qed.

Lemma newest_first_fmap (f : Job -> Job) l :
  (forall j, j_StartedAt (f j) = j_StartedAt j) -> newest_first l -> newest_first (f <$> l).
Proof.
  intros Hf. unfold newest_first. induction 1 as [|j l Hs IH Hall]; cbn; constructor; [done|].
  apply Forall_fmap. eapply Forall_impl; [exact Hall|]. cbn. intros. by rewrite !Hf.
Qed.

Lemma newest_first_take n l : newest_first l -> newest_first (take n l).
Proof.
  unfold newest_first. intros Hs. revert n. induction Hs as [|j l Hs IH Hf]; intros [|n]; cbn; constructor; auto.
  by apply Forall_take.
Qed.

(** ** Loading *)

(** [trimLocked] looks at the indexes only. *)
Lemma trim_from_length per (l l' : list Job) :
  j_Index <$> l = j_Index <$> l' -> length (trim_from per l) = length (trim_from per l').
Proof.
  revert per l'; induction l as [|j l IH]; intros per [|j' l'] E; try done.
  injection E as Ej El. cbn [trim_from]. rewrite Ej. case_match; cbn; auto.
Qed.

Lemma sublist_full {A} (l l' : list A) : l `sublist_of` l' -> length l = length l' -> l = l'.
Proof.
  induction 1 as [|x l l' H IH|x l l' H IH]; intros E; cbn in *; [done | f_equal; auto |].
  apply sublist_length in H. lia.
Qed.

Lemma trim_same_indexes (l l' : list Job) :
  j_Index <$> l = j_Index <$> l' -> trim l = l -> trim l' = l'.
Proof.
  intros E Ht. pose proof (trim_from_length ∅ l l' E) as Hl. fold (trim l) (trim l') in Hl.
  apply sublist_full; [apply trim_from_sublist|].
  rewrite <- Hl, Ht. by rewrite <- (length_fmap j_Index l), E, length_fmap.
Qed.

Lemma update_newest_indexes index f l :
  (forall j, j_Index (f j) = j_Index j) -> j_Index <$> update_newest index f l = j_Index <$> l.
Proof.
  intros Hf. induction l as [|j l IH]; cbn; [done|]. case_match; cbn; [by rewrite Hf | by rewrite IH].
Qed.

Lemma park_indexes index l : j_Index <$> park index l = j_Index <$> l.
Proof. unfold park. case_match; [by apply update_newest_indexes | done]. Qed.

Lemma park_all_indexes order l : j_Index <$> foldl (fun h name => park name h) l order = j_Index <$> l.
Proof.
  revert l; induction order as [|name order IH]; intros l; [done|]. cbn [foldl].
  by rewrite IH, park_indexes.
Qed.

(** What is loaded is within the bound. *)
Lemma load_jobs_trimmed order jobs : trim (load_jobs order jobs) = load_jobs order jobs.
Proof.
  unfold load_jobs. eapply trim_same_indexes; [symmetry; apply park_all_indexes|].
  apply (trim_again []).
Qed.

(** Parking one index leaves the jobs of the others alone. *)
Lemma update_newest_other index index' f l :
  index' <> index -> (forall j, j_Index (f j) = j_Index j) ->
  of_index index' (update_newest index f l) = of_index index' l.
Proof.
  intros Hne Hf. induction l as [|j l IH]; cbn [update_newest]; [done|].
  destruct (String.eqb_spec (j_Index j) index) as [<-|Hj]; rewrite !of_index_cons; [|by rewrite IH].
  rewrite Hf. by destruct (String.eqb_spec (j_Index j) index').
Qed.

Lemma update_newest_self index f l :
  (forall j, j_Index (f j) = j_Index j) ->
  of_index index (update_newest index f l)
  = match of_index index l with [] => [] | j :: rest => f j :: rest end.
Proof.
  intros Hf. induction l as [|j l IH]; cbn [update_newest]; [done|].
  destruct (String.eqb_spec (j_Index j) index) as [E|Hj]; rewrite !of_index_cons.
  - rewrite Hf, E, String.eqb_refl. done.
  - rewrite (proj2 (String.eqb_neq _ _) Hj). cbn. done.
Qed.

(** The loop of [parkLocked] reads the index's own jobs. *)
Lemma died_run_index n index l : died_run n index l = died_run n index (of_index index l).
Proof.
  revert n; induction l as [|j l IH]; intros n; [done|]. cbn [died_run].
  rewrite of_index_cons. destruct (String.eqb_spec (j_Index j) index) as [E|Hj]; cbn; [|done].
  rewrite E, String.eqb_refl. destruct n; cbn; [done|]. by rewrite <- IH.
Qed.

Lemma crash_loop_index index l : crash_loop index l = crash_loop index (of_index index l).
Proof. unfold crash_loop. by rewrite died_run_index. Qed.

(** [parkLocked] parks an index exactly when its newest three jobs died with
    the relay and started within an hour of each other. *)
Lemma crash_loop_spec index l :
  crash_loop index l = true <->
  exists j1 j2 j3 rest, of_index index l = j1 :: j2 :: j3 :: rest /\
    died j1 = true /\ died j2 = true /\ died j3 = true /\
    wrap64 (j_StartedAt j1 - j_StartedAt j3) <= 3600.
Proof.
  rewrite crash_loop_index. unfold crash_loop.
  assert (Hall : Forall (fun j => j_Index j = index) (of_index index l)).
  { apply Forall_forall. by intros j [? _]%of_index_elem. }
  revert Hall. generalize (of_index index l) as h. intros h Hall.
  destruct Hall as [|j1 h E1 Hall]; cbn; [naive_solver|]. rewrite E1, String.eqb_refl. cbn.
  destruct (died j1) eqn:D1; cbn; [|naive_solver].
  destruct Hall as [|j2 h E2 Hall]; cbn; [naive_solver|]. rewrite E2, String.eqb_refl. cbn.
  destruct (died j2) eqn:D2; cbn; [|naive_solver].
  destruct Hall as [|j3 h E3 Hall]; cbn; [naive_solver|]. rewrite E3, String.eqb_refl. cbn.
  destruct (died j3) eqn:D3; cbn; [|naive_solver].
  assert (Hnil : died_run 0 index h = []).
  { clear -Hall. induction Hall as [|j h E Hall IH]; cbn; [done|]. by rewrite E, String.eqb_refl. }
  rewrite Hnil. cbn. rewrite negb_true_iff, Z.ltb_ge. naive_solver.
Qed.

(** What [load] leaves of one index: its jobs, the newest parked when they
    were in a crash loop. *)
Lemma park_index index l :
  of_index index (park index l)
  = if crash_loop index l
    then match of_index index l with [] => [] | j :: rest => park_job index j :: rest end
    else of_index index l.
Proof. unfold park. case_match; [by apply update_newest_self | done]. Qed.

Lemma park_of_index index l : of_index index (park index l) = park index (of_index index l).
Proof.
  rewrite park_index. unfold park. rewrite <- crash_loop_index. case_match; [|done].
  destruct (of_index index l) as [|j rest] eqn:E; [done|]. cbn.
  assert (Hj : j_Index j = index) by (eapply (proj1 (of_index_elem index l j)); rewrite E; left).
  by rewrite Hj, String.eqb_refl.
Qed.

Lemma park_other index index' l : index' <> index -> of_index index' (park index l) = of_index index' l.
Proof. intros Hne. unfold park. case_match; [by apply update_newest_other | done]. Qed.

Lemma park_all_index order index l :
  NoDup order -> of_index index (foldl (fun h name => park name h) l order)
  = if bool_decide (index ∈ order) then of_index index (park index l) else of_index index l.
Proof.
  intros Hnd. revert l; induction Hnd as [|name order Hni Hnd IH]; intros l; cbn [foldl]; [done|].
  rewrite IH. destruct (decide (index = name)) as [->|Hne].
  - rewrite bool_decide_false by done. by rewrite bool_decide_true by left.
  - rewrite (park_other name) by done.
    replace (of_index index (park index (park name l))) with (of_index index (park index l)).
    + destruct (decide (index ∈ order)); [rewrite !bool_decide_true by (try right; done) |
        rewrite !bool_decide_false by set_solver]; done.
    + rewrite !park_index, (crash_loop_index _ (park name l)), park_other, <- crash_loop_index by done. done.
Qed.

(** What is loaded is sorted by start. *)
Lemma newest_first_sublist l l' : l `sublist_of` l' -> newest_first l' -> newest_first l.
Proof.
  unfold newest_first. induction 1 as [|j l l' Hsub IH|j l l' Hsub IH]; intros Hs; [constructor| |];
    apply StronglySorted_inv in Hs as [Hs Hf]; [|auto].
  constructor; [auto|]. apply Forall_forall. intros k Hk.
  apply (proj1 (Forall_forall _ _) Hf).
  eapply elem_of_submseteq; [exact Hk | by apply sublist_submseteq].
Qed.

Lemma newest_first_ext l l' :
  j_StartedAt <$> l = j_StartedAt <$> l' -> newest_first l -> newest_first l'.
Proof.
  unfold newest_first. intros E Hs. revert l' E.
  induction Hs as [|j l Hs IH Hf]; intros [|j' l'] E; try discriminate E; [constructor|].
  injection E as Ej El. constructor; [by apply IH|].
  rewrite <- Ej. apply (Forall_fmap j_StartedAt (fun z => z <= j_StartedAt j)).
  change (j_StartedAt <$> l = j_StartedAt <$> l') in El. rewrite <- El. by apply Forall_fmap.
Qed.

Lemma update_newest_starts index f l :
  (forall j, j_StartedAt (f j) = j_StartedAt j) -> j_StartedAt <$> update_newest index f l = j_StartedAt <$> l.
Proof.
  intros Hf. induction l as [|j l IH]; cbn; [done|]. case_match; cbn; [by rewrite Hf | by rewrite IH].
Qed.

Lemma load_jobs_sorted order jobs : newest_first (load_jobs order jobs).
Proof.
  unfold load_jobs.
  assert (H : newest_first (trim (sort_newest (mark_died <$> jobs)))).
  { eapply newest_first_sublist; [apply trim_from_sublist | apply sort_newest_sorted]. }
  revert H. generalize (trim (sort_newest (mark_died <$> jobs))) as l.
  induction order as [|name order IH]; intros l H; cbn [foldl]; [done|].
  apply IH. unfold park. case_match; [|done].
  eapply newest_first_ext; [symmetry; by apply update_newest_starts | done].
Qed.
