(* ===== verification/RelayManager.v ===== *)
(** * The relay's job manager and its goroutines

    Models [Manager] of [src/cli/relay/jobs/jobs.go].  Every job runs in a
    goroutine of its own ([execute]); [Start], [Cancel] and [Shutdown] run in
    their callers' goroutines and share the manager's maps under its mutex.
    Each critical section is one action ([exec]); between two actions of one
    goroutine any other may act, so a sequence of actions is an interleaving.

    A [run] is an object shared by reference: [m_running] holds the index of
    each run in the heap [m_heap], and a run stays in the heap after it left
    the map, where its goroutine still ends.  The channels are modelled by what
    their receivers see: [done] is a flag that [close] sets, [writer] (capacity
    one) is taken or not, [finished] (capacity one, sends never block) holds a
    wake-up or not.  A context's cause is the first error it was cancelled
    with.  Go visits a map in an arbitrary order: an action carries the order
    its loop over the running jobs took. *)
From S2P Require Import Prelude GoTime GoStrings GoFormat RelayJobs.
From stdpp Require Import options.
From Stdlib Require Import Ascii.

Local Open Scope Z_scope.

(** ** Indexes *)

(** What an index reports ([Status] of [indexes.go]; [LastTask], which is only
    displayed, is left out). *)
Record Status := mkStatus {
  st_Name : string;
  st_Enabled : bool;
  st_Unavailable : string;
  st_State : string;
  st_Action : Kind;
  st_Reason : string;
  st_Hint : string;
  st_HasData : bool;
  st_Entries : Z;
  st_Behind : Z;
  st_Queued : Z;
  st_Head : Z;
  st_BuiltAt : Z;
  st_Retired : Z;
  st_Error : string;
  st_Warning : string;
}.

(** The part of the [Index] interface that does not vary.  What [Status],
    [Run] and [Drop] answer, and when, comes with the actions. *)
Record Index := mkIndex {
  ix_Name : string;
  ix_WritesStore : bool;
}.

(** ** State *)

(** Where [execute] is. *)
Inductive pc :=
| PSpawned                                            (* [go m.execute(...)] *)
| PWaiting                                            (* in the [select] on the writer *)
| PPerforming                                         (* in [perform] *)
| PSaving                                             (* in its [progress], before it saves *)
| PReturned (res : Result) (err : option error)       (* before [context.Cause] *)
| PEnding (res : Result) (err cause : option error)   (* before the last critical section *)
| PRecorded                                           (* before [OnFinish] *)
| PTold                                               (* before the deferred calls *)
| PReleased                                           (* before [close(r.done)] *)
| PDone.

Record run := mkRun {
  r_job : Job;
  r_cause : option error;
  r_done : bool;
  r_ix : Index;
  r_start : Z;
  r_saved : Z;
  r_token : bool;
  r_pc : pc;
}.

Definition run_job (v : Job) (r : run) : run :=
  mkRun v (r_cause r) (r_done r) (r_ix r) (r_start r) (r_saved r) (r_token r) (r_pc r).
Definition run_cause (v : option error) (r : run) : run :=
  mkRun (r_job r) v (r_done r) (r_ix r) (r_start r) (r_saved r) (r_token r) (r_pc r).
Definition run_done (v : bool) (r : run) : run :=
  mkRun (r_job r) (r_cause r) v (r_ix r) (r_start r) (r_saved r) (r_token r) (r_pc r).
Definition run_start (v : Z) (r : run) : run :=
  mkRun (r_job r) (r_cause r) (r_done r) (r_ix r) v (r_saved r) (r_token r) (r_pc r).
Definition run_saved (v : Z) (r : run) : run :=
  mkRun (r_job r) (r_cause r) (r_done r) (r_ix r) (r_start r) v (r_token r) (r_pc r).
Definition run_token (v : bool) (r : run) : run :=
  mkRun (r_job r) (r_cause r) (r_done r) (r_ix r) (r_start r) (r_saved r) v (r_pc r).
Definition run_pc (v : pc) (r : run) : run :=
  mkRun (r_job r) (r_cause r) (r_done r) (r_ix r) (r_start r) (r_saved r) (r_token r) v.

(** A caller of [Start] past its first checks: about to lock, waiting for a
    superseded run to end, or answered. *)
Record call := mkCall {
  c_index : string;
  c_kind : Kind;
  c_trigger : Trigger;
  c_reason : string;
  c_entries : Z;
}.

Inductive caller :=
| Locking (c : call)
| Awaiting (c : call) (r : nat)
| Answered (j : Job) (err : option error).

(** The manager, the history file, the heap of runs, the callers of [Start],
    and the calls made to [OnFinish] and to the indexes' [Cancelled]. *)
Record Manager := mkManager {
  m_indexes : gmap string Index;
  m_order : list string;
  m_path : string;
  m_file : option string;
  m_running : gmap string nat;
  m_history : list Job;
  m_closed : bool;
  m_writer : bool;
  m_finished : bool;
  m_heap : list run;
  m_callers : list caller;
  m_told : list Job;
  m_discarded : list (string * Kind);
}.

Definition with_file (v : option string) (m : Manager) : Manager :=
  mkManager (m_indexes m) (m_order m) (m_path m) v (m_running m) (m_history m) (m_closed m)
    (m_writer m) (m_finished m) (m_heap m) (m_callers m) (m_told m) (m_discarded m).
Definition with_running (v : gmap string nat) (m : Manager) : Manager :=
  mkManager (m_indexes m) (m_order m) (m_path m) (m_file m) v (m_history m) (m_closed m)
    (m_writer m) (m_finished m) (m_heap m) (m_callers m) (m_told m) (m_discarded m).
Definition with_history (v : list Job) (m : Manager) : Manager :=
  mkManager (m_indexes m) (m_order m) (m_path m) (m_file m) (m_running m) v (m_closed m)
    (m_writer m) (m_finished m) (m_heap m) (m_callers m) (m_told m) (m_discarded m).
Definition with_closed (v : bool) (m : Manager) : Manager :=
  mkManager (m_indexes m) (m_order m) (m_path m) (m_file m) (m_running m) (m_history m) v
    (m_writer m) (m_finished m) (m_heap m) (m_callers m) (m_told m) (m_discarded m).
Definition with_writer (v : bool) (m : Manager) : Manager :=
  mkManager (m_indexes m) (m_order m) (m_path m) (m_file m) (m_running m) (m_history m)
    (m_closed m) v (m_finished m) (m_heap m) (m_callers m) (m_told m) (m_discarded m).
Definition with_finished (v : bool) (m : Manager) : Manager :=
  mkManager (m_indexes m) (m_order m) (m_path m) (m_file m) (m_running m) (m_history m)
    (m_closed m) (m_writer m) v (m_heap m) (m_callers m) (m_told m) (m_discarded m).
Definition with_heap (v : list run) (m : Manager) : Manager :=
  mkManager (m_indexes m) (m_order m) (m_path m) (m_file m) (m_running m) (m_history m)
    (m_closed m) (m_writer m) (m_finished m) v (m_callers m) (m_told m) (m_discarded m).
Definition with_callers (v : list caller) (m : Manager) : Manager :=
  mkManager (m_indexes m) (m_order m) (m_path m) (m_file m) (m_running m) (m_history m)
    (m_closed m) (m_writer m) (m_finished m) (m_heap m) v (m_told m) (m_discarded m).
Definition with_told (v : list Job) (m : Manager) : Manager :=
  mkManager (m_indexes m) (m_order m) (m_path m) (m_file m) (m_running m) (m_history m)
    (m_closed m) (m_writer m) (m_finished m) (m_heap m) (m_callers m) v (m_discarded m).
Definition with_discarded (v : list (string * Kind)) (m : Manager) : Manager :=
  mkManager (m_indexes m) (m_order m) (m_path m) (m_file m) (m_running m) (m_history m)
    (m_closed m) (m_writer m) (m_finished m) (m_heap m) (m_callers m) (m_told m) v.

(** [encoding/json] on the history file.  A string that is not valid UTF-8 is
    written with its bad bytes replaced ([json_text]). *)
Class JobsCodec := {
  jobs_Marshal : list Job -> string;
  jobs_Unmarshal : string -> option (list Job);
  json_text : string -> string;
}.

Definition is_ascii (s : string) : bool := all_bytes (fun c => (nat_of_ascii c <? 128)%nat) s.

(** A job's text fields through JSON. *)
Definition json_job `{JobsCodec} (j : Job) : Job :=
  mkJob (json_text (j_ID j)) (json_text (j_Index j)) (json_text (j_Kind j))
    (json_text (j_Trigger j)) (json_text (j_Reason j)) (json_text (j_State j))
    (json_text (j_Phase j)) (j_Done j) (j_Total j) (j_Applied j) (j_EntriesBefore j)
    (j_EntriesAfter j) (j_StartedAt j) (j_FinishedAt j) (j_DurationMs j)
    (json_text (j_Error j)) (json_text (j_Summary j)) (j_Noop j) (j_Parked j).

(** What the encoder documents: a marshalled list reads back, with every text
    coerced to valid UTF-8, which leaves ASCII text alone and replaces bad
    bytes by a character that is not ASCII. *)
Class JobsCodecLaws (C : JobsCodec) : Prop := {
  jobs_roundtrip js : jobs_Unmarshal (jobs_Marshal js) = Some (json_job <$> js);
  json_text_ascii s : is_ascii s = true -> json_text s = s;
  json_text_bad s : json_text s <> s -> is_ascii (json_text s) = false;
}.

Section Manager.
Context `{C : JobsCodec}.

(** ** Files *)

(** [for k := range m]: the keys in some order.  Every order of the keys is
    visited for the [ord] that lists them so. *)
Definition range_keys (ord : list string) (m : gmap string nat) : list string :=
  let ks := (map_to_list m).*1 in
  filter (fun k => k ∈ ks) (remove_dups ord) ++ filter (fun k => k ∉ ord) ks.

(** The runs [range m.running] visits. *)
Definition range_running (ord : list string) (m : Manager) : list (nat * run) :=
  omap (fun k => a ← m_running m !! k; r ← m_heap m !! a; Some (a, r)) (range_keys ord (m_running m)).

Definition running_jobs (ord : list string) (m : Manager) : list Job :=
  (fun ar => r_job ar.2) <$> range_running ord m.

(** [saveLocked]; [fault] when writing the temporary file or renaming it
    fails, which leaves the file as it was. *)
Definition saveLocked (fault : bool) (ord : list string) (m : Manager) : Manager :=
  if is_empty (m_path m) || fault then m
  else with_file (Some (jobs_Marshal (running_jobs ord m ++ m_history m))) m.

(** [parkLocked] with its save. *)
Definition parkLocked (fault : bool) (index : string) (m : Manager) : Manager :=
  if crash_loop index (m_history m)
  then saveLocked fault [] (with_history (park index (m_history m)) m)
  else m.

Definition load (faults : string -> bool) (m : Manager) : Manager :=
  if is_empty (m_path m) then m
  else match m_file m with
       | None => m
       | Some data =>
           match jobs_Unmarshal data with
           | None => m
           | Some jobs =>
               let m := with_history (trim (sort_newest (mark_died <$> jobs))) m in
               foldl (fun m name => parkLocked (faults name) name m) m (m_order m)
           end
       end.

(** [New]: a manager of [indexes] over what the file holds. *)
Definition New (path : string) (file : option string) (faults : string -> bool)
    (indexes : list Index) : Manager :=
  load faults
    (mkManager (foldl (fun m ix => <[ix_Name ix := ix]> m) ∅ indexes) (ix_Name <$> indexes)
       path file ∅ [] false false false [] [] [] []).

Definition Lookup (name : string) (m : Manager) : result error Index :=
  match m_indexes m !! name with Some ix => Ok ix | None => Err ErrUnknownIndex end.

(** ** [Start] *)

(** The checks of [Start] on the index's status, before it locks. *)
Definition Start_checks (index : string) (kind : Kind) (trigger : Trigger) (st : Status)
    : option (Job * error) :=
  if String.eqb kind KindDrop && st_Enabled st then
    Some (Job_zero, Wrapped "" ErrEnabled
      (": the " ++ index ++ " index is on; rebuild it instead (ncli relay index rebuild " ++ index ++ ")"))%string
  else if negb (String.eqb kind KindDrop) && negb (String.eqb kind KindReap) && negb (st_Enabled st) then
    Some (Job_zero, Wrapped "" ErrUnavailable (": " ++ st_Unavailable st))%string
  else if String.eqb kind KindDrop && negb (st_HasData st) && (st_Retired st =? 0) then
    Some (mkJob "" index kind trigger "" StateSucceeded "" 0 0 0 0 0 0 0 0 ""
            (index ++ ": nothing to drop")%string true false, ErrNothingToDo)
  else None.

(** A caller enters [Start]: answered at once, or about to lock. *)
Definition Start_enter (index : string) (kind : Kind) (trigger : Trigger) (reason : string)
    (st : Status) (m : Manager) : caller :=
  match Lookup index m with
  | Err e => Answered Job_zero (Some e)
  | Ok _ =>
      match Start_checks index kind trigger st with
      | Some (j, e) => Answered j (Some e)
      | None => Locking (mkCall index kind trigger reason (st_Entries st))
      end
  end.

(** A context keeps the first cause it is cancelled with. *)
Definition run_cancel (e : error) (r : run) : run :=
  match r_cause r with Some _ => r | None => run_cause (Some e) r end.

Definition on_run (a : nat) (f : run -> run) (m : Manager) : Manager :=
  with_heap (alter f a (m_heap m)) m.

(** One turn of [Start]'s loop, under the lock. *)
Definition Start_locked (id : string) (now : Z) (fault : bool) (ord : list string) (c : call)
    (m : Manager) : caller * Manager :=
  if m_closed m then (Answered Job_zero (Some errShutdown), m) else
  match m_running m !! c_index c ≫= (fun a => r ← m_heap m !! a; Some (a, r)) with
  | Some (a, r) =>
      let cur := r_job r in
      if String.eqb (j_Kind cur) (c_kind c) then
        (Answered (set_Summary (c_index c ++ ": already running " ++ describe (j_Kind cur) ++
                     " (job " ++ j_ID cur ++ ")")%string (set_Noop true cur)) None, m)
      else if String.eqb (c_trigger c) TriggerAdmin && String.eqb (j_Trigger cur) TriggerReconcile &&
              (String.eqb (c_kind c) KindRebuild || String.eqb (c_kind c) KindDrop) then
        (Awaiting c a, on_run a (run_cancel errSuperseded) m)
      else (Answered cur (Some ErrBusy), m)
  | None =>
      match m_indexes m !! c_index c with
      | None => (Answered Job_zero (Some ErrUnknownIndex), m)
      | Some ix =>
          let j := started_job id (c_index c) (c_kind c) (c_trigger c) (c_reason c) now (c_entries c) in
          let a := length (m_heap m) in
          let m := with_heap (m_heap m ++ [mkRun j None false ix now now false PSpawned]) m in
          let m := with_running (<[c_index c := a]> (m_running m)) m in
          (Answered j None, saveLocked fault ord m)
      end
  end.

(** ** [execute] *)

(** How an index operation ends: it returns, or panics with a printed value,
    which [perform] turns into an error. *)
Inductive op_end :=
| OpReturns (res : Result) (err : option error)
| OpPanics (text : string).

(** [perform]: what the caller gets. *)
Definition perform (o : op_end) : Result * option error :=
  match o with
  | OpReturns res err => (res, err)
  | OpPanics text => (Result_zero, Some (OtherError ("panic: " ++ text)%string))
  end.

(** The call of [execute]'s that the goroutine of run [a] makes next. *)
Definition set_pc (p : pc) (a : nat) (m : Manager) : Manager := on_run a (run_pc p) m.

(** Its first steps: a store-writing index first waits for the writer. *)
Definition execute_begin (now : Z) (a : nat) (r : run) (m : Manager) : Manager :=
  if ix_WritesStore (r_ix r)
  then on_run a (fun r => run_pc PWaiting (run_job (set_Phase "waiting" (r_job r)) (run_start now r))) m
  else on_run a (fun r => run_pc PPerforming (run_saved now (run_start now r))) m.

(** [case m.writer <- struct{}{}:] *)
Definition execute_acquire (now : Z) (a : nat) (m : Manager) : option Manager :=
  if m_writer m then None
  else Some (with_writer true
         (on_run a (fun r => run_pc PPerforming (run_saved now (run_token true r))) m)).

(** [case <-ctx.Done():] *)
Definition execute_abort (a : nat) (r : run) (m : Manager) : option Manager :=
  match r_cause r with
  | Some e => Some (set_pc (PReturned Result_zero (Some e)) a m)
  | None => None
  end.

(** The [progress] callback: its update, and its save, which it makes at most
    every five seconds. *)
Definition execute_progress (p : Progress) (now : Z) (a : nat) (r : run) (m : Manager) : Manager :=
  let m := on_run a (fun r => run_job (job_progress p (r_job r)) r) m in
  if 5 * Second <? Time_Sub now (r_saved r)
  then on_run a (fun r => run_pc PSaving (run_saved now r)) m
  else m.

Definition execute_save (fault : bool) (ord : list string) (a : nat) (m : Manager) : Manager :=
  set_pc PPerforming a (saveLocked fault ord m).

(** After [perform]: the cause is read, and a cancelled job's index told. *)
Definition execute_cause (a : nat) (r : run) (res : Result) (err : option error) (m : Manager) : Manager :=
  let m := set_pc (PEnding res err (r_cause r)) a m in
  if errors_Is (r_cause r) errCancelled
  then with_discarded (m_discarded m ++ [(j_Index (r_job r), j_Kind (r_job r))]) m
  else m.

(** The last critical section: the job is recorded and leaves the map. *)
Definition execute_record (now : Z) (fault : bool) (ord : list string) (a : nat) (r : run)
    (res : Result) (err cause : option error) (m : Manager) : Manager :=
  let j := finish_job now (Time_Sub now (r_start r)) res err cause (r_job r) in
  let m := on_run a (fun r => run_pc PRecorded (run_job j r)) m in
  let m := with_running (delete (j_Index j) (m_running m)) m in
  let m := with_history (trim (j :: m_history m)) m in
  saveLocked fault ord m.

(** [OnFinish], and the wake-up of the reconciler. *)
Definition execute_tell (a : nat) (r : run) (m : Manager) : Manager :=
  set_pc PTold a (with_finished true (with_told (m_told m ++ [r_job r]) m)).

(** The deferred [<-m.writer], when the run took it. *)
Definition execute_release (a : nat) (r : run) (m : Manager) : Manager :=
  let m := on_run a (fun r => run_pc PReleased (run_token false r)) m in
  if r_token r then with_writer false m else m.

(** The deferred [close(r.done)] and [m.wg.Done()]. *)
Definition execute_close (a : nat) (m : Manager) : Manager :=
  on_run a (fun r => run_pc PDone (run_done true r)) m.

(** ** [Cancel] and [Shutdown] *)

(** [Get]: a running job, the first of the visit, or a finished one. *)
Definition Get (ord : list string) (id : string) (m : Manager) : result error Job :=
  match List.find (fun j => String.eqb (j_ID j) id) (running_jobs ord m ++ m_history m) with
  | Some j => Ok j
  | None => Err ErrNotFound
  end.

(** [Cancel]; the last run of the visit with the id. *)
Definition Cancel (ord : list string) (id : string) (m : Manager) : (Job * option error) * Manager :=
  match List.find (fun ar => String.eqb (j_ID (r_job ar.2)) id) (rev (range_running ord m)) with
  | None =>
      match Get ord id m with
      | Err e => ((Job_zero, Some e), m)
      | Ok j => ((set_Summary ("job " ++ j_ID j ++ " already " ++ j_State j ++ "; nothing to cancel")%string
                    (set_Noop true j), None), m)
      end
  | Some (a, r) =>
      let writes := from_option ix_WritesStore false (m_indexes m !! j_Index (r_job r)) in
      if String.eqb (j_Kind (r_job r)) KindCatchUp && negb writes then
        ((r_job r, Some (Wrapped "" ErrNotCancellable
            ": search catches up as part of live indexing; turn search off to stop it")), m)
      else
        let r' := run_job (set_Phase "cancelling" (r_job r)) (run_cancel errCancelled r) in
        ((r_job r', None), on_run a (fun _ => r') m)
  end.

(** [Shutdown], up to its wait: no job starts any more, and every running one
    is asked to stop. *)
Definition Shutdown (m : Manager) : Manager :=
  with_heap (imap (fun a r => if bool_decide (map_Exists (fun _ b => b = a) (m_running m))
                              then run_cancel errShutdown r else r) (m_heap m))
    (with_closed true m).

(** [Wait] on a job: what it waits for, [None] when it returns at once. *)
Definition Wait (ord : list string) (id : string) (m : Manager) : option nat :=
  fst <$> List.find (fun ar => String.eqb (j_ID (r_job ar.2)) id) (rev (range_running ord m)).

(** ** Reads *)

(** [List]: running jobs, the latest start first (Go's sort leaves equal ones
    in any order, as the visit does), then finished ones. *)
Definition List_ (ord : list string) (index : string) (m : Manager) : list Job :=
  let keep j := is_empty index || String.eqb (j_Index j) index in
  sort_newest (List.filter keep (running_jobs ord m)) ++ List.filter keep (m_history m).

Definition RunningJob (index : string) (m : Manager) : option Job :=
  a ← m_running m !! index; r ← m_heap m !! a; Some (r_job r).

Definition Running (m : Manager) : nat := size (m_running m).

(** ** Interleavings *)

(** An action: of a caller of [Start] (by its number), of the goroutine of a
    run (by its place in the heap), or of another caller.  [now], [fault] and
    [ord] are the clock, whether a save fails, and the order of a visit. *)
Inductive action :=
| AEnter (index : string) (kind : Kind) (trigger : Trigger) (reason : string) (st : Status)
| ALock (k : nat) (id : string) (now : Z) (fault : bool) (ord : list string)
| AWake (k : nat)
| ABegin (a : nat) (now : Z)
| AAcquire (a : nat) (now : Z)
| AAbort (a : nat)
| AProgress (a : nat) (p : Progress) (now : Z)
| ASave (a : nat) (fault : bool) (ord : list string)
| APerformed (a : nat) (o : op_end)
| ACause (a : nat)
| ARecord (a : nat) (now : Z) (fault : bool) (ord : list string)
| ATell (a : nat)
| ARelease (a : nat)
| AClose (a : nat)
| ACancel (ord : list string) (id : string)
| AShutdown
| AFinished.

(** The action's effect, [None] when it cannot happen now. *)
Definition exec (x : action) (m : Manager) : option Manager :=
  match x with
  | AEnter index kind trigger reason st =>
      Some (with_callers (m_callers m ++ [Start_enter index kind trigger reason st m]) m)
  | ALock k id now fault ord =>
      match m_callers m !! k with
      | Some (Locking c) =>
          let '(w, m) := Start_locked id now fault ord c m in
          Some (with_callers (<[k := w]> (m_callers m)) m)
      | _ => None
      end
  | AWake k =>
      match m_callers m !! k with
      | Some (Awaiting c a) =>
          r ← m_heap m !! a;
          if r_done r then Some (with_callers (<[k := Locking c]> (m_callers m)) m) else None
      | _ => None
      end
  | ABegin a now =>
      r ← m_heap m !! a;
      match r_pc r with PSpawned => Some (execute_begin now a r m) | _ => None end
  | AAcquire a now =>
      r ← m_heap m !! a;
      match r_pc r with PWaiting => execute_acquire now a m | _ => None end
  | AAbort a =>
      r ← m_heap m !! a;
      match r_pc r with PWaiting => execute_abort a r m | _ => None end
  | AProgress a p now =>
      r ← m_heap m !! a;
      match r_pc r with PPerforming => Some (execute_progress p now a r m) | _ => None end
  | ASave a fault ord =>
      r ← m_heap m !! a;
      match r_pc r with PSaving => Some (execute_save fault ord a m) | _ => None end
  | APerformed a o =>
      r ← m_heap m !! a;
      match r_pc r with
      | PPerforming => let '(res, err) := perform o in Some (set_pc (PReturned res err) a m)
      | _ => None
      end
  | ACause a =>
      r ← m_heap m !! a;
      match r_pc r with PReturned res err => Some (execute_cause a r res err m) | _ => None end
  | ARecord a now fault ord =>
      r ← m_heap m !! a;
      match r_pc r with
      | PEnding res err cause => Some (execute_record now fault ord a r res err cause m)
      | _ => None
      end
  | ATell a =>
      r ← m_heap m !! a;
      match r_pc r with PRecorded => Some (execute_tell a r m) | _ => None end
  | ARelease a =>
      r ← m_heap m !! a;
      match r_pc r with PTold => Some (execute_release a r m) | _ => None end
  | AClose a =>
      r ← m_heap m !! a;
      match r_pc r with PReleased => Some (execute_close a m) | _ => None end
  | ACancel ord id => Some (snd (Cancel ord id m))
  | AShutdown => Some (Shutdown m)
  | AFinished => if m_finished m then Some (with_finished false m) else None
  end.

(** The states a manager goes through. *)
Inductive reachable (m0 : Manager) : Manager -> Prop :=
| reach_start : reachable m0 m0
| reach_step m x m' : reachable m0 m -> exec x m = Some m' -> reachable m0 m'.

(** A run of actions. *)
Fixpoint exec_all (xs : list action) (m : Manager) : option Manager :=
  match xs with
  | [] => Some m
  | x :: xs => m ← exec x m; exec_all xs m
  end.

End Manager.
