(* ===== verification/RelayManagerFacts.v ===== *)
(** * Theorems on the relay's job manager

    In every interleaving: one job at a time per index and one store-writing
    operation at a time ([jobs_exclusive]); every job that ends is recorded
    and reported once, with an end state ([jobs_recorded_once]); without new
    jobs the goroutines end after boundedly many steps and never block each
    other ([jobs_drain]). *)
From S2P Require Import Prelude GoTime GoStrings GoFormat RelayJobs RelayJobsFacts.
From S2P Require Import RelayManager.
From stdpp Require Import options.

Local Open Scope Z_scope.

(** ** Where a goroutine is *)

(** The run is in the manager's map: its job is not recorded yet. *)
Definition live (p : pc) : bool :=
  match p with PRecorded | PTold | PReleased | PDone => false | _ => true end.

(** The index's operation is running. *)
Definition operating (p : pc) : bool :=
  match p with PPerforming | PSaving => true | _ => false end.

(** It may still hold the writer. *)
Definition may_hold (p : pc) : bool :=
  match p with PSpawned | PWaiting | PReleased | PDone => false | _ => true end.

(** [OnFinish] was told. *)
Definition told (p : pc) : bool :=
  match p with PTold | PReleased | PDone => true | _ => false end.

Definition finished (p : pc) : bool := match p with PDone => true | _ => false end.

(** The jobs of the runs that are at some places, in the order they began. *)
Definition jobs_at (sel : pc -> bool) (heap : list run) : list Job :=
  omap (fun r => if sel (r_pc r) then Some (r_job r) else None) heap.

Definition ended_jobs (heap : list run) : list Job := jobs_at (fun p => negb (live p)) heap.

(** ** Lists of runs *)

Lemma omap_alter_same {A B} (g : A -> option B) (f : A -> A) (a : nat) (l : list A) x :
  l !! a = Some x -> g (f x) = g x -> omap g (alter f a l) = omap g l.
Proof.
  revert a; induction l as [|y l IH]; intros [|a] Hx Hg; try done; cbn in *.
  - injection Hx as ->. by rewrite Hg.
  - by rewrite (IH a).
Qed.

Lemma omap_alter_new {A B} (g : A -> option B) (f : A -> A) (a : nat) (l : list A) x b :
  l !! a = Some x -> g x = None -> g (f x) = Some b -> omap g (alter f a l) ≡ₚ b :: omap g l.
Proof.
  revert a; induction l as [|y l IH]; intros [|a] Hx Hn Hs; try done; cbn in *.
  - injection Hx as ->. by rewrite Hn, Hs.
  - case_match; rewrite (IH a) by done; [apply Permutation_swap | done].
Qed.

Lemma heap_alter (f : run -> run) a b (heap : list run) r :
  alter f a heap !! b = Some r ->
  (b = a /\ exists r0, heap !! a = Some r0 /\ r = f r0) \/ (b <> a /\ heap !! b = Some r).
Proof.
  destruct (decide (b = a)) as [->|Hne].
  - rewrite list_lookup_alter_eq. intros (r0 & -> & ->)%fmap_Some. eauto.
  - rewrite list_lookup_alter_ne by done. auto.
Qed.

(** ** The invariant *)

Definition run_ok (m : Manager) (a : nat) (r : run) : Prop :=
  m_indexes m !! j_Index (r_job r) = Some (r_ix r) /\
  (live (r_pc r) = true -> m_running m !! j_Index (r_job r) = Some a /\
     j_State (r_job r) = StateRunning /\ j_Parked (r_job r) = false) /\
  (live (r_pc r) = false -> Job_Ended (r_job r) = true) /\
  r_done r = finished (r_pc r) /\
  (r_token r = true -> may_hold (r_pc r) = true /\ m_writer m = true) /\
  (ix_WritesStore (r_ix r) = true -> operating (r_pc r) = true -> r_token r = true).

Record Inv (H0 : list Job) (m : Manager) : Prop := {
  inv_run a r : m_heap m !! a = Some r -> run_ok m a r;
  inv_running k a : m_running m !! k = Some a ->
    exists r, m_heap m !! a = Some r /\ live (r_pc r) = true /\ j_Index (r_job r) = k;
  inv_token_unique a b r s : m_heap m !! a = Some r -> m_heap m !! b = Some s ->
    r_token r = true -> r_token s = true -> a = b;
  inv_token_held : m_writer m = true -> exists a r, m_heap m !! a = Some r /\ r_token r = true;
  inv_callers k c a : m_callers m !! k = Some (Awaiting c a) -> is_Some (m_heap m !! a);
  inv_history : exists ended, ended ≡ₚ ended_jobs (m_heap m) /\ m_history m = trim (ended ++ H0);
  inv_told : m_told m ≡ₚ jobs_at told (m_heap m);
}.

(** A change that keeps a run's job, ownership and standing. *)
Record benign (r r' : run) : Prop := {
  be_job : forget (r_job r) = forget (r_job r');
  be_ended : live (r_pc r) = false -> r_job r' = r_job r;
  be_ix : r_ix r' = r_ix r;
  be_token : r_token r' = r_token r;
  be_live : live (r_pc r') = live (r_pc r);
  be_told : told (r_pc r') = told (r_pc r);
  be_done : r_done r' = finished (r_pc r') ;
  be_hold : r_token r = true -> may_hold (r_pc r') = true;
  be_operating : ix_WritesStore (r_ix r) = true -> operating (r_pc r') = true -> r_token r = true;
}.

Section Facts.
Context `{C : JobsCodec}.

(** Saving touches nothing but the file. *)
Lemma saveLocked_eq fault ord m :
  exists f, saveLocked fault ord m = with_file f m.
Proof.
  unfold saveLocked. case_match; [exists (m_file m); by destruct m | eauto].
Qed.

(** The invariant speaks of these parts of the manager only. *)
Lemma Inv_ext H0 m m' :
  m_indexes m' = m_indexes m -> m_heap m' = m_heap m -> m_running m' = m_running m ->
  m_writer m' = m_writer m -> m_callers m' = m_callers m -> m_history m' = m_history m ->
  m_told m' = m_told m -> Inv H0 m -> Inv H0 m'.
Proof.
  intros E1 E2 E3 E4 E5 E6 E7 [H1 H2 H3 H4 H5 H6 H7].
  constructor; unfold run_ok in *; rewrite ?E1, ?E2, ?E3, ?E4, ?E5, ?E6, ?E7; done.
Qed.

Lemma Inv_save H0 fault ord m : Inv H0 m -> Inv H0 (saveLocked fault ord m).
Proof. destruct (saveLocked_eq fault ord m) as [f ->]. by apply Inv_ext. Qed.

(** Benign changes to any of the runs keep the invariant. *)
Lemma Inv_imap H0 m g :
  (forall a r, m_heap m !! a = Some r -> benign r (g a r)) ->
  Inv H0 m -> Inv H0 (with_heap (imap g (m_heap m)) m).
Proof.
  intros Hg [H1 H2 H3 H4 H5 H6 H7].
  assert (Hback : forall b s, imap g (m_heap m) !! b = Some s ->
    exists r, m_heap m !! b = Some r /\ s = g b r).
  { intros b s. rewrite list_lookup_imap. intros (r & -> & ->)%fmap_Some. eauto. }
  assert (Hforw : forall b r, m_heap m !! b = Some r -> imap g (m_heap m) !! b = Some (g b r)).
  { intros b r Hb. by rewrite list_lookup_imap, Hb. }
  assert (Hjobs : forall sel, (forall r r', benign r r' -> sel (r_pc r') = sel (r_pc r)) ->
    (forall p, sel p = true -> live p = false) -> jobs_at sel (imap g (m_heap m)) = jobs_at sel (m_heap m)).
  { intros sel Hs Hl. unfold jobs_at. clear -Hg Hs Hl. revert g Hg.
    induction (m_heap m) as [|r l IH]; intros g Hg; [done|].
    rewrite imap_cons. cbn. pose proof (Hg O r eq_refl) as Hb. rewrite (Hs _ _ Hb), IH.
    - destruct (sel (r_pc r)) eqn:Er; [|done]. by rewrite (be_ended _ _ Hb (Hl _ Er)).
    - intros a r' Ha. by apply (Hg (S a)). }
  constructor; cbn -[jobs_at ended_jobs].
  - intros b s (r & Hr & ->)%Hback. destruct (Hg _ _ Hr) as [Bj Be Bi Bt Bl Bo Bd Bh Bp].
    destruct (H1 _ _ Hr) as (K1 & K2 & K3 & K4 & K5 & K6).
    destruct (forget_state _ _ Bj) as [Bs Bpk].
    unfold run_ok. rewrite (same_run_index _ _ (forget_same_run _ _ Bj)), Bi, Bt, Bl, <- Bs, <- Bpk.
    split_and!; cbn; auto.
    + intros Hl. rewrite (Be Hl). auto.
    + intros Ht. destruct (K5 Ht). auto.
  - intros k b Hk. destruct (H2 k b Hk) as (r & Hr & Hl & Hi).
    destruct (Hg _ _ Hr) as [Bj Be Bi Bt Bl Bo Bd Bh Bp].
    exists (g b r). rewrite Bl, (same_run_index _ _ (forget_same_run _ _ Bj)). auto.
  - intros b c s t (r & Hr & ->)%Hback (r' & Hr' & ->)%Hback.
    rewrite (be_token _ _ (Hg _ _ Hr)), (be_token _ _ (Hg _ _ Hr')). eauto.
  - intros Hw. destruct (H4 Hw) as (b & r & Hr & Ht). exists b, (g b r).
    rewrite (be_token _ _ (Hg _ _ Hr)). auto.
  - intros k c b Hk. destruct (H5 k c b Hk) as [r Hr]. eauto.
  - unfold ended_jobs in *. rewrite Hjobs; [done | | by intros ?; rewrite negb_true_iff].
    intros r r' Hb. by rewrite (be_live _ _ Hb).
  - rewrite Hjobs; [done | apply be_told | by intros []].
Qed.

Lemma Inv_on_run H0 m a f r :
  m_heap m !! a = Some r -> benign r (f r) -> Inv H0 m -> Inv H0 (on_run a f m).
Proof.
  intros Ha Hf HI. unfold on_run.
  replace (alter f a (m_heap m)) with (imap (fun b r => if decide (b = a) then f r else r) (m_heap m)).
  - apply Inv_imap; [|done]. intros b s Hb. case_decide; [by simplify_eq|].
    destruct (inv_run _ _ HI _ _ Hb) as (K1 & K2 & K3 & K4 & K5 & K6).
    constructor; auto with ncli. by intros []%K5.
  - apply list_eq. intros b. rewrite list_lookup_imap.
    destruct (decide (b = a)) as [->|Hne].
    + rewrite list_lookup_alter_eq. apply option_fmap_ext. intros s. by try case_decide.
    + rewrite list_lookup_alter_ne by done. destruct (m_heap m !! b); cbn; [|done].
      by destruct (decide (b = a)).
Qed.

(** Solve that a step of [execute] is benign: fields by computation, the rest
    from what the invariant says of the run. *)
Ltac benign_run HI Ha :=
  let K := fresh in pose proof (inv_run _ _ HI _ _ Ha) as K;
  unfold run_ok in K; destruct K as (?K1 & ?K2 & ?K3 & ?K4 & ?K5 & ?K6);
  repeat match goal with E : r_pc _ = _ |- _ => progress rewrite E in * end;
  constructor; cbn in *;
  repeat match goal with E : r_pc _ = _ |- _ => progress rewrite E in * end; cbn in *;
  try done; try by (intros []%K5); try by (intros Ht; destruct (K5 Ht)); auto with ncli.

Lemma Inv_begin H0 m a r now :
  m_heap m !! a = Some r -> r_pc r = PSpawned -> Inv H0 m -> Inv H0 (execute_begin now a r m).
Proof.
  intros Ha Hp HI. unfold execute_begin.
  destruct (ix_WritesStore (r_ix r)) eqn:Hw; (eapply Inv_on_run; [exact Ha | | exact HI]);
    benign_run HI Ha; congruence.
Qed.

Lemma Inv_set_pc H0 m a r p :
  m_heap m !! a = Some r -> live (r_pc r) = true -> live p = true ->
  (operating (r_pc r) = true \/ operating p = false) ->
  (may_hold (r_pc r) = true -> may_hold p = true) ->
  Inv H0 m -> Inv H0 (set_pc p a m).
Proof.
  intros Ha Hl Hl' Ho Hh HI. eapply Inv_on_run; [exact Ha | | exact HI].
  destruct (inv_run _ _ HI _ _ Ha) as (K1 & K2 & K3 & K4 & K5 & K6).
  constructor; cbn; auto with ncli; try congruence.
  - by destruct p, (r_pc r).
  - rewrite K4. by destruct p, (r_pc r).
  - intros [Hm _]%K5. auto.
  - intros Hw Hop. destruct Ho as [Ho|Ho]; [auto | congruence].
Qed.

Lemma Inv_progress H0 m a r p now :
  m_heap m !! a = Some r -> r_pc r = PPerforming -> Inv H0 m -> Inv H0 (execute_progress p now a r m).
Proof.
  intros Ha Hp HI. unfold execute_progress.
  assert (HI' : Inv H0 (on_run a (fun r => run_job (job_progress p (r_job r)) r) m))
    by (eapply Inv_on_run; [exact Ha | | exact HI]; benign_run HI Ha).
  case_match; [|done].
  assert (Ha' : m_heap (on_run a (fun r => run_job (job_progress p (r_job r)) r) m) !! a
                = Some (run_job (job_progress p (r_job r)) r))
    by (cbn; by rewrite list_lookup_alter_eq, Ha).
  eapply Inv_on_run; [exact Ha' | | exact HI'].
  clear Ha'. benign_run HI Ha.
Qed.

Lemma Inv_cause H0 m a r res err :
  m_heap m !! a = Some r -> r_pc r = PReturned res err -> Inv H0 m -> Inv H0 (execute_cause a r res err m).
Proof.
  intros Ha Hp HI. unfold execute_cause.
  assert (HI' : Inv H0 (set_pc (PEnding res err (r_cause r)) a m))
    by (eapply Inv_set_pc; eauto; rewrite ?Hp; auto).
  case_match; [|done]. by eapply Inv_ext; [..|exact HI'].
Qed.

Lemma Inv_close H0 m a r :
  m_heap m !! a = Some r -> r_pc r = PReleased -> Inv H0 m -> Inv H0 (execute_close a m).
Proof. intros Ha Hp HI. eapply Inv_on_run; [exact Ha | | exact HI]. benign_run HI Ha. Qed.

Lemma run_cancel_benign H0 m a r e :
  Inv H0 m -> m_heap m !! a = Some r -> benign r (run_cancel e r).
Proof.
  intros HI Ha. unfold run_cancel. destruct (r_cause r); benign_run HI Ha.
Qed.

Lemma Inv_shutdown H0 m : Inv H0 m -> Inv H0 (Shutdown m).
Proof.
  intros HI. unfold Shutdown.
  assert (HI' : Inv H0 (with_closed true m)) by (by eapply Inv_ext; [..|exact HI]).
  apply (Inv_imap H0 (with_closed true m)); [|done].
  cbn. intros a r Ha. case_bool_decide.
  - by eapply run_cancel_benign.
  - benign_run HI Ha.
Qed.

(** The runs a visit sees are the ones in the map. *)
Lemma range_keys_elem ord m k : k ∈ range_keys ord m <-> is_Some (m !! k).
Proof.
  unfold range_keys. rewrite elem_of_app, !list_elem_of_filter, elem_of_remove_dups.
  assert (Hk : k ∈ (map_to_list m).*1 <-> is_Some (m !! k)).
  { rewrite list_elem_of_fmap. split.
    - intros ([k' v] & -> & Hv%elem_of_map_to_list). eauto.
    - intros [v Hv]. exists (k, v). by rewrite elem_of_map_to_list. }
  rewrite Hk. destruct (decide (k ∈ ord)); tauto.
Qed.

Lemma range_running_elem ord m a r :
  (a, r) ∈ range_running ord m -> exists k, m_running m !! k = Some a /\ m_heap m !! a = Some r.
Proof.
  unfold range_running. rewrite list_elem_of_omap. intros (k & _ & Hk). exists k.
  destruct (m_running m !! k) as [b|]; [|done]. cbn in Hk.
  destruct (m_heap m !! b) eqn:E; by simplify_eq/=.
Qed.

Lemma Inv_cancel H0 ord id m : Inv H0 m -> Inv H0 (Cancel ord id m).2.
Proof.
  intros HI. unfold Cancel.
  destruct (List.find _ _) as [[a r]|] eqn:Ef; [|by repeat case_match].
  apply find_some in Ef as [Hin _]. apply in_rev, list_elem_of_In in Hin.
  apply range_running_elem in Hin as (k & Hk & Ha).
  case_match; [done|]. cbn [snd].
  eapply Inv_on_run; [exact Ha | | exact HI].
  destruct (inv_running _ _ HI _ _ Hk) as (r' & Hr' & Hl & _). simplify_eq.
  destruct (run_cancel_benign H0 m a r errCancelled HI Ha) as [Bj Be Bi Bt Bl Bo Bd Bh Bp].
  constructor; cbn; auto; congruence.
Qed.

(** The actions that move a run between standings. *)

(** A change of one run, and what it must respect for the others. *)
Lemma Inv_move H0 m m' a f r :
  Inv H0 m -> m_heap m !! a = Some r ->
  m_heap m' = alter f a (m_heap m) -> m_callers m' = m_callers m ->
  run_ok m' a (f r) ->
  (forall b s, b <> a -> m_heap m !! b = Some s -> run_ok m b s -> run_ok m' b s) ->
  (forall k b, m_running m' !! k = Some b ->
     m_running m !! k = Some b /\ (b = a -> live (r_pc (f r)) = true /\ j_Index (r_job (f r)) = j_Index (r_job r))) ->
  (r_token (f r) = true -> r_token r = true \/ m_writer m = false) ->
  (m_writer m' = true -> r_token (f r) = true \/ m_writer m = true /\ r_token r = false) ->
  (exists ended, ended ≡ₚ ended_jobs (alter f a (m_heap m)) /\ m_history m' = trim (ended ++ H0)) ->
  m_told m' ≡ₚ jobs_at told (alter f a (m_heap m)) -> Inv H0 m'.
Proof.
  intros [H1 H2 H3 H4 H5 H6 H7] Ha Eh Ec Hok Hothers Hrun Htok Hw Hhist Htold.
  assert (Hfree : m_writer m = false -> forall b s, m_heap m !! b = Some s -> r_token s = true -> False).
  { intros E b s Hb Ht. destruct (H1 _ _ Hb) as (_ & _ & _ & _ & K & _). destruct (K Ht). congruence. }
  constructor; rewrite ?Eh, ?Ec; auto.
  - intros b s Hb. apply heap_alter in Hb as [(-> & r0 & Hr0 & ->)|(Hne & Hb)]; [by simplify_eq | auto].
  - intros k b Hk. destruct (Hrun k b Hk) as [Hk' Hb]. destruct (H2 k b Hk') as (s & Hs & Hl & Hi).
    destruct (decide (b = a)) as [->|Hne].
    + simplify_eq. destruct (Hb eq_refl) as [Hl' Hi']. exists (f r).
      by rewrite list_lookup_alter_eq, Ha.
    + exists s. by rewrite list_lookup_alter_ne.
  - intros b c s t Hb Hc Hs Ht.
    apply heap_alter in Hb as [(-> & r0 & Hr0 & ->)|(Hne & Hb)];
    apply heap_alter in Hc as [(-> & r1 & Hr1 & ->)|(Hne' & Hc)]; simplify_eq; try done; eauto;
    exfalso; [destruct (Htok Hs) | destruct (Htok Ht)]; eauto.
  - intros Hm. destruct (Hw Hm) as [Ht|[Hm' Ht]].
    + exists a, (f r). by rewrite list_lookup_alter_eq, Ha.
    + destruct (H4 Hm') as (b & s & Hb & Hs). exists b, s.
      rewrite list_lookup_alter_ne; [done|]. intros ->. congruence.
  - intros k c b Hk. destruct (H5 k c b Hk) as [s Hs]. apply lookup_lt_Some in Hs.
    apply lookup_lt_is_Some. by rewrite length_alter.
Qed.

(** The jobs at some places, when one run moves among places that are all
    selected or all not. *)
Lemma jobs_at_alter sel f a heap r :
  heap !! a = Some r -> sel (r_pc (f r)) = sel (r_pc r) ->
  (sel (r_pc r) = true -> r_job (f r) = r_job r) ->
  jobs_at sel (alter f a heap) = jobs_at sel heap.
Proof.
  intros Ha Hs Hj. unfold jobs_at. eapply omap_alter_same; [exact Ha|]. cbn. rewrite Hs.
  case_match; [by rewrite Hj | done].
Qed.

Lemma Inv_acquire H0 m a r now m' :
  m_heap m !! a = Some r -> r_pc r = PWaiting -> Inv H0 m ->
  execute_acquire now a m = Some m' -> Inv H0 m'.
Proof.
  unfold execute_acquire. intros Ha Hp HI. destruct (m_writer m) eqn:Hw; [done|]. intros [= <-].
  destruct (inv_run _ _ HI _ _ Ha) as (K1 & K2 & K3 & K4 & K5 & K6). rewrite Hp in *.
  eapply (Inv_move H0 m _ a _ r HI Ha); [reflexivity | reflexivity | ..]; cbn -[jobs_at ended_jobs].
  - unfold run_ok. cbn. split_and!; auto.
  - intros b s Hne Hb (L1 & L2 & L3 & L4 & L5 & L6). unfold run_ok. cbn.
    split_and!; auto. by intros []%L5.
  - auto.
  - auto.
  - auto.
  - unfold ended_jobs. erewrite jobs_at_alter by (first [exact Ha | cbn; by rewrite ?Hp]).
    apply (inv_history _ _ HI).
  - erewrite jobs_at_alter by (first [exact Ha | cbn; by rewrite ?Hp]). apply (inv_told _ _ HI).
Qed.

Lemma Inv_record H0 m a r now fault ord res err cause :
  m_heap m !! a = Some r -> r_pc r = PEnding res err cause -> Inv H0 m ->
  Inv H0 (execute_record now fault ord a r res err cause m).
Proof.
  intros Ha Hp HI. unfold execute_record. apply Inv_save. cbv zeta.
  set (j := finish_job _ _ _ _ _ _).
  assert (Hj : j_Index j = j_Index (r_job r)) by apply same_run_index, finish_job_same.
  destruct (inv_run _ _ HI _ _ Ha) as (K1 & K2 & K3 & K4 & K5 & K6). rewrite Hp in *.
  destruct (K2 eq_refl) as [Krun Kst].
  eapply (Inv_move H0 m _ a _ r HI Ha); [reflexivity | reflexivity | ..]; cbn -[jobs_at ended_jobs].
  - unfold run_ok. cbn. rewrite Hj. split_and!; auto; try done; [intros _; apply finish_job_ended | by intros []%K5 ..].
  - intros b s Hne Hb (L1 & L2 & L3 & L4 & L5 & L6). unfold run_ok. cbn. split_and!; auto.
    intros Hl. destruct (L2 Hl) as [L2a L2b]. split; [|done].
    rewrite lookup_delete_ne; [done|]. rewrite Hj. intros E. rewrite E in Krun. congruence.
  - intros k b Hk. apply lookup_delete_Some in Hk as [Hne Hk]. split; [done|].
    intros ->. destruct (inv_running _ _ HI _ _ Hk) as (s & Hs & _ & Hi). by simplify_eq.
  - auto.
  - intros Hm. destruct (r_token r); auto.
  - destruct (inv_history _ _ HI) as (ended & He & ->). exists (j :: ended). split.
    + unfold ended_jobs, jobs_at in *. symmetry. etrans.
      * eapply omap_alter_new; [exact Ha | cbn; by rewrite Hp | done].
      * by rewrite He.
    + change (j :: ended) with ([j] ++ ended). rewrite <- app_assoc.
      apply (trim_again [j] (ended ++ H0)).
  - erewrite jobs_at_alter by (first [exact Ha | cbn; by rewrite ?Hp]). apply (inv_told _ _ HI).
Qed.

Lemma Inv_tell H0 m a r :
  m_heap m !! a = Some r -> r_pc r = PRecorded -> Inv H0 m -> Inv H0 (execute_tell a r m).
Proof.
  intros Ha Hp HI.
  destruct (inv_run _ _ HI _ _ Ha) as (K1 & K2 & K3 & K4 & K5 & K6). rewrite Hp in *.
  eapply (Inv_move H0 m _ a _ r HI Ha); [reflexivity | reflexivity | ..]; cbn -[jobs_at ended_jobs].
  - unfold run_ok. cbn. split_and!; auto.
  - done.
  - intros k b Hk. split; [done|]. intros ->.
    destruct (inv_running _ _ HI _ _ Hk) as (s & Hs & Hl & _). simplify_eq. by rewrite Hp in Hl.
  - auto.
  - intros Hm. destruct (r_token r); auto.
  - unfold ended_jobs. erewrite jobs_at_alter by (first [exact Ha | cbn; by rewrite ?Hp]).
    apply (inv_history _ _ HI).
  - unfold jobs_at. symmetry. etrans.
    + eapply omap_alter_new; [exact Ha | cbn; by rewrite Hp | done].
    + cbn. rewrite Permutation_app_comm. cbn. by rewrite (inv_told _ _ HI).
Qed.

Lemma Inv_release H0 m a r :
  m_heap m !! a = Some r -> r_pc r = PTold -> Inv H0 m -> Inv H0 (execute_release a r m).
Proof.
  intros Ha Hp HI. unfold execute_release.
  destruct (inv_run _ _ HI _ _ Ha) as (K1 & K2 & K3 & K4 & K5 & K6). rewrite Hp in *.
  set (f := fun r0 : run => _).
  assert (Hrun : forall k b, m_running m !! k = Some b ->
    m_running m !! k = Some b /\ (b = a -> live (r_pc (f r)) = true /\ j_Index (r_job (f r)) = j_Index (r_job r))).
  { intros k b Hk. split; [done|]. intros ->.
    destruct (inv_running _ _ HI _ _ Hk) as (s & Hs & Hl & _). simplify_eq. by rewrite Hp in Hl. }
  assert (Hh : exists ended, ended ≡ₚ ended_jobs (alter f a (m_heap m)) /\ m_history m = trim (ended ++ H0)).
  { unfold ended_jobs. erewrite jobs_at_alter by (first [exact Ha | cbn; by rewrite ?Hp]).
    apply (inv_history _ _ HI). }
  assert (Ht : m_told m ≡ₚ jobs_at told (alter f a (m_heap m))).
  { erewrite jobs_at_alter by (first [exact Ha | cbn; by rewrite ?Hp]). apply (inv_told _ _ HI). }
  destruct (r_token r) eqn:Htok; eapply (Inv_move H0 m _ a f r HI Ha); [reflexivity | reflexivity | ..];
    cbn -[jobs_at ended_jobs]; auto; try done.
  intros b s Hne Hb (L1 & L2 & L3 & L4 & L5 & L6). unfold run_ok. cbn. split_and!; auto.
  intros Hs. destruct Hne. by eapply (inv_token_unique _ _ HI).
Qed.

(** A new run on an idle index. *)
Lemma Inv_spawn H0 m index a j ix now :
  Inv H0 m -> a = length (m_heap m) -> m_running m !! index = None ->
  m_indexes m !! index = Some ix -> j_Index j = index ->
  j_State j = StateRunning /\ j_Parked j = false ->
  Inv H0 (with_running (<[index := a]> (m_running m))
            (with_heap (m_heap m ++ [mkRun j None false ix now now false PSpawned]) m)).
Proof.
  intros [H1 H2 H3 H4 H5 H6 H7] -> Hidle Hix Hj Hst.
  assert (Hsel : forall sel, sel PSpawned = false ->
    jobs_at sel (m_heap m ++ [mkRun j None false ix now now false PSpawned]) = jobs_at sel (m_heap m)).
  { intros sel Hs. unfold jobs_at. rewrite omap_app. cbn. by rewrite Hs, app_nil_r. }
  assert (Hold : forall b s, (m_heap m ++ [mkRun j None false ix now now false PSpawned]) !! b = Some s ->
    m_heap m !! b = Some s \/ b = length (m_heap m) /\ s = mkRun j None false ix now now false PSpawned).
  { intros b s [?|[? Hs]]%lookup_app_Some; [auto|]. apply list_lookup_singleton_Some in Hs as [? <-].
    right. split; [lia|done]. }
  constructor; cbn -[jobs_at ended_jobs].
  - intros b s [Hb|[-> ->]]%Hold; unfold run_ok; cbn.
    + destruct (H1 _ _ Hb) as (K1 & K2 & K3 & K4 & K5 & K6). split_and!; auto.
      intros Hl. destruct (K2 Hl) as [K2a K2b]. split; [|done].
      rewrite lookup_insert_ne; [done|]. congruence.
    + rewrite Hj, lookup_insert_eq. split_and!; auto; done.
  - intros k b [[<- <-]|[Hne Hk]]%lookup_insert_Some.
    + eexists. rewrite list_lookup_middle by done. done.
    + destruct (H2 k b Hk) as (s & Hs & Hl & Hi). exists s. split_and!; auto.
      by apply lookup_app_l_Some.
  - intros b c s t [Hb|[-> ->]]%Hold [Hc|[-> ->]]%Hold; try done; eauto.
  - intros Hw. destruct (H4 Hw) as (b & s & Hb & Hs). exists b, s. split; [|done].
    by apply lookup_app_l_Some.
  - intros k c b Hk. destruct (H5 k c b Hk) as [s Hs]. exists s. by apply lookup_app_l_Some.
  - unfold ended_jobs. by rewrite Hsel.
  - by rewrite Hsel.
Qed.

(** What [Start]'s loop answers, and that it keeps the invariant. *)
Lemma Inv_start H0 m id now fault ord c w m' :
  Inv H0 m -> Start_locked id now fault ord c m = (w, m') ->
  Inv H0 m' /\ m_callers m' = m_callers m /\
  (forall c' a, w = Awaiting c' a -> is_Some (m_heap m' !! a)).
Proof.
  intros HI. unfold Start_locked.
  destruct (m_closed m); [by intros [= <- <-]|].
  destruct (m_running m !! c_index c) as [a|] eqn:Hrun; cbn [mbind option_bind].
  - destruct (inv_running _ _ HI _ _ Hrun) as (r & Hr & Hl & Hi). rewrite Hr. cbn [mbind option_bind].
    case_match; [by intros [= <- <-]|]. case_match; [|by intros [= <- <-]].
    intros [= <- <-]. split_and!; [|done|].
    + eapply Inv_on_run; [exact Hr | by eapply run_cancel_benign | done].
    + intros c' b [= <- <-]. apply lookup_lt_is_Some. cbn. rewrite length_alter.
      by apply lookup_lt_Some in Hr.
  - destruct (m_indexes m !! c_index c) as [ix|] eqn:Hix; [|by intros [= <- <-]].
    cbv zeta. intros [= <- <-]. split_and!; [|by destruct (saveLocked_eq fault ord
      (with_running (<[c_index c:=length (m_heap m)]> (m_running m)) (with_heap (m_heap m ++ [mkRun
        (started_job id (c_index c) (c_kind c) (c_trigger c) (c_reason c) now (c_entries c)) None false ix now now
        false PSpawned]) m))) as [? ->]|done].
    apply Inv_save. by apply (Inv_spawn H0 m).
Qed.

Lemma Inv_callers H0 m k w :
  Inv H0 m -> (forall c a, w = Awaiting c a -> is_Some (m_heap m !! a)) ->
  Inv H0 (with_callers (<[k := w]> (m_callers m)) m).
Proof.
  intros [H1 H2 H3 H4 H5 H6 H7] Hw. constructor; try done.
  cbn. intros i c a Hi. destruct (decide (i = k)) as [->|Hne].
  - apply list_lookup_insert_Some in Hi as [(_ & -> & _)|[]]; [eauto|done].
  - rewrite list_lookup_insert_ne in Hi by done. eauto.
Qed.

Lemma Inv_enter H0 m w :
  Inv H0 m -> (forall c a, w <> Awaiting c a) -> Inv H0 (with_callers (m_callers m ++ [w]) m).
Proof.
  intros [H1 H2 H3 H4 H5 H6 H7] Hw. constructor; try done.
  cbn. intros k c a [?|[_ Hk]]%lookup_app_Some; [eauto|].
  apply list_lookup_singleton_Some in Hk as [_ Hk]. by destruct (Hw c a).
Qed.

Lemma Start_enter_not_awaiting index kind trigger reason st m c a :
  Start_enter index kind trigger reason st m <> Awaiting c a.
Proof. unfold Start_enter. repeat case_match; done. Qed.

(** Every action keeps the invariant. *)
Lemma Inv_exec H0 x m m' : Inv H0 m -> exec x m = Some m' -> Inv H0 m'.
Proof.
  intros HI Hx. destruct x; cbn [exec] in Hx;
    try (destruct (m_heap m !! a) as [r|] eqn:Ha; [|done]; cbn [mbind option_bind] in Hx;
         destruct (r_pc r) eqn:Hp; try done).
  - injection Hx as <-. apply Inv_enter; [done|]. intros ??. apply Start_enter_not_awaiting.
  - destruct (m_callers m !! k) as [[c|c a|j e]|] eqn:Hk; try done.
    destruct (Start_locked id now fault ord c m) as [w m1] eqn:Hs.
    injection Hx as <-. destruct (Inv_start _ _ _ _ _ _ _ _ _ HI Hs) as (HI1 & _ & Hw).
    by apply Inv_callers.
  - destruct (m_callers m !! k) as [[c|c a|j e]|] eqn:Hk; try done.
    destruct (m_heap m !! a) as [r|] eqn:Ha; [|done]. cbn [mbind option_bind] in Hx.
    destruct (r_done r); [|done]. injection Hx as <-. by apply Inv_callers.
  - injection Hx as <-. by apply Inv_begin.
  - by eapply Inv_acquire.
  - unfold execute_abort in Hx. destruct (r_cause r); [|done]. injection Hx as <-.
    eapply Inv_set_pc; eauto; rewrite ?Hp; auto.
  - injection Hx as <-. by apply Inv_progress.
  - injection Hx as <-. unfold execute_save.
    destruct (saveLocked_eq fault ord m) as [f Ef].
    eapply Inv_set_pc; [rewrite Ef; exact Ha | rewrite ?Hp; auto.. | by apply Inv_save].
  - destruct (perform o) as [res err]. injection Hx as <-. eapply Inv_set_pc; eauto; rewrite ?Hp; auto.
  - injection Hx as <-. by apply Inv_cause.
  - injection Hx as <-. by apply Inv_record.
  - injection Hx as <-. by apply Inv_tell.
  - injection Hx as <-. by apply Inv_release.
  - injection Hx as <-. by eapply Inv_close.
  - injection Hx as <-. by apply Inv_cancel.
  - injection Hx as <-. by apply Inv_shutdown.
  - destruct (m_finished m); [|done]. injection Hx as <-. by eapply Inv_ext; [..|exact HI].
Qed.

(** ** On start *)

Lemma park_all_locked faults order m :
  exists f, foldl (fun m name => parkLocked (faults name) name m) m order
  = with_file f (with_history (foldl (fun h name => park name h) (m_history m) order) m).
Proof.
  revert m; induction order as [|name order IH]; intros m; cbn [foldl].
  - exists (m_file m). by destruct m.
  - destruct (IH (parkLocked (faults name) name m)) as [f ->]. exists f.
    unfold parkLocked, park. destruct (crash_loop name (m_history m)); [|done].
    by destruct (saveLocked_eq (faults name) [] (with_history
      (update_newest name (park_job name) (m_history m)) m)) as [g ->].
Qed.

(** A manager starts idle, with the history the file holds. *)
Lemma New_fields path file faults ixs :
  exists f h, New path file faults ixs
    = mkManager (foldl (fun m ix => <[ix_Name ix := ix]> m) ∅ ixs) (ix_Name <$> ixs) path f ∅ h
        false false false [] [] [] [] /\
    ((h = [] /\ f = file /\ (path = ""%string \/ (file ≫= jobs_Unmarshal) = None)) \/
     exists data jobs, path <> ""%string /\ file = Some data /\ jobs_Unmarshal data = Some jobs /\
       h = load_jobs (ix_Name <$> ixs) jobs).
Proof.
  unfold New, load. cbn [m_path m_file m_order].
  destruct (is_empty path) eqn:Hp; [apply is_empty_true in Hp; eauto 10|].
  destruct file as [data|]; [|eauto 10].
  destruct (jobs_Unmarshal data) as [jobs|] eqn:Hj; [|cbn; eauto 10].
  match goal with |- context [foldl ?g ?m0 ?o] => destruct (park_all_locked faults o m0) as [f Hf] end.
  exists f, (load_jobs (ix_Name <$> ixs) jobs). split; [exact Hf|]. right.
  apply is_empty_false in Hp. eauto 10.
Qed.

Lemma New_trimmed path file faults ixs :
  trim (m_history (New path file faults ixs)) = m_history (New path file faults ixs).
Proof.
  destruct (New_fields path file faults ixs) as (f & h & -> & [[-> _]|(d & js & _ & _ & _ & ->)]);
    [done|]. apply load_jobs_trimmed.
Qed.

Lemma Inv_New path file faults ixs :
  Inv (m_history (New path file faults ixs)) (New path file faults ixs).
Proof.
  pose proof (New_trimmed path file faults ixs) as Ht. revert Ht.
  destruct (New_fields path file faults ixs) as (f & h & -> & _). cbn [m_history]. intros Ht.
  constructor; cbn; try done. exists []. done.
Qed.

Lemma Inv_reachable path file faults ixs m :
  reachable (New path file faults ixs) m -> Inv (m_history (New path file faults ixs)) m.
Proof. induction 1; [apply Inv_New | by eapply Inv_exec]. Qed.

(** ** Mutual exclusion *)

(** C6: in every interleaving of starts, cancellations, a shutdown and the
    jobs' goroutines, an index has at most one job that has not ended, the
    manager's map holds exactly those jobs, each with state "running", and at
    most one operation that writes the event store is under way. *)
Theorem jobs_exclusive path file faults ixs m :
  reachable (New path file faults ixs) m ->
  (forall a b r s, m_heap m !! a = Some r -> m_heap m !! b = Some s ->
     live (r_pc r) = true -> live (r_pc s) = true ->
     j_Index (r_job r) = j_Index (r_job s) -> a = b) /\
  (forall k a, m_running m !! k = Some a <->
     exists r, m_heap m !! a = Some r /\ live (r_pc r) = true /\ j_Index (r_job r) = k /\
       j_State (r_job r) = StateRunning) /\
  (forall a b r s, m_heap m !! a = Some r -> m_heap m !! b = Some s ->
     operating (r_pc r) = true -> operating (r_pc s) = true ->
     ix_WritesStore (r_ix r) = true -> ix_WritesStore (r_ix s) = true -> a = b).
Proof.
  intros HI%Inv_reachable. split_and!.
  - intros a b r s Ha Hb Hr Hs E.
    destruct (inv_run _ _ HI _ _ Ha) as (_ & K & _). destruct (K Hr) as [Ka _].
    destruct (inv_run _ _ HI _ _ Hb) as (_ & L & _). destruct (L Hs) as [Kb _]. congruence.
  - intros k a. split.
    + intros Hk. destruct (inv_running _ _ HI _ _ Hk) as (r & Hr & Hl & Hi). exists r.
      destruct (inv_run _ _ HI _ _ Hr) as (_ & K & _). by destruct (K Hl) as (? & ? & ?).
    + intros (r & Hr & Hl & <- & _). destruct (inv_run _ _ HI _ _ Hr) as (_ & K & _). by destruct (K Hl) as (? & ? & ?).
  - intros a b r s Ha Hb Hr Hs Hwr Hws.
    destruct (inv_run _ _ HI _ _ Ha) as (_ & _ & _ & _ & _ & K).
    destruct (inv_run _ _ HI _ _ Hb) as (_ & _ & _ & _ & _ & L).
    eapply (inv_token_unique _ _ HI); eauto.
Qed.

(** ** Every job is recorded once *)

(** C11: whatever is interleaved, the history is the newest twenty jobs of
    each index among those the relay loaded and those that ended since, every
    ended job exactly once and with an end state; each job is reported to
    [OnFinish] exactly once. *)
Theorem jobs_recorded_once path file faults ixs m :
  reachable (New path file faults ixs) m ->
  (exists ended, ended ≡ₚ ended_jobs (m_heap m) /\ Forall (fun j => Job_Ended j = true) ended /\
     m_history m = trim (ended ++ m_history (New path file faults ixs)) /\
     forall k, of_index k (m_history m)
       = take keptJobs (of_index k ended ++ of_index k (m_history (New path file faults ixs)))) /\
  m_told m ≡ₚ jobs_at told (m_heap m) /\
  (m_running m = ∅ -> ended_jobs (m_heap m) = r_job <$> m_heap m).
Proof.
  intros HI%Inv_reachable. split_and!.
  - destruct (inv_history _ _ HI) as (ended & He & Hh). exists ended. split_and!; try done.
    + rewrite He. apply Forall_forall. intros j. unfold ended_jobs, jobs_at.
      rewrite list_elem_of_omap. intros (r & Hr & Hj).
      apply list_elem_of_lookup in Hr as [a Ha]. destruct (live (r_pc r)) eqn:Hl; [done|].
      injection Hj as <-. destruct (inv_run _ _ HI _ _ Ha) as (_ & _ & K & _). auto.
    + intros k. rewrite Hh, trim_index, of_index_app. done.
  - apply (inv_told _ _ HI).
  - intros Hempty.
    assert (Hd : forall r, r ∈ m_heap m -> live (r_pc r) = false).
    { intros r Hr. apply list_elem_of_lookup in Hr as [a Ha].
      destruct (inv_run _ _ HI _ _ Ha) as (_ & K & _). destruct (live (r_pc r)); [|done].
      destruct (K eq_refl) as [Kr _]. by rewrite Hempty, lookup_empty in Kr. }
    unfold ended_jobs, jobs_at. clear -Hd. induction (m_heap m) as [|r l IH]; cbn; [done|].
    rewrite (Hd r) by set_solver. cbn. rewrite IH; [done|]. set_solver.
Qed.

(** ** The goroutines end *)

(** The steps of the jobs' goroutines, reports of progress apart.  An index's
    operation is assumed to return. *)
Definition job_step (x : action) : bool :=
  match x with
  | ABegin _ _ | AAcquire _ _ | AAbort _ | ASave _ _ _ | APerformed _ _ | ACause _
  | ARecord _ _ _ _ | ATell _ | ARelease _ | AClose _ => true
  | _ => false
  end.

(** How many steps a goroutine has left at most. *)
Definition steps_left (p : pc) : nat :=
  match p with
  | PSpawned => 9 | PWaiting => 8 | PSaving => 8 | PPerforming => 7 | PReturned _ _ => 6
  | PEnding _ _ _ => 5 | PRecorded => 4 | PTold => 3 | PReleased => 2 | PDone => 0
  end.

Definition weight (heap : list run) : nat := list_sum ((fun r => steps_left (r_pc r)) <$> heap).

Lemma weight_alter f a heap r :
  heap !! a = Some r -> (steps_left (r_pc (f r)) < steps_left (r_pc r))%nat ->
  (weight (alter f a heap) < weight heap)%nat.
Proof.
  unfold weight, list_sum. revert a; induction heap as [|s l IH]; intros [|a] Ha Hlt; cbn in *; try done.
  - injection Ha as ->. lia.
  - specialize (IH a Ha Hlt). lia.
Qed.

Lemma weight_bound heap : (weight heap <= 9 * length heap)%nat.
Proof.
  unfold weight, list_sum. induction heap as [|r l IH]; cbn -[Nat.mul]; [lia|].
  assert (steps_left (r_pc r) <= 9)%nat by (destruct (r_pc r); cbn; lia). lia.
Qed.

Lemma saveLocked_heap fault ord m : m_heap (saveLocked fault ord m) = m_heap m.
Proof. by destruct (saveLocked_eq fault ord m) as [f ->]. Qed.

Lemma job_step_weight x m m' :
  job_step x = true -> exec x m = Some m' -> (weight (m_heap m') < weight (m_heap m))%nat.
Proof.
  intros Hj Hx. destruct x; try done; cbn [exec] in Hx;
    (destruct (m_heap m !! a) as [r|] eqn:Ha; [|done]; cbn [mbind option_bind] in Hx;
     destruct (r_pc r) eqn:Hp; try done).
  - injection Hx as <-. unfold execute_begin.
    case_match; (eapply weight_alter; [exact Ha | rewrite Hp; cbn; lia]).
  - unfold execute_acquire in Hx. case_match; [done|]. injection Hx as <-.
    eapply weight_alter; [exact Ha | rewrite Hp; cbn; lia].
  - unfold execute_abort in Hx. case_match; [|done]. injection Hx as <-.
    eapply weight_alter; [exact Ha | rewrite Hp; cbn; lia].
  - injection Hx as <-. cbn. rewrite saveLocked_heap. eapply weight_alter; [exact Ha | rewrite Hp; cbn; lia].
  - destruct (perform o). injection Hx as <-. eapply weight_alter; [exact Ha | rewrite Hp; cbn; lia].
  - injection Hx as <-. unfold execute_cause.
    case_match; (eapply weight_alter; [exact Ha | rewrite Hp; cbn; lia]).
  - injection Hx as <-. unfold execute_record. rewrite saveLocked_heap.
    eapply weight_alter; [exact Ha | rewrite Hp; cbn; lia].
  - injection Hx as <-. eapply weight_alter; [exact Ha | rewrite Hp; cbn; lia].
  - injection Hx as <-. unfold execute_release.
    case_match; (eapply weight_alter; [exact Ha | rewrite Hp; cbn; lia]).
  - injection Hx as <-. eapply weight_alter; [exact Ha | rewrite Hp; cbn; lia].
Qed.

Lemma job_steps_weight xs m m' :
  Forall (fun x => job_step x = true) xs -> exec_all xs m = Some m' ->
  (length xs + weight (m_heap m') <= weight (m_heap m))%nat.
Proof.
  intros Hxs. revert m; induction Hxs as [|x xs Hx _ IH]; intros m; cbn [exec_all].
  - intros [= ->]. cbn. lia.
  - destruct (exec x m) as [m1|] eqn:E; [|done]. cbn [mbind option_bind]. intros Hm.
    apply job_step_weight in E; [|done]. apply IH in Hm. cbn. lia.
Qed.

(** A goroutine that has not ended and is not waiting for the writer can go
    on. *)
Lemma job_step_enabled m a r :
  m_heap m !! a = Some r -> r_pc r <> PDone -> (r_pc r = PWaiting -> m_writer m = false) ->
  exists x, job_step x = true /\ exec x m <> None.
Proof.
  intros Ha Hd Hw.
  destruct (r_pc r) eqn:Hp; try done;
    [exists (ABegin a 0) | exists (AAcquire a 0) | exists (APerformed a (OpReturns Result_zero None))
    | exists (ASave a false []) | exists (ACause a) | exists (ARecord a 0 false []) | exists (ATell a)
    | exists (ARelease a) | exists (AClose a)];
    (split; [done|]); cbn [exec]; rewrite Ha; cbn [mbind option_bind]; rewrite Hp; try done.
  unfold execute_acquire. by rewrite Hw.
Qed.

(** C13: in every reachable state the goroutines of the jobs can take only
    boundedly many steps (nine each, besides reports of progress), in whatever
    order; and as long as a job has not ended one of them can take a step, so
    they never block each other: when none can, every run has ended, the map
    is empty, the writer is free, and no caller of [Start] waits for a run
    that will not end. *)
Theorem jobs_drain path file faults ixs m :
  reachable (New path file faults ixs) m ->
  (forall xs m', Forall (fun x => job_step x = true) xs -> exec_all xs m = Some m' ->
     (length xs <= 9 * length (m_heap m))%nat) /\
  ((forall x, job_step x = true -> exec x m = None) ->
     Forall (fun r => r_pc r = PDone) (m_heap m) /\ m_running m = ∅ /\ m_writer m = false /\
     forall k c a, m_callers m !! k = Some (Awaiting c a) -> is_Some (exec (AWake k) m)).
Proof.
  intros HI%Inv_reachable. split.
  - intros xs m' Hxs Hm. apply job_steps_weight in Hm; [|done].
    pose proof (weight_bound (m_heap m)). lia.
  - intros Hstuck.
    assert (Hnone : forall a r, m_heap m !! a = Some r -> r_pc r <> PDone ->
      (r_pc r = PWaiting -> m_writer m = false) -> False).
    { intros a r Ha Hd Hw. destruct (job_step_enabled m a r Ha Hd Hw) as (x & Hj & Hx).
      by apply Hx, Hstuck. }
    assert (Hfree : m_writer m = false).
    { destruct (m_writer m) eqn:Hw; [|done]. destruct (inv_token_held _ _ HI Hw) as (a & r & Ha & Ht).
      destruct (inv_run _ _ HI _ _ Ha) as (_ & _ & _ & _ & K & _). destruct (K Ht) as [Kh _].
      exfalso. apply (Hnone a r Ha); intros E; by rewrite E in Kh. }
    assert (Hdone : forall a r, m_heap m !! a = Some r -> r_pc r = PDone).
    { intros a r Ha. destruct (r_pc r) eqn:Hp; try done; exfalso; apply (Hnone a r Ha); by rewrite ?Hp. }
    split_and!; [ | | done |].
    + apply Forall_lookup. eauto.
    + apply map_empty. intros k. apply eq_None_not_Some. intros [a Hk].
      destruct (inv_running _ _ HI _ _ Hk) as (r & Hr & Hl & _). by rewrite (Hdone _ _ Hr) in Hl.
    + intros k c a Hk. cbn [exec]. rewrite Hk. destruct (inv_callers _ _ HI _ _ _ Hk) as [r Hr].
      rewrite Hr. cbn [mbind option_bind]. destruct (inv_run _ _ HI _ _ Hr) as (_ & _ & _ & K & _).
      rewrite (Hdone _ _ Hr) in K. cbn in K. rewrite K. eauto.
Qed.

End Facts.
