(* ===== verification/RelayRestart.v ===== *)
(** * The job history across a crash

    The history file is written when a job starts, when it ends and while it
    runs, so a process that dies leaves a record of what was running.
    [restart_recovers]: the next process finds, for every index, the job that
    was running (as one that died) and every finished job it had kept.
    [crash_loop_parks]: a job that dies with the relay three times in a row
    within an hour is parked. *)
From S2P Require Import Prelude GoTime GoStrings GoFormat RelayJobs RelayJobsFacts.
From S2P Require Import RelayManager RelayManagerFacts.
From stdpp Require Import options.
From Stdlib Require Import Sorted.

Local Open Scope Z_scope.

(** ** The wall clock and the saves of a sequence of actions *)

(** Starts read a clock that is not set back, from [t] on. *)
Fixpoint starts_after (t : Z) (xs : list action) : Prop :=
  match xs with
  | [] => True
  | ALock _ _ now _ _ :: xs => t <= Time_Unix now /\ starts_after (Time_Unix now) xs
  | _ :: xs => starts_after t xs
  end.

Definition no_fault (x : action) : Prop :=
  match x with
  | ALock _ _ _ fault _ | ASave _ fault _ | ARecord _ _ fault _ => fault = false
  | _ => True
  end.

Section Restart.
Context `{C : JobsCodec}.

(** ** Visits of the running jobs *)

Lemma range_keys_NoDup ord m : NoDup (range_keys ord m).
Proof.
  unfold range_keys. apply NoDup_app. split_and!.
  - apply NoDup_filter, NoDup_remove_dups.
  - intros k [_ Hk]%list_elem_of_filter [Hn _]%list_elem_of_filter.
    by apply Hn, elem_of_remove_dups.
  - apply NoDup_filter, NoDup_fst_map_to_list.
Qed.

(** The jobs visited on one index: the one running there. *)
Lemma running_jobs_index H0 ord m k :
  Inv H0 m -> of_index k (running_jobs ord m) = option_list (RunningJob k m).
Proof.
  intros HI. unfold running_jobs, range_running.
  assert (Hk : forall k a, m_running m !! k = Some a -> exists r, m_heap m !! a = Some r /\ j_Index (r_job r) = k).
  { intros k' a Ha. destruct (inv_running _ _ HI _ _ Ha) as (r & ? & _ & ?). eauto. }
  pose proof (range_keys_elem ord (m_running m) k) as Hmem.
  pose proof (range_keys_NoDup ord (m_running m)) as Hnd. revert Hmem Hnd.
  generalize (range_keys ord (m_running m)) as ks. intros ks Hmem Hnd.
  assert (Hgen : of_index k ((fun ar : nat * run => r_job ar.2) <$>
      omap (fun k => a ← m_running m !! k; r ← m_heap m !! a; Some (a, r)) ks)
    = if bool_decide (k ∈ ks) then option_list (RunningJob k m) else []).
  { clear Hmem. induction Hnd as [|k' ks Hni Hnd IH]; [done|]. cbn [omap list_omap].
    unfold RunningJob in *. destruct (m_running m !! k') as [a|] eqn:Ha; cbn [mbind option_bind].
    - destruct (Hk _ _ Ha) as (r & Hr & Hi). rewrite Hr. cbn [mbind option_bind]. rewrite fmap_cons, of_index_cons. cbn [snd].
      rewrite IH, Hi. destruct (String.eqb_spec k' k) as [->|Hne].
      + rewrite bool_decide_false, bool_decide_true, Ha by (first [done | left]). cbn. by rewrite Hr.
      + cbn. destruct (decide (k ∈ ks)); [rewrite !bool_decide_true by (try right; done) |
          rewrite !bool_decide_false by set_solver]; done.
    - rewrite IH. destruct (decide (k = k')) as [->|Hne].
      + rewrite bool_decide_false, bool_decide_true, Ha by (first [done | left]). done.
      + destruct (decide (k ∈ ks)); [rewrite !bool_decide_true by (try right; done) |
          rewrite !bool_decide_false by set_solver]; done. }
  rewrite Hgen. case_bool_decide as Hin; [done|].
  unfold RunningJob. destruct (m_running m !! k) eqn:E; [|done].
  exfalso. apply Hin, Hmem. done.
Qed.

(** ** The file follows the manager *)

(** What holds along a run without failed saves: the jobs of each index are in
    the order they started, and the file holds the history and a snapshot of
    the running jobs. *)
Record Disk (t : Z) (m : Manager) : Prop := {
  disk_sorted k : newest_first (option_list (RunningJob k m) ++ of_index k (m_history m));
  disk_clock k j : j ∈ option_list (RunningJob k m) ++ of_index k (m_history m) -> j_StartedAt j <= t;
  disk_file : m_heap m <> [] -> exists rs, m_file m = Some (jobs_Marshal (rs ++ m_history m)) /\
    forall k, forget <$> of_index k rs = forget <$> option_list (RunningJob k m);
}.

Lemma Disk_ext t m m' :
  (forall k, forget <$> RunningJob k m' = forget <$> RunningJob k m) ->
  m_history m' = m_history m -> m_file m' = m_file m -> (m_heap m' = [] <-> m_heap m = []) ->
  Disk t m -> Disk t m'.
Proof.
  intros Er Eh Ef Ee [D1 D2 D3].
  assert (Hfmap : forall k, forget <$> option_list (RunningJob k m') = forget <$> option_list (RunningJob k m)).
  { intros k. by rewrite !fmap_option_list, Er. }
  assert (Hrun : forall k, (RunningJob k m' = None /\ RunningJob k m = None) \/
    exists j' j, RunningJob k m' = Some j' /\ RunningJob k m = Some j /\ j_StartedAt j' = j_StartedAt j).
  { intros k. pose proof (Er k) as E. destruct (RunningJob k m') as [j'|], (RunningJob k m) as [j|]; try done; [|auto].
    right. exists j', j. split_and!; [done..|]. apply (inj Some) in E. by destruct (forget_same_run _ _ E) as (_ & _ & _ & _ & _ & ->). }
  constructor.
  - intros k. rewrite Eh. pose proof (D1 k) as H. destruct (Hrun k) as [[-> E]|(j' & j & -> & E & Es)]; rewrite E in H; [done|].
    cbn in *. inversion H; subst. constructor; [done|]. by rewrite Es.
  - intros k j Hj. rewrite Eh in Hj. pose proof (D2 k) as H.
    destruct (Hrun k) as [[E' E]|(j' & i & E' & E & Es)]; rewrite E' in Hj; rewrite E in H; [auto|].
    apply elem_of_cons in Hj as [->|Hj]; [rewrite Es; apply H; left | apply H; right]; done.
  - intros Hne. destruct D3 as (rs & Hf & Hrs); [by rewrite <- Ee|].
    exists rs. rewrite Ef, Eh. split; [done|]. intros k. by rewrite Hrs, Hfmap.
Qed.

(** A save brings the file up to date. *)
Lemma Disk_save t H0 ord m :
  Inv H0 m -> is_empty (m_path m) = false ->
  (forall k, newest_first (option_list (RunningJob k m) ++ of_index k (m_history m))) ->
  (forall k j, j ∈ option_list (RunningJob k m) ++ of_index k (m_history m) -> j_StartedAt j <= t) ->
  Disk t (saveLocked false ord m).
Proof.
  intros HI Hp H1 H2. unfold saveLocked. rewrite Hp. constructor; try done.
  intros _. cbn. eexists. split; [done|]. intros k. by rewrite (running_jobs_index H0).
Qed.

(** Changes of runs that a snapshot does not show. *)
Lemma RunningJob_heap m heap :
  (forall a, (fun r => forget (r_job r)) <$> heap !! a = (fun r => forget (r_job r)) <$> m_heap m !! a) ->
  forall k, forget <$> RunningJob k (with_heap heap m) = forget <$> RunningJob k m.
Proof.
  intros Hh k. unfold RunningJob. cbn [m_running m_heap with_heap].
  destruct (m_running m !! k) as [a|]; [|done]. cbn [mbind option_bind].
  pose proof (Hh a) as E. destruct (heap !! a), (m_heap m !! a); try done.
Qed.

Lemma Disk_on_run t m a f :
  (forall r, forget (r_job (f r)) = forget (r_job r)) -> Disk t m -> Disk t (on_run a f m).
Proof.
  intros Hf. apply Disk_ext; try done.
  - apply RunningJob_heap. intros b. destruct (decide (b = a)) as [->|Hne].
    + rewrite list_lookup_alter_eq, <- option_fmap_compose. apply option_fmap_ext. intros r. apply Hf.
    + by rewrite list_lookup_alter_ne.
  - cbn. rewrite <- !length_zero_iff_nil, length_alter. done.
Qed.

Lemma Disk_shutdown t m : Disk t m -> Disk t (Shutdown m).
Proof.
  apply Disk_ext; try done.
  - intros k. unfold Shutdown. rewrite (RunningJob_heap (with_closed true m)); [done|].
    intros a. rewrite list_lookup_imap, <- option_fmap_compose. apply option_fmap_ext.
    intros r. cbn. case_match; [|done]. unfold run_cancel. by destruct (r_cause r).
  - cbn. rewrite <- !length_zero_iff_nil, length_imap. done.
Qed.

Lemma Disk_mono t t' m : t <= t' -> Disk t m -> Disk t' m.
Proof.
  intros Ht [D1 D2 D3]. constructor; try done. intros k j Hj. apply D2 in Hj. lia.
Qed.

Lemma run_cancel_forget e r : forget (r_job (run_cancel e r)) = forget (r_job r).
Proof. unfold run_cancel. by destruct (r_cause r). Qed.

Lemma Disk_start t H0 m id now ord c w m' :
  Inv H0 m -> is_empty (m_path m) = false -> Disk t m -> t <= Time_Unix now ->
  Start_locked id now false ord c m = (w, m') -> Disk (Time_Unix now) m'.
Proof.
  intros HI Hp HD Ht. unfold Start_locked.
  pose proof (Disk_mono _ _ _ Ht HD) as HD'.
  destruct (m_closed m); [by intros [= _ <-]|].
  destruct (m_running m !! c_index c) as [a|] eqn:Hrun; cbn [mbind option_bind].
  - destruct (inv_running _ _ HI _ _ Hrun) as (r & Hr & _). rewrite Hr. cbn [mbind option_bind].
    case_match; [by intros [= _ <-]|]. case_match; [|by intros [= _ <-]].
    intros [= _ <-]. apply Disk_on_run; [|done]. intros; apply run_cancel_forget.
  - destruct (m_indexes m !! c_index c) as [ix|] eqn:Hix; [|by intros [= _ <-]].
    cbv zeta. intros [= _ <-]. set (j := started_job _ _ _ _ _ _ _). set (m1 := with_running _ _).
    assert (HI1 : Inv H0 m1) by (by apply (Inv_spawn H0 m)).
    assert (Hrj : forall k, RunningJob k m1 = if decide (k = c_index c) then Some j else RunningJob k m).
    { intros k. unfold RunningJob. cbn. case_decide as Hk.
      - subst k. rewrite lookup_insert_eq. cbn. by rewrite list_lookup_middle.
      - rewrite lookup_insert_ne by done. destruct (m_running m !! k) as [b|] eqn:Eb; [|done]. cbn.
        destruct (inv_running _ _ HI _ _ Eb) as (s & Hs & _). rewrite Hs.
        by rewrite (lookup_app_l_Some _ _ _ _ Hs). }
    assert (Hidle : RunningJob (c_index c) m = None) by (unfold RunningJob; by rewrite Hrun).
    apply (Disk_save _ H0); [done..| |]; intros k; rewrite Hrj; case_decide as Hk;
      [|apply (disk_sorted _ _ HD') | |apply (disk_clock _ _ HD')]; subst k.
    + pose proof (disk_sorted _ _ HD (c_index c)) as Hs. rewrite Hidle in Hs. cbn [option_list app] in *.
      constructor; [done|]. apply Forall_forall. intros i Hi. cbn.
      etrans; [|exact Ht]. apply (disk_clock _ _ HD (c_index c)). by rewrite Hidle.
    + intros i Hi. cbn [option_list app] in Hi. apply elem_of_cons in Hi as [->|Hi]; [done|].
      apply (disk_clock _ _ HD' (c_index c)). by rewrite Hidle.
Qed.

Lemma Disk_record t H0 m a r now ord res err cause :
  Inv H0 m -> is_empty (m_path m) = false -> Disk t m ->
  m_heap m !! a = Some r -> r_pc r = PEnding res err cause ->
  Disk t (execute_record now false ord a r res err cause m).
Proof.
  intros HI Hp HD Ha Hpc. pose proof (Inv_record H0 m a r now true ord res err cause Ha Hpc HI) as HI1.
  unfold execute_record in *. cbv zeta in *. set (j := finish_job _ _ _ _ _ _) in *.
  set (m1 := with_history _ _) in *.
  assert (Hsame : same_run (r_job r) j) by apply finish_job_same.
  unfold saveLocked in HI1. rewrite orb_true_r in HI1.
  destruct (inv_run _ _ HI _ _ Ha) as (_ & K & _). rewrite Hpc in K. destruct (K eq_refl) as [Krun _].
  assert (Hcur : RunningJob (j_Index (r_job r)) m = Some (r_job r)).
  { unfold RunningJob. rewrite Krun. cbn. by rewrite Ha. }
  assert (Hlist : forall k, option_list (RunningJob k m1) ++ of_index k (m_history m1)
    = (if decide (k = j_Index (r_job r)) then [] else option_list (RunningJob k m)) ++
      take keptJobs (of_index k (j :: m_history m))).
  { intros k. f_equal; [|apply trim_index]. case_decide as Hk.
    - subst k. unfold RunningJob. cbn. rewrite (same_run_index _ _ Hsame), lookup_delete_eq. done.
    - unfold RunningJob. cbn. rewrite (same_run_index _ _ Hsame), lookup_delete_ne by done.
      destruct (m_running m !! k) as [b|] eqn:Eb; [|done]. cbn.
      rewrite list_lookup_alter_ne; [done|]. intros ->.
      destruct (inv_running _ _ HI _ _ Eb) as (s & Hs & _ & Hi). simplify_eq. }
  assert (Hstart : j_StartedAt j = j_StartedAt (r_job r)) by apply Hsame.
  apply (Disk_save _ H0); [done..| |]; intros k; rewrite Hlist; case_decide as Hk.
  - subst k. pose proof (disk_sorted _ _ HD (j_Index (r_job r))) as Hs. rewrite Hcur in Hs. cbn [option_list app] in Hs.
    apply newest_first_take. rewrite of_index_cons, (same_run_index _ _ Hsame), String.eqb_refl. cbn [app].
    inversion Hs; subst. constructor; [done|]. by rewrite Hstart.
  - rewrite of_index_cons, (same_run_index _ _ Hsame), (proj2 (String.eqb_neq _ _) (not_eq_sym Hk)). cbn [app].
    pose proof (disk_sorted _ _ HD k) as Hs. destruct (RunningJob k m) as [i|]; cbn [option_list app] in *;
      [|by apply newest_first_take].
    inversion Hs; subst. constructor; [by apply newest_first_take | by apply Forall_take].
  - subst k. intros i Hi. cbn [app] in Hi. apply elem_of_take in Hi as (n & Hi & _).
    apply list_elem_of_lookup_2 in Hi.
    rewrite of_index_cons, (same_run_index _ _ Hsame), String.eqb_refl in Hi. cbn [app] in Hi.
    pose proof (disk_clock _ _ HD (j_Index (r_job r))) as Hc. rewrite Hcur in Hc. cbn [option_list app] in Hc.
    apply elem_of_cons in Hi as [->|Hi]; [rewrite Hstart; apply Hc; left | apply Hc; by right].
  - intros i Hi. apply (disk_clock _ _ HD k). apply elem_of_app in Hi as [Hi|Hi]; apply elem_of_app; [by left | right].
    rewrite of_index_cons, (same_run_index _ _ Hsame), (proj2 (String.eqb_neq _ _) (not_eq_sym Hk)) in Hi.
    apply elem_of_take in Hi as (n & Hi & _). by apply list_elem_of_lookup_2 in Hi.
Qed.

(** The clock after an action. *)
Definition clock_after (t : Z) (x : action) : Z :=
  match x with ALock _ _ now _ _ => Time_Unix now | _ => t end.

Lemma exec_path x m m' : exec x m = Some m' -> m_path m' = m_path m.
Proof.
  assert (Hsave : forall fault ord m, m_path (saveLocked fault ord m) = m_path m).
  { intros fault ord m0. by destruct (saveLocked_eq fault ord m0) as [f ->]. }
  intros Hx. destruct x; cbn [exec] in Hx;
    try (destruct (m_heap m !! a) as [r|] eqn:Ha; [|done]; cbn [mbind option_bind] in Hx;
         destruct (r_pc r) eqn:Hp; try done);
    try (injection Hx as <-; unfold execute_begin, execute_progress, execute_save, execute_cause,
           execute_record, execute_release, Cancel; repeat case_match; cbn; rewrite ?Hsave; done).
  - destruct (m_callers m !! k) as [[c|c a|j e]|]; try done.
    destruct (Start_locked id now fault ord c m) as [w m1] eqn:Hs. injection Hx as <-.
    unfold Start_locked in Hs. repeat case_match; injection Hs as <- <-; cbn; rewrite ?Hsave; done.
  - destruct (m_callers m !! k) as [[c|c a|j e]|]; try done.
    destruct (m_heap m !! a); [|done]. cbn [mbind option_bind] in Hx. case_match; [|done]. by injection Hx as <-.
  - unfold execute_acquire in Hx. case_match; [done|]. by injection Hx as <-.
  - unfold execute_abort in Hx. case_match; [|done]. by injection Hx as <-.
  - destruct (perform o). by injection Hx as <-.
  - case_match; [|done]. by injection Hx as <-.
Qed.

Lemma Disk_exec t H0 x m m' :
  Inv H0 m -> is_empty (m_path m) = false -> Disk t m -> no_fault x -> t <= clock_after t x ->
  exec x m = Some m' -> Disk (clock_after t x) m'.
Proof.
  intros HI Hp HD Hnf Ht Hx. destruct x; cbn [exec clock_after no_fault] in *;
    try (destruct (m_heap m !! a) as [r|] eqn:Ha; [|done]; cbn [mbind option_bind] in Hx;
         destruct (r_pc r) eqn:Hpc; try done); subst.
  - injection Hx as <-. by eapply Disk_ext; [..|exact HD].
  - destruct (m_callers m !! k) as [[c|c a|j e]|]; try done.
    destruct (Start_locked id now false ord c m) as [w m1] eqn:Hs. injection Hx as <-.
    eapply Disk_ext; [..|by eapply Disk_start]; done.
  - destruct (m_callers m !! k) as [[c|c a|j e]|]; try done.
    destruct (m_heap m !! a); [|done]. cbn [mbind option_bind] in Hx. case_match; [|done].
    injection Hx as <-. by eapply Disk_ext; [..|exact HD].
  - injection Hx as <-. unfold execute_begin. case_match; by apply Disk_on_run.
  - unfold execute_acquire in Hx. case_match; [done|]. injection Hx as <-.
    eapply Disk_ext; [..|eapply Disk_on_run; [|exact HD]]; done.
  - unfold execute_abort in Hx. case_match; [|done]. injection Hx as <-. by apply Disk_on_run.
  - injection Hx as <-. unfold execute_progress. case_match; [apply Disk_on_run; [done|]|]; by apply Disk_on_run.
  - injection Hx as <-. apply Disk_on_run; [done|].
    apply (Disk_save _ H0); [done..| apply (disk_sorted _ _ HD) | apply (disk_clock _ _ HD)].
  - destruct (perform o). injection Hx as <-. by apply Disk_on_run.
  - injection Hx as <-. unfold execute_cause.
    case_match; [eapply Disk_ext; [..|eapply Disk_on_run; [|exact HD]]; done | by apply Disk_on_run].
  - injection Hx as <-. by eapply Disk_record.
  - injection Hx as <-. eapply Disk_on_run; [done|]. by eapply Disk_ext; [..|exact HD].
  - injection Hx as <-. unfold execute_release.
    case_match; [eapply Disk_ext; [..|eapply Disk_on_run; [|exact HD]]; done | by apply Disk_on_run].
  - injection Hx as <-. by apply Disk_on_run.
  - injection Hx as <-. unfold Cancel.
    destruct (List.find _ _) as [[a r]|] eqn:Ef; [|by repeat case_match].
    apply find_some in Ef as [Hin _]. apply in_rev, list_elem_of_In, range_running_elem in Hin as (k & Hk & Ha).
    case_match; [done|]. cbn [snd]. eapply Disk_ext; [..|exact HD]; try done.
    + apply RunningJob_heap. intros b. destruct (decide (b = a)) as [->|Hne].
      * by rewrite list_lookup_alter_eq, Ha.
      * by rewrite list_lookup_alter_ne.
    + cbn. rewrite <- !length_zero_iff_nil, length_alter. done.
  - injection Hx as <-. by apply Disk_shutdown.
  - case_match; [|done]. injection Hx as <-. by eapply Disk_ext; [..|exact HD].
Qed.

Lemma Disk_run t H0 xs m m' :
  Inv H0 m -> is_empty (m_path m) = false -> Disk t m -> Forall no_fault xs -> starts_after t xs ->
  exec_all xs m = Some m' -> Inv H0 m' /\ exists t', Disk t' m'.
Proof.
  intros HI Hp HD Hnf. revert t m HI Hp HD. induction Hnf as [|x xs Hx _ IH]; intros t m HI Hp HD Hs; cbn [exec_all].
  - intros [= <-]. eauto.
  - destruct (exec x m) as [m1|] eqn:E; [|done]. cbn [mbind option_bind]. intros Hm.
    assert (Ht : t <= clock_after t x /\ starts_after (clock_after t x) xs)
      by (destruct x; cbn [starts_after clock_after] in *; done || (split; [lia|done])).
    destruct Ht as [Ht Hs']. eapply (IH (clock_after t x) m1); try done.
    + by eapply Inv_exec.
    + by rewrite (exec_path _ _ _ E).
    + by eapply Disk_exec.
Qed.

(** Every job of a history has ended. *)
Definition all_ended (l : list Job) : Prop := Forall (fun j => Job_Ended j = true) l.

Lemma update_newest_ended index f l :
  (forall j, Job_Ended (f j) = true) -> all_ended l -> all_ended (update_newest index f l).
Proof.
  intros Hf. induction 1 as [|j l Hj Hl IH]; cbn; [constructor|].
  case_match; constructor; auto.
Qed.

Lemma load_jobs_ended order jobs : all_ended (load_jobs order jobs).
Proof.
  unfold load_jobs.
  assert (H : all_ended (trim (sort_newest (mark_died <$> jobs)))).
  { apply Forall_forall. intros j Hj%trim_elem. rewrite sort_newest_perm in Hj.
    apply list_elem_of_fmap in Hj as (i & -> & _). apply mark_died_ended. }
  revert H. generalize (trim (sort_newest (mark_died <$> jobs))) as l.
  induction order as [|name order IH]; intros l H; cbn [foldl]; [done|].
  apply IH. unfold park. case_match; [|done]. by apply update_newest_ended.
Qed.

Lemma New_ended path file faults ixs : all_ended (m_history (New path file faults ixs)).
Proof.
  destruct (New_fields path file faults ixs) as (f & h & -> & [[-> _]|(d & js & _ & _ & _ & ->)]);
    [constructor | apply load_jobs_ended].
Qed.

(** What a manager's history is made of, for one index. *)
Lemma history_index H0 m k :
  Inv H0 m -> exists ended, ended ≡ₚ ended_jobs (m_heap m) /\
    of_index k (m_history m) = take keptJobs (of_index k ended ++ of_index k H0).
Proof.
  intros HI. destruct (inv_history _ _ HI) as (ended & He & ->). exists ended. split; [done|].
  by rewrite trim_index, of_index_app.
Qed.

Lemma history_ended H0 m : Inv H0 m -> all_ended H0 -> all_ended (m_history m).
Proof.
  intros HI HH. destruct (inv_history _ _ HI) as (ended & He & ->).
  apply Forall_forall. intros j Hj%trim_elem. apply elem_of_app in Hj as [Hj|Hj].
  - rewrite He in Hj. unfold ended_jobs, jobs_at in Hj. apply list_elem_of_omap in Hj as (r & Hr & Hj).
    apply list_elem_of_lookup in Hr as [a Ha]. destruct (live (r_pc r)) eqn:Hl; [done|].
    injection Hj as <-. destruct (inv_run _ _ HI _ _ Ha) as (_ & _ & K & _). auto.
  - by apply (proj1 (Forall_forall _ _) HH).
Qed.

End Restart.

(** ** Reading the file back *)

Section ReadBack.
Context `{C : JobsCodec} {L : JobsCodecLaws C}.

Lemma json_text_is s k : is_ascii k = true -> json_text s = k <-> s = k.
Proof using L.
  intros Hk. split; [|intros ->; by apply json_text_ascii].
  intros E. destruct (decide (json_text s = s)) as [E'|Hne]; [congruence|].
  apply json_text_bad in Hne. congruence.
Qed.

Lemma json_text_eqb s k : is_ascii k = true -> String.eqb (json_text s) k = String.eqb s k.
Proof using L.
  intros Hk. apply eq_true_iff_eq. rewrite !String.eqb_eq. by apply json_text_is.
Qed.

Lemma json_job_index k l :
  is_ascii k = true -> of_index k (json_job <$> l) = json_job <$> of_index k l.
Proof using L.
  intros Hk. induction l as [|j l IH]; [done|]. rewrite fmap_cons, !of_index_cons, IH, fmap_app. cbn [json_job j_Index].
  rewrite json_text_eqb by done. by destruct (String.eqb _ _).
Qed.

Lemma json_job_ended j : Job_Ended (json_job j) = Job_Ended j.
Proof using L. unfold Job_Ended. cbn. by rewrite json_text_eqb. Qed.

Lemma json_job_died j : died (json_job j) = died j.
Proof using L. unfold died. cbn. by rewrite !json_text_eqb. Qed.

Lemma json_job_forget j j' : forget j = forget j' -> forget (json_job j) = forget (json_job j').
Proof. intros E. destruct j, j'. cbn in *. injection E. intros; by subst. Qed.

Lemma mark_died_forget j j' : forget j = forget j' -> forget (mark_died j) = forget (mark_died j').
Proof.
  intros E. destruct j, j'. cbn in E. injection E. intros; subst.
  unfold mark_died. cbn. destruct (String.eqb _ _); [|done]. by destruct (_ =? 0).
Qed.

Lemma mark_died_id j : Job_Ended j = true -> mark_died j = j.
Proof. unfold mark_died, Job_Ended. rewrite negb_true_iff. by intros ->. Qed.

Lemma mark_died_all l : all_ended l -> mark_died <$> l = l.
Proof. induction 1 as [|j l Hj _ IH]; [done|]. rewrite fmap_cons, IH. by rewrite mark_died_id. Qed.

(** A job found running died. *)
Lemma mark_died_died j : Job_Ended j = false -> died (mark_died j) = true.
Proof. unfold mark_died, Job_Ended. rewrite negb_false_iff. intros ->. by case_match. Qed.

(** What the next process makes of the file. *)
Definition found (k : string) (m : Manager) (d : list Job) : list Job :=
  take keptJobs (d ++ (json_job <$> of_index k (m_history m))).

Lemma recovered path faults ixs t H0 m k :
  path <> ""%string -> NoDup (ix_Name <$> ixs) -> is_ascii k = true -> k ∈ ix_Name <$> ixs ->
  Inv H0 m -> all_ended H0 -> Disk t m -> m_heap m <> [] ->
  exists d, forget <$> d = forget <$> (mark_died <$> (json_job <$> option_list (RunningJob k m))) /\
    of_index k (m_history (New path (m_file m) faults ixs)) = park k (found k m d).
Proof using L.
  intros Hp Hnd Hk Hin HI HH HD Hne.
  destruct (disk_file _ _ HD Hne) as (rs & Hf & Hrs). specialize (Hrs k).
  exists (mark_died <$> (json_job <$> of_index k rs)). split.
  { revert Hrs. generalize (of_index k rs) as l. destruct (RunningJob k m) as [j|]; cbn [option_list].
    - intros [|i [|i' l]]; cbn [fmap list_fmap]; intros E; try discriminate E.
      apply (f_equal head) in E. cbn [head] in E. apply (inj Some) in E.
      f_equal. by apply mark_died_forget, json_job_forget.
    - by intros [|i l]. }
  destruct (New_fields path (m_file m) faults ixs) as (f & h & -> & Hh). cbn [m_history].
  rewrite Hf in Hh. cbn [mbind option_bind] in Hh. rewrite jobs_roundtrip in Hh.
  destruct Hh as [(_ & _ & [?|?])|(data & jobs & _ & [= <-] & Hj & ->)]; [done..|].
  rewrite jobs_roundtrip in Hj. injection Hj as <-.
  unfold load_jobs. rewrite park_all_index, bool_decide_true, park_of_index by done. f_equal.
  rewrite trim_index, sort_newest_index, of_index_fmap by (intros; apply same_run_index, mark_died_same).
  rewrite json_job_index, of_index_app, !fmap_app by done. unfold found. f_equal.
  assert (Hend : all_ended (json_job <$> of_index k (m_history m))).
  { apply Forall_forall. intros j (i & -> & Hi)%list_elem_of_fmap. rewrite json_job_ended.
    apply of_index_elem in Hi as [_ Hi]. by apply (proj1 (Forall_forall _ _) (history_ended _ _ HI HH)). }
  assert (Hs : newest_first (of_index k rs ++ of_index k (m_history m))).
  { pose proof (disk_sorted _ _ HD k) as Hs. revert Hs Hrs. generalize (of_index k rs) as l.
    destruct (RunningJob k m) as [j|]; cbn [option_list]; intros [|i [|i' l]]; cbn [fmap list_fmap app];
      intros Hs E; try discriminate E; [|done].
    apply (f_equal head) in E. cbn [head] in E. apply (inj Some), forget_same_run in E.
    destruct E as (_ & _ & _ & _ & _ & E). inversion Hs; subst. constructor; [done|]. by rewrite <- E. }
  apply (newest_first_fmap json_job) in Hs; [|done].
  apply (newest_first_fmap mark_died) in Hs; [|intros j; apply (mark_died_same j)].
  rewrite !fmap_app in Hs. rewrite (mark_died_all _ Hend) in *. by apply sort_newest_id.
Qed.

(** Restarting after a run of actions. *)
Lemma restart path file faults faults' ixs xs t m k :
  path <> ""%string -> NoDup (ix_Name <$> ixs) -> is_ascii k = true -> k ∈ ix_Name <$> ixs ->
  Forall (fun j => j_StartedAt j <= t) (m_history (New path file faults ixs)) ->
  starts_after t xs -> Forall no_fault xs ->
  exec_all xs (New path file faults ixs) = Some m -> m_heap m <> [] ->
  Inv (m_history (New path file faults ixs)) m /\
  exists d, forget <$> d = forget <$> (mark_died <$> (json_job <$> option_list (RunningJob k m))) /\
    of_index k (m_history (New path (m_file m) faults' ixs)) = park k (found k m d).
Proof using L.
  intros Hp Hnd Hk Hin Hh Hs Hnf Hx Hne.
  assert (HD : Disk t (New path file faults ixs)).
  { revert Hh. destruct (New_fields path file faults ixs) as (f & h & -> & E). cbn [m_history]. intros Hh.
    assert (Hsort : newest_first h).
    { destruct E as [[-> _]|(d & js & _ & _ & _ & ->)]; [constructor | apply load_jobs_sorted]. }
    constructor; cbn; try done.
    - intros k'. by apply newest_first_of_index.
    - intros k' j [_ Hj]%of_index_elem. by apply (proj1 (Forall_forall _ _) Hh). }
  assert (Hpath : is_empty (m_path (New path file faults ixs)) = false).
  { destruct (New_fields path file faults ixs) as (f & h & -> & _). by apply is_empty_false. }
  destruct (Disk_run t _ xs _ m (Inv_New path file faults ixs) Hpath HD Hnf Hs Hx) as [HI [t' HD']].
  split; [done|]. eapply recovered; eauto. apply New_ended.
Qed.


(** ** Crash loops *)

(** A process over [file] ran [xs] and died in [m] while job [j] ran on index
    [k], with every save made and the clock not set back. *)
Definition crashed path ixs (k : string) file faults t xs (m : Manager) (j : Job) : Prop :=
  Forall (fun j => j_StartedAt j <= t) (m_history (New path file faults ixs)) /\
  starts_after t xs /\ Forall no_fault xs /\
  exec_all xs (New path file faults ixs) = Some m /\ RunningJob k m = Some j.

Lemma park_job_parked k j : j_Parked (park_job k j) = true /\ j_Error (park_job k j) <> ""%string.
Proof. done. Qed.

(** An index is shown as parked exactly when its newest job is. *)
Lemma Parked_iff k h :
  Parked k h <> ""%string <->
  exists j rest, of_index k h = j :: rest /\ j_Parked j = true /\ j_Error j <> ""%string.
Proof.
  unfold Parked, LastJob. destruct (of_index k h) as [|j rest]; cbn [head].
  - split; [done | intros (? & ? & E & _); discriminate E].
  - destruct (j_Parked j) eqn:E; split; intros H; try done.
    + by exists j, rest.
    + destruct H as (j' & r & [= <- <-] & _ & H). done.
    + destruct H as (j' & r & [= <- <-] & H & _). congruence.
Qed.

(** What a restart after a crash finds: the job that died, then the rest. *)
Lemma restart_died path file faults faults' ixs xs t m k j :
  path <> ""%string -> NoDup (ix_Name <$> ixs) -> is_ascii k = true -> k ∈ ix_Name <$> ixs ->
  crashed path ixs k file faults t xs m j ->
  exists d, died d = true /\ j_Parked d = false /\ j_Index d = k /\ j_StartedAt d = j_StartedAt j /\
    of_index k (m_history (New path (m_file m) faults' ixs))
    = park k (take keptJobs (d :: (json_job <$> of_index k (m_history m)))).
Proof using L.
  intros Hp Hnd Hk Hin (Hh & Hs & Hnf & Hx & Hj).
  assert (Hrun : exists a r, m_running m !! k = Some a /\ m_heap m !! a = Some r /\ r_job r = j).
  { unfold RunningJob in Hj. destruct (m_running m !! k) as [a|]; [|done]. cbn in Hj.
    destruct (m_heap m !! a) as [r|] eqn:Ha; [|done]. injection Hj as <-. eauto 10. }
  destruct Hrun as (a & r & Hr & Ha & <-).
  assert (Hne : m_heap m <> []) by (intros E; by rewrite E in Ha).
  destruct (restart path file faults faults' ixs xs t m k) as (HI & d & Hd & E); [done..|].
  destruct (inv_running _ _ HI _ _ Hr) as (r' & Ha' & Hl & Hi). simplify_eq.
  destruct (inv_run _ _ HI _ _ Ha) as (_ & K & _). destruct (K Hl) as (_ & Kst & Kpk).
  rewrite Hj in Hd. destruct d as [|d [|d' ds]]; cbn [option_list fmap list_fmap] in Hd; try discriminate Hd.
  apply (f_equal head) in Hd. cbn [head] in Hd. apply (inj Some) in Hd.
  assert (Hrunning : Job_Ended (json_job (r_job r)) = false).
  { rewrite json_job_ended. unfold Job_Ended. by rewrite Kst. }
  exists d. rewrite E. destruct (forget_same_run _ _ Hd) as (_ & F2 & _ & _ & _ & F6).
  destruct (forget_state _ _ Hd) as [F7 F8].
  destruct (mark_died_same (json_job (r_job r))) as (_ & G2 & _ & _ & _ & G6).
  split_and!; [| | | |done].
  - assert (Herr : j_Error d = j_Error (mark_died (json_job (r_job r)))).
    { clear -Hd. revert Hd. generalize (mark_died (json_job (r_job r))) as e. intros e.
      destruct d, e. cbn. intros E. by injection E. }
    pose proof (mark_died_died _ Hrunning) as Hdd. unfold died in *. by rewrite F7, Herr.
  - rewrite F8. unfold mark_died. unfold Job_Ended in Hrunning. apply negb_false_iff in Hrunning.
    rewrite Hrunning. cbn. by destruct (_ =? 0).
  - rewrite <- F2, G2. cbn. by apply json_text_is.
  - rewrite <- F6, G6. done.
Qed.

(** A restart that did not park kept what it found. *)
Lemma park_not_parked k h l :
  of_index k h = park k l -> Forall (fun j => j_Index j = k) l -> Parked k h = ""%string -> park k l = l.
Proof.
  intros E Hall Hn. unfold park. destruct (crash_loop k l) eqn:Ec; [|done].
  exfalso. assert (Hp : Parked k h <> ""%string); [|done]. apply Parked_iff. rewrite E.
  apply crash_loop_spec in Ec as Es. destruct Es as (j1 & j2 & j3 & rest & El & _).
  rewrite of_index_self in El by done. subst l. apply Forall_cons in Hall as [Hj1 _].
  unfold park. rewrite Ec. cbn [update_newest]. rewrite Hj1, String.eqb_refl. eauto.
Qed.

(** With no job ended on an index, its history is the one loaded. *)
Lemma history_kept path file faults ixs m k :
  Inv (m_history (New path file faults ixs)) m -> of_index k (ended_jobs (m_heap m)) = [] ->
  of_index k (m_history m) = of_index k (m_history (New path file faults ixs)).
Proof.
  intros HI He. destruct (history_index _ _ k HI) as (ended & Hp & ->).
  apply (of_index_perm k) in Hp. rewrite He in Hp. apply Permutation_nil_r in Hp. rewrite Hp. cbn [app].
  by rewrite <- trim_index, New_trimmed.
Qed.

Lemma found_index k (d : Job) l :
  is_ascii k = true -> j_Index d = k -> Forall (fun j => j_Index j = k) (take keptJobs (d :: (json_job <$> of_index k l))).
Proof using L.
  intros Hk Hd. apply Forall_take. constructor; [done|].
  rewrite <- json_job_index by done. apply Forall_forall. by intros j [? _]%of_index_elem.
Qed.

(** When the same index's job dies with the relay in three processes in a
    row (nothing else ended on the index in between, and it was not parked
    before), the fourth process parks the index exactly if the first and the
    last of the three started within an hour of each other. *)
Theorem crash_loop_parks path ixs k file f1 f2 f3 f4 t1 t2 t3 xs1 xs2 xs3 m1 m2 m3 j1 j2 j3 :
  path <> ""%string -> NoDup (ix_Name <$> ixs) -> is_ascii k = true -> k ∈ ix_Name <$> ixs ->
  crashed path ixs k file f1 t1 xs1 m1 j1 ->
  Parked k (m_history (New path (m_file m1) f2 ixs)) = ""%string ->
  crashed path ixs k (m_file m1) f2 t2 xs2 m2 j2 -> of_index k (ended_jobs (m_heap m2)) = [] ->
  Parked k (m_history (New path (m_file m2) f3 ixs)) = ""%string ->
  crashed path ixs k (m_file m2) f3 t3 xs3 m3 j3 -> of_index k (ended_jobs (m_heap m3)) = [] ->
  is_int64 (j_StartedAt j3 - j_StartedAt j1) ->
  (Parked k (m_history (New path (m_file m3) f4 ixs)) <> ""%string <->
   j_StartedAt j3 - j_StartedAt j1 <= 3600).
Proof using L.
  intros Hp Hnd Hk Hin H1 P1 H2 E2 P2 H3 E3 Hint.
  assert (HI : forall f g t xs m j, crashed path ixs k f g t xs m j -> Inv (m_history (New path f g ixs)) m).
  { intros f g t xs m j (Hh & Hs & Hnf & Hx & Hj). eapply (restart path f g g ixs xs t m k); eauto.
    intros E. unfold RunningJob in Hj. rewrite E in Hj. by destruct (m_running m !! k). }
  destruct (restart_died path file f1 f2 ixs xs1 t1 m1 k j1) as (d1 & D1 & _ & I1 & S1 & Q1); [done..|].
  destruct (restart_died path (m_file m1) f2 f3 ixs xs2 t2 m2 k j2) as (d2 & D2 & _ & I2 & S2 & Q2); [done..|].
  destruct (restart_died path (m_file m2) f3 f4 ixs xs3 t3 m3 k j3) as (d3 & D3 & N3 & I3 & S3 & Q3); [done..|].
  rewrite (park_not_parked k _ _ Q1 (found_index k d1 _ Hk I1) P1) in Q1.
  rewrite (park_not_parked k _ _ Q2 (found_index k d2 _ Hk I2) P2) in Q2.
  rewrite (history_kept _ _ _ _ _ _ (HI _ _ _ _ _ _ H2) E2), Q1 in Q2.
  pose proof (found_index k d3 (m_history m3) Hk I3) as F3.
  rewrite (history_kept _ _ _ _ _ _ (HI _ _ _ _ _ _ H3) E3), Q2 in F3, Q3.
  set (h4 := take keptJobs (d3 :: _)) in *.
  assert (H4 : exists rest, h4 = d3 :: json_job d2 :: json_job (json_job d1) :: rest) by (eexists; reflexivity).
  destruct H4 as [rest H4].
  assert (Hc : crash_loop k h4 = true <-> j_StartedAt j3 - j_StartedAt j1 <= 3600).
  { rewrite crash_loop_spec, (of_index_self k h4 F3), H4. split.
    - intros (a & b & c & l & [= <- <- <- <-] & _ & _ & _ & Hw). cbn in Hw.
      rewrite S1, S3 in Hw. by rewrite wrap64_id in Hw.
    - intros Hle. exists d3, (json_job d2), (json_job (json_job d1)), rest. rewrite !json_job_died. cbn.
      rewrite S1, S3, wrap64_id by done. done. }
  rewrite <- Hc, Parked_iff, Q3. unfold park. destruct (crash_loop k h4) eqn:Ec.
  - rewrite H4. cbn [update_newest]. rewrite I3, String.eqb_refl. split; [done|]. intros _. eauto.
  - split; [|done]. intros (j & l & E & Hpk & _). rewrite H4 in E. injection E as <- _. congruence.
Qed.

End ReadBack.
