(* ===== verification/RelayExamples.v ===== *)
(** * The job manager on concrete runs

    A codec with the documented laws and runs of a relay with a store index
    and a search index, on which the theorems of [RelayManagerFacts] and
    [RelayRestart] are instantiated: two jobs at once, a superseded job, and
    three processes that die while the same job runs. *)
From S2P Require Import Prelude GoTime GoStrings GoFormat RelayJobs RelayJobsFacts.
From S2P Require Import RelayManager RelayManagerFacts RelayRestart.
From stdpp Require Import options.
From Stdlib Require Import Ascii.

Local Open Scope Z_scope.

(** ** A codec *)

(** A format writes a value before what follows and reads it back. *)
Record format (A : Type) := mkFormat {
  put : A -> string -> string;
  get : string -> option (A * string);
  get_put a rest : get (put a rest) = Some (a, rest);
}.
Arguments put {A}.
Arguments get {A}.
Arguments get_put {A}.

(** A string: each character behind a plus sign, then a dot. *)
Fixpoint put_text (s rest : string) : string :=
  match s with
  | EmptyString => String "." rest
  | String c s => String "+" (String c (put_text s rest))
  end.

Fixpoint get_text (s : string) : option (string * string) :=
  match s with
  | String "." rest => Some (EmptyString, rest)
  | String "+" (String c s) => '(t, rest) ← get_text s; Some (String c t, rest)
  | _ => None
  end.

Lemma get_put_text s rest : get_text (put_text s rest) = Some (s, rest).
Proof. induction s as [|c s IH]; cbn; [done|]. by rewrite IH. Qed.

Definition text : format string := mkFormat _ put_text get_text get_put_text.

(** A number: its binary digits, least significant first, then its sign. *)
Fixpoint put_bits (p : positive) (rest : string) : string :=
  match p with
  | xH => String "." rest
  | xO p => String "0" (put_bits p rest)
  | xI p => String "1" (put_bits p rest)
  end.

Fixpoint get_bits (s : string) : option (positive * string) :=
  match s with
  | String "." rest => Some (xH, rest)
  | String "0" s => '(p, rest) ← get_bits s; Some (xO p, rest)
  | String "1" s => '(p, rest) ← get_bits s; Some (xI p, rest)
  | _ => None
  end.

Lemma get_put_bits p rest : get_bits (put_bits p rest) = Some (p, rest).
Proof. induction p as [p IH|p IH|]; cbn; [..|done]; by rewrite IH. Qed.

Definition put_number (z : Z) (rest : string) : string :=
  match z with
  | Z0 => String "z" rest
  | Zpos p => String "p" (put_bits p rest)
  | Zneg p => String "n" (put_bits p rest)
  end.

Definition get_number (s : string) : option (Z * string) :=
  match s with
  | String "z" rest => Some (Z0, rest)
  | String "p" s => '(p, rest) ← get_bits s; Some (Zpos p, rest)
  | String "n" s => '(p, rest) ← get_bits s; Some (Zneg p, rest)
  | _ => None
  end.

Lemma get_put_number z rest : get_number (put_number z rest) = Some (z, rest).
Proof. destruct z; cbn; [done|..]; by rewrite get_put_bits. Qed.

Definition number : format Z := mkFormat _ put_number get_number get_put_number.

Definition flag : format bool.
Proof.
  refine (mkFormat _ (fun (b : bool) rest => String (if b then "1" else "0") rest)
    (fun s => match s with String "1" rest => Some (true, rest) | String "0" rest => Some (false, rest)
                         | _ => None end) _).
  by intros [].
Defined.

Definition both {A B} (f : format A) (g : format B) : format (A * B).
Proof.
  refine (mkFormat _ (fun ab rest => put f ab.1 (put g ab.2 rest))
    (fun s => '(a, s) ← get f s; '(b, s) ← get g s; Some ((a, b), s)) _).
  intros [a b] rest. cbn. rewrite get_put. cbn. by rewrite get_put.
Defined.

Definition via {A B} (to : B -> A) (from : A -> B) (H : forall b, from (to b) = b) (f : format A) : format B.
Proof.
  refine (mkFormat _ (fun b rest => put f (to b) rest) (fun s => '(a, s) ← get f s; Some (from a, s)) _).
  intros b rest. rewrite get_put. cbn. by rewrite H.
Defined.

Definition job_format : format Job.
Proof.
  refine (via
    (fun j => (j_ID j, j_Index j, j_Kind j, j_Trigger j, j_Reason j, j_State j, j_Phase j, j_Done j, j_Total j,
       j_Applied j, j_EntriesBefore j, j_EntriesAfter j, j_StartedAt j, j_FinishedAt j, j_DurationMs j,
       j_Error j, j_Summary j, j_Noop j, j_Parked j))
    (fun '(a, b, c, d, e, f, g, h, i, j, k, l, m, n, o, p, q, r, s) => mkJob a b c d e f g h i j k l m n o p q r s)
    _ (both (both (both (both (both (both (both (both (both (both (both (both (both (both (both (both (both (both
         text text) text) text) text) text) text) number) number) number) number) number) number) number)
         number) text) text) flag) flag)).
  by intros [].
Defined.

(** A list: its items each behind a comma, then a bracket.  Reading takes at
    most one item per character. *)
Fixpoint put_jobs (js : list Job) : string :=
  match js with
  | [] => "]"
  | j :: js => String "," (put job_format j (put_jobs js))
  end.

Fixpoint get_jobs (fuel : nat) (s : string) : option (list Job) :=
  match fuel, s with
  | S fuel, String "," s => '(j, s) ← get job_format s; js ← get_jobs fuel s; Some (j :: js)
  | S _, String "]" EmptyString => Some []
  | _, _ => None
  end.

Lemma put_text_length s rest : (String.length rest < String.length (put_text s rest))%nat.
Proof. induction s as [|c s IH]; cbn; lia. Qed.

Lemma put_bits_length p rest : (String.length rest < String.length (put_bits p rest))%nat.
Proof. induction p as [p IH|p IH|]; cbn; lia. Qed.

Lemma put_number_length z rest : (String.length rest < String.length (put_number z rest))%nat.
Proof. destruct z as [|p|p]; cbn; [lia|..]; pose proof (put_bits_length p rest); lia. Qed.

Lemma get_put_jobs js fuel : (length js < fuel)%nat -> get_jobs fuel (put_jobs js) = Some js.
Proof.
  revert fuel; induction js as [|j js IH]; intros [|fuel] Hf; cbn [length] in Hf; try lia; [done|].
  cbn -[job_format]. rewrite get_put. cbn -[job_format]. rewrite IH by lia. done.
Qed.

Lemma put_jobs_length js : (length js < String.length (put_jobs js))%nat.
Proof.
  induction js as [|j js IH]; [cbn; lia|].
  assert (H : (String.length (put_jobs js) <= String.length (put job_format j (put_jobs js)))%nat).
  { generalize (put_jobs js) as rest. intros rest. cbn.
    repeat (etrans; [|apply Nat.lt_le_incl; first [apply put_text_length | apply put_number_length]]).
    cbn. lia. }
  cbn -[job_format]. lia.
Qed.

Definition plain_codec : JobsCodec := {|
  jobs_Marshal := put_jobs;
  jobs_Unmarshal s := get_jobs (S (String.length s)) s;
  json_text s := s;
|}.

#[export] Instance plain_codec_laws : JobsCodecLaws plain_codec.
Proof.
  constructor; cbn -[get_jobs]; [|done..].
  intros js. rewrite get_put_jobs by (pose proof (put_jobs_length js); lia).
  f_equal. induction js as [|j js IH]; [done|]. rewrite fmap_cons, <- IH. by destruct j.
Qed.

#[local] Existing Instance plain_codec.

(** ** Runs *)

Definition ex_indexes : list Index := [mkIndex "zaps" true; mkIndex "stats" true; mkIndex "search" false].

Definition ex_status : Status :=
  mkStatus "zaps" true "" "needs_rebuild" KindRebuild "never built" "" false 0 0 0 0 0 0 "" "".

(** The clock, in seconds after an instant. *)
Definition ex_clock (s : Z) : Z := Unix_ (1700000000 + s).

Definition ex_start (k : nat) (index kind trigger id : string) (s : Z) : list action :=
  [AEnter index kind trigger "" ex_status; ALock k id (ex_clock s) false []].

Definition ex_new : Manager := New "jobs.json" None (fun _ => false) ex_indexes.

(** Two store indexes and search: search operates beside the one that has the
    writer, the other waits. *)
Definition ex_busy : list action :=
  ex_start 0 "zaps" KindCatchUp TriggerReconcile "a1" 0 ++
  ex_start 1 "stats" KindRebuild TriggerReconcile "a2" 1 ++
  ex_start 2 "search" KindRebuild TriggerAdmin "a3" 2 ++
  [ABegin 0 (ex_clock 2); ABegin 1 (ex_clock 2); ABegin 2 (ex_clock 2); AAcquire 1 (ex_clock 3);
   AProgress 1 (mkProgress "scan" 10 100 3) (ex_clock 9); ASave 1 false []].

(** An admin's rebuild supersedes the catch-up that waits, which ends; the
    rebuild starts. *)
Definition ex_superseded : list action :=
  ex_busy ++ ex_start 3 "zaps" KindRebuild TriggerAdmin "a4" 10 ++
  [AAbort 0; ACause 0; ARecord 0 (ex_clock 11) false []; ATell 0; ARelease 0; AClose 0; AWake 3;
   ALock 3 "a4" (ex_clock 12) false []].

Definition ex_state (xs : list action) (m : Manager) : Manager := default m (exec_all xs m).

Definition ex_after : Manager := ex_state ex_superseded ex_new.

Lemma exec_all_reachable xs m0 m m' : reachable m0 m -> exec_all xs m = Some m' -> reachable m0 m'.
Proof.
  revert m; induction xs as [|x xs IH]; intros m Hr; cbn [exec_all]; [by intros [= <-]|].
  destruct (exec x m) as [m1|] eqn:E; [|done]. cbn [mbind option_bind]. apply IH. by eapply reach_step.
Qed.

Lemma ex_after_run : exec_all ex_superseded ex_new = Some ex_after.
Proof. vm_compute. reflexivity. Qed.

Lemma ex_after_reachable : reachable ex_new ex_after.
Proof. eapply exec_all_reachable; [apply reach_start | exact ex_after_run]. Qed.

(** What came of it. *)
Example ex_superseded_history :
  (fun j => (j_ID j, j_State j, j_Summary j)) <$> m_history ex_after
  = [("a1", StateSuperseded, "zaps: catch-up stopped for a rebuild")]%string /\
  (r_pc <$> m_heap ex_after) = [PDone; PPerforming; PPerforming; PSpawned].
Proof. vm_compute. repeat split. Qed.

Lemma jobs_exclusive_witness :
  operating (default PDone (r_pc <$> m_heap ex_after !! 1%nat)) = true /\
  (forall k a, m_running ex_after !! k = Some a <->
     exists r, m_heap ex_after !! a = Some r /\ live (r_pc r) = true /\ j_Index (r_job r) = k /\
       j_State (r_job r) = StateRunning).
Proof.
  split; [vm_compute; reflexivity|].
  exact (proj1 (proj2 (jobs_exclusive _ _ _ _ _ ex_after_reachable))).
Defined.

Lemma jobs_recorded_once_witness :
  length (m_heap ex_after) = 4%nat /\ m_told ex_after ≡ₚ jobs_at told (m_heap ex_after).
Proof.
  split; [vm_compute; reflexivity|].
  exact (proj1 (proj2 (jobs_recorded_once _ _ _ _ _ ex_after_reachable))).
Defined.

Lemma jobs_drain_witness :
  length (m_heap ex_after) = 4%nat /\
  (forall xs m', Forall (fun x => job_step x = true) xs -> exec_all xs ex_after = Some m' ->
     (length xs <= 36)%nat).
Proof.
  split; [vm_compute; reflexivity|].
  exact (proj1 (jobs_drain _ _ _ _ _ ex_after_reachable)).
Defined.

(** ** Three processes *)

Definition ex_life (id : string) (s : Z) : list action :=
  ex_start 0 "zaps" KindRebuild TriggerReconcile id s ++
  [ABegin 0 (ex_clock s); AAcquire 0 (ex_clock s); AProgress 0 (mkProgress "scan" 1 2 0) (ex_clock (s + 6));
   ASave 0 false []].

Definition ex_next (m : Manager) : Manager := New "jobs.json" (m_file m) (fun _ => false) ex_indexes.

Definition ex_m1 : Manager := ex_state (ex_life "b1" 0) ex_new.
Definition ex_m2 : Manager := ex_state (ex_life "b2" 600) (ex_next ex_m1).
Definition ex_m3 : Manager := ex_state (ex_life "b3" 1200) (ex_next ex_m2).

Definition ex_job (m : Manager) : Job := default Job_zero (RunningJob "zaps" m).

Lemma ex_crashed_1 :
  crashed "jobs.json" ex_indexes "zaps" None (fun _ => false) 0 (ex_life "b1" 0) ex_m1 (ex_job ex_m1).
Proof. split_and!; [constructor | | repeat constructor | |]; vm_compute; try reflexivity; done. Qed.

Lemma ex_crashed_2 :
  crashed "jobs.json" ex_indexes "zaps" (m_file ex_m1) (fun _ => false) 1700000001 (ex_life "b2" 600) ex_m2
    (ex_job ex_m2).
Proof.
  split_and!; [| | repeat constructor | |].
  - apply (bool_decide_unpack _). vm_compute. exact I.
  - vm_compute. done.
  - vm_compute. reflexivity.
  - vm_compute. reflexivity.
Qed.

Lemma ex_crashed_3 :
  crashed "jobs.json" ex_indexes "zaps" (m_file ex_m2) (fun _ => false) 1700000601 (ex_life "b3" 1200) ex_m3
    (ex_job ex_m3).
Proof.
  split_and!; [| | repeat constructor | |].
  - apply (bool_decide_unpack _). vm_compute. exact I.
  - vm_compute. done.
  - vm_compute. reflexivity.
  - vm_compute. reflexivity.
Qed.


Lemma crash_loop_parks_witness :
  Parked "zaps" (m_history (New "jobs.json" (m_file ex_m3) (fun _ => false) ex_indexes)) <> ""%string <->
  j_StartedAt (ex_job ex_m3) - j_StartedAt (ex_job ex_m1) <= 3600.
Proof.
  apply (crash_loop_parks "jobs.json" ex_indexes "zaps" None (fun _ => false) (fun _ => false)
           (fun _ => false) (fun _ => false) 0 1700000001 1700000601 (ex_life "b1" 0) (ex_life "b2" 600)
           (ex_life "b3" 1200) ex_m1 ex_m2 ex_m3 (ex_job ex_m1) (ex_job ex_m2) (ex_job ex_m3)).
  - discriminate.
  - apply (bool_decide_unpack _). vm_compute. exact I.
  - reflexivity.
  - apply (bool_decide_unpack _). vm_compute. exact I.
  - exact ex_crashed_1.
  - vm_compute. reflexivity.
  - exact ex_crashed_2.
  - vm_compute. reflexivity.
  - vm_compute. reflexivity.
  - exact ex_crashed_3.
  - vm_compute. reflexivity.
  - vm_compute. split; discriminate.
Defined.

(** The index is parked, with the reason an admin sees. *)
Example ex_parked :
  Parked "zaps" (m_history (ex_next ex_m3))
  = "the relay stopped 3 times in a row during rebuild, so the relay no longer starts it; ncli relay index rebuild (or drop) zaps starts over"%string.
Proof. vm_compute. reflexivity. Qed.
