(* ===== verification/RelayReconciler.v ===== *)
(** * The reconciler: what the relay starts on its own

    Models [src/cli/relay/jobs/reconciler.go].  A pass looks at every index in
    order, notes a failure of its last job (which sets when it is retried),
    and collects the idle indexes whose status asks for a job; then it starts
    those jobs, leaving out search's rebuild and rescore while a store index is
    busy or due.  The pass reads the manager and the indexes one by one while
    other goroutines go on: what it sees of an index is an observation. *)
From S2P Require Import Prelude GoTime GoStrings GoFormat RelayJobs RelayJobsFacts.
From S2P Require Import RelayManager.
From stdpp Require Import options.

Local Open Scope Z_scope.

Definition reconcileBackoff : list Z := [Minute; 5 * Minute; 15 * Minute].

(** [failures], [retryAt] and [failed], by index. *)
Record Reconciler := mkReconciler {
  rc_failures : gmap string Z;
  rc_retryAt : gmap string Z;
  rc_failed : gmap string string;
}.

Definition Reconciler_new : Reconciler := mkReconciler ∅ ∅ ∅.

(** The delay before the retry after the [n]-th failure in a row, from 0. *)
Definition backoff (n : Z) : Z :=
  List.nth (Z.to_nat (Z.min n (Z.of_nat (length reconcileBackoff) - 1))) reconcileBackoff 0.

(** [note]: back off an index whose last job, started by the relay, failed and
    was not noted before. *)
Definition note (now : Z) (name : string) (last : option Job) (rc : Reconciler) : Reconciler :=
  match last with
  | None => rc
  | Some j =>
      if negb (String.eqb (j_Trigger j) TriggerReconcile) || negb (String.eqb (j_State j) StateFailed)
         || j_Parked j || String.eqb (default ""%string (rc_failed rc !! name)) (j_ID j)
      then rc
      else
        let n := default 0 (rc_failures rc !! name) in
        mkReconciler (<[name := wrap64 (n + 1)]> (rc_failures rc))
          (<[name := Time_Add now (backoff n)]> (rc_retryAt rc))
          (<[name := j_ID j]> (rc_failed rc))
  end.

(** [RetryAt]: the zero time when the index isn't waiting. *)
Definition RetryAt (now : Z) (name : string) (rc : Reconciler) : Z :=
  let t := default 0 (rc_retryAt rc !! name) in
  if Time_Before now t then t else 0.

(** What a pass sees of one index, at the moments it looks; [ob_noted] is when
    it notes the last job, [ob_now] when it checks the backoff. *)
Record observation := mkObservation {
  ob_noted : Z;
  ob_now : Z;
  ob_last : option Job;
  ob_running : option Job;
  ob_parked : string;
  ob_status : Status;
}.

Record due := mkDue { due_name : string; due_ix : Index; due_st : Status }.

(** The state of a pass's first loop. *)
Record looking := mkLooking {
  lk_rc : Reconciler;
  lk_todo : list due;
  lk_storeBusy : bool;
}.

(** The first loop's body. *)
Definition look (name : string) (ix : Index) (o : observation) (s : looking) : looking :=
  let rc := note (ob_noted o) name (ob_last o) (lk_rc s) in
  match ob_running o with
  | Some j =>
      mkLooking rc (lk_todo s)
        (lk_storeBusy s || (ix_WritesStore ix && negb (String.eqb (j_Kind j) KindReap)))
  | None =>
      let st := ob_status o in
      if negb (is_empty (ob_parked o)) then mkLooking rc (lk_todo s) (lk_storeBusy s)
      else if is_empty (st_Action st) then
        mkLooking (mkReconciler (delete name (rc_failures rc)) (rc_retryAt rc) (rc_failed rc))
          (lk_todo s) (lk_storeBusy s)
      else if Time_Before (ob_now o) (default 0 (rc_retryAt rc !! name)) then
        mkLooking rc (lk_todo s) (lk_storeBusy s)
      else
        mkLooking rc (lk_todo s ++ [mkDue name ix st])
          (lk_storeBusy s || (ix_WritesStore ix && negb (String.eqb (st_Action st) KindReap)))
  end.

(** Whether a pass leaves a due index for later: search scores with the
    store's indexes. *)
Definition held_back (storeBusy : bool) (d : due) : bool :=
  storeBusy && negb (ix_WritesStore (due_ix d)) &&
  (String.eqb (st_Action (due_st d)) KindRebuild || String.eqb (st_Action (due_st d)) KindRescore).

(** [pass]: the reconciler afterwards, and the [Start] calls it makes, in
    order (index, kind, reason; the trigger is [TriggerReconcile]). *)
Definition pass (seen : list (string * Index * observation)) (rc : Reconciler)
    : Reconciler * list (string * Kind * string * Status) :=
  let s := foldl (fun s '(name, ix, o) => look name ix o s) (mkLooking rc [] false) seen in
  (lk_rc s,
   (fun d => (due_name d, st_Action (due_st d), st_Reason (due_st d), due_st d)) <$>
     List.filter (fun d => negb (held_back (lk_storeBusy s) d)) (lk_todo s)).

(** What a pass sees when nothing else acts meanwhile. *)
Definition observe (now : Z) (status : string -> Status) (m : Manager) (name : string)
    : option (string * Index * observation) :=
  ix ← m_indexes m !! name;
  Some (name, ix, mkObservation now now (LastJob name (m_history m)) (RunningJob name m)
                    (Parked name (m_history m)) (status name)).

(** The [Start] calls as actions of the manager. *)
Definition pass_actions (calls : list (string * Kind * string * Status)) : list action :=
  (fun '(name, kind, reason, st) => AEnter name kind TriggerReconcile reason st) <$> calls.

(** * Theorems on the reconciler *)

Abbreviation sight := (string * Index * observation)%type.

Definition name_of (x : sight) : string := x.1.1.
Definition ix_of (x : sight) : Index := x.1.2.

(** ** The specification of a pass *)

(** The reconciler's entry for an index once its last job is noted. *)
Definition noted (rc : Reconciler) (x : sight) : Reconciler :=
  note (ob_noted x.2) (name_of x) (ob_last x.2) rc.

(** An index is due: idle, not parked, in need of a job and not backing off. *)
Definition is_due (rc : Reconciler) (x : sight) : bool :=
  bool_decide (ob_running x.2 = None) && is_empty (ob_parked x.2) &&
  negb (is_empty (st_Action (ob_status x.2))) &&
  negb (Time_Before (ob_now x.2) (default 0 (rc_retryAt (noted rc x) !! name_of x))).

(** A store index is being brought current, or is about to be. *)
Definition occupies_store (rc : Reconciler) (x : sight) : bool :=
  ix_WritesStore (ix_of x) &&
  match ob_running x.2 with
  | Some j => negb (String.eqb (j_Kind j) KindReap)
  | None => is_due rc x && negb (String.eqb (st_Action (ob_status x.2)) KindReap)
  end.

(** Search's rebuild and rescore wait for the store. *)
Definition waits_for_store (x : sight) : bool :=
  negb (ix_WritesStore (ix_of x)) &&
  (String.eqb (st_Action (ob_status x.2)) KindRebuild || String.eqb (st_Action (ob_status x.2)) KindRescore).

Definition as_due (x : sight) : due := mkDue (name_of x) (ix_of x) (ob_status x.2).

Definition as_call (x : sight) : string * Kind * string * Status :=
  (name_of x, st_Action (ob_status x.2), st_Reason (ob_status x.2), ob_status x.2).

(** ** The loop *)

(** Two reconcilers agree on an index. *)
Definition agree (name : string) (rc rc' : Reconciler) : Prop :=
  rc_failures rc !! name = rc_failures rc' !! name /\ rc_retryAt rc !! name = rc_retryAt rc' !! name /\
  rc_failed rc !! name = rc_failed rc' !! name.

Lemma note_other now name name' last rc : name' <> name -> agree name' (note now name last rc) rc.
Proof.
  intros Hne. unfold note, agree. repeat case_match; cbn; rewrite ?lookup_insert_ne by done; done.
Qed.

Lemma note_agree now name last rc rc' :
  agree name rc rc' -> agree name (note now name last rc) (note now name last rc').
Proof.
  intros (H1 & H2 & H3). unfold note, agree. destruct last as [j|]; [|done]. rewrite H1, H3.
  case_match; cbn; [done|]. by rewrite !lookup_insert_eq.
Qed.

Lemma look_other (x : sight) name s :
  name <> name_of x -> agree name (lk_rc (look (name_of x) (ix_of x) x.2 s)) (lk_rc s).
Proof.
  intros Hne. pose proof (note_other (ob_noted x.2) (name_of x) name (ob_last x.2) (lk_rc s) Hne) as Hn.
  unfold look. repeat case_match; cbn [lk_rc]; try done.
  destruct Hn as (A1 & A2 & A3). unfold agree. cbn. by rewrite lookup_delete_ne.
Qed.

Lemma is_due_agree rc rc' x : agree (name_of x) rc rc' -> is_due rc x = is_due rc' x.
Proof.
  intros Ha. unfold is_due, noted. by destruct (note_agree (ob_noted x.2) (name_of x) (ob_last x.2) _ _ Ha) as (_ & -> & _).
Qed.

(** One turn of the loop, against the specification. *)
Lemma look_spec (x : sight) s :
  let s' := look (name_of x) (ix_of x) x.2 s in
  lk_todo s' = lk_todo s ++ (if is_due (lk_rc s) x then [as_due x] else []) /\
  lk_storeBusy s' = lk_storeBusy s || occupies_store (lk_rc s) x /\
  rc_retryAt (lk_rc s') = rc_retryAt (noted (lk_rc s) x) /\
  rc_failed (lk_rc s') = rc_failed (noted (lk_rc s) x).
Proof.
  cbv zeta. unfold look, is_due, occupies_store, is_due, noted, as_due.
  destruct (ob_running x.2) as [j|]; cbn [bool_decide andb].
  { rewrite bool_decide_false by done. cbn. by rewrite app_nil_r. }
  rewrite bool_decide_true by done. cbn [andb].
  destruct (is_empty (ob_parked x.2)); cbn [negb andb].
  2: { cbn. by rewrite app_nil_r, andb_false_r, orb_false_r. }
  destruct (is_empty (st_Action (ob_status x.2))); cbn [negb andb].
  { cbn. by rewrite app_nil_r, andb_false_r, orb_false_r. }
  destruct (Time_Before _ _); cbn; [|done].
  by rewrite app_nil_r, andb_false_r, orb_false_r.
Qed.

Definition look_all (seen : list sight) (s : looking) : looking :=
  foldl (fun s '(name, ix, o) => look name ix o s) s seen.

Lemma look_all_other seen s name :
  (forall y, y ∈ seen -> name_of y <> name) ->
  rc_retryAt (lk_rc (look_all seen s)) !! name = rc_retryAt (lk_rc s) !! name.
Proof.
  revert s; induction seen as [|y seen IH]; intros s Hother; [done|].
  assert (Hy : look_all (y :: seen) s = look_all seen (look (name_of y) (ix_of y) y.2 s))
    by (destruct y as [[n ix] o]; done).
  rewrite Hy, IH by (intros z Hz; apply Hother; by right).
  apply (look_other y name s). intros ->. by apply (Hother y ltac:(left)).
Qed.

Lemma look_all_spec seen s rc :
  NoDup (name_of <$> seen) -> (forall x, x ∈ seen -> agree (name_of x) (lk_rc s) rc) ->
  lk_todo (look_all seen s) = lk_todo s ++ (as_due <$> List.filter (is_due rc) seen) /\
  lk_storeBusy (look_all seen s) = lk_storeBusy s || existsb (occupies_store rc) seen /\
  (forall x, x ∈ seen ->
     rc_retryAt (lk_rc (look_all seen s)) !! name_of x = rc_retryAt (noted rc x) !! name_of x).
Proof.
  revert s; induction seen as [|x seen IH]; intros s Hnd Hag.
  { cbn. rewrite app_nil_r, orb_false_r. split_and!; try done. intros x Hx. by apply elem_of_nil in Hx. }
  rewrite fmap_cons in Hnd. apply NoDup_cons in Hnd as [Hni Hnd].
  assert (Hx : agree (name_of x) (lk_rc s) rc) by (apply Hag; left).
  set (s1 := look (name_of x) (ix_of x) x.2 s).
  assert (Hs1 : look_all (x :: seen) s = look_all seen s1) by (destruct x as [[n ix] o]; done).
  assert (Hother : forall y, y ∈ seen -> name_of y <> name_of x).
  { intros y Hy E. apply Hni. rewrite <- E. by apply list_elem_of_fmap_2. }
  destruct (look_spec x s) as (L1 & L2 & L3 & L4). fold s1 in L1, L2, L3, L4.
  destruct (IH s1 Hnd) as (I1 & I2 & I3).
  { intros y Hy. destruct (look_other x (name_of y) s (Hother y Hy)) as (A1 & A2 & A3).
    destruct (Hag y ltac:(by right)) as (B1 & B2 & B3). fold s1 in A1, A2, A3.
    unfold agree. rewrite A1, A2, A3. done. }
  assert (Hdue : is_due (lk_rc s) x = is_due rc x) by (by apply is_due_agree).
  rewrite Hs1, I1, I2, L1, L2. cbn [List.filter existsb]. split_and!.
  - rewrite Hdue, <- app_assoc. by destruct (is_due rc x).
  - rewrite <- orb_assoc. do 2 f_equal. unfold occupies_store. by rewrite Hdue.
  - intros y Hy. apply elem_of_cons in Hy as [->|Hy]; [|by apply I3].
    assert (Hkeep : rc_retryAt (lk_rc (look_all seen s1)) !! name_of x = rc_retryAt (lk_rc s1) !! name_of x).
    { by apply look_all_other. }
    rewrite Hkeep, L3. apply (note_agree (ob_noted x.2) (name_of x) (ob_last x.2) _ _ Hx).
Qed.

(** C14: a pass starts a job on exactly the indexes that are idle, not
    parked, in need of one and past their backoff (counting a failure it has
    only now seen), with the kind and reason their status gives, in order;
    except that search's rebuild and rescore wait while any store index, before
    or after it in the order, is being brought current or about to be. *)
Theorem pass_exact seen rc :
  NoDup (name_of <$> seen) ->
  (pass seen rc).2
  = as_call <$> List.filter (fun x => is_due rc x &&
                   negb (existsb (occupies_store rc) seen && waits_for_store x)) seen /\
  (forall x, x ∈ seen ->
     rc_retryAt (pass seen rc).1 !! name_of x = rc_retryAt (noted rc x) !! name_of x).
Proof.
  intros Hnd. unfold pass. cbv zeta. cbn [fst snd]. fold (look_all seen (mkLooking rc [] false)).
  destruct (look_all_spec seen (mkLooking rc [] false) rc Hnd) as (E1 & E2 & E3); [done|].
  split; [|done]. rewrite E1, E2. cbn [lk_todo lk_storeBusy app orb].
  generalize (existsb (occupies_store rc) seen) as busy. intros busy. clear.
  induction seen as [|x seen IH]; [done|]. cbn [List.filter].
  destruct (is_due rc x); cbn [andb]; [|exact IH]. rewrite fmap_cons. cbn [List.filter].
  replace (held_back busy (as_due x)) with (busy && waits_for_store x)
    by (unfold held_back, waits_for_store; cbn; by rewrite andb_assoc).
  destruct (busy && waits_for_store x); cbn [negb]; [exact IH|].
  by rewrite !fmap_cons, IH.
Qed.

(** ** An example: a store index and search are both to be rebuilt. *)

Definition ex_needs (name : string) (kind : Kind) : Status :=
  mkStatus name true "" "needs_rebuild" kind "not built" "" false 0 0 0 0 0 0 "" "".

Definition ex_seen : list sight :=
  [("search"%string, mkIndex "search" false, mkObservation 100 100 None None "" (ex_needs "search" KindRebuild));
   ("zaps"%string, mkIndex "zaps" true, mkObservation 100 100 None None "" (ex_needs "zaps" KindRebuild))].

Lemma pass_exact_witness :
  NoDup (name_of <$> ex_seen) /\
  (pass ex_seen Reconciler_new).2
  = as_call <$> List.filter (fun x => is_due Reconciler_new x &&
                   negb (existsb (occupies_store Reconciler_new) ex_seen && waits_for_store x)) ex_seen.
Proof.
  assert (H : NoDup (name_of <$> ex_seen)) by (apply (bool_decide_unpack _); vm_compute; exact I).
  split; [exact H|]. apply (pass_exact ex_seen Reconciler_new H).
Defined.

(** Only the store index starts. *)
Example ex_pass : (fun c => c.1.1.1) <$> (pass ex_seen Reconciler_new).2 = ["zaps"%string].
Proof. vm_compute. reflexivity. Qed.
