(* ===== verification/RelayIndexes.v ===== *)
(** * The indexes the relay's jobs work on

    Models [src/cli/relay/jobs/indexes.go] (the derived indexes of the event
    store), [search.go] (the Meilisearch profile index) and [search_queue.go]
    (the watch on search's queue).  The event store and its indexer (nmilat)
    and the Meilisearch client are parameters: what they answer comes as
    arguments, and operations that change them thread their state [W]. *)
From S2P Require Import Prelude GoTime GoStrings GoFormat RelayJobs RelayManager.
From stdpp Require Import options.
From Stdlib Require Import Ascii.

Local Open Scope Z_scope.

Definition StateDisabled : string := "disabled".
Definition StateReady : string := "ready".
Definition StateBehind : string := "behind".
Definition StateNeedsRebuild : string := "needs_rebuild".
Definition StateUnreachable : string := "unreachable".
Definition StateBuilding : string := "building".
Definition StateCatchingUp : string := "catching_up".
Definition StateRescoring : string := "rescoring".
Definition StateDropping : string := "dropping".

(** The status a source starts from: everything zero but these. *)
Definition Status_base (name disabled : string) : Status :=
  mkStatus name (is_empty disabled) disabled "" "" "" "" false 0 0 0 0 0 0 "" "".

(** [int64(u)] of a [uint64]. *)
Definition int64_of_uint64 (u : Z) : Z := wrap64 u.

(** ** The store's derived indexes *)

(** What [EventStore.IndexStatus] answers; [b_Head] and [b_Mark] are its
    [Build], when one is under way. *)
Record Build := mkBuild { b_Head : Z; b_Mark : Z }.

Record IndexStatus := mkIndexStatus {
  is_State : string;
  is_Action : string;
  is_Reason : string;
  is_HasData : bool;
  is_Entries : Z;
  is_Head : Z;
  is_Behind : Z;
  is_BuiltAt : Z;
  is_Retired : Z;
  is_Build : option Build;
}.

(** The names of the store's actions. *)
Record store_names := mkStoreNames {
  ActionCatchUp : string;
  ActionRebuild : string;
  ActionRescore : string;
  ActionReap : string;
  ActionResume : string;
}.

Record StoreIndex := mkStoreIndex { si_name : string; si_store : string; si_Disabled : string }.

(** [StoreIndex.Status] of the store's answer. *)
Definition StoreIndex_Status (N : store_names) (x : StoreIndex) (a : result error IndexStatus) : Status :=
  let enabled := is_empty (si_Disabled x) in
  match a with
  | Err e =>
      mkStatus (si_name x) enabled (si_Disabled x) StateDisabled "" "" "" false 0 0 0 0 0 0 (error_text e) ""
  | Ok st =>
      let behind :=
        match is_Build st with
        | None => int64_of_uint64 (is_Behind st)
        | Some b => int64_of_uint64 (b_Head b - Z.min (b_Head b) (b_Mark b))
        end in
      mkStatus (si_name x) enabled (si_Disabled x)
        (if enabled then is_State st else StateDisabled)
        (if String.eqb (is_Action st) (ActionResume N) then KindRebuild else is_Action st)
        (is_Reason st)
        (if negb enabled && is_HasData st
         then ("it still holds " ++ Count (is_Entries st) ++ " entries; remove them with ncli relay index drop " ++ si_name x)%string
         else ""%string)
        (is_HasData st) (is_Entries st) behind 0 (int64_of_uint64 (is_Head st)) (is_BuiltAt st)
        (is_Retired st) "" ""
  end.

(** The store's errors. *)
Inductive store_error :=
| RelayNothingToDo | RelayIndexBusy | RelayIndexEnabled | RelayIndexDisabled
| RelayOther (e : error).

Definition storeErr (e : store_error) : error :=
  match e with
  | RelayNothingToDo => ErrNothingToDo
  | RelayIndexBusy => ErrBusy
  | RelayIndexEnabled => ErrEnabled
  | RelayIndexDisabled => ErrUnavailable
  | RelayOther e => e
  end.

Section Store.
Context {W : Type}.
(** [RunIndexAction], [ClearIndex] and [AbortIndexBuild] of the store. *)
Variable RunIndexAction : string -> string -> W -> (Result * option store_error) * W.
Variable ClearIndex : string -> W -> result store_error Result * W.
Variable AbortIndexBuild : string -> W -> W.
Variable N : store_names.

(** [run] *)
Definition StoreIndex_run (x : StoreIndex) (kind : Kind) (w : W) : (Result * option error) * W :=
  let action :=
    if String.eqb kind KindCatchUp then ActionCatchUp N
    else if String.eqb kind KindRebuild then ActionRebuild N
    else if String.eqb kind KindRescore then ActionRescore N
    else if String.eqb kind KindReap then ActionReap N
    else ""%string in
  let '((res, err), w) := RunIndexAction (si_store x) action w in
  ((res, storeErr <$> err), w).

(** [Run]: a rebuild frees the generation it replaced. *)
Definition StoreIndex_Run (x : StoreIndex) (kind : Kind) (w : W) : (Result * option error) * W :=
  let '((res, err), w) := StoreIndex_run x kind w in
  if negb (bool_decide (err = None)) || negb (String.eqb kind KindRebuild) then ((res, err), w)
  else
    let '((_, err), w) := StoreIndex_run x KindReap w in
    match err with
    | Some e => if error_is e ErrNothingToDo then ((res, None), w) else ((res, Some e), w)
    | None => ((res, None), w)
    end.

Definition StoreIndex_Drop (x : StoreIndex) (w : W) : (Result * option error) * W :=
  let '(c, w) := ClearIndex (si_store x) w in
  match c with
  | Err e => ((Result_zero, Some (storeErr e)), w)
  | Ok res =>
      let out := mkResult 0 (res_EntriesBefore res) 0 in
      let '((reaped, err), w) := StoreIndex_Run x KindReap w in
      match err with
      | Some e =>
          if error_is e ErrNothingToDo
          then ((mkResult (res_Applied reaped) (res_EntriesBefore res) 0, None), w)
          else ((out, Some e), w)
      | None => ((mkResult (res_Applied reaped) (res_EntriesBefore res) 0, None), w)
      end
  end.

Definition StoreIndex_Cancelled (x : StoreIndex) (kind : Kind) (w : W) : W :=
  if String.eqb kind KindRebuild then AbortIndexBuild (si_store x) w else w.

End Store.

(** ** The watch on search's queue *)

Definition queueWindow : Z := 30 * Minute.

Record queueSample := mkSample { q_at : Z; q_queued : Z; q_applied : Z }.

(** Samples in the order they were taken. *)
Definition queueWatch : Type := list queueSample.

(** The loop that cuts the samples no longer needed: the last one taken a
    window ago or earlier is kept as the window's first. *)
Fixpoint cut_window (now : Z) (w : queueWatch) : queueWatch :=
  match w with
  | x :: ((y :: _) as rest) => if queueWindow <=? Time_Sub now (q_at y) then cut_window now rest else w
  | _ => w
  end.

Definition queueWatch_add (s : queueSample) (w : queueWatch) : queueWatch :=
  match List.last (Some <$> w) None with
  | None => cut_window (q_at s) (w ++ [s])
  | Some l =>
      if q_applied s <? q_applied l then cut_window (q_at s) [s]
      else if Time_Sub (q_at s) (q_at l) <? Minute then w
      else cut_window (q_at s) (w ++ [s])
  end.

Definition queueWatch_warning (w : queueWatch) : string :=
  match w with
  | first :: ((_ :: _) as rest) =>
      let last := List.last rest first in
      if (Time_Sub (q_at last) (q_at first) <? queueWindow) || (q_queued last <=? q_queued first) then ""%string
      else if existsb (fun s => q_queued s <? q_queued first) rest then ""%string
      else
        ("search is falling behind: " ++
           Count (wrap64 (q_queued last - q_queued first + q_applied last - q_applied first)) ++
           " profiles joined the queue in the last " ++ Duration_String queueWindow ++ " while " ++
           Count (wrap64 (q_applied last - q_applied first)) ++ " were applied")%string
  | _ => ""%string
  end.

(** ** Search *)

Definition searchBacklog : Z := 1000.

(** [searchCheck]: the live Meilisearch index's size and identity, or why they
    could not be read. *)
Record searchCheck := mkCheck { sc_docs : Z; sc_identity : string; sc_err : option string }.

(** The indexer's status. *)
Record IndexerStatus := mkIndexer {
  xs_Behind : Z;
  xs_Queued : Z;
  xs_Upserted : Z;
  xs_Deleted : Z;
  xs_Watermark : Z;
  xs_LastError : string;
}.

(** What this relay stored of the index it last built, and what the settings
    and the scoring ask for now. *)
Record searchStored := mkStored {
  ss_identity : string;
  ss_settings : string;
  ss_fingerprint : string;
  ss_SettingsFingerprint : string;
  ss_scoringFingerprint : string;
}.

(** The last switch of [SearchIndex.Status]: state, action and reason. *)
Definition search_needs (behind queued : Z) (chk : searchCheck) (k : searchStored) : string * Kind * string :=
  (if is_empty (sc_identity chk) then (StateNeedsRebuild, KindRebuild, "the Meilisearch index doesn't exist")
   else if is_empty (ss_identity k) then (StateNeedsRebuild, KindRebuild, "not built by this relay yet")
   else if negb (String.eqb (ss_identity k) (sc_identity chk)) then
     (StateNeedsRebuild, KindRebuild, "the Meilisearch index was replaced")
   else if negb (String.eqb (ss_settings k) (ss_SettingsFingerprint k)) then
     (StateNeedsRebuild, KindRebuild, "the index settings changed")
   else if negb (String.eqb (ss_fingerprint k) (ss_scoringFingerprint k)) then
     (StateNeedsRebuild, KindRebuild, "the scoring settings changed")
   else if ((searchBacklog <=? behind) || (searchBacklog <=? queued))%Z then
     (StateBehind, KindCatchUp,
      Count behind ++ " events (any kind) to look through and " ++ Count queued ++ " profiles to index")
   else (StateReady, "", ""))%string.

(** The queue's watch and whether a rebuild pauses the indexer. *)
Record searchWatch := mkWatch { sw_queue : queueWatch; sw_building : bool }.

(** [Status]; [feed] is the feed's queue when search is off and the feed
    exists. *)
Definition SearchIndex_Status (disabled : string) (head now : Z) (feed : option Z)
    (st : IndexerStatus) (chk : searchCheck) (k : searchStored) (w : searchWatch) : Status * searchWatch :=
  if negb (is_empty disabled) then
    (match feed with
     | Some queued =>
         mkStatus "search" false disabled StateDisabled "" ""
           "the relay still tracks profiles for search; stop with ncli relay index drop search"
           true 0 0 queued (int64_of_uint64 head) 0 0 "" ""
     | None => mkStatus "search" false disabled StateDisabled "" "" "" false 0 0 0 (int64_of_uint64 head) 0 0 "" ""
     end, w)
  else
    let behind := int64_of_uint64 (xs_Behind st) in
    let queue :=
      if sw_building w then sw_queue w
      else queueWatch_add (mkSample now (xs_Queued st) (wrap64 (xs_Upserted st + xs_Deleted st))) (sw_queue w) in
    let warning := if sw_building w then ""%string else queueWatch_warning queue in
    let '(state, action, reason, err) :=
      match sc_err chk with
      | Some e => (StateUnreachable, ""%string,
                   "Meilisearch can't be reached; profiles wait in the store until it is"%string, e)
      | None =>
          if negb (is_empty (xs_LastError st)) then
            (StateUnreachable, ""%string, "the last write to Meilisearch failed; it is retried"%string, xs_LastError st)
          else let '(s, a, r) := search_needs behind (xs_Queued st) chk k in (s, a, r, ""%string)
      end in
    (mkStatus "search" true "" state action reason "" (0 <? sc_docs chk) (sc_docs chk) behind (xs_Queued st)
       (int64_of_uint64 head) 0 0 err warning,
     mkWatch queue (sw_building w)).

(** [setBuilding]: the queue's history starts over. *)
Definition setBuilding (on : bool) (w : searchWatch) : searchWatch := mkWatch [] on.

(** [check]: at most every two seconds unless [fresh]; [ask] is what
    Meilisearch answers now. *)
Definition search_check (fresh : bool) (now checked : Z) (cached ask : searchCheck) : searchCheck * Z :=
  if negb fresh && (Time_Sub now checked <? 2 * Second) then (cached, checked) else (ask, now).

(** [batching]: the batch size and the requests in flight, with the store's
    defaults. *)
Definition batching (DefaultSearchBatch DefaultSearchInFlight BatchSize MaxInFlight : Z) : Z * Z :=
  (if BatchSize <=? 0 then DefaultSearchBatch else BatchSize,
   if MaxInFlight <=? 0 then DefaultSearchInFlight else MaxInFlight).

(** [follow]: the statuses it sees of the indexer, one at first and one per
    tick, until it has caught up or the context ends; [None] while it still
    waits.  The result is
    what was applied. *)
Definition follow_progress (target : Z) (start st : IndexerStatus) : Progress :=
  mkProgress
    (if is_empty (xs_LastError st) then "index" else "waiting for Meilisearch: " ++ xs_LastError st)%string
    (int64_of_uint64 (xs_Watermark st - Z.min (xs_Watermark st) (xs_Watermark start)))
    (int64_of_uint64 (target - Z.min target (xs_Watermark start)))
    (wrap64 (xs_Upserted st - xs_Upserted start + xs_Deleted st - xs_Deleted start)).

Fixpoint follow (target : Z) (start : IndexerStatus) (seen : list IndexerStatus) (before after : Z)
    (cancelled : option error) : option (Result * option error * list Progress) :=
  match seen with
  | [] => match cancelled with
          | Some e => Some (mkResult 0 before 0, Some e, [])
          | None => None
          end
  | st :: seen =>
      let p := follow_progress target start st in
      if (target <=? xs_Watermark st) && (xs_Queued st <? searchBacklog) then
        Some (mkResult (p_Applied p) before after, None, [p])
      else match follow target start seen before after cancelled with
           | Some (res, err, ps) => Some (res, err, p :: ps)
           | None => None
           end
  end.

(** ** Building the search index *)

Section BuildInto.
Context {D : Type}.

(** What the loop does to Meilisearch, in order: a request of documents, and
    the wait for an earlier one. *)
Inductive build_event := Enqueued (batch : list D) | Waited (i : nat).

(** A request under way: its number, and how many profiles and documents it
    stands for. *)
Record sent := mkSent { sn_pending : nat; sn_read : Z; sn_docs : Z }.

(** The loop's variables. *)
Record build := mkBuilding {
  bu_queue : list sent;
  bu_batch : list D;
  bu_read : Z;
  bu_done : Z;
  bu_applied : Z;
  bu_requests : nat;
  bu_events : list build_event;
  bu_reports : list Progress;
}.

(** Whether each request, and each wait for one, fails. *)
Variable enqueue : nat -> option error.
Variable wait : nat -> option error.
(** The stored profile count, [0] when it isn't known; the batch size and the
    requests in flight. *)
Variable total : Z.
Variable size : Z.
Variable inFlight : Z.

Definition report (phase : string) (b : build) : build :=
  mkBuilding (bu_queue b) (bu_batch b) (bu_read b) (bu_done b) (bu_applied b) (bu_requests b) (bu_events b)
    (bu_reports b ++ [mkProgress phase (bu_done b) (if 0 <? total then Z.max total (bu_done b) else 0) (bu_applied b)]).

(** [settle], on the queue's oldest request [x]. *)
Definition settle (x : sent) (queue : list sent) (b : build) : option error * build :=
  let b := mkBuilding (bu_queue b) (bu_batch b) (bu_read b) (bu_done b) (bu_applied b) (bu_requests b)
             (bu_events b ++ [Waited (sn_pending x)]) (bu_reports b) in
  match wait (sn_pending x) with
  | Some e => (Some e, b)
  | None =>
      (None, report "build"
        (mkBuilding queue (bu_batch b) (bu_read b) (bu_done b + sn_read x) (bu_applied b + sn_docs x)
           (bu_requests b) (bu_events b) (bu_reports b)))
  end.

(** [for len(queue) >= limit { settle() }], for a positive limit. *)
Fixpoint settle_while (limit : Z) (queue : list sent) (b : build) : option error * build :=
  match queue with
  | [] => (None, b)
  | x :: queue' =>
      if limit <=? Z.of_nat (length queue) then
        match settle x queue' b with
        | (Some e, b) => (Some e, b)
        | (None, b) => settle_while limit queue' b
        end
      else (None, b)
  end.

Definition send (b : build) : option error * build :=
  if bu_read b =? 0 then (None, b) else
  match settle_while inFlight (bu_queue b) b with
  | (Some e, b) => (Some e, b)
  | (None, b) =>
      match enqueue (bu_requests b) with
      | Some e => (Some e, b)
      | None =>
          (None, mkBuilding
             (bu_queue b ++ [mkSent (bu_requests b) (bu_read b) (Z.of_nat (length (bu_batch b)))])
             [] 0 (bu_done b) (bu_applied b) (S (bu_requests b))
             (bu_events b ++ [Enqueued (bu_batch b)]) (bu_reports b))
      end
  end.

(** The callback of [EachProfile]: [doc] is the profile's document, if it has
    one. *)
Definition each_profile (doc : option D) (b : build) : option error * build :=
  let b := mkBuilding (bu_queue b)
             (match doc with Some d => bu_batch b ++ [d] | None => bu_batch b end)
             (bu_read b + 1) (bu_done b) (bu_applied b) (bu_requests b) (bu_events b) (bu_reports b) in
  if size <=? Z.of_nat (length (bu_batch b)) then send b else (None, b).

(** [EachProfile] over the stored profiles, stopped by the callback's error or
    by its own at the end. *)
Fixpoint EachProfile (stop : option error) (profiles : list (option D)) (b : build) : option error * build :=
  match profiles with
  | [] => (stop, b)
  | doc :: profiles =>
      match each_profile doc b with
      | (Some e, b) => (Some e, b)
      | (None, b) => EachProfile stop profiles b
      end
  end.

(** [buildInto]: the documents applied, the error, and what was done. *)
Definition buildInto (stop : option error) (profiles : list (option D)) : Z * option error * build :=
  let '(err, b) := EachProfile stop profiles (report "build" (mkBuilding [] [] 0 0 0 0 [] [])) in
  let '(err, b) := match err with None => send b | Some e => (Some e, b) end in
  let '(err, b) := match err with None => settle_while 1 (bu_queue b) b | Some e => (Some e, b) end in
  let b := report "swap" b in
  (bu_applied b, err, b).

End BuildInto.

(** ** Rebuilding and dropping search *)

Section Search.
Context {W : Type}.
(** The client's requests and the store's, each with an error or none. *)
Record search_io := mkSearchIO {
  io_RemoveIndex : string -> W -> option error * W;
  io_Initialize : string -> W -> option error * W;
  io_buildInto : string -> W -> Z * option error * W;
  io_SwapWith : string -> string -> W -> option error * W;
  io_SetFeedWatermark : Z -> W -> option error * W;
  io_Identity : string -> W -> result error string * W;
  io_remember : string -> W -> option error * W;
  io_Head : W -> Z;
  io_CountDocuments : string -> W -> result error Z * W;
  io_DropFeed : W -> option (bool * error) * W;
  io_DeleteBucket : W -> option error * W;
}.
Variable io : search_io.

(** Run a request; go on only when it succeeds. *)
Definition step_io {A} (r : option error * W) (fail : option error -> A) (k : W -> A * W) : A * W :=
  match r with
  | (Some e, w) => (fail (Some e), w)
  | (None, w) => k w
  end.

(** The function [rebuild] gives the indexer to run while it is paused: the
    documents applied so far, and the error. *)
Definition rebuild_exclusive (index : string) (w : W) : (Z * option error) * W :=
  let next := (index ++ "__next")%string in
  let from := io_Head io w in
  step_io (io_RemoveIndex io next w) (fun e => (0, e)) (fun w =>
  step_io (io_Initialize io next w) (fun e => (0, e)) (fun w =>
  let '(n, err, w) := io_buildInto io next w in
  match err with
  | Some e => let '(_, w) := io_RemoveIndex io next w in ((0, Some e), w)
  | None =>
      step_io (io_Initialize io index w) (fun e => (n, e)) (fun w =>
      step_io (io_SwapWith io index next w) (fun e => (n, e)) (fun w =>
      step_io (io_RemoveIndex io next w) (fun e => (n, e)) (fun w =>
      step_io (io_SetFeedWatermark io from w) (fun e => (n, e)) (fun w =>
      let '(id, w) := io_Identity io index w in
      match id with
      | Err e => ((n, Some e), w)
      | Ok id => let '(err, w) := io_remember io id w in ((n, err), w)
      end))))
  end)).

(** [rebuild]: [before] and [after] are the documents counted around it. *)
Definition search_rebuild (index : string) (before after : Z) (w : W) : (Result * option error) * W :=
  let '((n, err), w) := rebuild_exclusive index w in
  match err with
  | Some e => ((mkResult n before 0, Some e), w)
  | None => ((mkResult n before after, None), w)
  end.

(** [SearchIndex.Run], with [following] what [follow] answers. *)
Definition SearchIndex_Run (index : string) (kind : Kind) (before after : Z)
    (following : Result * option error) (w : W) : (Result * option error) * W :=
  if String.eqb kind KindRebuild then search_rebuild index before after w
  else if String.eqb kind KindCatchUp then (following, w)
  else ((Result_zero, Some ErrNothingToDo), w).

(** [SearchIndex.Drop]; [io_DropFeed] also tells whether its error is that the
    feed is unknown. *)
Definition SearchIndex_Drop (host index : string) (w : W) : (Result * option error) * W :=
  let forget_state res w := let '(err, w) := io_DeleteBucket io w in ((res, err), w) in
  let drop_feed res w :=
    let '(d, w) := io_DropFeed io w in
    match d with
    | Some (true, _) =>
        if is_empty host then ((res, Some ErrNothingToDo), w) else forget_state res w
    | Some (false, e) => ((res, Some e), w)
    | None => forget_state res w
    end in
  if is_empty host then drop_feed Result_zero w
  else
    let '(n, w) := io_CountDocuments io index w in
    let res := mkResult 0 (match n with Ok n => n | Err _ => 0 end) 0 in
    let '(err, w) := io_RemoveIndex io index w in
    match err with
    | Some e => ((res, Some (Wrapped "remove the Meilisearch index: " e "")), w)
    | None => drop_feed res w
    end.

End Search.
