(* ===== verification/RelayIndexesFacts.v ===== *)
(** * Theorems on building the search index and watching its queue

    [buildInto_exact]: every document is sent once, in order, in bounded
    requests with boundedly many in flight.  [queueWatch_bounded]: the watch
    keeps a bounded number of samples. *)
From S2P Require Import Prelude GoTime GoStrings GoFormat RelayJobs RelayManager.
From S2P Require Import RelayIndexes.
From stdpp Require Import options.

Local Open Scope Z_scope.

(** ** Building *)

Section Build.
Context {D : Type}.
Variable enqueue : nat -> option error.
Variable wait : nat -> option error.
Variables total size inFlight : Z.
Hypothesis Hsize : 1 <= size.
Hypothesis Hflight : 1 <= inFlight.

Abbreviation sbuild := (@build D).
Abbreviation build_event := (@build_event D).

Definition batch_of (e : build_event) : option (list D) :=
  match e with Enqueued b => Some b | Waited _ => None end.

(** The requests made. *)
Definition batches (es : list build_event) : list (list D) := omap batch_of es.

(** Requests not waited for yet. *)
Definition in_flight (es : list build_event) : Z :=
  foldr (fun e n => match e with Enqueued _ => 1 | Waited _ => -1 end + n) 0 es.

Lemma in_flight_app es es' : in_flight (es ++ es') = in_flight es + in_flight es'.
Proof. unfold in_flight. induction es as [|e es IH]; cbn; [lia|]. rewrite IH. lia. Qed.

(** What is true of the requests at any moment. *)
Definition events_ok (es : list build_event) : Prop :=
  (forall n, in_flight (take n es) <= inFlight) /\
  Forall (fun b => Z.of_nat (length b) <= size) (batches es).

Definition sum_of (f : sent -> Z) (q : list sent) : Z := foldr (fun x n => f x + n) 0 q.

Lemma sum_of_app f q q' : sum_of f (q ++ q') = sum_of f q + sum_of f q'.
Proof. unfold sum_of. induction q as [|x q IH]; cbn; [lia|]. rewrite IH. lia. Qed.

Lemma sum_of_cons f x q : sum_of f (x :: q) = f x + sum_of f q.
Proof. done. Qed.

(** What is true between the loop's steps, once [seen] profiles were read. *)
Record Building (seen : list (option D)) (b : sbuild) : Prop := {
  bi_events : events_ok (bu_events b);
  bi_docs : concat (batches (bu_events b)) ++ bu_batch b = omap id seen;
  bi_read : bu_done b + sum_of sn_read (bu_queue b) + bu_read b = Z.of_nat (length seen);
  bi_applied : bu_applied b + sum_of sn_docs (bu_queue b) = Z.of_nat (length (concat (batches (bu_events b))));
  bi_queue : Z.of_nat (length (bu_queue b)) = in_flight (bu_events b);
  bi_counts : 0 <= bu_read b /\ (bu_read b = 0 -> bu_batch b = []);
}.

(** A failed run keeps what it sent in order. *)
Definition Failed (seen : list (option D)) (b : sbuild) : Prop :=
  events_ok (bu_events b) /\ concat (batches (bu_events b)) `prefix_of` omap id seen.

Lemma events_ok_snoc es e :
  events_ok es -> in_flight (es ++ [e]) <= inFlight ->
  (forall b, e = Enqueued b -> Z.of_nat (length b) <= size) -> events_ok (es ++ [e]).
Proof using.
  intros [H1 H2] Hf Hb. split.
  - intros n. destruct (decide (n <= length es)%nat) as [Hn|Hn].
    + by rewrite take_app_le.
    + by rewrite take_ge by (rewrite length_app; cbn; lia).
  - unfold batches. rewrite omap_app. apply Forall_app. split; [done|]. destruct e; cbn; [|done]. auto.
Qed.

Lemma batches_waited es i : batches (es ++ [Waited i]) = batches es.
Proof. unfold batches. by rewrite omap_app, app_nil_r. Qed.

Lemma batches_enqueued es b : batches (es ++ [Enqueued b]) = batches es ++ [b].
Proof. unfold batches. by rewrite omap_app. Qed.

(** The fields of a state written out. *)
Ltac fields := cbn [bu_events bu_batch bu_queue bu_read bu_done bu_applied].

Lemma settle_ok seen x queue b :
  Building seen b -> bu_queue b = x :: queue ->
  match settle wait total x queue b with
  | (Some e, b') => Failed seen b' /\ wait (sn_pending x) = Some e
  | (None, b') => Building seen b' /\ bu_queue b' = queue /\ bu_batch b' = bu_batch b /\ bu_read b' = bu_read b
  end.
Proof using.
  intros [H1 H2 H3 H4 H5 H6] Hq. unfold settle.
  assert (Hf : in_flight (bu_events b ++ [Waited (sn_pending x)]) = Z.of_nat (length queue)).
  { rewrite in_flight_app, <- H5, Hq. cbn. lia. }
  assert (He : events_ok (bu_events b ++ [Waited (sn_pending x)])).
  { apply events_ok_snoc; [done| |done]. rewrite Hf. destruct H1 as [H1 _].
    specialize (H1 (length (bu_events b))). rewrite firstn_all, <- H5, Hq in H1. cbn in H1. lia. }
  rewrite Hq, !sum_of_cons in *. destruct (wait (sn_pending x)).
  - split; [|done]. split; cbn; [done|]. rewrite batches_waited, <- H2. by exists (bu_batch b).
  - split_and!; try done. constructor; unfold report; fields; rewrite ?batches_waited; try done; lia.
Qed.

(** The settling loop: what it leaves in the queue is within the limit. *)
Lemma settle_while_ok limit seen b :
  1 <= limit -> Building seen b ->
  match settle_while wait total limit (bu_queue b) b with
  | (Some e, b') => Failed seen b' /\ exists i, wait i = Some e
  | (None, b') => Building seen b' /\ Z.of_nat (length (bu_queue b')) < Z.max limit (Z.of_nat (length (bu_queue b)) + 1) /\
      (Z.of_nat (length (bu_queue b')) < limit) /\ bu_batch b' = bu_batch b /\ bu_read b' = bu_read b
  end.
Proof using.
  intros Hl. remember (bu_queue b) as q eqn:Hq. revert b Hq.
  induction q as [|x q IH]; intros b Hq HB; cbn [settle_while].
  - rewrite <- Hq. cbn. split_and!; try done; lia.
  - destruct (Z.leb_spec limit (Z.of_nat (length (x :: q)))) as [Hge|Hlt].
    + pose proof (settle_ok seen x q b HB (eq_sym Hq)) as Hs.
      destruct (settle wait total x q b) as [[e|] b1]; [destruct Hs; eauto|].
      destruct Hs as (HB1 & Hq1 & Hb1 & Hr1). specialize (IH b1 (eq_sym Hq1) HB1).
      destruct (settle_while _ _ _ _ _) as [[e|] b2]; [done|].
      destruct IH as (? & ? & ? & ? & ?). split_and!; try done; try congruence. cbn [length]. lia.
    + rewrite <- Hq. split_and!; try done; lia.
Qed.

Lemma send_ok seen b :
  Building seen b -> Z.of_nat (length (bu_batch b)) <= size ->
  match send enqueue wait total inFlight b with
  | (Some e, b') => Failed seen b' /\ exists i, wait i = Some e \/ enqueue i = Some e
  | (None, b') => Building seen b' /\ bu_batch b' = [] /\ bu_read b' = 0
  end.
Proof using Hsize Hflight.
  intros HB Hlen. unfold send. destruct (Z.eqb_spec (bu_read b) 0) as [E|E].
  { split_and!; [done | | done]. by apply (bi_counts _ _ HB). }
  pose proof (settle_while_ok inFlight seen b Hflight HB) as Hs.
  destruct (settle_while _ _ _ _ _) as [[e|] b1]; [destruct Hs as [? [i ?]]; eauto|].
  destruct Hs as (HB1 & _ & Hq1 & Hb1 & Hr1). destruct HB1 as [H1 H2 H3 H4 H5 H6].
  destruct (enqueue (bu_requests b1)) as [e|] eqn:Ee.
  - split; [|eauto]. split; [done|]. rewrite <- H2. by exists (bu_batch b1).
  - split; [|done]. constructor; fields; rewrite ?batches_enqueued, ?concat_app.
    + apply events_ok_snoc; [done| |].
      * rewrite in_flight_app. cbn. lia.
      * intros bb [= <-]. by rewrite Hb1.
    + cbn. by rewrite !app_nil_r.
    + rewrite sum_of_app, sum_of_cons. cbn [sum_of foldr sn_read]. lia.
    + rewrite sum_of_app, sum_of_cons, length_app, Nat2Z.inj_add. cbn [sum_of foldr sn_docs concat].
      rewrite app_nil_r. lia.
    + rewrite in_flight_app, length_app, Nat2Z.inj_add, H5. cbn. lia.
    + done.
Qed.

Lemma each_profile_ok seen doc b :
  Building seen b -> Z.of_nat (length (bu_batch b)) < size ->
  match each_profile enqueue wait total size inFlight doc b with
  | (Some e, b') => Failed (seen ++ [doc]) b' /\ exists i, wait i = Some e \/ enqueue i = Some e
  | (None, b') => Building (seen ++ [doc]) b' /\ Z.of_nat (length (bu_batch b')) < size
  end.
Proof using Hsize Hflight.
  intros [H1 H2 H3 H4 H5 H6] Hlt. unfold each_profile. set (b1 := mkBuilding _ _ _ _ _ _ _ _).
  assert (HB1 : Building (seen ++ [doc]) b1).
  { constructor; subst b1; fields; try done.
    - rewrite omap_app, <- H2, <- app_assoc. cbn. by destruct doc; rewrite ?app_nil_r.
    - rewrite length_app. cbn. lia.
    - lia. }
  assert (Hlen : Z.of_nat (length (bu_batch b1)) <= size).
  { cbn. destruct doc; [rewrite length_app; cbn|]; lia. }
  destruct (Z.leb_spec size (Z.of_nat (length (bu_batch b1)))) as [Hge|Hlt']; [|done].
  pose proof (send_ok _ b1 HB1 Hlen) as Hs.
  destruct (send _ _ _ _ _) as [[e|] b2]; [done|]. destruct Hs as (HB2 & -> & _). split; [done|]. cbn. lia.
Qed.

Lemma EachProfile_ok stop profiles seen b :
  Building seen b -> Z.of_nat (length (bu_batch b)) < size ->
  match EachProfile enqueue wait total size inFlight stop profiles b with
  | (Some e, b') => Failed (seen ++ profiles) b' /\ (stop = Some e \/ exists i, wait i = Some e \/ enqueue i = Some e)
  | (None, b') => stop = None /\ Building (seen ++ profiles) b' /\ Z.of_nat (length (bu_batch b')) < size
  end.
Proof using Hsize Hflight.
  revert seen b; induction profiles as [|doc profiles IH]; intros seen b HB Hlt; cbn [EachProfile].
  - rewrite app_nil_r. destruct stop as [e|]; [|done]. split; [|auto].
    split; [apply HB|]. rewrite <- (bi_docs _ _ HB). by exists (bu_batch b).
  - pose proof (each_profile_ok seen doc b HB Hlt) as Hp.
    destruct (each_profile _ _ _ _ _ _ _) as [[e|] b1].
    + destruct Hp as [[He Hpre] Hi]. split; [|auto]. split; [done|].
      etrans; [exact Hpre|]. exists (omap id profiles).
      by rewrite <- omap_app, <- app_assoc.
    + destruct Hp as [HB1 Hlt1]. specialize (IH (seen ++ [doc]) b1 HB1 Hlt1).
      by rewrite <- app_assoc in IH.
Qed.

Lemma report_Building seen phase b : Building seen b -> Building seen (report total phase b).
Proof using. intros [H1 H2 H3 H4 H5 H6]. by constructor. Qed.

(** What holds at the end, whatever failed. *)
Definition built (stop : option error) (profiles : list (option D)) (n : Z) (err : option error) (b : sbuild) : Prop :=
  events_ok (bu_events b) /\ concat (batches (bu_events b)) `prefix_of` omap id profiles /\
  match err with
  | Some e => stop = Some e \/ exists i, wait i = Some e \/ enqueue i = Some e
  | None => concat (batches (bu_events b)) = omap id profiles /\ in_flight (bu_events b) = 0 /\
      n = Z.of_nat (length (omap id profiles)) /\ bu_done b = Z.of_nat (length profiles)
  end.

Lemma buildInto_built stop profiles :
  let '(n, err, b) := buildInto enqueue wait total size inFlight stop profiles in
  built stop profiles n err b.
Proof using Hsize Hflight.
  unfold buildInto.
  assert (HB0 : Building [] (report total "build" (mkBuilding [] [] 0 0 0 0 [] []))).
  { constructor; cbn; try done. split; [|constructor]. intros n. rewrite take_nil. cbn. lia. }
  pose proof (EachProfile_ok stop profiles [] _ HB0 ltac:(cbn; lia)) as HE. cbn [app] in HE.
  destruct (EachProfile _ _ _ _ _ _ _ _) as [[e|] b].
  { destruct HE as [[He Hp] Hi]. split_and!; done. }
  destruct HE as (Hstop & HB & Hlt).
  pose proof (send_ok profiles b HB ltac:(lia)) as HS.
  destruct (send _ _ _ _ _) as [[e|] b1].
  { destruct HS as [[He Hp] Hi]. split_and!; auto. }
  destruct HS as (HB1 & Hb1 & Hr1).
  pose proof (settle_while_ok 1 profiles b1 ltac:(lia) HB1) as HW.
  destruct (settle_while _ _ _ _ _) as [[e|] b2].
  { destruct HW as [[He Hp] [i Hi]]. split_and!; eauto. }
  destruct HW as (HB2 & _ & Hq & Hb2 & Hr2).
  assert (Hq2 : bu_queue b2 = []) by (destruct (bu_queue b2); cbn in *; [done|lia]).
  destruct HB2 as [H1 H2 H3 H4 H5 H6]. rewrite Hq2, Hb2, Hb1, app_nil_r in *. cbn in *.
  rewrite H2 in *. split_and!; cbn -[batches in_flight]; rewrite ?H2; (done || lia).
Qed.

(** The search index is built from every stored profile: whatever fails,
    no more than [inFlight] requests are ever unanswered, no request has more
    than [size] documents, and the documents sent are the first ones in order;
    when nothing failed (and only then is there no error) every document was
    sent exactly once, every request was waited for, and the counts reported
    are the documents and the profiles. *)
Theorem buildInto_exact stop profiles :
  let '(n, err, b) := buildInto enqueue wait total size inFlight stop profiles in
  (forall k, in_flight (take k (bu_events b)) <= inFlight) /\
  Forall (fun d => Z.of_nat (length d) <= size) (batches (bu_events b)) /\
  concat (batches (bu_events b)) `prefix_of` omap id profiles /\
  (err = None -> concat (batches (bu_events b)) = omap id profiles /\ in_flight (bu_events b) = 0 /\
     n = Z.of_nat (length (omap id profiles)) /\ bu_done b = Z.of_nat (length profiles)) /\
  (stop = None -> (forall i, wait i = None /\ enqueue i = None) -> err = None).
Proof using Hsize Hflight.
  pose proof (buildInto_built stop profiles) as H.
  destruct (buildInto _ _ _ _ _ _ _) as [[n err] b]. destruct H as ([H1 H2] & H3 & H4).
  split_and!; try done; destruct err as [e|]; try done.
  intros -> Hno. destruct H4 as [?|[i [Hi|Hi]]]; [done|..]; destruct (Hno i); congruence.
Qed.

End Build.

(** ** The queue's watch *)

(** Samples at least a minute apart. *)
Fixpoint spaced (w : queueWatch) : Prop :=
  match w with
  | x :: ((y :: _) as rest) => Minute <= q_at y - q_at x /\ spaced rest
  | _ => True
  end.

Lemma Time_Sub_lt_iff t u d : 0 < d < max_int64 -> Time_Sub t u < d <-> t - u < d.
Proof. unfold Time_Sub, clamp64, min_int64, max_int64, two63. lia. Qed.

Lemma spaced_later x w y : spaced (x :: w) -> y ∈ w -> q_at x + Minute <= q_at y.
Proof.
  revert x; induction w as [|z w IH]; intros x Hs Hy; [by apply elem_of_nil in Hy|].
  destruct Hs as [Hz Hs]. apply elem_of_cons in Hy as [->|Hy]; [lia|].
  specialize (IH z Hs Hy). unfold Minute, Second in *. lia.
Qed.

Lemma spaced_tail x w : spaced (x :: w) -> spaced w.
Proof. destruct w; [done|]. by intros [_ ?]. Qed.

Lemma cut_window_cons now x y rest :
  cut_window now (x :: y :: rest)
  = if queueWindow <=? Time_Sub now (q_at y) then cut_window now (y :: rest) else x :: y :: rest.
Proof. done. Qed.

(** After the cut every sample but the first is inside the window. *)
Lemma cut_window_spec now w :
  spaced w -> spaced (cut_window now w) /\ (length (cut_window now w) <= length w)%nat /\
  Forall (fun y => now - q_at y < queueWindow) (tail (cut_window now w)).
Proof.
  induction w as [|x w IH]; intros Hs; [done|].
  destruct w as [|y rest]; [by split_and!; constructor|]. rewrite cut_window_cons.
  destruct (Z.leb_spec queueWindow (Time_Sub now (q_at y))) as [Hge|Hlt].
  - destruct (IH (spaced_tail _ _ Hs)) as (A & B & D). split_and!; [done| |done]. cbn [length] in *. lia.
  - apply Time_Sub_lt_iff in Hlt; [|done..]. split_and!; [done..|]. cbn [tail].
    constructor; [done|]. apply Forall_forall. intros z Hz.
    pose proof (spaced_later y rest z (spaced_tail _ _ Hs) Hz). unfold Minute, Second in *. lia.
Qed.

Lemma spaced_snoc w s l :
  List.last (Some <$> w) None = Some l -> spaced w -> Minute <= q_at s - q_at l -> spaced (w ++ [s]).
Proof.
  induction w as [|x w IH]; [done|]. intros Hl Hs Hm. destruct w as [|y rest].
  - cbn in *. by simplify_eq.
  - destruct Hs as [Hy Hs]. specialize (IH Hl Hs Hm). cbn [app spaced]. split; [done|]. exact IH.
Qed.

(** Spaced samples in a window are few. *)
Lemma spaced_length x w b :
  spaced (x :: w) -> Forall (fun y => q_at y <= b) (x :: w) -> Z.of_nat (length w) * Minute <= b - q_at x.
Proof.
  revert x; induction w as [|y w IH]; intros x Hs Hb; inversion Hb; subst; [cbn; lia|].
  destruct Hs as [Hy Hs]. specialize (IH y Hs ltac:(done)). cbn [length]. unfold Minute, Second in *. lia.
Qed.

(** What the watch keeps: spaced samples, all but the first within a window
    of the last. *)
Definition watch_ok (w : queueWatch) : Prop :=
  spaced w /\ exists b, Forall (fun y => q_at y <= b) w /\ Forall (fun y => b - q_at y < queueWindow) (tail w).

Lemma queueWatch_add_ok s w : watch_ok w -> watch_ok (queueWatch_add s w).
Proof.
  intros [Hs (b & Hb & Hw)]. unfold queueWatch_add.
  destruct (List.last (Some <$> w) None) as [l|] eqn:El.
  - destruct (q_applied s <? q_applied l).
    { split; [done|]. exists (q_at s). repeat constructor; lia. }
    destruct (Z.ltb_spec (Time_Sub (q_at s) (q_at l)) Minute) as [Hlt|Hge]; [split; eauto|].
    assert (Hm : Minute <= q_at s - q_at l).
    { destruct (Z.lt_ge_cases (q_at s - q_at l) Minute) as [Hc|]; [|done].
      apply Time_Sub_lt_iff in Hc; [lia|done..]. }
    pose proof (spaced_snoc w s l El Hs Hm) as Hs'.
    destruct (cut_window_spec (q_at s) _ Hs') as (A & _ & B). split; [done|]. exists (q_at s). split; [|done].
    assert (Hall : forall v, spaced (v ++ [s]) -> Forall (fun y => q_at y <= q_at s) (v ++ [s])).
    { clear. induction v as [|x v IH]; intros Hv; [by repeat constructor|]. cbn [app] in *.
      constructor; [|apply IH; by eapply spaced_tail].
      pose proof (spaced_later x (v ++ [s]) s Hv ltac:(set_solver)). unfold Minute, Second in *. lia. }
    apply Forall_forall. intros y Hy. apply (proj1 (Forall_forall _ _) (Hall w Hs')).
    revert Hy. clear. generalize (w ++ [s]) as v. induction v as [|x v IH]; [done|].
    destruct v as [|z rest]; [done|]. rewrite cut_window_cons. case_match; [|done]. intros Hy. right. by apply IH.
  - destruct w as [|x w]; [|exfalso; clear -El; revert x El; induction w as [|y w IH]; intros x; [done | apply IH]].
    split; [done|]. exists (q_at s). repeat constructor; lia.
Qed.

(** The watch never holds more than 31 samples, whatever the clock does. *)
Lemma queueWatch_bounded (ss : list queueSample) :
  (length (foldl (fun w s => queueWatch_add s w) [] ss) <= 31)%nat.
Proof.
  assert (H : watch_ok (foldl (fun w s => queueWatch_add s w) [] ss)).
  { assert (H0 : watch_ok []) by (split; [done | exists 0; split; constructor]). revert H0. generalize (@nil queueSample).
    induction ss as [|s ss IH]; intros w Hw; [done|]. cbn [foldl]. by apply IH, queueWatch_add_ok. }
  revert H. generalize (foldl (fun w s => queueWatch_add s w) [] ss) as w. clear. intros w [Hs (b & Hb & Hw)].
  destruct w as [|x [|y w]]; cbn; try lia. inversion Hb; subst. cbn in Hw. inversion Hw; subst.
  pose proof (spaced_length y w b (spaced_tail _ _ Hs) ltac:(done)) as Hl.
  unfold queueWindow, Minute, Second in *. lia.
Qed.

(** ** An example: five profiles, one without a document, in requests of two. *)

Lemma buildInto_exact_witness :
  let '(n, err, b) :=
    buildInto (fun _ => None) (fun _ => None) 5 2 1 None [Some 1; None; Some 2; Some 3; Some 4] in
  (forall k, in_flight (take k (bu_events b)) <= 1) /\
  batches (bu_events b) = [[1; 2]; [3; 4]] /\ n = 4 /\ bu_done b = 5 /\ err = None.
Proof.
  pose proof (buildInto_exact (fun _ => None) (fun _ => None) 5 2 1 ltac:(lia) ltac:(lia) None
                [Some 1; None; Some 2; Some 3; Some 4]) as H.
  destruct (buildInto _ _ _ _ _ _ _) as [[n err] b] eqn:E. split; [exact (proj1 H)|]. clear H.
  vm_compute in E. injection E as <- <- <-. repeat split.
Defined.
