(* ===== verification/RelayRoutes.v ===== *)
(** * The index and job API of the relay's admin port

    Models [src/cli/relay/jobs/routes.go]: what each route answers, as a status
    code and a body, from what the manager and the reconciler say.  Writing
    JSON and the router are the HTTP library's. *)
From S2P Require Import Prelude GoTime GoStrings GoFormat RelayJobs RelayManager.
From S2P Require Import RelayReconciler RelayIndexes.
From stdpp Require Import options.

Local Open Scope Z_scope.

Definition StatusOK : Z := 200.
Definition StatusAccepted : Z := 202.
Definition StatusBadRequest : Z := 400.
Definition StatusNotFound : Z := 404.
Definition StatusConflict : Z := 409.
Definition StatusUnprocessableEntity : Z := 422.
Definition StatusInternalServerError : Z := 500.
Definition StatusNotImplemented : Z := 501.

(** ** Listing *)

Record IndexInfo := mkInfo {
  in_status : Status;
  in_Running : option Job;
  in_Last : option Job;
  in_RetryAt : Z;
  in_Parked : string;
}.

Definition with_State (s : string) (st : Status) : Status :=
  mkStatus (st_Name st) (st_Enabled st) (st_Unavailable st) s (st_Action st) (st_Reason st) (st_Hint st)
    (st_HasData st) (st_Entries st) (st_Behind st) (st_Queued st) (st_Head st) (st_BuiltAt st) (st_Retired st)
    (st_Error st) (st_Warning st).

(** The state a running job shows as. *)
Definition shown_state (j : Job) (s : string) : string :=
  if String.eqb (j_Kind j) KindRebuild then StateBuilding
  else if String.eqb (j_Kind j) KindCatchUp then StateCatchingUp
  else if String.eqb (j_Kind j) KindRescore then StateRescoring
  else if String.eqb (j_Kind j) KindDrop then StateDropping
  else s.

Definition index_info (now : Z) (rc : option Reconciler) (status : string -> Status) (m : Manager)
    (name : string) : IndexInfo :=
  let running := RunningJob name m in
  let st := status name in
  let parked := Parked name (m_history m) in
  mkInfo (match running with Some j => with_State (shown_state j (st_State st)) st | None => st end)
    running (LastShown name (m_history m))
    (match rc with
     | Some rc =>
         if is_empty parked then
           let t := RetryAt now name rc in if Time_IsZero t then 0 else Time_Unix t
         else 0
     | None => 0
     end) parked.

Definition Indexes (now : Z) (rc : option Reconciler) (status : string -> Status) (m : Manager) : list IndexInfo :=
  index_info now rc status m <$> m_order m.

(** ** Plans *)

Record Plan := mkPlan {
  pl_Index : string;
  pl_Kind : Kind;
  pl_State : string;
  pl_Reason : string;
  pl_Entries : Z;
  pl_Scan : Z;
  pl_Effect : string;
  pl_DryRun : bool;
}.

Definition Manager_Plan (index : string) (kind : Kind) (st : Status) (m : Manager) : result error Plan :=
  match Lookup index m with
  | Err e => Err e
  | Ok ix =>
      if String.eqb kind KindDrop && st_Enabled st then
        Err (Wrapped "" ErrEnabled
          (": the " ++ index ++ " index is on; rebuild it instead (ncli relay index rebuild " ++ index ++ ")")%string)
      else if String.eqb kind KindRebuild && negb (st_Enabled st) then
        Err (Wrapped "" ErrUnavailable (": " ++ st_Unavailable st)%string)
      else if String.eqb kind KindDrop then
        Ok (mkPlan index kind (st_State st) (st_Reason st) (st_Entries st) 0
              ("removes the " ++ Count (st_Entries st) ++
               " entries it holds; it is rebuilt from the stored events if turned on again")%string true)
      else if negb (ix_WritesStore ix) then
        Ok (mkPlan index kind (st_State st) (st_Reason st) (st_Entries st) (st_Head st)
              "builds a new index beside the live one, which keeps answering, then swaps it in" true)
      else
        Ok (mkPlan index kind (st_State st) (st_Reason st) (st_Entries st) (st_Head st)
              "builds a new index beside the live one, which keeps answering, then swaps it in; writes are never held up"
              true)
  end.

(** ** Answers *)

Inductive body :=
| ErrorBody (msg : string) (job : option Job)
| JobBody (j : Job)
| PlanBody (p : Plan)
| JobsBody (js : list Job)
| IndexesBody (infos : list IndexInfo).

Abbreviation response := (Z * body)%type.

(** [writeError]: a job is shown when it has an id. *)
Definition writeError (status : Z) (msg : string) (job : option Job) : response :=
  (status, ErrorBody msg (match job with
                          | Some j => if is_empty (j_ID j) then None else Some j
                          | None => None
                          end)).

Definition writeStartError (err : error) (job : option Job) : response :=
  if error_is err ErrUnknownIndex then writeError StatusNotFound (error_text err) None
  else if error_is err ErrUnavailable then writeError StatusNotImplemented (error_text err) None
  else if error_is err ErrEnabled then writeError StatusBadRequest (error_text err) None
  else if error_is err ErrBusy then writeError StatusConflict (error_text err) job
  else writeError StatusInternalServerError (error_text err) None.

(** The request body of a rebuild or a drop: empty, JSON, or not. *)
Inductive action_request :=
| EmptyRequest
| DecodedRequest (dry_run fresh : bool)
| BadRequest (err : string).

(** [POST .../rebuild] and [.../drop]: the answer and whether the reconciler
    is nudged; [start] is what [Start] answers when it is called. *)
Definition handle_action (req : action_request) (plan : result error Plan) (start : Job * option error)
    : response * bool :=
  let '(dry_run, fresh) :=
    match req with DecodedRequest d f => (d, f) | _ => (false, false) end in
  match req with
  | BadRequest e => (writeError StatusBadRequest ("invalid request body: " ++ e)%string None, false)
  | _ =>
      if fresh then
        (writeError StatusBadRequest "fresh was removed: a rebuild always builds a new index and swaps it in" None, false)
      else if dry_run then
        (match plan with
         | Err e => writeStartError e None
         | Ok p => (StatusOK, PlanBody p)
         end, false)
      else
        let '(job, err) := start in
        match err with
        | Some e =>
            if error_is e ErrNothingToDo then ((StatusOK, JobBody job), false)
            else (writeStartError e (Some job), false)
        | None => ((if j_Noop job then StatusOK else StatusAccepted, JobBody job), true)
        end
  end.

(** [GET /admin/api/jobs] *)
Definition handle_jobs (ord : list string) (index : string) (m : Manager) : response :=
  if is_empty index then (StatusOK, JobsBody (List_ ord index m))
  else match Lookup index m with
       | Err e => writeError StatusNotFound (error_text e) None
       | Ok _ => (StatusOK, JobsBody (List_ ord index m))
       end.

(** [GET /admin/api/jobs/{id}]; [wait] is the query's wait, if any, with the
    duration it parses to.  A wait only delays the answer. *)
Definition handle_job (wait : option (string * option Z)) (ord : list string) (id : string) (m : Manager) : response :=
  let answer :=
    match Get ord id m with
    | Err e => writeError StatusNotFound (error_text e) None
    | Ok j => (StatusOK, JobBody j)
    end in
  match wait with
  | Some (s, d) =>
      match d with
      | Some d => if d <? 0 then writeError StatusBadRequest ("invalid wait: " ++ s)%string None else answer
      | None => writeError StatusBadRequest ("invalid wait: " ++ s)%string None
      end
  | None => answer
  end.

(** [DELETE /admin/api/jobs/{id}] *)
Definition handle_cancel (ord : list string) (id : string) (m : Manager) : response * Manager :=
  let '((job, err), m) := Cancel ord id m in
  (match err with
   | Some e =>
       if error_is e ErrNotFound then writeError StatusNotFound (error_text e) None
       else if error_is e ErrNotCancellable then writeError StatusUnprocessableEntity (error_text e) (Some job)
       else writeError StatusInternalServerError (error_text e) None
   | None => if j_Noop job then (StatusOK, JobBody job) else (StatusAccepted, JobBody job)
   end, m).

(** A dry run refuses exactly what a rebuild or drop would refuse before it
    looks at other jobs, with the same error; a drop with nothing to drop is
    refused by the real one only. *)
Lemma Plan_agrees index kind trigger st m ix :
  kind = KindRebuild \/ kind = KindDrop -> Lookup index m = Ok ix ->
  match Start_checks index kind trigger st with
  | Some (_, e) =>
      e = ErrNothingToDo /\ is_ok (Manager_Plan index kind st m) = true \/ Manager_Plan index kind st m = Err e
  | None => is_ok (Manager_Plan index kind st m) = true
  end.
Proof.
  intros Hk Hl. unfold Start_checks, Manager_Plan. rewrite Hl.
  destruct Hk as [->| ->]; cbn [String.eqb KindRebuild KindDrop KindReap]; cbn;
    destruct (st_Enabled st); cbn; auto; try (by destruct (ix_WritesStore ix)).
  destruct (negb (st_HasData st) && (st_Retired st =? 0)); cbn; auto.
Qed.
