(* ===== verification/RelayModeration.v ===== *)
(** * The relay's moderation: NIP-86 bans, kind rules, blocked addresses

    Models [src/cli/relay/moderation.go]: the state, its file, the policy the
    relay asks about every event, the gate on addresses and the NIP-86 methods.
    Parameters: the JSON codec of the file ([ModCodec]), [nip19.ParsePublicKey],
    a request's [StringParam] and [IntParam] (nip86), and the event store
    (threaded as [W]).  What happens to a save at each system call is an
    argument.

    The mutex makes each update and each reading atomic, and [cloneState] gives
    every update maps and slices of its own, so states are values.  A request is
    one step; deleting a banned event from the store follows the update. *)
From S2P Require Import Prelude GoTime GoStrings GoNet Nostr.
From stdpp Require Import sorting options.
From Stdlib Require Import Ascii.

Local Open Scope Z_scope.

Record moderationState := mkModeration {
  BannedPubkeys : gmap string string;
  BannedEvents : gmap string string;
  AllowedKinds : list Z;
  DisallowedKinds : list Z;
  BlockedIPs : gmap string string;
  md_Name : option string;
  md_Description : option string;
  md_Icon : option string;
}.

Definition no_moderation : moderationState := mkModeration ∅ ∅ [] [] ∅ None None None.

(** An error is its text. *)
Definition merr : Type := string.

(** ** The file *)

(** [json.MarshalIndent] and [json.Unmarshal] of the state. *)
Class ModCodec := {
  mod_Marshal : moderationState -> string;
  mod_Unmarshal : string -> result merr moderationState;
}.

(** What the encoder documents: a state whose strings are valid UTF-8, as
    everything decoded from a JSON request is, reads back as itself. *)
Class ModCodecLaws (C : ModCodec) : Prop := {
  mod_roundtrip s : mod_Unmarshal (mod_Marshal s) = Ok s;
}.

(** The file and the temporary one beside it; [None] does not exist. *)
Record disk := mkDisk { d_file : option string; d_tmp : option string }.

(** How a save goes: which call fails, and what a failed write left. *)
Inductive save_outcome :=
| SaveWorks
| MkdirFails (e : merr)
| WriteFails (torn : option string) (e : merr)
| RenameFails (e : merr).

(** [save]: [os.WriteFile] to the temporary file, then [os.Rename]. *)
Definition save `{ModCodec} (o : save_outcome) (s : moderationState) (d : disk) : option merr * disk :=
  let data := mod_Marshal s in
  match o with
  | MkdirFails e => (Some e, d)
  | WriteFails torn e => (Some e, mkDisk (d_file d) torn)
  | RenameFails e => (Some e, mkDisk (d_file d) (Some data))
  | SaveWorks => (None, mkDisk (Some data) None)
  end.

(** ** The moderation *)

Record relayModeration := mkRelayModeration { m_self : string; m_state : moderationState }.

Definition moderationPath (store : string) : string := (store ++ ".moderation.json")%string.

(** [os.ReadFile]: missing, unreadable or the contents. *)
Definition loadModeration `{ModCodec} (path self : string) (unreadable : option merr) (d : disk)
    : result merr relayModeration :=
  match unreadable with
  | Some e => Err e
  | None =>
      match d_file d with
      | None => Ok (mkRelayModeration (ToLower self) no_moderation)
      | Some data =>
          match mod_Unmarshal data with
          | Ok s => Ok (mkRelayModeration (ToLower self) s)
          | Err e => Err (path ++ ": " ++ e)%string
          end
      end
  end.

Definition update `{ModCodec} (o : save_outcome) (m : relayModeration) (d : disk)
    (fn : moderationState -> moderationState) : option merr * relayModeration * disk :=
  let prev := m_state m in
  let m := mkRelayModeration (m_self m) (fn prev) in
  let '(err, d) := save o (m_state m) d in
  match err with
  | Some e => (Some e, mkRelayModeration (m_self m) prev, d)
  | None => (None, m, d)
  end.

Definition kindRules (m : relayModeration) : list Z * list Z :=
  (AllowedKinds (m_state m), DisallowedKinds (m_state m)).

Definition has (m : gmap string string) (k : string) : bool := bool_decide (is_Some (m !! k)).

Definition contains (ks : list Z) (k : Z) : bool := existsb (Z.eqb k) ks.

(** The empty text admits the event. *)
Definition eventPolicy (m : option relayModeration) (ev : option Event) : string :=
  match m, ev with
  | Some m, Some ev =>
      let pubkey := ToLower (ev_PubKey ev) in
      if negb (is_empty (m_self m)) && String.eqb pubkey (m_self m) then ""%string
      else if has (BannedPubkeys (m_state m)) pubkey then "blocked: pubkey is banned from this relay"%string
      else if has (BannedEvents (m_state m)) (ToLower (ev_ID ev)) then "blocked: event is banned from this relay"%string
      else if contains (DisallowedKinds (m_state m)) (ev_Kind ev) ||
              (Nat.ltb 0 (length (AllowedKinds (m_state m))) && negb (contains (AllowedKinds (m_state m)) (ev_Kind ev)))
      then ("blocked: kind " ++ pretty (ev_Kind ev) ++ " is not allowed on this relay")%string
      else ""%string
  | _, _ => ""%string
  end.

Definition bannedPubkey (m : option relayModeration) (pubkey : string) : bool :=
  match m with
  | None => false
  | Some m => has (BannedPubkeys (m_state m)) (ToLower pubkey)
  end.

Definition ipBlocked (m : relayModeration) (remoteAddr : string) : bool :=
  let host := match SplitHostPort remoteAddr with Ok (host, _) => host | Err _ => remoteAddr end in
  match ParseIP host with
  | None => false
  | Some ip => has (BlockedIPs (m_state m)) (IP_String ip)
  end.

(** Whether the gate refuses a request: is it a management request
    ([nip86.IsManagementRequest]), its method, where it comes from. *)
Definition ipGate (m : relayModeration) (management : bool) (method remoteAddr : string) : bool :=
  negb management && negb (String.eqb method "OPTIONS") && ipBlocked m remoteAddr.

Record Metadata := mkMetadata { nip11_Name : string; nip11_Description : string; nip11_Icon : string }.

Definition applyNip11 (m : relayModeration) (md : Metadata) : Metadata :=
  mkMetadata (default (nip11_Name md) (md_Name (m_state m)))
    (default (nip11_Description md) (md_Description (m_state m)))
    (default (nip11_Icon md) (md_Icon (m_state m))).

(** ** Requests *)

Record Request := mkRequest {
  rq_Params : nat;
  StringParam : nat -> result merr string;
  IntParam : nat -> result merr Z;
}.

Inductive reasonEntry :=
| PubkeyEntry (pubkey reason : string)
| IDEntry (id reason : string)
| IPEntry (ip reason : string).

Definition optionalReason (req : Request) (i : nat) : result merr string :=
  if Nat.leb (rq_Params req) i then Ok ""%string else StringParam req i.

Definition sortedEntries (m : gmap string string) (row : string -> string -> reasonEntry) : list reasonEntry :=
  let keys := merge_sort String.le (map_to_list m).*1 in
  (fun k => row k (default ""%string (m !! k))) <$> keys.

Definition ErrWrongParamType : string := "wrong param type".

Definition eventIDParam (req : Request) : result merr string :=
  id ← StringParam req 0;
  let id := ToLower id in
  if negb (Nat.eqb (String.length id) 64) || negb (all_bytes is_hex_byte id)
  then Err (ErrWrongParamType ++ ": param 0 is not a hex event id")%string
  else Ok id.

Definition kindParam (req : Request) : result merr Z :=
  kind ← IntParam req 0;
  if (kind <? 0) || (65535 <? kind)
  then Err (ErrWrongParamType ++ ": kind " ++ pretty kind ++ " is out of range")%string
  else Ok kind.

Definition ipParam (req : Request) : result merr string :=
  raw ← StringParam req 0;
  match ParseIP (TrimSpace raw) with
  | None => Err (ErrWrongParamType ++ ": param 0 is not an IP address")%string
  | Some ip => Ok (IP_String ip)
  end.

(** ** The methods *)

Inductive method :=
| BanPubkey | UnbanPubkey | ListBannedPubkeys
| BanEvent | AllowEvent | ListBannedEvents | ListEventsNeedingModeration
| ChangeRelayName | ChangeRelayDescription | ChangeRelayIcon
| AllowKind | DisallowKind | ListAllowedKinds | ListDisallowedKinds
| BlockIP | UnblockIP | ListBlockedIPs.

(** What a method answers. *)
Inductive any := RTrue | REntries (es : list reasonEntry) | RKinds (ks : list Z).

Definition set_pubkeys (f : gmap string string -> gmap string string) (s : moderationState) : moderationState :=
  mkModeration (f (BannedPubkeys s)) (BannedEvents s) (AllowedKinds s) (DisallowedKinds s) (BlockedIPs s)
    (md_Name s) (md_Description s) (md_Icon s).
Definition set_events (f : gmap string string -> gmap string string) (s : moderationState) : moderationState :=
  mkModeration (BannedPubkeys s) (f (BannedEvents s)) (AllowedKinds s) (DisallowedKinds s) (BlockedIPs s)
    (md_Name s) (md_Description s) (md_Icon s).
Definition set_ips (f : gmap string string -> gmap string string) (s : moderationState) : moderationState :=
  mkModeration (BannedPubkeys s) (BannedEvents s) (AllowedKinds s) (DisallowedKinds s) (f (BlockedIPs s))
    (md_Name s) (md_Description s) (md_Icon s).
Definition set_kinds (allowed disallowed : list Z) (s : moderationState) : moderationState :=
  mkModeration (BannedPubkeys s) (BannedEvents s) allowed disallowed (BlockedIPs s)
    (md_Name s) (md_Description s) (md_Icon s).

(** [slices.DeleteFunc] of one kind; [append] and [slices.Sort] unless it is
    there. *)
Definition delete_kind (k : Z) (ks : list Z) : list Z := filter (fun x => x <> k) ks.
Definition insert_kind (k : Z) (ks : list Z) : list Z :=
  if contains ks k then ks else merge_sort Z.le (ks ++ [k]).

(** The changes the methods make. *)
Inductive change :=
| ChBan (pubkey reason : string)
| ChUnban (pubkey : string)
| ChBanEvent (id reason : string)
| ChAllowEvent (id : string)
| ChAllowKind (k : Z)
| ChDisallowKind (k : Z)
| ChBlock (ip reason : string)
| ChUnblock (ip : string)
| ChName (v : string)
| ChDescription (v : string)
| ChIcon (v : string).

Definition apply_change (c : change) (s : moderationState) : moderationState :=
  match c with
  | ChBan pk r => set_pubkeys (fun m => <[pk := r]> m) s
  | ChUnban pk => set_pubkeys (delete pk) s
  | ChBanEvent id r => set_events (fun m => <[id := r]> m) s
  | ChAllowEvent id => set_events (delete id) s
  | ChAllowKind k => set_kinds (insert_kind k (AllowedKinds s)) (delete_kind k (DisallowedKinds s)) s
  | ChDisallowKind k => set_kinds (delete_kind k (AllowedKinds s)) (insert_kind k (DisallowedKinds s)) s
  | ChBlock ip r => set_ips (fun m => <[ip := r]> m) s
  | ChUnblock ip => set_ips (delete ip) s
  | ChName v => mkModeration (BannedPubkeys s) (BannedEvents s) (AllowedKinds s) (DisallowedKinds s) (BlockedIPs s)
                  (Some v) (md_Description s) (md_Icon s)
  | ChDescription v => mkModeration (BannedPubkeys s) (BannedEvents s) (AllowedKinds s) (DisallowedKinds s) (BlockedIPs s)
                  (md_Name s) (Some v) (md_Icon s)
  | ChIcon v => mkModeration (BannedPubkeys s) (BannedEvents s) (AllowedKinds s) (DisallowedKinds s) (BlockedIPs s)
                  (md_Name s) (md_Description s) (Some v)
  end.

Section Methods.
Context `{ModCodec} {W : Type}.
Variable ParsePublicKey : string -> result merr string.
(** [store.FindEvents] by id and [store.DeleteAll]. *)
Variable FindEvents : W -> string -> result merr (list Event).
Variable DeleteAll : W -> list Event -> option merr * W.

(** What a method that changes the state makes of its parameters. *)
Definition change_of (self : string) (meth : method) (req : Request) : option (result merr change) :=
  match meth with
  | BanPubkey => Some (
      raw ← StringParam req 0;
      pubkey ← ParsePublicKey raw;
      refuse_if (String.eqb pubkey self) "the relay's own key can't be banned"%string;;
      reason ← optionalReason req 1;
      Ok (ChBan pubkey reason))
  | UnbanPubkey => Some (
      raw ← StringParam req 0;
      pubkey ← ParsePublicKey raw;
      Ok (ChUnban pubkey))
  | BanEvent => Some (
      id ← eventIDParam req;
      reason ← optionalReason req 1;
      Ok (ChBanEvent id reason))
  | AllowEvent => Some (id ← eventIDParam req; Ok (ChAllowEvent id))
  | ChangeRelayName => Some (v ← StringParam req 0; Ok (ChName v))
  | ChangeRelayDescription => Some (v ← StringParam req 0; Ok (ChDescription v))
  | ChangeRelayIcon => Some (v ← StringParam req 0; Ok (ChIcon v))
  | AllowKind => Some (kind ← kindParam req; Ok (ChAllowKind kind))
  | DisallowKind => Some (kind ← kindParam req; Ok (ChDisallowKind kind))
  | BlockIP => Some (
      ip ← ipParam req;
      reason ← optionalReason req 1;
      Ok (ChBlock ip reason))
  | UnblockIP => Some (ip ← ipParam req; Ok (ChUnblock ip))
  | _ => None
  end.

(** [banevent] deletes the stored event; the others leave the store alone. *)
Definition after_change (c : change) (w : W) : option merr * W :=
  match c with
  | ChBanEvent id _ =>
      match FindEvents w id with
      | Err e => (Some e, w)
      | Ok [] => (None, w)
      | Ok pes => DeleteAll w pes
      end
  | _ => (None, w)
  end.

Definition list_of (s : moderationState) (meth : method) : any :=
  match meth with
  | ListBannedPubkeys => REntries (sortedEntries (BannedPubkeys s) PubkeyEntry)
  | ListBannedEvents => REntries (sortedEntries (BannedEvents s) IDEntry)
  | ListEventsNeedingModeration => REntries []
  | ListAllowedKinds => RKinds (AllowedKinds s)
  | ListDisallowedKinds => RKinds (DisallowedKinds s)
  | ListBlockedIPs => REntries (sortedEntries (BlockedIPs s) IPEntry)
  | _ => RTrue
  end.

(** One call of a method registered by [registerModerationMethods]. *)
Definition serve (o : save_outcome) (meth : method) (req : Request) (m : relayModeration) (d : disk) (w : W)
    : result merr any * relayModeration * disk * W :=
  match change_of (m_self m) meth req with
  | None => (Ok (list_of (m_state m) meth), m, d, w)
  | Some (Err e) => (Err e, m, d, w)
  | Some (Ok c) =>
      let '(err, m, d) := update o m d (apply_change c) in
      match err with
      | Some e => (Err e, m, d, w)
      | None =>
          let '(err, w) := after_change c w in
          (match err with Some e => Err e | None => Ok RTrue end, m, d, w)
      end
  end.
End Methods.
