(* ===== verification/RelayModerationFacts.v ===== *)
(** * Moderation survives and means what was asked last

    [moderation_refines]: in every run with failing saves, crashes and restarts
    the moderation in memory and the one on disk are the changes whose file was
    put in place, in order: those that were acknowledged, and besides them only
    bans of events that could not be deleted and changes a crash interrupted.
    [moderation_policy]: what is refused is decided by the last change about it. *)
From S2P Require Import Prelude GoTime GoStrings GoNet Nostr.
From S2P Require Import RelayModeration.
From Stdlib Require Import Ascii.
From stdpp Require Import sorting options.

Local Open Scope Z_scope.

(** ** Runs *)

(** The moderation after some changes. *)
Definition changed (cs : list change) : moderationState := foldl (fun s c => apply_change c s) no_moderation cs.

Lemma changed_snoc cs c : changed (cs ++ [c]) = apply_change c (changed cs).
Proof. unfold changed. by rewrite foldl_app. Qed.

Section Runs.
Context `{C : ModCodec} {W : Type}.
Variable ParsePublicKey : string -> result merr string.
Variable FindEvents : W -> string -> result merr (list Event).
Variable DeleteAll : W -> list Event -> option merr * W.
Variables path self : string.

(** The relay's process, when it runs, the disk and the store. *)
Record world := mkWorld { w_proc : option relayModeration; w_disk : disk; w_store : W }.

Inductive mevent :=
| MCall (o : save_outcome) (meth : method) (req : Request)
| MCrash
| MCrashIn (meth : method) (req : Request) (renamed deleted : bool) (torn : option string)
| MStart (unreadable : option merr).

Local Abbreviation change_of := (change_of ParsePublicKey).

(** A crash during a call leaves the old file or the new one. *)
Definition mstep (w : world) (e : mevent) : world :=
  match e, w_proc w with
  | MCall o meth req, Some m =>
      let '(_, m, d, st) := serve ParsePublicKey FindEvents DeleteAll o meth req m (w_disk w) (w_store w) in
      mkWorld (Some m) d st
  | MCrash, _ => mkWorld None (w_disk w) (w_store w)
  | MCrashIn meth req renamed deleted torn, Some m =>
      match change_of (m_self m) meth req with
      | Some (Ok c) =>
          if renamed
          then mkWorld None (mkDisk (Some (mod_Marshal (apply_change c (m_state m)))) None)
                 (if deleted then (after_change FindEvents DeleteAll c (w_store w)).2 else w_store w)
          else mkWorld None (mkDisk (d_file (w_disk w)) torn) (w_store w)
      | _ => mkWorld None (w_disk w) (w_store w)
      end
  | MStart unreadable, None =>
      match loadModeration path self unreadable (w_disk w) with
      | Ok m => mkWorld (Some m) (w_disk w) (w_store w)
      | Err _ => w
      end
  | _, _ => w
  end.

(** What became of a change whose file is in place: it was acknowledged; the
    banned event could not be deleted from the store and the answer was that
    error; a crash came before the answer. *)
Inductive fate := Acknowledged | Undeleted | Interrupted.

Definition taken (w : world) (e : mevent) : list (change * fate) :=
  match e, w_proc w with
  | MCall SaveWorks meth req, Some m =>
      match change_of (m_self m) meth req with
      | Some (Ok c) => [(c, match (after_change FindEvents DeleteAll c (w_store w)).1 with None => Acknowledged | Some _ => Undeleted end)]
      | _ => []
      end
  | MCrashIn meth req true _ _, Some m =>
      match change_of (m_self m) meth req with Some (Ok c) => [(c, Interrupted)] | _ => [] end
  | _, _ => []
  end.

Definition mrun (w : world) (es : list mevent) : world * list (change * fate) :=
  foldl (fun s e => (mstep s.1 e, s.2 ++ taken s.1 e)) (w, []) es.

Definition fresh_world (st : W) : world := mkWorld None (mkDisk None None) st.

(** Disk and memory hold the same moderation. *)
Definition agrees (w : world) (cs : list change) : Prop :=
  (forall m, w_proc w = Some m -> m = mkRelayModeration (ToLower self) (changed cs)) /\
  match d_file (w_disk w) with
  | None => changed cs = no_moderation
  | Some data => data = mod_Marshal (changed cs)
  end.

Context {L : ModCodecLaws C}.

Lemma agrees_load w cs unreadable m :
  agrees w cs -> loadModeration path self unreadable (w_disk w) = Ok m -> m = mkRelayModeration (ToLower self) (changed cs).
Proof using L.
  intros [_ Hd]. unfold loadModeration. destruct unreadable; [done|]. destruct (d_file (w_disk w)) as [data|].
  - subst data. rewrite mod_roundtrip. by intros [= <-].
  - rewrite Hd. by intros [= <-].
Qed.

Lemma agrees_loads w cs :
  agrees w cs -> loadModeration path self None (w_disk w) = Ok (mkRelayModeration (ToLower self) (changed cs)).
Proof using L.
  intros [_ Hd]. unfold loadModeration. destruct (d_file (w_disk w)) as [data|].
  - subst data. by rewrite mod_roundtrip.
  - by rewrite Hd.
Qed.

Lemma mstep_agrees w cs e : agrees w cs -> agrees (mstep w e) (cs ++ (taken w e).*1).
Proof using L.
  intros Ha. pose proof Ha as [Hm Hd]. unfold mstep, taken. destruct e as [o meth req| |meth req renamed deleted torn|unreadable].
  - destruct (w_proc w) as [m|] eqn:Ep; [|by destruct o; cbn [fmap list_fmap]; rewrite app_nil_r].
    specialize (Hm m eq_refl) as ->. unfold serve.
    destruct (change_of _ meth req) as [[c|e]|]; cbn [m_self m_state]; [| |].
    + unfold update, save. destruct o; cbn [m_self m_state].
      * destruct (after_change _ _ c (w_store w)) as [err st']. split; cbn [w_proc w_disk d_file fmap list_fmap fst].
        -- intros m [= <-]. by rewrite changed_snoc.
        -- by rewrite changed_snoc.
      * cbn [fmap list_fmap]; rewrite app_nil_r. split; [by intros m [= <-]|done].
      * cbn [fmap list_fmap]; rewrite app_nil_r. split; [by intros m [= <-]|done].
      * cbn [fmap list_fmap]; rewrite app_nil_r. split; [by intros m [= <-]|done].
    + destruct o; cbn [fmap list_fmap]; rewrite app_nil_r; (split; [by intros m [= <-]|done]).
    + destruct o; cbn [fmap list_fmap]; rewrite app_nil_r; (split; [by intros m [= <-]|done]).
  - destruct (w_proc w); cbn [fmap list_fmap]; rewrite app_nil_r; by split.
  - destruct (w_proc w) as [m|] eqn:Ep; [|by destruct renamed; cbn [fmap list_fmap]; rewrite app_nil_r].
    specialize (Hm m eq_refl) as ->. cbn [m_self m_state].
    destruct (change_of _ meth req) as [[c|e]|]; destruct renamed; cbn [fmap list_fmap]; rewrite ?app_nil_r; split; try done.
    cbn [w_disk d_file fst]. by rewrite changed_snoc.
  - destruct (w_proc w) as [m|] eqn:Ep; cbn [fmap list_fmap]; rewrite app_nil_r; [done|].
    destruct (loadModeration path self unreadable (w_disk w)) as [m|e] eqn:El; [|done].
    split; [|done]. intros m' [= <-]. by eapply agrees_load.
Qed.

Lemma mrun_agrees w es : agrees w [] -> agrees (mrun w es).1 (mrun w es).2.*1.
Proof using L.
  intros Ha. induction es as [|e es IH] using rev_ind; [done|].
  unfold mrun in *. rewrite foldl_app. cbn [foldl fst snd]. rewrite fmap_app. by apply mstep_agrees.
Qed.

(** C29: in every run from a new relay, with saves that fail at any call, crashes
    between and during requests and restarts, the moderation is the changes
    whose file was put in place, in order: a running relay has it in memory, and
    a relay started now reads it from disk.  A request is answered with success
    exactly when its change is in place and acknowledged; one answered with an
    error has changed nothing, except a ban of an event whose deletion from the
    store failed, which stays.  Besides these only a change a crash interrupted
    after the rename is in place. *)
Theorem moderation_refines (st : W) (es : list mevent) :
  (forall m, w_proc (mrun (fresh_world st) es).1 = Some m ->
     m = mkRelayModeration (ToLower self) (changed (mrun (fresh_world st) es).2.*1)) /\
  loadModeration path self None (w_disk (mrun (fresh_world st) es).1) =
    Ok (mkRelayModeration (ToLower self) (changed (mrun (fresh_world st) es).2.*1)) /\
  (forall o meth req m, w_proc (mrun (fresh_world st) es).1 = Some m ->
     let w := (mrun (fresh_world st) es).1 in
     let e := MCall o meth req in
     let answer := (serve ParsePublicKey FindEvents DeleteAll o meth req m (w_disk w) (w_store w)).1.1.1 in
     match change_of (m_self m) meth req with
     | Some (Ok c) =>
         (answer = Ok RTrue <-> taken w e = [(c, Acknowledged)]) /\
         (forall err, answer = Err err ->
            (taken w e = [] /\ w_proc (mstep w e) = Some m /\ d_file (w_disk (mstep w e)) = d_file (w_disk w) /\
             w_store (mstep w e) = w_store w) \/
            (taken w e = [(c, Undeleted)] /\ (exists id reason, c = ChBanEvent id reason) /\
             (after_change FindEvents DeleteAll c (w_store w)).1 = Some err))
     | Some (Err err) => answer = Err err /\ mstep w e = w /\ taken w e = []
     | None => mstep w e = w /\ taken w e = []
     end).
Proof using L.
  assert (Ha : agrees (mrun (fresh_world st) es).1 (mrun (fresh_world st) es).2.*1) by (apply mrun_agrees; by split).
  split; [apply Ha|]. split; [by apply agrees_loads|].
  intros o meth req m Hm. cbn zeta. unfold mstep, taken. rewrite Hm.
  destruct (mrun (fresh_world st) es).1 as [p d w]. cbn [w_proc w_disk w_store] in *. subst p. unfold serve.
  destruct (change_of (m_self m) meth req) as [[c|e]|]; [|by destruct o|by destruct o].
  unfold update, save. destruct o; cbn [fst snd];
    [|split; [split; discriminate|]; intros err _; left; cbn; destruct m; by split_and!..].
  destruct (after_change FindEvents DeleteAll c w) as [[err|] w'] eqn:Ec; cbn [fst snd]; (split; [split; done || discriminate|]); [|done].
  intros err' [= <-]. right. split; [done|]. split; [|done]. destruct c; try done. by eexists _, _.
Qed.
End Runs.

(** ** The last word *)

(** What the last change about something said. *)
Definition last_word (f : change -> option bool) (cs : list change) : option bool := last (omap f cs).

Definition about_pubkey (pk : string) (c : change) : option bool :=
  match c with
  | ChBan p _ => if String.eqb p pk then Some true else None
  | ChUnban p => if String.eqb p pk then Some false else None
  | _ => None
  end.

Definition about_event (id : string) (c : change) : option bool :=
  match c with
  | ChBanEvent i _ => if String.eqb i id then Some true else None
  | ChAllowEvent i => if String.eqb i id then Some false else None
  | _ => None
  end.

Definition about_ip (ip : string) (c : change) : option bool :=
  match c with
  | ChBlock i _ => if String.eqb i ip then Some true else None
  | ChUnblock i => if String.eqb i ip then Some false else None
  | _ => None
  end.

(** [true] for allowed, [false] for disallowed. *)
Definition about_kind (k : Z) (c : change) : option bool :=
  match c with
  | ChAllowKind x => if x =? k then Some true else None
  | ChDisallowKind x => if x =? k then Some false else None
  | _ => None
  end.

Lemma last_word_snoc f cs c :
  last_word f (cs ++ [c]) = match f c with Some b => Some b | None => last_word f cs end.
Proof.
  unfold last_word. rewrite omap_app. cbn [omap list_omap]. destruct (f c); [by rewrite last_snoc|by rewrite app_nil_r].
Qed.

(** A map kept by insertions and deletions has what was inserted last. *)
Lemma map_last_word (get : moderationState -> gmap string string) (f : change -> option bool) k :
  is_Some (get no_moderation !! k) <-> False ->
  (forall c s, match f c with
     | Some b => is_Some (get (apply_change c s) !! k) <-> b = true
     | None => get (apply_change c s) !! k = get s !! k
     end) ->
  forall cs, is_Some (get (changed cs) !! k) <-> last_word f cs = Some true.
Proof.
  intros H0 Hstep cs. induction cs as [|c cs IH] using rev_ind.
  - unfold changed. cbn [foldl]. rewrite H0. split; [done|]. by unfold last_word; cbn.
  - rewrite changed_snoc, last_word_snoc. specialize (Hstep c (changed cs)). destruct (f c) as [b|].
    + rewrite Hstep. split; [by intros ->|by intros [= ->]].
    + by rewrite Hstep.
Qed.

Local Ltac last_word_map get f k :=
  apply (map_last_word get f k); [cbn; rewrite lookup_empty; split; [by intros [? ?]|done]|];
  intros c s; destruct c; cbn; try done;
  match goal with |- context [String.eqb ?x ?y] => destruct (String.eqb_spec x y) as [->|Hn] end;
  rewrite ?lookup_insert_eq, ?lookup_delete_eq, ?lookup_insert_ne, ?lookup_delete_ne by done; try done;
  split; try done; (eauto || by intros [? ?]).

Lemma pubkey_last_word pk cs : is_Some (BannedPubkeys (changed cs) !! pk) <-> last_word (about_pubkey pk) cs = Some true.
Proof. revert cs. last_word_map BannedPubkeys (about_pubkey pk) pk. Qed.

Lemma event_last_word id cs : is_Some (BannedEvents (changed cs) !! id) <-> last_word (about_event id) cs = Some true.
Proof. revert cs. last_word_map BannedEvents (about_event id) id. Qed.

Lemma ip_last_word ip cs : is_Some (BlockedIPs (changed cs) !! ip) <-> last_word (about_ip ip) cs = Some true.
Proof. revert cs. last_word_map BlockedIPs (about_ip ip) ip. Qed.

Lemma contains_elem ks k : contains ks k = true <-> k ∈ ks.
Proof. unfold contains. rewrite existsb_elem. setoid_rewrite Z.eqb_eq. naive_solver. Qed.

Lemma insert_kind_elem k ks x : x ∈ insert_kind k ks <-> x = k \/ x ∈ ks.
Proof.
  unfold insert_kind. destruct (contains ks k) eqn:E.
  - apply contains_elem in E. naive_solver.
  - rewrite (merge_sort_Permutation Z.le), elem_of_app, list_elem_of_singleton. tauto.
Qed.

Lemma delete_kind_elem k ks x : x ∈ delete_kind k ks <-> x <> k /\ x ∈ ks.
Proof. unfold delete_kind. by rewrite list_elem_of_filter. Qed.

(** Sorted lists of kinds without duplicates. *)
Definition strictly_sorted (ks : list Z) : Prop := StronglySorted Z.lt ks.

Lemma delete_kind_sorted k ks : strictly_sorted ks -> strictly_sorted (delete_kind k ks).
Proof.
  unfold delete_kind. induction 1 as [|x ks Hs IH Hall]; [constructor|]. rewrite filter_cons.
  destruct (decide (x <> k)); [|done]. constructor; [done|].
  apply Forall_forall. intros y [_ Hy]%list_elem_of_filter. by eapply Forall_forall in Hall.
Qed.

Lemma strictly_sorted_NoDup ks : strictly_sorted ks -> NoDup ks.
Proof.
  induction 1 as [|x ks Hs IH Hall]; constructor; [|done].
  intros Hx. eapply Forall_forall in Hall; [|done]. lia.
Qed.

Lemma le_sorted_strict ks : StronglySorted Z.le ks -> NoDup ks -> strictly_sorted ks.
Proof.
  induction 1 as [|x ks Hs IH Hall]; [constructor|]. intros [Hx Hn]%NoDup_cons. constructor; [by apply IH|].
  rewrite Forall_forall in Hall |- *. intros y Hy. specialize (Hall y Hy). assert (x <> y) by (by intros ->). lia.
Qed.

Lemma insert_kind_sorted k ks : strictly_sorted ks -> strictly_sorted (insert_kind k ks).
Proof.
  intros Hs. unfold insert_kind. destruct (contains ks k) eqn:E; [done|].
  apply le_sorted_strict; [apply (StronglySorted_merge_sort Z.le)|].
  rewrite (merge_sort_Permutation Z.le). apply NoDup_app. split_and!.
  - by apply strictly_sorted_NoDup.
  - intros x Hx ->%list_elem_of_singleton. apply contains_elem in Hx. congruence.
  - apply NoDup_singleton.
Qed.

(** The kind lists: what was said last about a kind, in order. *)
Lemma kinds_last_word cs :
  strictly_sorted (AllowedKinds (changed cs)) /\ strictly_sorted (DisallowedKinds (changed cs)) /\
  forall k, (k ∈ AllowedKinds (changed cs) <-> last_word (about_kind k) cs = Some true) /\
            (k ∈ DisallowedKinds (changed cs) <-> last_word (about_kind k) cs = Some false).
Proof.
  induction cs as [|c cs (IHa & IHd & IHk)] using rev_ind.
  { split_and!; [constructor|constructor|]. intros k. cbn. rewrite elem_of_nil. unfold last_word. by cbn. }
  rewrite changed_snoc. setoid_rewrite last_word_snoc.
  destruct c as [| | | |x|x| | | | |]; cbn [apply_change set_pubkeys set_events set_kinds set_ips AllowedKinds DisallowedKinds about_kind];
    try (split_and!; done).
  - split_and!; [by apply insert_kind_sorted|by apply delete_kind_sorted|]. intros k.
    rewrite insert_kind_elem, delete_kind_elem. destruct (IHk k) as [-> ->]. destruct (Z.eqb_spec x k); naive_solver.
  - split_and!; [by apply delete_kind_sorted|by apply insert_kind_sorted|]. intros k.
    rewrite insert_kind_elem, delete_kind_elem. destruct (IHk k) as [-> ->]. destruct (Z.eqb_spec x k); naive_solver.
Qed.

Lemma has_true m k : has m k = true <-> is_Some (m !! k).
Proof. unfold has. by rewrite bool_decide_eq_true. Qed.

Lemma nonempty_length {A} (l : list A) : Nat.ltb 0 (length l) = true <-> exists x, x ∈ l.
Proof.
  destruct l as [|x l]; cbn; [|split; [intros _; exists x; by left|done]].
  split; [done|]. by intros (x & Hx%elem_of_nil).
Qed.

(** C30: after any changes an event is refused exactly when it is not the relay's
    own and the last word about its author, about its id or about its kind was
    against it, or some kind's last word allows it and this one's does not; the
    lists of kinds are sorted, without duplicates and disjoint; and a request is
    stopped exactly when it is neither a management nor a preflight request and
    comes from an address that parses as an IP whose last word was a block (one
    with a zone does not parse, [zone_escapes_block]). *)
Theorem moderation_policy (self : string) (cs : list change) :
  (forall ev, eventPolicy (Some (mkRelayModeration self (changed cs))) (Some ev) <> ""%string <->
     ~ (self <> ""%string /\ ToLower (ev_PubKey ev) = self) /\
     (last_word (about_pubkey (ToLower (ev_PubKey ev))) cs = Some true \/
      last_word (about_event (ToLower (ev_ID ev))) cs = Some true \/
      last_word (about_kind (ev_Kind ev)) cs = Some false \/
      ((exists k, last_word (about_kind k) cs = Some true) /\ last_word (about_kind (ev_Kind ev)) cs <> Some true))) /\
  strictly_sorted (AllowedKinds (changed cs)) /\ strictly_sorted (DisallowedKinds (changed cs)) /\
  (forall k, k ∈ AllowedKinds (changed cs) -> k ∉ DisallowedKinds (changed cs)) /\
  (forall management meth addr, ipGate (mkRelayModeration self (changed cs)) management meth addr = true <->
     management = false /\ meth <> "OPTIONS"%string /\
     exists ip, ParseIP (match SplitHostPort addr with Ok (host, _) => host | Err _ => addr end) = Some ip /\
                last_word (about_ip (IP_String ip)) cs = Some true).
Proof.
  destruct (kinds_last_word cs) as (Ha & Hd & Hk).
  split; [|split; [done|split; [done|split]]].
  - intros ev. unfold eventPolicy. cbn [m_self m_state].
    assert (Hself : negb (is_empty self) && String.eqb (ToLower (ev_PubKey ev)) self = true <->
                    self <> ""%string /\ ToLower (ev_PubKey ev) = self).
    { rewrite andb_true_iff, negb_true_iff, String.eqb_eq. destruct self; cbn; naive_solver. }
    destruct (negb (is_empty self) && _) eqn:Es.
    { split; [done|]. intros [Hn _]. exfalso. by apply Hn, Hself. }
    assert (Hns : ~ (self <> ""%string /\ ToLower (ev_PubKey ev) = self)) by (by rewrite <- Hself).
    rewrite <- pubkey_last_word, <- event_last_word, <- !has_true.
    setoid_rewrite <- (fun k => proj1 (Hk k)). rewrite <- (proj2 (Hk (ev_Kind ev))).
    rewrite <- nonempty_length, <- !contains_elem.
    destruct (has _ _) eqn:E1; [split; [intros _; tauto|done]|].
    destruct (has (BannedEvents _) _) eqn:E2; [split; [intros _; tauto|done]|].
    destruct (contains (DisallowedKinds _) _) eqn:E3; cbn [orb]; [split; [intros _; tauto|done]|].
    destruct (Nat.ltb 0 _) eqn:E4; destruct (contains (AllowedKinds _) _) eqn:E5; cbn [andb negb];
      split; try done; try (intros _; tauto); intuition congruence.
  - intros k H1%Hk H2%Hk. congruence.
  - intros management meth addr. unfold ipGate, ipBlocked. cbn [m_state]. rewrite !andb_true_iff, !negb_true_iff, String.eqb_neq.
    destruct (ParseIP _) as [ip|].
    + rewrite has_true, ip_last_word. split; [naive_solver|]. intros (? & ? & ? & [= <-] & ?). naive_solver.
    + split; [naive_solver|]. intros (? & ? & ? & ? & ?). done.
Qed.

(** ** Instances *)

(** A codec of the state. *)
Definition mod_tuple (s : moderationState) :=
  (BannedPubkeys s, BannedEvents s, AllowedKinds s, DisallowedKinds s, BlockedIPs s, (md_Name s, md_Description s, md_Icon s)).

Definition mod_of_tuple (t : gmap string string * gmap string string * list Z * list Z * gmap string string *
                             (option string * option string * option string)) : moderationState :=
  let '(a, b, c, d, e, (f, g, h)) := t in mkModeration a b c d e f g h.

#[export] Instance ex_codec : ModCodec := {|
  mod_Marshal s := text_of (mod_tuple s);
  mod_Unmarshal s := match of_text s with Some t => Ok (mod_of_tuple t) | None => Err "bad"%string end;
|}.

#[export] Instance ex_codec_laws : ModCodecLaws ex_codec.
Proof. split. intros s. cbn. rewrite of_text_of. by destruct s. Qed.

Definition ex_request (s : string) (k : Z) : Request := mkRequest 1 (fun _ => Ok s) (fun _ => Ok k).

Definition ex_key (s : string) : result merr string := Ok s.
Definition ex_find (_ : unit) (_ : string) : result merr (list Event) := Ok [].
Definition ex_delete (w : unit) (_ : list Event) : option merr * unit := (None, w).

(** A ban, a ban whose save fails, a crash after the file of another was
    renamed, and the restart. *)
Definition ex_events : list mevent :=
  [MStart None;
   MCall SaveWorks BanPubkey (ex_request "aa" 0);
   MCall (RenameFails "no space") BanPubkey (ex_request "bb" 0);
   MCrashIn AllowKind (ex_request "" 7) true false None;
   MStart None].

Lemma moderation_refines_witness :
  w_proc (mrun ex_key ex_find ex_delete "db" "ff" (fresh_world tt) ex_events).1 =
    Some (mkRelayModeration "ff" (changed [ChBan "aa" ""; ChAllowKind 7])) /\
  loadModeration "db" "ff" None (w_disk (mrun ex_key ex_find ex_delete "db" "ff" (fresh_world tt) ex_events).1) =
    Ok (mkRelayModeration "ff" (changed [ChBan "aa" ""; ChAllowKind 7])).
Proof.
  destruct (moderation_refines (L := ex_codec_laws) ex_key ex_find ex_delete "db" "ff" tt ex_events) as (Hm & Hl & _).
  assert (Hcs : (mrun ex_key ex_find ex_delete "db" "ff" (fresh_world tt) ex_events).2.*1 = [ChBan "aa" ""; ChAllowKind 7])
    by (vm_compute; reflexivity).
  rewrite Hcs in Hm, Hl. split; [|exact Hl].
  destruct (w_proc (mrun ex_key ex_find ex_delete "db" "ff" (fresh_world tt) ex_events).1) as [m|] eqn:E.
  - by rewrite (Hm m eq_refl).
  - vm_compute in E. discriminate E.
Defined.

Definition ex_event (kind : Z) : Event := mkEvent "id" "aa" 0 kind [] "" "".

(** Disallowing the only allowed kind admits every other kind: with no kind
    left on it the list of allowed kinds stops excluding. *)
Example disallow_opens :
  eventPolicy (Some (mkRelayModeration "ff" (changed [ChAllowKind 7]))) (Some (ex_event 1)) =
    "blocked: kind 1 is not allowed on this relay"%string /\
  eventPolicy (Some (mkRelayModeration "ff" (changed [ChAllowKind 7; ChDisallowKind 7]))) (Some (ex_event 1)) = ""%string.
Proof. vm_compute. done. Qed.

(** A link-local address is blocked without its zone, but a connection from it
    has one, and is let through. *)
Example zone_escapes_block :
  ipGate (mkRelayModeration "ff" (changed [ChBlock "fe80::1" ""])) false "GET" "[fe80::1]:4000" = true /\
  ipGate (mkRelayModeration "ff" (changed [ChBlock "fe80::1" ""])) false "GET" "[fe80::1%eth0]:4000" = false /\
  ipParam (ex_request "fe80::1%eth0" 0) = Err "wrong param type: param 0 is not an IP address"%string.
Proof. vm_compute. done. Qed.
