(* ===== verification/RelayMembership.v ===== *)
(** * The relay's members, invites and roles, and who may manage them

    Models [src/cli/relay/membership_admin.go] (the operations behind both
    surfaces), [service_nip86.go] (the NIP-86 methods, who is admitted and what
    a member may call) and [service_membership.go] (the REST handlers), composed
    with the moderation methods of [RelayModeration].

    The relay of the nmilat library is a parameter: its membership service and
    event store are the operations of [MemberStore] over a state [W], its NIP-43
    events [Nip43], and [runs] says whether [nip86.Handler] runs a method for a
    verified caller.  [MemberModel] states what is relied on.  Handlers run one
    after the other; [invite_check] and [invite_put] are the two transactions of
    issuing under a chosen code, for the interleavings at the end.

    Proved: [invites_exact] (which requests issue invites, within which limits,
    and that no other request touches one) and [member_confined] (a caller that
    is no administrator changes nothing but adding invites, if it is a member);
    [setMemberRoles_exact] for roles and [checked_config] for the limits of a
    configuration that starts.  The last section has the settings of
    [service_community.go] and whom its Blossom server admits. *)
From S2P Require Import Prelude GoTime GoStrings GoFormat GoDuration Nostr.
From S2P Require Import RelayModeration.
From stdpp Require Import options.
From Stdlib Require Import Ascii.

Local Open Scope Z_scope.

(** ** Data *)

(** What is used of [relay.MemberRecord] and [relay.InviteClaim]. *)
Record MemberRecord := mkMember { mr_Pubkey : string; mr_Roles : list string }.

Record InviteClaim := mkClaim {
  ic_Code : string;
  ic_CreatedAt : Z;
  ic_ExpiresAt : Z;
  ic_MaxUses : Z;
  ic_Uses : Z;
  ic_Roles : list string;
}.

(** [adminInputError], [errNotFound] and any other error. *)
Inductive aerr := BadInput (msg : string) | ErrNotFound | OtherErr (e : string).

Definition isBadInput (e : aerr) : bool := match e with BadInput _ => true | _ => false end.

Record roleJSON := mkRole {
  rj_ID : string;
  rj_Label : string;
  rj_Description : string;
  rj_Color : option Z;
  rj_Order : option Z;
}.

(** ** Configuration *)

Record MembershipConfig := mkMembership {
  mb_Enabled : bool;
  mb_InviteTTL : string;
  mb_InviteMaxUses : Z;
  mb_InviteAllowNoExpiry : bool;
  mb_InviteMaxTTL : string;
  mb_MemberClaims : option bool;
  mb_PublishAddRemoveEvents : bool;
}.

Record Nip86Config := mkNip86 { n86_Enabled : bool; n86_Admins : list string }.

Record RelayConfig := mkRelayConfig {
  rc_PubKey : string;
  rc_Self : string;
  rc_PrivKey : string;
  rc_Membership : option MembershipConfig;
  rc_Nip86 : option Nip86Config;
}.

(** ** Effects: the relay's state and an error *)

Definition act (W A : Type) : Type := W -> result aerr A * W.

#[export] Instance act_ret {W} : MRet (act W) := fun _ a w => (Ok a, w).
#[export] Instance act_bind {W} : MBind (act W) :=
  fun _ _ f m w => match m w with (Ok a, w) => f a w | (Err e, w) => (Err e, w) end.

Definition throw {W A} (e : aerr) : act W A := fun w => (Err e, w).
Definition reads {W A} (f : W -> result aerr A) : act W A := fun w => (f w, w).
Definition throw_if {W} (b : bool) (e : aerr) : act W unit := if b then throw e else mret ().
Definition from {W A} (m : result aerr A) : act W A := fun w => (m, w).

(** [relay.MembershipService], [relay.EventStore] and [room.Manager]: [Clock] is
    [time.Now], [NewClaim] [nip43.NewClaim], [QueryRoles] [QueryEvents] with the
    filter for role definitions of an author. *)
Class MemberStore (W : Type) := {
  Clock : W -> Z;
  IsMember : W -> string -> bool;
  Member_Get : string -> W -> result aerr (option MemberRecord);
  Member_List : W -> result aerr (list MemberRecord);
  Member_Join : string -> list string -> act W unit;
  Member_Leave : string -> act W unit;
  IssueInvite : Z -> Z -> list string -> act W InviteClaim;
  NewClaim : W -> string * W;
  GetInviteClaim : string -> W -> result aerr (option InviteClaim);
  PutInviteClaim : InviteClaim -> act W unit;
  DeleteInviteClaim : string -> act W unit;
  ListInviteClaims : W -> result aerr (list InviteClaim);
  QueryRoles : string -> W -> result aerr (list Event);
  InsertEvents : list Event -> act W unit;
  EvictPubkey : string -> W -> W;
}.

(** [utils.Validate32Key], the events of [nip43] and [nip09], [Event.Sign]. *)
Class Nip43 := {
  Validate32Key : string -> option string;
  NewAddUser : string -> string -> Event;
  NewRemoveUser : string -> string -> Event;
  ParseRole : Event -> option roleJSON;
  NewRoleDefinition : string -> roleJSON -> Event;
  NewDeletionEvent : string -> list (list string) -> Event;
  SignEvent : string -> Event -> result string Event;
}.

Section Membership.
Context {W : Type} `{MemberStore W} `{Nip43} (config : RelayConfig) (rooms : bool).

(** ** Settings *)

Definition defaultInviteTTL : Z := 24 * Hour.
Definition defaultInviteMaxTTL : Z := 720 * Hour.

Definition nip86Admins : list string :=
  (if is_empty (rc_PubKey config) then [] else [rc_PubKey config]) ++
  match rc_Nip86 config with Some c => n86_Admins c | None => [] end.

Definition nip86Enabled : bool := match rc_Nip86 config with Some c => n86_Enabled c | None => false end.
Definition membershipOn : bool := match rc_Membership config with Some c => mb_Enabled c | None => false end.

(** A duration that is set, parses and is positive, or the default. *)
Definition duration_or (text : string) (d : Z) : Z :=
  if is_empty text then d else
  match ParseDuration text with Some v => if 0 <? v then v else d | None => d end.

Definition membershipInviteTTL : Z :=
  match rc_Membership config with Some c => duration_or (mb_InviteTTL c) defaultInviteTTL | None => defaultInviteTTL end.

Definition membershipInviteMaxUses : Z := match rc_Membership config with Some c => mb_InviteMaxUses c | None => 0 end.

Definition membershipInviteMaxTTL : Z :=
  match rc_Membership config with Some c => duration_or (mb_InviteMaxTTL c) defaultInviteMaxTTL | None => defaultInviteMaxTTL end.

Definition membershipInviteAllowNoExpiry : bool :=
  match rc_Membership config with Some c => mb_InviteAllowNoExpiry c | None => false end.

Definition membershipMemberClaims : bool :=
  match rc_Membership config with Some c => default true (mb_MemberClaims c) | None => true end.

(** The check at startup, with the default it fills in. *)
Definition checkAndDefaultMembership : result string RelayConfig :=
  match rc_Membership config with
  | None => Ok config
  | Some c =>
      refuse_if (mb_Enabled c && is_empty (rc_PrivKey config)) "membership.enabled requires nip11.privkey"%string;;
      refuse_if (mb_InviteMaxUses c <? 0) "membership.inviteMaxUses must be >= 0"%string;;
      (if is_empty (mb_InviteMaxTTL c) then Ok () else
         match ParseDuration (mb_InviteMaxTTL c) with
         | None => Err "membership.inviteMaxTTL is not a valid duration"%string
         | Some d =>
             refuse_if (d <=? 0) "membership.inviteMaxTTL must be > 0"%string;;
             refuse_if (10 * 365 * 24 * Hour <? d) "membership.inviteMaxTTL must be <= 10 years"%string
         end);;
      Ok (mkRelayConfig (rc_PubKey config) (rc_Self config) (rc_PrivKey config)
            (Some (mkMembership (mb_Enabled c) (mb_InviteTTL c) (mb_InviteMaxUses c) (mb_InviteAllowNoExpiry c) (mb_InviteMaxTTL c)
                     (Some (default true (mb_MemberClaims c))) (mb_PublishAddRemoveEvents c)))
            (rc_Nip86 config))
  end.

(** [config.Membership.PublishAddRemoveEvents]: the handlers that read it run
    only with membership configured. *)
Definition publishAddRemove : bool :=
  match rc_Membership config with Some c => mb_PublishAddRemoveEvents c | None => false end.

(** ** Members *)

Definition checkPubkey (pubkey : string) : act W unit :=
  match Validate32Key pubkey with
  | Some e => throw (BadInput ("invalid pubkey: " ++ e))
  | None => mret ()
  end.

Definition listMembers : act W (list MemberRecord) := reads Member_List.

Definition getMember (pubkey : string) : act W (option MemberRecord) :=
  checkPubkey pubkey;; reads (Member_Get pubkey).

(** Failures are logged and ignored. *)
Definition publishMembershipAdminEvent (ev : Event) : act W unit :=
  if is_empty (rc_PrivKey config) then mret () else
  match SignEvent (rc_PrivKey config) ev with
  | Err _ => mret ()
  | Ok ev => fun w => (Ok (), (InsertEvents [ev] w).2)
  end.

Definition addMember (pubkey : string) (roles : list string) : act W (option MemberRecord) :=
  checkPubkey pubkey;;
  Member_Join pubkey roles;;
  (if publishAddRemove then publishMembershipAdminEvent (NewAddUser (rc_PubKey config) pubkey) else mret ());;
  reads (Member_Get pubkey).

Definition evictFromHuddles (pubkey : string) : act W unit :=
  if rooms then fun w => (Ok (), EvictPubkey pubkey w) else mret ().

Definition removeMember (pubkey : string) : act W unit :=
  checkPubkey pubkey;;
  Member_Leave pubkey;;
  (if publishAddRemove then publishMembershipAdminEvent (NewRemoveUser (rc_PubKey config) pubkey) else mret ());;
  evictFromHuddles pubkey.

(** ** Invites *)

Definition issueInvite (ttl maxUses : Z) (roles : list string) : act W InviteClaim :=
  throw_if (maxUses <? 0) (BadInput "max_uses must be >= 0");;
  IssueInvite ttl maxUses roles.

(** The first transaction of issuing under a chosen code: it is refused if it is
    there. *)
Definition invite_check (code : string) : act W unit :=
  existing ← reads (GetInviteClaim code);
  throw_if (match existing with Some _ => true | None => false end) (BadInput "that invite code already exists").

(** The second. *)
Definition invite_put (claim : InviteClaim) : act W InviteClaim :=
  PutInviteClaim claim;; mret claim.

Definition now_ : act W Z := fun w => (Ok (Clock w), w).

Definition issueInviteCode (code : string) (ttl maxUses : Z) (roles : list string) : act W InviteClaim :=
  if is_empty code then issueInvite ttl maxUses roles else
  throw_if (maxUses <? 0) (BadInput "max_uses must be >= 0");;
  invite_check code;;
  now ← now_;
  invite_put (mkClaim code (Time_Unix now) (Time_Unix (Time_Add now ttl)) maxUses 0 roles).

Definition issueInviteWithLimits (code : string) (expiresAt maxUses : Z) (roles : list string) : act W InviteClaim :=
  throw_if (is_empty code) (BadInput "invite code is required");;
  invite_check code;;
  now ← now_;
  invite_put (mkClaim code (Time_Unix now) expiresAt maxUses 0 roles).

Definition issueInviteGenerated (expiresAt maxUses : Z) (roles : list string) : act W InviteClaim :=
  throw_if (maxUses <? 0) (BadInput "max_uses must be >= 0");;
  code ← (fun w => let '(code, w) := NewClaim w in (Ok code, w));
  now ← now_;
  invite_put (mkClaim code (Time_Unix now) expiresAt maxUses 0 roles).

Definition listInvites : act W (list InviteClaim) := reads ListInviteClaims.

Definition live (now : Z) (c : InviteClaim) : bool :=
  negb ((0 <? ic_ExpiresAt c) && (ic_ExpiresAt c <? now)) &&
  negb ((0 <? ic_MaxUses c) && (ic_MaxUses c <=? ic_Uses c)).

Definition liveInviteCodes : act W (list string) :=
  claims ← reads ListInviteClaims;
  now ← now_;
  mret (ic_Code <$> List.filter (live (Time_Unix now)) claims).

Definition getInvite (code : string) : act W InviteClaim :=
  throw_if (is_empty code) (BadInput "invite code is required");;
  claim ← reads (GetInviteClaim code);
  from (match claim with None => Err ErrNotFound | Some c => Ok c end).

Definition revokeInvite (code : string) : act W unit :=
  throw_if (is_empty code) (BadInput "invite code is required");;
  claim ← reads (GetInviteClaim code);
  throw_if (match claim with None => true | Some _ => false end) ErrNotFound;;
  DeleteInviteClaim code.

Definition minClaimLength : nat := 16.

(** [range] decodes UTF-8: every byte of a code point that is not ASCII is
    outside the ranges, as the code point is. *)
Definition claim_byte (c : ascii) : bool :=
  let n := nat_of_ascii c in
  (Nat.leb 65 n && Nat.leb n 90) || (Nat.leb 97 n && Nat.leb n 122) || (Nat.leb 48 n && Nat.leb n 57) ||
  Nat.eqb n 95 || Nat.eqb n 45.

Definition validateClaimStrength (code : string) : result aerr unit :=
  refuse_if (Nat.ltb (String.length code) minClaimLength) (BadInput "invite code must be at least 16 characters");;
  refuse_if (negb (all_bytes claim_byte code)) (BadInput "invite code may only contain letters, digits, '_' or '-'").

Record invitePolicy := mkPolicy {
  ip_defaultTTL : Z;
  ip_maxTTL : Z;
  ip_allowNoExpiry : bool;
  ip_defaultMaxUses : Z;
}.

Record inviteLimits := mkLimits { il_ExpiresAt : option Z; il_MaxUses : option Z }.

Definition resolveInviteLimits (now : Z) (lim : inviteLimits) (policy : invitePolicy) : result aerr (Z * Z) :=
  expiresAt ←
    match il_ExpiresAt lim with
    | None => Ok (Time_Unix (Time_Add now (ip_defaultTTL policy)))
    | Some v =>
        if v =? 0 then
          if negb (ip_allowNoExpiry policy)
          then Err (BadInput "expires_at 0 (never expires) is not allowed by this relay") else Ok 0
        else if v <=? Time_Unix now then Err (BadInput "expires_at must be in the future")
        else if Time_Unix (Time_Add now (ip_maxTTL policy)) <? v
        then Err (BadInput ("expires_at is later than this relay allows (at most " ++ Duration_String (ip_maxTTL policy) ++ " from now)"))
        else Ok v
    end;
  maxUses ←
    match il_MaxUses lim with
    | None => Ok (ip_defaultMaxUses policy)
    | Some v => if v <? 1 then Err (BadInput "max_uses must be >= 1") else Ok v
    end;
  Ok (expiresAt, maxUses).

(** The policy both surfaces build. *)
Definition the_policy : invitePolicy :=
  mkPolicy membershipInviteTTL membershipInviteMaxTTL membershipInviteAllowNoExpiry membershipInviteMaxUses.

(** ** Roles *)

Definition listRoles : act W (list roleJSON) :=
  events ← reads (QueryRoles (rc_Self config));
  mret (omap ParseRole events).

Definition bad_color (c : option Z) : bool := match c with Some v => (v <? 0) || (360 <? v) | None => false end.

Definition sign_and_insert (what : string) (ev : Event) : act W unit :=
  match SignEvent (rc_PrivKey config) ev with
  | Err e => throw (OtherErr (what ++ e))
  | Ok ev => InsertEvents [ev]
  end.

Definition putRole (role : roleJSON) : act W unit :=
  throw_if (is_empty (rj_ID role)) (BadInput "id is required");;
  throw_if (bad_color (rj_Color role)) (BadInput "color must be an integer 0-360");;
  throw_if (is_empty (rc_PrivKey config)) (OtherErr "the relay has no nip11.privkey configured, so it cannot sign a role definition");;
  sign_and_insert "failed to sign role definition: " (NewRoleDefinition (rc_PubKey config) role).

Definition role_tag (id : string) (ev : Event) : option (list string) :=
  match ParseRole ev with
  | Some role => if String.eqb (rj_ID role) id then Some ["e"; ev_ID ev]%string else None
  | None => None
  end.

Definition deleteRole (id : string) : act W unit :=
  throw_if (is_empty id) (BadInput "id is required");;
  throw_if (is_empty (rc_PrivKey config)) (OtherErr "the relay has no nip11.privkey configured, so it cannot sign a deletion");;
  events ← reads (QueryRoles (rc_Self config));
  let tags := omap (role_tag id) events in
  throw_if (Nat.eqb (length tags) 0) (BadInput ("no such role: " ++ id));;
  sign_and_insert "failed to sign role deletion: " (NewDeletionEvent (rc_PubKey config) tags).

(** The roles a member has afterwards. *)
Definition with_role (roleID : string) (assign : bool) (roles : list string) : list string :=
  let kept := List.filter (fun x => negb (String.eqb x roleID) || assign) roles in
  if assign && negb (existsb (String.eqb roleID) roles) then kept ++ [roleID] else kept.

Definition setMemberRoles (pubkey roleID : string) (assign : bool) : act W (option MemberRecord) :=
  checkPubkey pubkey;;
  throw_if (is_empty roleID) (BadInput "role id is required");;
  rec ← reads (Member_Get pubkey);
  match rec with
  | None => throw (BadInput "pubkey is not a member of this relay")
  | Some rec =>
      Member_Join pubkey (with_role roleID assign (mr_Roles rec));;
      reads (Member_Get pubkey)
  end.

(** ** The NIP-86 methods *)

Inductive mmethod :=
| AllowPubkey | UnallowPubkey | ListAllowedPubkeys
| CreateClaim | CreateClaimWithLimits | ListClaims | GetClaim | DeleteClaim
| CreateRole | EditRole | DeleteRole | AssignRole | UnassignRole.

Inductive nip86_method :=
| SupportedMethods
| MembershipMethod (m : mmethod)
| ModerationMethod (m : method).

(** A request: its parameters, the second decoded strictly as limits and the
    first as a role. *)
Record nip86_request := mkReq {
  nr_req : Request;
  nr_limits : result string inviteLimits;
  nr_role : result string roleJSON;
}.

Inductive manswer :=
| MTrue
| MPubkeys (pks : list string)
| MClaim (c : InviteClaim)
| MCodes (codes : list string)
| MState (claim : string) (expires_at max_uses uses : Z).

Definition string_param (req : nip86_request) (i : nat) : act W string :=
  from (wrap_err OtherErr (StringParam (nr_req req) i)).

(** One method registered by [newNip86Router]. *)
Definition serve_membership (m : mmethod) (req : nip86_request) : act W manswer :=
  match m with
  | AllowPubkey => pubkey ← string_param req 0; addMember pubkey [];; mret MTrue
  | UnallowPubkey => pubkey ← string_param req 0; removeMember pubkey;; mret MTrue
  | ListAllowedPubkeys => records ← listMembers; mret (MPubkeys (mr_Pubkey <$> records))
  | CreateClaim =>
      code ← (if Nat.ltb 0 (rq_Params (nr_req req)) then string_param req 0 else mret ""%string);
      (if is_empty code then mret () else from (validateClaimStrength code));;
      claim ← issueInviteCode code membershipInviteTTL membershipInviteMaxUses [];
      mret (if is_empty code then MClaim claim else MTrue)
  | CreateClaimWithLimits =>
      code ← string_param req 0;
      throw_if (is_empty code) (BadInput "invite code is required");;
      from (validateClaimStrength code);;
      lim ← (if Nat.ltb 1 (rq_Params (nr_req req))
             then from (wrap_err (fun e => BadInput ("invalid limits object: " ++ e)) (nr_limits req))
             else mret (mkLimits None None));
      now ← now_;
      r ← from (resolveInviteLimits now lim the_policy);
      issueInviteWithLimits code r.1 r.2 [];;
      mret MTrue
  | ListClaims => codes ← liveInviteCodes; mret (MCodes codes)
  | GetClaim =>
      code ← string_param req 0;
      c ← getInvite code;
      mret (MState (ic_Code c) (ic_ExpiresAt c) (ic_MaxUses c) (ic_Uses c))
  | DeleteClaim => code ← string_param req 0; revokeInvite code;; mret MTrue
  | CreateRole | EditRole => role ← from (wrap_err OtherErr (nr_role req)); putRole role;; mret MTrue
  | DeleteRole => id ← string_param req 0; deleteRole id;; mret MTrue
  | AssignRole | UnassignRole =>
      pubkey ← string_param req 0;
      roleID ← string_param req 1;
      setMemberRoles pubkey roleID (match m with AssignRole => true | _ => false end);;
      mret MTrue
  end.

(** ** Who may call them *)

(** What [nip86.NewHandler] is given. *)
Record HandlerConfig := mkHandler {
  hc_AllowedPubkeys : list string;
  hc_Authorize : option (W -> string -> bool);
  hc_Visible : option (string -> nip86_method -> bool);
}.

Definition isAdmin (caller : string) : bool := existsb (String.eqb caller) nip86Admins.

Definition visible (caller : string) (m : nip86_method) : bool :=
  isAdmin caller ||
  match m with MembershipMethod CreateClaim | SupportedMethods => true | _ => false end.

(** [None]: the API is off. *)
Definition newNip86Handler : result string (option HandlerConfig) :=
  if negb nip86Enabled then Ok None else
  refuse_if (Nat.eqb (length nip86Admins) 0) "nip86.enabled requires nip11.pubkey or at least one nip86.admins entry"%string;;
  Ok (Some (mkHandler nip86Admins
    (if membershipOn && membershipMemberClaims then Some IsMember else None)
    (if membershipOn && membershipMemberClaims then Some visible else None))).

(** ** The REST handlers *)

Inductive rest :=
| MembersList
| MemberShow (pubkey : string)
| MemberAdd (pubkey : string) (roles : list string)
| MemberRemove (pubkey : string)
| InviteCreate (ttl : string) (expiresAt : option Z) (maxUses : Z) (roles : list string)
| InviteList
| InviteRevoke (code : string)
| RolesList
| RoleCreate (role : roleJSON).

Inductive body :=
| BMembers (l : list MemberRecord) | BMember (m : option MemberRecord) | BStatus (s : string)
| BClaim (c : InviteClaim) | BInvites (l : list InviteClaim) | BRoles (l : list roleJSON) | BRole (r : roleJSON)
| BError.

(** [writeAdminError] *)
Definition error_status (e : aerr) : Z :=
  if isBadInput e then 400 else match e with ErrNotFound => 404 | _ => 500 end.

Definition answered {A} (f : A -> body) (m : act W A) : W -> Z * body * W := fun w =>
  match m w with
  | (Ok a, w) => (200, f a, w)
  | (Err e, w) => (error_status e, BError, w)
  end.

Definition handleInviteCreate (ttl : string) (expiresAt : option Z) (maxUses : Z) (roles : list string) : W -> Z * body * W :=
  match expiresAt with
  | Some v =>
      answered BClaim (
        now ← now_;
        r ← from (resolveInviteLimits now (mkLimits (Some v) None) the_policy);
        issueInviteGenerated r.1 maxUses roles)
  | None =>
      match (if is_empty ttl then Some 0 else ParseDuration ttl) with
      | None => fun w => (400, BError, w)
      | Some d => answered BClaim (issueInvite d maxUses roles)
      end
  end.

Definition handle_rest (r : rest) : W -> Z * body * W :=
  match r with
  | MembersList => answered BMembers listMembers
  | MemberShow pubkey => fun w =>
      match answered BMember (getMember pubkey) w with
      | (200, BMember None, w) => (404, BError, w)
      | a => a
      end
  | MemberAdd pubkey roles => answered BMember (addMember pubkey roles)
  | MemberRemove pubkey => answered (fun _ => BStatus "removed") (removeMember pubkey)
  | InviteCreate ttl expiresAt maxUses roles => handleInviteCreate ttl expiresAt maxUses roles
  | InviteList => answered BInvites listInvites
  | InviteRevoke code => answered (fun _ => BStatus "revoked") (revokeInvite code)
  | RolesList => answered BRoles listRoles
  | RoleCreate role => answered (fun _ => BRole role) (putRole role)
  end.

Definition requireMembership (r : rest) : W -> Z * body * W :=
  if membershipOn then handle_rest r else fun w => (501, BError, w).

(** ** A relay that is managed *)

Record managed := mkManaged { g_store : W; g_moderation : relayModeration; g_disk : disk }.

(** Whether [nip86.Handler] runs a registered method for a verified caller, and
    what the moderation methods need. *)
Context (runs : HandlerConfig -> string -> nip86_method -> W -> bool) `{ModCodec}.
Context (ParsePublicKey : string -> result merr string) (FindEvents : W -> string -> result merr (list Event)).
Context (DeleteAll : W -> list Event -> option merr * W).

Definition dispatch (o : save_outcome) (m : nip86_method) (req : nip86_request) (g : managed) : managed :=
  match m with
  | SupportedMethods => g
  | MembershipMethod m =>
      if membershipOn then mkManaged (serve_membership m req (g_store g)).2 (g_moderation g) (g_disk g) else g
  | ModerationMethod m =>
      let '(_, md, d, w) := serve ParsePublicKey FindEvents DeleteAll o m (nr_req req) (g_moderation g) (g_disk g) (g_store g) in
      mkManaged w md d
  end.

(** What happens: a management request of a verified caller, or a REST request
    that passed the admin check. *)
Inductive request :=
| Manage (caller : string) (o : save_outcome) (m : nip86_method) (req : nip86_request)
| Rest (r : rest).

Definition gstep (g : managed) (e : request) : managed :=
  match e with
  | Manage caller o m req =>
      match newNip86Handler with
      | Ok (Some h) => if runs h caller m (g_store g) then dispatch o m req g else g
      | _ => g
      end
  | Rest r => mkManaged (requireMembership r (g_store g)).2 (g_moderation g) (g_disk g)
  end.

Definition grun (g : managed) (es : list request) : managed := foldl gstep g es.
End Membership.

(** ** What is relied on of the relay *)

(** The relay's claims, members and own events as the model sees them.  A store
    operation that fails changes nothing; a generated code is new. *)
Class MemberModel (W : Type) `{MemberStore W} := {
  claims : W -> gmap string InviteClaim;
  members : W -> gmap string MemberRecord;
  events : W -> list Event;
  (** How long [IssueInvite] lets an invite live when it is given no time. *)
  sdk_ttl : Z;
  IsMember_spec w pk : IsMember w pk = true -> is_Some (members w !! pk);
  Get_spec pk w r : Member_Get pk w = Ok r -> r = members w !! pk;
  Join_spec pk roles w :
    let '(r, w') := Member_Join pk roles w in
    claims w' = claims w /\ events w' = events w /\
    match r with
    | Ok _ => exists rec, mr_Pubkey rec = pk /\ mr_Roles rec = roles /\ members w' = <[pk := rec]> (members w)
    | Err _ => members w' = members w
    end;
  Leave_spec pk w :
    let '(r, w') := Member_Leave pk w in
    claims w' = claims w /\ events w' = events w /\
    members w' = match r with Ok _ => delete pk (members w) | Err _ => members w end;
  Issue_spec ttl uses roles w :
    let '(r, w') := IssueInvite ttl uses roles w in
    members w' = members w /\ events w' = events w /\
    match r with
    | Ok c => claims w !! ic_Code c = None /\ claims w' = <[ic_Code c := c]> (claims w) /\
              ic_CreatedAt c = Time_Unix (Clock w) /\ ic_MaxUses c = uses /\ ic_Uses c = 0 /\ ic_Roles c = roles /\
              ic_ExpiresAt c = Time_Unix (Time_Add (Clock w) (if 0 <? ttl then ttl else sdk_ttl))
    | Err _ => claims w' = claims w
    end;
  NewClaim_spec w :
    let '(code, w') := NewClaim w in
    claims w !! code = None /\ Clock w' = Clock w /\ claims w' = claims w /\ members w' = members w /\ events w' = events w;
  GetClaim_spec code w r : GetInviteClaim code w = Ok r -> r = claims w !! code;
  PutClaim_spec c w :
    let '(r, w') := PutInviteClaim c w in
    members w' = members w /\ events w' = events w /\
    claims w' = match r with Ok _ => <[ic_Code c := c]> (claims w) | Err _ => claims w end;
  DeleteClaim_spec code w :
    let '(r, w') := DeleteInviteClaim code w in
    members w' = members w /\ events w' = events w /\
    claims w' = match r with Ok _ => delete code (claims w) | Err _ => claims w end;
  Insert_spec evs w : claims (InsertEvents evs w).2 = claims w /\ members (InsertEvents evs w).2 = members w;
  Evict_spec pk w :
    claims (EvictPubkey pk w) = claims w /\ members (EvictPubkey pk w) = members w /\ events (EvictPubkey pk w) = events w;
}.

(** ** Operations that leave the invites alone *)

Section Frames.
Context {W : Type} `{MemberModel W} `{Nip43} (config : RelayConfig) (rooms : bool).

(** [m] does not change what [f] sees. *)
Definition keeps {A B} (f : W -> B) (m : act W A) : Prop := forall w, f (m w).2 = f w.

Lemma keeps_bind {A B C} (f : W -> C) (m : act W A) (k : A -> act W B) :
  keeps f m -> (forall a, keeps f (k a)) -> keeps f (m ≫= k).
Proof.
  intros Hm Hk w. unfold mbind, act_bind. specialize (Hm w). destruct (m w) as [[a|e] w'] eqn:E; cbn in *; [|done].
  by rewrite Hk.
Qed.

Lemma keeps_pure {A C} (f : W -> C) (m : act W A) : (forall w, (m w).2 = w) -> keeps f m.
Proof. intros Hm w. by rewrite Hm. Qed.

Lemma throw_if_keeps {C} (f : W -> C) b e : keeps f (throw_if (W := W) b e).
Proof. apply keeps_pure. by destruct b. Qed.

Lemma checkPubkey_keeps {C} (f : W -> C) pk : keeps f (checkPubkey pk).
Proof. apply keeps_pure. unfold checkPubkey. by destruct (Validate32Key pk). Qed.

Lemma Join_keeps pk roles : keeps claims (Member_Join pk roles).
Proof. intros w. pose proof (Join_spec pk roles w) as Hj. destruct (Member_Join pk roles w) as [r w']. naive_solver. Qed.

Lemma Leave_keeps pk : keeps claims (Member_Leave pk).
Proof. intros w. pose proof (Leave_spec pk w) as Hj. destruct (Member_Leave pk w) as [r w']. naive_solver. Qed.

Lemma Insert_keeps evs : keeps claims (InsertEvents evs).
Proof. intros w. apply Insert_spec. Qed.

Lemma publish_keeps ev : keeps claims (publishMembershipAdminEvent config ev).
Proof.
  unfold publishMembershipAdminEvent. destruct (is_empty _); [by apply keeps_pure|].
  destruct (SignEvent _ _); [|by apply keeps_pure]. intros w. apply Insert_spec.
Qed.

Lemma evict_keeps pk : keeps claims (evictFromHuddles rooms pk).
Proof. unfold evictFromHuddles. destruct rooms; [|by apply keeps_pure]. intros w. apply Evict_spec. Qed.

Lemma sign_and_insert_keeps what ev : keeps claims (sign_and_insert config what ev).
Proof. unfold sign_and_insert. destruct (SignEvent _ _); [apply Insert_keeps|by apply keeps_pure]. Qed.
End Frames.

Create HintDb frames.
#[export] Hint Resolve keeps_bind throw_if_keeps checkPubkey_keeps Join_keeps Leave_keeps Insert_keeps publish_keeps
  evict_keeps sign_and_insert_keeps : frames.
#[export] Hint Extern 1 (keeps _ (mret _)) => (by apply keeps_pure) : frames.
#[export] Hint Extern 1 (keeps _ (throw _)) => (by apply keeps_pure) : frames.
#[export] Hint Extern 1 (keeps _ (reads _)) => (by apply keeps_pure) : frames.
#[export] Hint Extern 1 (keeps _ (from _)) => (by apply keeps_pure) : frames.
#[export] Hint Extern 1 (keeps _ now_) => (by apply keeps_pure) : frames.
#[export] Hint Extern 1 (keeps _ (string_param _ _)) => (by apply keeps_pure) : frames.
#[export] Hint Extern 2 (keeps _ (match ?x with _ => _ end)) => (destruct x) : frames.
#[export] Hint Extern 3 (forall _, keeps _ _) => intro : frames.

Section Frames2.
Context {W : Type} `{MemberModel W} `{Nip43} (config : RelayConfig) (rooms : bool).

Lemma addMember_keeps pk roles : keeps claims (addMember config pk roles).
Proof. unfold addMember. auto 20 with frames. Qed.

Lemma removeMember_keeps pk : keeps claims (removeMember config rooms pk).
Proof. unfold removeMember. auto 20 with frames. Qed.

Lemma putRole_keeps role : keeps claims (putRole config role).
Proof. unfold putRole. auto 20 with frames. Qed.

Lemma deleteRole_keeps id : keeps claims (deleteRole config id).
Proof. unfold deleteRole. auto 20 with frames. Qed.

Lemma setMemberRoles_keeps pk id b : keeps claims (setMemberRoles pk id b).
Proof. unfold setMemberRoles. auto 20 with frames. Qed.
End Frames2.
#[export] Hint Resolve addMember_keeps removeMember_keeps putRole_keeps deleteRole_keeps setMemberRoles_keeps : frames.

(** ** Operations that issue one *)

Section Issuing.
Context {W : Type} `{MemberModel W} `{Nip43} (config : RelayConfig) (rooms : bool).

(** From [w] to [w'] one claim with [P] was added under a new code, and nothing
    else but the clock changed. *)
Definition added (w w' : W) (P : InviteClaim -> Prop) : Prop :=
  exists c, claims w !! ic_Code c = None /\ claims w' = <[ic_Code c := c]> (claims w) /\
    members w' = members w /\ events w' = events w /\ P c.

Definition unchanged (w w' : W) : Prop :=
  claims w' = claims w /\ members w' = members w /\ events w' = events w.

(** [m] issues a claim with [P] and answers it, or fails and changes nothing. *)
Definition issues (m : act W InviteClaim) (P : W -> InviteClaim -> Prop) : Prop :=
  forall w, match m w with
  | (Ok c, w') => added w w' (fun c' => c' = c /\ P w c)
  | (Err _, w') => unchanged w w'
  end.

Lemma issueInvite_issues ttl uses roles :
  issues (issueInvite ttl uses roles) (fun w c =>
    ic_CreatedAt c = Time_Unix (Clock w) /\ ic_MaxUses c = uses /\ 0 <= uses /\ ic_Uses c = 0 /\ ic_Roles c = roles /\
    ic_ExpiresAt c = Time_Unix (Time_Add (Clock w) (if 0 <? ttl then ttl else sdk_ttl))).
Proof.
  intros w. unfold issueInvite, mbind, act_bind, throw_if. destruct (Z.ltb_spec uses 0); cbn; [done|].
  pose proof (Issue_spec ttl uses roles w) as Hi. destruct (IssueInvite ttl uses roles w) as [[c|e] w'].
  - destruct Hi as (? & ? & ? & ? & ? & ? & ? & ? & ?). exists c. naive_solver.
  - destruct Hi as (? & ? & ?). done.
Qed.

(** Putting a claim whose code was seen to be free. *)
Lemma invite_put_issues c w :
  claims w !! ic_Code c = None ->
  match invite_put c w with
  | (Ok c', w') => c' = c /\ added w w' (fun c'' => c'' = c)
  | (Err _, w') => unchanged w w'
  end.
Proof.
  intros Hc. unfold invite_put, mbind, act_bind. pose proof (PutClaim_spec c w) as Hp.
  destruct (PutInviteClaim c w) as [[[]|e] w']; destruct Hp as (? & ? & ?); cbn; [|done].
  split; [done|]. by exists c.
Qed.

Lemma invite_check_ok code (w w' : W) u : invite_check code w = (Ok u, w') -> w' = w /\ claims w !! code = None.
Proof.
  unfold invite_check, mbind, act_bind, reads, throw_if.
  destruct (GetInviteClaim code w) as [r|e] eqn:E; [|done]. apply GetClaim_spec in E.
  destruct r; cbn; [done|]. intros [= _ <-]. done.
Qed.

Lemma invite_check_keeps code (w : W) : (invite_check code w).2 = w.
Proof.
  unfold invite_check, mbind, act_bind, reads, throw_if. destruct (GetInviteClaim code w) as [[]|]; done.
Qed.

(** Checking a code and then putting a claim under it. *)
Lemma checked_put_issues code (mk : Z -> InviteClaim) (w : W) :
  (forall t, ic_Code (mk t) = code) ->
  match (invite_check code;; now ← now_; invite_put (mk now)) w with
  | (Ok c, w') => c = mk (Clock w) /\ added w w' (fun c' => c' = c)
  | (Err _, w') => unchanged w w'
  end.
Proof.
  intros Hmk. unfold mbind at 1, act_bind at 1. destruct (invite_check code w) as [[u|e] w'] eqn:E.
  - apply invite_check_ok in E as [-> Hfree]. unfold mbind, act_bind, now_.
    pose proof (invite_put_issues (mk (Clock w)) w) as Hp. rewrite Hmk in Hp. specialize (Hp Hfree).
    destruct (invite_put _ w) as [[c|] w']; [|done]. destruct Hp as [-> Hp]. done.
  - pose proof (invite_check_keeps code w) as Hk. rewrite E in Hk. cbn in Hk. by subst w'.
Qed.

Lemma issueInviteCode_issues code ttl uses roles :
  0 < ttl ->
  issues (issueInviteCode code ttl uses roles) (fun w c =>
    ic_CreatedAt c = Time_Unix (Clock w) /\ ic_MaxUses c = uses /\ ic_Uses c = 0 /\ ic_Roles c = roles /\
    ic_ExpiresAt c = Time_Unix (Time_Add (Clock w) ttl) /\ (code <> ""%string -> ic_Code c = code)).
Proof.
  intros Httl w. unfold issueInviteCode. destruct (is_empty code) eqn:Ee.
  - pose proof (issueInvite_issues ttl uses roles w) as Hi. destruct (issueInvite ttl uses roles w) as [[c|] w']; [|done].
    destruct Hi as (c' & Hf & Hc & Hm & He & -> & Hp). exists c. destruct code; [|done].
    rewrite (proj2 (Z.ltb_lt _ _) Httl) in Hp. destruct Hp as (? & ? & ? & ? & ? & ?). by split_and!.
  - unfold mbind at 1, act_bind at 1, throw_if at 1. destruct (uses <? 0); cbn -[mbind]; [done|].
    pose proof (checked_put_issues code (fun now => mkClaim code (Time_Unix now) (Time_Unix (Time_Add now ttl)) uses 0 roles) w
                  ltac:(done)) as Hp.
    cbv beta in Hp. destruct (mbind _ (invite_check code) w) as [[c|] w']; [|done]. destruct Hp as [-> (c' & Hf & Hc & Hm & He & ->)]. eexists. by split_and!.
Qed.

Lemma issueInviteWithLimits_issues code expiresAt uses roles :
  issues (issueInviteWithLimits code expiresAt uses roles) (fun w c =>
    c = mkClaim code (Time_Unix (Clock w)) expiresAt uses 0 roles).
Proof.
  intros w. unfold issueInviteWithLimits. unfold mbind at 1, act_bind at 1, throw_if at 1.
  destruct (is_empty code); cbn -[mbind]; [done|].
  pose proof (checked_put_issues code (fun now => mkClaim code (Time_Unix now) expiresAt uses 0 roles) w ltac:(done)) as Hp.
  cbv beta in Hp. destruct (mbind _ (invite_check code) w) as [[c|] w']; [|done]. destruct Hp as [-> (c' & Hf & Hc & Hm & He & ->)]. eexists. by split_and!.
Qed.

Lemma issueInviteGenerated_issues expiresAt uses roles :
  issues (issueInviteGenerated expiresAt uses roles) (fun w c =>
    0 <= uses /\ exists code, c = mkClaim code (Time_Unix (Clock w)) expiresAt uses 0 roles).
Proof.
  intros w. unfold issueInviteGenerated, mbind, act_bind, throw_if, now_. destruct (Z.ltb_spec uses 0); cbn; [done|].
  pose proof (NewClaim_spec w) as Hn. destruct (NewClaim w) as [code w1]. destruct Hn as (Hf & Ht & Hc & Hm & He).
  pose proof (invite_put_issues (mkClaim code (Time_Unix (Clock w1)) expiresAt uses 0 roles) w1) as Hp. rewrite Hc in Hp.
  specialize (Hp Hf). destruct (invite_put _ w1) as [[c|] w'].
  - destruct Hp as [-> (c' & Hf' & Hc' & Hm' & He' & ->)]. rewrite Ht in *.
    eexists (mkClaim code _ _ _ _ _).
    split_and!; [exact Hf|by rewrite Hc', Hc|by rewrite Hm'|by rewrite He'|done|done|by eexists].
  - unfold unchanged in *. by rewrite <- Hc, <- Hm, <- He.
Qed.
End Issuing.

(** ** Runs *)

(** [nip86.Handler] runs a method only for a key of [AllowedPubkeys] or one that
    [Authorize] admits, and only one [Visible] shows. *)
Class Handler86 {W} (runs : @HandlerConfig W -> string -> nip86_method -> W -> bool) : Prop := {
  runs_caller h caller m w : runs h caller m w = true ->
    (exists a, a ∈ hc_AllowedPubkeys h /\ EqualFold a caller = true) \/
    (exists f, hc_Authorize h = Some f /\ f w caller = true);
  runs_visible h caller m w f : runs h caller m w = true -> hc_Visible h = Some f -> f caller m = true;
}.

(** [DeleteAll] deletes stored events only. *)
Class Deletes {W} `{MemberModel W} (DeleteAll : W -> list Event -> option merr * W) : Prop := {
  DeleteAll_spec w evs : claims (DeleteAll w evs).2 = claims w /\ members (DeleteAll w evs).2 = members w;
}.

Section Effects.
Context {W : Type} `{MemberModel W} `{Nip43} (config : RelayConfig) (rooms : bool).
(** An expiry a caller may choose. *)
Definition expiry_allowed (now v : Z) : Prop :=
  (v = 0 /\ membershipInviteAllowNoExpiry config = true) \/
  (Time_Unix now < v <= Time_Unix (Time_Add now (membershipInviteMaxTTL config))).

(** The limits a [createclaimwithlimits] request asks for. *)
Definition limits_of (req : nip86_request) : result string inviteLimits :=
  if Nat.ltb 1 (rq_Params (nr_req req)) then nr_limits req else Ok (mkLimits None None).

(** The claim [c] is what request [e], handled at [now], may issue. *)
Definition sanctioned (now : Z) (e : request) (c : InviteClaim) : Prop :=
  ic_Uses c = 0 /\ ic_CreatedAt c = Time_Unix now /\
  match e with
  | Manage _ _ (MembershipMethod CreateClaim) req =>
      ic_MaxUses c = membershipInviteMaxUses config /\ ic_Roles c = [] /\
      ic_ExpiresAt c = Time_Unix (Time_Add now (membershipInviteTTL config)) /\
      (forall code, StringParam (nr_req req) 0 = Ok code -> code <> ""%string -> Nat.ltb 0 (rq_Params (nr_req req)) = true ->
         ic_Code c = code /\ validateClaimStrength code = Ok ())
  | Manage _ _ (MembershipMethod CreateClaimWithLimits) req =>
      StringParam (nr_req req) 0 = Ok (ic_Code c) /\ validateClaimStrength (ic_Code c) = Ok () /\ ic_Roles c = [] /\
      exists lim, limits_of req = Ok lim /\
        match il_ExpiresAt lim with
        | Some v => ic_ExpiresAt c = v /\ expiry_allowed now v
        | None => ic_ExpiresAt c = Time_Unix (Time_Add now (membershipInviteTTL config))
        end /\
        match il_MaxUses lim with
        | Some v => ic_MaxUses c = v /\ 1 <= v
        | None => ic_MaxUses c = membershipInviteMaxUses config
        end
  | Rest (InviteCreate ttl expiresAt maxUses roles) =>
      ic_MaxUses c = maxUses /\ 0 <= maxUses /\ ic_Roles c = roles /\
      match expiresAt with
      | Some v => ic_ExpiresAt c = v /\ expiry_allowed now v
      | None => exists d, (if is_empty ttl then Some 0 else ParseDuration ttl) = Some d /\
                  ic_ExpiresAt c = Time_Unix (Time_Add now (if 0 <? d then d else sdk_ttl))
      end
  | _ => False
  end.

(** Request [e] asks to delete the claim [code]. *)
Definition revokes (e : request) (code : string) : Prop :=
  match e with
  | Manage _ _ (MembershipMethod DeleteClaim) req => StringParam (nr_req req) 0 = Ok code
  | Rest (InviteRevoke c) => c = code
  | _ => False
  end.

(** What request [e] does to the invites. *)
Definition invites_step (e : request) (w w' : W) : Prop :=
  claims w' = claims w \/
  (exists c, claims w !! ic_Code c = None /\ claims w' = <[ic_Code c := c]> (claims w) /\ sanctioned (Clock w) e c) \/
  (exists code, revokes e code /\ claims w' = delete code (claims w)).

Lemma duration_or_pos text d : 0 < d -> 0 < duration_or text d.
Proof. intros Hd. unfold duration_or. destruct (is_empty text); [done|]. destruct (ParseDuration text) as [z|]; [|done]. by destruct (Z.ltb_spec 0 z). Qed.

Lemma InviteTTL_pos : 0 < membershipInviteTTL config.
Proof. unfold membershipInviteTTL. destruct (rc_Membership config); [by apply duration_or_pos|done]. Qed.

(** A configuration that starts: its limits are bounded, so that at any clock
    adding them is exact, and the checked one means the same. *)
Lemma checked_config config' :
  checkAndDefaultMembership config = Ok config' ->
  0 < membershipInviteMaxTTL config <= 10 * 365 * 24 * Hour /\ 0 <= membershipInviteMaxUses config /\
  (forall now, is_clock now -> Time_Add now (membershipInviteMaxTTL config) = now + membershipInviteMaxTTL config) /\
  membershipMemberClaims config' = membershipMemberClaims config /\
  the_policy config' = the_policy config /\ nip86Admins config' = nip86Admins config.
Proof.
  intros Hc.
  assert (Hb : 0 < membershipInviteMaxTTL config <= 10 * 365 * 24 * Hour /\ 0 <= membershipInviteMaxUses config /\
    membershipMemberClaims config' = membershipMemberClaims config /\
    the_policy config' = the_policy config /\ nip86Admins config' = nip86Admins config).
  { unfold checkAndDefaultMembership in Hc.
    unfold the_policy, membershipInviteMaxTTL, membershipInviteMaxUses, membershipMemberClaims, membershipInviteTTL,
      membershipInviteAllowNoExpiry, nip86Admins.
    destruct (rc_Membership config) as [c|] eqn:Ec; [|injection Hc as <-; rewrite Ec; split_and!; done].
    unbind Hc. injection Hc as <-. cbn. propify. unfold duration_or.
    destruct (is_empty (mb_InviteMaxTTL c)); [by split_and!|].
    destruct (ParseDuration (mb_InviteMaxTTL c)) as [d|]; [|done].
    match goal with B : (refuse_if _ _ ≫= _) = Ok _ |- _ => unbind B; apply refuse_if_Ok in B end. propify.
    rewrite (proj2 (Z.ltb_lt 0 d)) by done. split_and!; try done; lia. }
  destruct Hb as (Hb & Hu & Hr). split; [done|]. split; [done|]. split; [|done].
  intros now Hn. apply Time_Add_exact; [done|]. unfold is_int64, min_int64, max_int64, two63.
  unfold Hour, Minute, Second in Hb. lia.
Qed.

Lemma revokeInvite_claims code (w : W) :
  claims (revokeInvite code w).2 = claims w \/ claims (revokeInvite code w).2 = delete code (claims w).
Proof.
  unfold revokeInvite, mbind, act_bind, throw_if, reads. destruct (is_empty code); [by left|]. cbn.
  destruct (GetInviteClaim code w) as [[c|]|]; [|by left|by left]. cbn. pose proof (DeleteClaim_spec code w) as Hd.
  destruct (DeleteInviteClaim code w) as [[]w']; naive_solver.
Qed.

(** [createclaim] adds a claim on the relay's own terms or changes nothing. *)
Lemma createclaim_step caller o req (w : W) :
  added w (serve_membership config rooms CreateClaim req w).2 (sanctioned (Clock w) (Manage caller o (MembershipMethod CreateClaim) req)) \/
  unchanged w (serve_membership config rooms CreateClaim req w).2.
Proof.
  set (code := if Nat.ltb 0 (rq_Params (nr_req req)) then wrap_err OtherErr (StringParam (nr_req req) 0) else Ok ""%string).
  assert (Hs : serve_membership config rooms CreateClaim req =
    (code ← from code; (if is_empty code then mret () else from (validateClaimStrength code));;
     claim ← issueInviteCode code (membershipInviteTTL config) (membershipInviteMaxUses config) [];
     mret (if is_empty code then MClaim claim else MTrue))) by
    (subst code; unfold serve_membership; by destruct (Nat.ltb 0 (rq_Params (nr_req req)))).
  destruct (serve_membership config rooms CreateClaim req w) as [r w'] eqn:E. rewrite Hs in E. clear Hs. cbn [snd].
  unfold mbind at 1, act_bind at 1, from at 1 in E. destruct code as [s|e] eqn:Ecode; [|right; by injection E as _ <-].
  unfold mbind at 1, act_bind at 1 in E.
  set (check := (if is_empty s then mret () else from (validateClaimStrength s)) : act W unit) in E.
  assert (Hw : (check w).2 = w) by (subst check; by destruct (is_empty s)).
  destruct (check w) as [[u|e] w1] eqn:Ev; cbn in Hw; subst w1; [|right; by injection E as _ <-].
  assert (Hstrong : s <> ""%string -> validateClaimStrength s = Ok ()).
  { destruct s; [done|]. intros _. subst check. cbn -[validateClaimStrength] in Ev. unfold from in Ev. injection Ev as ->. by destruct u. }
  pose proof (issueInviteCode_issues s (membershipInviteTTL config) (membershipInviteMaxUses config) [] InviteTTL_pos w) as Hi.
  unfold mbind, act_bind in E. destruct (issueInviteCode _ _ _ _ w) as [[c|e] w2]; [|right; by injection E as _ <-].
  injection E as _ <-. left. destruct Hi as (c' & Hf & Hc & Hm & He & -> & ? & ? & ? & ? & ? & Hcode).
  exists c. split_and!; try done. split_and!; try done.
  intros code' Hp Hne Hn. subst code. rewrite Hn, Hp in Ecode. injection Ecode as ->. auto.
Qed.

(** Accepted limits are the requested ones, or the defaults: never clamped. *)
Lemma resolved now lim e u :
  resolveInviteLimits now lim (the_policy config) = Ok (e, u) ->
  match il_ExpiresAt lim with
  | Some v => e = v /\ expiry_allowed now v
  | None => e = Time_Unix (Time_Add now (membershipInviteTTL config))
  end /\
  match il_MaxUses lim with Some v => u = v /\ 1 <= v | None => u = membershipInviteMaxUses config end.
Proof.
  unfold resolveInviteLimits, expiry_allowed. cbn [the_policy ip_defaultTTL ip_maxTTL ip_allowNoExpiry ip_defaultMaxUses].
  intros (e' & He & Hr)%bind_Ok. apply bind_Ok in Hr as (u' & Hu & [= -> ->]). split.
  - destruct (il_ExpiresAt lim) as [v|]; [|by injection He]. destruct (Z.eqb_spec v 0) as [Hv|Hv]; repeat split_match He;
      propify; injection He as <-; split; try done; [by left|right; lia].
  - destruct (il_MaxUses lim) as [v|]; [|by injection Hu]. destruct (Z.ltb_spec v 1); naive_solver.
Qed.

Lemma withlimits_step caller o req (w : W) :
  invites_step (Manage caller o (MembershipMethod CreateClaimWithLimits) req) w
    (serve_membership config rooms CreateClaimWithLimits req w).2.
Proof.
  destruct (serve_membership config rooms CreateClaimWithLimits req w) as [r w'] eqn:E. cbn [snd].
  unfold serve_membership, string_param, from, throw_if, now_, mbind, act_bind in E.
  destruct (StringParam (nr_req req) 0) as [code|] eqn:Ec; cbn in E; [|left; by injection E as _ <-].
  destruct (is_empty code); cbn in E; [left; by injection E as _ <-|].
  destruct (validateClaimStrength code) as [[]|] eqn:Ev; [|left; by injection E as _ <-].
  match type of E with context [let (_, _) := ?m w in _] =>
    assert (Hm : m w = (wrap_err (fun e => BadInput ("invalid limits object: " ++ e)) (limits_of req), w)) by
      (unfold limits_of, Nat.ltb, Nat.leb; by destruct (rq_Params (nr_req req)) as [|[|]])
  end.
  rewrite Hm in E. destruct (limits_of req) as [lim|] eqn:El; cbn in E; [|left; by injection E as _ <-].
  destruct (resolveInviteLimits (Clock w) lim (the_policy config)) as [[e u]|] eqn:Er; [|left; by injection E as _ <-].
  apply resolved in Er as [He Hu]. cbn in E.
  pose proof (issueInviteWithLimits_issues code e u [] w) as Hi. destruct (issueInviteWithLimits code e u [] w) as [[c|] w1].
  - injection E as _ <-. destruct Hi as (c' & Hf & Hc & Hmb & Hev & -> & ->). right; left. eexists. split; [exact Hf|].
    split; [exact Hc|]. split_and!; try done. exists lim. split; [done|]. split.
    + by destruct (il_ExpiresAt lim).
    + by destruct (il_MaxUses lim).
  - injection E as _ <-. left. apply Hi.
Qed.

Lemma answered_keeps {A B} (f : W -> B) (g : A -> body) (m : act W A) w : keeps f m -> f (answered g m w).2 = f w.
Proof. intros Hm. unfold answered. rewrite <- (Hm w). by destruct (m w) as [[] w']. Qed.

Lemma answered_store {A} (g : A -> body) (m : act W A) w : (answered g m w).2 = (m w).2.
Proof. unfold answered. by destruct (m w) as [[] w']. Qed.

Lemma invitecreate_step ttl expiresAt uses roles (w : W) :
  invites_step (Rest (InviteCreate ttl expiresAt uses roles)) w (handleInviteCreate config ttl expiresAt uses roles w).2.
Proof.
  unfold handleInviteCreate. destruct expiresAt as [v|].
  - rewrite answered_store. unfold mbind, act_bind, now_, from.
    destruct (resolveInviteLimits _ _ _) as [[e u]|] eqn:Er; [|by left]. apply resolved in Er as [[-> Hv] _]. cbn -[issueInviteGenerated].
    pose proof (issueInviteGenerated_issues v uses roles w) as Hi.
    destruct (issueInviteGenerated v uses roles w) as [[c|] w']; [|left; apply Hi].
    destruct Hi as (c' & Hf & Hc & _ & _ & -> & Hu & code & ->). right; left. eexists. split; [exact Hf|]. split; [exact Hc|].
    by split_and!.
  - destruct (if is_empty ttl then Some 0 else ParseDuration ttl) as [d|] eqn:Ed; [|by left]. rewrite answered_store.
    pose proof (issueInvite_issues d uses roles w) as Hi. destruct (issueInvite d uses roles w) as [[c|] w']; [|left; apply Hi].
    destruct Hi as (c' & Hf & Hc & _ & _ & -> & ? & ? & ? & ? & ? & Hexp). right; left. exists c. split_and!; try done.
    split_and!; try done. by exists d.
Qed.

Lemma rest_step r (w : W) : invites_step (Rest r) w (requireMembership config rooms r w).2.
Proof.
  unfold requireMembership. destruct (membershipOn config); [|by left].
  destruct r as [|pk|pk roles|pk|ttl ex u roles| |code| |role]; cbn [handle_rest]; try apply invitecreate_step.
  1,3,4,5,7,8: left; apply answered_keeps; unfold listMembers, listInvites, listRoles; auto with frames.
  - left. assert (Hk : keeps claims (getMember pk)) by (unfold getMember; auto with frames).
    pose proof (answered_keeps claims BMember _ w Hk) as Ha. destruct (answered BMember (getMember pk) w) as [[st b] w'].
    repeat case_match; simplify_eq; done.
  - rewrite answered_store. destruct (revokeInvite_claims code w) as [Hc|Hc]; [by left|]. right; right. by exists code.
Qed.

Lemma membership_step caller o m req (w : W) :
  invites_step (Manage caller o (MembershipMethod m) req) w (serve_membership config rooms m req w).2.
Proof.
  destruct m; try apply withlimits_step.
  4: { destruct (createclaim_step caller o req w) as [(c & Hf & Hc & _ & _ & Hs)|[Hc _]]; [right; left; by exists c|by left]. }
  6: { cbn [serve_membership]. unfold mbind at 1, act_bind at 1, string_param, from.
       destruct (StringParam (nr_req req) 0) as [code|] eqn:Ec; cbn -[mbind]; [|by left].
       unfold mbind, act_bind. pose proof (revokeInvite_claims code w) as Hr.
       destruct (revokeInvite code w) as [[] w']; cbn in *; (destruct Hr as [Hr|Hr]; [by left|right; right; by exists code]). }
  all: left; cbn [serve_membership];
    match goal with |- claims (?m _).2 = _ => assert (Hk : keeps claims m) by
      (unfold listMembers, liveInviteCodes, getInvite; auto 20 with frames); apply Hk end.
Qed.
End Effects.

Section Runs.
Context {W : Type} `{MemberModel W} `{Nip43} (config : RelayConfig) (rooms : bool).
Context (runs : @HandlerConfig W -> string -> nip86_method -> W -> bool) `{ModCodec}.
Context (ParsePublicKey : string -> result merr string) (FindEvents : W -> string -> result merr (list Event)).
Context (DeleteAll : W -> list Event -> option merr * W).
Context `{!Deletes DeleteAll}.

Abbreviation step := (gstep config rooms runs ParsePublicKey FindEvents DeleteAll).
Abbreviation run := (grun config rooms runs ParsePublicKey FindEvents DeleteAll).
Abbreviation invites g := (claims (g_store g)).


Lemma serve_store o m req md d (w : W) :
  claims (serve ParsePublicKey FindEvents DeleteAll o m req md d w).2 = claims w /\
  members (serve ParsePublicKey FindEvents DeleteAll o m req md d w).2 = members w.
Proof using Type*.
  unfold serve. destruct (change_of _ _ _ _) as [[c|e]|]; [|done..].
  destruct (update o md d (apply_change c)) as [[err md'] d']. destruct err; [done|].
  unfold after_change. destruct c; try done. destruct (FindEvents w id) as [[|ev evs]|]; [done| |done].
  pose proof (DeleteAll_spec w (ev :: evs)) as Hd. destruct (DeleteAll w (ev :: evs)) as [err w']. done.
Qed.

Lemma gstep_invites e g : invites_step config e (g_store g) (g_store (step g e)).
Proof using Type*.
  destruct e as [caller o m req|r]; cbn [gstep g_store]; [|apply rest_step].
  destruct (newNip86Handler config) as [[h|]|]; [|by left..]. destruct (runs h caller m (g_store g)); [|by left].
  destruct m as [|m|m]; cbn [dispatch]; [by left| |].
  - destruct (membershipOn config); [apply membership_step|by left].
  - left. pose proof (serve_store o m (nr_req req) (g_moderation g) (g_disk g) (g_store g)) as [Hs _].
    destruct (serve _ _ _ _ _ _ _ _ _) as [[[? ?] ?] ?]. done.
Qed.

Lemma grun_snoc g es e : run g (es ++ [e]) = step (run g es) e.
Proof. unfold grun. by rewrite foldl_app. Qed.

(** C32: over any sequence of NIP-86 and REST requests, by anyone, with a store
    that may fail: an invite that is there at the end was there at the start,
    unchanged, or was issued by a [createclaim], [createclaimwithlimits] or REST
    create request under a code that was free at that moment, unused, with the
    roles its request names (NIP-86 requests name none) and the expiry and uses
    that [sanctioned] allows: those asked for, never clamped, or the relay's
    defaults.  A date must lie within the configured limits; a REST time to live
    and number of uses are taken as they are, without such a limit
    ([rest_ttl_unbounded]), and no time to live means the library's default.  An
    invite that was there at the start is there unchanged unless a request named
    it to be deleted. *)
Theorem invites_exact g es :
  (forall code c, invites (run g es) !! code = Some c ->
     invites g !! code = Some c \/
     exists es1 e es2, es = es1 ++ e :: es2 /\ invites (run g es1) !! code = None /\ ic_Code c = code /\
       sanctioned config (Clock (g_store (run g es1))) e c) /\
  (forall code c, invites g !! code = Some c -> invites (run g es) !! code = Some c \/ exists e, e ∈ es /\ revokes e code).
Proof using Type*.
  induction es as [|e es [IH1 IH2]] using rev_ind; [split; intros; by left|].
  rewrite grun_snoc. destruct (gstep_invites e (run g es)) as [Hc|[(c0 & Hf & Hc & Hs)|(code0 & Hr & Hc)]]; rewrite Hc.
  - split; intros code c Hcc; [apply IH1 in Hcc as [?|(es1 & e1 & es2 & -> & ?)]|apply IH2 in Hcc as [?|(e1 & ? & ?)]]; [by left| |by left|].
    + right. exists es1, e1, (es2 ++ [e]). by rewrite <- app_assoc.
    + right. exists e1. by rewrite elem_of_app; auto.
  - split; intros code c Hcc.
    + destruct (decide (code = ic_Code c0)) as [->|Hne].
      * rewrite lookup_insert_eq in Hcc. injection Hcc as <-. right. by exists es, e, [].
      * rewrite lookup_insert_ne in Hcc by done. apply IH1 in Hcc as [?|(es1 & e1 & es2 & -> & ?)]; [by left|].
        right. exists es1, e1, (es2 ++ [e]). by rewrite <- app_assoc.
    + apply IH2 in Hcc as [Hcc|(e1 & ? & ?)]; [left|right; exists e1; by rewrite elem_of_app; auto].
      rewrite lookup_insert_ne; [done|]. intros <-. by rewrite Hf in Hcc.
  - split; intros code c Hcc.
    + apply lookup_delete_Some in Hcc as [_ Hcc]. apply IH1 in Hcc as [?|(es1 & e1 & es2 & -> & ?)]; [by left|].
      right. exists es1, e1, (es2 ++ [e]). by rewrite <- app_assoc.
    + apply IH2 in Hcc as [Hcc|(e1 & ? & ?)]; [|right; exists e1; by rewrite elem_of_app; auto].
      destruct (decide (code0 = code)) as [->|Hne]; [right; exists e; by rewrite elem_of_app, list_elem_of_singleton; auto|].
      left. by rewrite lookup_delete_ne.
Qed.

Context `{!Handler86 runs}.

(** A key that is no administrator's, in any spelling. *)
Definition stranger (caller : string) : Prop := forall a, a ∈ nip86Admins config -> EqualFold a caller = false.

Lemma stranger_isAdmin caller : stranger caller -> isAdmin config caller = false.
Proof using Type*.
  intros Hs. destruct (isAdmin config caller) eqn:E; [|done]. apply existsb_elem in E as (a & Ha & He).
  apply String.eqb_eq in He as <-. apply Hs in Ha. unfold EqualFold in Ha. by rewrite String.eqb_refl in Ha.
Qed.

(** A stranger's request does nothing, or it is a member's [createclaim]. *)
Lemma stranger_step caller o m req g :
  stranger caller ->
  step g (Manage caller o m req) = g \/
  (m = MembershipMethod CreateClaim /\ membershipMemberClaims config = true /\ is_Some (members (g_store g) !! caller) /\
   step g (Manage caller o m req) =
     mkManaged (serve_membership config rooms CreateClaim req (g_store g)).2 (g_moderation g) (g_disk g)).
Proof using Type*.
  intros Hs. cbn [gstep]. unfold newNip86Handler. destruct (nip86Enabled config); [|by left]. cbn [negb].
  unfold refuse_if. destruct (Nat.eqb _ 0); [by left|]. cbn [mbind result_bind].
  set (h := mkHandler _ _ _). destruct (runs h caller m (g_store g)) eqn:Er; [|by left].
  destruct (runs_caller _ _ _ _ Er) as [(a & Ha & He)|(f & Hf & Hm)]; [by rewrite (Hs a Ha) in He|].
  subst h. cbn in Hf. destruct (membershipOn config && membershipMemberClaims config) eqn:Eon; [|done].
  injection Hf as <-. apply andb_true_iff in Eon as [Hon Hcl].
  pose proof (runs_visible _ _ _ _ _ Er eq_refl) as Hv. unfold visible in Hv. rewrite (stranger_isAdmin _ Hs) in Hv.
  destruct m as [|[]|]; try done; [by left|]. right. cbn [dispatch]. rewrite Hon. split_and!; try done. by apply IsMember_spec.
Qed.

(** C31: requests of callers that are no administrators change neither the
    moderation nor its file, nor members, roles or invites that are there; all
    they can do is to add invites with [createclaim], on the relay's default
    terms, and only where members may and the caller is one. *)
Theorem member_confined g es :
  Forall (fun e => exists caller o m req, e = Manage caller o m req /\ stranger caller) es ->
  g_moderation (run g es) = g_moderation g /\ g_disk (run g es) = g_disk g /\
  members (g_store (run g es)) = members (g_store g) /\ events (g_store (run g es)) = events (g_store g) /\
  (forall code c, invites g !! code = Some c -> invites (run g es) !! code = Some c) /\
  (forall code c, invites (run g es) !! code = Some c ->
     invites g !! code = Some c \/
     exists es1 caller o req es2, es = es1 ++ Manage caller o (MembershipMethod CreateClaim) req :: es2 /\
       membershipMemberClaims config = true /\ is_Some (members (g_store g) !! caller) /\ ic_Code c = code /\
       sanctioned config (Clock (g_store (run g es1))) (Manage caller o (MembershipMethod CreateClaim) req) c).
Proof using Type*.
  induction es as [|e es IH] using rev_ind; [intros _; split_and!; auto|].
  intros [Hes (caller & o & m & req & -> & Hs)%Forall_singleton]%Forall_app. destruct (IH Hes) as (Hmd & Hd & Hm & He & Hk & Ho). clear IH.
  rewrite grun_snoc.
  assert (Hold : forall code c, invites (run g es) !! code = Some c -> invites g !! code = Some c \/
     exists es1 caller0 o0 req0 es2, es ++ [Manage caller o m req] = es1 ++ Manage caller0 o0 (MembershipMethod CreateClaim) req0 :: es2 /\
       membershipMemberClaims config = true /\ is_Some (members (g_store g) !! caller0) /\ ic_Code c = code /\
       sanctioned config (Clock (g_store (run g es1))) (Manage caller0 o0 (MembershipMethod CreateClaim) req0) c).
  { intros code c [?|(es1 & k & o' & r' & es2 & -> & ?)]%Ho; [by left|]. right. exists es1, k, o', r', (es2 ++ [Manage caller o m req]).
    by rewrite <- app_assoc. }
  destruct (stranger_step caller o m req (run g es) Hs) as [->|(-> & Hcl & Hmem & ->)]; [by split_and!|].
  cbn [g_moderation g_disk g_store].
  destruct (createclaim_step config rooms caller o req (g_store (run g es))) as [(c0 & Hf & Hc & Hmb & Hev & Hsan)|(Hc & Hmb & Hev)];
    rewrite Hmd, Hd, Hmb, Hev, Hc; split_and!; try done.
  - intros code c Hcc. rewrite lookup_insert_ne; [by apply Hk|]. intros <-. by rewrite (Hk _ _ Hcc) in Hf.
  - intros code c Hcc. destruct (decide (code = ic_Code c0)) as [->|Hne]; [|by rewrite lookup_insert_ne in Hcc; auto].
    rewrite lookup_insert_eq in Hcc. injection Hcc as <-. right. exists es, caller, o, req, []. rewrite <- Hm. by split_and!.
Qed.
End Runs.

(** ** Roles *)

Lemma with_role_spec id assign roles x :
  x ∈ with_role id assign roles <-> (x ∈ roles /\ (x <> id \/ assign = true)) \/ (x = id /\ assign = true).
Proof.
  unfold with_role.
  assert (Hk : x ∈ List.filter (fun x => negb (String.eqb x id) || assign) roles <-> x ∈ roles /\ (x <> id \/ assign = true)).
  { rewrite !list_elem_of_In, filter_In, orb_true_iff, negb_true_iff, String.eqb_neq. done. }
  destruct assign; cbn [andb]; [|rewrite Hk; naive_solver].
  destruct (existsb (String.eqb id) roles) eqn:E; cbn [negb].
  - rewrite Hk. split; [by left|]. intros [?|[-> _]]; [done|]. apply existsb_elem in E as (y & Hy & ->%String.eqb_eq). naive_solver.
  - rewrite elem_of_app, list_elem_of_singleton, Hk. naive_solver.
Qed.

(** Assigning or taking a role changes that role of that member and nothing
    else; it fails, and changes nothing, for a key that is no member. *)
Lemma setMemberRoles_exact {W} `{MemberModel W} `{Nip43} pk id assign (w : W) :
  let w' := (setMemberRoles pk id assign w).2 in
  claims w' = claims w /\ events w' = events w /\
  (members w' = members w \/
   exists old new, members w !! pk = Some old /\ members w' = <[pk := new]> (members w) /\ mr_Pubkey new = pk /\
     forall x, x ∈ mr_Roles new <-> (x ∈ mr_Roles old /\ (x <> id \/ assign = true)) \/ (x = id /\ assign = true)).
Proof.
  cbn zeta. destruct (setMemberRoles pk id assign w) as [r w'] eqn:E. cbn [snd].
  unfold setMemberRoles, checkPubkey, throw_if, reads, mbind, act_bind in E.
  destruct (Validate32Key pk); [injection E as _ <-; by split_and!; auto|]. cbn in E.
  destruct (is_empty id); cbn in E; [injection E as _ <-; by split_and!; auto|].
  destruct (Member_Get pk w) as [[rec|]|] eqn:Eg; [|injection E as _ <-; by split_and!; auto..].
  apply Get_spec in Eg. pose proof (Join_spec pk (with_role id assign (mr_Roles rec)) w) as Hj.
  destruct (Member_Join _ _ w) as [[u|] w1]; destruct Hj as (Hc & He & Hm); [|injection E as _ <-; by split_and!; auto].
  assert (w1 = w') as <- by (by injection E). split; [done|]. split; [done|]. right. destruct Hm as (new & Hp & Hr & Hm).
  exists rec, new. split_and!; try done. intros x. rewrite Hr. apply with_role_spec.
Qed.

(** ** An instance *)

(** A relay in memory. *)
Record mem := mkMem {
  mm_now : Z;
  mm_claims : gmap string InviteClaim;
  mm_members : gmap string MemberRecord;
  mm_events : list Event;
}.

Definition mem_claims (f : gmap string InviteClaim -> gmap string InviteClaim) (w : mem) : mem :=
  mkMem (mm_now w) (f (mm_claims w)) (mm_members w) (mm_events w).
Definition mem_members (f : gmap string MemberRecord -> gmap string MemberRecord) (w : mem) : mem :=
  mkMem (mm_now w) (mm_claims w) (f (mm_members w)) (mm_events w).

(** A code longer than all that are there. *)
Definition new_code (m : gmap string InviteClaim) : string := foldr String.append "generated-claim-"%string (map_to_list m).*1.

Lemma new_code_longer l (k : string) : k ∈ l -> (String.length k < String.length (foldr String.append "generated-claim-"%string l))%nat.
Proof.
  induction l as [|x l IH]; [by intros ?%elem_of_nil|]. intros [->|Hk]%elem_of_cons; cbn -[String.append String.length]; rewrite length_append.
  - clear IH. induction l as [|y l IH]; [cbn; lia|]. cbn -[String.append String.length]. rewrite length_append. lia.
  - specialize (IH Hk). lia.
Qed.

Lemma new_code_free (m : gmap string InviteClaim) : m !! new_code m = None.
Proof.
  destruct (m !! new_code m) as [c|] eqn:E; [|done]. exfalso. apply elem_of_map_to_list in E.
  assert (Hk : new_code m ∈ (map_to_list m).*1) by (apply list_elem_of_fmap; by exists (new_code m, c)).
  apply new_code_longer in Hk. unfold new_code in Hk. lia.
Qed.

#[export] Instance mem_store : MemberStore mem := {|
  Clock := mm_now;
  IsMember w pk := bool_decide (is_Some (mm_members w !! pk));
  Member_Get pk w := Ok (mm_members w !! pk);
  Member_List w := Ok (map_to_list (mm_members w)).*2;
  Member_Join pk roles w := (Ok (), mem_members <[pk := mkMember pk roles]> w);
  Member_Leave pk w := (Ok (), mem_members (delete pk) w);
  IssueInvite ttl uses roles w :=
    let c := mkClaim (new_code (mm_claims w)) (Time_Unix (mm_now w))
               (Time_Unix (Time_Add (mm_now w) (if 0 <? ttl then ttl else defaultInviteTTL))) uses 0 roles in
    (Ok c, mem_claims <[ic_Code c := c]> w);
  NewClaim w := (new_code (mm_claims w), w);
  GetInviteClaim code w := Ok (mm_claims w !! code);
  PutInviteClaim c w := (Ok (), mem_claims <[ic_Code c := c]> w);
  DeleteInviteClaim code w := (Ok (), mem_claims (delete code) w);
  ListInviteClaims w := Ok (map_to_list (mm_claims w)).*2;
  QueryRoles _ w := Ok (mm_events w);
  InsertEvents evs w := (Ok (), mkMem (mm_now w) (mm_claims w) (mm_members w) (evs ++ mm_events w));
  EvictPubkey _ w := w;
|}.

#[export] Program Instance mem_model : MemberModel mem := {|
  claims := mm_claims;
  members := mm_members;
  events := mm_events;
  sdk_ttl := defaultInviteTTL;
|}.
Next Obligation. intros w pk. cbn. by rewrite bool_decide_eq_true. Qed.
Next Obligation. intros pk w r [= <-]. done. Qed.
Next Obligation. intros pk roles w. cbn. split_and!; try done. by exists (mkMember pk roles). Qed.
Next Obligation. by intros. Qed.
Next Obligation.
  intros ttl uses roles w. cbn. split_and!; try done. apply new_code_free.
Qed.
Next Obligation. intros w. cbn. split_and!; try done. apply new_code_free. Qed.
Next Obligation. intros code w r [= <-]. done. Qed.
Next Obligation. by intros. Qed.
Next Obligation. by intros. Qed.
Next Obligation. by intros. Qed.
Next Obligation. by intros. Qed.

(** [nip86.Handler], and events that are signed by being left as they are. *)
Definition runs_ {W} (h : @HandlerConfig W) (caller : string) (m : nip86_method) (w : W) : bool :=
  (existsb (fun a => EqualFold a caller) (hc_AllowedPubkeys h) || match hc_Authorize h with Some f => f w caller | None => false end) &&
  match hc_Visible h with Some f => f caller m | None => true end.

#[export] Instance runs_handler {W} : Handler86 (@runs_ W).
Proof.
  split.
  - intros h caller m w [[Ha|Ha]%orb_true_iff _]%andb_true_iff.
    + left. apply existsb_elem in Ha. naive_solver.
    + right. destruct (hc_Authorize h) as [f|]; [|done]. by exists f.
  - intros h caller m w f [_ Hv]%andb_true_iff Hf. by rewrite Hf in Hv.
Qed.

#[export] Instance ex_nip43 : Nip43 := {|
  Validate32Key k := if is_empty k then Some "empty"%string else None;
  NewAddUser _ pk := mkEvent "" pk 0 8000 [] "" "";
  NewRemoveUser _ pk := mkEvent "" pk 0 8001 [] "" "";
  ParseRole _ := None;
  NewRoleDefinition _ r := mkEvent "" "" 0 33534 [] (rj_ID r) "";
  NewDeletionEvent _ tags := mkEvent "" "" 0 5 tags "" "";
  SignEvent _ ev := Ok ev;
|}.

Definition ex_DeleteAll (w : mem) (evs : list Event) : option merr * mem := (None, w).

#[export] Instance ex_deletes : Deletes ex_DeleteAll.
Proof. by split. Qed.

#[export] Instance ex_codec : ModCodec := {| mod_Marshal _ := ""%string; mod_Unmarshal _ := Ok no_moderation |}.

Definition ex_config : RelayConfig :=
  mkRelayConfig "relay" "relay" "secret" (Some (mkMembership true "1h" 5 false "2h" None false)) (Some (mkNip86 true ["admin"%string])).

Definition ex_request (params : list string) (lim : inviteLimits) : nip86_request :=
  mkReq (mkRequest (match il_ExpiresAt lim with Some _ => 2 | None => length params end)
           (fun i => match params !! i with Some s => Ok s | None => Err "missing"%string end) (fun _ => Err ""%string))
        (Ok lim) (Err ""%string).

Definition ex_now : Z := Unix_ 1700000000.
Definition ex_relay : managed (W := mem) :=
  mkManaged (mkMem ex_now ∅ {["alice"%string := mkMember "alice" []]} []) (mkRelayModeration "relay" no_moderation) (mkDisk None None).

Definition ex_run : managed -> list request -> managed :=
  grun ex_config false (@runs_ mem) (fun s => Ok s) (fun _ _ => Ok []) ex_DeleteAll.

Definition no_limits : inviteLimits := mkLimits None None.

(** Alice, a member, names a code and tries to set its limits and to delete
    what an administrator issued; Bob is nobody. *)
Definition ex_members_requests : list request :=
  [Manage "alice" SaveWorks (MembershipMethod CreateClaim) (ex_request ["alices-friends-2024"%string] no_limits);
   Manage "alice" SaveWorks (MembershipMethod CreateClaimWithLimits)
     (ex_request ["alices-friends-2025"%string] (mkLimits (Some 1700003600) (Some 1)));
   Manage "alice" SaveWorks (MembershipMethod AllowPubkey) (ex_request ["carol"%string] no_limits);
   Manage "bob" SaveWorks (MembershipMethod CreateClaim) (ex_request ["bobs-friends-2024"%string] no_limits);
   Manage "alice" SaveWorks (ModerationMethod ChangeRelayName) (ex_request ["alice's"%string] no_limits)].

Lemma member_confined_witness :
  members (g_store (ex_run ex_relay ex_members_requests)) = {["alice"%string := mkMember "alice" []]} /\
  claims (g_store (ex_run ex_relay ex_members_requests)) !! "alices-friends-2024"%string =
    Some (mkClaim "alices-friends-2024" 1700000000 1700003600 5 0 []) /\
  size (claims (g_store (ex_run ex_relay ex_members_requests))) = 1%nat /\
  g_moderation (ex_run ex_relay ex_members_requests) = g_moderation ex_relay.
Proof.
  destruct (member_confined ex_config false (@runs_ mem) (fun s => Ok s) (fun _ _ => Ok []) ex_DeleteAll ex_relay ex_members_requests)
    as (Hmd & _ & Hm & _).
  { repeat constructor; do 4 eexists; (split; [reflexivity|]); intros a [->|[->|[]%elem_of_nil]%elem_of_cons]%elem_of_cons; vm_compute; reflexivity. }
  split; [exact Hm|]. split; [vm_compute; reflexivity|]. split; [vm_compute; reflexivity|exact Hmd].
Defined.

(** An administrator issues with limits within the two hours, cannot take the
    code again or exceed them, and a REST request makes a code of the relay's. *)
Definition ex_admin_requests : list request :=
  [Manage "admin" SaveWorks (MembershipMethod CreateClaimWithLimits)
     (ex_request ["spring-gathering"%string] (mkLimits (Some 1700007200) (Some 3)));
   Manage "admin" SaveWorks (MembershipMethod CreateClaim) (ex_request ["spring-gathering"%string] no_limits);
   Manage "admin" SaveWorks (MembershipMethod CreateClaimWithLimits)
     (ex_request ["summer-gathering"%string] (mkLimits (Some 1700007201) None));
   Rest (InviteCreate "30m" None 2 ["guest"%string])].

Lemma invites_exact_witness :
  claims (g_store (ex_run ex_relay ex_admin_requests)) !! "spring-gathering"%string =
    Some (mkClaim "spring-gathering" 1700000000 1700007200 3 0 []) /\
  size (claims (g_store (ex_run ex_relay ex_admin_requests))) = 2%nat /\
  exists es1 e es2, ex_admin_requests = es1 ++ e :: es2 /\
    sanctioned ex_config (Clock (g_store (ex_run ex_relay es1))) e (mkClaim "spring-gathering" 1700000000 1700007200 3 0 []).
Proof.
  split; [vm_compute; reflexivity|]. split; [vm_compute; reflexivity|].
  destruct (proj1 (invites_exact ex_config false (@runs_ mem) (fun s => Ok s) (fun _ _ => Ok []) ex_DeleteAll ex_relay ex_admin_requests)
              "spring-gathering"%string (mkClaim "spring-gathering" 1700000000 1700007200 3 0 [])) as [Hn|(es1 & e & es2 & He & _ & _ & Hs)];
    [vm_compute; reflexivity|discriminate Hn|].
  exists es1, e, es2. split; [exact He|exact Hs].
Defined.

(** ** Where the code departs *)

(** A member that is banned still issues invites: [Authorize] asks only whether
    it is a member. *)
Example banned_member_invites :
  let g := ex_run ex_relay
    [Manage "admin" SaveWorks (ModerationMethod BanPubkey) (ex_request ["alice"%string] no_limits);
     Manage "alice" SaveWorks (MembershipMethod CreateClaim) (ex_request ["alices-friends-2024"%string] no_limits)] in
  bannedPubkey (Some (g_moderation g)) "alice" = true /\ is_Some (claims (g_store g) !! "alices-friends-2024"%string).
Proof. vm_compute. eauto. Qed.

(** A REST request that gives a time to live is not held to the longest one
    configured, two hours here; the same expiry as a date is refused. *)
Example rest_ttl_unbounded :
  let g := ex_run ex_relay [Rest (InviteCreate "1000h" None 2 [])] in
  ic_ExpiresAt <$> (map_to_list (claims (g_store g))).*2 = [1700000000 + 1000 * 3600] /\
  claims (g_store (ex_run ex_relay [Rest (InviteCreate "" (Some (1700000000 + 1000 * 3600)) 2 [])])) = claims (g_store ex_relay).
Proof. vm_compute. done. Qed.

(** Two requests for one code that both look before either writes: the second
    replaces the first one's invite, with the use it had. *)
Example concurrent_claims_reset :
  let w := g_store ex_relay in
  let c := mkClaim "spring-gathering" 1700000000 1700003600 1 0 [] in
  (invite_check "spring-gathering" w).1 = Ok () /\
  let w1 := (invite_put c w).2 in
  let used := mem_claims <["spring-gathering"%string := mkClaim "spring-gathering" 1700000000 1700003600 1 1 []]> w1 in
  (invite_check "spring-gathering" used).1 = Err (BadInput "that invite code already exists") /\
  claims (invite_put c used).2 !! "spring-gathering"%string = Some c.
Proof. vm_compute. done. Qed.

(** Two assignments that both read the member before either writes: one role is
    lost. *)
Example concurrent_roles_lost :
  let w := g_store ex_relay in
  let roles := match members w !! "alice"%string with Some r => mr_Roles r | None => [] end in
  let w1 := (Member_Join "alice" (with_role "editor" true roles) w).2 in
  let w2 := (Member_Join "alice" (with_role "host" true roles) w1).2 in
  members w2 !! "alice"%string = Some (mkMember "alice" ["host"%string]) /\
  members (setMemberRoles "alice" "host" true w1).2 !! "alice"%string = Some (mkMember "alice" ["editor"; "host"]%string).
Proof. vm_compute. done. Qed.

(** ** The community's settings *)

(** [src/cli/relay/service_community.go]: which keys the Blossom server admits
    and the check of its paths. *)
Record BlossomConfig := mkBlossom {
  bl_Enabled : bool;
  bl_PublicURL : string;
  bl_UploadPaths : list string;
  bl_BlobPrefix : string;
  bl_MembersUpload : option bool;
  bl_MembersDownload : bool;
  bl_Kind : string;
  bl_S3_Endpoint : string;
  bl_S3_Bucket : string;
}.

(** [groups.membershipNotices] and [presence]: enabled, with their kinds. *)
Record CommunityConfig := mkCommunity {
  cc_PrivKey : string;
  cc_URL : string;
  cc_MembershipRequired : bool;
  cc_Notices : option (bool * Z * Z);
  cc_Presence : option (bool * Z);
  cc_QueryEnabled : bool;
  cc_Blossom : option BlossomConfig;
}.

Section Community.
(** [url.Parse] (scheme and host) and the constants of the nmilat relay. *)
Context (parse_url : string -> option (string * string)) (default_added default_removed default_presence : Z).

Definition memberNotices (c : CommunityConfig) : option (Z * Z) :=
  match cc_Notices c with
  | Some (true, a, r) => Some (if a =? 0 then default_added else a, if r =? 0 then default_removed else r)
  | _ => None
  end.

Definition presenceKind (c : CommunityConfig) : Z :=
  match cc_Presence c with
  | Some (true, k) => if k =? 0 then default_presence else k
  | _ => 0
  end.

Definition relayAuthoredKinds (c : CommunityConfig) : list Z :=
  match memberNotices c with Some (a, r) => [a; r] | None => [] end ++
  (if presenceKind c =? 0 then [] else [presenceKind c]).

Definition TrimSuffix (s p : string) : string := default s (CutSuffix s p).

Definition blossomPublicURL (c : CommunityConfig) : string :=
  let url := match cc_Blossom c with Some b => bl_PublicURL b | None => ""%string end in
  if negb (is_empty url) then TrimSuffix url "/" else
  match parse_url (cc_URL c) with
  | None => ""%string
  | Some (scheme, host) =>
      if is_empty host then ""%string else
      let scheme := if String.eqb scheme "wss" then "https"%string else if String.eqb scheme "ws" then "http"%string else scheme in
      (scheme ++ "://" ++ host)%string
  end.

Definition uploadPaths (b : BlossomConfig) : list string :=
  match bl_UploadPaths b with [] => ["/upload"; "/media/upload"]%string | ps => ps end.

Definition blobPrefix (b : BlossomConfig) : string :=
  if is_empty (bl_BlobPrefix b) then "/media"%string else TrimSuffix (bl_BlobPrefix b) "/".

Definition reservedPaths : list string := ["/query"; "/events"; "/count"; "/_home"; "/metrics"; "/admin"; "/huddle"]%string.

(** A path that is no path, or one of the relay's own. *)
Definition no_path (p : string) : bool := negb (HasPrefix p "/") || String.eqb p "/".
Definition reserved (p : string) : bool := existsb (fun r => String.eqb p r || HasPrefix p (r ++ "/")) reservedPaths.

Definition check_path (p : string) : result string unit :=
  refuse_if (no_path p) ("blossom path " ++ p ++ " must start with / and name a path")%string;;
  refuse_if (reserved p) ("blossom path " ++ p ++ " collides with one of the relay's own routes")%string.

(** [checkCommunityConfig], the part on Blossom. *)
Definition check_blossom (c : CommunityConfig) (b : BlossomConfig) : result string unit :=
  refuse_if (is_empty (blossomPublicURL c)) "blossom needs blossom.publicURL or nip11.url: an upload must name the relay's host"%string;;
  refuse_if (no_path (blobPrefix b)) ("blossom.blobPrefix must be a path such as /media, not " ++ bl_BlobPrefix b)%string;;
  mapM_res check_path (blobPrefix b :: uploadPaths b);;
  (if is_empty (bl_Kind b) || String.eqb (bl_Kind b) "dir" then Ok ()
   else if String.eqb (bl_Kind b) "s3"
   then refuse_if (is_empty (bl_S3_Endpoint b) || is_empty (bl_S3_Bucket b)) "blossom.storage.s3 needs endpoint and bucket"%string
   else Err ("blossom.storage.kind must be dir or s3, not " ++ bl_Kind b)%string).

Definition checkCommunityConfig (c : CommunityConfig) : result string unit :=
  match memberNotices c with
  | Some (a, r) =>
      refuse_if (is_empty (cc_PrivKey c)) "groups.membershipNotices needs nip11.privkey: the relay signs each notice"%string;;
      refuse_if ((a =? r) || (a <? 0) || (r <? 0)) "groups.membershipNotices.added and .removed must be two different kinds"%string
  | None => Ok ()
  end;;
  (if presenceKind c =? 0 then Ok () else
     refuse_if (is_empty (cc_PrivKey c)) "presence needs nip11.privkey: the relay signs each answer"%string;;
     refuse_if (negb (cc_QueryEnabled c)) "presence is answered on POST /query: set httpBridge.query.enabled"%string);;
  match cc_Blossom c with
  | Some b => if bl_Enabled b then check_blossom c b else Ok ()
  | None => Ok ()
  end.

(** Whom [newBlossomServer] lets upload, download ([None]: anyone, without
    asking) and delete any blob. *)
Record blossom_gate := mkGate {
  bg_MayUpload : string -> bool;
  bg_MayDownload : option (string -> bool);
  bg_IsAdmin : string -> bool;
}.

Definition newBlossomServer {W} `{MemberStore W} (config : RelayConfig) (c : CommunityConfig) (b : BlossomConfig)
    (moderation : relayModeration) (w : W) : blossom_gate :=
  let isAdmin pk := existsb (fun a => EqualFold a pk) (nip86Admins config) in
  let anyone pk := negb (bannedPubkey (Some moderation) pk) in
  let member pk := anyone pk && (isAdmin pk || IsMember w pk) in
  let members_upload := match bl_MembersUpload b with None => cc_MembershipRequired c | Some u => u end in
  mkGate (if members_upload then member else anyone) (if bl_MembersDownload b then Some member else None) isAdmin.

(** An accepted configuration: Blossom's paths are paths of its own, the kinds
    the relay signs are distinct where they are notices, and signing has a key. *)
Lemma checkCommunityConfig_ok c :
  checkCommunityConfig c = Ok () ->
  (relayAuthoredKinds c <> [] -> cc_PrivKey c <> ""%string) /\
  (forall a r, memberNotices c = Some (a, r) -> a <> r /\ 0 <= a /\ 0 <= r) /\
  (forall b p, cc_Blossom c = Some b -> bl_Enabled b = true -> p ∈ blobPrefix b :: uploadPaths b ->
     no_path p = false /\ forall r, r ∈ reservedPaths -> p <> r /\ HasPrefix p (r ++ "/") = false).
Proof.
  unfold checkCommunityConfig, relayAuthoredKinds. intros Hc. apply bind_Ok in Hc as (u1 & Hn & Hc). apply bind_Ok in Hc as (u2 & Hp & Hb).
  assert (Hkey : forall s : string, is_empty s = false -> s <> ""%string) by (by intros []).
  split_and!.
  - destruct (memberNotices c) as [[a r]|].
    + apply bind_Ok in Hn as (? & Hn & _). apply refuse_if_Ok in Hn. auto.
    + destruct (presenceKind c =? 0); [done|]. apply bind_Ok in Hp as (? & Hp & _). apply refuse_if_Ok in Hp. auto.
  - intros a r E. rewrite E in Hn. apply bind_Ok in Hn as (? & _ & Hn). apply refuse_if_Ok in Hn. propify. lia.
  - intros b p E En Hin. rewrite E, En in Hb. unfold check_blossom in Hb. unbind Hb.
    match goal with Hm : mapM_res check_path _ = Ok _ |- _ => apply mapM_res_Ok in Hm; rename Hm into HF end.
    apply list_elem_of_lookup in Hin as (i & Hi). eapply Forall2_lookup_l in HF as ([] & _ & Hk); [|done].
    unfold check_path in Hk. apply bind_Ok in Hk as (? & H1 & H2). apply refuse_if_Ok in H1, H2. split; [done|].
    intros path Hr. unfold reserved in H2.
    assert (Hf : String.eqb p path || HasPrefix p (path ++ "/") = false).
    { destruct (String.eqb p path || HasPrefix p (path ++ "/")) eqn:Eq; [|done]. exfalso.
      enough (existsb (fun r => String.eqb p r || HasPrefix p (r ++ "/")) reservedPaths = true) by congruence.
      apply existsb_elem. by exists path. }
    propify. done.
Qed.
End Community.

(** A banned administrator is kept from uploading and downloading, and may still
    delete any blob. *)
Example banned_admin_deletes :
  let g := ex_run ex_relay [Manage "relay" SaveWorks (ModerationMethod BanPubkey) (ex_request ["admin"%string] no_limits)] in
  let gate := newBlossomServer ex_config (mkCommunity "secret" "wss://relay" true None None true None)
                (mkBlossom true "" [] "" None true "" "" "") (g_moderation g) (g_store g) in
  bg_MayUpload gate "admin" = false /\ bg_IsAdmin gate "admin" = true.
Proof. vm_compute. done. Qed.
