(* ===== verification/MetricsHistory.v ===== *)
(** * The relay's metrics history

    Models [src/cli/relay/metrics/history.go]: the registry is sampled into a
    ring of points kept as columns, coarser points are rolled up for longer,
    viewers subscribe to new points; and the index collector of [sources.go].
    The registry is a parameter: what [Gather] answers is an argument of
    [Sample].  Numbers are [float64]; the operations the code uses on them are
    the interface [FloatOps], instantiated by [ieee] (rounded to nearest even,
    [None] for NaN) and [exact] (no rounding).  Both leave out infinities. *)
From S2P Require Import Prelude GoTime GoFloat GoStrings.
From stdpp Require Import sorting options.
From Stdlib Require Import QArith.

Local Open Scope Z_scope.

(** ** Numbers *)

Class FloatOps (F : Type) := {
  NaN : F;
  IsNaN : F -> bool;
  of_int : Z -> F;
  hundredths : Z -> F;
  fadd : F -> F -> F;
  fsub : F -> F -> F;
  fmul : F -> F -> F;
  fdiv : F -> F -> F;
  fle : F -> F -> bool;
  flt : F -> F -> bool;
  fmax : F -> F -> F;
}.

(** Comparisons with NaN are false; [math.Max] with NaN is NaN. *)
Definition nan_ops (round : Q -> Q) : FloatOps (option Q) :=
  let op f x y := match x, y with Some x, Some y => Some (round (f x y)) | _, _ => None end in
  let cmp f x y := match x, y with Some x, Some y => f x y | _, _ => false end in
  {| NaN := None;
     IsNaN x := match x with None => true | Some _ => false end;
     of_int z := Some (round (inject_Z z));
     hundredths z := Some (round (Qmake z 100));
     fadd := op Qplus;
     fsub := op Qminus;
     fmul := op Qmult;
     fdiv x y := match y with Some y => if Qeq_bool y 0 then None else op Qdiv x (Some y) | None => None end;
     fle := cmp float64_le;
     flt := cmp float64_lt;
     fmax x y := match x, y with Some x, Some y => Some (if float64_lt x y then y else x) | _, _ => None end |}.

Definition ieee : FloatOps (option Q) := nan_ops float64_round.
Definition exact : FloatOps (option Q) := nan_ops Qred.

(** [t.UnixMilli()] *)
Definition Time_UnixMilli (t : Z) : Z :=
  wrap64 (Time_Unix t * 1000 + (t `mod` Second) `div` Millisecond).

(** [d.Milliseconds()] *)
Definition Milliseconds (d : Z) : Z := d `quot` Millisecond.

Section History.
Context {F : Type} `{FloatOps F}.

(** [d.Seconds()] *)
Definition Seconds (d : Z) : F :=
  fadd (of_int (d `quot` Second)) (fdiv (of_int (d `rem` Second)) (of_int Second)).

(** ** The ring *)

(** [series]: every column aligned with [times], NaN where absent. *)
Record ring := mkRing { capacity : nat; times : list Z; series : gmap string (list F) }.

Definition newRing (c : Z) : ring := mkRing (Z.to_nat (Z.max c 1)) [] ∅.

Definition ring_append (r : ring) (t : Z) (values : gmap string F) : ring :=
  let full := Nat.eqb (length (times r)) (capacity r) in
  let ts := (if full then tail (times r) else times r) ++ [t] in
  let n := length ts in
  let old := map_imap (fun key col =>
    let col := if full && Nat.ltb 0 (length col) then tail col else col in
    Some (col ++ [default NaN (values !! key)])) (series r) in
  let fresh := (fun v => <[(n - 1)%nat := v]> (replicate n NaN)) <$> values in
  mkRing (capacity r) ts (old ∪ fresh).

(** ** Points and samples *)

Record Point := mkPoint { p_Time : Z; p_Values : gmap string F; p_Totals : gmap string F }.

Record sample := mkSmp { sm_at : Z; sm_value : F; sm_buckets : list F; sm_count : F }.

Record accum := mkAccum { a_sum : F; a_max : F; a_n : F }.

(** What [Gather] answers: families of metrics.  A getter on a missing part
    answers the zero value, so a metric has every part. *)
Inductive MetricType := COUNTER | GAUGE | SUMMARY | UNTYPED | HISTOGRAM | GAUGE_HISTOGRAM.

Record Bucket := mkBucket { bk_UpperBound : F; bk_CumulativeCount : Z }.

Record Metric := mkMetric {
  mt_Label : list (string * string);
  mt_Counter : F;
  mt_Gauge : F;
  mt_SampleCount : Z;
  mt_Bucket : list Bucket;
}.

Record MetricFamily := mkFamily { mf_Name : string; mf_Type : MetricType; mf_Metric : list Metric }.

Definition Namespace : string := "ncli_relay".

Definition keptRuntime : gmap string string :=
  <["go_goroutines"%string := "goroutines"%string]>
  (<["go_memstats_heap_alloc_bytes"%string := "heap_bytes"%string]>
  (<["go_gc_duration_seconds"%string := "gc_seconds"%string]>
  (<["process_resident_memory_bytes"%string := "rss_bytes"%string]>
  (<["process_cpu_seconds_total"%string := "cpu_seconds_total"%string]>
  (<["process_open_fds"%string := "open_fds"%string]> ∅))))).

Definition seriesName (full : string) : option string :=
  match CutPrefix full (Namespace +:+ "_") with
  | Some short => Some short
  | None => keptRuntime !! full
  end.

(** Label names of a metric are distinct, so the order of the sort is fixed. *)
Definition labelSuffix (m : Metric) : string :=
  let sorted := merge_sort (fun a b : string * string => String.le a.1 b.1) (mt_Label m) in
  foldl (fun b l => if String.eqb l.1 "version" then b else (b +:+ ":" +:+ l.2)) ""%string sorted.

Definition rate (prev cur : F) (d : Z) : F :=
  if (d <=? 0) || flt cur prev then of_int 0
  else fdiv (fsub cur prev) (Seconds d).

(** The loop over the bounds; [cumulative] has a count per bound. *)
Fixpoint quantile_loop (rank lower below : F) (bs : list (F * F)) : option F :=
  match bs with
  | [] => None
  | (upper, c) :: bs =>
      if fle rank c then
        let inBucket := fsub c below in
        if fle inBucket (of_int 0) then Some upper
        else Some (fadd lower (fdiv (fmul (fsub upper lower) (fsub rank below)) inBucket))
      else quantile_loop rank upper c bs
  end.

Definition quantile (q : F) (bounds cumulative : list F) (total : F) : F :=
  let rank := fmul q total in
  match quantile_loop rank (of_int 0) (of_int 0) (zip bounds cumulative) with
  | Some v => v
  | None => default NaN (last bounds)
  end.

Definition isQuantile (key : string) : bool :=
  HasSuffix key ".p50" || HasSuffix key ".p95" || HasSuffix key ".p99".

(** What the loops of [Sample] fill: the point's values and totals, and the
    samples the next call compares with. *)
Record filling := mkFilling { f_Values : gmap string F; f_Totals : gmap string F; f_next : gmap string sample }.

Definition sample_histogram (prev : gmap string sample) (now : Z) (key : string) (m : Metric) (p : filling) : filling :=
  let bounds := bk_UpperBound <$> mt_Bucket m in
  let cur := mkSmp now (of_int 0) ((fun b => of_int (bk_CumulativeCount b)) <$> mt_Bucket m) (of_int (mt_SampleCount m)) in
  let totals := <[key +:+ ".count" := sm_count cur]> (f_Totals p) in
  let values :=
    match prev !! key with
    | Some pv =>
        if Nat.eqb (length (sm_buckets pv)) (length (sm_buckets cur)) then
          let delta := zip_with fsub (sm_buckets cur) (sm_buckets pv) in
          let n := fsub (sm_count cur) (sm_count pv) in
          let values := <[key +:+ ".rate" := rate (sm_count pv) (sm_count cur) (Time_Sub now (sm_at pv))]> (f_Values p) in
          if flt (of_int 0) n then
            <[key +:+ ".p99" := quantile (hundredths 99) bounds delta n]>
            (<[key +:+ ".p95" := quantile (hundredths 95) bounds delta n]>
            (<[key +:+ ".p50" := quantile (hundredths 50) bounds delta n]> values))
          else values
        else f_Values p
    | None => f_Values p
    end in
  mkFilling values totals (<[key := cur]> (f_next p)).

Definition sample_metric (prev : gmap string sample) (now : Z) (name : string) (ty : MetricType) (p : filling) (m : Metric) : filling :=
  let key := (name +:+ labelSuffix m) in
  match ty with
  | COUNTER =>
      let v := mt_Counter m in
      mkFilling
        (match prev !! key with
         | Some pv => <[key := rate (sm_value pv) v (Time_Sub now (sm_at pv))]> (f_Values p)
         | None => f_Values p
         end)
        (<[key := v]> (f_Totals p))
        (<[key := mkSmp now v [] (of_int 0)]> (f_next p))
  | GAUGE => mkFilling (<[key := mt_Gauge m]> (f_Values p)) (f_Totals p) (f_next p)
  | HISTOGRAM => sample_histogram prev now key m p
  | _ => p
  end.

Definition sample_family (prev : gmap string sample) (now : Z) (p : filling) (fam : MetricFamily) : filling :=
  match seriesName (mf_Name fam) with
  | Some name => foldl (sample_metric prev now name (mf_Type fam)) p (mf_Metric fam)
  | None => p
  end.

(** ** The history *)

(** A viewer's channel holds at most one point.  [chans] has every channel
    made, [subs] those still subscribed. *)
Record History := mkHistory {
  interval : Z;
  raw : ring;
  rollup : option ring;
  step : Z;
  bucket : Z;
  acc : gmap string accum;
  latest : Point;
  prev : gmap string sample;
  subs : gset nat;
  chans : list (option Point);
}.

Definition maxSubscribers : nat := 8.

Definition NewHistory (interval window : Z) : History :=
  mkHistory interval (newRing (window `quot` interval)) None 0 0 ∅ (mkPoint 0 ∅ ∅) ∅ ∅ [].

Definition WithRollup (h : History) (step window : Z) : History :=
  mkHistory (interval h) (raw h) (Some (newRing (window `quot` step))) (Milliseconds step)
    (bucket h) ∅ (latest h) (prev h) (subs h) (chans h).

(** [roll], first part: the values of the bucket that is closed. *)
Definition closed_values (acc : gmap string accum) : gmap string F :=
  map_imap (fun key a => Some (if isQuantile key then a_max a else fdiv (a_sum a) (a_n a))) acc.

(** [roll], last part: a point is added to the bucket being filled. *)
Definition accumulate (acc : gmap string accum) (values : gmap string F) : gmap string accum :=
  map_imap (fun key v =>
    let a := default (mkAccum (of_int 0) v (of_int 0)) (acc !! key) in
    Some (mkAccum (fadd (a_sum a) v) (fmax (a_max a) v) (fadd (a_n a) (of_int 1)))) values ∪ acc.

(** On the ring, the bucket and what it has so far. *)
Definition roll (step : Z) (s : ring * Z * gmap string accum) (p : Point) : ring * Z * gmap string accum :=
  let '(r, bucket, acc) := s in
  let b := p_Time p - p_Time p `rem` step in
  let '(r, acc) :=
    if negb (b =? bucket) && negb (bool_decide (acc = ∅))
    then (ring_append r bucket (closed_values acc), ∅)
    else (r, acc) in
  (r, b, accumulate acc (p_Values p)).

(** A channel of one place: a send into a full one is skipped. *)
Definition offer (p : Point) (c : option Point) : option Point :=
  match c with None => Some p | Some q => Some q end.

Definition publish (h : History) (p : Point) : History :=
  mkHistory (interval h) (raw h) (rollup h) (step h) (bucket h) (acc h) (latest h) (prev h) (subs h)
    (imap (fun i c => if bool_decide (i ∈ subs h) then offer p c else c) (chans h)).

(** [Sample] of what [Gather] answered: the families and whether it failed. *)
Definition sample_point (h : History) (now : Z) (fams : list MetricFamily) : Point * gmap string sample :=
  let f := foldl (sample_family (prev h) now) (mkFilling ∅ ∅ ∅) fams in
  (mkPoint (Time_UnixMilli now) (f_Values f) (f_Totals f), f_next f).

Definition record_point (h : History) (p : Point) (next : gmap string sample) : History :=
  let raw' := ring_append (raw h) (p_Time p) (p_Values p) in
  match rollup h with
  | None => mkHistory (interval h) raw' None (step h) (bucket h) (acc h) p next (subs h) (chans h)
  | Some r =>
      let '(r, b, acc) := roll (step h) (r, bucket h, acc h) p in
      mkHistory (interval h) raw' (Some r) (step h) b acc p next (subs h) (chans h)
  end.

Definition Sample (h : History) (now : Z) (gathered : list MetricFamily * bool) : History :=
  let '(fams, failed) := gathered in
  if failed && Nat.eqb (length fams) 0 then h
  else
    let '(p, next) := sample_point h now fams in
    publish (record_point h p next) p.

(** ** Reading it *)

Record Columns := mkColumns { c_Interval : Z; c_Window : Z; c_Times : list Z; c_Series : gmap string (list F) }.

(** [col[i]] out of range panics. *)
Definition appendColumn (dst : list F) (col : option (list F)) (n : nat) : option (list F) :=
  match col with
  | None => Some (dst ++ replicate n NaN)
  | Some col => if Nat.leb n (length col) then Some (dst ++ take n col) else None
  end.

(** How many leading rollup times precede the first raw one. *)
Fixpoint older (rts : list Z) (first : option Z) : nat :=
  match rts with
  | [] => 0
  | t :: rts => if match first with None => true | Some f => t <? f end then S (older rts first) else 0
  end.

(** One key of the loops over the two rings. *)
Definition column (h : History) (old : nat) (out : option (gmap string (list F))) (key : string)
    : option (gmap string (list F)) :=
  s ← out;
  match s !! key with
  | Some _ => Some s
  | None =>
      c ← match rollup h with
          | Some r => appendColumn [] (series r !! key) old
          | None => Some []
          end;
      c ← appendColumn c (series (raw h) !! key) (length (times (raw h)));
      Some (<[key := c]> s)
  end.

Definition ring_keys (r : ring) : list string := (map_to_list (series r)).*1.

(** [Columns]; [None] is a panic. *)
Definition History_Columns (h : History) : option Columns :=
  let ms := Milliseconds (interval h) in
  let window := wrap64 (Z.of_nat (capacity (raw h)) * ms) in
  let '(window, old, ts, keys) :=
    match rollup h with
    | Some r =>
        let old := older (times r) (head (times (raw h))) in
        (Z.max window (wrap64 (Z.of_nat (capacity r) * step h)), old, take old (times r), ring_keys r)
    | None => (window, 0%nat, [], [])
    end in
  s ← foldl (column h old) (Some ∅) (ring_keys (raw h) ++ keys);
  Some (mkColumns ms window (ts ++ times (raw h)) s).

(** ** Viewers *)

(** The channel, when there was a place. *)
Definition Subscribe (h : History) : option nat * History :=
  if Nat.leb maxSubscribers (size (subs h)) then (None, h)
  else
    let ch := length (chans h) in
    (Some ch, mkHistory (interval h) (raw h) (rollup h) (step h) (bucket h) (acc h) (latest h) (prev h)
                ({[ch]} ∪ subs h) (chans h ++ [None])).

(** The function [Subscribe] returns with the channel. *)
Definition cancel_subscription (ch : nat) (h : History) : History :=
  mkHistory (interval h) (raw h) (rollup h) (step h) (bucket h) (acc h) (latest h) (prev h)
    (subs h ∖ {[ch]}) (chans h).

(** A viewer takes what its channel holds. *)
Definition receive (ch : nat) (h : History) : option Point * History :=
  (c ← chans h !! ch; c,
   mkHistory (interval h) (raw h) (rollup h) (step h) (bucket h) (acc h) (latest h) (prev h)
     (subs h) (<[ch := None]> (chans h))).
End History.

Arguments ring F : clear implicits.
Arguments Point F : clear implicits.
Arguments History F : clear implicits.
Arguments Metric F : clear implicits.
Arguments MetricFamily F : clear implicits.
Arguments Columns F : clear implicits.

(** ** The index collector *)

Record IndexSample := mkIndexSample { ix_Name : string; ix_State : string; ix_Entries : Z; ix_Behind : Z; ix_Queued : Z }.

Definition IndexStates : list string :=
  ["disabled"; "empty"; "ready"; "behind"; "needs_rebuild"; "unreachable"; "building"; "catching_up";
   "rescoring"; "dropping"]%string.

(** One value collected: the series, its labels and the number. *)
Definition Collect (read : list IndexSample) : list (string * list string * Z) :=
  ix ← read;
  ((fun st => ("index_state"%string, [ix_Name ix; st], if String.eqb st (ix_State ix) then 1 else 0)) <$> IndexStates)
  ++ [("index_entries"%string, [ix_Name ix], ix_Entries ix);
      ("index_behind"%string, [ix_Name ix], ix_Behind ix);
      ("index_queued"%string, [ix_Name ix], ix_Queued ix)].
