(* ===== verification/MetricsHistoryFacts.v ===== *)
(** * The metrics history keeps what was sampled

    The ring is the window of the last points ([ring_appends]); the rollup is
    the summary of each bucket that ended ([rolls_exact]); the columns a viewer
    reads are aligned and in order of time; an estimated quantile lies in its
    bucket and grows with the quantile asked for. *)
From S2P Require Import Prelude GoTime GoFloat GoStrings MetricsHistory.
From stdpp Require Import sorting options.
From Stdlib Require Import QArith Lqa.

Local Open Scope nat_scope.

(** The last [n] elements. *)
Definition window {A} (n : nat) (l : list A) : list A := drop (length l - n) l.

Lemma window_length {A} n (l : list A) : length (window n l) = Nat.min n (length l).
Proof. unfold window. rewrite length_drop. lia. Qed.

Lemma window_snoc {A} n (l : list A) x :
  1 <= n ->
  window n (l ++ [x]) = (if Nat.eqb (length (window n l)) n then tail (window n l) else window n l) ++ [x].
Proof.
  intros Hn. rewrite window_length. unfold window. rewrite length_app. cbn [length].
  rewrite drop_app_le by lia. f_equal.
  destruct (Nat.eqb_spec (Nat.min n (length l)) n) as [He|He].
  - replace (length l + 1 - n) with (S (length l - n)) by lia.
    destruct (drop (length l - n) l) as [|y ys] eqn:Hd.
    + apply (f_equal length) in Hd. rewrite length_drop in Hd. cbn in Hd. lia.
    + cbn [tail]. by rewrite <- Nat.add_1_r, <- drop_drop, Hd.
  - replace (length l + 1 - n) with 0 by lia. by replace (length l - n) with 0 by lia.
Qed.

Lemma fmap_window {A B} (f : A -> B) n l : f <$> window n l = window n (f <$> l).
Proof. unfold window. by rewrite fmap_drop, length_fmap. Qed.

Lemma tail_fmap {A B} (f : A -> B) l : tail (f <$> l) = f <$> tail l.
Proof. by destruct l. Qed.

Section Ring.
Context {F : Type} `{FloatOps F}.

(** The value of [key] in a point, NaN where it is absent. *)
Definition value_at (key : string) (p : Z * gmap string F) : F := default NaN (p.2 !! key).

Definition has_key (key : string) (p : Z * gmap string F) : Prop := is_Some (p.2 !! key).

(** The ring that holds the window of [pts]: a column for every series ever
    seen. *)
Record ring_is (c : nat) (pts : list (Z * gmap string F)) (r : ring F) : Prop := {
  ri_capacity : capacity r = c;
  ri_times : times r = (window c pts).*1;
  ri_seen : forall key, Exists (has_key key) pts -> series r !! key = Some (value_at key <$> window c pts);
  ri_unseen : forall key, ~ Exists (has_key key) pts -> series r !! key = None;
}.

Lemma ring_is_new c : ring_is (Z.to_nat (Z.max c 1)) [] (newRing c).
Proof. split; [done|done| |done]. by intros key ?%Exists_nil. Qed.

Lemma has_key_dec key pts : {Exists (has_key key) pts} + {~ Exists (has_key key) pts}.
Proof. apply decide. apply _. Qed.

Lemma unseen_nan key pts : ~ Exists (has_key key) pts -> value_at key <$> pts = replicate (length pts) NaN.
Proof.
  induction pts as [|p pts IH]; [done|]. rewrite Exists_cons. intros Hn. cbn [fmap list_fmap length replicate].
  f_equal; [|by apply IH; tauto]. unfold value_at.
  destruct (p.2 !! key) eqn:E; [|done]. exfalso. apply Hn. left. by exists f.
Qed.

Lemma window_Forall {A} (P : A -> Prop) n l : Exists P (window n l) -> Exists P l.
Proof. intros Hw. unfold window in Hw. rewrite <- (take_drop (length l - n) l). apply Exists_app. by right. Qed.

Lemma ring_append_is c pts r t values :
  1 <= c -> ring_is c pts r -> ring_is c (pts ++ [(t, values)]) (ring_append r t values).
Proof.
  intros Hc [Hcap Htimes Hseen Hunseen].
  assert (Hlen : length (times r) = length (window c pts)) by (by rewrite Htimes, length_fmap).
  assert (Hold : forall key, Exists (has_key key) pts ->
    series (ring_append r t values) !! key = Some (value_at key <$> window c (pts ++ [(t, values)]))).
  { intros key Hk. cbn -[window Nat.ltb]. rewrite lookup_union_l' by (rewrite map_lookup_imap, (Hseen key Hk); cbn; eauto).
    rewrite map_lookup_imap, (Hseen key Hk). cbn -[window Nat.ltb].
    rewrite window_snoc, fmap_app, Hlen, Hcap, length_fmap by done. f_equal. f_equal.
    destruct (Nat.eqb_spec (length (window c pts)) c) as [He|He]; [|done].
    rewrite (proj2 (Nat.ltb_lt _ _)) by lia. apply tail_fmap. }
  split.
  - done.
  - cbn -[window]. rewrite window_snoc, fmap_app, Hlen, Hcap, Htimes by done. f_equal.
    destruct (Nat.eqb _ _); [by rewrite tail_fmap|done].
  - intros key Hk. destruct (has_key_dec key pts) as [Hp|Hp]; [by apply Hold|].
    apply Exists_app in Hk as [Hk|Hk]; [done|]. apply Exists_cons in Hk as [[v Hv]|Hk]; [|by apply Exists_nil in Hk].
    cbn -[window] in Hv |- *.
    rewrite lookup_union_r by (by rewrite map_lookup_imap, (Hunseen key Hp)).
    rewrite lookup_fmap, Hv. cbn -[window]. f_equal.
    rewrite window_snoc, fmap_app, length_app, Hlen, Hcap by done. cbn [length].
    set (w := if Nat.eqb (length (window c pts)) c then tail (window c pts) else window c pts).
    assert (Hw : length (if Nat.eqb (length (window c pts)) c then tail (times r) else times r) = length w).
    { rewrite Htimes. unfold w. destruct (Nat.eqb _ _); [by rewrite tail_fmap, length_fmap|by rewrite length_fmap]. }
    rewrite Hw. replace (length w + 1 - 1) with (length w) by lia.
    rewrite replicate_add, insert_app_r_alt by (rewrite length_replicate; lia).
    rewrite length_replicate, Nat.sub_diag. cbn -[window w]. f_equal.
    + symmetry. apply unseen_nan. intros Hx. apply Hp, (window_Forall _ c).
      unfold w in Hx. destruct (Nat.eqb _ _); [|done]. destruct (window c pts); [by apply Exists_nil in Hx|].
      by right.
    + unfold value_at. cbn. by rewrite Hv.
  - intros key Hk. rewrite Exists_app, Exists_cons in Hk. cbn -[window].
    rewrite lookup_union_r by (rewrite map_lookup_imap, Hunseen; [done|tauto]).
    rewrite lookup_fmap. destruct (values !! key) as [v|] eqn:E; [|done]. exfalso. apply Hk. right. left. by exists v.
Qed.

(** Appending points one after another keeps the window of them. *)
Lemma ring_appends c pts :
  ring_is (Z.to_nat (Z.max c 1)) pts (foldl (fun r p => ring_append r p.1 p.2) (newRing c) pts).
Proof.
  induction pts as [|[t v] pts IH] using rev_ind; [apply ring_is_new|].
  rewrite foldl_app. cbn [foldl]. apply ring_append_is; [lia|done].
Qed.
End Ring.

Section Rollup.
Context {F : Type} `{FloatOps F}.
Variable stp : Z.

(** The bucket a point falls in. *)
Definition start (p : Point F) : Z := (p_Time p - p_Time p `rem` stp)%Z.

(** Points in succession that fall in the same bucket. *)
Fixpoint groups (pts : list (Point F)) : list (Z * list (Point F)) :=
  match pts with
  | [] => []
  | p :: pts =>
      match groups pts with
      | (b, g) :: gs => if (start p =? b)%Z then (b, p :: g) :: gs else (start p, [p]) :: (b, g) :: gs
      | [] => [(start p, [p])]
      end
  end.

Definition values_of (key : string) (g : list (Point F)) : list F := omap (fun p => p_Values p !! key) g.

Definition maximum (vs : list F) : F := match vs with [] => NaN | v :: _ => foldl fmax v vs end.

Definition mean (vs : list F) : F :=
  fdiv (foldl fadd (of_int 0) vs) (foldl (fun n _ => fadd n (of_int 1)) (of_int 0) vs).

(** One value per series of a group: the maximum of a quantile, the mean of
    anything else. *)
Definition summary (g : list (Point F)) : gmap string F :=
  map_imap (fun key _ => Some (if isQuantile key then maximum (values_of key g) else mean (values_of key g)))
    (⋃ (p_Values <$> g)).

(** The point a finished bucket leaves, if it had values. *)
Definition summarise (bg : Z * list (Point F)) : option (Z * gmap string F) :=
  if bool_decide (summary bg.2 = ∅) then None else Some (bg.1, summary bg.2).

Lemma groups_snoc pts p :
  forall gs b g, groups pts = gs ++ [(b, g)] ->
  groups (pts ++ [p]) = gs ++ (if (start p =? b)%Z then [(b, g ++ [p])] else [(b, g); (start p, [p])]).
Proof.
  induction pts as [|q pts IH]; intros gs b g Hg.
  { by apply app_cons_not_nil in Hg. }
  cbn [groups app] in Hg |- *. destruct (groups pts) as [|[b0 g0] gs0] eqn:E.
  - destruct pts as [|q' pts].
    2:{ exfalso. cbn in E. repeat case_match; done. }
    destruct gs as [|? gs]; [|by destruct gs]. injection Hg as <- <-. cbn.
    destruct (Z.eqb_spec (start q) (start p)) as [He|He].
    + rewrite <- He, Z.eqb_refl. done.
    + rewrite (proj2 (Z.eqb_neq _ _)) by done. done.
  - destruct gs0 as [|x gs0].
    + rewrite (IH [] b0 g0) by done. cbn [app].
      destruct (Z.eqb_spec (start q) b0) as [Hq|Hq]; [|].
      * destruct gs as [|? gs]; [|by destruct gs]. injection Hg as <- <-. cbn [app].
        by destruct (start p =? b0)%Z; rewrite (proj2 (Z.eqb_eq _ _) Hq).
      * destruct gs as [|y [|? gs]]; [done| |by destruct gs]. injection Hg as <- <- <-. cbn [app].
        by destruct (start p =? b0)%Z; rewrite (proj2 (Z.eqb_neq _ _) Hq).
    + destruct (exists_last (l := x :: gs0) ltac:(done)) as (gs1 & [b1 g1] & Hl). rewrite Hl in *.
      rewrite (IH ((b0, g0) :: gs1) b1 g1) by done. cbn [app].
      destruct (start q =? b0)%Z.
      * change ((b0, q :: g0) :: gs1 ++ [(b1, g1)]) with (((b0, q :: g0) :: gs1) ++ [(b1, g1)]) in Hg.
        apply app_inj_tail in Hg as [<- [= <- <-]]. done.
      * change ((start q, [q]) :: (b0, g0) :: gs1 ++ [(b1, g1)])
          with (((start q, [q]) :: (b0, g0) :: gs1) ++ [(b1, g1)]) in Hg.
        apply app_inj_tail in Hg as [<- [= <- <-]]. done.
Qed.

(** What a bucket has accumulated. *)
Definition accumulated (g : list (Point F)) : gmap string accum :=
  foldl (fun a p => accumulate a (p_Values p)) ∅ g.

Lemma accumulated_lookup g key :
  accumulated g !! key =
    match values_of key g with
    | [] => None
    | v :: vs => Some (mkAccum (foldl fadd (of_int 0) (v :: vs)) (foldl fmax v (v :: vs))
                         (foldl (fun n _ => fadd n (of_int 1)) (of_int 0) (v :: vs)))
    end.
Proof.
  induction g as [|p g IH] using rev_ind; [apply lookup_empty|].
  unfold accumulated, values_of in *. rewrite foldl_app, omap_app. cbn [foldl].
  unfold accumulate at 1. cbn [omap list_omap]. rewrite lookup_union, map_lookup_imap, IH.
  destruct (p_Values p !! key) as [v|] eqn:Ev; cbn [mbind option_bind].
  - destruct (omap _ g) as [|v0 vs] eqn:Ew; [done|].
    cbn [app foldl]. rewrite !foldl_app. done.
  - rewrite app_nil_r. destruct (omap _ g); done.
Qed.

Lemma union_list_lookup (ms : list (gmap string F)) key :
  is_Some ((⋃ ms) !! key) <-> Exists (fun m => is_Some (m !! key)) ms.
Proof.
  induction ms as [|m ms IH]; cbn.
  - rewrite lookup_empty, Exists_nil. split; [by intros []|done].
  - rewrite Exists_cons, <- IH. rewrite lookup_union_is_Some. done.
Qed.

Lemma values_of_nil key g : values_of key g = [] <-> ~ Exists (fun p => is_Some (p_Values p !! key)) g.
Proof.
  unfold values_of. induction g as [|p g IH]; cbn; [rewrite Exists_nil; tauto|].
  rewrite Exists_cons. destruct (p_Values p !! key) as [v|]; cbn.
  - split; [done|]. intros Hn. exfalso. eauto.
  - rewrite IH. split; [|tauto]. intros Hn [[? ?]|?]; [done|tauto].
Qed.

Lemma closed_summary g : closed_values (accumulated g) = summary g.
Proof.
  apply map_eq. intros key. unfold closed_values, summary. rewrite !map_lookup_imap, accumulated_lookup.
  pose proof (union_list_lookup (p_Values <$> g) key) as Hu. rewrite Exists_fmap in Hu.
  destruct (values_of key g) as [|v vs] eqn:E.
  - apply values_of_nil in E. destruct ((⋃ (p_Values <$> g)) !! key) eqn:El; [|done].
    exfalso. apply E, Hu. eauto.
  - assert (Hx : is_Some ((⋃ (p_Values <$> g)) !! key)).
    { apply Hu. destruct (decide (Exists (fun p => is_Some (p_Values p !! key)) g)) as [|Hn]; [done|].
      apply values_of_nil in Hn. by rewrite Hn in E. }
    destruct Hx as [? ->]. done.
Qed.

Lemma accumulated_empty g : accumulated g = ∅ <-> summary g = ∅.
Proof.
  rewrite <- closed_summary. unfold closed_values. split; [by intros ->|].
  intros He. apply map_empty. intros key. apply (f_equal (.!! key)) in He.
  rewrite map_lookup_imap, lookup_empty in He. by destruct (accumulated g !! key).
Qed.

(** The state of [roll] after [pts]. *)
Definition rolled (c : nat) (pts : list (Point F)) (s : ring F * Z * gmap string accum) : Prop :=
  let '(r, b, acc) := s in
  (pts = [] /\ acc = ∅ /\ ring_is c [] r) \/
  exists gs g, groups pts = gs ++ [(b, g)] /\ acc = accumulated g /\ ring_is c (omap summarise gs) r.

Lemma accumulate_one p : accumulate ∅ (p_Values p) = accumulated [p].
Proof. done. Qed.

Lemma roll_rolled c pts s p : 1 <= c -> rolled c pts s -> rolled c (pts ++ [p]) (roll stp s p).
Proof.
  destruct s as [[r b] acc]. intros Hc [(-> & -> & Hr)|(gs & g & Hg & -> & Hr)]; unfold roll; fold (start p).
  - rewrite (bool_decide_eq_true_2 (∅ = ∅)) by done. rewrite andb_false_r. right. by exists [], [p].
  - pose proof (groups_snoc pts p _ _ _ Hg) as Hs.
    destruct (Z.eqb_spec (start p) b) as [->|Hb]; cbn [negb andb].
    { right. exists gs, (g ++ [p]). split_and!; [done| |done]. unfold accumulated. by rewrite foldl_app. }
    assert (Hone : omap summarise (gs ++ [(b, g)]) =
      omap summarise gs ++ (if bool_decide (accumulated g = ∅) then [] else [(b, closed_values (accumulated g))])).
    { rewrite omap_app. cbn [omap list_omap]. unfold summarise at 2. cbn [fst snd].
      rewrite (bool_decide_ext _ _ (accumulated_empty g)), closed_summary. by case_bool_decide. }
    case_bool_decide as He; cbn [negb]; right; exists (gs ++ [(b, g)]), [p]; rewrite <- app_assoc.
    + rewrite Hone, app_nil_r. by rewrite He.
    + rewrite Hone. split_and!; [done|done|]. by apply ring_append_is.
Qed.

(** The rollup holds a point for every bucket that ended with values. *)
Lemma rolls_exact c pts :
  rolled (Z.to_nat (Z.max c 1)) pts (foldl (roll stp) (newRing c, 0%Z, ∅) pts).
Proof.
  induction pts as [|p pts IH] using rev_ind.
  - left. split_and!; [done|done|apply ring_is_new].
  - rewrite foldl_app. apply roll_rolled; [lia|done].
Qed.
End Rollup.

(** ** Runs *)

Section Runs.
Context {F : Type} `{FloatOps F}.

Inductive hop :=
| HSample (now : Z) (gathered : list (MetricFamily F) * bool)
| HSubscribe
| HCancel (ch : nat)
| HReceive (ch : nat).

(** A run with the points it took. *)
Definition hstep (s : History F * list (Point F)) (o : hop) : History F * list (Point F) :=
  let '(h, pts) := s in
  match o with
  | HSample now g =>
      let h' := Sample h now g in
      (h', if g.2 && Nat.eqb (length g.1) 0 then pts else pts ++ [latest h'])
  | HSubscribe => ((Subscribe h).2, pts)
  | HCancel ch => (cancel_subscription ch h, pts)
  | HReceive ch => ((receive ch h).2, pts)
  end.

Definition hrun (h : History F) (os : list hop) : History F * list (Point F) := foldl hstep (h, []) os.

Definition pair_of (p : Point F) : Z * gmap string F := (p_Time p, p_Values p).

(** What the two rings hold after the points [pts]. *)
Definition recorded (c rc : nat) (stp : Z) (h : History F) (pts : list (Point F)) : Prop :=
  step h = stp /\ ring_is c (pair_of <$> pts) (raw h) /\
  exists r, rollup h = Some r /\ rolled stp rc pts (r, bucket h, acc h).

Lemma Sample_recorded c rc stp h pts now g :
  1 <= c -> 1 <= rc -> recorded c rc stp h pts ->
  recorded c rc stp (Sample h now g) (hstep (h, pts) (HSample now g)).2.
Proof.
  intros Hc Hrc (Hs & Hraw & r & Hr & Hroll). cbn [hstep snd]. unfold Sample. destruct g as [fams failed]. cbn [fst snd].
  destruct (failed && Nat.eqb (length fams) 0); [by split; eauto|].
  destruct (sample_point h now fams) as [p next]. unfold record_point. rewrite Hr.
  destruct (roll (step h) (r, bucket h, acc h) p) as [[r' b'] acc'] eqn:Er.
  cbn [publish latest]. split; [done|]. split.
  - cbn [raw publish]. rewrite fmap_app. by apply ring_append_is.
  - exists r'. split; [done|]. cbn [publish bucket acc]. rewrite <- Er, Hs. by apply roll_rolled.
Qed.

Lemma hrun_recorded c rc stp h os :
  1 <= c -> 1 <= rc -> recorded c rc stp h [] -> recorded c rc stp (hrun h os).1 (hrun h os).2.
Proof.
  intros Hc Hrc. unfold hrun. generalize (@nil (Point F)). intros pts Hp. revert h pts Hp.
  induction os as [|o os IH]; intros h pts Hp; [done|]. cbn [foldl].
  destruct (hstep (h, pts) o) as [h' pts'] eqn:E. apply IH. destruct o.
  - pose proof (Sample_recorded _ _ _ _ _ now gathered Hc Hrc Hp) as HS. rewrite E in HS.
    cbn [hstep] in E. injection E as <- _. done.
  - injection E as <- <-. unfold Subscribe. by destruct (Nat.leb _ _).
  - by injection E as <- <-.
  - by injection E as <- <-.
Qed.

Lemma removelast_snoc {A} (l : list A) x : removelast (l ++ [x]) = l.
Proof. rewrite removelast_app by done. cbn. apply app_nil_r. Qed.

(** The rollup's points: a summary for every bucket but the last. *)
Definition rolls (stp : Z) (pts : list (Point F)) : list (Z * gmap string F) :=
  omap summarise (removelast (groups stp pts)).

Lemma rolled_rolls stp rc pts r b a : rolled stp rc pts (r, b, a) -> ring_is rc (rolls stp pts) r.
Proof.
  unfold rolls. intros [(-> & _ & Hr)|(gs & g & -> & _ & Hr)]; [done|]. by rewrite removelast_snoc.
Qed.

Definition fresh_history (interval window stp rwindow : Z) : History F :=
  WithRollup (NewHistory interval window) stp rwindow.

Lemma fresh_recorded interval window stp rwindow :
  recorded (Z.to_nat (Z.max (window `quot` interval) 1)) (Z.to_nat (Z.max (rwindow `quot` stp) 1))
    (Milliseconds stp) (fresh_history interval window stp rwindow) [].
Proof.
  split; [done|]. split; [apply ring_is_new|]. eexists. split; [done|]. left. split_and!; [done|done|apply ring_is_new].
Qed.

(** C37: after any run of samples, subscriptions and reads, with an interval and a
    step that the code can divide by, the ring holds the last points taken, each
    series' column aligned with them and NaN where a point lacks it, and the
    rollup holds one point per bucket that has ended: the mean of a series'
    samples in it, or the maximum for a quantile. *)
Theorem history_exact interval window stp rwindow os :
  (0 < interval)%Z -> (Millisecond <= stp)%Z ->
  ring_is (Z.to_nat (Z.max (window `quot` interval) 1))
    (pair_of <$> (hrun (fresh_history interval window stp rwindow) os).2)
    (raw (hrun (fresh_history interval window stp rwindow) os).1) /\
  exists r, rollup (hrun (fresh_history interval window stp rwindow) os).1 = Some r /\
    ring_is (Z.to_nat (Z.max (rwindow `quot` stp) 1))
      (rolls (Milliseconds stp) (hrun (fresh_history interval window stp rwindow) os).2) r.
Proof.
  intros _ _. pose proof (fresh_recorded interval window stp rwindow) as H0.
  apply (hrun_recorded _ _ _ _ os) in H0 as (_ & Hraw & r & Hr & Hroll); [|lia..].
  split; [done|]. exists r. split; [done|]. by eapply rolled_rolls.
Qed.
End Runs.

(** ** Columns *)

Section ColumnsFacts.
Context {F : Type} `{FloatOps F}.

(** The points a viewer is shown: the rollup's that precede the first raw
    one, then the raw ones. *)
Definition shown (c rc : nat) (stp : Z) (pts : list (Point F)) : list (Z * gmap string F) :=
  let old := window rc (rolls stp pts) in
  let new := window c (pair_of <$> pts) in
  take (older old.*1 (head new.*1)) old ++ new.

Lemma column_fold h old (colv : string -> list F) keys s :
  (forall k, (c ← match rollup h with Some r => appendColumn [] (series r !! k) old | None => Some [] end;
              appendColumn c (series (raw h) !! k) (length (times (raw h)))) = Some (colv k)) ->
  (forall k c, s !! k = Some c -> c = colv k) ->
  exists s', foldl (column h old) (Some s) keys = Some s' /\
    (forall k c, s' !! k = Some c -> c = colv k) /\
    (forall k, is_Some (s' !! k) <-> is_Some (s !! k) \/ k ∈ keys).
Proof.
  intros Hcol. revert s. induction keys as [|k keys IH]; intros s Hs.
  { exists s. split_and!; [done|done|]. intros k. rewrite elem_of_nil. tauto. }
  cbn [foldl]. unfold column at 2. cbn [mbind option_bind].
  destruct (s !! k) as [c|] eqn:Ek.
  - destruct (IH s Hs) as (s' & Hf & Hv & Hd). exists s'. split_and!; [done|done|].
    intros k'. rewrite Hd, elem_of_cons. split; [tauto|]. intros [?|[->|?]]; eauto.
  - specialize (Hcol k) as Hk. destruct (match rollup h with Some _ => _ | None => _ end) as [c|]; [|done].
    cbn [mbind option_bind] in Hk |- *. rewrite Hk. cbn [mbind option_bind].
    destruct (IH (<[k:=colv k]> s)) as (s' & Hf & Hv & Hd).
    { intros k' c'. rewrite lookup_insert_Some. naive_solver. }
    exists s'. split_and!; [done|done|]. intros k'. rewrite Hd, elem_of_cons, lookup_insert_is_Some.
    destruct (decide (k = k')); naive_solver.
Qed.

Lemma appendColumn_ring c pts (r : ring F) key dst n :
  ring_is c pts r -> n <= length (window c pts) ->
  appendColumn dst (series r !! key) n = Some (dst ++ (value_at key <$> take n (window c pts))).
Proof.
  intros [_ _ Hseen Hunseen] Hn. destruct (has_key_dec key pts) as [Hk|Hk].
  - rewrite (Hseen key Hk). cbn -[window]. rewrite length_fmap, (proj2 (Nat.leb_le _ _)) by done.
    by rewrite fmap_take.
  - rewrite (Hunseen key Hk). cbn -[window]. rewrite unseen_nan.
    + by rewrite length_take, Nat.min_l.
    + intros Hx. apply Hk, (window_Forall _ c). rewrite <- (take_drop n (window c pts)). apply Exists_app. by left.
Qed.

Lemma older_length ts first : older ts first <= length ts.
Proof. induction ts as [|t ts IH]; cbn; [done|]. destruct (match first with Some _ => _ | None => _ end); lia. Qed.

Lemma ring_keys_seen c pts (r : ring F) key : ring_is c pts r -> key ∈ ring_keys r <-> Exists (has_key key) pts.
Proof.
  intros [_ _ Hseen Hunseen]. unfold ring_keys. rewrite list_elem_of_fmap. split.
  - intros ([k col] & -> & Hk%elem_of_map_to_list). destruct (has_key_dec k pts) as [|Hn]; [done|].
    apply Hunseen in Hn. cbn in Hn. congruence.
  - intros Hk. apply Hseen in Hk. eexists (key, _). split; [done|]. by apply elem_of_map_to_list.
Qed.

Lemma groups_concat stp (pts : list (Point F)) : concat (groups stp pts).*2 = pts.
Proof.
  induction pts as [|p pts IH]; [done|]. cbn. destruct (groups stp pts) as [|[b g] gs] eqn:E.
  - cbn in *. by rewrite <- IH.
  - destruct (start stp p =? b)%Z; cbn in *; by rewrite <- IH.
Qed.

(** The rollup has no series the samples did not have. *)
Lemma rolls_keys stp (pts : list (Point F)) key :
  Exists (has_key key) (rolls stp pts) -> Exists (has_key key) (pair_of <$> pts).
Proof.
  unfold rolls. rewrite !Exists_exists. setoid_rewrite list_elem_of_omap. intros ([t v] & ([b g] & Hg & Hs) & Hk).
  unfold summarise in Hs. cbn in Hs. case_bool_decide; [done|]. injection Hs as <- <-.
  unfold has_key in Hk. cbn in Hk. destruct Hk as [x Hk]. unfold summary in Hk. rewrite map_lookup_imap in Hk.
  destruct ((⋃ (p_Values <$> g)) !! key) eqn:E; [|done].
  pose proof (proj1 (union_list_lookup _ _) (mk_is_Some _ _ E)) as Hu. rewrite Exists_fmap, Exists_exists in Hu.
  destruct Hu as (p & Hp & Hv). exists (pair_of p). split; [|done]. apply list_elem_of_fmap. exists p. split; [done|].
  rewrite <- (groups_concat stp pts). apply list_elem_of_In, in_concat. exists g.
  split; [|by apply list_elem_of_In]. apply list_elem_of_In, list_elem_of_fmap. exists (b, g). split; [done|].
  destruct (groups stp pts) as [|x0 gs0] eqn:Eg; [by apply elem_of_nil in Hg|].
  rewrite (app_removelast_last x0 (l := x0 :: gs0)) by done. apply elem_of_app. by left.
Qed.

(** What [Columns] answers for the rings of [pts]. *)
Lemma Columns_shown c rc stp h pts :
  1 <= c -> recorded c rc stp h pts ->
  exists cs, History_Columns h = Some cs /\ c_Times cs = (shown c rc stp pts).*1 /\
    (forall key, Exists (has_key key) (pair_of <$> pts) -> c_Series cs !! key = Some (value_at key <$> shown c rc stp pts)) /\
    (forall key, ~ Exists (has_key key) (pair_of <$> pts) -> c_Series cs !! key = None).
Proof.
  intros Hc (Hs & Hraw & r & Hr & Hroll%rolled_rolls). unfold History_Columns. rewrite Hr.
  set (old := older (times r) (head (times (raw h)))).
  assert (Hold : old = older (window rc (rolls stp pts)).*1 (head (window c (pair_of <$> pts)).*1)).
  { unfold old. by rewrite (ri_times _ _ _ Hroll), (ri_times _ _ _ Hraw). }
  assert (Hle : old <= length (window rc (rolls stp pts))).
  { pose proof (older_length (times r) (head (times (raw h)))) as Hl. fold old in Hl.
    by rewrite (ri_times _ _ _ Hroll), length_fmap in Hl. }
  destruct (column_fold h old (fun key => value_at key <$> shown c rc stp pts) (ring_keys (raw h) ++ ring_keys r) ∅)
    as (s & Hf & Hv & Hd).
  { intros k. rewrite Hr, (appendColumn_ring _ _ _ k [] old Hroll Hle). cbn [mbind option_bind app].
    rewrite (appendColumn_ring _ _ _ k _ _ Hraw) by (rewrite (ri_times _ _ _ Hraw), length_fmap; done).
    unfold shown. rewrite <- Hold, fmap_app. do 4 f_equal.
    rewrite (ri_times _ _ _ Hraw), length_fmap. by rewrite firstn_all. }
  { intros k c'. by rewrite lookup_empty. }
  rewrite Hf. cbn [mbind option_bind]. eexists. split; [done|]. cbn [c_Times c_Series].
  assert (Hkeys : forall key, is_Some (s !! key) <-> Exists (has_key key) (pair_of <$> pts)).
  { intros key. rewrite Hd, elem_of_app, (ring_keys_seen _ _ _ key Hraw), (ring_keys_seen _ _ _ key Hroll), lookup_empty.
    split; [|by auto]. intros [[? ?]|[?|?]]; [done|done|]. by eapply rolls_keys. }
  split_and!.
  - unfold shown. rewrite <- Hold, fmap_app, fmap_take, (ri_times _ _ _ Hroll), (ri_times _ _ _ Hraw). done.
  - intros key Hk. apply Hkeys in Hk as [col Hk]. by rewrite Hk, (Hv _ _ Hk).
  - intros key Hk. apply eq_None_not_Some. by rewrite Hkeys.
Qed.
End ColumnsFacts.

Section SortedFacts.
Context {F : Type} `{FloatOps F}.
Local Open Scope Z_scope.

Lemma has_key_points key (pts : list (Point F)) :
  Exists (fun p => is_Some (p_Values p !! key)) pts <-> Exists (has_key key) (pair_of <$> pts).
Proof. by rewrite Exists_fmap. Qed.

Lemma start_le stp (p q : Point F) :
  0 < stp -> 0 <= p_Time p <= p_Time q -> start stp p <= start stp q.
Proof.
  intros Hs Hp. unfold start. rewrite !Z.rem_mod_nonneg by lia.
  pose proof (Z.div_mod (p_Time p) stp ltac:(lia)). pose proof (Z.div_mod (p_Time q) stp ltac:(lia)).
  pose proof (Z.div_le_mono (p_Time p) (p_Time q) stp Hs ltac:(lia)). nia.
Qed.

(** The clock of a run: never before 1970, never back. *)
Definition clocked (pts : list (Point F)) : Prop :=
  StronglySorted Z.lt (p_Time <$> pts) /\ Forall (fun p => 0 <= p_Time p) pts.

Lemma groups_sorted stp pts :
  0 < stp -> clocked pts ->
  StronglySorted Z.lt (groups stp pts).*1 /\
  (forall p ps, pts = p :: ps -> head (groups stp pts).*1 = Some (start stp p)).
Proof.
  intros Hs [Hlt Hpos]. induction pts as [|p pts IH]; [split; [constructor|done]|].
  cbn [fmap list_fmap] in Hlt. apply StronglySorted_inv in Hlt as [Hlt Hall]. apply Forall_cons in Hpos as [Hp Hpos].
  destruct (IH Hlt Hpos) as [Hss Hhd]. cbn [groups]. destruct pts as [|q pts].
  { split; [repeat constructor|]. by intros ? ? [= <- <-]. }
  specialize (Hhd q pts eq_refl). destruct (groups stp (q :: pts)) as [|[b g] gs]; [done|].
  injection Hhd as ->. cbn [fmap list_fmap] in Hall. apply Forall_cons in Hall as [Hpq _].
  pose proof (start_le stp p q Hs ltac:(lia)) as Hle.
  destruct (Z.eqb_spec (start stp p) (start stp q)) as [He|He].
  - split; [done|]. intros ? ? [= <- <-]. cbn. by rewrite He.
  - split; [|by intros ? ? [= <- <-]]. cbn [fmap list_fmap fst] in *. constructor; [done|].
    apply StronglySorted_inv in Hss as [_ Hall]. constructor; [lia|].
    eapply Forall_impl; [done|]. cbn. lia.
Qed.

Lemma StronglySorted_sublist (l k : list Z) : sublist l k -> StronglySorted Z.lt k -> StronglySorted Z.lt l.
Proof.
  induction 1 as [|x l k Hsub IH|x l k Hsub IH]; [done| |].
  - intros [Hk Hall]%StronglySorted_inv. constructor; [by apply IH|].
    rewrite Forall_forall in Hall |- *. intros y Hy. apply Hall. by eapply elem_of_sublist.
  - intros [Hk _]%StronglySorted_inv. by apply IH.
Qed.

Lemma omap_summarise_sublist (gs : list (Z * list (Point F))) : sublist (omap summarise gs).*1 gs.*1.
Proof.
  induction gs as [|[b g] gs IH]; [constructor|]. cbn [omap list_omap]. unfold summarise at 1. cbn [fst snd].
  case_bool_decide; cbn; by constructor.
Qed.

Lemma fmap_sublist {A B} (f : A -> B) l k : sublist l k -> sublist (f <$> l) (f <$> k).
Proof. induction 1; cbn; by constructor. Qed.

Lemma removelast_sublist {A} (l : list A) : sublist (removelast l) l.
Proof.
  induction l as [|x l IH]; [constructor|]. cbn. destruct l as [|y l]; [by repeat constructor|]. by constructor.
Qed.

Lemma rolls_sorted stp pts : 0 < stp -> clocked pts -> StronglySorted Z.lt (rolls stp pts).*1.
Proof.
  intros Hs Hc. destruct (groups_sorted stp pts Hs Hc) as [Hss _].
  eapply StronglySorted_sublist; [|exact Hss]. unfold rolls. etrans; [apply omap_summarise_sublist|].
  apply fmap_sublist, removelast_sublist.
Qed.

Lemma older_before ts f i t : ts !! i = Some t -> (i < older ts (Some f))%nat -> t < f.
Proof.
  revert i. induction ts as [|t0 ts IH]; intros i Hi Ho; [done|]. cbn in Ho.
  destruct (Z.ltb_spec t0 f); [|lia]. destruct i as [|i]; [by injection Hi as <-|]. apply (IH i); [done|lia].
Qed.

Lemma StronglySorted_join (l k : list Z) :
  StronglySorted Z.lt l -> StronglySorted Z.lt k ->
  (forall x f, x ∈ l -> head k = Some f -> x < f) -> StronglySorted Z.lt (l ++ k).
Proof.
  intros Hl Hk Hx. destruct k as [|f k]; [by rewrite app_nil_r|].
  induction l as [|x l IH]; [done|]. apply StronglySorted_inv in Hl as [Hl Hall]. cbn. constructor.
  - apply IH; [done|]. intros y f' Hy. apply Hx. by right.
  - apply Forall_app. split; [done|]. assert (x < f) by (apply (Hx x f); [by left|done]).
    constructor; [done|]. apply StronglySorted_inv in Hk as [_ Hk]. eapply Forall_impl; [done|]. cbn. lia.
Qed.

Lemma shown_sorted c rc stp pts : 0 < stp -> clocked pts -> StronglySorted Z.lt (shown c rc stp pts).*1.
Proof.
  intros Hs Hc. unfold shown. rewrite fmap_app. apply StronglySorted_join.
  - eapply StronglySorted_sublist; [|apply (rolls_sorted stp pts Hs Hc)]. rewrite fmap_take.
    etrans; [apply sublist_take|]. rewrite fmap_window. apply sublist_drop.
  - eapply StronglySorted_sublist; [|apply Hc]. rewrite fmap_window, <- list_fmap_compose. apply sublist_drop.
  - intros x f Hx Hf. rewrite fmap_take in Hx. apply list_elem_of_lookup in Hx as (i & Hi).
    apply lookup_take_Some in Hi as [Hi Hlt]. rewrite Hf in Hlt. by eapply older_before.
Qed.
End SortedFacts.

(** C38: after any run what a viewer reads is well formed: reading never goes out
    of range, and the answer is one list of points, the rollup's that precede
    the first raw sample followed by the raw ones, turned into columns: the
    times, and for every series ever sampled its value at each time, NaN where
    it had none.  With a clock that advances the times are strictly
    increasing. *)
Theorem columns_exact {F} `{FloatOps F} interval window stp rwindow os (c rc : nat) :
  (0 < Milliseconds stp)%Z ->
  c = Z.to_nat (Z.max (window `quot` interval) 1) ->
  rc = Z.to_nat (Z.max (rwindow `quot` stp) 1) ->
  exists cs, History_Columns (hrun (fresh_history interval window stp rwindow) os).1 = Some cs /\
    c_Times cs = (shown c rc (Milliseconds stp) (hrun (fresh_history interval window stp rwindow) os).2).*1 /\
    (forall key col, c_Series cs !! key = Some col ->
       col = value_at key <$> shown c rc (Milliseconds stp) (hrun (fresh_history interval window stp rwindow) os).2) /\
    (forall key, is_Some (c_Series cs !! key) <->
       Exists (fun p => is_Some (p_Values p !! key)) (hrun (fresh_history interval window stp rwindow) os).2) /\
    (clocked (hrun (fresh_history interval window stp rwindow) os).2 -> StronglySorted Z.lt (c_Times cs)).
Proof.
  intros Hs -> ->. pose proof (fresh_recorded interval window stp rwindow) as H0.
  apply (hrun_recorded _ _ _ _ os) in H0; [|lia..].
  apply Columns_shown in H0 as (cs & Hc & Ht & Hseen & Hunseen); [|lia].
  exists cs. split; [done|]. split; [done|]. split; [|split].
  - intros key col Hk. destruct (has_key_dec key (pair_of <$> (hrun (fresh_history interval window stp rwindow) os).2)) as [Hx|Hx].
    + rewrite (Hseen key Hx) in Hk. by injection Hk as <-.
    + by rewrite (Hunseen key Hx) in Hk.
  - intros key. rewrite has_key_points.
    destruct (has_key_dec key (pair_of <$> (hrun (fresh_history interval window stp rwindow) os).2)) as [Hx|Hx].
    + rewrite (Hseen key Hx). split; eauto.
    + rewrite (Hunseen key Hx). split; [by intros [? ?]|done].
  - intros Hcl. rewrite Ht. by apply shown_sorted.
Qed.

(** ** Quantiles *)

Section Quantile.
Local Open Scope Q_scope.

(** Bounds and counts of a histogram: bounds grow from [lower], cumulative
    counts do not fall below [below]. *)
Fixpoint histogram_from (lower below : Q) (bs : list (Q * Q)) : Prop :=
  match bs with
  | [] => True
  | (u, c) :: bs => lower <= u /\ below <= c /\ histogram_from u c bs
  end.

Definition lift (bs : list (Q * Q)) : list (option Q * option Q) := (fun b => (Some b.1, Some b.2)) <$> bs.

Local Abbreviation loop := (@quantile_loop (option Q) exact).

Lemma share_mono u l x y n : l <= u -> x <= y -> 0 < n -> (u - l) * x / n <= (u - l) * y / n.
Proof.
  intros Hu Hx Hn. unfold Qdiv. apply Qmult_le_compat_r; [|apply Qinv_le_0_compat; lra].
  rewrite !(Qmult_comm (u - l)). apply Qmult_le_compat_r; lra.
Qed.

Lemma share_full u l n : 0 < n -> (u - l) * n / n == u - l.
Proof. intros Hn. field. lra. Qed.

(** What the interpolation answers within a bucket. *)
Lemma loop_here r lower below u c bs :
  r <= c -> below < c ->
  exists v, loop (Some r) (Some lower) (Some below) (lift ((u, c) :: bs)) = Some (Some v) /\
    v == lower + (u - lower) * (r - below) / (c - below).
Proof.
  intros Hr Hc. cbn. unfold float64_le. rewrite (proj2 (Qle_bool_iff r c) Hr).
  assert (E : Qle_bool (Qred (c - below)) (Qred (inject_Z 0)) = false).
  { apply not_true_iff_false. rewrite Qle_bool_iff, !Qred_correct. unfold inject_Z. lra. }
  rewrite E. assert (E' : Qeq_bool (Qred (c - below)) 0 = false).
  { apply not_true_iff_false. rewrite Qeq_bool_iff, !Qred_correct. lra. }
  rewrite E'. eexists. split; [done|]. rewrite !Qred_correct. reflexivity.
Qed.

Lemma loop_flat r lower below u c bs :
  r <= c -> c <= below -> loop (Some r) (Some lower) (Some below) (lift ((u, c) :: bs)) = Some (Some u).
Proof.
  intros Hr Hc. cbn. unfold float64_le. rewrite (proj2 (Qle_bool_iff r c) Hr).
  rewrite (proj2 (Qle_bool_iff (Qred (c - below)) (Qred (inject_Z 0)))); [done|].
  rewrite !Qred_correct. unfold inject_Z. lra.
Qed.

Lemma loop_next r lower below u c bs :
  c < r -> loop (Some r) (Some lower) (Some below) (lift ((u, c) :: bs)) = loop (Some r) (Some u) (Some c) (lift bs).
Proof.
  intros Hr. cbn. unfold float64_le. assert (E : Qle_bool r c = false).
  { apply not_true_iff_false. rewrite Qle_bool_iff. lra. } by rewrite E.
Qed.

(** The bound after [lower] an answer stays below. *)
Definition top (lower : Q) (bs : list (Q * Q)) : Q := default lower (last bs.*1).

Lemma top_cons lower u c bs : top lower ((u, c) :: bs) = top u bs.
Proof. unfold top. rewrite fmap_cons, last_cons. by destruct (last bs.*1). Qed.

Lemma top_ge lower below bs : histogram_from lower below bs -> lower <= top lower bs.
Proof.
  revert lower below. induction bs as [|[u c] bs IH]; intros lower below Hh; [cbn; lra|].
  destruct Hh as (Hl & _ & Hh). rewrite top_cons. specialize (IH _ _ Hh). lra.
Qed.

(** The answer of the loop, if any, is a bound's or lies between bounds. *)
Lemma loop_bounds r lower below bs :
  histogram_from lower below bs -> below <= r ->
  loop (Some r) (Some lower) (Some below) (lift bs) = None \/
  exists v, loop (Some r) (Some lower) (Some below) (lift bs) = Some (Some v) /\ lower <= v <= top lower bs.
Proof.
  revert lower below. induction bs as [|[u c] bs IH]; intros lower below Hh Hr; [by left|].
  destruct Hh as (Hl & Hb & Hh). rewrite top_cons. pose proof (top_ge _ _ _ Hh).
  destruct (Qlt_le_dec c r) as [Hc|Hc].
  - rewrite loop_next by done. destruct (IH u c Hh ltac:(lra)) as [|(v & Hv & Hb')]; [by left|].
    right. exists v. split; [done|]. lra.
  - right. destruct (Qlt_le_dec below c) as [Hbc|Hbc].
    + destruct (loop_here r lower below u c bs Hc Hbc) as (v & Hv & E). exists v. split; [done|].
      pose proof (share_mono u lower 0 (r - below) (c - below) Hl ltac:(lra) ltac:(lra)) as H1.
      pose proof (share_mono u lower (r - below) (c - below) (c - below) Hl ltac:(lra) ltac:(lra)) as H2.
      rewrite share_full in H2 by lra. unfold Qdiv in *. rewrite Qmult_0_r, Qmult_0_l in H1. lra.
    + rewrite loop_flat by done. exists u. split; [done|]. lra.
Qed.

(** A higher rank is not answered with less. *)
Lemma loop_mono r1 r2 lower below bs :
  histogram_from lower below bs -> below <= r1 -> r1 <= r2 ->
  match loop (Some r1) (Some lower) (Some below) (lift bs), loop (Some r2) (Some lower) (Some below) (lift bs) with
  | None, x => x = None
  | Some (Some v), Some (Some w) => v <= w
  | Some x, None => exists v, x = Some v /\ v <= top lower bs
  | _, _ => False
  end.
Proof.
  revert lower below. induction bs as [|[u c] bs IH]; intros lower below Hh Hr Hrr; [done|].
  pose proof Hh as (Hl & Hb & Hh'). destruct (Qlt_le_dec c r1) as [Hc|Hc].
  { rewrite !loop_next by lra. specialize (IH u c Hh' ltac:(lra) Hrr). by rewrite top_cons. }
  destruct (Qlt_le_dec c r2) as [Hc2|Hc2].
  - assert (exists v, loop (Some r1) (Some lower) (Some below) (lift ((u, c) :: bs)) = Some (Some v) /\ v <= u) as (v & -> & Hv).
    { destruct (loop_bounds r1 lower below [(u, c)]) as [Hn|(v & Hv & Hle)]; [done|done| |].
      - destruct (Qlt_le_dec below c) as [Hbc|Hbc].
        + destruct (loop_here r1 lower below u c [] Hc Hbc) as (v & Hv & _). by rewrite Hv in Hn.
        + by rewrite loop_flat in Hn.
      - exists v. split; [|apply Hle]. destruct (Qlt_le_dec below c) as [Hbc|Hbc].
        + rewrite <- Hv. cbn. unfold float64_le. by rewrite (proj2 (Qle_bool_iff r1 c) Hc).
        + rewrite <- Hv. by rewrite !loop_flat. }
    rewrite loop_next by lra. pose proof (top_ge _ _ _ Hh').
    destruct (loop_bounds r2 u c bs Hh' ltac:(lra)) as [->|(w & -> & Hw)].
    + exists v. split; [done|]. rewrite top_cons. lra.
    + lra.
  - destruct (Qlt_le_dec below c) as [Hbc|Hbc].
    + destruct (loop_here r1 lower below u c bs Hc Hbc) as (v & -> & Ev).
      destruct (loop_here r2 lower below u c bs Hc2 Hbc) as (w & -> & Ew).
      pose proof (share_mono u lower (r1 - below) (r2 - below) (c - below) Hl ltac:(lra) ltac:(lra)). lra.
    + rewrite !loop_flat by done. lra.
Qed.

Lemma zip_lift bs : zip (Some <$> bs.*1) (Some <$> bs.*2) = lift bs.
Proof. induction bs as [|[u c] bs IH]; [done|]. cbn. by rewrite IH. Qed.

Lemma last_some (l : list Q) : default None (last (Some <$> l)) = last l.
Proof. rewrite fmap_last. by destruct (last l). Qed.

Lemma quantile_of q bs total :
  @quantile (option Q) exact (Some q) (Some <$> bs.*1) (Some <$> bs.*2) (Some total) =
  match loop (Some (Qred (q * total))) (Some 0) (Some 0) (lift bs) with Some v => v | None => last bs.*1 end.
Proof. unfold quantile. rewrite zip_lift. cbn -[quantile_loop lift]. rewrite <- last_some. done. Qed.

(** The quantile of a histogram with bounds [bs.*1] and cumulative counts
    [bs.*2], with arithmetic that does not round: it lies between zero and the
    last bound, in the bucket that reaches the rank (an answer that interpolates
    is between that bucket's bounds), and a higher quantile is not answered with
    less, so that the reported p50, p95 and p99 are in order. *)
Theorem quantile_ordered (q1 q2 total : Q) (bs : list (Q * Q)) :
  bs <> [] -> histogram_from 0 0 bs -> 0 <= q1 -> q1 <= q2 -> 0 <= total ->
  exists v w,
    @quantile (option Q) exact (Some q1) (Some <$> bs.*1) (Some <$> bs.*2) (Some total) = Some v /\
    @quantile (option Q) exact (Some q2) (Some <$> bs.*1) (Some <$> bs.*2) (Some total) = Some w /\
    0 <= v /\ v <= w /\ w <= top 0 bs.
Proof.
  intros Hne Hh Hq1 Hq Ht. rewrite !quantile_of.
  assert (Hr1 : 0 <= Qred (q1 * total)) by (rewrite Qred_correct; by apply Qmult_le_0_compat).
  assert (Hr : Qred (q1 * total) <= Qred (q2 * total)) by (rewrite !Qred_correct; by apply Qmult_le_compat_r).
  assert (Hlast : last bs.*1 = Some (top 0 bs)).
  { unfold top. destruct (last bs.*1) eqn:E; [done|]. apply last_None in E. by destruct bs. }
  pose proof (loop_mono _ _ 0 0 bs Hh Hr1 Hr) as Hm. pose proof (top_ge _ _ _ Hh) as Htop.
  destruct (loop_bounds _ 0 0 bs Hh Hr1) as [E1|(v & E1 & Hv)];
    destruct (loop_bounds _ 0 0 bs Hh (Qle_trans _ _ _ Hr1 Hr)) as [E2|(w & E2 & Hw)]; rewrite E1, E2 in Hm |- *.
  - exists (top 0 bs), (top 0 bs). rewrite Hlast. split_and!; try done; lra.
  - done.
  - exists v, (top 0 bs). rewrite Hlast. split_and!; try done; lra.
  - exists v, w. split_and!; try done; lra.
Qed.
End Quantile.

(** ** Viewers *)

Section Viewers.
Context {F : Type} `{FloatOps F}.

(** At most [maxSubscribers] watch, and every channel holds at most one point,
    one of those taken. *)
Lemma viewers_bounded (h : History F) os :
  subs h = ∅ -> chans h = [] ->
  size (subs (hrun h os).1) <= maxSubscribers /\
  forall ch p, chans (hrun h os).1 !! ch = Some (Some p) -> p ∈ (hrun h os).2.
Proof.
  intros Hs Hc. unfold hrun.
  assert (Hinv : size (subs h) <= maxSubscribers /\ forall ch p, chans h !! ch = Some (Some p) -> p ∈ @nil (Point F)).
  { rewrite Hs, Hc, size_empty. split; [unfold maxSubscribers; lia|done]. }
  clear Hs Hc. revert h Hinv. generalize (@nil (Point F)).
  induction os as [|o os IH]; intros pts h [Hsz Hch]; [done|]. cbn [foldl].
  destruct (hstep (h, pts) o) as [h' pts'] eqn:E. apply IH. destruct o; injection E as <- <-.
  - destruct gathered as [fams failed]. unfold Sample. cbn [fst snd].
    destruct (failed && Nat.eqb (length fams) 0); [done|]. destruct (sample_point h now fams) as [p next].
    assert (Hr : subs (record_point h p next) = subs h /\ chans (record_point h p next) = chans h /\
                 latest (record_point h p next) = p).
    { unfold record_point. destruct (rollup h); [|done]. by destruct (roll _ _ _) as [[? ?] ?]. }
    destruct Hr as (Hr1 & Hr2 & Hr3). cbn [publish subs chans latest]. rewrite Hr1, Hr2, Hr3. split; [done|].
    intros ch q Hq. rewrite list_lookup_imap in Hq. apply elem_of_app. rewrite list_elem_of_singleton.
    destruct (chans h !! ch) as [[x|]|] eqn:Ec; cbn in Hq; [| |done]; case_bool_decide; naive_solver.
  - unfold Subscribe. destruct (Nat.leb_spec maxSubscribers (size (subs h))); [done|]. cbn [snd subs chans]. split.
    + pose proof (size_union_alt {[length (chans h)]} (subs h)) as Hu. rewrite size_singleton in Hu.
      assert (size (subs h ∖ {[length (chans h)]}) <= size (subs h)) by (apply subseteq_size; set_solver). lia.
    + intros ch p Hp. apply lookup_app_Some in Hp as [Hp|[_ Hp]]; [eauto|].
      apply list_lookup_singleton_Some in Hp as [_ [=]].
  - cbn [cancel_subscription subs chans]. split; [|done].
    assert (size (subs h ∖ {[ch]}) <= size (subs h)) by (apply subseteq_size; set_solver). lia.
  - cbn [receive snd subs chans]. split; [done|]. intros ch' p Hp.
    apply list_lookup_insert_Some in Hp as [(_ & [=] & _)|[_ Hp]]. eauto.
Qed.

(** A subscriber whose channel is empty gets the next point taken; one that
    still holds a point keeps it, and the others' channels are left alone. *)
Lemma publish_chan (h : History F) p ch c :
  chans h !! ch = Some c ->
  chans (publish h p) !! ch = Some (if bool_decide (ch ∈ subs h) then Some (default p c) else c).
Proof. intros Hc. cbn. rewrite list_lookup_imap, Hc. cbn. case_bool_decide; by destruct c. Qed.
End Viewers.

(** An index whose state is one of the exported ones has exactly one of its
    state series at 1. *)
Lemma Collect_one_state ix :
  ix_State ix ∈ IndexStates ->
  filter (fun x => x.1.1 = "index_state"%string /\ x.2 = 1%Z) (Collect [ix]) = [("index_state"%string, [ix_Name ix; ix_State ix], 1%Z)].
Proof.
  destruct ix as [n s e b q]. cbn [ix_State ix_Name]. unfold IndexStates. rewrite !elem_of_cons, elem_of_nil.
  intros Hs. repeat destruct Hs as [->|Hs]; done.
Qed.

(** ** Instances *)

Definition ex_gauge (name : string) (v : Z) : MetricFamily (option Q) :=
  mkFamily name GAUGE [mkMetric [] (Some 0%Q) (Some (inject_Z v)) 0 []].

Definition ex_samples : list hop :=
  [HSample (Unix_ 8) ([ex_gauge "ncli_relay_members" 5], false);
   HSubscribe;
   HSample (Unix_ 9) ([ex_gauge "ncli_relay_members" 7], false);
   HSample (Unix_ 10) ([ex_gauge "ncli_relay_members" 8], false);
   HReceive 0;
   HSample (Unix_ 11) ([], true);
   HSample (Unix_ 12) ([ex_gauge "ncli_relay_members" 9; ex_gauge "ncli_relay_groups" 1], false);
   HSample (Unix_ 13) ([ex_gauge "ncli_relay_members" 9], false)].

(** Three raw points and the mean of the first ten seconds, in which a second
    series starts late. *)
Lemma history_exact_witness :
  ring_is (H := ieee) 3 (pair_of <$> (hrun (H := ieee) (fresh_history Second (3 * Second) (10 * Second) Minute) ex_samples).2)
    (raw (hrun (H := ieee) (fresh_history Second (3 * Second) (10 * Second) Minute) ex_samples).1) /\
  times (raw (hrun (H := ieee) (fresh_history Second (3 * Second) (10 * Second) Minute) ex_samples).1) = [10000; 12000; 13000]%Z /\
  exists r, rollup (hrun (H := ieee) (fresh_history Second (3 * Second) (10 * Second) Minute) ex_samples).1 = Some r /\
    times r = [0]%Z /\ series r !! "members"%string = Some [Some 6%Q].
Proof.
  destruct (history_exact (H := ieee) Second (3 * Second) (10 * Second) Minute ex_samples) as (Hraw & r & Hr & _); [done|done|].
  split; [exact Hraw|]. split; [vm_compute; reflexivity|]. exists r. split; [exact Hr|].
  vm_compute in Hr. injection Hr as <-. split; vm_compute; reflexivity.
Defined.

Lemma columns_exact_witness :
  exists cs, History_Columns (H := ieee) (hrun (H := ieee) (fresh_history Second (3 * Second) (10 * Second) Minute) ex_samples).1 = Some cs /\
    c_Times cs = [0; 10000; 12000; 13000]%Z /\
    c_Series cs !! "members"%string = Some [Some 6%Q; Some 8%Q; Some 9%Q; Some 9%Q] /\
    c_Series cs !! "groups"%string = Some [None; None; Some 1%Q; None].
Proof.
  destruct (columns_exact (H := ieee) Second (3 * Second) (10 * Second) Minute ex_samples 3 6)
    as (cs & Hcs & Ht & Hcol & Hkey & _); [done|done|done|].
  exists cs. split; [exact Hcs|]. split; [rewrite Ht; vm_compute; reflexivity|].
  assert (Hs : forall key, Exists (fun p : Point (option Q) => is_Some (p_Values p !! key))
             (hrun (H := ieee) (fresh_history Second (3 * Second) (10 * Second) Minute) ex_samples).2 ->
             c_Series cs !! key = Some (value_at (H := ieee) key <$> shown (H := ieee) 3 6 (Milliseconds (10 * Second))
               (hrun (H := ieee) (fresh_history Second (3 * Second) (10 * Second) Minute) ex_samples).2)).
  { intros key Hk. apply Hkey in Hk as [col Hk]. by rewrite Hk, (Hcol _ _ Hk). }
  split.
  - rewrite Hs; [vm_compute; reflexivity|]. apply Exists_exists. eexists. split; [by left|]. vm_compute. eauto.
  - rewrite Hs; [vm_compute; reflexivity|]. apply Exists_exists. eexists. split; [by right; right; right; left|]. vm_compute. eauto.
Defined.

Lemma quantile_ordered_witness :
  exists v w,
    @quantile (option Q) exact (Some (1 # 2)%Q) [Some (1 # 1); Some (2 # 1)]%Q [Some (4 # 1); Some (10 # 1)]%Q (Some (10 # 1)%Q) = Some v /\
    @quantile (option Q) exact (Some (95 # 100)%Q) [Some (1 # 1); Some (2 # 1)]%Q [Some (4 # 1); Some (10 # 1)]%Q (Some (10 # 1)%Q) = Some w /\
    (0 <= v)%Q /\ (v <= w)%Q /\ (w <= 2)%Q.
Proof.
  apply (quantile_ordered (1 # 2) (95 # 100) 10 [(1 # 1, 4 # 1); (2 # 1, 10 # 1)]%Q); cbn; lra || done.
Defined.
