(* ===== verification/AdminAuth.v ===== *)
(** * The admin listener's sessions, failure limiter and replay guard

    Models [src/cli/relay/adminplane/auth.go] and [replay.go].  Each operation
    runs under its object's mutex and is one function; random tokens and the
    order in which a map is visited are arguments. *)
From S2P Require Import Prelude GoTime GoStrings.
From stdpp Require Import options.

Local Open Scope Z_scope.

(** ** Dashboard sessions *)

Definition maxSessions : nat := 64.

Record session := mkSession {
  se_pubkey : string;
  se_csrf : string;
  se_expires : Z;
}.

Record sessions := mkSessions {
  ss_ttl : Z;
  ss_byID : gmap string session;
}.

Definition newSessions (ttl : Z) : sessions := mkSessions ttl ∅.

Definition sessions_sweep (now : Z) (s : sessions) : sessions :=
  mkSessions (ss_ttl s) (filter (fun kv => Time_After now (se_expires kv.2) = false) (ss_byID s)).

(** The loop that picks the session closest to expiring: the first of the
    visit with the least expiry. *)
Fixpoint oldest_session (best : option (string * session)) (visit : list (string * session)) : option string :=
  match visit with
  | [] => fst <$> best
  | (k, v) :: visit =>
      match best with
      | None => oldest_session (Some (k, v)) visit
      | Some (_, b) =>
          if Time_Before (se_expires v) (se_expires b)
          then oldest_session (Some (k, v)) visit
          else oldest_session best visit
      end
  end.

(** [create]; [id] and [csrf] are the random tokens it draws. *)
Definition sessions_create (pubkey : string) (now : Z) (id csrf : string) (ord : list string) (s : sessions)
    : session * sessions :=
  let s := sessions_sweep now s in
  let byID :=
    if (maxSessions <=? size (ss_byID s))%nat then
      match oldest_session None (range_map ord (ss_byID s)) with
      | Some k => delete k (ss_byID s)
      | None => ss_byID s
      end
    else ss_byID s in
  let sess := mkSession pubkey csrf (Time_Add now (ss_ttl s)) in
  (sess, mkSessions (ss_ttl s) (<[id := sess]> byID)).

Definition sessions_get (id : string) (admins : list string) (now : Z) (s : sessions)
    : option session * sessions :=
  match ss_byID s !! id with
  | None => (None, s)
  | Some sess =>
      if Time_After now (se_expires sess) || negb (bool_decide (se_pubkey sess ∈ admins))
      then (None, mkSessions (ss_ttl s) (delete id (ss_byID s)))
      else (Some sess, s)
  end.

Definition sessions_remove (id : string) (s : sessions) : sessions :=
  mkSessions (ss_ttl s) (delete id (ss_byID s)).

(** [csrfMatches], of the header's value. *)
Definition csrfMatches (sess : session) (got : string) : bool :=
  negb (is_empty got) && String.eqb got (se_csrf sess).

(** ** Failed attempts *)

Definition failLimit : Z := 10.
Definition failWindow : Z := Minute.
Definition maxFailedAddr : Z := 10000.

Record failCount := mkFail { fc_n : Z; fc_since : Z }.

Abbreviation failLimiter := (gmap string failCount).

Definition too_old (now : Z) (f : failCount) : bool := failWindow <? Time_Sub now (fc_since f).

Definition limiter_blocked (ip : string) (now : Z) (l : failLimiter) : bool * failLimiter :=
  match l !! ip with
  | None => (false, l)
  | Some f => if too_old now f then (false, delete ip l) else (failLimit <=? fc_n f, l)
  end.

(** Start counting [ip] anew: when there are too many addresses, the stale
    ones are dropped first, and a full table counts no further one. *)
Definition limiter_restart (ip : string) (now : Z) (l : failLimiter) : failLimiter :=
  let full (l : failLimiter) := maxFailedAddr <=? Z.of_nat (size l) in
  let l := if full l then filter (fun kv => too_old now kv.2 = false) l else l in
  if full l then l else <[ip := mkFail 1 now]> l.

Definition limiter_fail (ip : string) (now : Z) (l : failLimiter) : failLimiter :=
  match l !! ip with
  | Some f =>
      if too_old now f then limiter_restart ip now l
      else <[ip := mkFail (wrap64 (fc_n f + 1)) (fc_since f)]> l
  | None => limiter_restart ip now l
  end.

(** ** Replays *)

Definition nip98Window : Z := 2 * Minute.

Abbreviation ReplayGuard := (gmap string Z).

Section Replay.
(** Decoding of a header: base64, and the id of the event's JSON. *)
Variable base64_Decode : string -> option string.
Variable event_id : string -> option string.

Definition nip98EventID (authHeader : string) : string :=
  match CutPrefix authHeader "Nostr " with
  | None => ""
  | Some raw =>
      match base64_Decode raw with
      | None => ""
      | Some b => default "" (event_id b)
      end
  end%string.

(** [First], with the id already taken from the header. *)
Definition guard_First_id (id : string) (now : Z) (g : ReplayGuard) : bool * ReplayGuard :=
  if is_empty id then (false, g) else
  let g := filter (fun kv => Time_After now kv.2 = false) g in
  match g !! id with
  | Some _ => (false, g)
  | None => (true, <[id := Time_Add now nip98Window]> g)
  end.

Definition guard_First (authHeader : string) (now : Z) (g : ReplayGuard) : bool * ReplayGuard :=
  guard_First_id (nip98EventID authHeader) now g.

Definition guard_Used (authHeader : string) (now : Z) (g : ReplayGuard) : bool :=
  let id := nip98EventID authHeader in
  if is_empty id then false else
  match g !! id with
  | Some exp => Time_Before now exp
  | None => false
  end.

(** [ServeOnce] in its two critical sections, with [next] between them: refuse
    or go on, then record an accepted request. *)
Definition ServeOnce_enter (auth : string) (now : Z) (g : ReplayGuard) : bool :=
  negb (is_empty auth) && guard_Used auth now g.

Definition ServeOnce_leave (auth : string) (status now : Z) (g : ReplayGuard) : ReplayGuard :=
  if negb (is_empty auth) && (status <? 300) then snd (guard_First auth now g) else g.

End Replay.
