(* ===== verification/AdminTokens.v ===== *)
(** * Metrics tokens

    Models [src/cli/relay/adminplane/tokens.go]: the tokens file, adding and
    removing tokens, and the set the server checks bearer tokens against.

    A file is its permission bits, its modification time and its bytes; an
    operation is given the file as each of its system calls finds it, and the
    outcome of the calls that can fail.  SHA-256 and the random bytes of a new
    token are parameters. *)
From S2P Require Import Prelude GoTime GoStrings GoNet GoEncoding.
From stdpp Require Import options.
From Stdlib Require Import Ascii.

Local Open Scope Z_scope.

Definition TokenPrefix : string := "ncli_mt_".
Definition minTokenBytes : nat := 32.
Definition sha256_Size : nat := 32.

(** [tokenNameRe]: one to 64 of the letters, the digits, [.], [_] and [-]. *)
Definition is_name_byte (c : ascii) : bool :=
  let n := nat_of_ascii c in
  ((65 <=? n) && (n <=? 90) || (97 <=? n) && (n <=? 122) || (48 <=? n) && (n <=? 57))%nat
  || bool_decide (c ∈ ["."; "_"; "-"]%char).

Definition tokenNameRe (name : string) : bool :=
  let n := String.length name in (1 <=? n)%nat && (n <=? 64)%nat && all_bytes is_name_byte name.

Record TokenEntry := mkEntry {
  te_Hash : string;
  te_Name : string;
  te_Created : string;
}.

#[export] Instance TokenEntry_eq_dec : EqDecision TokenEntry.
Proof. solve_decision. Defined.

(** ** The file *)

Record file := mkFile {
  f_mode : Z;
  f_mtime : Z;
  f_data : string;
}.

Definition f_size (f : file) : Z := Z.of_nat (String.length (f_data f)).

(** [fi.Mode().Perm()&0o077 != 0] *)
Definition open_to_others (f : file) : bool := negb (Z.land (Z.land (f_mode f) 511) 63 =? 0).

Inductive LineError := EPlaintext | ENotHash | EBadHash.

Inductive TokenError :=
| EStat
| EMode                             (* errTokensFileMode *)
| ELine (n : nat) (e : LineError)
| ETooLong                          (* bufio.ErrTooLong *)
| EInvalidName                      (* ErrInvalidTokenName *)
| ENameTaken                        (* ErrTokenNameTaken *)
| ENotFound                         (* ErrTokenNotFound *)
| EIO.

(** The [key=value] fields after the hash. *)
Definition set_field (e : TokenEntry) (f : string) : TokenEntry :=
  let '(k, v, _) := Cut f "=" in
  if String.eqb k "name" then mkEntry (te_Hash e) v (te_Created e)
  else if String.eqb k "created" then mkEntry (te_Hash e) (te_Name e) v
  else e.

(** [fields] is not empty: a line is parsed only when it has visible text. *)
Definition parseTokenLine (text : string) : result LineError TokenEntry :=
  let fields := Fields text in
  let first := default ""%string (head fields) in
  match CutPrefix first "sha256:" with
  | None => Err (if HasPrefix first TokenPrefix then EPlaintext else ENotHash)
  | Some hashHex =>
      match hex_DecodeString hashHex with
      | Some raw =>
          if Nat.eqb (String.length raw) sha256_Size
          then Ok (fold_left set_field (tail fields) (mkEntry raw "" ""))
          else Err EBadHash
      | None => Err EBadHash
      end
  end.

(** [text == "" || strings.HasPrefix(text, "#")] *)
Definition ignored (text : string) : bool := is_empty text || HasPrefix text "#".

(** The loop over the scanner's lines; [n] is the line's number. *)
Fixpoint load_lines (n : nat) (lines : list string) : result TokenError (list TokenEntry) :=
  match lines with
  | [] => Ok []
  | l :: lines =>
      if too_long l then Err ETooLong else
      let text := TrimSpace (dropCR l) in
      if ignored text then load_lines (S n) lines
      else
        e ← wrap_err (ELine n) (parseTokenLine text);
        es ← load_lines (S n) lines;
        Ok (e :: es)
  end.

Definition LoadTokens (f : option file) : result TokenError (list TokenEntry) :=
  match f with
  | None => Err EStat
  | Some f => if open_to_others f then Err EMode else load_lines 1 (raw_lines (f_data f))
  end.

Section Tokens.
Variable sha256 : string -> string.

(** [NewToken]; [buf] is what [rand.Read] gives. *)
Definition NewToken (name : string) (now : Z) (buf : string) : result TokenError (string * string) :=
  if negb (tokenNameRe name) then Err EInvalidName else
  let token := (TokenPrefix ++ base64url buf)%string in
  let line := ("sha256:" ++ hex_EncodeToString (sha256 token) ++ " name=" ++ name
               ++ " created=" ++ format_date now)%string in
  Ok (token, line).

(** How the system calls of [AddToken] end: whether [MkdirAll], [OpenFile] and
    [Close] succeed, and how many bytes a failing write leaves. *)
Record add_io := mkAddIO {
  ai_mkdir : bool;
  ai_open : bool;
  ai_write : option nat;
  ai_close : bool;
  ai_mtime : Z;
}.

Definition append_file (mtime : Z) (data : string) (f : option file) : file :=
  match f with
  | None => mkFile 384 mtime data                              (* 0o600 *)
  | Some f => mkFile (f_mode f) mtime (f_data f ++ data)
  end.

Definition newline : string := String (byte_of 10) "".

(** [AddToken]: what it returns and the file it leaves. *)
Definition AddToken (name : string) (now : Z) (buf : string) (io : add_io) (f : option file)
    : result TokenError string * option file :=
  let taken :=
    match f with
    | None => Ok tt
    | Some _ => es ← LoadTokens f; refuse_if (existsb (fun e => String.eqb (te_Name e) name) es) ENameTaken
    end in
  match (taken ;; NewToken name now buf) with
  | Err e => (Err e, f)
  | Ok (token, line) =>
      if negb (ai_mkdir io) || negb (ai_open io) then (Err EIO, f) else
      let data := (line ++ newline)%string in
      match ai_write io with
      | Some k => (Err EIO, Some (append_file (ai_mtime io) (take_string k data) f))
      | None =>
          (if ai_close io then Ok token else Err EIO, Some (append_file (ai_mtime io) data f))
      end
  end.

(** ** [RemoveToken] *)

Definition named (name line : string) : bool :=
  let trimmed := TrimSpace line in
  if ignored trimmed then false else
  match parseTokenLine trimmed with
  | Ok e => String.eqb (te_Name e) name
  | Err _ => false
  end.

Definition removed_text (name data : string) : option string :=
  let lines := Split (TrimRightNL data) "010" in
  if existsb (named name) lines then
    let out := Join (List.filter (fun l => negb (named name l)) lines) newline in
    Some (if is_empty out then out else (out ++ newline)%string)
  else None.

(** The tokens file and [path + ".tmp"].  [os.WriteFile] truncates an existing
    temporary file and keeps its mode.  [read] is the file as [ReadFile] finds
    it. *)
Record rm_io := mkRmIO {
  ri_write : option nat;     (* how many bytes a failing write leaves *)
  ri_rename : bool;
  ri_mtime : Z;
}.

Definition RemoveToken (name : string) (io : rm_io) (read : option file) (fs : option file * option file)
    : result TokenError unit * (option file * option file) :=
  let '(f, tmp) := fs in
  match LoadTokens f with
  | Err e => (Err e, fs)
  | Ok _ =>
      match read with
      | None => (Err EIO, fs)
      | Some r =>
          match removed_text name (f_data r) with
          | None => (Err ENotFound, fs)
          | Some out =>
              let mode := match tmp with Some t => f_mode t | None => 384 end in
              match ri_write io with
              | Some k => (Err EIO, (f, Some (mkFile mode (ri_mtime io) (take_string k out))))
              | None =>
                  let t := mkFile mode (ri_mtime io) out in
                  if ri_rename io then (Ok tt, (Some t, None)) else (Err EIO, (f, Some t))
              end
          end
      end
  end.

(** ** [tokenSet] *)

Definition recheckEvery : Z := Second.

Record tokenSet := mkTokenSet {
  ts_mtime : Z;
  ts_size : Z;
  ts_hashes : list string;
  ts_checked : Z;
}.

(** [reload]: [st] is the file its [Stat] finds, [f] the one [LoadTokens]
    reads. *)
Definition reload (st f : option file) (t : tokenSet) : option tokenSet :=
  match st, LoadTokens f with
  | Some fi, Ok entries => Some (mkTokenSet (f_mtime fi) (f_size fi) (te_Hash <$> entries) (ts_checked t))
  | _, _ => None
  end.

Definition newTokenSet (st f : option file) : option tokenSet := reload st f (mkTokenSet 0 0 [] 0).

(** The check of the file inside [valid]. *)
Definition recheck (now : Z) (fi st f : option file) (t : tokenSet) : tokenSet :=
  let t := mkTokenSet (ts_mtime t) (ts_size t) (ts_hashes t) now in
  match fi with
  | None => mkTokenSet 0 (ts_size t) [] now
  | Some g =>
      if open_to_others g then mkTokenSet 0 (ts_size t) [] now
      else if negb (f_mtime g =? ts_mtime t) || negb (f_size g =? ts_size t)
      then match reload st f t with
           | Some t => t
           | None => mkTokenSet (ts_mtime t) (ts_size t) [] now
           end
      else t
  end.

(** [valid]: [fi] is the file its own [Stat] finds. *)
Definition valid (token : string) (now : Z) (fi st f : option file) (t : tokenSet) : bool * tokenSet :=
  if negb (HasPrefix token TokenPrefix) then (false, t) else
  let sum := sha256 token in
  let t := if recheckEvery <=? Time_Sub now (ts_checked t) then recheck now fi st f t else t in
  (existsb (String.eqb sum) (ts_hashes t), t).

End Tokens.
