(* ===== verification/AdminTokensFacts.v ===== *)
(** * Metrics tokens: adding, removing and checking them

    A line of the tokens file is good when it loads; a file loads exactly when
    all of its lines are, to the entries of those lines ([load_lines_Ok]).
    Adding and removing are then facts about lists of lines.  The set that
    [valid] consults is compared with a reference that reads the file at every
    check. *)
From S2P Require Import Prelude GoTime GoStrings GoNet GoEncoding AdminTokens.
From stdpp Require Import options.
From Stdlib Require Import Ascii.

Local Open Scope Z_scope.

#[local] Arguments String.append : simpl nomatch.

(** ** White space at the ends *)

Definition CR : ascii := byte_of 13.

Lemma HasPrefix_length s p : HasPrefix s p = true -> (String.length p <= String.length s)%nat.
Proof. intros (t & ->)%HasPrefix_spec. rewrite length_append. lia. Qed.

Lemma HasPrefix_before_CR w x :
  all_bytes (fun c => negb (Ascii.eqb c CR)) w = true ->
  HasPrefix (x ++ String CR "") w = HasPrefix x w.
Proof.
  revert x. induction w as [|a w IH]; intros x; cbn [all_bytes].
  - intros _. by destruct x.
  - rewrite andb_true_iff. intros [Ha Hw]. unfold HasPrefix in *. destruct x as [|c x]; cbn [String.append String.prefix].
    + destruct (ascii_dec a CR) as [->|]; done.
    + case_match; [by apply IH|done].
Qed.

Lemma spaces_CR :
  Forall (fun w => match w with
                   | String _ w => all_bytes (fun c => negb (Ascii.eqb c CR)) w = true
                   | EmptyString => False
                   end) spaces.
Proof. unfold spaces. cbn. repeat constructor. Qed.

Lemma find_space_CR c x :
  List.find (HasPrefix (String c x ++ String CR "")) spaces = List.find (HasPrefix (String c x)) spaces.
Proof.
  induction spaces_CR as [|w ws Hw _ IH]; [done|]. cbn [List.find].
  destruct w as [|a w]; [done|].
  assert (HasPrefix (String c x ++ String CR "") (String a w) = HasPrefix (String c x) (String a w)) as ->.
  { unfold HasPrefix. cbn [String.append String.prefix]. case_match; [|done]. apply (HasPrefix_before_CR w x Hw). }
  by rewrite IH.
Qed.

Lemma trim_left_CR t skip :
  (skip <= String.length t)%nat ->
  trim_left_from spaces (t ++ String CR "") skip
  = let l := trim_left_from spaces t skip in if is_empty l then ""%string else (l ++ String CR "")%string.
Proof.
  revert skip. induction t as [|c t IH]; intros skip Hs.
  - cbn in Hs. destruct skip; [|lia]. reflexivity.
  - change (String c t ++ String CR "")%string with (String c (t ++ String CR "")) in *.
    cbn [trim_left_from String.length] in *. destruct skip as [|k]; [|apply IH; lia].
    pose proof (find_space_CR c t) as Hf. cbn [String.append] in Hf. rewrite Hf. clear Hf.
    destruct (List.find (HasPrefix (String c t)) spaces) as [w|] eqn:E; [|done].
    apply List.find_some in E as [_ E%HasPrefix_length]. cbn in E. apply IH. lia.
Qed.

Lemma find_rev_CR s :
  List.find (HasPrefix (String CR s)) (map (fun w => rev_string w "") spaces) = Some (String CR "").
Proof. vm_compute. by destruct s. Qed.

Lemma TrimSpace_CR t : TrimSpace (t ++ String CR "") = TrimSpace t.
Proof.
  unfold TrimSpace. rewrite trim_left_CR by lia. cbn zeta.
  destruct (trim_left_from spaces t 0) as [|c l] eqn:E; cbn [is_empty]; [done|].
  rewrite rev_string_app.
  change (rev_string (String CR "") "" ++ rev_string (String c l) "")%string
    with (String CR (rev_string (String c l) "")).
  cbn [trim_left_from]. by rewrite find_rev_CR.
Qed.

Lemma CutSuffix_Some s p u : CutSuffix s p = Some u -> s = (u ++ p)%string.
Proof.
  unfold CutSuffix, HasSuffix. case_match eqn:E; [|done]. apply HasPrefix_spec in E as (t & Ht).
  assert (s = rev_string t "" ++ p)%string as ->.
  { rewrite <- (rev_string_inv s), Ht, rev_string_app, rev_string_inv. done. }
  rewrite length_append, Nat.add_sub, take_append. by intros [= <-].
Qed.

Lemma TrimSpace_dropCR l : TrimSpace (dropCR l) = TrimSpace l.
Proof.
  unfold dropCR. destruct (CutSuffix l _) as [t|] eqn:E; cbn; [|done].
  apply CutSuffix_Some in E as ->. by rewrite TrimSpace_CR.
Qed.

(** A line that is parsed has a first field. *)
Lemma HasPrefix_prefix x y w : HasPrefix x w = true -> HasPrefix (x ++ y) w = true.
Proof. intros (t & ->)%HasPrefix_spec. apply HasPrefix_spec. exists (t ++ y)%string. by rewrite append_assoc. Qed.

Lemma trim_left_suffix ws s k : exists p, s = (p ++ trim_left_from ws s k)%string.
Proof.
  revert k. induction s as [|c s IH]; intros k; [by exists ""%string|]. cbn [trim_left_from].
  destruct k as [|k].
  - case_match; [|by exists ""%string]. destruct (IH (pred (String.length s0))) as [p Hp].
    exists (String c p). cbn. by rewrite <- Hp.
  - destruct (IH k) as [p Hp]. exists (String c p). cbn. by rewrite <- Hp.
Qed.

Lemma trim_left_head s k c r :
  (k <= String.length s)%nat -> trim_left_from spaces s k = String c r ->
  List.find (HasPrefix (String c r)) spaces = None.
Proof.
  revert k. induction s as [|d s IH]; intros k Hk; cbn [trim_left_from String.length] in *; [done|].
  destruct k as [|k]; [|apply IH; lia].
  destruct (List.find (HasPrefix (String d s)) spaces) as [w|] eqn:E;
    [|intros Heq; by rewrite <- Heq].
  apply List.find_some in E as [_ E%HasPrefix_length]. cbn in E. apply IH. lia.
Qed.

Lemma TrimSpace_head s c r : TrimSpace s = String c r -> List.find (HasPrefix (String c r)) spaces = None.
Proof.
  unfold TrimSpace. set (l := trim_left_from spaces s 0). intros E.
  destruct (trim_left_suffix (map (fun w => rev_string w "") spaces) (rev_string l "") 0) as [p Hp].
  apply (f_equal (fun x => rev_string x "")) in Hp. rewrite rev_string_inv, rev_string_app, E in Hp.
  assert (List.find (HasPrefix l) spaces = None) as Hl.
  { rewrite Hp. cbn [String.append]. apply (trim_left_head s 0); [lia|]. fold l. by rewrite Hp. }
  destruct (List.find (HasPrefix (String c r)) spaces) as [w|] eqn:Ew; [|done].
  apply List.find_some in Ew as [Hin Hw]. apply (List.find_none _ _ Hl) in Hin.
  by rewrite Hp, HasPrefix_prefix in Hin.
Qed.

Lemma fields_from_cur s k c cur : fields_from s k (String c cur) <> [].
Proof.
  revert k c cur. induction s as [|d s IH]; intros k c cur; cbn [fields_from is_empty]; [done|].
  destruct k; [|apply IH]. case_match; [done|apply IH].
Qed.

Lemma parsed_has_field l : ignored (TrimSpace l) = false -> Fields (TrimSpace l) <> [].
Proof.
  unfold ignored, Fields. destruct (TrimSpace l) as [|c r] eqn:E; [done|]. intros _.
  apply TrimSpace_head in E. cbn [fields_from]. rewrite E. apply fields_from_cur.
Qed.

(** ** Lines *)

Definition line_entry (l : string) : list TokenEntry :=
  if ignored (TrimSpace l) then []
  else match parseTokenLine (TrimSpace l) with Ok e => [e] | Err _ => [] end.

Definition good_line (l : string) : Prop :=
  too_long l = false /\ (ignored (TrimSpace l) = true \/ is_ok (parseTokenLine (TrimSpace l)) = true).

Abbreviation entries ls := (flat_map line_entry ls).

Lemma load_lines_Ok n ls es : load_lines n ls = Ok es <-> Forall good_line ls /\ es = entries ls.
Proof.
  revert n es. induction ls as [|l ls IH]; intros n es; cbn [load_lines flat_map].
  - split; [intros [= <-]; by split|]. by intros [_ ->].
  - rewrite Forall_cons, TrimSpace_dropCR. unfold good_line at 1, line_entry at 1.
    destruct (too_long l) eqn:Hl; [split; [done|naive_solver]|].
    destruct (ignored (TrimSpace l)) eqn:Hi.
    { rewrite IH. naive_solver. }
    destruct (parseTokenLine (TrimSpace l)) as [e|er]; cbn; [|split; [done|naive_solver]].
    destruct (load_lines (S n) ls) as [es'|er] eqn:E.
    + pose proof (proj1 (IH _ _) E) as [HF ->]. split; [intros [= <-]|intros [_ ->]]; naive_solver.
    + split; [done|]. intros [[_ HF] _]. by rewrite (proj2 (IH _ _) (conj HF eq_refl)) in E.
Qed.

Definition NL : ascii := "010"%char.

Lemma Split_nonempty s : Split s NL <> [].
Proof. destruct s as [|c s]; cbn; repeat case_match; done. Qed.

Lemma Split_app s t : Split (s ++ String NL t) NL = (Split s NL ++ Split t NL)%list.
Proof.
  induction s as [|c s IH]; [done|]. change ((String c s ++ String NL t)%string) with (String c (s ++ String NL t)).
  cbn [Split]. rewrite IH. destruct (Ascii.eqb c NL); [done|].
  pose proof (Split_nonempty s). by destruct (Split s NL).
Qed.

Definition no_NL (s : string) : Prop := all_bytes (fun c => negb (Ascii.eqb c NL)) s = true.

Lemma Split_no_NL s : no_NL s -> Split s NL = [s].
Proof.
  unfold no_NL. induction s as [|c s IH]; cbn [all_bytes Split]; [done|]. rewrite andb_true_iff. intros [Hc Hs].
  destruct (Ascii.eqb c NL); [done|]. by rewrite (IH Hs).
Qed.

Lemma Split_lines_no_NL s : Forall no_NL (Split s NL).
Proof.
  induction s as [|c s IH]; cbn [Split]; [by constructor|].
  destruct (Ascii.eqb c NL) eqn:E; [by constructor|].
  destruct (Split s NL) as [|w ws]; [constructor; [|constructor]|apply Forall_cons in IH as [Hw IH]; constructor; [|done]];
    unfold no_NL; cbn [all_bytes]; by rewrite E.
Qed.

Lemma drop_last_empty_snoc ls : drop_last_empty (ls ++ [""%string])%list = ls.
Proof.
  induction ls as [|l ls IH]; [done|]. change ((l :: ls) ++ [""%string])%list with (l :: (ls ++ [""%string]))%list.
  cbn [drop_last_empty]. rewrite IH. by destruct ls.
Qed.

Lemma good_empty : good_line ""%string.
Proof. split; [done|by left]. Qed.

(** The empty last line that the scanner does not report has no entry. *)
Lemma drop_last_empty_entries ls :
  entries (drop_last_empty ls) = entries ls /\ (Forall good_line (drop_last_empty ls) <-> Forall good_line ls).
Proof.
  induction ls as [|l ls [IHe IHf]]; [done|].
  destruct ls as [|l' ls'].
  - cbn [drop_last_empty]. destruct l as [|c l]; cbn [is_empty]; [|done].
    split; [done|]. rewrite Forall_singleton. split; [intros _; apply good_empty|constructor].
  - change (drop_last_empty (l :: l' :: ls')) with (l :: drop_last_empty (l' :: ls')).
    change (entries (l :: drop_last_empty (l' :: ls'))) with (line_entry l ++ entries (drop_last_empty (l' :: ls')))%list.
    rewrite IHe, !(Forall_cons _ l), IHf. done.
Qed.

Lemma raw_lines_entries s :
  entries (raw_lines s) = entries (Split s NL) /\ (Forall good_line (raw_lines s) <-> Forall good_line (Split s NL)).
Proof. apply drop_last_empty_entries. Qed.

(** A text that is loaded, as the lines [Split] gives. *)
Lemma load_text_Ok s es : load_lines 1 (raw_lines s) = Ok es <-> Forall good_line (Split s NL) /\ es = entries (Split s NL).
Proof. rewrite load_lines_Ok. destruct (raw_lines_entries s) as [-> ->]. done. Qed.

(** ** The line of a new token *)

Lemma name_byte_graph c : is_name_byte c = true -> is_graph c && negb (Ascii.eqb c "=") = true.
Proof. destruct c as [[] [] [] [] [] [] [] []]; cbn; done. Qed.

Lemma all_bytes_and f g s : all_bytes (fun c => f c && g c) s = all_bytes f s && all_bytes g s.
Proof.
  induction s as [|c s IH]; cbn [all_bytes Cut String.append]; [done|]. rewrite IH. destruct (f c), (g c); cbn; try done. by rewrite andb_false_r.
Qed.

Lemma Cut_absent s c : all_bytes (fun d => negb (Ascii.eqb d c)) s = true -> Cut s c = (s, ""%string, false).
Proof.
  induction s as [|d s IH]; cbn [all_bytes Cut String.append]; [done|]. rewrite andb_true_iff. intros [Hd Hs].
  destruct (Ascii.eqb d c); [done|]. by rewrite (IH Hs).
Qed.

Lemma Cut_at s t c : all_bytes (fun d => negb (Ascii.eqb d c)) s = true -> Cut (s ++ String c t) c = (s, t, true).
Proof.
  induction s as [|d s IH]; cbn [all_bytes Cut String.append]; [by rewrite Ascii.eqb_refl|]. rewrite andb_true_iff. intros [Hd Hs].
  destruct (Ascii.eqb d c); [done|]. by rewrite (IH Hs).
Qed.

Lemma is_graph_NL s : graphic s -> no_NL s.
Proof. apply all_bytes_impl. intros c. by destruct c as [[] [] [] [] [] [] [] []]. Qed.

Definition token_line (hash name date : string) : string :=
  "sha256:" ++ hex_EncodeToString hash ++ " name=" ++ name ++ " created=" ++ date.

Lemma parse_token_line hash name date :
  String.length hash = sha256_Size ->
  all_bytes is_name_byte name = true -> all_bytes is_date_byte date = true ->
  parseTokenLine (token_line hash name date) = Ok (mkEntry hash name date).
Proof.
  intros Hh Hn Hd.
  pose proof (all_bytes_impl _ _ _ name_byte_graph Hn) as Hn'. rewrite all_bytes_and, andb_true_iff in Hn'.
  pose proof (all_bytes_impl _ _ _ date_byte_graph Hd) as Hd'. rewrite all_bytes_and, andb_true_iff in Hd'.
  assert (Fields (token_line hash name date)
          = [("sha256:" ++ hex_EncodeToString hash)%string; ("name=" ++ name)%string; ("created=" ++ date)%string]) as HF.
  { unfold token_line.
    change (" name=" ++ name ++ " created=" ++ date)%string
      with (String " " (("name=" ++ name) ++ String " " ("created=" ++ date))%string).
    rewrite <- append_assoc, Fields_cons; [|by rewrite all_bytes_app, hex_graphic|done].
    rewrite Fields_cons; [|by rewrite all_bytes_app, (proj1 Hn')|done].
    by rewrite Fields_one; [|rewrite all_bytes_app, (proj1 Hd')|]. }
  unfold parseTokenLine. rewrite HF. cbn [head tail from_option id].
  rewrite (proj2 (CutPrefix_Some _ _ _) eq_refl), hex_roundtrip, Hh. cbn [Nat.eqb].
  change (Nat.eqb sha256_Size sha256_Size) with true. cbn iota. cbn [fold_left].
  unfold set_field.
  change ("name=" ++ name)%string with ("name" ++ String "=" name)%string.
  change ("created=" ++ date)%string with ("created" ++ String "=" date)%string.
  rewrite !Cut_at by done. done.
Qed.

Lemma string_last f s :
  s <> ""%string -> all_bytes f s = true -> exists t c, s = (t ++ String c "")%string /\ f c = true.
Proof.
  induction s as [|a s IH]; [done|]. intros _. cbn [all_bytes]. rewrite andb_true_iff. intros [Ha Hs].
  destruct s as [|b s]; [by exists ""%string, a|].
  destruct (IH ltac:(done) Hs) as (t & c & -> & Hc). by exists (String a t), c.
Qed.

Lemma format_date_nonempty t : format_date t <> ""%string.
Proof. unfold format_date. destruct (civil _) as [[y m] d]. intros H%(f_equal String.length). rewrite !length_append in H. cbn in H. lia. Qed.

Lemma token_line_trim hash name date :
  date <> ""%string -> all_bytes is_date_byte date = true ->
  TrimSpace (token_line hash name date) = token_line hash name date.
Proof.
  intros Hne Hd. destruct (string_last _ _ Hne Hd) as (d & c & -> & Hc%date_byte_graph).
  apply andb_true_iff in Hc as [Hc _].
  unfold token_line. change ("sha256:" ++ ?r)%string with (String "s" ("ha256:" ++ r)%string).
  eapply (TrimSpace_graph _ _ c (String "s" ("ha256:" ++ hex_EncodeToString hash ++ " name=" ++ name ++ " created=" ++ d))%string);
    [done|done|].
  change (String "s" ("ha256:" ++ ?r)%string) with ("sha256:" ++ r)%string. by rewrite !append_assoc.
Qed.

Lemma decimal_from_length fuel n acc :
  (String.length (decimal_from fuel n acc) <= S fuel + String.length acc)%nat.
Proof.
  revert n acc. induction fuel as [|fuel IH]; intros n acc; cbn [decimal_from]; [cbn; lia|].
  case_match; [cbn; lia|]. etrans; [apply IH|]. cbn. lia.
Qed.

Lemma zeros_length n : String.length (zeros n) = n.
Proof. induction n as [|n IH]; cbn; [done|]. by rewrite IH. Qed.

Lemma appendInt_length x w : (String.length (appendInt x w) <= 22 + w)%nat.
Proof.
  unfold appendInt. rewrite !length_append, zeros_length.
  pose proof (decimal_from_length 20 (Z.abs x) "") as H. cbn [String.length] in H.
  destruct (x <? 0); cbn [String.length]; lia.
Qed.

Lemma hex_length s : String.length (hex_EncodeToString s) = (2 * String.length s)%nat.
Proof. induction s as [|c s IH]; [done|]. cbn [hex_EncodeToString String.length]. rewrite IH. lia. Qed.

Lemma token_line_short hash name t :
  String.length hash = sha256_Size -> (String.length name <= 64)%nat ->
  too_long (token_line hash name (format_date t)) = false.
Proof.
  intros Hh Hn. unfold too_long, token_line, format_date. destruct (civil _) as [[y m] d].
  rewrite !length_append, hex_length, Hh. unfold sha256_Size, MaxScanTokenSize.
  pose proof (appendInt_length y 4). pose proof (appendInt_length m 2). pose proof (appendInt_length d 2).
  apply Z.leb_gt. cbn [String.length]. lia.
Qed.

Lemma token_line_no_NL hash name date :
  all_bytes is_name_byte name = true -> all_bytes is_date_byte date = true -> no_NL (token_line hash name date).
Proof.
  intros Hn%(all_bytes_impl _ _ _ name_byte_graph) Hd%(all_bytes_impl _ _ _ date_byte_graph).
  rewrite all_bytes_and, andb_true_iff in Hn, Hd. destruct Hn as [Hn _], Hd as [Hd _].
  unfold no_NL, token_line. rewrite !all_bytes_app.
  pose proof (is_graph_NL _ (hex_graphic hash)) as H1. pose proof (is_graph_NL _ Hn) as H2.
  pose proof (is_graph_NL _ Hd) as H3. unfold no_NL in *. by rewrite H1, H2, H3.
Qed.

(** The line [NewToken] gives is good and has exactly the token's entry. *)
Lemma new_line hash name t :
  String.length hash = sha256_Size -> tokenNameRe name = true ->
  let l := token_line hash name (format_date t) in
  good_line l /\ line_entry l = [mkEntry hash name (format_date t)] /\ Split l NL = [l].
Proof.
  unfold tokenNameRe. rewrite !andb_true_iff. intros Hh [[_ Hlen%Nat.leb_le] Hn]. cbn zeta.
  pose proof (format_date_bytes t) as Hd.
  unfold good_line, line_entry. rewrite token_line_trim by (done || apply format_date_nonempty).
  rewrite parse_token_line by done. split_and!; [by apply token_line_short|by right|done|].
  by apply Split_no_NL, token_line_no_NL.
Qed.

(** ** Adding *)

(** The text is empty or ends with a newline, as [AddToken] leaves it. *)
Definition terminated (data : string) : Prop := data = ""%string \/ exists d, data = (d ++ newline)%string.

Lemma append_good data l e es :
  terminated data -> load_lines 1 (raw_lines data) = Ok es ->
  good_line l -> line_entry l = [e] -> Split l NL = [l] ->
  load_lines 1 (raw_lines (data ++ l ++ newline)) = Ok (es ++ [e])%list.
Proof.
  intros Ht Hes Hg He Hl. rewrite load_text_Ok in Hes. destruct Hes as [HF ->]. rewrite load_text_Ok.
  assert (entries (Split (data ++ l ++ newline) NL) = (entries (Split data NL) ++ [e])%list /\
          Forall good_line (Split (data ++ l ++ newline) NL)) as [-> HG]; [|done].
  change (l ++ newline)%string with (l ++ String NL "")%string.
  destruct Ht as [->|[d ->]].
  - cbn [String.append]. rewrite Split_app, Hl. cbn. rewrite He. split; [done|].
    by repeat (apply Forall_cons; split); [|apply good_empty|].
  - change (d ++ newline)%string with (d ++ String NL "")%string in *. rewrite Split_app in *.
    rewrite append_assoc. cbn [String.append]. rewrite !Split_app, Hl, !flat_map_app.
    cbn [Split flat_map]. rewrite He. change (line_entry "") with (@nil TokenEntry). rewrite !app_nil_r.
    split; [done|]. apply Forall_app in HF as [HF _]. rewrite !Forall_app, !Forall_singleton.
    split_and!; [done|done|apply good_empty].
Qed.

Section Adding.
Context (sha256 : string -> string).
Hypothesis sha256_length : forall s, String.length (sha256 s) = sha256_Size.

Lemma NewToken_Ok name now buf token line :
  NewToken sha256 name now buf = Ok (token, line) ->
  tokenNameRe name = true /\ token = (TokenPrefix ++ base64url buf)%string /\
  line = token_line (sha256 token) name (format_date now).
Proof using. unfold NewToken. case_match; [done|]. intros [= <- <-]. split; [by destruct (tokenNameRe name)|done]. Qed.

(** The token in the header, trimmed, is the token. *)
Lemma token_trim buf : TrimSpace (TokenPrefix ++ base64url buf) = (TokenPrefix ++ base64url buf)%string.
Proof using.
  destruct (string_last is_graph (TokenPrefix ++ base64url buf)) as (t & c & He & Hc); [done| |].
  { rewrite all_bytes_app. by rewrite base64url_graphic. }
  rewrite He. destruct t as [|d t]; [by destruct buf as [|? [|? [|? ?]]]|].
  cbn [String.append]. apply (TrimSpace_graph d _ c (String d t)); [|done|done].
  change (TokenPrefix ++ base64url buf)%string with (String "n" ("cli_mt_" ++ base64url buf)%string) in He.
  by injection He as <- _.
Qed.

Definition file_entries (f : option file) : result TokenError (list TokenEntry) :=
  match f with None => Ok [] | Some _ => LoadTokens f end.

Definition file_terminated (f : option file) : Prop :=
  match f with None => True | Some f => terminated (f_data f) end.

Lemma AddToken_loads name now buf io f token f' :
  file_terminated f -> AddToken sha256 name now buf io f = (Ok token, f') ->
  token = (TokenPrefix ++ base64url buf)%string /\
  exists es, file_entries f = Ok es /\ (name ∉ te_Name <$> es) /\ file_terminated f' /\
    LoadTokens f' = Ok (es ++ [mkEntry (sha256 token) name (format_date now)])%list.
Proof using sha256_length.
  intros Ht. unfold AddToken. set (taken := match f with None => Ok () | Some _ => _ end).
  destruct (taken ≫= _) as [[tok line]|e] eqn:E; [|done].
  apply bind_Ok in E as ([] & Htaken & (Hname & Htok & ->)%NewToken_Ok).
  destruct (new_line (sha256 tok) name now (sha256_length _) Hname) as (Hg & He & Hs).
  set (l := token_line _ name _) in *. clearbody l.
  destruct (negb (ai_mkdir io) || _); [done|]. destruct (ai_write io); [done|]. destruct (ai_close io); [|done].
  intros [= <- <-]. split; [done|]. set (e := mkEntry _ name _) in *. clearbody e. clear Htok.
  assert (exists es, file_entries f = Ok es /\ name ∉ (te_Name <$> es)) as (es & Hes & Hnew).
  { subst taken. destruct f as [f|]; [|exists []; split; [done|by intros ?%not_elem_of_nil]].
    cbn [file_entries]. apply bind_Ok in Htaken as (es & -> & Hno%refuse_if_Ok). exists es. split; [done|].
    intros (e' & -> & He')%list_elem_of_fmap. apply not_true_iff_false in Hno. apply Hno, existsb_exists.
    exists e'. rewrite String.eqb_refl. split; [by apply list_elem_of_In|done]. }
  exists es. split; [done|]. split; [done|]. clear Htaken taken.
  unfold append_file. destruct f as [f|]; cbn [file_entries file_terminated LoadTokens f_data f_mode open_to_others] in *.
  - split; [right; eexists; symmetry; apply append_assoc|].
    change (open_to_others (mkFile (f_mode f) ?m ?d)) with (open_to_others f).
    destruct (open_to_others f); [done|]. by apply append_good.
  - split; [right; by eexists|]. injection Hes as <-.
    change (load_lines 1 (raw_lines ("" ++ l ++ newline)) = Ok ([] ++ [e])%list).
    by apply append_good; [left|..].
Qed.

End Adding.

(** ** Removing *)

Lemma Split_cons c s :
  Split (String c s) NL
  = if Ascii.eqb c NL then ""%string :: Split s NL
    else match Split s NL with w :: ws => String c w :: ws | [] => [String c ""] end.
Proof. done. Qed.

Lemma TrimRightNL_spec s : exists k, Split s NL = (Split (TrimRightNL s) NL ++ replicate k ""%string)%list.
Proof.
  induction s as [|c s [k IH]]; [by exists 0%nat|]. rewrite Split_cons, IH. cbn [TrimRightNL].
  change "010"%char with NL.
  destruct (TrimRightNL s) as [|d t].
  - destruct (Ascii.eqb c NL) eqn:Ec; [by exists (S k)|]. exists k. rewrite Split_cons, Ec. done.
  - exists k. rewrite (Split_cons c). pose proof (Split_nonempty (String d t)).
    destruct (Ascii.eqb c NL); [done|]. by destruct (Split (String d t) NL).
Qed.

Lemma entries_blank k : entries (replicate k ""%string) = [] /\ Forall good_line (replicate k ""%string).
Proof. split; [by induction k|]. apply Forall_replicate, good_empty. Qed.

Lemma Split_Join ls : ls <> [] -> Forall no_NL ls -> Split (Join ls newline) NL = ls.
Proof.
  intros Hne HF. induction HF as [|l ls Hl HF IH]; [done|]. destruct ls as [|l' ls]; [by apply Split_no_NL|].
  change (Join (l :: l' :: ls) newline) with (l ++ String NL (Join (l' :: ls) newline))%string.
  rewrite Split_app, IH by done. by rewrite Split_no_NL.
Qed.

Lemma named_entry name l : good_line l ->
  named name l = true <-> exists e, line_entry l = [e] /\ te_Name e = name.
Proof.
  intros [_ H]. unfold named, line_entry. destruct (ignored (TrimSpace l)); [naive_solver|].
  destruct H as [?|H]; [done|]. destruct (parseTokenLine (TrimSpace l)); [|done].
  rewrite String.eqb_eq. naive_solver.
Qed.

Lemma kept_entries name ls :
  Forall good_line ls ->
  entries (List.filter (fun l => negb (named name l)) ls)
  = List.filter (fun e => negb (String.eqb (te_Name e) name)) (entries ls).
Proof.
  induction 1 as [|l ls Hl HF IH]; [done|]. cbn [List.filter flat_map]. rewrite List.filter_app, <- IH.
  unfold named, line_entry at 2. destruct Hl as [_ Hl].
  destruct (ignored (TrimSpace l)) eqn:Ei; cbn [negb].
  { cbn [flat_map]. unfold line_entry at 1. by rewrite Ei. }
  destruct (parseTokenLine (TrimSpace l)) as [e|] eqn:Ep; [|by destruct Hl]. cbn [List.filter].
  destruct (String.eqb (te_Name e) name); cbn [negb flat_map]; [done|].
  unfold line_entry at 1. by rewrite Ei, Ep.
Qed.

(** Removing by name: exactly the entries of that name go, the rest stays in
    order, and it fails exactly when there is none. *)
Lemma removed_text_spec name data es :
  load_lines 1 (raw_lines data) = Ok es ->
  match removed_text name data with
  | Some out => name ∈ (te_Name <$> es) /\
      load_lines 1 (raw_lines out) = Ok (List.filter (fun e => negb (String.eqb (te_Name e) name)) es)
  | None => name ∉ (te_Name <$> es)
  end.
Proof.
  rewrite load_text_Ok. intros [HF ->]. destruct (TrimRightNL_spec data) as [k Hk].
  destruct (entries_blank k) as [Hb _]. rewrite Hk in HF |- *. apply Forall_app in HF as [HF _].
  rewrite flat_map_app, Hb, app_nil_r. clear Hk Hb. unfold removed_text. fold NL.
  pose proof (Split_lines_no_NL (TrimRightNL data)) as HN.
  set (ls := Split (TrimRightNL data) NL) in *. clearbody ls.
  destruct (existsb (named name) ls) eqn:Ex.
  - apply existsb_exists in Ex as (l & Hl & Hn). split.
    { apply list_elem_of_In in Hl. apply named_entry in Hn as (e & He & <-); [|by eapply Forall_forall in HF].
      apply list_elem_of_fmap. exists e. split; [done|]. apply list_elem_of_In, in_flat_map.
      exists l. split; [by apply list_elem_of_In|]. rewrite He. by left. }
    rewrite <- kept_entries by done. set (kept := List.filter _ ls).
    assert (Forall good_line kept) as HG by by eapply List.incl_Forall; [apply List.incl_filter|].
    assert (Forall no_NL kept) as HK by by eapply List.incl_Forall; [apply List.incl_filter|].
    rewrite load_text_Ok. clearbody kept. destruct kept as [|k1 ks].
    { cbn. split; [|done]. constructor; [apply good_empty|constructor]. }
    destruct (Join (k1 :: ks) newline) as [|c t] eqn:EJ; cbn [is_empty].
    + pose proof (Split_Join (k1 :: ks) ltac:(done) HK) as HS. rewrite EJ in HS. by rewrite HS.
    + rewrite <- EJ. change (?j ++ newline)%string with (j ++ String NL "")%string.
      rewrite Split_app, Split_Join by done. rewrite Forall_app, flat_map_app. change (entries (Split "" NL)) with (@nil TokenEntry). rewrite app_nil_r.
      split; [|done]. split; [done|]. constructor; [apply good_empty|constructor].
  - intros (e & -> & He)%list_elem_of_fmap. apply list_elem_of_In, in_flat_map in He as (l & Hl & He).
    apply not_true_iff_false in Ex. apply Ex, existsb_exists. exists l. split; [done|].
    apply list_elem_of_In in Hl. apply named_entry; [by eapply Forall_forall in HF|].
    exists e. split; [|done]. unfold line_entry in *. repeat case_match; cbn in He; naive_solver.
Qed.

Lemma RemoveToken_spec name mtime f es :
  LoadTokens f = Ok es ->
  let '(r, (g, _)) := RemoveToken name (mkRmIO None true mtime) f (f, None) in
  (r = Ok tt <-> name ∈ (te_Name <$> es)) /\
  (r = Ok tt -> LoadTokens g = Ok (List.filter (fun e => negb (String.eqb (te_Name e) name)) es)) /\
  (r <> Ok tt -> r = Err ENotFound /\ g = f).
Proof.
  intros H. unfold RemoveToken. rewrite H. destruct f as [f|]; [|done]. cbn [LoadTokens] in H.
  destruct (open_to_others f); [done|]. apply (removed_text_spec name) in H.
  destruct (removed_text name (f_data f)); [|naive_solver]. destruct H as [Hin Hl].
  cbn [ri_write ri_rename LoadTokens f_data]. change (open_to_others (mkFile 384 _ _)) with false. naive_solver.
Qed.

Lemma filter_new name es e :
  (name ∉ te_Name <$> es) -> te_Name e = name ->
  List.filter (fun e => negb (String.eqb (te_Name e) name)) (es ++ [e])%list = es.
Proof.
  intros Hn <-. rewrite List.filter_app. cbn. rewrite String.eqb_refl, app_nil_r. cbn.
  apply List.forallb_filter_id, forallb_forall. intros d Hd%list_elem_of_In.
  destruct (String.eqb_spec (te_Name d) (te_Name e)) as [Heq|]; [|done].
  destruct Hn. apply list_elem_of_fmap. by exists d.
Qed.

(** C15: a token that [AddToken] returns is in the file it leaves: the file
    loads to the entries it had and one more with the token's hash, its name
    and its date, the name being new, and the token survives the trimming of
    the header that presents it.  From such a file [RemoveToken] takes exactly
    the entries of the name it is given and changes nothing when there is none;
    so removing the new name gives the old entries back.  The file has to end
    with a newline, as [AddToken] and [RemoveToken] leave it. *)
Theorem tokens_roundtrip sha256 name now buf io f token f' :
  (forall s, String.length (sha256 s) = sha256_Size) -> file_terminated f ->
  AddToken sha256 name now buf io f = (Ok token, f') ->
  exists es, file_entries f = Ok es /\ (name ∉ te_Name <$> es) /\ file_terminated f' /\
    TrimSpace token = token /\ HasPrefix token TokenPrefix = true /\
    let es' := (es ++ [mkEntry (sha256 token) name (format_date now)])%list in
    LoadTokens f' = Ok es' /\
    (forall name' mtime,
       let '(r, (g, _)) := RemoveToken name' (mkRmIO None true mtime) f' (f', None) in
       (r = Ok tt <-> name' ∈ (te_Name <$> es')) /\
       (r = Ok tt -> LoadTokens g = Ok (List.filter (fun e => negb (String.eqb (te_Name e) name')) es')) /\
       (r <> Ok tt -> r = Err ENotFound /\ g = f')) /\
    List.filter (fun e => negb (String.eqb (te_Name e) name)) es' = es.
Proof.
  intros Hlen Ht HA. destruct (AddToken_loads _ Hlen _ _ _ _ _ _ _ Ht HA) as (-> & es & Hes & Hn & Ht' & Hl).
  exists es. split_and!;
    [done|done|done|apply token_trim|apply HasPrefix_spec; by eexists|].
  cbn zeta. split_and!; [done| |by apply filter_new].
  intros name' mtime. by apply RemoveToken_spec.
Qed.

(** A hash for the examples: the first 32 bytes. *)
Definition first_bytes (s : string) : string := take_string sha256_Size (s ++ zeros sha256_Size).

Lemma take_string_length n s : (n <= String.length s)%nat -> String.length (take_string n s) = n.
Proof. revert s. induction n as [|n IH]; intros [|c s]; cbn; intros H; try lia. by rewrite IH by lia. Qed.

Lemma first_bytes_length s : String.length (first_bytes s) = sha256_Size.
Proof. apply take_string_length. rewrite length_append, zeros_length. lia. Qed.

Definition example_io : add_io := mkAddIO true true None true 5.

Lemma tokens_roundtrip_witness :
  exists token f', AddToken first_bytes "prom" 0 "random" example_io None = (Ok token, f') /\
  exists es, LoadTokens f' = Ok es /\ length es = 1%nat /\ te_Name <$> es = ["prom"%string].
Proof.
  destruct (AddToken first_bytes "prom" 0 "random" example_io None) as [r f'] eqn:E. vm_compute in E.
  destruct r as [token|e]; [|done]. exists token, f'.
  destruct (tokens_roundtrip first_bytes "prom" 0 "random" example_io None token f' first_bytes_length I)
    as (es & He & _ & _ & _ & _ & Hl & _ & _).
  { rewrite <- E. vm_compute. reflexivity. }
  split; [by rewrite <- E|]. injection He as <-. eexists. split; [exact Hl|]. done.
Defined.

(** A file without a newline at its end: the new line continues the last one,
    so the entry there keeps its hash but is renamed, and the token that was
    returned is not in the file. *)
Lemma AddToken_unterminated :
  let f := mkFile 384 0 (token_line (first_bytes "old") "a" "2024-01-01") in
  let '(r, f') := AddToken first_bytes "b" 0 "random" example_io (Some f) in
  r = Ok "ncli_mt_cmFuZG9t"%string /\
  LoadTokens (Some f) = Ok [mkEntry (first_bytes "old") "a" "2024-01-01"] /\
  LoadTokens f' = Ok [mkEntry (first_bytes "old") "b" "0001-01-01"].
Proof. vm_compute. done. Qed.

(** ** Checking *)

Section Checking.
Context (sha256 : string -> string).

(** A request's token, the time, and the file while it is handled. *)
Record call := mkCall { c_token : string; c_now : Z; c_file : option file }.

Fixpoint valid_run (t : tokenSet) (cs : list call) : list bool :=
  match cs with
  | [] => []
  | c :: cs =>
      let '(b, t) := valid sha256 (c_token c) (c_now c) (c_file c) (c_file c) (c_file c) t in
      b :: valid_run t cs
  end.

Definition hashes_of (f : option file) : list string :=
  match LoadTokens f with Ok es => te_Hash <$> es | Err _ => [] end.

(** The reference: the whole file is read whenever it is due for a check, and
    [g] is the file as last read. *)
Fixpoint reading_run (checked : Z) (g : option file) (cs : list call) : list bool :=
  match cs with
  | [] => []
  | c :: cs =>
      if negb (HasPrefix (c_token c) TokenPrefix) then false :: reading_run checked g cs else
      let '(checked, g) :=
        if recheckEvery <=? Time_Sub (c_now c) checked then (c_now c, c_file c) else (checked, g) in
      existsb (String.eqb (sha256 (c_token c))) (hashes_of g) :: reading_run checked g cs
  end.

Definition same_stamp (f g : file) : Prop := f_mtime f = f_mtime g /\ f_size f = f_size g.

(** A modification time, with a size, stands for one content and does not come
    back once the file has changed; and it is not the zero time. *)
Definition stamped (fs : list (option file)) : Prop :=
  (forall i f, fs !! i = Some (Some f) -> f_mtime f <> 0) /\
  (forall i k j f h g, (i <= k <= j)%nat -> fs !! i = Some (Some f) -> fs !! k = Some (Some h) ->
     fs !! j = Some (Some g) -> same_stamp f g -> f_data h = f_data f /\ f_mtime h = f_mtime f).

(** [t] after the files [past], the last one checked being [g]. *)
Record in_step (past : list (option file)) (checked : Z) (g : option file) (t : tokenSet) : Prop := {
  is_checked : ts_checked t = checked;
  is_hashes : ts_hashes t = hashes_of g;
  is_stamp : ts_mtime t = 0 \/
    exists r q f h, (r <= q)%nat /\ past !! r = Some (Some f) /\ past !! q = Some (Some h) /\
      g = Some h /\ open_to_others h = false /\ f_mtime f = ts_mtime t /\ f_size f = ts_size t;
}.

Lemma in_step_past past checked g t x : in_step past checked g t -> in_step (past ++ [x])%list checked g t.
Proof using.
  intros [H1 H2 H3]. split; [done..|]. destruct H3 as [?|(r & q & f & h & ? & Hr & Hq & ?)]; [by left|right].
  exists r, q, f, h. split; [done|]. split_and!; try tauto; by apply lookup_app_l_Some.
Qed.

Lemma recheck_in_step past checked g t now x :
  stamped (past ++ [x])%list -> in_step past checked g t ->
  in_step (past ++ [x])%list now x (recheck now x x x t).
Proof using.
  intros [Hnz Hst] [H1 H2 H3]. unfold recheck.
  assert ((past ++ [x])%list !! length past = Some x) as Hx by by apply list_lookup_middle.
  destruct x as [f|]; [|split; [done|done|by left]].
  destruct (open_to_others f) eqn:Ho; [split; cbn [ts_checked ts_hashes ts_mtime]; [done|by unfold hashes_of; cbn [LoadTokens]; rewrite Ho|by left]|].
  cbn [ts_mtime ts_size ts_hashes].
  destruct (negb _ || negb _) eqn:E.
  - unfold reload. destruct (LoadTokens (Some f)) as [es|e] eqn:El; cbn [ts_checked].
    + split; cbn [ts_checked ts_hashes ts_mtime ts_size]; [done|by unfold hashes_of; rewrite El|right].
      exists (length past), (length past), f, f. naive_solver lia.
    + split; cbn [ts_checked ts_hashes ts_mtime ts_size]; [done|by unfold hashes_of; rewrite El|].
      destruct H3 as [?|(r & q & h & h' & Hrq & Hr & Hq & ? & ? & ? & ?)]; [by left|right].
      exists r, (length past), h, f. apply lookup_lt_Some in Hr as Hlt.
      split_and!; try done; [lia|by apply lookup_app_l_Some].
  - apply orb_false_iff in E as [Em%negb_false_iff%Z.eqb_eq Es%negb_false_iff%Z.eqb_eq].
    destruct H3 as [H0|(r & q & h & h' & Hrq & Hr & Hq & -> & Ho' & Hm & Hs)].
    { by destruct (Hnz (length past) f Hx); rewrite Em. }
    apply lookup_lt_Some in Hr as Hlt. apply lookup_lt_Some in Hq as Hlt'.
    pose proof (lookup_app_l_Some past [Some f] _ _ Hr) as Hr'. pose proof (lookup_app_l_Some past [Some f] _ _ Hq) as Hq'.
    assert (same_stamp h f) as Hss by (split; congruence).
    destruct (Hst r q (length past) h h' f ltac:(lia) Hr' Hq' Hx Hss) as [Hd _].
    destruct (Hst r (length past) (length past) h f f ltac:(lia) Hr' Hx Hx Hss) as [Hd' _].
    split; cbn [ts_checked ts_hashes ts_mtime ts_size]; [done| |right].
    + rewrite H2. unfold hashes_of. cbn [LoadTokens]. by rewrite Ho, Ho', Hd, Hd'.
    + exists r, (length past), h, f. naive_solver lia.
Qed.

Lemma valid_run_exact past checked g t cs :
  stamped (past ++ (c_file <$> cs))%list -> in_step past checked g t ->
  valid_run t cs = reading_run checked g cs.
Proof using.
  revert past checked g t. induction cs as [|c cs IH]; intros past checked g t Hst Hin; [done|].
  cbn [valid_run reading_run]. unfold valid.
  rewrite fmap_cons in Hst. change (past ++ ?a :: ?b)%list with (past ++ [a] ++ b)%list in Hst.
  rewrite (assoc_L (++)%list) in Hst.
  destruct (negb _); [f_equal; eapply IH; [done|by apply in_step_past]|].
  assert (stamped (past ++ [c_file c])%list) as Hst'.
  { destruct Hst as [Ha Hb]. split.
    - intros i f Hi. eapply Ha, lookup_app_l_Some, Hi.
    - intros i k j f h g' Hle Hi Hk Hj. eapply Hb; [exact Hle|by apply lookup_app_l_Some..]. }
  rewrite (is_checked _ _ _ _ Hin). destruct (recheckEvery <=? _).
  - pose proof (recheck_in_step _ _ _ _ (c_now c) _ Hst' Hin) as Hin'.
    rewrite (is_hashes _ _ _ _ Hin'). f_equal. by eapply IH.
  - rewrite (is_hashes _ _ _ _ Hin). f_equal. eapply IH; [done|by apply in_step_past].
Qed.

(** Checking a bearer token against the cached hashes, which are reloaded
    only when the file's modification time or size changed, gives the same
    answers as reading the whole file at every check, in any sequence of
    requests and edits of the file: a token is accepted exactly when its hash
    is in the file as it was at the last check, at most a second before, and
    that file was readable by its owner alone and valid in every line.  A
    modification time must not come back after the file changed. *)
Theorem valid_exact f t cs :
  newTokenSet f f = Some t -> stamped (f :: (c_file <$> cs)) ->
  valid_run t cs = reading_run 0 f cs.
Proof using.
  intros Hnew Hst. apply (valid_run_exact [f]); [done|]. unfold newTokenSet, reload in Hnew.
  destruct f as [f|]; [|done]. destruct (LoadTokens (Some f)) as [es|] eqn:El; [|done].
  injection Hnew as <-. split; cbn [ts_checked ts_hashes ts_mtime ts_size]; [done|by unfold hashes_of; rewrite El|right].
  exists 0%nat, 0%nat, f, f. cbn [LoadTokens] in El. destruct (open_to_others f) eqn:Ho; [done|]. done.
Qed.

End Checking.

(** A witness: a token added while the relay runs is accepted at the next
    check, and refused once the file is open to others. *)
Definition example_file (mode mtime : Z) (names : list string) : option file :=
  Some (mkFile mode mtime
    (Join ((fun n => token_line (first_bytes (TokenPrefix ++ n)) n "2024-01-01") <$> names) newline ++ newline)).

Definition example_calls : list call :=
  let tok (n : string) := (TokenPrefix ++ n)%string in
  [mkCall (tok "a") (2 * Second) (example_file 384 5 ["a"%string]);
   mkCall (tok "b") (2 * Second + 1) (example_file 384 6 ["a"; "b"]%string);
   mkCall (tok "b") (3 * Second) (example_file 384 6 ["a"; "b"]%string);
   mkCall (tok "b") (4 * Second) (example_file 420 6 ["a"; "b"]%string)].

(** [stamped], decided. *)
Definition stampedb (fs : list (option file)) : bool :=
  let ix := seq 0 (length fs) in
  forallb (fun x => match x with Some f => negb (f_mtime f =? 0) | None => true end) fs &&
  forallb (fun i => forallb (fun k => forallb (fun j =>
    match fs !! i, fs !! k, fs !! j with
    | Some (Some f), Some (Some h), Some (Some g) =>
        negb ((i <=? k)%nat && (k <=? j)%nat && (f_mtime f =? f_mtime g) && (f_size f =? f_size g))
        || (String.eqb (f_data h) (f_data f) && (f_mtime h =? f_mtime f))
    | _, _, _ => true
    end) ix) ix) ix.

Lemma stampedb_true fs : stampedb fs = true -> stamped fs.
Proof.
  unfold stampedb. rewrite andb_true_iff. intros [H1 H2]. split.
  - intros i f Hi. rewrite forallb_elem in H1. specialize (H1 _ (list_elem_of_lookup_2 _ _ _ Hi)). cbn in H1. lia.
  - intros i k j f h g Hle Hi Hk Hj [Hm Hs].
    assert (forall n x, fs !! n = Some x -> n ∈ seq 0 (length fs)) as Hin.
    { intros n x Hn%lookup_lt_Some. apply elem_of_seq. lia. }
    rewrite forallb_elem in H2. specialize (H2 i (Hin _ _ Hi)). cbn beta in H2.
    rewrite forallb_elem in H2. specialize (H2 k (Hin _ _ Hk)). cbn beta in H2.
    rewrite forallb_elem in H2. specialize (H2 j (Hin _ _ Hj)). cbn beta in H2.
    rewrite Hi, Hk, Hj, Hm, Hs, !Z.eqb_refl in H2.
    rewrite (proj2 (Nat.leb_le i k)), (proj2 (Nat.leb_le k j)) in H2 by lia. cbn in H2.
    apply andb_true_iff in H2 as [?%String.eqb_eq ?%Z.eqb_eq]. split; congruence.
Qed.

Lemma valid_exact_witness :
  exists t, newTokenSet (example_file 384 5 ["a"%string]) (example_file 384 5 ["a"%string]) = Some t /\
    valid_run first_bytes t example_calls = [true; false; true; false].
Proof.
  destruct (newTokenSet (example_file 384 5 ["a"%string]) (example_file 384 5 ["a"%string])) as [t|] eqn:E;
    [|vm_compute in E; done].
  exists t. split; [done|].
  rewrite (valid_exact first_bytes _ t example_calls E); [vm_compute; reflexivity|].
  apply stampedb_true. vm_compute. reflexivity.
Defined.

(** Without that condition a repaired file can stay refused: a valid file is
    replaced by an invalid one and then restored with the modification time it
    had. *)
Lemma valid_restored_refused :
  let good := example_file 384 5 ["a"%string] in
  let bad := Some (mkFile 384 6 "ncli_mt_a"%string) in
  let call t f := mkCall (TokenPrefix ++ "a") t f in
  exists t, newTokenSet good good = Some t /\
    valid_run first_bytes t [call (2 * Second) good; call (4 * Second) bad; call (6 * Second) good; call (8 * Second) good]
    = [true; false; false; false] /\
    reading_run first_bytes 0 good [call (2 * Second) good; call (4 * Second) bad; call (6 * Second) good; call (8 * Second) good]
    = [true; false; true; true].
Proof. eexists. split; [vm_compute; reflexivity|]. split; vm_compute; reflexivity. Qed.
