(* ===== verification/AdminConfig.v ===== *)
(** * The admin listener's configuration

    Models [src/cli/relay/adminplane/config.go]: [Resolve] turns the relay
    config's [admin:] block into validated settings.  The files it looks at
    and the npub decoder of the nmilat library are parameters.  Host names are
    ASCII: net/http refuses a [Host] header that is not. *)
From S2P Require Import Prelude GoTime GoStrings GoDuration GoNet AdminTokens.
From S2P Require Import GoEncoding.
From stdpp Require Import options.
From Stdlib Require Import Ascii.

Local Open Scope Z_scope.

Record TLSConfig := mkTLS { tls_Cert : string; tls_Key : string; tls_ClientCA : string }.
Record DashboardConfig := mkDashboard { dc_Enabled : bool; dc_SessionTTL : string }.
Record MetricsConfig := mkMetrics { mc_Enabled : bool; mc_TokensFile : string; mc_ScrapeCacheTTL : string }.

Record Config := mkConfig {
  cf_Listen : string;
  cf_TLS : option TLSConfig;
  cf_AllowCIDRs : list string;
  cf_Hosts : list string;
  cf_Pubkeys : list string;
  cf_Dashboard : option DashboardConfig;
  cf_Metrics : option MetricsConfig;
}.

(** [map[string]bool] with only [true] in it is a set. *)
Record Settings := mkSettings {
  se_Addr : string;
  se_Defaulted : bool;
  se_Loopback : bool;
  se_TLS : option TLSConfig;
  se_AllowCIDRs : list Prefix;
  se_Hosts : gset string;
  se_Pubkeys : list string;
  se_Dashboard : bool;
  se_SessionTTL : Z;
  se_Metrics : bool;
  se_TokensFile : string;
  se_ScrapeTTL : Z;
}.

Definition defaultSessionTTL : Z := 15 * Minute.
Definition maxSessionTTL : Z := 24 * Hour.
Definition defaultScrapeTTL : Z := 5 * Second.

(** One constructor per message of [usageErr] and [invalidErr]. *)
Inductive ConfigError :=
| EOffButEnabled | ERelayPort | ETLSIncomplete | ENotLoopback | EWildcardHosts | ENoAdmin | ENoTokensFile
| EListen (e : AddrError) | EPort (p : string) | EHost (h : string) | ETLSFile (f : string)
| ECIDR (raw : string) | EPubkey (raw : string) | ESessionTTL (s : string) | EScrapeTTL (s : string)
| ETokens (e : TokenError).

(** The field [Usage] of the source's [ConfigError]. *)
Definition Usage (e : ConfigError) : bool :=
  match e with
  | EOffButEnabled | ERelayPort | ETLSIncomplete | ENotLoopback | EWildcardHosts | ENoAdmin | ENoTokensFile => true
  | _ => false
  end.

Definition isLoopback (host : string) : bool :=
  String.eqb host "localhost" ||
  match ParseAddr host with Some a => IsLoopback a | None => false end.

Section Resolve.
(** [nip19.DecodePublicKey], [os.Stat] succeeding, and the tokens files. *)
Variable DecodePublicKey : string -> option string.
Variable exists_file : string -> bool.
Variable tokens_file : string -> option file.

Definition parsePubkey (raw : string) : option string :=
  let s := TrimSpace raw in
  if HasPrefix s "npub1" then DecodePublicKey s
  else if Nat.eqb (String.length s) 64 && all_bytes is_hex_byte s then Some (ToLower s)
  else None.

Definition is_wildcard (host : string) : bool :=
  is_empty host || String.eqb host "0.0.0.0" || String.eqb host "::".

(** The listener's own names. *)
Definition own_hosts (host portStr : string) (loopback : bool) : gset string :=
  (if is_wildcard host then ∅ else {[ToLower (JoinHostPort host portStr)]}) ∪
  (if loopback || is_wildcard host
   then list_to_set ((fun h => JoinHostPort h portStr) <$> ["127.0.0.1"; "localhost"; "::1"]%string) else ∅).

Definition config_host (h : string) : result ConfigError string :=
  let h := ToLower (TrimSpace h) in
  if is_empty h || has_byte h "/" || has_byte h " " then Err (EHost h) else Ok h.

Definition check_tls (c : Config) : result ConfigError unit :=
  match cf_TLS c with
  | None => Ok tt
  | Some t =>
      refuse_if (is_empty (tls_Cert t) || is_empty (tls_Key t)) ETLSIncomplete ;;
      mapM_res (fun f => refuse_if (negb (is_empty f) && negb (exists_file f)) (ETLSFile f))
        [tls_Cert t; tls_Key t; tls_ClientCA t] ;;
      Ok tt
  end.

Definition config_prefix (raw : string) : result ConfigError Prefix :=
  match ParsePrefix raw with
  | Some p => Ok (Masked p)
  | None => match ParseAddr raw with
            | None => Err (ECIDR raw)
            | Some a => Ok (Masked (PrefixFrom a (BitLen a)))
            end
  end.

Definition config_pubkey (raw : string) : result ConfigError string :=
  match parsePubkey raw with Some pk => Ok pk | None => Err (EPubkey raw) end.

(** The dashboard's session time: [None] when it is not enabled. *)
Definition resolve_dashboard (c : Config) (admins pubkeys : list string) : result ConfigError (option Z) :=
  match cf_Dashboard c with
  | Some d =>
      if negb (dc_Enabled d) then Ok None else
      refuse_if (bool_decide (admins = []) && bool_decide (pubkeys = [])) ENoAdmin ;;
      if is_empty (dc_SessionTTL d) then Ok (Some defaultSessionTTL) else
      match ParseDuration (dc_SessionTTL d) with
      | Some ttl => if (ttl <? Minute) || (maxSessionTTL <? ttl) then Err (ESessionTTL (dc_SessionTTL d)) else Ok (Some ttl)
      | None => Err (ESessionTTL (dc_SessionTTL d))
      end
  | None => Ok None
  end.

Definition resolve_metrics (c : Config) : result ConfigError (option (string * Z)) :=
  match cf_Metrics c with
  | Some m =>
      if negb (mc_Enabled m) then Ok None else
      refuse_if (is_empty (mc_TokensFile m)) ENoTokensFile ;;
      wrap_err ETokens (LoadTokens (tokens_file (mc_TokensFile m))) ;;
      if is_empty (mc_ScrapeCacheTTL m) then Ok (Some (mc_TokensFile m, defaultScrapeTTL)) else
      match ParseDuration (mc_ScrapeCacheTTL m) with
      | Some ttl => if (ttl <? 0) || (Minute <? ttl) then Err (EScrapeTTL (mc_ScrapeCacheTTL m))
                    else Ok (Some (mc_TokensFile m, ttl))
      | None => Err (EScrapeTTL (mc_ScrapeCacheTTL m))
      end
  | None => Ok None
  end.

Definition emptyConfig : Config := mkConfig "" None [] [] [] None None.

Definition dashboard_enabled (c : Config) : bool :=
  match cf_Dashboard c with Some d => dc_Enabled d | None => false end.
Definition metrics_enabled (c : Config) : bool :=
  match cf_Metrics c with Some m => mc_Enabled m | None => false end.

(** The listener's address, its host and its port. *)
Definition resolve_listen (c : Config) (relayPort : Z) : result ConfigError (string * string * string) :=
  let addr := if is_empty (cf_Listen c) then JoinHostPort "127.0.0.1" (Itoa (wrap64 (relayPort + 1))) else cf_Listen c in
  '(host, portStr) ← wrap_err EListen (SplitHostPort addr);
  match Atoi portStr with
  | Some port =>
      if (port <=? 0) || (65535 <? port) then Err (EPort portStr)
      else if port =? relayPort then Err ERelayPort
      else Ok (addr, host, portStr)
  | None => Err (EPort portStr)
  end.

(** [None]: the listener is off. *)
Definition Resolve (c : option Config) (relayPort : Z) (admins : list string) : result ConfigError (option Settings) :=
  let c := default emptyConfig c in
  if String.eqb (cf_Listen c) "off" then
    if dashboard_enabled c || metrics_enabled c then Err EOffButEnabled else Ok None
  else
    '(addr, host, portStr) ← resolve_listen c relayPort;
    let loopback := isLoopback host in
    extra ← mapM_res config_host (cf_Hosts c);
    check_tls c ;;
    refuse_if (negb loopback && match cf_TLS c with None => true | Some _ => false end) ENotLoopback ;;
    refuse_if (is_wildcard host && negb loopback && bool_decide (cf_Hosts c = [])) EWildcardHosts ;;
    prefixes ← mapM_res config_prefix (cf_AllowCIDRs c);
    pubkeys ← mapM_res config_pubkey (cf_Pubkeys c);
    session ← resolve_dashboard c admins pubkeys;
    scrape ← resolve_metrics c;
    Ok (Some (mkSettings addr (is_empty (cf_Listen c)) loopback (cf_TLS c) prefixes
      (own_hosts host portStr loopback ∪ list_to_set extra) pubkeys
      (match session with Some _ => true | None => false end) (default defaultSessionTTL session)
      (match scrape with Some _ => true | None => false end)
      (match scrape with Some (f, _) => f | None => "" end)
      (match scrape with Some (_, ttl) => ttl | None => defaultScrapeTTL end))).

End Resolve.

(** * The admin listener's configuration: what validation guarantees

    [valid_settings] is the type of a validated configuration: what the server
    relies on when it is started with one. *)

#[local] Arguments String.append : simpl nomatch.

(** ** Names *)

Definition is_lower_hex (c : ascii) : bool :=
  let n := nat_of_ascii c in ((48 <=? n) && (n <=? 57) || (97 <=? n) && (n <=? 102))%nat.

Definition hex_key (k : string) : Prop := String.length k = 64%nat /\ all_bytes is_lower_hex k = true.

Lemma ToLower_app s t : ToLower (s ++ t) = (ToLower s ++ ToLower t)%string.
Proof. induction s as [|c s IH]; cbn; [done|]. by rewrite IH. Qed.

Lemma ToLower_length s : String.length (ToLower s) = String.length s.
Proof. induction s as [|c s IH]; cbn [ToLower String.length]; [done|]. by rewrite IH. Qed.

Lemma ToLower_hex s : all_bytes is_hex_byte s = true -> all_bytes is_lower_hex (ToLower s) = true.
Proof.
  induction s as [|c s IH]; cbn [all_bytes ToLower]; [done|]. rewrite !andb_true_iff. intros [Hc Hs].
  split; [|by apply IH]. revert Hc. by destruct c as [[] [] [] [] [] [] [] []].
Qed.

Lemma JoinHostPort_nonempty h p : JoinHostPort h p <> ""%string.
Proof.
  unfold JoinHostPort. intros H%(f_equal String.length). repeat case_match; rewrite ?length_append in H; cbn in H;
    rewrite ?length_append in H; cbn in H; lia.
Qed.

Lemma JoinHostPort_lower h p : ToLower h = h -> ToLower p = p -> ToLower (JoinHostPort h p) = JoinHostPort h p.
Proof. intros Hh Hp. unfold JoinHostPort. case_match; by rewrite !ToLower_app, Hh, Hp. Qed.

(** ** Prefixes *)

Definition valid_prefix (p : Prefix) : Prop := 0 <= pf_bits p <= BitLen (pf_ip p) /\ Masked p = p /\ hasZone (pf_ip p) = false.

Lemma Masked_valid p : 0 <= pf_bits p <= BitLen (pf_ip p) -> hasZone (pf_ip p) = false -> valid_prefix (Masked p).
Proof.
  destruct p as [[a|a z] bits]; cbn; intros Hb Hz; (split; [done|]; split; [|done]); unfold Masked;
    cbn [pf_ip pf_bits BitLen]; do 2 f_equal;
    rewrite Z.shiftr_shiftl_l, Z.sub_diag, Z.shiftl_0_r by lia; done.
Qed.

(** The addresses of a prefix are those that agree with it in the prefix's
    bits. *)
Lemma Prefix_Contains_spec p ip :
  Prefix_Contains p ip = true <->
  hasZone ip = false /\ BitLen (pf_ip p) = BitLen ip /\
  Z.shiftr (addr_bits ip) (BitLen ip - pf_bits p) = Z.shiftr (addr_bits (pf_ip p)) (BitLen ip - pf_bits p).
Proof.
  unfold Prefix_Contains. rewrite !andb_true_iff, negb_true_iff, !Z.eqb_eq, Z.shiftr_lxor, Z.lxor_eq_0_iff. tauto.
Qed.

Lemma withoutZone_hasZone a : hasZone (withoutZone a) = false.
Proof. by destruct a. Qed.

Lemma withoutZone_BitLen a : BitLen (withoutZone a) = BitLen a.
Proof. by destruct a. Qed.

Lemma config_prefix_valid raw p : config_prefix raw = Ok p -> valid_prefix p.
Proof.
  unfold config_prefix. destruct (ParsePrefix raw) as [q|] eqn:E.
  - intros [= <-]. unfold ParsePrefix in E.
    destruct (LastIndexByte raw "/") as [i|]; [|done]. cbn [mbind option_bind] in E.
    destruct (ParseAddr _) as [a|]; [|done]. cbn [mbind option_bind] in E.
    destruct (hasZone a); [done|]. destruct (negb _); [done|].
    destruct (Atoi _) as [n|]; [|done]. cbn [mbind option_bind] in E.
    destruct (_ || _) eqn:Hn; [done|]. injection E as <-. propify.
    apply Masked_valid; cbn [PrefixFrom pf_bits pf_ip]; [rewrite withoutZone_BitLen; lia|apply withoutZone_hasZone].
  - destruct (ParseAddr raw) as [a|]; [|done]. intros [= <-].
    apply Masked_valid; cbn [PrefixFrom pf_bits pf_ip]; [|apply withoutZone_hasZone].
    rewrite withoutZone_BitLen. by destruct a.
Qed.

(** ** [Resolve] *)

Lemma resolve_listen_Ok c relayPort addr host portStr :
  resolve_listen c relayPort = Ok (addr, host, portStr) ->
  exists port, SplitHostPort addr = Ok (host, portStr) /\ Atoi portStr = Some port /\ 1 <= port <= 65535 /\ port <> relayPort.
Proof.
  unfold resolve_listen. set (a := if is_empty _ then _ else _). intros H. unbind H.
  apply wrap_err_Ok in B. repeat split_match H. injection H as <- <- <-. propify. exists z. split_and!; done || lia.
Qed.

Lemma own_hosts_lower host portStr loopback h :
  ToLower portStr = portStr -> h ∈ own_hosts host portStr loopback -> h <> ""%string /\ ToLower h = h.
Proof.
  intros Hp. unfold own_hosts. rewrite elem_of_union. intros [H|H].
  - case_match; [set_solver|]. apply elem_of_singleton in H as ->. split; [|apply ToLower_idem].
    intros Hl%(f_equal String.length). rewrite ToLower_length in Hl.
    pose proof (JoinHostPort_nonempty host portStr). by destruct (JoinHostPort host portStr).
  - case_match; [|set_solver]. apply elem_of_list_to_set, list_elem_of_fmap in H as (h' & -> & Hh).
    split; [apply JoinHostPort_nonempty|].
    repeat (apply elem_of_cons in Hh as [->|Hh]); [..|by apply elem_of_nil in Hh]; by apply JoinHostPort_lower.
Qed.

Lemma own_hosts_nonempty host portStr loopback : own_hosts host portStr loopback <> ∅.
Proof.
  unfold own_hosts. destruct (is_wildcard host).
  - rewrite orb_true_r. cbn. set_solver.
  - set_solver.
Qed.

Lemma parse_digits_lower s a z : parse_digits s a = Some z -> ToLower s = s.
Proof.
  revert a. induction s as [|c s IH]; intros a; cbn [parse_digits ToLower]; [done|].
  destruct (digit_of c) eqn:E; [|done]. intros H%IH. rewrite H. f_equal.
  revert E. by destruct c as [[] [] [] [] [] [] [] []].
Qed.

Lemma Atoi_lower s z : Atoi s = Some z -> ToLower s = s.
Proof.
  unfold Atoi. destruct (match s with String "-" r => _ | _ => _ end) as [neg body] eqn:Es.
  destruct (is_empty body); [done|]. destruct (parse_digits body 0) eqn:E; [|done]. intros _.
  apply parse_digits_lower in E. revert Es. destruct s as [|c s]; [done|].
  intros Es.
  destruct (decide (c = "-"%char)) as [->|H1]; [injection Es as _ <-; cbn; by rewrite E|].
  destruct (decide (c = "+"%char)) as [->|H2]; [injection Es as _ <-; cbn; by rewrite E|].
  assert (body = String c s) as ->; [|done].
  destruct c as [[] [] [] [] [] [] [] []]; by injection Es.
Qed.
Lemma config_host_Ok h h' : config_host h = Ok h' -> h' <> ""%string /\ ToLower h' = h'.
Proof.
  unfold config_host. case_match eqn:E; [done|]. intros [= <-]. propify.
  split; [by apply is_empty_false|apply ToLower_idem].
Qed.

Section Facts.
Context (DecodePublicKey : string -> option string) (exists_file : string -> bool)
        (tokens_file : string -> option file).
Hypothesis npub_is_key : forall s k, DecodePublicKey s = Some k -> hex_key k.

Abbreviation resolve_config := (Resolve DecodePublicKey exists_file tokens_file).

(** What the source says of [Settings] and of the options that make it. *)
Record valid_settings (relayPort : Z) (admins : list string) (s : Settings) : Prop := {
  vs_listen : exists host portStr port,
    SplitHostPort (se_Addr s) = Ok (host, portStr) /\ Atoi portStr = Some port /\
    1 <= port <= 65535 /\ port <> relayPort /\ se_Loopback s = isLoopback host /\
    (is_wildcard host = false -> ToLower (JoinHostPort host portStr) ∈ se_Hosts s);
  vs_private : se_Loopback s = true \/ is_Some (se_TLS s);
  vs_tls : forall t, se_TLS s = Some t -> tls_Cert t <> ""%string /\ tls_Key t <> ""%string /\
    forall f, f ∈ [tls_Cert t; tls_Key t; tls_ClientCA t] -> f <> ""%string -> exists_file f = true;
  vs_hosts : se_Hosts s <> ∅ /\ forall h, h ∈ se_Hosts s -> h <> ""%string /\ ToLower h = h;
  vs_prefixes : Forall valid_prefix (se_AllowCIDRs s);
  vs_keys : Forall hex_key (se_Pubkeys s);
  vs_dashboard : Minute <= se_SessionTTL s <= maxSessionTTL /\
    (se_Dashboard s = true -> admins <> [] \/ se_Pubkeys s <> []);
  vs_metrics : 0 <= se_ScrapeTTL s <= Minute /\
    (se_Metrics s = true -> se_TokensFile s <> ""%string /\ is_ok (LoadTokens (tokens_file (se_TokensFile s))) = true);
}.

Lemma parsePubkey_key raw pk : parsePubkey DecodePublicKey raw = Some pk -> hex_key pk.
Proof using npub_is_key.
  unfold parsePubkey. case_match; [apply npub_is_key|]. case_match eqn:E; [|done]. intros [= <-].
  apply andb_true_iff in E as [Hl%Nat.eqb_eq Hh]. split; [by rewrite ToLower_length|by apply ToLower_hex].
Qed.


Lemma check_tls_Ok c u t : check_tls exists_file c = Ok u -> cf_TLS c = Some t ->
  tls_Cert t <> ""%string /\ tls_Key t <> ""%string /\
  forall f, f ∈ [tls_Cert t; tls_Key t; tls_ClientCA t] -> f <> ""%string -> exists_file f = true.
Proof using.
  unfold check_tls. intros H Ht. rewrite Ht in H. unbind H. propify.
  apply is_empty_false in H0, H1. split_and!; [done..|]. intros f Hf Hne.
  pose proof (checks_Ok _ _ _ _ B0 f Hf) as Hc. cbn beta in Hc.
  apply is_empty_false in Hne. rewrite Hne in Hc. by destruct (exists_file f).
Qed.

Lemma resolve_dashboard_Ok c admins pubkeys r :
  resolve_dashboard c admins pubkeys = Ok r ->
  Minute <= default defaultSessionTTL r <= maxSessionTTL /\ (is_Some r -> admins <> [] \/ pubkeys <> []).
Proof using.
  unfold resolve_dashboard. destruct (cf_Dashboard c) as [d|]; [|by intros [= <-]].
  destruct (negb (dc_Enabled d)); [by intros [= <-]|]. intros H. unbind H.
  assert (admins <> [] \/ pubkeys <> []) as Hne.
  { apply andb_false_iff in B as [B|B]; apply bool_decide_eq_false in B; auto. }
  repeat split_match H; injection H as <-; propify; cbn; split; done || lia.
Qed.

Lemma resolve_metrics_Ok c r :
  resolve_metrics tokens_file c = Ok r ->
  match r with
  | None => True
  | Some (f, ttl) => 0 <= ttl <= Minute /\ f <> ""%string /\ is_ok (LoadTokens (tokens_file f)) = true
  end.
Proof using.
  unfold resolve_metrics. destruct (cf_Metrics c) as [m|]; [|by intros [= <-]].
  destruct (negb (mc_Enabled m)); [by intros [= <-]|]. intros H. unbind H. apply is_empty_false in B.
  apply wrap_err_Ok in B0.
  repeat split_match H; injection H as <-; propify; rewrite B0; split_and!; done || lia.
Qed.

(** C16: whatever configuration [Resolve] accepts, the settings it gives are
    valid: the address parses to a port from 1 to 65535 that is not the
    relay's; the listener is on a loopback address or has a certificate and a
    key, each configured file existing; it answers to at least one name, all
    names lower case and its own address among them; the allowed prefixes are
    masked and without zones; the keys are 64 lower-case hexadecimal digits; a
    dashboard has an admin and sessions of one minute to a day; metrics have a
    tokens file that loads. *)
Theorem Resolve_valid c relayPort admins s :
  resolve_config c relayPort admins = Ok (Some s) -> valid_settings relayPort admins s.
Proof using npub_is_key.
  unfold Resolve. set (cf := default emptyConfig c). case_match; [by case_match|]. intros H'. unbind H'.
  destruct r0 as [addr host]. rename r1 into portStr. cbn iota beta in H'. unbind H'. injection H' as <-.
  apply resolve_listen_Ok in B as (port & Hs & Ha & Hr & Hne).
  apply resolve_dashboard_Ok in B6 as [Hd1 Hd2]. apply resolve_metrics_Ok in B7.
  split; cbn [se_Addr se_Loopback se_TLS se_Hosts se_AllowCIDRs se_Pubkeys se_SessionTTL se_Dashboard se_ScrapeTTL
              se_Metrics se_TokensFile].
  - exists host, portStr, port. split_and!; try (done || lia). intros Hw.
    apply elem_of_union_l. unfold own_hosts. rewrite Hw. set_solver.
  - destruct (isLoopback host); [by left|right]. by destruct (cf_TLS cf).
  - intros t Ht. by eapply check_tls_Ok.
  - split; [pose proof (own_hosts_nonempty host portStr (isLoopback host)); set_solver|].
    intros h [Hh|Hh]%elem_of_union; [eapply own_hosts_lower; [by eapply Atoi_lower|done]|].
    apply elem_of_list_to_set in Hh. revert h Hh. apply Forall_forall. eapply mapM_res_Forall; [|exact B0].
    intros x y Hx%config_host_Ok. done.
  - eapply mapM_res_Forall; [|exact B4]. apply config_prefix_valid.
  - eapply mapM_res_Forall; [|exact B5]. unfold config_pubkey. intros x y.
    destruct (parsePubkey DecodePublicKey x) eqn:E; [|done]. intros [= <-]. by eapply parsePubkey_key.
  - split; [done|]. destruct r2; [|done]. eauto.
  - destruct r3 as [[f ttl]|]; [|done]. naive_solver.
Qed.

End Facts.

(** ** Witnesses *)

(** An npub of the form [npub1<key>]. *)
Definition example_npub (s : string) : option string :=
  k ← CutPrefix s "npub1"; if Nat.eqb (String.length k) 64 && all_bytes is_lower_hex k then Some k else None.

Lemma example_npub_key s k : example_npub s = Some k -> hex_key k.
Proof.
  unfold example_npub. destruct (CutPrefix s "npub1"); [|done]. cbn [mbind option_bind]. case_match eqn:E; [|done].
  intros [= <-]. apply andb_true_iff in E as [?%Nat.eqb_eq ?]. done.
Qed.

Definition example_key : string := "0123456789abcdef0123456789ABCDEF0123456789abcdef0123456789abcdef".

Definition example_config : Config :=
  mkConfig "0.0.0.0:7443" (Some (mkTLS "cert.pem" "key.pem" "")) ["10.0.0.0/8"; "192.168.1.7"]%string
    [" Admin.Example "]%string [example_key] (Some (mkDashboard true "30m")) None.

Lemma Resolve_valid_witness :
  exists s, Resolve example_npub (fun _ => true) (fun _ => None) (Some example_config) 7447 [] = Ok (Some s) /\
    valid_settings (fun _ => true) (fun _ => None) 7447 [] s /\ se_Dashboard s = true.
Proof.
  destruct (Resolve example_npub (fun _ => true) (fun _ => None) (Some example_config) 7447 []) as [[s|]|e] eqn:E;
    [|vm_compute in E; done..].
  exists s. split; [done|]. split; [by apply (Resolve_valid example_npub _ _ example_npub_key (Some example_config))|].
  apply (f_equal (fun r => match r with Ok (Some s) => se_Dashboard s | _ => false end)) in E.
  cbn beta iota in E. rewrite <- E. vm_compute. reflexivity.
Defined.

(** Without an [admin:] block the listener is on the port after the relay's, on
    the loopback address, with the API alone. *)
Definition default_settings (relayPort : Z) : Settings :=
  let at_ h := JoinHostPort h (Itoa (relayPort + 1)) in
  mkSettings (at_ "127.0.0.1"%string) true true None []
    (list_to_set (at_ <$> ["127.0.0.1"; "localhost"; "::1"]%string)) [] false defaultSessionTTL false "" defaultScrapeTTL.

Lemma port_text p : 1 <= p <= 65535 ->
  SplitHostPort (JoinHostPort "127.0.0.1" (Itoa p)) = Ok ("127.0.0.1"%string, Itoa p) /\ Atoi (Itoa p) = Some p.
Proof.
  intros Hp. split; [|apply Atoi_Itoa; unfold max_int64, two63; lia].
  apply SplitHostPort_Join; [done|]. eapply all_bytes_impl; [|apply Itoa_digits; lia].
  intros c. by destruct c as [[] [] [] [] [] [] [] []].
Qed.

Lemma Resolve_default D X T relayPort admins :
  0 <= relayPort <= 65534 -> Resolve D X T None relayPort admins = Ok (Some (default_settings relayPort)).
Proof.
  intros Hp. unfold Resolve. cbn [from_option default id emptyConfig cf_Listen String.eqb].
  unfold resolve_listen. cbn [cf_Listen emptyConfig is_empty].
  rewrite wrap64_id by (unfold is_int64, min_int64, max_int64, two63; lia).
  destruct (port_text (relayPort + 1) ltac:(lia)) as [Hs Ha]. rewrite Hs. cbn [wrap_err mbind result_bind].
  rewrite Ha. destruct (Z.leb_spec (relayPort + 1) 0); [lia|]. destruct (Z.ltb_spec 65535 (relayPort + 1)); [lia|].
  destruct (Z.eqb_spec (relayPort + 1) relayPort); [lia|].
  cbn -[Itoa JoinHostPort isLoopback own_hosts default_settings].
  change (isLoopback "127.0.0.1") with true.
  cbn -[Itoa JoinHostPort own_hosts default_settings]. unfold default_settings, own_hosts.
  cbn [orb is_wildcard is_empty String.eqb Ascii.eqb Bool.eqb].
  do 3 f_equal. unfold_leibniz.
  rewrite (JoinHostPort_lower "127.0.0.1" (Itoa (relayPort + 1)) eq_refl (Atoi_lower _ _ Ha)).
  cbn -[Itoa JoinHostPort]. set_solver.
Qed.
