(* ===== verification/AdminServer.v ===== *)
(** * The admin listener's request handling

    Models the handler chain of [src/cli/relay/adminplane/server.go]: the gate,
    the routes, NIP-98 and session authentication, login, logout, the session's
    information and the metrics scrape.

    Every request is served by a goroutine.  Between two accesses to what the
    goroutines share (the sessions, the replay guard, the failure limiter, the
    tokens, the scrape cache, the list of admins, the clock) any other
    goroutine may act: a request is a thread whose [pc] says which access comes
    next, and [exec] performs one.  A mutex-protected operation takes the time
    as an argument, which its caller reads before it waits for the mutex
    ([PNow], then [PAt]).

    [nip98.Verify] is in the nmilat library: [Nip98] states what its
    documentation promises.  Headers of the answers and bodies are left out,
    and so is the route that streams points. *)
From S2P Require Import Prelude GoTime GoStrings GoNet AdminAuth AdminTokens.
From S2P Require Import AdminConfig.
From stdpp Require Import options.

Local Open Scope Z_scope.

(** What the server reads of a request.  [rq_Body] is [None] when reading it
    fails. *)
Record request := mkRequest {
  rq_Method : string;
  rq_Path : string;
  rq_Host : string;
  rq_RemoteAddr : string;
  rq_Authorization : string;
  rq_Cookie : option string;      (* of [sessionCookie] *)
  rq_CSRF : string;               (* of [csrfHeader] *)
  rq_Body : option string;
}.

Definition clientIP (r : request) : string :=
  match SplitHostPort (rq_RemoteAddr r) with
  | Ok (host, _) => host
  | Err _ => rq_RemoteAddr r
  end.

Definition maxBodyBytes : Z := 1048576.

(** [io.ReadAll(http.MaxBytesReader(...))] *)
Definition read_body (r : request) : option string :=
  b ← rq_Body r; if maxBodyBytes <? Z.of_nat (String.length b) then None else Some b.

(** ** The gate *)

Definition allowed (s : Settings) (ip : string) : bool :=
  match ParseAddr ip with
  | None => false
  | Some a => existsb (fun p => Prefix_Contains p (Unmap a)) (se_AllowCIDRs s)
  end.

(** The checks of [gate] before the limiter: the status of a refusal. *)
Definition gate (s : Settings) (r : request) : option Z :=
  if negb (bool_decide (ToLower (rq_Host r) ∈ se_Hosts s)) then Some 421
  else if negb (bool_decide (se_AllowCIDRs s = [])) && negb (allowed s (clientIP r)) then Some 403
  else None.

(** ** Routes *)

Inductive route :=
| RMetrics                 (* GET /metrics *)
| RApi                     (* a route registered with [Handle] *)
| RSession                 (* GET /admin/api/session *)
| RLogout                  (* POST /admin/api/logout *)
| RLogin                   (* POST /admin/api/login *)
| RUI                      (* GET /admin/ui/ *)
| RRoot                    (* GET /{$} *)
| RNone.

(** A GET pattern also matches HEAD. *)
Definition is_get (r : request) : bool := String.eqb (rq_Method r) "GET" || String.eqb (rq_Method r) "HEAD".
Definition is_post (r : request) : bool := String.eqb (rq_Method r) "POST".

(** The routes [New] registers; [api] are those added with [Handle] (the
    metrics and history of [New] itself, and the routes of the relay's jobs and
    profiles). *)
Definition route_of (s : Settings) (api : request -> bool) (r : request) : route :=
  let at_ p := String.eqb (rq_Path r) p in
  if se_Metrics s && is_get r && at_ "/metrics"%string then RMetrics
  else if is_get r && at_ "/admin/api/session"%string then RSession
  else if se_Dashboard s && is_post r && at_ "/admin/api/login"%string then RLogin
  else if se_Dashboard s && is_post r && at_ "/admin/api/logout"%string then RLogout
  else if se_Dashboard s && is_get r && HasPrefix (rq_Path r) "/admin/ui/" then RUI
  else if se_Dashboard s && is_get r && at_ "/"%string then RRoot
  else if api r then RApi
  else RNone.

(** The routes behind [requireAdmin]. *)
Definition admin_route (rt : route) : bool :=
  match rt with RApi | RSession | RLogout => true | _ => false end.

(** ** The scrape cache *)

(** [scrapeBody] is nil before the first rendering. *)
Record scrape := mkScrape { sc_body : string; sc_at : Z }.

(** [renderMetrics]; [gather] is what a rendering gives. *)
Definition renderMetrics (ttl now : Z) (gather : option string) (c : scrape) : option string * scrape :=
  if negb (is_empty (sc_body c)) && (Time_Sub now (sc_at c) <? ttl) then (Some (sc_body c), c)
  else match gather with
       | None => (None, c)
       | Some b => (Some b, mkScrape b now)
       end.

(** ** [nip98.Verify] *)

(** An accepted header is signed by one of the pubkeys it is given and its
    event, whose id is a hash of its content, was created at most 60 s from
    the time of the check. *)
Class Nip98 := {
  Verify : request -> list string -> Z -> option string;
  base64_Decode : string -> option string;
  event_id : string -> option string;
  created : string -> Z;
}.

Definition auth_id `{Nip98} (r : request) : string := nip98EventID base64_Decode event_id (rq_Authorization r).

Definition verifyWindow : Z := 60 * Second.

Class Nip98Laws `{Nip98} := {
  Verify_admin r adm t pk : Verify r adm t = Some pk -> pk ∈ adm;
  Verify_window r adm t pk : Verify r adm t = Some pk ->
    created (auth_id r) - verifyWindow <= t <= created (auth_id r) + verifyWindow;
}.

(** ** Threads *)

(** The critical section a thread is about to enter. *)
Inductive section :=
| CBlocked                                 (* limiter.blocked *)
| CFirst (login : bool) (pk : string)      (* replay.First *)
| CCreate (pk : string)                    (* sessions.create *)
| CGet (adm : list string)                 (* sessions.get of requireAdmin *)
| CInfo (adm : list string)                (* sessions.get of sessionInfo *)
| CToken (token : string)                  (* tokens.valid *)
| CRender                                  (* renderMetrics *)
| CFail.                                   (* limiter.fail, then a 401 *)

Inductive pc :=
| PGate
| PRoute
| PVerify (login : bool)
| PNow (c : section)                       (* before time.Now() *)
| PAt (c : section) (now : Z)
| PServe (pk : string)                     (* in the handler behind requireAdmin *)
| PDone (status : Z).

Record thread := mkThread { t_req : request; t_pc : pc }.

(** How a request was let through to an admin handler. *)
Inductive via :=
| ViaEvent (id : string)
| ViaSession (id : string) (now : Z) (adm : list string).

Record served := mkServed { sv_req : request; sv_pk : string; sv_via : via }.
Record login := mkLogin { lg_id : string; lg_session : session; lg_req : request }.
Record verified := mkVerified { vf_req : request; vf_adm : list string; vf_at : Z; vf_pk : string }.

(** The server.  The last five fields record what happened, for the
    specifications. *)
Record server := mkServer {
  sr_sessions : sessions;
  sr_replay : ReplayGuard;
  sr_limiter : failLimiter;
  sr_tokens : option tokenSet;
  sr_scrape : scrape;
  sr_admins : list string;
  sr_clock : Z;
  sr_threads : list thread;
  sr_adminlists : list (list string);
  sr_verified : list verified;
  sr_accepted : list string;
  sr_logins : list login;
  sr_served : list served;
}.

Definition set_sessions (v : sessions) (s : server) : server :=
  mkServer v (sr_replay s) (sr_limiter s) (sr_tokens s) (sr_scrape s) (sr_admins s) (sr_clock s) (sr_threads s) (sr_adminlists s) (sr_verified s) (sr_accepted s) (sr_logins s) (sr_served s).
Definition set_replay (v : ReplayGuard) (s : server) : server :=
  mkServer (sr_sessions s) v (sr_limiter s) (sr_tokens s) (sr_scrape s) (sr_admins s) (sr_clock s) (sr_threads s) (sr_adminlists s) (sr_verified s) (sr_accepted s) (sr_logins s) (sr_served s).
Definition set_limiter (v : failLimiter) (s : server) : server :=
  mkServer (sr_sessions s) (sr_replay s) v (sr_tokens s) (sr_scrape s) (sr_admins s) (sr_clock s) (sr_threads s) (sr_adminlists s) (sr_verified s) (sr_accepted s) (sr_logins s) (sr_served s).
Definition set_tokens (v : option tokenSet) (s : server) : server :=
  mkServer (sr_sessions s) (sr_replay s) (sr_limiter s) v (sr_scrape s) (sr_admins s) (sr_clock s) (sr_threads s) (sr_adminlists s) (sr_verified s) (sr_accepted s) (sr_logins s) (sr_served s).
Definition set_scrape (v : scrape) (s : server) : server :=
  mkServer (sr_sessions s) (sr_replay s) (sr_limiter s) (sr_tokens s) v (sr_admins s) (sr_clock s) (sr_threads s) (sr_adminlists s) (sr_verified s) (sr_accepted s) (sr_logins s) (sr_served s).
Definition set_admins (v : list string) (s : server) : server :=
  mkServer (sr_sessions s) (sr_replay s) (sr_limiter s) (sr_tokens s) (sr_scrape s) v (sr_clock s) (sr_threads s) (sr_adminlists s) (sr_verified s) (sr_accepted s) (sr_logins s) (sr_served s).
Definition set_clock (v : Z) (s : server) : server :=
  mkServer (sr_sessions s) (sr_replay s) (sr_limiter s) (sr_tokens s) (sr_scrape s) (sr_admins s) v (sr_threads s) (sr_adminlists s) (sr_verified s) (sr_accepted s) (sr_logins s) (sr_served s).
Definition set_threads (v : list thread) (s : server) : server :=
  mkServer (sr_sessions s) (sr_replay s) (sr_limiter s) (sr_tokens s) (sr_scrape s) (sr_admins s) (sr_clock s) v (sr_adminlists s) (sr_verified s) (sr_accepted s) (sr_logins s) (sr_served s).
Definition set_adminlists (v : list (list string)) (s : server) : server :=
  mkServer (sr_sessions s) (sr_replay s) (sr_limiter s) (sr_tokens s) (sr_scrape s) (sr_admins s) (sr_clock s) (sr_threads s) v (sr_verified s) (sr_accepted s) (sr_logins s) (sr_served s).
Definition set_verified (v : list verified) (s : server) : server :=
  mkServer (sr_sessions s) (sr_replay s) (sr_limiter s) (sr_tokens s) (sr_scrape s) (sr_admins s) (sr_clock s) (sr_threads s) (sr_adminlists s) v (sr_accepted s) (sr_logins s) (sr_served s).
Definition set_accepted (v : list string) (s : server) : server :=
  mkServer (sr_sessions s) (sr_replay s) (sr_limiter s) (sr_tokens s) (sr_scrape s) (sr_admins s) (sr_clock s) (sr_threads s) (sr_adminlists s) (sr_verified s) v (sr_logins s) (sr_served s).
Definition set_logins (v : list login) (s : server) : server :=
  mkServer (sr_sessions s) (sr_replay s) (sr_limiter s) (sr_tokens s) (sr_scrape s) (sr_admins s) (sr_clock s) (sr_threads s) (sr_adminlists s) (sr_verified s) (sr_accepted s) v (sr_served s).
Definition set_served (v : list served) (s : server) : server :=
  mkServer (sr_sessions s) (sr_replay s) (sr_limiter s) (sr_tokens s) (sr_scrape s) (sr_admins s) (sr_clock s) (sr_threads s) (sr_adminlists s) (sr_verified s) (sr_accepted s) (sr_logins s) v.

Definition set_pc (k : nat) (p : pc) (s : server) : server :=
  set_threads (alter (fun t => mkThread (t_req t) p) k (sr_threads s)) s.

(** ** Steps *)

Section Steps.
Context `{Nip98}.
Variable cfg : Settings.
Variable api : request -> bool.
Variable sha256 : string -> string.

(** [requireAdmin] up to its first access: [admins] is read with the cookie. *)
Definition requireAdmin (s : server) (r : request) : pc :=
  if HasPrefix (rq_Authorization r) "Nostr " then PVerify false
  else match rq_Cookie r with
       | None => PDone 401
       | Some _ => if negb (se_Dashboard cfg) then PNow CFail else PNow (CGet (sr_admins s))
       end.

(** [serveMetrics] up to the tokens. *)
Definition serveMetrics (r : request) : pc :=
  match CutPrefix (rq_Authorization r) "Bearer " with
  | None => PNow CFail
  | Some token => PNow (CToken (TrimSpace token))
  end.

Definition dispatch (s : server) (r : request) : pc :=
  match route_of cfg api r with
  | RMetrics => serveMetrics r
  | RApi | RSession | RLogout => requireAdmin s r
  | RLogin => PVerify true
  | RUI => PDone 200
  | RRoot => PDone 302
  | RNone => PDone 404
  end.

(** [verifyNIP98] up to the replay guard. *)
Definition verifyNIP98 (k : nat) (lg : bool) (r : request) (s : server) : server :=
  match read_body r with
  | None => set_pc k (PDone 413) s
  | Some _ =>
      match Verify r (sr_admins s) (sr_clock s) with
      | None => set_pc k (PNow CFail) s
      | Some pk =>
          set_pc k (PNow (CFirst lg pk))
            (set_verified (mkVerified r (sr_admins s) (sr_clock s) pk :: sr_verified s) s)
      end
  end.

(** The choices of the environment inside a critical section: the random
    tokens and the order of a map visit, the tokens file, and a rendering. *)
Record env := mkEnv {
  en_id : string;
  en_csrf : string;
  en_ord : list string;
  en_file : option file;
  en_gather : option string;
}.

Definition serve (k : nat) (r : request) (pk : string) (v : via) (s : server) : server :=
  set_pc k (PServe pk) (set_served (mkServed r pk v :: sr_served s) s).

Definition act_First (k : nat) (r : request) (lg : bool) (pk : string) (now : Z) (s : server) : server :=
  let '(first, g) := guard_First base64_Decode event_id (rq_Authorization r) now (sr_replay s) in
  let s := set_replay g s in
  if first then
    let s := set_accepted (auth_id r :: sr_accepted s) s in
    if lg then set_pc k (PNow (CCreate pk)) s else serve k r pk (ViaEvent (auth_id r)) s
  else set_pc k (PNow CFail) s.

(** [login] after [verifyNIP98] *)
Definition act_Create (k : nat) (r : request) (pk : string) (now : Z) (e : env) (s : server) : server :=
  let '(sess, ss) := sessions_create pk now (en_id e) (en_csrf e) (en_ord e) (sr_sessions s) in
  set_pc k (PDone 200)
    (set_logins (mkLogin (en_id e) sess r :: sr_logins s) (set_sessions ss s)).

Definition needs_csrf (r : request) : bool := negb (is_get r).

Definition act_Get (k : nat) (r : request) (adm : list string) (now : Z) (s : server) : server :=
  let cookie := default ""%string (rq_Cookie r) in
  let '(found, ss) := sessions_get cookie adm now (sr_sessions s) in
  let s := set_sessions ss s in
  match found with
  | None => set_pc k (PNow CFail) s
  | Some sess =>
      if needs_csrf r && negb (csrfMatches sess (rq_CSRF r)) then set_pc k (PNow CFail) s
      else serve k r (se_pubkey sess) (ViaSession cookie now adm) s
  end.

(** [sessionInfo] with a cookie *)
Definition act_Info (k : nat) (r : request) (adm : list string) (now : Z) (s : server) : server :=
  let '(found, ss) := sessions_get (default ""%string (rq_Cookie r)) adm now (sr_sessions s) in
  set_pc k (match found with None => PNow CFail | Some _ => PDone 200 end) (set_sessions ss s).

Definition act_Token (k : nat) (token : string) (now : Z) (e : env) (s : server) : server :=
  match sr_tokens s with
  | None => set_pc k (PNow CFail) s
  | Some t =>
      let '(ok, t) := valid sha256 token now (en_file e) (en_file e) (en_file e) t in
      set_pc k (PNow (if ok then CRender else CFail)) (set_tokens (Some t) s)
  end.

Definition act_Render (k : nat) (now : Z) (e : env) (s : server) : server :=
  let '(body, c) := renderMetrics (se_ScrapeTTL cfg) now (en_gather e) (sr_scrape s) in
  set_pc k (PDone (match body with Some _ => 200 | None => 500 end)) (set_scrape c s).

Definition act (k : nat) (r : request) (c : section) (now : Z) (e : env) (s : server) : server :=
  match c with
  | CBlocked =>
      let '(b, l) := limiter_blocked (clientIP r) now (sr_limiter s) in
      set_pc k (if b then PDone 429 else PRoute) (set_limiter l s)
  | CFirst lg pk => act_First k r lg pk now s
  | CCreate pk => act_Create k r pk now e s
  | CGet adm => act_Get k r adm now s
  | CInfo adm => act_Info k r adm now s
  | CToken token => act_Token k token now e s
  | CRender => act_Render k now e s
  | CFail => set_pc k (PDone 401) (set_limiter (limiter_fail (clientIP r) now (sr_limiter s)) s)
  end.

(** The handlers behind [requireAdmin]: [sessionInfo], [logout], and the
    others, which do not touch the server. *)
Definition handler (k : nat) (r : request) (status : Z) (s : server) : server :=
  match route_of cfg api r with
  | RSession =>
      match rq_Cookie r with
      | None => set_pc k (PDone 200) s
      | Some _ => set_pc k (PNow (CInfo (sr_admins s))) s
      end
  | RLogout =>
      set_pc k (PDone 200)
        (match rq_Cookie r with
         | Some id => set_sessions (sessions_remove id (sr_sessions s)) s
         | None => s
         end)
  | _ => set_pc k (PDone status) s
  end.

Inductive action :=
| ARequest (r : request)
| AClock (t : Z)
| AAdmins (adm : list string)
| AStep (k : nat) (e : env) (status : Z).

Definition step_thread (k : nat) (e : env) (status : Z) (t : thread) (s : server) : option server :=
  let r := t_req t in
  match t_pc t with
  | PGate => Some (set_pc k (match gate cfg r with Some st => PDone st | None => PNow CBlocked end) s)
  | PRoute => Some (set_pc k (dispatch s r) s)
  | PVerify lg => Some (verifyNIP98 k lg r s)
  | PNow c => Some (set_pc k (PAt c (sr_clock s)) s)
  | PAt c now => Some (act k r c now e s)
  | PServe _ => Some (handler k r status s)
  | PDone _ => None
  end.

(** The clock does not go back, and stays where adding a duration is exact. *)
Definition exec (a : action) (s : server) : option server :=
  match a with
  | ARequest r => Some (set_threads (sr_threads s ++ [mkThread r PGate])%list s)
  | AClock t => if (sr_clock s <=? t) && (t <=? 2 ^ 62 * Second) then Some (set_clock t s) else None
  | AAdmins adm => Some (set_adminlists (adm :: sr_adminlists s) (set_admins adm s))
  | AStep k e status => t ← sr_threads s !! k; step_thread k e status t s
  end.

Definition start (tokens : option tokenSet) (admins : list string) (clock : Z) : server :=
  mkServer (newSessions (se_SessionTTL cfg)) ∅ ∅ tokens (mkScrape "" 0) admins clock []
    [admins] [] [] [] [].

(** The runs all of whose actions satisfy [P] where they happen. *)
Inductive run (P : server -> action -> Prop) (s0 : server) : server -> Prop :=
| run_start : run P s0 s0
| run_step s a s' : run P s0 s -> P s a -> exec a s = Some s' -> run P s0 s'.

(** A thread enters the replay guard while its event is still valid. *)
Definition prompt (s : server) (a : action) : Prop :=
  match a with
  | AStep k _ _ =>
      match sr_threads s !! k with
      | Some t => match t_pc t with
                  | PAt (CFirst _ _) _ => sr_clock s <= created (auth_id (t_req t)) + verifyWindow
                  | _ => True
                  end
      | None => True
      end
  | _ => True
  end.

End Steps.
