(* ===== verification/AdminAuthFacts.v ===== *)
(** * Sessions, failure limiter and replay guard: their own guarantees

    The tables stay bounded, a session is found only while it lives and its
    owner is an admin, and the limiter blocks an address after its failures. *)
From S2P Require Import Prelude GoTime GoStrings AdminAuth.
From stdpp Require Import options.

Local Open Scope Z_scope.

Lemma size_insert_le {A} (m : gmap string A) k v : (size (<[k := v]> m) <= S (size m))%nat.
Proof. rewrite map_size_insert. case_match; cbn; lia. Qed.

(** ** Sessions *)

Lemma oldest_session_in visit best k :
  oldest_session best visit = Some k ->
  (exists v, best = Some (k, v)) \/ (exists v, (k, v) ∈ visit).
Proof.
  revert best. induction visit as [|[k' v'] visit IH]; intros best; cbn [oldest_session].
  - destruct best as [[k0 v0]|]; [|done]. cbn. intros [= ->]. left. by eexists.
  - assert (forall b, (b = best \/ b = Some (k', v')) -> oldest_session b visit = Some k ->
      (exists v, best = Some (k, v)) \/ (exists v, (k, v) ∈ (k', v') :: visit)) as Hstep.
    { intros b Hb [[v Hv]|[v Hv]]%IH; [|right; exists v; by right].
      destruct Hb as [->| ->]; [left; by exists v|injection Hv as -> ->; right; exists v; by left]. }
    destruct best as [[k0 b0]|]; [case_match|]; apply Hstep; auto.
Qed.

(** A visit of a map that is not empty picks a session. *)
Lemma oldest_session_some visit best :
  (exists b, best = Some b) \/ visit <> [] -> is_Some (oldest_session best visit).
Proof.
  revert best. induction visit as [|[k v] visit IH]; intros best H; cbn [oldest_session].
  - destruct H as [[b ->]|]; [by eexists|done].
  - destruct best as [[k0 b0]|]; [case_match|]; apply IH; left; by eexists.
Qed.

Lemma sessions_sweep_sub now s : ss_byID (sessions_sweep now s) ⊆ ss_byID s.
Proof. apply map_filter_subseteq. Qed.

Lemma sessions_create_sub pk now id csrf ord s k v :
  ss_byID (snd (sessions_create pk now id csrf ord s)) !! k = Some v ->
  (k = id /\ v = fst (sessions_create pk now id csrf ord s)) \/ (k <> id /\ ss_byID s !! k = Some v).
Proof.
  unfold sessions_create. cbn [fst snd ss_byID]. rewrite lookup_insert_Some.
  intros [[<- <-]|[Hne Hv]]; [by left|right]. split; [done|].
  apply (lookup_weaken _ _ _ _ Hv). etrans; [|apply (sessions_sweep_sub now)].
  case_match; [|done]. case_match; [apply delete_subseteq|done].
Qed.

(** At most [maxSessions] logins are held. *)
Lemma sessions_create_size pk now id csrf ord s :
  (size (ss_byID s) <= maxSessions)%nat ->
  (size (ss_byID (snd (sessions_create pk now id csrf ord s))) <= maxSessions)%nat.
Proof.
  intros Hs. unfold sessions_create. cbn [snd ss_byID]. set (m := ss_byID (sessions_sweep now s)).
  assert (size m <= maxSessions)%nat as Hm.
  { etrans; [|exact Hs]. apply map_subseteq_size, sessions_sweep_sub. }
  etrans; [apply size_insert_le|]. destruct (Nat.leb_spec maxSessions (size m)) as [Hfull|]; [|lia].
  assert (is_Some (oldest_session None (range_map ord m))) as [k Hk].
  { apply oldest_session_some. right. intros Hnil.
    assert (m <> ∅) as Hne. { intros He. rewrite He, map_size_empty in Hfull. unfold maxSessions in Hfull. lia. }
    apply map_choose in Hne as (k & v & Hk). apply (range_map_elem ord) in Hk. rewrite Hnil in Hk.
    by apply elem_of_nil in Hk. }
  rewrite Hk. apply oldest_session_in in Hk as [[v [=]]|[v Hv%range_map_elem]].
  rewrite map_size_delete_Some by eauto. unfold maxSessions in *. lia.
Qed.

Lemma sessions_get_Some id adm now s sess s' :
  sessions_get id adm now s = (Some sess, s') ->
  ss_byID s !! id = Some sess /\ now <= se_expires sess /\ se_pubkey sess ∈ adm /\ s' = s.
Proof.
  unfold sessions_get. destruct (ss_byID s !! id) as [v|] eqn:E; [|done].
  destruct (_ || _) eqn:Hc; [done|]. intros [= <- <-]. unfold Time_After in Hc. propify. done.
Qed.

Lemma sessions_get_sub id adm now s : ss_byID (snd (sessions_get id adm now s)) ⊆ ss_byID s.
Proof.
  unfold sessions_get. destruct (ss_byID s !! id); [|done]. case_match; [apply delete_subseteq|done].
Qed.

Lemma sessions_remove_sub id s : ss_byID (sessions_remove id s) ⊆ ss_byID s.
Proof. apply delete_subseteq. Qed.

(** ** Failed attempts *)

Lemma limiter_blocked_sub ip now l : snd (limiter_blocked ip now l) ⊆ l.
Proof. unfold limiter_blocked. destruct (l !! ip); [|done]. case_match; [apply delete_subseteq|done]. Qed.

Lemma limiter_fail_size ip now l :
  Z.of_nat (size l) <= maxFailedAddr -> Z.of_nat (size (limiter_fail ip now l)) <= maxFailedAddr.
Proof.
  intros Hl. unfold limiter_fail.
  assert (Z.of_nat (size (limiter_restart ip now l)) <= maxFailedAddr) as Hr.
  { unfold limiter_restart. set (l' := if _ <=? _ then filter _ l else l).
    assert (size l' <= size l)%nat. { subst l'. case_match; [apply map_subseteq_size, map_filter_subseteq|done]. }
    destruct (Z.leb_spec maxFailedAddr (Z.of_nat (size l'))); [lia|].
    pose proof (size_insert_le l' ip (mkFail 1 now)). lia. }
  destruct (l !! ip) as [f|] eqn:E; [|done]. case_match; [done|].
  rewrite map_size_insert_Some by eauto. done.
Qed.

(** The failures of [ip], one after the other, at the given times. *)
Definition fail_all (ip : string) (ts : list Z) (l : failLimiter) : failLimiter :=
  fold_left (fun l t => limiter_fail ip t l) ts l.

Lemma fail_again ip ts l n since :
  l !! ip = Some (mkFail n since) -> 0 <= n -> n + Z.of_nat (length ts) <= max_int64 ->
  Forall (fun t => too_old t (mkFail n since) = false) ts ->
  fail_all ip ts l !! ip = Some (mkFail (n + Z.of_nat (length ts)) since).
Proof.
  revert l n. induction ts as [|t ts IH]; intros l n Hl Hn Hmax HF; cbn [fail_all fold_left length].
  - rewrite Hl. do 2 f_equal. lia.
  - apply Forall_cons in HF as [Ht HF]. cbn [length] in Hmax.
    assert (is_int64 (n + 1)) by (unfold is_int64, min_int64, two63; lia).
    fold (fail_all ip ts (limiter_fail ip t l)).
    rewrite (IH _ (n + 1)); [f_equal; f_equal; lia| |lia|lia|done].
    unfold limiter_fail. rewrite Hl, Ht. cbn [fc_n fc_since]. by rewrite wrap64_id, lookup_insert_eq.
Qed.

(** Ten failures within a minute of the first block the address until that
    minute has passed. *)
Lemma failures_block ip t ts now l :
  l !! ip = None -> Z.of_nat (size l) < maxFailedAddr -> length ts = 9%nat ->
  Forall (fun u => t <= u <= t + failWindow) ts -> t <= now <= t + failWindow ->
  fst (limiter_blocked ip now (fail_all ip (t :: ts) l)) = true.
Proof.
  intros Hl Hsize Hlen HF Hnow.
  assert (forall n u, t <= u <= t + failWindow -> too_old u (mkFail n t) = false) as Hst.
  { intros n u Hu. unfold too_old. cbn [fc_since]. apply Z.ltb_ge. unfold Time_Sub. rewrite clamp64_id; [lia|].
    unfold is_int64, min_int64, max_int64, two63, failWindow, Minute, Second in *. lia. }
  cbn [fail_all fold_left]. fold (fail_all ip ts (limiter_fail ip t l)).
  assert (limiter_fail ip t l !! ip = Some (mkFail 1 t)) as H1.
  { unfold limiter_fail, limiter_restart. rewrite Hl.
    destruct (Z.leb_spec maxFailedAddr (Z.of_nat (size l))); [lia|].
    destruct (Z.leb_spec maxFailedAddr (Z.of_nat (size l))); [lia|]. by rewrite lookup_insert_eq. }
  unfold limiter_blocked. erewrite fail_again; [|exact H1|done|rewrite Hlen; done|].
  - rewrite Hlen, Hst by done. done.
  - eapply Forall_impl; [exact HF|]. intros u Hu. by apply Hst.
Qed.

(** ** The replay guard *)

Lemma guard_First_true id now g g' :
  guard_First_id id now g = (true, g') -> is_clock now ->
  g' !! id = Some (now + nip98Window) /\ (forall k e, g !! k = Some e -> now <= e -> k <> id /\ g' !! k = Some e).
Proof.
  unfold guard_First_id. case_match; [done|]. intros Hg Hc.
  destruct (filter _ g !! id) as [e|] eqn:E; [done|]. injection Hg as <-. split.
  - rewrite lookup_insert_eq, Time_Add_exact by (done || (unfold is_int64, min_int64, max_int64, two63, nip98Window, Minute, Second; lia)). done.
  - intros k e Hk Hle.
    assert (filter (fun kv : string * Z => Time_After now kv.2 = false) g !! k = Some e) as Hf.
    { apply map_lookup_filter_Some. split; [done|]. cbn. unfold Time_After. lia. }
    assert (k <> id) by congruence. split; [done|]. by rewrite lookup_insert_ne.
Qed.

Lemma guard_First_false id now g g' :
  guard_First_id id now g = (false, g') -> forall k e, g !! k = Some e -> now <= e -> g' !! k = Some e.
Proof.
  unfold guard_First_id. case_match; [by intros [= <-]|]. intros Hg k e Hk Hle.
  destruct (filter _ g !! id) as [e'|] eqn:E; [|done]. injection Hg as <-.
  apply map_lookup_filter_Some. split; [done|]. cbn. unfold Time_After. lia.
Qed.

(** The guard forgets an id exactly two minutes after it accepted it, which is
    no longer than an event created a minute ahead stays valid: a request that
    is verified in the last instant and reaches the guard a nanosecond later is
    accepted a second time. *)
Lemma guard_no_margin id t :
  id <> ""%string -> is_clock t ->
  let '(b1, g) := guard_First_id id t ∅ in
  b1 = true /\ fst (guard_First_id id (t + nip98Window + 1) g) = true.
Proof.
  intros Hid Hc. apply is_empty_false in Hid. unfold guard_First_id. rewrite Hid.
  destruct (filter _ (∅ : gmap string Z) !! id) as [e|] eqn:E.
  { apply map_lookup_filter_Some in E as [E _]. done. }
  split; [done|].
  destruct (filter _ (<[id := _]> _) !! id) as [e|] eqn:E2; [|done].
  apply map_lookup_filter_Some in E2 as [E2 Ha]. rewrite lookup_insert_eq in E2. injection E2 as <-.
  cbn in Ha. rewrite Time_Add_exact in Ha by (done || (unfold is_int64, min_int64, max_int64, two63, nip98Window, Minute, Second; lia)).
  unfold Time_After in Ha. lia.
Qed.

(** [ServeOnce] looks the event up before the handler and records it after, so
    two copies of a request that both arrive before either is answered both
    reach the handler; only the second record finds the event used. *)
Lemma ServeOnce_concurrent base64_Decode event_id auth t1 t2 t3 (g : ReplayGuard) :
  let id := nip98EventID base64_Decode event_id auth in
  id <> ""%string -> auth <> ""%string -> g !! id = None ->
  ServeOnce_enter base64_Decode event_id auth t1 g = false /\
  ServeOnce_enter base64_Decode event_id auth t2 g = false /\
  is_Some (ServeOnce_leave base64_Decode event_id auth 200 t3 g !! id).
Proof.
  intros id Hid Hne Hg. unfold ServeOnce_enter, guard_Used. fold id. rewrite Hg.
  split_and!; [by destruct (negb _), (is_empty id)|by destruct (negb _), (is_empty id)|].
  unfold ServeOnce_leave, guard_First. fold id. apply is_empty_false in Hne, Hid. rewrite Hne. cbn [negb andb Z.ltb Z.compare Pos.compare Pos.compare_cont].
  unfold guard_First_id. rewrite Hid. destruct (filter _ g !! id) eqn:E; cbn [snd].
  - by rewrite E.
  - by rewrite lookup_insert_eq.
Qed.
