(* ===== verification/AdminServerFacts.v ===== *)
(** * The admin listener: who is let through

    An invariant of all interleavings of requests: a thread's [pc] records what
    the request has passed, the sessions come from logins, and the logins from
    accepted events.  [ginv] is the part about the shared state, [thread_ok]
    the part about one thread, monotone in the growing records ([grows]).
    Instances at the end: a listener, requests and the witnesses. *)
From S2P Require Import Prelude GoTime GoStrings GoNet AdminAuth AdminAuthFacts.
From S2P Require Import AdminTokens AdminConfig AdminServer.
From stdpp Require Import options.

Local Open Scope Z_scope.

Section Invariant.
Context `{NL : Nip98Laws} (cfg : Settings) (api : request -> bool) (sha256 : string -> string).

Abbreviation exec := (exec cfg api sha256).
Abbreviation rt := (route_of cfg api).

(** The request passed the gate's checks of its host and address. *)
Definition passed (r : request) : Prop := gate cfg r = None.

Definition verified_as (s : server) (r : request) (pk : string) : Prop :=
  exists v, v ∈ sr_verified s /\ vf_req v = r /\ vf_pk v = pk.

Definition right_route (lg : bool) (r : request) : Prop :=
  if lg then rt r = RLogin else admin_route (rt r) = true /\ HasPrefix (rq_Authorization r) "Nostr " = true.

Definition section_ok (s : server) (r : request) (c : section) : Prop :=
  match c with
  | CFirst lg pk => right_route lg r /\ verified_as s r pk
  | CCreate pk => rt r = RLogin /\ verified_as s r pk /\ auth_id r ∈ sr_accepted s
  | CGet adm => adm ∈ sr_adminlists s /\ is_Some (rq_Cookie r) /\ se_Dashboard cfg = true /\
      admin_route (rt r) = true
  | _ => True
  end.

(** A thread that has read the clock for the replay guard was verified before. *)
Definition section_at (s : server) (r : request) (c : section) (now : Z) : Prop :=
  match c with
  | CFirst _ _ => exists v, v ∈ sr_verified s /\ vf_req v = r /\ vf_at v <= now
  | _ => True
  end.

Definition thread_ok (s : server) (t : thread) : Prop :=
  let r := t_req t in
  match t_pc t with
  | PGate | PDone _ => True
  | PRoute => passed r
  | PVerify lg => passed r /\ right_route lg r
  | PNow c => passed r /\ section_ok s r c
  | PAt c now => passed r /\ section_ok s r c /\ now <= sr_clock s /\ 0 <= now /\ section_at s r c now
  | PServe _ => passed r
  end.

(** A request in the hands of an admin handler. *)
Definition authorized (s : server) (x : served) : Prop :=
  let r := sv_req x in
  passed r /\ admin_route (rt r) = true /\
  match sv_via x with
  | ViaEvent id => id = auth_id r /\ id ∈ sr_accepted s /\ verified_as s r (sv_pk x)
  | ViaSession id now adm =>
      rq_Cookie r = Some id /\ se_Dashboard cfg = true /\
      sv_pk x ∈ adm /\ adm ∈ sr_adminlists s /\
      (exists lg, lg ∈ sr_logins s /\ lg_id lg = id /\ se_pubkey (lg_session lg) = sv_pk x /\
         now <= se_expires (lg_session lg) /\
         (is_get r = true \/ (rq_CSRF r <> ""%string /\ rq_CSRF r = se_csrf (lg_session lg)))) /\
      now <= sr_clock s
  end.

Record ginv (s : server) : Prop := {
  g_clock : 0 <= sr_clock s <= 2 ^ 62 * Second;
  g_admins : sr_admins s ∈ sr_adminlists s;
  g_verified : forall v, v ∈ sr_verified s ->
    Verify (vf_req v) (vf_adm v) (vf_at v) = Some (vf_pk v) /\ vf_adm v ∈ sr_adminlists s /\ 0 <= vf_at v <= sr_clock s;
  g_sessions : forall id x, ss_byID (sr_sessions s) !! id = Some x ->
    exists lg, lg ∈ sr_logins s /\ lg_id lg = id /\ lg_session lg = x;
  g_logins : forall lg, lg ∈ sr_logins s ->
    passed (lg_req lg) /\ rt (lg_req lg) = RLogin /\ auth_id (lg_req lg) ∈ sr_accepted s /\
    verified_as s (lg_req lg) (se_pubkey (lg_session lg));
  g_served : forall x, x ∈ sr_served s -> authorized s x;
  g_size : (size (ss_byID (sr_sessions s)) <= maxSessions)%nat /\ Z.of_nat (size (sr_limiter s)) <= maxFailedAddr;
}.

Definition inv (s : server) : Prop := ginv s /\ Forall (thread_ok s) (sr_threads s).

(** The records only grow. *)
Record grows (s s' : server) : Prop := {
  gr_clock : sr_clock s <= sr_clock s';
  gr_admins : forall x, x ∈ sr_adminlists s -> x ∈ sr_adminlists s';
  gr_verified : forall x, x ∈ sr_verified s -> x ∈ sr_verified s';
  gr_accepted : forall x, x ∈ sr_accepted s -> x ∈ sr_accepted s';
  gr_logins : forall x, x ∈ sr_logins s -> x ∈ sr_logins s';
}.

#[local] Hint Resolve gr_admins gr_verified gr_accepted gr_logins : ncli.

Lemma grows_refl s : grows s s.
Proof using. by split. Qed.

Lemma verified_as_mono s s' r pk : grows s s' -> verified_as s r pk -> verified_as s' r pk.
Proof using. intros Hg (v & Hv & ?). exists v. eauto with ncli. Qed.

Lemma section_ok_mono s s' r c : grows s s' -> section_ok s r c -> section_ok s' r c.
Proof using.
  intros Hg. destruct c; cbn; try done.
  - intros [? ?]. split; [done|by eapply verified_as_mono].
  - intros (? & ? & ?). split_and!; [done|by eapply verified_as_mono|eauto with ncli].
  - intros (? & ? & ?). eauto with ncli.
Qed.

Lemma thread_ok_mono s s' t : grows s s' -> thread_ok s t -> thread_ok s' t.
Proof using.
  intros Hg. unfold thread_ok. destruct (t_pc t) as [| | |c|c now| |]; try done.
  - intros [? ?]. split; [done|by eapply section_ok_mono].
  - intros (? & ? & ? & ? & Hat). split_and!; [done|by eapply section_ok_mono|pose proof (gr_clock _ _ Hg); lia|done|].
    destruct c; try done. destruct Hat as (v & ? & ?). exists v. eauto with ncli.
Qed.

Lemma authorized_mono s s' x : grows s s' -> authorized s x -> authorized s' x.
Proof using.
  intros Hg (? & ? & Hv). split_and!; [done..|]. destruct (sv_via x).
  - destruct Hv as (? & ? & ?). split_and!; [done|eauto with ncli|by eapply verified_as_mono].
  - destruct Hv as (? & ? & ? & ? & (lg & ? & ?) & ?). split_and!; [done..|eauto with ncli| |].
    + exists lg. eauto with ncli.
    + pose proof (gr_clock _ _ Hg). lia.
Qed.

Lemma ginv_threads s ts : ginv s -> ginv (set_threads ts s).
Proof using. intros []. by split. Qed.

(** A step that changes one thread's [pc] and the shared state. *)
Lemma inv_set_pc s s1 k p t :
  inv s -> sr_threads s !! k = Some t -> sr_threads s1 = sr_threads s -> grows s s1 -> ginv s1 ->
  thread_ok s1 (mkThread (t_req t) p) -> inv (set_pc k p s1).
Proof using.
  intros [Hgi HF] Hk Hth Hgr Hg1 Ht. split; [by apply ginv_threads|].
  change (Forall (thread_ok s1) (alter (fun t => mkThread (t_req t) p) k (sr_threads s1))).
  rewrite Hth. apply Forall_alter.
  - eapply Forall_impl; [exact HF|]. intros x. by apply thread_ok_mono.
  - intros x Hx _. by simplify_eq.
Qed.

Lemma inv_same s k p t :
  inv s -> sr_threads s !! k = Some t -> thread_ok s (mkThread (t_req t) p) -> inv (set_pc k p s).
Proof using. intros Hi Hk Ht. eapply inv_set_pc; [done..|apply grows_refl|apply Hi|done]. Qed.

(** Replacing the sessions by fewer ones. *)
Lemma ginv_sessions s ss : ginv s -> ss_byID ss ⊆ ss_byID (sr_sessions s) -> ginv (set_sessions ss s).
Proof using.
  intros [] Hsub. split; try done.
  - cbn. intros id x Hx. eapply g_sessions0, lookup_weaken; done.
  - cbn. split; [|naive_solver]. etrans; [by apply map_subseteq_size|naive_solver].
Qed.

Lemma ginv_limiter s l : ginv s -> Z.of_nat (size l) <= maxFailedAddr -> ginv (set_limiter l s).
Proof using. intros [] Hl. split; try done. split; [naive_solver|done]. Qed.

Lemma ginv_tokens s t : ginv s -> ginv (set_tokens t s).
Proof using. intros []. by split. Qed.

Lemma ginv_scrape s c : ginv s -> ginv (set_scrape c s).
Proof using. intros []. by split. Qed.

Lemma ginv_replay s g : ginv s -> ginv (set_replay g s).
Proof using. intros []. by split. Qed.

Lemma dispatch_ok s r : ginv s -> passed r -> thread_ok s (mkThread r (dispatch cfg api s r)).
Proof using sha256.
  intros Hg Hp. unfold dispatch. pose proof (g_admins _ Hg).
  assert (admin_route (rt r) = true -> thread_ok s (mkThread r (requireAdmin cfg s r))) as Hreq.
  { intros Hr. unfold requireAdmin. destruct (HasPrefix _ _) eqn:E; [done|].
    destruct (rq_Cookie r) eqn:Ec; [|done]. destruct (se_Dashboard cfg) eqn:Ed; [|done].
    cbn. rewrite Ec. repeat split; eauto. }
  destruct (rt r) eqn:E; try done; try (by apply Hreq).
  unfold serveMetrics. by destruct (CutPrefix _ _).
Qed.

Lemma verifyNIP98_inv s k lg t :
  inv s -> sr_threads s !! k = Some t -> t_pc t = PVerify lg -> inv (verifyNIP98 k lg (t_req t) s).
Proof using sha256.
  intros Hi Hk Hpc. pose proof Hi as [Hg HF].
  pose proof (Forall_lookup_1 _ _ _ _ HF Hk) as Ht. unfold thread_ok in Ht. rewrite Hpc in Ht. destruct Ht as [Hp Hr].
  unfold verifyNIP98. destruct (read_body _); [|by eapply inv_same].
  destruct (Verify _ _ _) as [pk|] eqn:Ev; [|by eapply inv_same].
  set (s1 := set_verified _ s). assert (grows s s1) as Hgr by (split; try done; cbn; by right).
  eapply inv_set_pc; [exact Hi|done|done|exact Hgr| |].
  - destruct Hg. split; try done.
    + intros v [->|Hv]%elem_of_cons; [|naive_solver]. cbn. naive_solver lia.
    + intros lg' Hl. destruct (g_logins0 _ Hl) as (? & ? & ? & ?). split_and!; try done. by eapply verified_as_mono.
    + intros x Hx. eapply authorized_mono; [done|naive_solver].
  - split; [done|]. split; [done|]. eexists. split; [by left|done].
Qed.

Lemma serve_inv s s0 k t pk v :
  inv s0 -> sr_threads s0 !! k = Some t -> sr_threads s = sr_threads s0 -> grows s0 s -> ginv s ->
  authorized s (mkServed (t_req t) pk v) -> inv (serve k (t_req t) pk v s).
Proof using sha256.
  intros Hi Hk Hth Hgr Hg Ha. pose proof Ha as (Hp & _). unfold serve.
  eapply inv_set_pc; [exact Hi|done|exact Hth| | |done].
  - by destruct Hgr.
  - destruct Hg. split; try done. intros x [->|Hx]%elem_of_cons; [done|naive_solver].
Qed.

Lemma act_First_inv s k t lg pk now :
  inv s -> sr_threads s !! k = Some t -> t_pc t = PAt (CFirst lg pk) now ->
  inv (act_First k (t_req t) lg pk now s).
Proof using sha256.
  intros Hi Hk Hpc. pose proof Hi as [Hg HF].
  pose proof (Forall_lookup_1 _ _ _ _ HF Hk) as Ht. unfold thread_ok in Ht. rewrite Hpc in Ht.
  destruct Ht as (Hp & (Hr & Hv) & _). unfold act_First.
  destruct (guard_First _ _ _ _ _) as [first g]. destruct first.
  - set (s1 := set_accepted _ _).
    assert (grows s s1) as Hgr by (split; try done; cbn; by right).
    assert (ginv s1) as Hg1.
    { destruct Hg. split; try done.
      - intros lg' Hl. destruct (g_logins0 _ Hl) as (? & ? & ? & ?). split_and!; try done. by right.
      - intros x Hx. eapply authorized_mono; [done|naive_solver]. }
    destruct lg.
    + eapply inv_set_pc; [exact Hi|done|done|done|done|]. split; [done|].
      split; [done|]. split; [by eapply verified_as_mono|by left].
    + eapply serve_inv; [exact Hi|done|done|done|done|]. destruct Hr as [Hr _].
      split_and!; [done|done|]. cbn. split; [done|]. split; [by left|by eapply verified_as_mono].
  - eapply inv_set_pc; [exact Hi|done|done| |by apply ginv_replay|done]. by split.
Qed.

Lemma act_Create_inv s k t pk now e :
  inv s -> sr_threads s !! k = Some t -> t_pc t = PAt (CCreate pk) now ->
  inv (act_Create k (t_req t) pk now e s).
Proof using sha256.
  intros Hi Hk Hpc. pose proof Hi as [Hg HF].
  pose proof (Forall_lookup_1 _ _ _ _ HF Hk) as Ht. unfold thread_ok in Ht. rewrite Hpc in Ht.
  destruct Ht as (Hp & (Hr & Hv & Ha) & _). unfold act_Create.
  destruct (sessions_create _ _ _ _ _ _) as [sess ss] eqn:E.
  pose proof (sessions_create_size pk now (en_id e) (en_csrf e) (en_ord e) (sr_sessions s) (proj1 (g_size _ Hg))) as Hsz.
  pose proof (sessions_create_sub pk now (en_id e) (en_csrf e) (en_ord e) (sr_sessions s)) as Hsub.
  assert (se_pubkey sess = pk) as Hpk by (unfold sessions_create in E; by injection E as <- _).
  rewrite E in Hsz, Hsub. cbn [fst snd] in *.
  set (s1 := set_logins _ _). assert (grows s s1) as Hgr by (split; try done; cbn; by right).
  eapply inv_set_pc; [exact Hi|done|done|done| |done].
  destruct Hg. split; try done.
  - intros id x Hx. apply Hsub in Hx as [[-> ->]|[_ Hx]]; [eexists; split; [by left|done]|].
    destruct (g_sessions0 _ _ Hx) as (lg & ? & ?). exists lg. split; [by right|done].
  - intros lg [->|Hl]%elem_of_cons; cbn.
    + by rewrite Hpk.
    + destruct (g_logins0 _ Hl) as (? & ? & ? & ?). split_and!; try done.
  - intros x Hx. eapply authorized_mono; [done|naive_solver].
  - split; [done|naive_solver].
Qed.

Lemma act_Get_inv s k t adm now :
  inv s -> sr_threads s !! k = Some t -> t_pc t = PAt (CGet adm) now -> inv (act_Get k (t_req t) adm now s).
Proof using sha256.
  intros Hi Hk Hpc. pose proof Hi as [Hg HF].
  pose proof (Forall_lookup_1 _ _ _ _ HF Hk) as Ht. unfold thread_ok in Ht. rewrite Hpc in Ht.
  destruct Ht as (Hp & (Hadm & [c Hid] & Hd & Hr) & Hnow & _). unfold act_Get. rewrite Hid. cbn [from_option id].
  pose proof (sessions_get_sub c adm now (sr_sessions s)) as Hsub.
  destruct (sessions_get c adm now (sr_sessions s)) as [found ss] eqn:E. cbn [snd] in Hsub.
  pose proof (ginv_sessions s ss Hg Hsub) as Hg1.
  assert (grows s (set_sessions ss s)) as Hgr by by split.
  destruct found as [sess|]; [|eapply inv_set_pc; done].
  destruct (needs_csrf (t_req t) && _) eqn:Ec; [eapply inv_set_pc; done|].
  apply sessions_get_Some in E as (Hs & Hexp & Hpk & _).
  destruct (g_sessions _ Hg _ _ Hs) as (lg & Hlg & Hlid & <-).
  eapply serve_inv; [exact Hi|done..|]. split; [done|]. split; [done|]. cbn. split_and!; try done.
  exists lg. split_and!; try done. unfold needs_csrf, csrfMatches in Ec.
  apply andb_false_iff in Ec as [Ec|Ec]; apply negb_false_iff in Ec; [by left|right].
  apply andb_true_iff in Ec as [?%negb_true_iff%is_empty_false ?%String.eqb_eq]. done.
Qed.

Lemma act_inv s k t c now e :
  inv s -> sr_threads s !! k = Some t -> t_pc t = PAt c now -> inv (act cfg sha256 k (t_req t) c now e s).
Proof using sha256.
  intros Hi Hk Hpc. pose proof Hi as [Hg HF].
  pose proof (Forall_lookup_1 _ _ _ _ HF Hk) as Ht. unfold thread_ok in Ht. rewrite Hpc in Ht.
  destruct Ht as (Hp & Hc & _). destruct c; cbn [act].
  - pose proof (limiter_blocked_sub (clientIP (t_req t)) now (sr_limiter s)) as Hsub.
    destruct (limiter_blocked _ _ _) as [b l]. cbn [snd] in Hsub. apply map_subseteq_size in Hsub.
    eapply inv_set_pc; [exact Hi|done|done|by split|apply ginv_limiter; [done|pose proof (g_size _ Hg); lia]|].
    by destruct b.
  - by apply act_First_inv.
  - by apply act_Create_inv.
  - by apply act_Get_inv.
  - unfold act_Info. pose proof (sessions_get_sub (default ""%string (rq_Cookie (t_req t))) adm now (sr_sessions s)) as Hsub.
    destruct (sessions_get _ _ _ _) as [found ss]. cbn [snd] in Hsub.
    eapply inv_set_pc; [exact Hi|done|done|by split|by apply ginv_sessions|]. by destruct found.
  - unfold act_Token. destruct (sr_tokens s); [|by eapply inv_same]. destruct (valid _ _ _ _ _ _ _) as [ok t'].
    eapply inv_set_pc; [exact Hi|done|done|by split|by apply ginv_tokens|]. by destruct ok.
  - unfold act_Render. destruct (renderMetrics _ _ _ _) as [body c].
    eapply inv_set_pc; [exact Hi|done|done|by split|by apply ginv_scrape|done].
  - eapply inv_set_pc; [exact Hi|done|done|by split| |done].
    apply ginv_limiter; [done|apply limiter_fail_size, (g_size _ Hg)].
Qed.

Lemma handler_inv s k t status pk :
  inv s -> sr_threads s !! k = Some t -> t_pc t = PServe pk -> inv (handler cfg api k (t_req t) status s).
Proof using sha256.
  intros Hi Hk Hpc. pose proof Hi as [Hg HF].
  pose proof (Forall_lookup_1 _ _ _ _ HF Hk) as Ht. unfold thread_ok in Ht. rewrite Hpc in Ht.
  unfold handler. destruct (route_of _ _ _); try by eapply inv_same.
  - destruct (rq_Cookie _); by eapply inv_same.
  - destruct (rq_Cookie _); [|by eapply inv_same].
    eapply inv_set_pc; [exact Hi|done|done|by split|apply ginv_sessions; [done|apply sessions_remove_sub]|done].
Qed.

Lemma exec_inv s a s' : inv s -> exec a s = Some s' -> inv s'.
Proof using sha256.
  intros Hi. pose proof Hi as [Hg HF]. destruct a as [r|t|adm|k e status]; cbn [AdminServer.exec].
  - intros [= <-]. split; [by apply ginv_threads|]. apply Forall_app. split; [done|]. by repeat constructor.
  - case_match eqn:E; [|done]. intros [= <-]. propify. assert (grows s (set_clock t s)) as Hgr by by split.
    split; [|eapply Forall_impl; [exact HF|]; intros x; by apply thread_ok_mono].
    destruct Hg. split; try done; [cbn in *; lia| |].
    + intros v Hv. destruct (g_verified0 _ Hv) as (? & ? & ?). split_and!; try done; cbn in *; lia.
    + intros x Hx. eapply authorized_mono; [done|naive_solver].
  - intros [= <-]. set (s1 := set_adminlists _ _). assert (grows s s1) as Hgr by (split; try done; cbn; by right).
    split; [|eapply Forall_impl; [exact HF|]; intros x; by apply thread_ok_mono].
    destruct Hg. split; try done; [by left| |].
    + intros v Hv. destruct (g_verified0 _ Hv) as (? & ? & ?). split; [done|]. split; [by right|done].
    + intros x Hx. eapply authorized_mono; [done|naive_solver].
  - destruct (sr_threads s !! k) as [t|] eqn:Hk; [|done]. cbn [mbind option_bind]. unfold step_thread.
    pose proof (Forall_lookup_1 _ _ _ _ HF Hk) as Ht. unfold thread_ok in Ht.
    destruct (t_pc t) as [| | |c|c now| |] eqn:Hpc; try done; intros [= <-].
    + eapply inv_same; [done|done|]. unfold thread_ok. cbn. destruct (gate cfg (t_req t)) eqn:E; [done|]. by split.
    + eapply inv_same; [done|done|]. by apply dispatch_ok.
    + by apply verifyNIP98_inv.
    + eapply inv_same; [done|done|]. destruct Ht as [Hp Hc]. unfold thread_ok. cbn. pose proof (g_clock _ Hg).
      split_and!; try (done || lia). destruct c; try done. destruct Hc as (_ & v & Hv & Hr & _).
      exists v. split_and!; try done. destruct (g_verified _ Hg _ Hv) as (_ & _ & ?). lia.
    + by apply act_inv.
    + by eapply handler_inv.
Qed.

Lemma server_start_inv tokens admins clock : 0 <= clock <= 2 ^ 62 * Second -> inv (start cfg tokens admins clock).
Proof using sha256.
  intros Hc. split; [|constructor]. split; try (by intros ? ?%elem_of_nil); [done|by left|done|].
  split; [|done]. change (size (∅ : gmap string session) <= maxSessions)%nat.
  rewrite map_size_empty. unfold maxSessions. lia.
Qed.

Lemma server_run_inv P tokens admins clock s :
  0 <= clock <= 2 ^ 62 * Second -> run cfg api sha256 P (start cfg tokens admins clock) s -> inv s.
Proof using sha256. intros Hc. induction 1; [by apply server_start_inv|by eapply exec_inv]. Qed.

(** ** Every accepted event is used once *)

(** The event of a login that is accepted and about to create its session. *)
Definition pend (t : thread) : list string :=
  match t_pc t with
  | PNow (CCreate _) | PAt (CCreate _) _ => [auth_id (t_req t)]
  | _ => []
  end.

Definition event_of (x : served) : option string :=
  match sv_via x with ViaEvent id => Some id | ViaSession _ _ _ => None end.

(** The events that authenticated a request or a login. *)
Definition spent (s : server) : list string :=
  (omap event_of (sr_served s) ++ ((fun lg => auth_id (lg_req lg)) <$> sr_logins s))%list.

Definition used (s : server) : list string := (spent s ++ (sr_threads s ≫= pend))%list.

Lemma pend_split ts k t : ts !! k = Some t -> (ts ≫= pend) ≡ₚ (pend t ++ (delete k ts ≫= pend))%list.
Proof using. intros Hk. rewrite (delete_Permutation ts k t Hk) at 1. done. Qed.

Lemma used_set_pc s k t p :
  sr_threads s !! k = Some t -> (used (set_pc k p s) ++ pend t ≡ₚ used s ++ pend (mkThread (t_req t) p))%list.
Proof using.
  intros Hk. unfold used. change (spent (set_pc k p s)) with (spent s).
  change (sr_threads (set_pc k p s)) with (alter (fun t => mkThread (t_req t) p) k (sr_threads s)).
  assert (alter (fun t => mkThread (t_req t) p) k (sr_threads s) !! k = Some (mkThread (t_req t) p)) as Hk'
    by by rewrite list_lookup_alter_eq, Hk.
  rewrite (pend_split _ _ _ Hk'), (pend_split _ _ _ Hk).
  assert (delete k (alter (fun t => mkThread (t_req t) p) k (sr_threads s)) = delete k (sr_threads s)) as ->.
  { clear. generalize (sr_threads s) as ts. revert k. induction k as [|k IH]; intros [|t ts]; try done.
    cbn. f_equal. apply IH. }
  solve_Permutation.
Qed.

(** A step of a thread that neither begins nor ends such a login. *)
Lemma used_idle s k t p :
  sr_threads s !! k = Some t -> pend t = [] -> pend (mkThread (t_req t) p) = [] -> used (set_pc k p s) ≡ₚ used s.
Proof using. intros Hk Hp Hp'. pose proof (used_set_pc s k t p Hk) as H'. by rewrite Hp, Hp', !app_nil_r in H'. Qed.

Definition balanced (s : server) : Prop := used s ≡ₚ sr_accepted s.

Lemma used_same s k t p :
  sr_threads s !! k = Some t -> pend (mkThread (t_req t) p) = pend t -> used (set_pc k p s) ≡ₚ used s.
Proof using.
  intros Hk Hp. pose proof (used_set_pc s k t p Hk) as H'. rewrite Hp in H'. by apply Permutation_app_inv_r in H'.
Qed.

Lemma dispatch_pend s r : pend (mkThread r (dispatch cfg api s r)) = [].
Proof using. unfold dispatch, requireAdmin, serveMetrics. by repeat case_match. Qed.

Lemma act_balanced s k t c now e :
  sr_threads s !! k = Some t -> t_pc t = PAt c now -> balanced s -> balanced (act cfg sha256 k (t_req t) c now e s).
Proof using.
  intros Hk Hpc Hb. unfold balanced in *.
  destruct c; cbn [act].
  - destruct (limiter_blocked _ _ _) as [b l]. rewrite <- Hb. apply (used_idle (set_limiter l s) k t); [done| |by destruct b].
    unfold pend. by rewrite Hpc.
  - unfold act_First. destruct (guard_First _ _ _ _ _) as [first g].
    assert (pend t = []) as Hpt by (unfold pend; by rewrite Hpc).
    destruct first; [destruct login|].
    + set (s1 := set_accepted _ _). pose proof (used_set_pc s1 k t (PNow (CCreate pk)) Hk) as H1.
      rewrite Hpt, app_nil_r in H1. rewrite H1. change (used s1) with (used s). rewrite Hb.
      change (sr_accepted (set_pc _ _ s1)) with (auth_id (t_req t) :: sr_accepted s). cbn. solve_Permutation.
    + unfold serve. set (s1 := set_served _ _). rewrite (used_idle s1 k t) by done.
      change (used s1) with (auth_id (t_req t) :: used s). by rewrite Hb.
    + rewrite <- Hb. apply (used_idle (set_replay g s) k t); done.
  - unfold act_Create. destruct (sessions_create _ _ _ _ _ _) as [sess ss]. set (s1 := set_logins _ _).
    pose proof (used_set_pc s1 k t (PDone 200) Hk) as H1. rewrite app_nil_r in H1.
    assert (pend t = [auth_id (t_req t)]) as Hpt by (unfold pend; by rewrite Hpc). rewrite Hpt in H1.
    assert (used s1 ≡ₚ auth_id (t_req t) :: used s) as H2.
    { unfold used, spent. change (sr_logins s1) with (mkLogin (en_id e) sess (t_req t) :: sr_logins s).
      rewrite fmap_cons. cbn [lg_req]. change (sr_served s1) with (sr_served s). change (sr_threads s1) with (sr_threads s).
      solve_Permutation. }
    rewrite H2, Hb in H1. change (sr_accepted (set_pc _ _ s1)) with (sr_accepted s).
    rewrite Permutation_app_comm in H1. by apply Permutation_cons_inv in H1.
  - assert (pend t = []) as Hpt by (unfold pend; by rewrite Hpc).
    unfold act_Get. destruct (sessions_get _ _ _ _) as [found ss].
    destruct found as [sess|]; [case_match|];
      (etrans; [by apply (used_idle (set_sessions ss s) k t)|exact Hb]).
  - unfold act_Info. destruct (sessions_get _ _ _ _) as [found ss].
    etrans; [apply (used_idle (set_sessions ss s) k t)|exact Hb]; [done|unfold pend; by rewrite Hpc|by destruct found].
  - assert (pend t = []) as Hpt by (unfold pend; by rewrite Hpc). unfold act_Token.
    destruct (sr_tokens s); [|etrans; [by apply (used_idle s k t)|exact Hb]]. destruct (valid _ _ _ _ _ _ _) as [ok t'].
    etrans; [apply (used_idle (set_tokens (Some t') s) k t)|exact Hb]; [done..|by destruct ok].
  - unfold act_Render. destruct (renderMetrics _ _ _ _) as [body c].
    etrans; [apply (used_idle (set_scrape c s) k t)|exact Hb]; [done|unfold pend; by rewrite Hpc|done].
  - etrans; [apply (used_idle (set_limiter _ s) k t)|exact Hb]; [done|unfold pend; by rewrite Hpc|done].
Qed.

Lemma exec_balanced s a s' : balanced s -> exec a s = Some s' -> balanced s'.
Proof using.
  unfold balanced. intros Hb. destruct a as [r|t|adm|k e status]; cbn [AdminServer.exec].
  - intros [= <-]. unfold used in *. cbn. rewrite bind_app. cbn. by rewrite app_nil_r.
  - case_match; [|done]. by intros [= <-].
  - by intros [= <-].
  - destruct (sr_threads s !! k) as [t|] eqn:Hk; [|done]. cbn [mbind option_bind]. unfold step_thread.
    destruct (t_pc t) as [| | |c|c now| |] eqn:Hpc; try done; intros [= <-]; try (by eapply act_balanced);
      try (assert (pend t = []) as Hp by (unfold pend; by rewrite Hpc)).
    + rewrite (used_idle s k t); [done..|by destruct (gate _ _)].
    + rewrite (used_idle s k t); [done..|apply dispatch_pend].
    + unfold verifyNIP98.
      destruct (read_body _); [|by rewrite (used_idle s k t)].
      destruct (Verify _ _ _); [|by rewrite (used_idle s k t)]. set (w := set_verified _ s).
      etrans; [by apply (used_idle w k t)|exact Hb].
    + rewrite (used_same s k t); [done..|]. unfold pend. by rewrite Hpc.
    + unfold handler.
      destruct (route_of _ _ _); try by rewrite (used_idle s k t).
      * destruct (rq_Cookie _); by rewrite (used_idle s k t).
      * destruct (rq_Cookie _); [|by rewrite (used_idle s k t)]. set (w := set_sessions _ s).
        etrans; [by apply (used_idle w k t)|exact Hb].
Qed.

(** ** No event is accepted twice *)

(** The guard remembers an accepted event as long as it can be verified. *)
Definition remembered (s : server) : Prop :=
  NoDup (sr_accepted s) /\
  forall id, id ∈ sr_accepted s -> sr_clock s <= created id + verifyWindow ->
    exists e, sr_replay s !! id = Some e /\ created id + verifyWindow <= e.

Lemma remembered_same s s' :
  remembered s -> sr_accepted s' = sr_accepted s -> sr_replay s' = sr_replay s -> sr_clock s <= sr_clock s' ->
  remembered s'.
Proof using. intros [Hn Hr] Ha Hg Hc. unfold remembered. rewrite Ha, Hg. split; [done|]. intros id Hid Hle. apply Hr; [done|lia]. Qed.

Lemma act_First_remembered s k t lg pk now :
  inv s -> sr_threads s !! k = Some t -> t_pc t = PAt (CFirst lg pk) now ->
  sr_clock s <= created (auth_id (t_req t)) + verifyWindow ->
  remembered s -> remembered (act_First k (t_req t) lg pk now s).
Proof using NL sha256.
  intros [Hg HF] Hk Hpc Hprompt [Hn Hr].
  pose proof (Forall_lookup_1 _ _ _ _ HF Hk) as Ht. unfold thread_ok in Ht. rewrite Hpc in Ht.
  destruct Ht as (_ & _ & Hnow & H0 & (v & Hv & Hvr & Hvt)).
  destruct (g_verified _ Hg _ Hv) as (HV & _ & _). apply Verify_window in HV. rewrite Hvr in HV.
  pose proof (g_clock _ Hg) as Hclk. assert (is_clock now) as Hcl by (unfold is_clock; lia).
  unfold act_First, guard_First. change (nip98EventID _ _ _) with (auth_id (t_req t)).
  destruct (guard_First_id (auth_id (t_req t)) now (sr_replay s)) as [first g] eqn:E. destruct first.
  - destruct (guard_First_true _ _ _ _ E Hcl) as [Hnew Hold].
    set (s1 := set_accepted _ _).
    assert (remembered s1) as Hs1.
    { split.
      - apply NoDup_cons. split; [|done]. intros Hin.
        destruct (Hr _ Hin Hprompt) as (e & He & Hle). destruct (Hold _ _ He ltac:(lia)) as [Hne _]. done.
      - intros id [->|Hid]%elem_of_cons Hle; cbn [sr_replay s1].
        + eexists. split; [exact Hnew|]. unfold nip98Window, verifyWindow, Minute, Second in *. lia.
        + destruct (Hr id Hid Hle) as (e & He & Hge). exists e. split; [|done].
          cbn in Hle. by apply (Hold _ _ He); lia. }
    destruct lg; by eapply remembered_same.
  - split; [done|]. intros id Hid Hle. destruct (Hr id Hid Hle) as (e & He & Hge). exists e. split; [|done].
    cbn in *. eapply guard_First_false; [exact E|done|lia].
Qed.

Lemma act_remembered s k t c now e :
  inv s -> sr_threads s !! k = Some t -> t_pc t = PAt c now ->
  (forall lg pk, c = CFirst lg pk -> sr_clock s <= created (auth_id (t_req t)) + verifyWindow) ->
  remembered s -> remembered (act cfg sha256 k (t_req t) c now e s).
Proof using NL.
  intros Hi Hk Hpc Hpr Hm. destruct c; cbn [act]; try (by eapply act_First_remembered; eauto).
  - destruct (limiter_blocked _ _ _). by eapply remembered_same.
  - unfold act_Create. destruct (sessions_create _ _ _ _ _ _). by eapply remembered_same.
  - unfold act_Get. destruct (sessions_get _ _ _ _) as [[]]; [case_match|]; by eapply remembered_same.
  - unfold act_Info. destruct (sessions_get _ _ _ _). by eapply remembered_same.
  - unfold act_Token. destruct (sr_tokens s); [destruct (valid _ _ _ _ _ _ _)|]; by eapply remembered_same.
  - unfold act_Render. destruct (renderMetrics _ _ _ _). by eapply remembered_same.
  - by eapply remembered_same.
Qed.

Lemma exec_remembered s a s' : inv s -> prompt s a -> exec a s = Some s' -> remembered s -> remembered s'.
Proof using NL.
  intros Hi Hpr. destruct a as [r|t|adm|k e status]; cbn [AdminServer.exec].
  - intros [= <-]. intros. by eapply remembered_same.
  - case_match eqn:E; [|done]. intros [= <-] Hm. propify. by eapply remembered_same.
  - intros [= <-]. intros. by eapply remembered_same.
  - unfold prompt in Hpr. destruct (sr_threads s !! k) as [t|] eqn:Hk; [|done]. cbn [mbind option_bind]. unfold step_thread.
    destruct (t_pc t) as [| | |c|c now| |] eqn:Hpc; try done; intros [= <-] Hm; try (by eapply remembered_same).
    + unfold verifyNIP98. destruct (read_body _); [destruct (Verify _ _ _)|]; by eapply remembered_same.
    + eapply act_remembered; [done..| |done]. intros lg pk ->. done.
    + unfold handler. destruct (route_of _ _ _); try (by eapply remembered_same);
        destruct (rq_Cookie _); by eapply remembered_same.
Qed.

(** ** The guarantee *)

(** [pk] was an admin when it signed [r], which passed the gate. *)
Definition signed_by (s : server) (r : request) (pk : string) : Prop :=
  gate cfg r = None /\ auth_id r ∈ sr_accepted s /\
  exists adm t, Verify r adm t = Some pk /\ pk ∈ adm /\ adm ∈ sr_adminlists s /\ t <= sr_clock s.

(** A request was handed to an admin handler for good reason: by a signed
    event of its own, or by a session. *)
Definition justified (s : server) (x : served) : Prop :=
  let r := sv_req x in
  gate cfg r = None /\ admin_route (rt r) = true /\
  match sv_via x with
  | ViaEvent id => id = auth_id r /\ signed_by s r (sv_pk x)
  | ViaSession id now adm =>
      rq_Cookie r = Some id /\ se_Dashboard cfg = true /\ now <= sr_clock s /\
      sv_pk x ∈ adm /\ adm ∈ sr_adminlists s /\
      exists lg, lg ∈ sr_logins s /\ lg_id lg = id /\ rt (lg_req lg) = RLogin /\
        se_pubkey (lg_session lg) = sv_pk x /\ signed_by s (lg_req lg) (sv_pk x) /\
        now <= se_expires (lg_session lg) /\
        (is_get r = true \/ (rq_CSRF r <> ""%string /\ rq_CSRF r = se_csrf (lg_session lg)))
  end.

Lemma verified_signed s r pk :
  ginv s -> gate cfg r = None -> auth_id r ∈ sr_accepted s -> verified_as s r pk -> signed_by s r pk.
Proof using NL.
  intros Hg Hp Ha (v & Hv & Hr & Hpk). destruct (g_verified _ Hg _ Hv) as (HV & Hadm & Ht). rewrite Hr, Hpk in HV.
  split_and!; [done|done|]. exists (vf_adm v), (vf_at v). split_and!; [done|by eapply Verify_admin|done|lia].
Qed.

Lemma inv_justified s x : ginv s -> x ∈ sr_served s -> justified s x.
Proof using NL.
  intros Hg Hx. destruct (g_served _ Hg _ Hx) as (Hp & Hr & Hv). split_and!; [done..|]. destruct (sv_via x).
  - destruct Hv as (-> & Ha & Hv). split; [done|by apply verified_signed].
  - destruct Hv as (Hc & Hd & Hpk & Hadm & (lg & Hlg & Hid & Hlpk & Hexp & Hcs) & Hnow).
    destruct (g_logins _ Hg _ Hlg) as (Hlp & Hlr & Hla & Hlv). rewrite Hlpk in Hlv.
    split_and!; [done..|]. exists lg. split_and!; try done. by apply verified_signed.
Qed.

(** C4: in every interleaving of requests, changes of the admin list and of
    the clock, a request reaches an admin handler only after its host and
    address were accepted, and either its own NIP-98 event was verified for a
    key that was an admin then, or it carries the cookie of an unexpired session
    that a verified login of that key created, the key still being an admin,
    and the session's CSRF token unless it is a GET or HEAD.  Every accepted
    event authenticates at most one request or login; and provided every request
    enters the replay guard while its event is still valid, no event id is
    accepted twice ([late_request_replayed] otherwise).  At most 64 sessions and 10,000 addresses are held. *)
Theorem admin_authorized P tokens admins clock s :
  0 <= clock <= 2 ^ 62 * Second ->
  run cfg api sha256 P (start cfg tokens admins clock) s ->
  (forall x, x ∈ sr_served s -> justified s x) /\
  (exists rest, sr_accepted s ≡ₚ (spent s ++ rest)%list) /\
  ((forall s a, P s a -> prompt s a) -> NoDup (sr_accepted s) /\ NoDup (spent s)) /\
  (size (ss_byID (sr_sessions s)) <= 64)%nat /\ Z.of_nat (size (sr_limiter s)) <= 10000.
Proof using NL.
  intros Hclk Hrun.
  assert (inv s) as Hi by by eapply server_run_inv.
  assert (balanced s) as Hb by (clear Hi; induction Hrun; [apply perm_nil|by eapply exec_balanced]).
  assert ((forall s a, P s a -> prompt s a) -> remembered s) as Hrem.
  { intros HP. clear Hi Hb. induction Hrun as [|s a s' Hrun IH Ha He].
    - split; [constructor|]. by intros ? ?%elem_of_nil.
    - eapply exec_remembered; [by eapply server_run_inv|by apply HP|done|done]. }
  destruct Hi as [Hg _]. unfold balanced in Hb. split_and!.
  - intros x Hx. by apply inv_justified.
  - eexists. symmetry. exact Hb.
  - intros HP. destruct (Hrem HP) as [Hn _]. split; [done|]. rewrite <- Hb in Hn. unfold used in Hn. by apply NoDup_app in Hn as [? _].
  - apply (g_size _ Hg).
  - apply (g_size _ Hg).
Qed.
End Invariant.

(** * The admin listener on concrete requests

    A verifier for the examples, a run in which an admin logs in, reads through
    the session and posts with a signed event, and what happens to replays. *)

(** The header is the event's id, which is its date in seconds; everything is
    signed by alice. *)
Definition toy_id (header : string) : string := nip98EventID Some Some header.
Definition toy_created (id : string) : Z := default 0 (Atoi id) * Second.

Definition toy_Verify (r : request) (adm : list string) (t : Z) : option string :=
  let c := toy_created (toy_id (rq_Authorization r)) in
  if bool_decide ("alice"%string ∈ adm) && (c - verifyWindow <=? t) && (t <=? c + verifyWindow)
  then Some "alice"%string else None.

#[export] Instance toy_nip98 : Nip98 := {|
  Verify := toy_Verify; base64_Decode := Some; event_id := Some; created := toy_created |}.

#[export] Instance toy_nip98_laws : Nip98Laws.
Proof.
  split; intros r adm t pk; cbn [Verify toy_nip98]; unfold toy_Verify; case_match eqn:E; try done; propify.
  - by intros [= <-].
  - intros _. unfold auth_id. cbn [base64_Decode event_id created toy_nip98].
    fold (toy_id (rq_Authorization r)). lia.
Qed.

Definition example_settings : Settings :=
  mkSettings "127.0.0.1:7448" true true None [] {["127.0.0.1:7448"%string]} [] true (15 * Minute) false "" (5 * Second).

Definition example_request (method path auth : string) (cookie : option string) : request :=
  mkRequest method path "127.0.0.1:7448" "127.0.0.1:50000" auth cookie "" (Some ""%string).

(** Actions one after the other, each prompt. *)
Definition promptb `{Nip98} (s : server) (a : action) : bool :=
  match a with
  | AStep k _ _ =>
      match sr_threads s !! k with
      | Some t => match t_pc t with
                  | PAt (CFirst _ _) _ => sr_clock s <=? created (auth_id (t_req t)) + verifyWindow
                  | _ => true
                  end
      | None => true
      end
  | _ => true
  end.

Section Runs.
Context `{Nip98} (cfg : Settings) (api : request -> bool) (sha256 : string -> string).

Fixpoint exec_list (ok : server -> action -> bool) (l : list action) (s : server) : option server :=
  match l with
  | [] => Some s
  | a :: l => if ok s a then s' ← exec cfg api sha256 a s; exec_list ok l s' else None
  end.

Lemma exec_list_run (P : server -> action -> Prop) ok l s0 s s' :
  (forall s a, ok s a = true -> P s a) -> run cfg api sha256 P s0 s -> exec_list ok l s = Some s' ->
  run cfg api sha256 P s0 s'.
Proof.
  intros Hok. revert s. induction l as [|a l IH]; intros s Hr; cbn [exec_list]; [by intros [= <-]|].
  destruct (ok s a) eqn:E; [|done]. destruct (exec cfg api sha256 a s) as [s1|] eqn:Es; [|done].
  cbn [mbind option_bind]. apply IH. by eapply run_step; [|apply Hok|].
Qed.
End Runs.

Lemma promptb_true s a : promptb s a = true -> prompt s a.
Proof. unfold promptb, prompt. destruct a; try done. repeat case_match; try done. intros ?%Z.leb_le. done. Qed.

Definition no_env : env := mkEnv "" "" [] None None.
Definition steps (k n : nat) (e : env) : list action := replicate n (AStep k e 200).

Definition example_run : list action :=
  (ARequest (example_request "POST" "/admin/api/login" "Nostr 100" None) ::
   steps 0 9 (mkEnv "sid" "csrf" [] None None) ++
   ARequest (example_request "GET" "/admin/api/jobs" "" (Some "sid"%string)) ::
   steps 1 6 no_env ++
   AClock (105 * Second) ::
   ARequest (example_request "POST" "/admin/api/jobs" "Nostr 101" None) ::
   steps 2 7 no_env ++
   ARequest (example_request "POST" "/admin/api/jobs" "Nostr 101" None) ::
   steps 3 9 no_env)%list.

Definition example_api (r : request) : bool := String.eqb (rq_Path r) "/admin/api/jobs".

Definition example_start : server := start example_settings None ["alice"%string] (100 * Second).

(** The login's session serves the read, the second event the post, and its
    copy is refused. *)
Lemma admin_authorized_witness :
  exists s, run example_settings example_api (fun x => x) prompt example_start s /\
    sv_pk <$> sr_served s = ["alice"; "alice"]%string /\ t_pc <$> sr_threads s =
      [PDone 200; PServe "alice"; PServe "alice"; PDone 401] /\
    (forall x, x ∈ sr_served s -> justified example_settings example_api s x) /\ NoDup (sr_accepted s).
Proof.
  destruct (exec_list example_settings example_api (fun x => x) promptb example_run example_start) as [s|] eqn:E;
    [|vm_compute in E; done].
  pose proof (exec_list_run example_settings example_api (fun x => x) prompt promptb example_run
    example_start example_start s promptb_true (run_start _ _ _ _ _) E) as Hrun.
  destruct (admin_authorized example_settings example_api (fun x => x) prompt None ["alice"%string] (100 * Second) s)
    as (Hj & _ & Hn & _); [unfold Second; lia|exact Hrun|].
  exists s. split; [exact Hrun|]. vm_compute in E. injection E as <-.
  split; [reflexivity|]. split; [reflexivity|]. split; [exact Hj|]. apply Hn. done.
Defined.

(** A login verified in the last instant that reaches the guard just after it:
    the same event is accepted a second time. *)
Definition late_run : list action :=
  (AClock (40 * Second) ::
   ARequest (example_request "POST" "/admin/api/jobs" "Nostr 100" None) :: steps 0 7 no_env ++
   AClock (160 * Second) ::
   ARequest (example_request "POST" "/admin/api/jobs" "Nostr 100" None) :: steps 1 5 no_env ++
   AClock (160 * Second + 1) :: steps 1 2 no_env)%list.

Lemma late_request_replayed :
  exists s, exec_list example_settings example_api (fun x => x) (fun _ _ => true) late_run
      (start example_settings None ["alice"%string] (40 * Second)) = Some s /\
    sr_accepted s = ["100"; "100"]%string /\ length (sr_served s) = 2%nat.
Proof. eexists. split; [vm_compute; reflexivity|]. split; vm_compute; reflexivity. Qed.
