(* ===== verification/ClientFollow.v ===== *)
(** * Following a relay: the delivered state, paging and the stream

    Models [src/client/follow.go] (the state a follow keeps, and the loop over
    one subscription's messages) and [src/client/followpage.go] (asking for the
    stored events a relay's cap left out).  The relay, the connection, the
    caller's [Emit] and the clock are arguments; counts of events and bytes are
    far below the range of [int] and are not wrapped. *)
From S2P Require Import Prelude GoTime GoFloat GoStrings Nostr.
From stdpp Require Import options.
From Stdlib Require Import Ascii.

Local Open Scope Z_scope.

(** ** What was delivered *)

Definition maxSeen : nat := 5000.
Definition maxSeenOnly : nat := 5000.

Record FollowState := mkState {
  fs_path : string;
  fs_seen : gset string;
  fs_order : list string;
  fs_only : gset string;
  fs_onlyOrder : list string;
  fs_since : gmap string Z;
  fs_dirty : bool;
}.

Record followStateFile := mkStateFile {
  ff_Seen : list string;
  ff_SeenOnly : list string;
  ff_Since : gmap string Z;
}.

Class StateCodec := {
  state_Marshal : followStateFile -> string;
  state_Unmarshal : string -> option followStateFile;
}.

(** Drop the oldest id when there are too many. *)
Definition bounded_add (max : nat) (id : string) (seen : gset string) (order : list string)
    : gset string * list string :=
  let seen := {[id]} ∪ seen in
  let order := (order ++ [id])%list in
  if (max <? length order)%nat
  then match order with
       | oldest :: order => (seen ∖ {[oldest]}, order)
       | [] => (seen, [])
       end
  else (seen, order).

Definition state_add (id : string) (s : FollowState) : FollowState :=
  if bool_decide (id ∈ fs_seen s) then s else
  let '(seen, order) := bounded_add maxSeen id (fs_seen s) (fs_order s) in
  mkState (fs_path s) seen order (fs_only s) (fs_onlyOrder s) (fs_since s) (fs_dirty s).

Definition known (id : string) (s : FollowState) : bool :=
  bool_decide (id ∈ fs_seen s) || bool_decide (id ∈ fs_only s).

Definition state_addOnly (id : string) (s : FollowState) : FollowState :=
  if known id s then s else
  let '(only, order) := bounded_add maxSeenOnly id (fs_only s) (fs_onlyOrder s) in
  mkState (fs_path s) (fs_seen s) (fs_order s) only order (fs_since s) (fs_dirty s).

Definition with_since (m : gmap string Z) (s : FollowState) : FollowState :=
  mkState (fs_path s) (fs_seen s) (fs_order s) (fs_only s) (fs_onlyOrder s) m (fs_dirty s).

Definition with_dirty (b : bool) (s : FollowState) : FollowState :=
  mkState (fs_path s) (fs_seen s) (fs_order s) (fs_only s) (fs_onlyOrder s) (fs_since s) b.

Definition since_of (relay : string) (s : FollowState) : Z := default 0 (fs_since s !! relay).

(** [Mark]; [now] is the clock in seconds. *)
Definition Mark (id relay : string) (createdAt now : Z) (s : FollowState) : bool * FollowState :=
  if known id s then (false, s) else
  let s := state_add id s in
  let createdAt := if now <? createdAt then now else createdAt in
  let s := if since_of relay s <? createdAt then with_since (<[relay := createdAt]> (fs_since s)) s else s in
  (true, with_dirty true s).

Definition MarkSeen (id : string) (s : FollowState) : bool * FollowState :=
  if known id s then (false, s) else (true, with_dirty true (state_addOnly id s)).

Definition emptyState (path : string) : FollowState := mkState path ∅ [] ∅ [] ∅ false.

Section Files.
Context `{StateCodec}.

(** The state of a parsed file. *)
Definition state_of_file (path : string) (now : Z) (f : followStateFile) : FollowState :=
  let s := fold_left (fun s id => state_add id s) (ff_Seen f) (emptyState path) in
  let s := fold_left (fun s id => state_addOnly id s) (ff_SeenOnly f) s in
  let kept := filter (fun kv => kv.2 <= now) (ff_Since f) in
  with_dirty (negb (bool_decide (kept = ff_Since f))) (with_since kept s).

(** [LoadFollowState]: [file] is [None] when there is none; a file that cannot
    be read is an error of its own ([Err None]). *)
Definition LoadFollowState (path : string) (now : Z) (readable : bool) (file : option string)
    : result (option string) FollowState :=
  if is_empty path then Ok (emptyState path)
  else if negb readable then Err None
  else match file with
       | None => Ok (emptyState path)
       | Some raw =>
           match state_Unmarshal raw with
           | None => Err (Some path)
           | Some f => Ok (state_of_file path now f)
           end
       end.

(** [Save], before and after its [write], which runs without the mutex. *)
Definition Save_begin (s : FollowState) : option followStateFile * FollowState :=
  if is_empty (fs_path s) || negb (fs_dirty s) then (None, s)
  else (Some (mkStateFile (fs_order s) (fs_onlyOrder s) (fs_since s)), with_dirty false s).

Definition Save_end (written : bool) (s : FollowState) : FollowState :=
  if written then s else with_dirty true s.

(** [write]: the temporary file is renamed or nothing changes. *)
Definition write (f : followStateFile) (fault : bool) (file : option string) : option string :=
  if fault then file else Some (state_Marshal f).

Definition Save (fault : bool) (s : FollowState) (file : option string) : bool * FollowState * option string :=
  match Save_begin s with
  | (None, s) => (true, s, file)
  | (Some f, s) => (negb fault, Save_end (negb fault) s, write f fault file)
  end.

End Files.

(** [int64(d.Seconds())] *)
Definition whole_seconds (d : Z) : Z :=
  int64_of_float (float64_add (float64_of (Z.quot d Second))
    (float64_div (float64_of (Z.rem d Second)) (float64_of 1000000000))).

(** [Resume] *)
Definition Resume (overlap : Z) (s : FollowState) : Z :=
  let newest := foldr Z.max 0 ((map_to_list (fs_since s)).*2) in
  if newest =? 0 then 0 else
  let r := newest - whole_seconds overlap in
  if 0 <? r then r else 0.

(** ** Paging *)

(** [nip01.SubscriptionFilter]: what the follow reads and changes of it; the
    other conditions are text. *)
Record Filter := mkFilter {
  fl_Since : Z;
  fl_Until : Z;
  fl_Limit : Z;
  fl_Rest : string;
}.

Definition followPageMin : Z := 50.
Definition followPages : Z := 100.
Definition followPageBytes : Z := 33554432.

Record followPager := mkPager {
  pg_base : list Filter;
  pg_ok : bool;
  pg_since : Z;
  pg_stored : bool;
  pg_sub : string;
  pg_until : Z;
  pg_n : Z;
  pg_fresh : Z;
  pg_minAt : Z;
  pg_ids : gset string;
  pg_pages : Z;
  pg_bytes : Z;
  pg_cut : string;
}.

Fixpoint lowest_since (fs : list Filter) (first : bool) (since : Z) : Z :=
  match fs with
  | [] => since
  | f :: fs => if first || (fl_Since f <? since) then lowest_since fs false (fl_Since f) else lowest_since fs false since
  end.

Definition newFollowPager (filters : list Filter) : followPager :=
  mkPager filters (forallb (fun f => (fl_Limit f =? 0) && (fl_Until f =? 0)) filters)
    (lowest_since filters true 0) false "" 0 0 0 0 ∅ 0 0 "".

Definition pager_restart (p : followPager) : followPager :=
  mkPager (pg_base p) (pg_ok p) (pg_since p) true "" 0 0 0 0 ∅ 0 0 "".

Definition pager_stop (p : followPager) : followPager :=
  mkPager (pg_base p) false (pg_since p) (pg_stored p) "" (pg_until p) (pg_n p) (pg_fresh p) (pg_minAt p)
    (pg_ids p) (pg_pages p) (pg_bytes p) (pg_cut p).

Definition pager_live (p : followPager) : followPager :=
  mkPager (pg_base p) (pg_ok p) (pg_since p) false (pg_sub p) (pg_until p) (pg_n p) (pg_fresh p) (pg_minAt p)
    (pg_ids p) (pg_pages p) (pg_bytes p) (pg_cut p).

Definition event_bytes (ev : Event) : Z :=
  256 + Z.of_nat (String.length (ev_Content ev)) +
  foldr Z.add 0 ((fun v => Z.of_nat (String.length v) + 4) <$> concat (ev_Tags ev)).

Definition pager_saw (ev : Event) (p : followPager) : followPager :=
  let new := negb (bool_decide (ev_ID ev ∈ pg_ids p)) in
  mkPager (pg_base p) (pg_ok p) (pg_since p) (pg_stored p) (pg_sub p) (pg_until p)
    (pg_n p + 1) (if new then pg_fresh p + 1 else pg_fresh p)
    (if (pg_minAt p =? 0) || (ev_CreatedAt ev <? pg_minAt p) then ev_CreatedAt ev else pg_minAt p)
    ({[ev_ID ev]} ∪ pg_ids p) (pg_pages p) (pg_bytes p + event_bytes ev) (pg_cut p).

Definition cut_text (until : Z) : string :=
  "stored events past " ++ Itoa followPages ++ " pages or " ++ Itoa (Z.shiftr followPageBytes 20) ++
  " MiB: the older ones before " ++ Itoa until ++ " weren't read".

(** The fields that [next] sets: the page in flight and, when it gives up, why. *)
Definition pager_done (p : followPager) : followPager :=
  mkPager (pg_base p) (pg_ok p) (pg_since p) (pg_stored p) "" (pg_until p) (pg_n p) (pg_fresh p) (pg_minAt p)
    (pg_ids p) (pg_pages p) (pg_bytes p) (pg_cut p).

Definition pager_cutoff (until : Z) (p : followPager) : followPager :=
  mkPager (pg_base p) false (pg_since p) (pg_stored p) "" (pg_until p) (pg_n p) (pg_fresh p) (pg_minAt p)
    (pg_ids p) (pg_pages p) (pg_bytes p) (cut_text until).

Definition pager_turn (uuid : string) (until : Z) (p : followPager) : followPager :=
  mkPager (pg_base p) (pg_ok p) (pg_since p) (pg_stored p) ("page-" ++ uuid) until 0 0 0
    (pg_ids p) (pg_pages p + 1) (pg_bytes p) (pg_cut p).

(** [next]; [uuid] is the new page's. *)
Definition pager_next (uuid : string) (p : followPager) : option Z * followPager :=
  if negb (pg_ok p) || (pg_n p <? followPageMin) || (pg_fresh p =? 0) then (None, pager_done p) else
  let until := if negb (pg_until p =? 0) && (pg_until p <=? pg_minAt p) then pg_until p - 1 else pg_minAt p in
  if (until =? 0) || (until <? pg_since p) then (None, pager_done p)
  else if (followPages <=? pg_pages p) || (followPageBytes <=? pg_bytes p) then (None, pager_cutoff until p)
  else (Some until, pager_turn uuid until p).

Definition pager_filters (until : Z) (p : followPager) : list Filter :=
  (fun f => mkFilter (fl_Since f) until (fl_Limit f) (fl_Rest f)) <$> pg_base p.

(** ** The stream *)

(** How the caller's [Emit] ends: nil, [ErrSkip], [ErrSeenOnly], another
    error. *)
Inductive emitted := EmOk | EmSkip | EmSeenOnly | EmErr.

(** A message, after [sess.observe] passed it on. *)
Inductive message :=
| MEvent (sub : string) (ev : option Event)
| MEOSE (sub : string)
| MClosed (sub : string) (text : string)
| MOther.

Inductive output :=
| OSubscribe (sub : string) (filters : list Filter)
| OClose (sub : string)
| OWarn (text : string)
| OEmit (ev : Event) (r : emitted).

Inductive stop :=
| StopClosed                       (* relayclient.ErrConnectionClosed *)
| StopLogin (detail : string)      (* a *LoginError *)
| StopEmit                         (* errEmit *)
| StopRefused (text : string)
| StopError (text : string).       (* the connection's, or the context's *)

(** What the surroundings do while a message is handled: the clock in seconds,
    a fresh uuid, the outcome of [Emit], whether sending a request succeeds and
    the error of [awaitLogin], if any. *)
Record around := mkAround {
  ar_now : Z;
  ar_uuid : string;
  ar_emit : emitted;
  ar_send : bool;
  ar_login : option stop;
}.

Record stream := mkStream {
  sm_relay : string;
  sm_subID : string;
  sm_filters : list Filter;      (* of the follower *)
  sm_overlap : Z;
  sm_pager : followPager;
  sm_retried : bool;
  sm_state : FollowState;
}.

Definition with_pager (p : followPager) (s : stream) : stream :=
  mkStream (sm_relay s) (sm_subID s) (sm_filters s) (sm_overlap s) p (sm_retried s) (sm_state s).
Definition with_state (f : FollowState) (s : stream) : stream :=
  mkStream (sm_relay s) (sm_subID s) (sm_filters s) (sm_overlap s) (sm_pager s) (sm_retried s) f.
Definition with_retried (s : stream) : stream :=
  mkStream (sm_relay s) (sm_subID s) (sm_filters s) (sm_overlap s) (sm_pager s) true (sm_state s).

(** [resumeFilters] *)
Definition resumeFilters (relay : string) (overlap : Z) (filters : list Filter) (f : FollowState) : list Filter :=
  let last := since_of relay f in
  if last =? 0 then filters else
  let since := Z.max 0 (last - whole_seconds overlap) in
  (fun c => if wrap64 (fl_Since c) <? since then mkFilter since (fl_Until c) (fl_Limit c) (fl_Rest c) else c) <$> filters.

(** [subscribe]: the stream, what it sends and whether it could. *)
Definition subscribe (a : around) (s : stream) : stream * list output * option stop :=
  let filters := resumeFilters (sm_relay s) (sm_overlap s) (sm_filters s) (sm_state s) in
  (with_pager (pager_restart (newFollowPager filters)) s, [OSubscribe (sm_subID s) filters],
   if ar_send a then None else Some StopClosed).

(** [page] *)
Definition page (a : around) (s : stream) : stream * list output * option stop :=
  match pager_next (ar_uuid a) (sm_pager s) with
  | (Some until, p) =>
      (with_pager p s, [OSubscribe (pg_sub p) (pager_filters until p)], if ar_send a then None else Some StopClosed)
  | (None, p) =>
      (with_pager p s, if is_empty (pg_cut p) then [] else [OWarn (pg_cut p)], None)
  end.

(** [emit] *)
Definition emit (a : around) (ev : Event) (s : stream) : stream * list output * option stop :=
  let f := sm_state s in
  if known (ev_ID ev) f then (s, [], None) else
  match ar_emit a with
  | EmSkip => (s, [OEmit ev EmSkip], None)
  | EmSeenOnly => (with_state (MarkSeen (ev_ID ev) f).2 s, [OEmit ev EmSeenOnly], None)
  | EmErr => (s, [OEmit ev EmErr], Some StopEmit)
  | EmOk => (with_state (Mark (ev_ID ev) (sm_relay s) (wrap64 (ev_CreatedAt ev)) (ar_now a) f).2 s,
             [OEmit ev EmOk], None)
  end.

Definition refusedForLogin (text : string) : bool := HasPrefix text "auth-required:".
Definition restrictedPrefix : string := "restricted:".

Section Stream.
Context {N : Nmilat}.

(** One message of the [select] loop. *)
Definition stream_step (a : around) (m : message) (s : stream) : stream * list output * option stop :=
  let p := sm_pager s in
  match m with
  | MEvent sub (Some ev) =>
      if negb (String.eqb sub (sm_subID s)) && negb (String.eqb sub (pg_sub p)) then (s, [], None)
      else if negb (VerifyWithoutPow ev) then (s, [], None)
      else emit a ev (if String.eqb sub (pg_sub p) || pg_stored p then with_pager (pager_saw ev p) s else s)
  | MEvent _ None => (s, [], None)
  | MEOSE sub =>
      if String.eqb sub (sm_subID s) && pg_stored p then page a (with_pager (pager_live p) s)
      else if String.eqb sub (pg_sub p) && negb (is_empty (pg_sub p)) then
        let '(s, out, e) := page a s in (s, OClose sub :: out, e)
      else (s, [], None)
  | MClosed sub text =>
      if String.eqb sub (pg_sub p) && negb (is_empty (pg_sub p)) then
        (with_pager (pager_stop p) s, [OWarn ("relay closed a page of stored events: " ++ text)], None)
      else if negb (String.eqb sub (sm_subID s)) then (s, [], None)
      else if refusedForLogin text && negb (sm_retried s) then
        match ar_login a with
        | None => subscribe a (with_retried s)
        | Some e => (s, [], Some e)
        end
      else if refusedForLogin text || HasPrefix text restrictedPrefix then (s, [], Some (StopLogin text))
      else (s, [], Some (StopRefused text))
  | MOther => (s, [], None)
  end.

(** Messages one after the other, until one ends the stream. *)
Fixpoint stream_run (l : list (around * message)) (s : stream) : stream * list output * option stop :=
  match l with
  | [] => (s, [], None)
  | (a, m) :: l =>
      match stream_step a m s with
      | (s, out, None) => let '(s, out', e) := stream_run l s in (s, (out ++ out')%list, e)
      | (s, out, Some e) => (s, out, Some e)
      end
  end.

End Stream.
