(* ===== verification/ClientFollowFacts.v ===== *)
(** * Following a relay: nothing twice

    The ids a follow remembers are the last ones delivered ([order_is_last]),
    which gives [follow_once]; what is saved is loaded back
    ([state_roundtrip]). *)
From S2P Require Import Prelude GoTime GoStrings Nostr ClientFollow.
From stdpp Require Import options.

Local Open Scope Z_scope.

(** ** The remembered ids *)

(** A list of ids and the set of them, at most [max]. *)
Definition in_order (max : nat) (seen : gset string) (order : list string) : Prop :=
  NoDup order /\ seen = list_to_set order /\ (length order <= max)%nat.

Definition last_n {A} (n : nat) (l : list A) : list A := drop (length l - n) l.

Lemma last_n_all {A} n (l : list A) : (length l <= n)%nat -> last_n n l = l.
Proof. intros H. unfold last_n. by replace (length l - n)%nat with 0%nat by lia. Qed.

Lemma last_n_snoc {A} n (l : list A) x : (0 < n)%nat -> last_n n (last_n n l ++ [x]) = last_n n (l ++ [x]).
Proof.
  intros Hn. unfold last_n. rewrite !length_app, length_drop. cbn [length].
  destruct (decide (length l <= n)%nat) as [Hl|Hl].
  - replace (length l - n)%nat with 0%nat by lia. rewrite drop_0. f_equal. lia.
  - rewrite !drop_app_le by (rewrite ?length_drop; lia). rewrite drop_drop. do 2 f_equal. lia.
Qed.

Lemma bounded_add_spec max id seen order :
  (0 < max)%nat -> in_order max seen order -> (id ∉ seen) ->
  let '(seen', order') := bounded_add max id seen order in
  in_order max seen' order' /\ order' = last_n max (order ++ [id]) /\ seen' ⊆ {[id]} ∪ seen.
Proof.
  intros Hm (Hn & -> & Hl) Hid. rewrite elem_of_list_to_set in Hid. unfold bounded_add.
  assert (NoDup (order ++ [id])) as Hn'.
  { apply NoDup_app. split; [done|]. split; [|apply NoDup_singleton]. intros x Hx ->%list_elem_of_singleton. done. }
  destruct (Nat.ltb_spec max (length (order ++ [id]))) as [Hlt|Hge].
  - rewrite length_app in Hlt. cbn in Hlt. destruct order as [|o order]; [cbn in *; lia|]. cbn [app].
    cbn [app] in Hn'. apply NoDup_cons in Hn' as [Ho Hn']. cbn [length] in *.
    unfold in_order. split_and!; [done|by set_solver| rewrite length_app; cbn; lia| |set_solver].
    unfold last_n. cbn [length]. rewrite length_app. cbn [length].
    replace (S (length order + 1) - max)%nat with 1%nat by lia. done.
  - unfold in_order. split_and!; [done|set_solver|done|by rewrite last_n_all|done].
Qed.

Record wf (s : FollowState) : Prop := {
  wf_seen : in_order maxSeen (fs_seen s) (fs_order s);
  wf_only : in_order maxSeenOnly (fs_only s) (fs_onlyOrder s);
  wf_disjoint : fs_seen s ## fs_only s;
}.

Lemma known_false id s : known id s = false <-> (id ∉ fs_seen s) /\ (id ∉ fs_only s).
Proof. unfold known. rewrite orb_false_iff, !bool_decide_eq_false. done. Qed.

Lemma state_add_wf id s :
  wf s -> known id s = false -> wf (state_add id s) /\ fs_order (state_add id s) = last_n maxSeen (fs_order s ++ [id]).
Proof.
  intros [Hs Ho Hd] [H1 H2]%known_false. unfold state_add. rewrite bool_decide_eq_false_2 by done.
  pose proof (bounded_add_spec maxSeen id _ _ ltac:(unfold maxSeen; lia) Hs H1) as Hb.
  destruct (bounded_add maxSeen id (fs_seen s) (fs_order s)) as [seen order]. destruct Hb as (Hio & -> & Hsub).
  split; [|done]. split; cbn; [done|done|]. set_solver.
Qed.

Lemma state_addOnly_wf id s : wf s -> wf (state_addOnly id s) /\ fs_order (state_addOnly id s) = fs_order s.
Proof.
  intros Hw. pose proof Hw as [Hs Ho Hd]. unfold state_addOnly. destruct (known id s) eqn:E; [done|].
  apply known_false in E as [H1 H2].
  pose proof (bounded_add_spec maxSeenOnly id _ _ ltac:(unfold maxSeenOnly; lia) Ho H2) as Hb.
  destruct (bounded_add maxSeenOnly id (fs_only s) (fs_onlyOrder s)) as [only order]. destruct Hb as (Hio & _ & Hsub).
  split; [|done]. split; cbn; [done|done|]. set_solver.
Qed.

(** ** Deliveries *)

(** One [emit] of some follower of the state: its relay, the surroundings and
    the event. *)
Record attempt := mkAttempt { at_relay : string; at_around : around; at_event : Event }.

Definition emit_state (t : attempt) (f : FollowState) : FollowState * list string :=
  if known (ev_ID (at_event t)) f then (f, []) else
  match ar_emit (at_around t) with
  | EmOk => ((Mark (ev_ID (at_event t)) (at_relay t) (wrap64 (ev_CreatedAt (at_event t))) (ar_now (at_around t)) f).2,
             [ev_ID (at_event t)])
  | EmSeenOnly => ((MarkSeen (ev_ID (at_event t)) f).2, [])
  | EmSkip | EmErr => (f, [])
  end.

(** It is what [emit] of a stream does to the state, and the ids are those it
    reports as delivered. *)
Definition delivered (out : list output) : list string :=
  omap (fun o => match o with OEmit ev EmOk => Some (ev_ID ev) | _ => None end) out.

Lemma emit_is_emit_state a ev s :
  let '(s', out, _) := emit a ev s in
  emit_state (mkAttempt (sm_relay s) a ev) (sm_state s) = (sm_state s', delivered out).
Proof.
  unfold emit, emit_state. cbn [at_event at_around at_relay]. destruct (known _ _); [done|]. by destruct (ar_emit a).
Qed.

Fixpoint emit_all (ts : list attempt) (f : FollowState) : FollowState * list string :=
  match ts with
  | [] => (f, [])
  | t :: ts => let '(f, d) := emit_state t f in let '(f, d') := emit_all ts f in (f, (d ++ d')%list)
  end.

Lemma Mark_wf id relay c now s :
  wf s -> known id s = false ->
  wf (Mark id relay c now s).2 /\ fs_order (Mark id relay c now s).2 = last_n maxSeen (fs_order s ++ [id]).
Proof.
  intros Hw Hk. unfold Mark. rewrite Hk. destruct (state_add_wf id s Hw Hk) as [Hw' Ho]. cbn [snd].
  set (c' := if now <? c then now else c). case_match; (split; [by destruct Hw'|done]).
Qed.

Lemma MarkSeen_wf id s : wf s -> wf (MarkSeen id s).2 /\ fs_order (MarkSeen id s).2 = fs_order s.
Proof.
  intros Hw. unfold MarkSeen. destruct (known id s); [done|]. destruct (state_addOnly_wf id s Hw) as [Hw' Ho].
  split; [by destruct Hw'|done].
Qed.

Lemma emit_state_spec t f : wf f ->
  let '(f', d) := emit_state t f in
  wf f' /\ fs_order f' = last_n maxSeen (fs_order f ++ d) /\ (forall id, id ∈ d -> id ∉ fs_order f) /\ (length d <= 1)%nat.
Proof.
  intros Hw. assert (fs_order f = last_n maxSeen (fs_order f ++ [])) as Hid.
  { rewrite app_nil_r, last_n_all; [done|apply Hw]. }
  assert (forall id : string, id ∈ @nil string -> id ∉ fs_order f) as Hnil by by intros ? ?%elem_of_nil.
  unfold emit_state. destruct (known _ f) eqn:E; [split_and!; done || (cbn; lia)|].
  destruct (ar_emit (at_around t)); try (split_and!; done || (cbn; lia)).
  - destruct (Mark_wf (ev_ID (at_event t)) (at_relay t) (wrap64 (ev_CreatedAt (at_event t))) (ar_now (at_around t)) f Hw E) as [Hw' Ho].
    split_and!; [done|done| |cbn; lia]. intros id ->%list_elem_of_singleton Hin. apply known_false in E as [E _].
    destruct (wf_seen _ Hw) as (_ & Hs & _). apply E. rewrite Hs. by apply elem_of_list_to_set.
  - destruct (MarkSeen_wf (ev_ID (at_event t)) f Hw) as [Hw' Ho]. split_and!; [done|by rewrite Ho|done|cbn; lia].
Qed.

Lemma last_n_app {A} n (l k : list A) : (0 < n)%nat -> last_n n (last_n n l ++ k) = last_n n (l ++ k).
Proof.
  intros Hn. revert l. induction k as [|x k IH]; intros l.
  - rewrite !app_nil_r. unfold last_n. rewrite length_drop, drop_drop. f_equal. lia.
  - change (x :: k) with ([x] ++ k). rewrite !(assoc_L (++)). rewrite <- IH, last_n_snoc by done. apply IH.
Qed.

(** The remembered ids are the last 5,000 of all those delivered, and nothing
    remembered is delivered. *)
Lemma order_is_last ts f : wf f ->
  let '(f', d) := emit_all ts f in
  wf f' /\ fs_order f' = last_n maxSeen (fs_order f ++ d) /\
  forall j id, d !! j = Some id -> id ∉ last_n maxSeen (fs_order f ++ take j d).
Proof.
  revert f. induction ts as [|t ts IH]; intros f Hw; cbn [emit_all].
  - split_and!; [done|rewrite app_nil_r, last_n_all; [done|apply Hw]|done].
  - pose proof (emit_state_spec t f Hw) as Ht. destruct (emit_state t f) as [f1 d1]. destruct Ht as (Hw1 & Ho1 & Hn1 & Hl1).
    specialize (IH f1 Hw1). destruct (emit_all ts f1) as [f2 d2]. destruct IH as (Hw2 & Ho2 & Hn2).
    rewrite Ho1, last_n_app in Ho2 by (unfold maxSeen; lia).
    split_and!; [done|by rewrite (assoc_L (++))|].
    intros j id [Hj|[Hge Hj]]%lookup_app_Some.
    + assert (j = 0%nat) as -> by (apply lookup_lt_Some in Hj; lia). rewrite take_0, app_nil_r, last_n_all by apply Hw.
      apply Hn1. by eapply list_elem_of_lookup_2.
    + rewrite take_app_ge, (assoc_L (++)) by done. specialize (Hn2 _ _ Hj).
      by rewrite Ho1, last_n_app in Hn2 by (unfold maxSeen; lia).
Qed.

Lemma elem_of_last_n {A} n (l : list A) i x : l !! i = Some x -> (length l <= i + n)%nat -> x ∈ last_n n l.
Proof.
  intros Hi Hl. apply (list_elem_of_lookup_2 _ (i - (length l - n))%nat). unfold last_n. rewrite lookup_drop.
  rewrite <- Hi. f_equal. apply lookup_lt_Some in Hi. lia.
Qed.

Lemma Mark_since id relay c now s r :
  since_of r s <= since_of r (Mark id relay c now s).2 /\
  (since_of r (Mark id relay c now s).2 <= Z.max (since_of r s) now) /\
  (r <> relay -> since_of r (Mark id relay c now s).2 = since_of r s).
Proof.
  unfold Mark. destruct (known id s); cbn [snd]; [split_and!; try done; lia|].
  set (c' := if now <? c then now else c). assert (c' <= now) as Hc by (subst c'; destruct (Z.ltb_spec now c); lia).
  assert (forall k, since_of k (state_add id s) = since_of k s) as Ha.
  { intros k. unfold state_add. case_match; [done|]. by destruct (bounded_add _ _ _ _). }
  destruct (Z.ltb_spec (since_of relay (state_add id s)) c') as [Hlt|]; cbn [snd].
  - change (since_of r (with_dirty true ?x)) with (since_of r x).
    unfold since_of at 2 3 5. cbn [fs_since with_since]. destruct (decide (r = relay)) as [->|Hne].
    + rewrite lookup_insert_eq. cbn. rewrite Ha in Hlt. split_and!; lia || done.
    + rewrite lookup_insert_ne by done. change (default 0 (fs_since (state_add id s) !! r)) with (since_of r (state_add id s)).
      rewrite Ha. split_and!; lia || done.
  - change (since_of r (with_dirty true ?x)) with (since_of r x). rewrite Ha. split_and!; lia || done.
Qed.

Lemma MarkSeen_since id s r : since_of r (MarkSeen id s).2 = since_of r s.
Proof.
  unfold MarkSeen. destruct (known id s) eqn:E; [done|]. cbn [snd]. unfold state_addOnly. rewrite E.
  by destruct (bounded_add _ _ _ _).
Qed.

Lemma emit_all_since ts f r T :
  Forall (fun t => ar_now (at_around t) <= T) ts ->
  since_of r f <= since_of r (emit_all ts f).1 <= Z.max (since_of r f) T.
Proof.
  revert f. induction ts as [|t ts IH]; intros f HF; cbn [emit_all fst]; [lia|].
  apply Forall_cons in HF as [Ht HF].
  assert (since_of r f <= since_of r (emit_state t f).1 <= Z.max (since_of r f) T) as H1.
  { unfold emit_state. destruct (known _ f); cbn [fst]; [lia|]. destruct (ar_emit (at_around t)); cbn [fst]; try lia.
    - pose proof (Mark_since (ev_ID (at_event t)) (at_relay t) (wrap64 (ev_CreatedAt (at_event t))) (ar_now (at_around t)) f r). lia.
    - rewrite MarkSeen_since. lia. }
  destruct (emit_state t f) as [f1 d1]. cbn [fst] in H1. specialize (IH f1 HF).
  destruct (emit_all ts f1) as [f2 d2]. cbn [fst] in *. lia.
Qed.

(** Over any sequence of events from any relays, whatever the caller
    answers, an event is delivered again only after 5,000 other deliveries: the
    ids remembered are exactly the last 5,000 delivered (those in the state at
    the start included), and events that were only seen, however many, push
    none of them out.  A relay's since never moves back and never past the
    clock. *)
Theorem follow_once ts f T :
  wf f -> Forall (fun t => ar_now (at_around t) <= T) ts ->
  let '(f', d) := emit_all ts f in
  (forall i j id, (fs_order f ++ d)%list !! i = Some id -> (fs_order f ++ d)%list !! j = Some id -> (i < j)%nat ->
     (5000 < j - i)%nat) /\
  wf f' /\ fs_order f' = last_n 5000 (fs_order f ++ d) /\
  forall relay, since_of relay f <= since_of relay f' <= Z.max (since_of relay f) T.
Proof.
  intros Hw HT. pose proof (order_is_last ts f Hw) as Ho. pose proof (fun r => emit_all_since ts f r T HT) as Hs.
  destruct (emit_all ts f) as [f' d]. cbn [fst] in Hs. destruct Ho as (Hw' & Ho & Hd).
  split_and!; [|done|done|done]. intros i j id Hi Hj Hlt. apply Nat.nle_gt. intros Hle.
  destruct (decide (j < length (fs_order f))%nat) as [Hin|Hin].
  - rewrite lookup_app_l in Hi, Hj by lia. destruct (wf_seen _ Hw) as (Hn & _).
    pose proof (NoDup_lookup _ _ _ _ Hn Hi Hj). lia.
  - rewrite lookup_app_r in Hj by lia. apply (Hd _ _ Hj). pose proof (lookup_lt_Some _ _ _ Hj) as Hjl.
    apply (elem_of_last_n _ _ i).
    + rewrite <- Hi. destruct (decide (i < length (fs_order f))%nat).
      * by rewrite !lookup_app_l.
      * rewrite !lookup_app_r by lia. apply lookup_take_lt. lia.
    + rewrite length_app, length_take. unfold maxSeen. lia.
Qed.

(** ** The state file *)

Definition ascii_text (s : string) : bool := all_bytes (fun c => (Ascii.nat_of_ascii c <? 128)%nat) s.

(** [encoding/json] reads back what it wrote, for text it can represent. *)
Class StateCodecLaws `{StateCodec} := {
  state_roundtrip_json f :
    forallb ascii_text (ff_Seen f ++ ff_SeenOnly f ++ (map_to_list (ff_Since f)).*1) = true ->
    state_Unmarshal (state_Marshal f) = Some f;
}.

Lemma fold_add ids s :
  NoDup (fs_order s ++ ids) -> fs_seen s = list_to_set (fs_order s) -> (length (fs_order s ++ ids) <= maxSeen)%nat ->
  fold_left (fun s id => state_add id s) ids s
  = mkState (fs_path s) (list_to_set (fs_order s ++ ids)) (fs_order s ++ ids) (fs_only s) (fs_onlyOrder s) (fs_since s) (fs_dirty s).
Proof.
  revert s. induction ids as [|id ids IH]; intros s Hn Hs Hl; cbn [fold_left].
  - rewrite app_nil_r, <- Hs. by destruct s.
  - assert (state_add id s = mkState (fs_path s) (list_to_set (fs_order s ++ [id])) (fs_order s ++ [id]) (fs_only s)
              (fs_onlyOrder s) (fs_since s) (fs_dirty s)) as ->.
    { unfold state_add. apply NoDup_app in Hn as (_ & Hd & _).
      rewrite bool_decide_eq_false_2. 2: { rewrite Hs, elem_of_list_to_set. intros Hin. apply (Hd id Hin). by left. }
      unfold bounded_add. rewrite (proj2 (Nat.ltb_ge _ _)) by (rewrite length_app in *; cbn in *; lia).
      rewrite Hs. f_equal. set_solver. }
    rewrite IH; cbn [fs_path fs_seen fs_order fs_only fs_onlyOrder fs_since fs_dirty]; rewrite <- ?(assoc_L (++)); done.
Qed.

Lemma fold_addOnly ids s :
  NoDup (fs_onlyOrder s ++ ids) -> fs_only s = list_to_set (fs_onlyOrder s) ->
  (forall id, id ∈ ids -> id ∉ fs_seen s) -> (length (fs_onlyOrder s ++ ids) <= maxSeenOnly)%nat ->
  fold_left (fun s id => state_addOnly id s) ids s
  = mkState (fs_path s) (fs_seen s) (fs_order s) (list_to_set (fs_onlyOrder s ++ ids)) (fs_onlyOrder s ++ ids) (fs_since s) (fs_dirty s).
Proof.
  revert s. induction ids as [|id ids IH]; intros s Hn Hs Hd Hl; cbn [fold_left].
  - rewrite app_nil_r, <- Hs. by destruct s.
  - assert (state_addOnly id s = mkState (fs_path s) (fs_seen s) (fs_order s) (list_to_set (fs_onlyOrder s ++ [id]))
              (fs_onlyOrder s ++ [id]) (fs_since s) (fs_dirty s)) as ->.
    { unfold state_addOnly. apply NoDup_app in Hn as (_ & Hn & _).
      rewrite (proj2 (known_false id s)). 2: { split; [apply Hd; by left|]. rewrite Hs, elem_of_list_to_set. intros Hin. apply (Hn id Hin). by left. }
      unfold bounded_add. rewrite (proj2 (Nat.ltb_ge _ _)) by (rewrite length_app in *; cbn in *; lia).
      rewrite Hs. f_equal. set_solver. }
    rewrite IH; cbn [fs_path fs_seen fs_order fs_only fs_onlyOrder fs_since fs_dirty]; rewrite <- ?(assoc_L (++)); try done.
    intros x Hx. apply Hd. by right.
Qed.

(** A save that succeeds leaves a file that the next start loads to the
    very same state: the ids in their order, both kinds, and every relay's
    since; one that fails changes neither file nor state, so the next save
    tries again. *)
Theorem state_roundtrip `{StateCodecLaws} s now fault file :
  wf s -> fs_path s <> ""%string -> fs_dirty s = true ->
  (forall r v, fs_since s !! r = Some v -> v <= now) ->
  forallb ascii_text (fs_order s ++ fs_onlyOrder s ++ (map_to_list (fs_since s)).*1) = true ->
  let '(ok, s', file') := Save fault s file in
  if fault then ok = false /\ s' = s /\ file' = file
  else ok = true /\ s' = with_dirty false s /\ LoadFollowState (fs_path s) now true file' = Ok s'.
Proof.
  intros Hw Hp Hd Hnow Hasc. apply is_empty_false in Hp. unfold Save, Save_begin. rewrite Hp, Hd. cbn [negb orb].
  destruct fault; cbn [negb Save_end write].
  - split_and!; [done| |done]. by destruct s; cbn in *; subst.
  - split_and!; [done|done|]. unfold LoadFollowState. rewrite Hp. cbn [negb].
    rewrite state_roundtrip_json by done. f_equal. unfold state_of_file. cbn [ff_Seen ff_SeenOnly ff_Since].
    destruct (wf_seen _ Hw) as (Hn & Hs & Hl). destruct (wf_only _ Hw) as (Hn' & Hs' & Hl').
    rewrite fold_add by done. cbn [emptyState fs_path fs_seen fs_order fs_only fs_onlyOrder fs_since fs_dirty app].
    rewrite fold_addOnly; cbn [fs_path fs_seen fs_order fs_only fs_onlyOrder fs_since fs_dirty app]; [|done|done| |done].
    2: { intros id Hid. rewrite <- Hs. intros Hin. apply (wf_disjoint _ Hw id Hin). rewrite Hs'. by apply elem_of_list_to_set. }
    assert (filter (fun kv : string * Z => kv.2 <= now) (fs_since s) = fs_since s) as Hf.
    { apply map_filter_id. intros k v Hk. cbn. by eapply Hnow. }
    rewrite Hf, bool_decide_eq_true_2 by done. cbn. rewrite <- Hs, <- Hs'. by destruct s; cbn in *; subst.
Qed.
