(* ===== verification/ClientPaging.v ===== *)
(** * Following a relay: the pages reach every stored event

    A relay answers a request with the newest events that match, at most its
    cap.  [converse] lets the stream of [ClientFollow] talk to such a relay: the
    subscription, then the pages it asks for, until it asks for no more. *)
From stdpp Require Import sorting.
From S2P Require Import Prelude GoTime GoStrings Nostr ClientFollow.
From S2P Require Import ClientFollowFacts.
From stdpp Require Import options.

Local Open Scope Z_scope.

(** ** The conversation *)

(** The answer to one request: its events, then the end of the stored ones,
    each with what the surroundings do meanwhile. *)
Record reply := mkReply { rp_events : list (around * Event); rp_eose : around }.

Definition phase_msgs (sub : string) (r : reply) : list (around * message) :=
  (((fun ae => (ae.1, MEvent sub (Some ae.2))) <$> rp_events r) ++ [(rp_eose r, MEOSE sub)])%list.

Section Converse.
Context {N : Nmilat}.

Fixpoint converse (fuel : nat) (answer : nat -> Z -> reply) (i : nat) (sub : string) (s : stream)
    : stream * list output * option stop :=
  match fuel with
  | O => (s, [], None)
  | S fuel =>
      match stream_run (phase_msgs sub (answer i (pg_until (sm_pager s)))) s with
      | (s, out, None) =>
          if is_empty (pg_sub (sm_pager s)) then (s, out, None)
          else let '(s, out', e) := converse fuel answer (S i) (pg_sub (sm_pager s)) s in (s, (out ++ out')%list, e)
      | (s, out, Some e) => (s, out, Some e)
      end
  end.

End Converse.

(** ** Counting a phase *)

Definition saw_all (l : list Event) (p : followPager) : followPager := fold_left (fun p e => pager_saw e p) l p.

Lemma saw_all_frame l p :
  pg_base (saw_all l p) = pg_base p /\ pg_ok (saw_all l p) = pg_ok p /\ pg_since (saw_all l p) = pg_since p /\
  pg_stored (saw_all l p) = pg_stored p /\ pg_sub (saw_all l p) = pg_sub p /\ pg_until (saw_all l p) = pg_until p /\
  pg_pages (saw_all l p) = pg_pages p /\ pg_cut (saw_all l p) = pg_cut p /\
  pg_n (saw_all l p) = pg_n p + Z.of_nat (length l).
Proof.
  revert p. induction l as [|e l IH]; intros p; cbn [saw_all fold_left length]; [split_and!; try done; lia|].
  fold (saw_all l (pager_saw e p)). destruct (IH (pager_saw e p)) as (-> & -> & -> & -> & -> & -> & -> & -> & ->).
  cbn [pager_saw pg_base pg_ok pg_since pg_stored pg_sub pg_until pg_pages pg_cut pg_n]. split_and!; try done. lia.
Qed.

Lemma saw_all_ids l p x : x ∈ pg_ids (saw_all l p) <-> x ∈ pg_ids p \/ exists e, e ∈ l /\ ev_ID e = x.
Proof.
  revert p. induction l as [|e l IH]; intros p; cbn [saw_all fold_left].
  - split; [auto|]. intros [?|(e & He & _)]; [done|by apply elem_of_nil in He].
  - fold (saw_all l (pager_saw e p)). rewrite IH. cbn [pager_saw pg_ids]. rewrite elem_of_union, elem_of_singleton.
    setoid_rewrite elem_of_cons. naive_solver.
Qed.

Lemma saw_all_fresh l p :
  pg_fresh p <= pg_fresh (saw_all l p) /\
  (pg_fresh (saw_all l p) = pg_fresh p -> forall e, e ∈ l -> ev_ID e ∈ pg_ids p).
Proof.
  revert p. induction l as [|e l IH]; intros p; cbn [saw_all fold_left]; [split; [lia|]; intros _ e He; by apply elem_of_nil in He|].
  fold (saw_all l (pager_saw e p)). destruct (IH (pager_saw e p)) as [H1 H2]. cbn [pager_saw pg_fresh pg_ids] in *.
  destruct (decide (ev_ID e ∈ pg_ids p)) as [Hin|Hin].
  - rewrite bool_decide_eq_true_2 in * by done. cbn [negb] in *. split; [done|].
    intros Heq x [->|Hx]%elem_of_cons; [done|]. specialize (H2 Heq x Hx).
    apply elem_of_union in H2 as [H2|H2]; [|done]. apply elem_of_singleton in H2. by rewrite H2.
  - rewrite bool_decide_eq_false_2 in * by done. cbn [negb] in *. split; lia.
Qed.

Lemma saw_all_minAt l p :
  Forall (fun e => 0 < ev_CreatedAt e) l -> 0 <= pg_minAt p ->
  let m := pg_minAt (saw_all l p) in
  (pg_minAt p <> 0 -> 0 < m <= pg_minAt p) /\ (forall e, e ∈ l -> 0 < m <= ev_CreatedAt e) /\
  (m = pg_minAt p \/ exists e, e ∈ l /\ ev_CreatedAt e = m).
Proof.
  revert p. induction l as [|e l IH]; intros p HF Hp; cbn [saw_all fold_left].
  - split_and!; [lia| |by left]. intros e He. by apply elem_of_nil in He.
  - fold (saw_all l (pager_saw e p)). apply Forall_cons in HF as [He HF].
    set (m1 := pg_minAt (pager_saw e p)).
    assert (0 < m1 <= ev_CreatedAt e /\ (pg_minAt p <> 0 -> m1 <= pg_minAt p) /\ (m1 = pg_minAt p \/ m1 = ev_CreatedAt e)) as (Hm1 & Hm2 & Hm3).
    { subst m1. cbn [pager_saw pg_minAt]. destruct (Z.eqb_spec (pg_minAt p) 0) as [->|]; cbn [orb]; [split_and!; try lia; by right|].
      destruct (Z.ltb_spec (ev_CreatedAt e) (pg_minAt p)); (split_and!; try lia; auto). }
    destruct (IH (pager_saw e p) HF ltac:(fold m1; lia)) as (H1 & H2 & H3). fold m1 in H1, H3. specialize (H1 ltac:(lia)).
    split_and!; [lia| |].
    + intros x [->|Hx]%elem_of_cons; [lia|by apply H2].
    + destruct H3 as [H3|(x & Hx & H3)]; [|right; exists x; split; [by right|done]].
      destruct Hm3 as [->| ->] in H3; [by left|right]. exists e. split; [by left|done].
Qed.

(** ** Handling a phase *)

Definition handed_over (out : list output) (id : string) : Prop := exists ev r, OEmit ev r ∈ out /\ ev_ID ev = id.

Lemma handed_app out out' id : handed_over (out ++ out') id <-> handed_over out id \/ handed_over out' id.
Proof. unfold handed_over. setoid_rewrite elem_of_app. naive_solver. Qed.

Lemma bounded_add_sub max id seen order x : x ∈ (bounded_add max id seen order).1 -> x = id \/ x ∈ seen.
Proof. unfold bounded_add. repeat case_match; cbn [fst]; set_solver. Qed.

Lemma known_add id s x : known x (state_add id s) = true -> known x s = true \/ x = id.
Proof.
  unfold state_add. case_match; [auto|]. pose proof (bounded_add_sub maxSeen id (fs_seen s) (fs_order s) x) as Hb.
  destruct (bounded_add _ _ _ _) as [seen order]. unfold known. cbn [fs_seen fs_only fst] in *.
  rewrite !orb_true_iff, !bool_decide_eq_true. naive_solver.
Qed.

Lemma known_addOnly id s x : known x (state_addOnly id s) = true -> known x s = true \/ x = id.
Proof.
  unfold state_addOnly. case_match; [auto|]. pose proof (bounded_add_sub maxSeenOnly id (fs_only s) (fs_onlyOrder s) x) as Hb.
  destruct (bounded_add _ _ _ _) as [seen order]. unfold known. cbn [fs_seen fs_only fst] in *.
  rewrite !orb_true_iff, !bool_decide_eq_true. naive_solver.
Qed.

Lemma known_Mark id relay c now s x : known x (Mark id relay c now s).2 = true -> known x s = true \/ x = id.
Proof.
  unfold Mark. destruct (known id s); [auto|]. cbn [snd]. intros H. apply known_add. revert H. by case_match.
Qed.

Lemma known_MarkSeen id s x : known x (MarkSeen id s).2 = true -> known x s = true \/ x = id.
Proof. unfold MarkSeen. destruct (known id s); [auto|]. cbn [snd]. apply known_addOnly. Qed.

(** What stays the same, and where remembered ids come from. *)
Record continues (s s' : stream) (out : list output) : Prop := {
  ct_subID : sm_subID s' = sm_subID s;
  ct_known : forall id, known id (sm_state s') = true -> known id (sm_state s) = true \/ handed_over out id;
}.

Definition around_ok (a : around) : Prop := ar_send a = true /\ ar_emit a <> EmErr.

Lemma emit_spec a ev s :
  around_ok a ->
  exists s' out, emit a ev s = (s', out, None) /\ continues s s' out /\ sm_pager s' = sm_pager s /\
    (known (ev_ID ev) (sm_state s) = true \/ handed_over out (ev_ID ev)).
Proof.
  intros [_ Ha]. unfold emit. destruct (known (ev_ID ev) (sm_state s)) eqn:E.
  - exists s, []. split_and!; [done|by split; auto|done|by left].
  - assert (forall r, handed_over [OEmit ev r] (ev_ID ev)) as Hh by (intros r; exists ev, r; split; [by left|done]).
    destruct (ar_emit a); [| | |done]; do 2 eexists; (split; [reflexivity|]); split_and!; try done; try (by right);
      (split; [done|]); cbn [sm_state with_state]; intros id Hid; auto.
    + apply known_Mark in Hid as [?| ->]; auto.
    + apply known_MarkSeen in Hid as [?| ->]; auto.
Qed.

Lemma continues_trans s s1 s2 out1 out2 :
  continues s s1 out1 -> continues s1 s2 out2 -> continues s s2 (out1 ++ out2).
Proof.
  intros [H1 K1] [H2 K2]. split; [by rewrite H2|]. intros id [Hk|Hh]%K2; rewrite handed_app; [|auto].
  apply K1 in Hk. tauto.
Qed.

Lemma continues_pager s p : continues s (with_pager p s) [].
Proof. split; [done|auto]. Qed.

Section Phase.
Context {N : Nmilat}.

Lemma stream_run_app l1 l2 s s1 out1 :
  stream_run l1 s = (s1, out1, None) ->
  stream_run (l1 ++ l2) s = let '(s2, out2, e) := stream_run l2 s1 in (s2, (out1 ++ out2)%list, e).
Proof.
  revert s out1. induction l1 as [|[a m] l1 IH]; intros s out1; cbn [app stream_run].
  - intros [= <- <-]. by destruct (stream_run l2 s) as [[? ?] ?].
  - destruct (stream_step a m s) as [[s' o] [e|]]; [done|].
    destruct (stream_run l1 s') as [[s'' o'] e'] eqn:E. intros [= <- <- ->].
    rewrite (IH _ _ E). destruct (stream_run l2 s'') as [[? ?] ?]. by rewrite (assoc_L (++)).
Qed.

(** The events of a phase are counted and handed over. *)
Lemma phase_events sub evs s :
  Forall (fun ae => around_ok ae.1 /\ VerifyWithoutPow ae.2 = true) evs ->
  (sub = sm_subID s /\ pg_stored (sm_pager s) = true) \/ sub = pg_sub (sm_pager s) ->
  exists s' out, stream_run ((fun ae => (ae.1, MEvent sub (Some ae.2))) <$> evs) s = (s', out, None) /\
    continues s s' out /\ sm_pager s' = saw_all evs.*2 (sm_pager s) /\
    forall e, e ∈ evs.*2 -> known (ev_ID e) (sm_state s) = true \/ handed_over out (ev_ID e).
Proof.
  revert s. induction evs as [|[a ev] evs IH]; intros s HF Hsub.
  - exists s, []. split_and!; [done|by split; auto|done|]. intros e He. by apply elem_of_nil in He.
  - apply Forall_cons in HF as [[Ha Hv] HF]. cbn [fst snd] in *.
    set (s1 := with_pager (pager_saw ev (sm_pager s)) s).
    assert (stream_step a (MEvent sub (Some ev)) s = emit a ev s1) as Hstep.
    { unfold stream_step. rewrite Hv. cbn [negb].
      assert (negb (String.eqb sub (sm_subID s)) && negb (String.eqb sub (pg_sub (sm_pager s))) = false) as ->.
      { destruct Hsub as [[-> _]| ->]; rewrite String.eqb_refl; [done|apply andb_false_r]. }
      assert (String.eqb sub (pg_sub (sm_pager s)) || pg_stored (sm_pager s) = true) as ->; [|done].
      destruct Hsub as [[_ ->]| ->]; [apply orb_true_r|by rewrite String.eqb_refl]. }
    destruct (emit_spec a ev s1 Ha) as (s2 & out1 & He & Hc1 & Hp & Hh).
    destruct (IH s2 HF) as (s3 & out2 & Hr & Hc2 & Hp3 & Hh2).
    { rewrite Hp, (ct_subID _ _ _ Hc1). done. }
    exists s3, (out1 ++ out2)%list. cbn [fmap list_fmap stream_run fst snd].
    rewrite Hstep, He. change (list_fmap _ _ ?f ?l) with (f <$> l). rewrite Hr.
    assert (continues s s2 out1) as Hc.
    { change out1 with ([] ++ out1)%list. eapply continues_trans; [apply continues_pager|exact Hc1]. }
    split_and!; [done|by eapply continues_trans|by rewrite Hp3, Hp|].
    intros e [->|Hin]%elem_of_cons.
    + rewrite handed_app. destruct Hh; auto.
    + rewrite handed_app. destruct (Hh2 e Hin) as [Hk|?]; [|auto]. apply (ct_known _ _ _ Hc) in Hk. tauto.
Qed.

End Phase.

(** ** A relay with a cap *)

Section Relay.
Context {N : Nmilat} (cap since : Z) (stored : list Event).

(** The events up to [until], when there is one. *)
Definition within (until : Z) (e : Event) : Prop := until = 0 \/ ev_CreatedAt e <= until.

(** What the relay may answer: valid stored events up to [until], all of them
    or as many as the cap, none that is left out being newer than one that is
    sent. *)
Record page_of (until : Z) (l : list Event) : Prop := {
  po_stored : forall e, e ∈ l -> e ∈ stored /\ within until e;
  po_nodup : NoDup l;
  po_all : Z.of_nat (length l) < cap -> forall e, e ∈ stored -> within until e -> e ∈ l;
  po_newest : forall e x, e ∈ stored -> within until e -> (e ∉ l) -> x ∈ l -> ev_CreatedAt e <= ev_CreatedAt x;
}.

Definition reply_ok (until : Z) (r : reply) : Prop :=
  page_of until (rp_events r).*2 /\ around_ok (rp_eose r) /\
  Forall (fun ae => around_ok ae.1 /\ VerifyWithoutPow ae.2 = true) (rp_events r).

(** What is stored: distinct ids, dates from [since] on, and in no second as
    many events as the cap. *)
Record store_ok : Prop := {
  so_cap : followPageMin <= cap;
  so_ids : NoDup (ev_ID <$> stored);
  so_dates : Forall (fun e => 0 < ev_CreatedAt e /\ since <= ev_CreatedAt e) stored;
  so_second : forall t, Z.of_nat (length (filter (fun e => ev_CreatedAt e = t) stored)) < cap;
}.

Hypothesis SO : store_ok.

Lemma same_second l t :
  NoDup l -> (forall e, e ∈ l -> e ∈ stored /\ ev_CreatedAt e = t) -> Z.of_nat (length l) < cap.
Proof using SO.
  intros Hn Hl. apply Z.le_lt_trans with (Z.of_nat (length (filter (fun e => ev_CreatedAt e = t) stored))); [|apply SO].
  apply inj_le, submseteq_length, NoDup_submseteq; [done|]. intros e He. apply list_elem_of_filter.
  destruct (Hl e He). done.
Qed.

Lemma stored_id e x : e ∈ stored -> x ∈ stored -> ev_ID e = ev_ID x -> e = x.
Proof using SO.
  intros [i Hi]%list_elem_of_lookup [j Hj]%list_elem_of_lookup Heq.
  assert (i = j) as ->; [|congruence].
  eapply NoDup_lookup; [apply SO| |]; rewrite list_lookup_fmap; [by rewrite Hi|rewrite Hj; cbn; by rewrite Heq].
Qed.

(** The pager after the phase [l] up to [until]; [ids] are those of earlier
    phases. *)
Record counted (until : Z) (l : list Event) (ids : gset string) (q : followPager) : Prop := {
  cn_ok : pg_ok q = true;
  cn_since : pg_since q <= since;
  cn_until : pg_until q = until;
  cn_n : pg_n q = Z.of_nat (length l);
  cn_fresh : pg_fresh q = 0 -> forall e, e ∈ l -> ev_ID e ∈ ids;
  cn_min : forall e, e ∈ l -> 0 < pg_minAt q <= ev_CreatedAt e;
  cn_minin : l <> [] -> exists e, e ∈ l /\ ev_CreatedAt e = pg_minAt q;
  cn_page : page_of until l;
  cn_ids : forall id, id ∈ ids -> exists x, x ∈ stored /\ ev_ID x = id /\ (until <> 0 /\ until <= ev_CreatedAt x);
  cn_cut : pg_cut q = ""%string;
}.

Definition complete (until : Z) (l : list Event) : Prop := forall e, e ∈ stored -> within until e -> e ∈ l.

Lemma short_page until l : page_of until l -> Z.of_nat (length l) < cap -> complete until l.
Proof using. intros Hp Hl e He Hw. by apply (po_all _ _ Hp). Qed.

(** A page as long as the cap reaches below the second it starts with. *)
Lemma full_page until l ids q :
  counted until l ids q -> cap <= Z.of_nat (length l) ->
  pg_fresh q <> 0 /\ (until <> 0 -> pg_minAt q < until).
Proof using SO.
  intros Hc Hlen. pose proof (cn_page _ _ _ _ Hc) as Hp. split.
  - intros Hf. pose proof (cn_fresh _ _ _ _ Hc Hf) as Hold.
    assert (Z.of_nat (length l) < cap); [|lia]. apply (same_second l until); [apply Hp|].
    intros e He. destruct (po_stored _ _ Hp e He) as [Hs Hw]. split; [done|].
    destruct (cn_ids _ _ _ _ Hc _ (Hold e He)) as (x & Hx & Hid & Hu & Hle).
    apply stored_id in Hid; [|done..]. subst x. destruct Hw; [done|lia].
  - intros Hu. destruct (Z.lt_ge_cases (pg_minAt q) until) as [|Hge]; [done|].
    assert (Z.of_nat (length l) < cap); [|lia]. apply (same_second l until); [apply Hp|].
    intros e He. destruct (po_stored _ _ Hp e He) as [Hs [Hw|Hw]]; [done|]. pose proof (cn_min _ _ _ _ Hc e He). split; [done|lia].
Qed.

Lemma next_spec uuid until l ids q :
  0 <= until -> counted until l ids q ->
  match pager_next uuid q with
  | (None, q') => pg_sub q' = ""%string /\ (pg_cut q' <> ""%string \/ (pg_cut q' = ""%string /\ complete until l))
  | (Some u, q') =>
      q' = pager_turn uuid u q /\ 0 < u /\ pg_pages q < followPages /\
      (complete until l \/ (forall e, e ∈ stored -> within until e -> u < ev_CreatedAt e -> e ∈ l)) /\
      (forall e, e ∈ l -> u <= ev_CreatedAt e) /\ (until <> 0 -> u <= until)
  end.
Proof using SO.
  intros Hu0 Hc. pose proof (cn_page _ _ _ _ Hc) as Hp. unfold pager_next. rewrite (cn_ok _ _ _ _ Hc). cbn [negb orb].
  pose proof (full_page until l ids q Hc) as Hfull. pose proof (short_page until l Hp) as Hshort. pose proof (so_cap SO) as Hcap.
  destruct ((pg_n q <? followPageMin) || (pg_fresh q =? 0)) eqn:E1.
  { split; [done|right]. split; [apply Hc|]. apply Hshort. destruct (Z.lt_ge_cases (Z.of_nat (length l)) cap) as [|Hge]; [done|].
    destruct (Hfull Hge) as [Hf _]. rewrite (cn_n _ _ _ _ Hc) in E1. apply orb_true_iff in E1 as [E1|E1]; propify; lia. }
  apply orb_false_iff in E1 as [E1 E2]. propify. rewrite (cn_n _ _ _ _ Hc) in E1. rewrite (cn_until _ _ _ _ Hc).
  assert (l <> []) as Hne by (intros ->; cbn in E1; unfold followPageMin in E1; lia).
  destruct (cn_minin _ _ _ _ Hc Hne) as (x & Hx & Hxm). destruct (cn_min _ _ _ _ Hc x Hx) as [Hm _].
  destruct (po_stored _ _ Hp x Hx) as [Hxs Hxw].
  assert (since <= ev_CreatedAt x) as Hxd by (pose proof (so_dates SO) as Hd; rewrite Forall_forall in Hd; by apply Hd).
  set (u := if negb (until =? 0) && (until <=? pg_minAt q) then until - 1 else pg_minAt q).
  assert (u <= pg_minAt q /\ (until <> 0 -> u <= until) /\ (cap <= Z.of_nat (length l) -> u = pg_minAt q) /\ 0 <= u) as (Hum & Huu & Huc & Hu1).
  { unfold within in Hxw. subst u. destruct (Z.eqb_spec until 0), (Z.leb_spec until (pg_minAt q)); cbn [negb andb];
      split_and!; lia. }
  clearbody u. pose proof (cn_since _ _ _ _ Hc) as Hsi.
  destruct ((u =? 0) || (u <? pg_since q)) eqn:E3.
  { split; [done|right]. split; [apply Hc|]. apply Hshort. destruct (Z.lt_ge_cases (Z.of_nat (length l)) cap) as [|Hge]; [done|].
    specialize (Huc Hge). apply orb_true_iff in E3 as [E3|E3]; propify; lia. }
  destruct ((followPages <=? pg_pages q) || _) eqn:E4; [split; [done|by left]|].
  apply orb_false_iff in E3 as [E3 E3'], E4 as [E4 _]. propify.
  split_and!; [done|lia|done| |intros e He; pose proof (cn_min _ _ _ _ Hc e He); lia|done].
  destruct (Z.lt_ge_cases (Z.of_nat (length l)) cap) as [Hlt|Hge]; [left; by apply Hshort|right].
  rewrite (Huc Hge). intros e He Hw Hlt. destruct (decide (e ∈ l)) as [|Hni]; [done|exfalso].
  pose proof (po_newest _ _ Hp e x He Hw Hni Hx). lia.
Qed.

(** ** The whole conversation *)

Context (answer : nat -> Z -> reply).
Hypothesis AO : forall i until, reply_ok until (answer i until).

(** A request was sent and its answer is due. *)
Record begins (sub : string) (s : stream) : Prop := {
  bg_sub : (sub = sm_subID s /\ pg_stored (sm_pager s) = true /\ pg_until (sm_pager s) = 0 /\ pg_ids (sm_pager s) = ∅) \/
           (sub = pg_sub (sm_pager s) /\ sub <> ""%string /\ pg_stored (sm_pager s) = false /\ 0 < pg_until (sm_pager s));
  bg_zero : pg_n (sm_pager s) = 0 /\ pg_fresh (sm_pager s) = 0 /\ pg_minAt (sm_pager s) = 0;
  bg_ok : pg_ok (sm_pager s) = true /\ pg_since (sm_pager s) <= since /\ pg_cut (sm_pager s) = ""%string;
  bg_pages : 0 <= pg_pages (sm_pager s) <= followPages;
  bg_ids : forall id, id ∈ pg_ids (sm_pager s) -> exists x, x ∈ stored /\ ev_ID x = id /\ pg_until (sm_pager s) <= ev_CreatedAt x;
}.

Lemma begins_counted sub s l p :
  begins sub s -> page_of (pg_until (sm_pager s)) l ->
  p = saw_all l (sm_pager s) \/ p = pager_live (saw_all l (sm_pager s)) ->
  counted (pg_until (sm_pager s)) l (pg_ids (sm_pager s)) p.
Proof using SO.
  intros [Hsub (Hn & Hf & Hm) (Hok & Hsi & Hcut) Hpg Hids] Hp Hq.
  assert (Forall (fun e => 0 < ev_CreatedAt e) l) as Hd.
  { apply Forall_forall. intros e He. destruct (po_stored _ _ Hp e He) as [Hs _]. pose proof (so_dates SO) as HD.
    rewrite Forall_forall in HD. by apply HD. }
  destruct (saw_all_frame l (sm_pager s)) as (_ & F1 & F2 & _ & _ & F3 & _ & F4 & F5).
  destruct (saw_all_fresh l (sm_pager s)) as [_ F6].
  destruct (saw_all_minAt l (sm_pager s) Hd ltac:(lia)) as (_ & F7 & F8).
  assert (counted (pg_until (sm_pager s)) l (pg_ids (sm_pager s)) (saw_all l (sm_pager s))) as HC.
  { split; try done; [congruence|by rewrite F2|by rewrite F5, Hn|by rewrite <- Hf at 1| | |congruence].
    - intros Hne. destruct F8 as [F8|?]; [|done]. destruct l as [|e l]; [done|]. specialize (F7 e ltac:(by left)). lia.
    - intros id Hid. destruct (Hids id Hid) as (x & Hx & Hxi & Hle). exists x. split_and!; try done.
      destruct Hsub as [(_ & _ & _ & He)|(_ & _ & _ & ?)]; [by rewrite He in Hid; apply not_elem_of_empty in Hid|lia]. }
  destruct Hq as [-> | ->]; [done|]. by destruct HC.
Qed.

(** The end of a phase asks for the next page, from a pager out of its stored
    events. *)
Lemma eose_step sub a s l s1 :
  begins sub s -> sm_subID s1 = sm_subID s -> sm_pager s1 = saw_all l (sm_pager s) ->
  exists q pre, (q = saw_all l (sm_pager s) \/ q = pager_live (saw_all l (sm_pager s))) /\ pg_stored q = false /\
    stream_step a (MEOSE sub) s1 = let '(s2, out, e) := page a (with_pager q s1) in (s2, (pre ++ out)%list, e).
Proof using.
  intros Hb Hid Hp. destruct (saw_all_frame l (sm_pager s)) as (_ & _ & _ & Hst & Hsb & _).
  cbn [stream_step]. rewrite Hid, Hp, Hst, Hsb. destruct (bg_sub _ _ Hb) as [(-> & Hs & _)|(Hs & Hne & Hf & _)].
  - exists (pager_live (saw_all l (sm_pager s))), []. split_and!; [by right|done|].
    rewrite String.eqb_refl, Hs. cbn [andb app]. by destruct (page _ _) as [[? ?] ?].
  - exists (saw_all l (sm_pager s)), [OClose sub]. split_and!; [by left|congruence|].
    rewrite Hf, andb_false_r, <- Hs, String.eqb_refl, (proj2 (is_empty_false sub)) by done. cbn [andb negb app].
    rewrite <- Hp. replace (with_pager (sm_pager s1) s1) with s1 by by destruct s1. by destruct (page a s1) as [[? ?] ?].
Qed.

(** The pager that waits for the page just asked for. *)
Lemma turn_begins uuid u sub s s2 l q :
  begins sub s -> page_of (pg_until (sm_pager s)) l ->
  q = saw_all l (sm_pager s) \/ q = pager_live (saw_all l (sm_pager s)) -> pg_stored q = false ->
  sm_pager s2 = pager_turn uuid u q -> 0 < u -> pg_pages q < followPages ->
  (forall e, e ∈ l -> u <= ev_CreatedAt e) -> (pg_until (sm_pager s) <> 0 -> u <= pg_until (sm_pager s)) ->
  begins ("page-" ++ uuid) s2.
Proof using.
  intros Hb Hp Hq Hst Hs2 Hu Hpg Hl Huu. destruct (saw_all_frame l (sm_pager s)) as (_ & F1 & F2 & _ & _ & _ & F6 & F7 & _).
  assert (pg_ids q = pg_ids (saw_all l (sm_pager s)) /\ pg_ok q = true /\ pg_since q <= since /\ pg_cut q = ""%string /\ 0 <= pg_pages q)
    as (Hi & Hok & Hsi & Hc & H0).
  { destruct (bg_ok _ _ Hb) as (? & ? & ?), (bg_pages _ _ Hb). destruct Hq as [-> | ->];
      cbn [pager_live pg_ids pg_ok pg_since pg_cut pg_pages]; rewrite F1, F2, F6, F7; done. }
  split; rewrite Hs2; cbn [pager_turn pg_sub pg_stored pg_until pg_ids pg_n pg_fresh pg_minAt pg_ok pg_since pg_cut pg_pages].
  - right. split_and!; [done|by destruct uuid|done|done].
  - done.
  - done.
  - lia.
  - intros id Hid. rewrite Hi, saw_all_ids in Hid. destruct Hid as [Hid|(e & He & <-)].
    + destruct (bg_ids _ _ Hb id Hid) as (x & Hx & Hxi & Hle). exists x. split_and!; [done|done|].
      destruct (bg_sub _ _ Hb) as [(_ & _ & _ & E)|(_ & _ & _ & ?)]; [by rewrite E in Hid; apply not_elem_of_empty in Hid|lia].
    + exists e. split_and!; [by apply (po_stored _ _ Hp)|done|by apply Hl].
Qed.

(** One answer handled: paging ended, with everything read or with a warning,
    or the next page is due and nothing above its until is missing. *)
Lemma phase_spec i sub s (got : string -> Prop) :
  begins sub s ->
  (forall e, e ∈ stored -> pg_until (sm_pager s) <> 0 -> pg_until (sm_pager s) < ev_CreatedAt e -> got (ev_ID e)) ->
  (forall id, known id (sm_state s) = true -> got id) ->
  exists s' out, stream_run (phase_msgs sub (answer i (pg_until (sm_pager s)))) s = (s', out, None) /\
    (forall id, known id (sm_state s') = true -> got id \/ handed_over out id) /\
    ((pg_sub (sm_pager s') = ""%string /\ pg_cut (sm_pager s') <> ""%string /\ OWarn (pg_cut (sm_pager s')) ∈ out) \/
     (pg_sub (sm_pager s') = ""%string /\ pg_cut (sm_pager s') = ""%string /\
      forall e, e ∈ stored -> got (ev_ID e) \/ handed_over out (ev_ID e)) \/
     (pg_sub (sm_pager s') <> ""%string /\ begins (pg_sub (sm_pager s')) s' /\
      pg_pages (sm_pager s') = pg_pages (sm_pager s) + 1 /\
      forall e, e ∈ stored -> pg_until (sm_pager s') < ev_CreatedAt e -> got (ev_ID e) \/ handed_over out (ev_ID e))).
Proof using SO AO.
  intros Hb Hgot Hkn. destruct (AO i (pg_until (sm_pager s))) as (Hp & Ha & Hev). unfold phase_msgs.
  set (r := answer i _) in *. clearbody r. set (until := pg_until (sm_pager s)) in *.
  destruct (phase_events sub (rp_events r) s Hev) as (s1 & out1 & Hr & Hc & Hps & Hall).
  { destruct (bg_sub _ _ Hb) as [(? & ? & _)|(? & _)]; auto. }
  destruct (eose_step sub (rp_eose r) s _ s1 Hb (ct_subID _ _ _ Hc) Hps) as (q & pre & Hq & Hst & Hstep).
  rewrite (stream_run_app _ _ _ _ _ Hr). cbn [stream_run]. rewrite Hstep. clear Hr Hstep.
  pose proof (begins_counted sub s _ q Hb Hp Hq) as Hcn. fold until in Hcn.
  assert (0 <= until) as Hu0 by (subst until; destruct (bg_sub _ _ Hb) as [(_ & _ & -> & _)|(_ & _ & _ & ?)]; lia).
  pose proof (next_spec (ar_uuid (rp_eose r)) until _ _ q Hu0 Hcn) as Hn. unfold page. cbn [sm_pager with_pager].
  assert (forall e, e ∈ stored -> (within until e -> e ∈ (rp_events r).*2) -> got (ev_ID e) \/ handed_over out1 (ev_ID e)) as Hread.
  { intros e He Hin. destruct (decide (within until e)) as [Hw|Hw].
    - destruct (Hall e (Hin Hw)); [left; by apply Hkn|by right].
    - left. unfold within in Hw. apply Hgot; [done|lia..]. }
  assert (forall s2 out2, sm_state s2 = sm_state s1 -> forall id, known id (sm_state s2) = true -> got id \/ handed_over (out1 ++ out2) id) as Hk2.
  { intros s2 out2 -> id [Hk|Hk]%(ct_known _ _ _ Hc); [left; by apply Hkn|right]. rewrite handed_app. by left. }
  destruct (pager_next (ar_uuid (rp_eose r)) q) as [[u|] q'].
  - destruct Hn as (-> & Hu & Hpg & Hcov & Hmin & Hle). destruct Ha as [-> _].
    do 2 eexists. split; [reflexivity|]. split; [by apply Hk2|]. right. right. cbn [sm_pager with_pager].
    split_and!.
    + by destruct (ar_uuid (rp_eose r)).
    + by eapply turn_begins.
    + cbn [pager_turn pg_pages]. f_equal. destruct (saw_all_frame (rp_events r).*2 (sm_pager s)) as (_ & _ & _ & _ & _ & _ & F & _).
      by destruct Hq as [-> | ->].
    + cbn [pager_turn pg_until]. intros e He Hlt. rewrite handed_app. destruct (Hread e He); [|by left|by right; left].
      intros Hw. destruct Hcov as [Hcov|Hcov]; auto.
  - destruct Hn as [Hsub Hend]. do 2 eexists. split; [reflexivity|]. split; [by apply Hk2|]. cbn [sm_pager with_pager].
    destruct Hend as [Hcut|[Hcut Hcom]]; [left|right; left].
    + split_and!; [done|done|]. rewrite (proj2 (is_empty_false _) Hcut). set_solver.
    + split_and!; [done|done|]. intros e He. rewrite handed_app. destruct (Hread e He); [auto|by left|by right; left].
Qed.

Lemma converse_complete fuel i sub s (got : string -> Prop) :
  begins sub s -> followPages + 1 - pg_pages (sm_pager s) <= Z.of_nat fuel ->
  (forall e, e ∈ stored -> pg_until (sm_pager s) <> 0 -> pg_until (sm_pager s) < ev_CreatedAt e -> got (ev_ID e)) ->
  (forall id, known id (sm_state s) = true -> got id) ->
  exists s' out, converse fuel answer i sub s = (s', out, None) /\ pg_sub (sm_pager s') = ""%string /\
    ((pg_cut (sm_pager s') <> ""%string /\ OWarn (pg_cut (sm_pager s')) ∈ out) \/
     (pg_cut (sm_pager s') = ""%string /\ forall e, e ∈ stored -> got (ev_ID e) \/ handed_over out (ev_ID e))).
Proof using SO AO.
  revert i sub s got. induction fuel as [|fuel IH]; intros i sub s got Hb Hfuel Hgot Hkn.
  { destruct (bg_pages _ _ Hb). lia. }
  destruct (phase_spec i sub s got Hb Hgot Hkn) as (s1 & out1 & Hr & Hk1 & Hcase). cbn [converse]. rewrite Hr.
  destruct Hcase as [(Hs & Hcut & Hw)|[(Hs & Hcut & Hall)|(Hs & Hb1 & Hpg & Hall)]].
  - rewrite Hs. cbn [is_empty]. do 2 eexists. split; [reflexivity|]. split; [done|]. by left.
  - rewrite Hs. cbn [is_empty]. do 2 eexists. split; [reflexivity|]. split; [done|]. by right.
  - rewrite (proj2 (is_empty_false _) Hs).
    destruct (IH (S i) (pg_sub (sm_pager s1)) s1 (fun id => got id \/ handed_over out1 id) Hb1) as (s2 & out2 & -> & Hs2 & Hend).
    { rewrite Hpg. lia. } { intros e He _. by apply Hall. } { done. }
    do 2 eexists. split; [reflexivity|]. split; [done|]. destruct Hend as [[Hc Hw]|[Hc Hend]]; [left|right]; (split; [done|]).
    + apply elem_of_app. by right.
    + intros e He. rewrite handed_app. destruct (Hend e He) as [[?|?]|?]; auto.
Qed.

End Relay.

(** A relay that keeps its events newest first and cuts at its cap. *)
Definition serve (cap : Z) (stored : list Event) (until : Z) : list Event :=
  take (Z.to_nat cap) (filter (within until) stored).

Lemma filter_sorted {A} (R : A -> A -> Prop) (P : A -> Prop) `{forall x, Decision (P x)} l :
  StronglySorted R l -> StronglySorted R (filter P l).
Proof.
  induction l as [|x l IH]; [done|]. rewrite StronglySorted_cons, filter_cons. intros [HF HS].
  case_decide; [|auto]. apply StronglySorted_cons. split; [|auto].
  rewrite Forall_forall in *. intros y [_ Hy]%list_elem_of_filter. auto.
Qed.

Lemma serve_page cap stored until :
  0 <= cap -> NoDup stored -> StronglySorted (fun e x => ev_CreatedAt x <= ev_CreatedAt e) stored ->
  page_of cap stored until (serve cap stored until).
Proof.
  intros Hcap Hn Hs. set (l := filter (within until) stored).
  assert (take (Z.to_nat cap) l ++ drop (Z.to_nat cap) l = l)%list as Hl by apply take_drop.
  assert (forall e, e ∈ serve cap stored until -> e ∈ l) as Hsub.
  { intros e He. rewrite <- Hl. apply elem_of_app. by left. }
  split.
  - intros e He%Hsub. apply list_elem_of_filter in He. tauto.
  - apply (NoDup_filter (within until)) in Hn. fold l in Hn. rewrite <- Hl in Hn. by apply NoDup_app in Hn as [? _].
  - unfold serve. fold l. rewrite length_take. intros Hlt e He Hw. rewrite take_ge by lia. by apply list_elem_of_filter.
  - intros e x He Hw Hni Hx. apply (filter_sorted _ (within until)) in Hs. fold l in Hs. rewrite <- Hl in Hs.
    assert (e ∈ l) as Hel by by apply list_elem_of_filter.
    rewrite <- Hl in Hel. apply elem_of_app in Hel as [?|Hd]; [done|].
    by apply (StronglySorted_app_1_elem_of _ _ _ x e Hs).
Qed.

(** ** From the subscription on *)

Definition unbounded (fs : list Filter) : bool := forallb (fun f => (fl_Limit f =? 0) && (fl_Until f =? 0)) fs.

Lemma resume_unbounded relay overlap fs f : unbounded fs = true -> unbounded (resumeFilters relay overlap fs f) = true.
Proof.
  unfold unbounded, resumeFilters. intros H. case_match; [done|]. rewrite forallb_forall in *.
  intros c Hc. apply list_elem_of_In, list_elem_of_fmap in Hc as (c0 & -> & Hc). apply list_elem_of_In, H in Hc. by case_match.
Qed.

(** C26: a follow whose filters carry no limit and no until reads everything a
    relay holds for them, although the relay's cap cuts its answers: at most 100
    pages after the subscription it stops asking, and every stored event was
    already known or was handed to the caller, unless the paging gave up, and
    then the warning was shown.  The relay answers newest first with at least
    50 events when it cuts, and no single second holds as many events as its
    cap (a second that does hides what is older, as the examples show). *)
Theorem follow_complete `{Nmilat} cap stored answer a s :
  unbounded (sm_filters s) = true -> ar_send a = true ->
  store_ok cap (lowest_since (resumeFilters (sm_relay s) (sm_overlap s) (sm_filters s) (sm_state s)) true 0) stored ->
  (forall i until, reply_ok cap stored until (answer i until)) ->
  exists s0 s' out,
    subscribe a s = (s0, [OSubscribe (sm_subID s) (pg_base (sm_pager s0))], None) /\
    converse 101 answer 0 (sm_subID s) s0 = (s', out, None) /\
    pg_sub (sm_pager s') = ""%string /\
    ((pg_cut (sm_pager s') <> ""%string /\ OWarn (pg_cut (sm_pager s')) ∈ out) \/
     (pg_cut (sm_pager s') = ""%string /\
      forall e, e ∈ stored -> known (ev_ID e) (sm_state s) = true \/ handed_over out (ev_ID e))).
Proof.
  intros Hf Ha Hso Hao. unfold subscribe. rewrite Ha.
  set (fs := resumeFilters _ _ _ _) in *.
  assert (unbounded fs = true) as Hok by by apply resume_unbounded.
  set (s0 := with_pager _ s).
  destruct (converse_complete cap _ stored Hso answer Hao 101 0 (sm_subID s) s0 (fun id => known id (sm_state s) = true))
    as (s' & out & Hrun & Hend); [|done|by intros e _ Hz|done|by exists s0, s', out].
  split; subst s0; cbn [with_pager sm_pager sm_subID pager_restart newFollowPager pg_sub pg_stored pg_until pg_ids pg_n
    pg_fresh pg_minAt pg_ok pg_since pg_cut pg_pages]; try done. by left.
Qed.
