(* ===== verification/ClientRun.v ===== *)
(** * Following relays: connecting, reconnecting and the start

    Models [Follow] and [follower.run] of [src/client/follow.go]: one goroutine
    per relay dials, streams and waits before it dials again; [Follow] waits for
    the goroutines' first reports, to fail fast when no relay can be reached.
    What dialing and a stream end with, the moments the context is done and the
    order in which the goroutines' reports arrive are arguments. *)
From S2P Require Import Prelude GoTime GoStrings Nostr ClientFollow.
From stdpp Require Import options.

Local Open Scope Z_scope.

(** ** One relay *)

(** An error of [run]: a [*LoginError], [errEmit], or one that is retried. *)
Inductive run_error := ELogin | EEmit | ERetry (text : string).

(** A stream's end as an error. *)
Definition run_error_of (e : stop) : run_error :=
  match e with
  | StopLogin _ => ELogin
  | StopEmit => EEmit
  | StopClosed => ERetry "connection closed"
  | StopRefused text => ERetry ("relay closed the subscription: " ++ text)
  | StopError text => ERetry text
  end.

(** One turn of the loop: whether the context is done when it begins; the
    dial's error; the stream's (none when the context ended it); whether the
    context is done after it, or while it waits. *)
Record turn := mkTurn {
  tn_done : bool;
  tn_dial : option run_error;
  tn_stream : option run_error;
  tn_over : bool;
  tn_interrupted : bool;
}.

(** What a run does: it reports its first dial, warns, waits. *)
Inductive run_output :=
| RConnected (ok : bool)
| RWarn (e : option run_error)
| RWait (d : Z).

(** How it ends; [RunGoing] when the given turns are over. *)
Inductive run_end := RunNil | RunErr (e : run_error) | RunGoing.

Definition followBackoff : Z * Z := (Second, 30 * Second).

Definition fatal (e : option run_error) : option run_error :=
  match e with
  | Some ELogin => Some ELogin
  | Some EEmit => Some EEmit
  | _ => None
  end.

Fixpoint run_loop (first : bool) (wait : Z) (turns : list turn) : list run_output * run_end :=
  match turns with
  | [] => ([], RunGoing)
  | t :: turns =>
      if tn_done t then ([], RunNil) else
      let ok := bool_decide (tn_dial t = None) in
      let report := if first then [RConnected ok] else [] in
      let wait := if ok then followBackoff.1 else wait in
      let err := if ok then tn_stream t else tn_dial t in
      match fatal err with
      | Some e => (report, RunErr e)
      | None =>
          if tn_over t then (report, RunNil) else
          let report := (report ++ [RWarn err; RWait wait])%list in
          if tn_interrupted t then (report, RunNil) else
          let wait := wait * 2 in
          let wait := if followBackoff.2 <? wait then followBackoff.2 else wait in
          let '(out, e) := run_loop false wait turns in ((report ++ out)%list, e)
      end
  end.

Definition run (turns : list turn) : list run_output * run_end := run_loop true followBackoff.1 turns.

Definition reports (out : list run_output) : list bool :=
  omap (fun o => match o with RConnected ok => Some ok | _ => None end) out.

Definition waits (out : list run_output) : list Z :=
  omap (fun o => match o with RWait d => Some d | _ => None end) out.

(** ** All relays *)

Inductive follow_error :=
| EFollowLocal
| ENoReachableTargets
| ERun (e : run_error)
| ESave.

(** [FollowOptions]'s defaults: the overlap and the dial timeout. *)
Definition follow_defaults (overlap dial : Z) : Z * Z :=
  (if overlap =? 0 then 10 * Minute else overlap, if dial =? 0 then 30 * Second else dial).

(** The targets, remote or not. *)
Definition follow_targets (remote : list bool) : option follow_error :=
  if forallb id remote then match remote with [] => Some ENoReachableTargets | _ => None end
  else Some EFollowLocal.

(** The wait for the first reports: how many failed, or [None] when it waits
    for a report that never comes. *)
Fixpoint collect (n failed : nat) (arrived : list bool) : option nat :=
  if (n <=? failed)%nat then Some failed else
  match arrived with
  | [] => None
  | true :: _ => Some failed
  | false :: arrived => collect n (S failed) arrived
  end.

(** [Follow]: [arrived] are the runs' reports and [errs] their errors, in the
    order in which they came; [saved] says whether the last [Save] succeeds.
    [None] when it never returns. *)
Definition Follow (remote : list bool) (arrived : list bool) (errs : list run_error) (saved : bool)
    : option (option follow_error) :=
  match follow_targets remote with
  | Some e => Some (Some e)
  | None =>
      failed ← collect (length remote) 0 arrived;
      Some match errs with
           | e :: _ => Some (ERun e)
           | [] => if (failed =? length remote)%nat then Some ENoReachableTargets
                   else if saved then None else Some ESave
           end
  end.

(** ** Facts *)

(** A run reports once, unless the context is done before its first dial. *)
Definition starts (turns : list turn) : bool :=
  match turns with t :: _ => negb (tn_done t) | [] => false end.

Definition connects (turns : list turn) : bool :=
  match turns with t :: _ => negb (tn_done t) && bool_decide (tn_dial t = None) | [] => false end.

Lemma reports_app a b : reports (a ++ b) = (reports a ++ reports b)%list.
Proof. apply omap_app. Qed.

Lemma run_later_reports wait turns : reports (run_loop false wait turns).1 = [].
Proof.
  revert wait. induction turns as [|t turns IH]; intros wait; cbn [run_loop]; [done|].
  destruct (tn_done t); [done|]. destruct (fatal _); [done|]. destruct (tn_over t); [done|].
  destruct (tn_interrupted t); [done|].
  set (w := if _ <? _ then _ else _). specialize (IH w). by destruct (run_loop false w turns).
Qed.

Lemma run_reports turns : reports (run turns).1 = if starts turns then [connects turns] else [].
Proof.
  unfold run, starts, connects. destruct turns as [|t turns]; [done|]. cbn [run_loop]. destruct (tn_done t); [done|].
  cbn [negb andb]. destruct (fatal _); [done|]. destruct (tn_over t); [done|]. destruct (tn_interrupted t); [done|].
  set (w := if _ <? _ then _ else _). pose proof (run_later_reports w turns) as Hl.
  destruct (run_loop false w turns). cbn [fst] in *. by rewrite reports_app, Hl.
Qed.

Lemma collect_some n failed arrived :
  (n <= failed + length arrived)%nat \/ true ∈ arrived -> (failed <= n)%nat ->
  exists k, collect n failed arrived = Some k /\ (true ∈ arrived -> (length arrived <= n - failed)%nat -> (k < n)%nat) /\
    ((true ∉ arrived) -> k = n).
Proof.
  revert failed. induction arrived as [|b arrived IH]; intros failed Hen Hf; cbn [collect]; destruct (Nat.leb_spec n failed) as [Hle|Hgt].
  - exists failed. split_and!; [done|by intros ?%elem_of_nil|lia].
  - exfalso. destruct Hen as [He|He%elem_of_nil]; [cbn in He; lia|done].
  - exists failed. split_and!; [done|cbn [length]; lia|lia].
  - destruct b.
    + exists failed. split_and!; [done|lia|]. intros Hni. exfalso. apply Hni. by left.
    + destruct (IH (S failed)) as (k & -> & H1 & H2); [|lia|].
      { destruct Hen as [He|[|He]%elem_of_cons]; [left; cbn in He; lia|done|by right]. }
      exists k. split_and!; [done| |].
      * intros [|Hin]%elem_of_cons Hl; [done|]. apply H1; [done|]. cbn [length] in Hl. lia.
      * intros Hni. apply H2. intros Hin. apply Hni. by right.
Qed.

Lemma collect_none n failed arrived :
  (failed + length arrived < n)%nat -> (true ∉ arrived) -> collect n failed arrived = None.
Proof.
  revert failed. induction arrived as [|b arrived IH]; intros failed Hl Hni; cbn [collect];
    (destruct (Nat.leb_spec n failed); [cbn [length] in Hl; lia|]); [done|].
  destruct b; [by exfalso; apply Hni; left|]. apply IH; [cbn [length] in Hl; lia|]. intros Hin. apply Hni. by right.
Qed.

(** A relay that stays down is tried again after 1, 2, 4, 8, 16 and then every
    30 seconds. *)
Definition down (e : string) : turn := mkTurn false (Some (ERetry e)) None false false.

Definition nth_wait (k : nat) : Z := Z.min (Second * 2 ^ Z.of_nat k) (30 * Second).

Lemma nth_wait_S k : (let w := nth_wait k * 2 in if 30 * Second <? w then 30 * Second else w) = nth_wait (S k).
Proof.
  cbv zeta. unfold nth_wait. rewrite Nat2Z.inj_succ, Z.pow_succ_r by lia. set (p := 2 ^ Z.of_nat k).
  assert (0 < p) by (apply Z.pow_pos_nonneg; lia). assert (0 < Second) by done. set (sec := Second) in *. clearbody sec.
  destruct (Z.ltb_spec (30 * sec) (Z.min (sec * p) (30 * sec) * 2)); nia.
Qed.

Lemma run_backoff errs first k :
  waits (run_loop first (nth_wait k) (down <$> errs)).1 = nth_wait <$> seq k (length errs).
Proof.
  revert first k. induction errs as [|e errs IH]; intros first k; [done|].
  rewrite fmap_cons. cbn [run_loop down tn_done tn_dial tn_stream tn_over tn_interrupted length seq].
  rewrite bool_decide_eq_false_2 by done. cbn [fatal]. change (followBackoff.2) with (30 * Second).
  rewrite nth_wait_S. specialize (IH false (S k)). destruct (run_loop false (nth_wait (S k)) _) as [out e'].
  cbn [fst] in *. unfold waits in *. rewrite fmap_cons, !omap_app, IH. by destruct first.
Qed.

(** What [Follow] comes to, in whatever order the reports and the errors of
    the relays' goroutines arrive.  It returns exactly when
    some relay connected or every goroutine dialed at all: then the first error
    of a goroutine is returned; without one, the targets are unreachable
    exactly when no relay connected, and otherwise the last save's outcome
    counts.  When the context is done before some goroutine's first dial and no
    relay connected, it waits forever for a report. *)
Theorem follow_starts remote runs arrived errs saved :
  forallb id remote = true -> remote <> [] -> length runs = length remote ->
  arrived ≡ₚ (runs ≫= fun r => reports (run r).1) ->
  match Follow remote arrived errs saved with
  | None => forallb starts runs = false /\ existsb connects runs = false
  | Some r =>
      (forallb starts runs = true \/ existsb connects runs = true) /\
      match errs with
      | e :: _ => r = Some (ERun e)
      | [] => r = (if existsb connects runs then (if saved then None else Some ESave) else Some ENoReachableTargets)
      end
  end.
Proof.
  intros Hr Hne Hlen Harr. set (bs := runs ≫= fun r => reports (run r).1) in *.
  assert (true ∈ bs <-> existsb connects runs = true) as Hc.
  { rewrite existsb_exists. setoid_rewrite <- list_elem_of_In. subst bs. rewrite list_elem_of_bind.
    setoid_rewrite run_reports. split.
    - intros (r & Hin & Hr'). exists r. split; [done|]. destruct (starts r); [by apply list_elem_of_singleton in Hin|by apply elem_of_nil in Hin].
    - intros (r & Hr' & Hin). exists r. split; [|done]. rewrite Hin. replace (starts r) with true; [by left|].
      unfold connects in Hin. unfold starts. destruct r as [|t r]; [done|]. by apply andb_true_iff in Hin as [-> _]. }
  assert ((length bs <= length runs)%nat /\ (length bs = length runs <-> forallb starts runs = true)) as [Hl Hs].
  { subst bs. clear. induction runs as [|r runs [IH1 IH2]]; [done|]. cbn [mbind list_bind length forallb].
    rewrite length_app, run_reports. destruct (starts r); cbn [length andb]; [|split; [lia|split; [lia|done]]].
    split; [lia|]. rewrite <- IH2. unfold mbind. lia. }
  rewrite <- (Permutation_length Harr), <- Harr in *. unfold Follow, follow_targets. rewrite Hr.
  replace (match remote with [] => Some ENoReachableTargets | _ => None end) with (@None follow_error) by by destruct remote.
  destruct (forallb starts runs) eqn:Es, (existsb connects runs) eqn:Ec; cycle 3.
  { rewrite collect_none; [done| |]; [|by rewrite Hc].
    assert (length arrived <> length runs) by (rewrite Hs; done). lia. }
  all: destruct (collect_some (length remote) 0 arrived) as (k & Hk & Hk1 & Hk2); [|lia|].
  all: try (left; assert (length arrived = length runs) by (by apply Hs); lia).
  all: try (right; by apply Hc).
  all: rewrite Hk; cbn [mbind option_bind]; (split; [auto|]); destruct errs; [|done].
  - rewrite (proj2 (Nat.eqb_neq _ _)); [done|]. assert (k < length remote)%nat; [|lia]. apply Hk1; [by apply Hc|lia].
  - rewrite Hk2, Nat.eqb_refl by (by rewrite Hc). done.
  - rewrite (proj2 (Nat.eqb_neq _ _)); [done|]. assert (k < length remote)%nat; [|lia]. apply Hk1; [by apply Hc|lia].
Qed.

(** Two relays, one down and one up, whose report comes first, until the
    context is done; and one relay whose goroutine begins after that. *)
Definition ex_down : list turn := [down "refused"; mkTurn true None None true false].
Definition ex_up : list turn := [mkTurn false None None true false].
Definition ex_late : list turn := [mkTurn true None None true false].

Lemma follow_starts_witness :
  (match Follow [true; true] [true; false] [] true with
   | None => forallb starts [ex_down; ex_up] = false /\ existsb connects [ex_down; ex_up] = false
   | Some r => (forallb starts [ex_down; ex_up] = true \/ existsb connects [ex_down; ex_up] = true) /\ r = None
   end) /\
  Follow [true] [] [] true = None.
Proof.
  split; [|reflexivity].
  apply (follow_starts [true; true] [ex_down; ex_up] [true; false] [] true).
  - reflexivity.
  - discriminate.
  - reflexivity.
  - apply Permutation_swap.
Defined.

Lemma follow_late : reports (run ex_late).1 = [] /\ (run ex_late).2 = RunNil.
Proof. done. Qed.
