(* ===== verification/ClientLogin.v ===== *)
(** * Logging in to a relay (NIP-42) and the requests that need it

    Models [src/client/login.go]: the session of one connection, its single
    login, and the operations that wait on the connection.  The reader of the
    connection and the goroutine that signs the login share the session: what
    happens while an operation waits in its [select], the goroutine's steps
    included, is a list of [happening]s that the operation consumes, so any
    interleaving is such a list.  The connection, the signer and nip42's event
    are parameters. *)
From S2P Require Import Prelude GoTime GoStrings Nostr ClientFollow.
From stdpp Require Import options.

Local Open Scope Z_scope.

(** ** Errors and messages *)

Definition authRequiredPrefix : string := "auth-required:".

Inductive LoginReason := LoginRequired | LoginSignerRefused | LoginRelayRefused.

Inductive login_error :=
| LoginError (Relay : string) (Reason : LoginReason) (Detail : string)
| ErrConnectionClosed
| OtherError (text : string).

#[export] Instance LoginReason_eq_dec : EqDecision LoginReason.
Proof. solve_decision. Defined.
#[export] Instance login_error_eq_dec : EqDecision login_error.
Proof. solve_decision. Defined.

(** What a signer answers: the signed event, a refusal of a remote signer
    ([nip46.Error], with its wire text), a [*LoginError] or another error. *)
Inductive signed :=
| SignOk (ev : Event)
| SignRefused (wire : string)
| SignLogin (r : LoginReason) (d : string)
| SignErr (text : string).

Inductive wire_message :=
| WAuth (challenge : string)
| WOk (id : string) (accepted : bool) (text : string)
| WNotice (text : string)
| WEvent (sub : string) (ev : option Event)
| WEOSE (sub : string)
| WClosed (sub text : string)
| WOther.

(** [dialRelay]: the fallback is tried only when the primary could not be
    connected to; [conn] says that of its error, and a dial's value is
    whatever it gives. *)
Definition dialRelay {A E} (conn : E -> bool) (primary : result E A) (fallback : option (result E A)) : result E A :=
  match primary, fallback with
  | Ok c, _ => Ok c
  | Err e, None => Err e
  | Err e, Some second => if conn e then second else Err e
  end.

(** ** The session *)

Inductive AuthState := AuthStateNone | AuthStateSucceeded | AuthStateFailed.

#[export] Instance AuthState_eq_dec : EqDecision AuthState.
Proof. solve_decision. Defined.

(** The goroutine of [sendLogin]: not started, signing for a challenge, sending
    the event, over. *)
Inductive login_pc := LIdle | LSigning (challenge : string) | LSending (ev : Event) | LOver.

(** [relaySession]; [se_packets] are the AUTH packets handed to the connection
    and [se_panic] says whether a closed channel was closed again. *)
Record relaySession := mkSession {
  rs_relay : string;
  rs_signer : bool;
  rs_asked : bool;
  rs_loginID : string;
  rs_state : AuthState;
  rs_failure : option login_error;
  rs_askedCh : bool;
  rs_settleCh : bool;
  rs_login : login_pc;
  rs_packets : list Event;
  rs_panic : bool;
}.

Definition newSession (relay : string) (signer : bool) : relaySession :=
  mkSession relay signer false "" AuthStateNone None false false LIdle [] false.

Definition set_asked (challenge : string) (s : relaySession) : relaySession :=
  mkSession (rs_relay s) (rs_signer s) true (rs_loginID s) (rs_state s) (rs_failure s) true (rs_settleCh s)
    (LSigning challenge) (rs_packets s) (rs_panic s || rs_askedCh s).
Definition set_login (pc : login_pc) (s : relaySession) : relaySession :=
  mkSession (rs_relay s) (rs_signer s) (rs_asked s) (rs_loginID s) (rs_state s) (rs_failure s) (rs_askedCh s)
    (rs_settleCh s) pc (rs_packets s) (rs_panic s).
Definition set_loginID (id : string) (s : relaySession) : relaySession :=
  mkSession (rs_relay s) (rs_signer s) (rs_asked s) id (rs_state s) (rs_failure s) (rs_askedCh s)
    (rs_settleCh s) (rs_login s) (rs_packets s) (rs_panic s).
Definition set_packet (ev : Event) (s : relaySession) : relaySession :=
  mkSession (rs_relay s) (rs_signer s) (rs_asked s) (rs_loginID s) (rs_state s) (rs_failure s) (rs_askedCh s)
    (rs_settleCh s) (rs_login s) (rs_packets s ++ [ev]) (rs_panic s).

Definition settle (state : AuthState) (failure : option login_error) (s : relaySession) : relaySession :=
  if negb (bool_decide (rs_state s = AuthStateNone)) then s else
  mkSession (rs_relay s) (rs_signer s) (rs_asked s) (rs_loginID s) state failure (rs_askedCh s) true
    (rs_login s) (rs_packets s) (rs_panic s || rs_settleCh s).

Definition loggedIn (s : relaySession) : bool := bool_decide (rs_state s = AuthStateSucceeded).
Definition challenged (s : relaySession) : bool := rs_asked s && rs_signer s.

(** [observe] *)
Definition observe (m : wire_message) (s : relaySession) : bool * relaySession :=
  match m with
  | WAuth challenge =>
      if negb (rs_signer s) then (true, s)
      else if rs_asked s then (true, s) else (true, set_asked challenge s)
  | WOk id accepted text =>
      if negb (negb (is_empty (rs_loginID s)) && String.eqb id (rs_loginID s)) then (false, s)
      else (true, if accepted then settle AuthStateSucceeded None s
                  else settle AuthStateFailed (Some (LoginError (rs_relay s) LoginRelayRefused text)) s)
  | _ => (false, s)
  end.

(** ** The login's goroutine *)

(** nip42 and the full check of an event. *)
Class Nip42 := {
  KindClientAuth : Z;
  NewAuthEvent : string -> string -> Event;      (* challenge, relay *)
  Verify : Event -> bool;
}.

Section Login.
Context `{Nip42}.

Definition signLogin (relay challenge : string) (r : signed) : signed :=
  match r with
  | SignOk ev =>
      if negb (ev_Kind ev =? KindClientAuth) || negb (is_empty (ev_Content ev))
         || negb (bool_decide (ev_Tags ev = ev_Tags (NewAuthEvent challenge relay))) || negb (Verify ev)
      then SignLogin LoginSignerRefused "signer returned a different login event"
      else SignOk ev
  | r => r
  end.

(** [sendLogin], up to its send. *)
Definition sendLogin_sign (r : signed) (s : relaySession) : relaySession :=
  match rs_login s with
  | LSigning challenge =>
      let failed e := set_login LOver (settle AuthStateFailed (Some e) s) in
      match signLogin (rs_relay s) challenge r with
      | SignOk ev => set_login (LSending ev) (set_loginID (ev_ID ev) s)
      | SignRefused wire => failed (LoginError (rs_relay s) LoginSignerRefused wire)
      | SignLogin reason d => failed (LoginError (rs_relay s) reason d)
      | SignErr text => failed (OtherError ("signing the login for " ++ rs_relay s ++ ": " ++ text))
      end
  | _ => s
  end.

(** The send itself, or the connection was closed. *)
Definition sendLogin_send (taken : bool) (s : relaySession) : relaySession :=
  match rs_login s with
  | LSending ev => set_login LOver (if taken then set_packet ev s else s)
  | _ => s
  end.

(** ** Waiting on the connection *)

(** What may happen next: a step of the goroutine; or a [select] takes an arm:
    a message, the closed [Read], an error of the connection, [Closed], the
    context's end, the timer, the settled login, the first challenge. *)
Inductive happening :=
| HSign (r : signed)
| HSent (taken : bool)
| HMsg (m : wire_message)
| HReadClosed
| HError (text : string)
| HClosed
| HDone (text : string)
| HTimeout
| HSettled
| HAsked.

(** An operation's result; [Waiting] when what happened did not end it. *)
Inductive outcome (A : Type) := Waiting | Returned (a : A).
Arguments Waiting {A}.
Arguments Returned {A} a.

Definition background (h : happening) (s : relaySession) : relaySession :=
  match h with
  | HSign r => sendLogin_sign r s
  | HSent taken => sendLogin_send taken s
  | _ => s
  end.

Definition awaitLogin_result (s : relaySession) : outcome (option login_error) := Returned (rs_failure s).

(** The [select] of [awaitLogin], with the check before it at every turn.  The
    messages for [other] come second. *)
Fixpoint awaitLogin_loop (refusal : string) (l : list happening) (s : relaySession)
    : outcome (option login_error) * list wire_message * relaySession * list happening :=
  match l with
  | [] => (Waiting, [], s, [])
  | h :: l =>
      match h with
      | HSettled => if rs_settleCh s then (awaitLogin_result s, [], s, l) else awaitLogin_loop refusal l s
      | HMsg m =>
          let '(ours, s) := observe m s in
          let passed := if ours then [] else [m] in
          if rs_settleCh s then (awaitLogin_result s, passed, s, l)
          else let '(r, others, s, l) := awaitLogin_loop refusal l s in (r, (passed ++ others)%list, s, l)
      | HReadClosed | HClosed => (Returned (Some ErrConnectionClosed), [], s, l)
      | HError e | HDone e => (Returned (Some (OtherError e)), [], s, l)
      | HTimeout =>
          (Returned (Some (LoginError (rs_relay s) LoginRelayRefused
             (if challenged s then "no answer to the login"%string
              else refusal ++ " (the relay sent no AUTH challenge)"))), [], s, l)
      | HSign _ | HSent _ => awaitLogin_loop refusal l (background h s)
      | HAsked => awaitLogin_loop refusal l s
      end
  end.

Definition awaitLogin (refusal : string) (l : list happening) (s : relaySession)
    : outcome (option login_error) * list wire_message * relaySession * list happening :=
  if negb (rs_signer s) then (Returned (Some (LoginError (rs_relay s) LoginRequired refusal)), [], s, l)
  else if rs_settleCh s then (awaitLogin_result s, [], s, l)
  else awaitLogin_loop refusal l s.

Fixpoint loginFirst_loop (l : list happening) (s : relaySession)
    : outcome (option login_error) * list wire_message * relaySession * list happening :=
  match l with
  | [] => (Waiting, [], s, [])
  | h :: l =>
      match h with
      | HAsked => if rs_askedCh s then awaitLogin "" l s else loginFirst_loop l s
      | HMsg m =>
          let '(ours, s) := observe m s in
          let passed := if ours then [] else [m] in
          let '(r, others, s, l) := loginFirst_loop l s in (r, (passed ++ others)%list, s, l)
      | HReadClosed => (Returned (Some ErrConnectionClosed), [], s, l)
      | HError e | HDone e => (Returned (Some (OtherError e)), [], s, l)
      | HTimeout => (Returned None, [], s, l)
      | HSign _ | HSent _ => loginFirst_loop l (background h s)
      | HClosed | HSettled => loginFirst_loop l s
      end
  end.

Definition loginFirst (l : list happening) (s : relaySession)
    : outcome (option login_error) * list wire_message * relaySession * list happening :=
  if negb (rs_signer s) then (Returned None, [], s, l) else loginFirst_loop l s.

(** ** Publishing *)

(** The relay's OK for [id]: accepted, and its message. *)
Fixpoint awaitOK_loop (id : string) (l : list happening) (s : relaySession)
    : outcome (result login_error (bool * string)) * relaySession * list happening :=
  match l with
  | [] => (Waiting, s, [])
  | h :: l =>
      match h with
      | HMsg m =>
          let '(ours, s) := observe m s in
          if ours then awaitOK_loop id l s else
          match m with
          | WOk id' accepted text => if String.eqb id' id then (Returned (Ok (accepted, text)), s, l) else awaitOK_loop id l s
          | _ => awaitOK_loop id l s
          end
      | HError e | HDone e => (Returned (Err (OtherError e)), s, l)
      | HClosed => (Returned (Err (OtherError "connection closed")), s, l)
      | HTimeout => (Returned (Err (OtherError "timeout waiting for OK")), s, l)
      | HSign _ | HSent _ => awaitOK_loop id l (background h s)
      | HReadClosed | HSettled | HAsked => awaitOK_loop id l s
      end
  end.

(** The operations that send a request are told whether the connection takes
    it, and say how often it did. *)
Definition awaitOK (sent : bool) (id : string) (l : list happening) (s : relaySession)
    : outcome (result login_error (bool * string)) * nat * relaySession * list happening :=
  if negb sent then (Returned (Err (OtherError "connection closed during send")), 0%nat, s, l)
  else let '(r, s, l) := awaitOK_loop id l s in (r, 1%nat, s, l).

(** The answer once no further try is made. *)
Definition publish_verdict (accepted : bool) (text : string) (s : relaySession) : result login_error string :=
  if accepted then Ok text
  else if loggedIn s && (refusedForLogin text || HasPrefix text restrictedPrefix)
  then Err (LoginError (rs_relay s) LoginRelayRefused text)
  else Err (OtherError ("relay rejected event: " ++ text)).

Definition publish_again (sent : bool) (id : string) (l : list happening) (s : relaySession)
    : outcome (result login_error string) * nat * relaySession * list happening :=
  match awaitOK sent id l s with
  | (Waiting, n, s, l) => (Waiting, n, s, l)
  | (Returned (Err e), n, s, l) => (Returned (Err e), n, s, l)
  | (Returned (Ok (accepted, text)), n, s, l) => (Returned (publish_verdict accepted text s), n, s, l)
  end.

Definition publish (sent again : bool) (id : string) (l : list happening) (s : relaySession)
    : outcome (result login_error string) * nat * relaySession * list happening :=
  match awaitOK sent id l s with
  | (Waiting, n, s, l) => (Waiting, n, s, l)
  | (Returned (Err e), n, s, l) => (Returned (Err e), n, s, l)
  | (Returned (Ok (accepted, text)), n, s, l) =>
      if negb accepted && refusedForLogin text then
        match awaitLogin text l s with
        | (Waiting, _, s, l) => (Waiting, n, s, l)
        | (Returned (Some e), _, s, l) => (Returned (Err e), n, s, l)
        | (Returned None, _, s, l) => let '(r, n', s, l) := publish_again again id l s in (r, (n + n')%nat, s, l)
        end
      else (Returned (publish_verdict accepted text s), n, s, l)
  end.

(** ** Reading *)

(** The stored events and, when the relay closed the request, why. *)
Definition once : Type := list (option Event) * option string.

Fixpoint subscribe_loop (sub : string) (events : list (option Event)) (l : list happening) (s : relaySession)
    : outcome (result login_error once) * relaySession * list happening :=
  match l with
  | [] => (Waiting, s, [])
  | h :: l =>
      match h with
      | HMsg m =>
          let '(ours, s) := observe m s in
          if ours then subscribe_loop sub events l s else
          match m with
          | WEvent sub' ev =>
              subscribe_loop sub (if String.eqb sub' sub then (events ++ [ev])%list else events) l s
          | WEOSE sub' =>
              if String.eqb sub' sub then (Returned (Ok (events, None)), s, l) else subscribe_loop sub events l s
          | WClosed sub' text =>
              if String.eqb sub' sub then (Returned (Ok (events, Some text)), s, l) else subscribe_loop sub events l s
          | _ => subscribe_loop sub events l s
          end
      | HReadClosed => (Returned (Ok (events, None)), s, l)
      | HError e | HDone e => (Returned (Err (OtherError e)), s, l)
      | HSign _ | HSent _ => subscribe_loop sub events l (background h s)
      | HClosed | HTimeout | HSettled | HAsked => subscribe_loop sub events l s
      end
  end.

Definition subscribeOnce (sub : string) (sent : bool) (l : list happening) (s : relaySession)
    : outcome (result login_error once) * nat * relaySession * list happening :=
  if negb sent then (Returned (Err ErrConnectionClosed), 0%nat, s, l)
  else let '(r, s, l) := subscribe_loop sub [] l s in (r, 1%nat, s, l).

Definition is_login (e : login_error) : bool := match e with LoginError _ _ _ => true | _ => false end.
Definition closed_for (p : string -> bool) (c : option string) : bool := match c with Some t => p t | None => false end.
Definition restricted (c : option string) : bool := closed_for (fun t => HasPrefix t restrictedPrefix) c.

(** The request run once more, after the login. *)
Definition read_again (sub : string) (sent : bool) (l : list happening) (s : relaySession)
    : outcome (result login_error (list (option Event) * bool)) * nat * relaySession * list happening :=
  match subscribeOnce sub sent l s with
  | (Waiting, n, s, l) => (Waiting, n, s, l)
  | (Returned (Err e), n, s, l) => (Returned (Err e), n, s, l)
  | (Returned (Ok (events, closed)), n, s, l) =>
      (Returned (if closed_for refusedForLogin closed
                 then Err (LoginError (rs_relay s) LoginRelayRefused (default ""%string closed))
                 else Ok (events, restricted closed)), n, s, l)
  end.

(** [read]; the two requests' ids and whether they are taken. *)
Definition read (sub : string) (sent : bool) (sub' : string) (again : bool) (l : list happening) (s : relaySession)
    : outcome (result login_error (list (option Event) * bool)) * nat * relaySession * list happening :=
  let loggedInBefore := loggedIn s in
  match subscribeOnce sub sent l s with
  | (Waiting, n, s, l) => (Waiting, n, s, l)
  | (Returned (Err e), n, s, l) => (Returned (Err e), n, s, l)
  | (Returned (Ok (events, closed)), n, s, l) =>
      if closed_for refusedForLogin closed then
        match awaitLogin (default ""%string closed) l s with
        | (Waiting, _, s, l) => (Waiting, n, s, l)
        | (Returned (Some e), _, s, l) => (Returned (Err e), n, s, l)
        | (Returned None, _, s, l) => let '(r, n', s, l) := read_again sub' again l s in (r, (n + n')%nat, s, l)
        end
      else if challenged s && negb loggedInBefore && (bool_decide (closed = None) || restricted closed) then
        match awaitLogin (default ""%string closed) l s with
        | (Waiting, _, s, l) => (Waiting, n, s, l)
        | (Returned (Some e), _, s, l) =>
            (Returned (if is_login e && bool_decide (closed = None) then Ok (events, false) else Err e), n, s, l)
        | (Returned None, _, s, l) => let '(r, n', s, l) := read_again sub' again l s in (r, (n + n')%nat, s, l)
        end
      else (Returned (Ok (events, restricted closed)), n, s, l)
  end.

End Login.

Arguments Waiting {A}.
Arguments Returned {A} a.
