(* ===== verification/ClientLoginFacts.v ===== *)
(** * Logging in to a relay: one login, for that relay

    Every operation on a session is a run of the same two kinds of step, a
    message observed and a step of the login's goroutine ([session_run]); an
    invariant over such runs gives what holds however the operations are called
    and interleaved. *)
From S2P Require Import Prelude GoTime GoStrings Nostr ClientFollow ClientLogin.
From stdpp Require Import options.

Local Open Scope Z_scope.

Section Facts.
Context `{Nip42}.

Definition session_step (s : relaySession) (h : happening) : relaySession :=
  match h with
  | HMsg m => (observe m s).2
  | h => background h s
  end.

Definition session_run (l : list happening) (s : relaySession) : relaySession := fold_left session_step l s.

Definition challenge_of (h : happening) : option string :=
  match h with HMsg (WAuth c) => Some c | _ => None end.

Definition first_challenge (l : list happening) : option string := head (omap challenge_of l).

(** The event that a login for [challenge] at [relay] may be. *)
Record login_event (relay challenge : string) (ev : Event) : Prop := {
  le_kind : ev_Kind ev = KindClientAuth;
  le_content : ev_Content ev = ""%string;
  le_tags : ev_Tags ev = ev_Tags (NewAuthEvent challenge relay);
  le_verified : Verify ev = true;
}.

Lemma signLogin_ok relay challenge r ev :
  signLogin relay challenge r = SignOk ev -> r = SignOk ev /\ login_event relay challenge ev.
Proof.
  destruct r as [ev'| | |]; try done. cbn [signLogin].
  destruct (_ || negb (Verify ev')) eqn:E; [done|]. intros [= <-].
  rewrite !orb_false_iff, !negb_false_iff, bool_decide_eq_true in E. destruct E as [[[E1 E2] E3] E4].
  split; [done|]. split; [by apply Z.eqb_eq|by destruct (ev_Content ev')|done|done].
Qed.

(** The goroutine of [sendLogin] and what it has done. *)
Definition login_at (l : list happening) (s : relaySession) : Prop :=
  match rs_login s with
  | LIdle => rs_asked s = false /\ rs_loginID s = ""%string /\ rs_packets s = []
  | LSigning c => rs_asked s = true /\ first_challenge l = Some c /\ rs_loginID s = ""%string /\ rs_packets s = []
  | LSending ev => rs_asked s = true /\ rs_packets s = [] /\ rs_loginID s = ev_ID ev /\
      exists c, first_challenge l = Some c /\ login_event (rs_relay s) c ev
  | LOver => rs_asked s = true /\ (rs_packets s = [] \/ exists c ev, first_challenge l = Some c /\
      login_event (rs_relay s) c ev /\ rs_packets s = [ev] /\ rs_loginID s = ev_ID ev)
  end.

Record session_inv (relay : string) (signer : bool) (l : list happening) (s : relaySession) : Prop := {
  si_relay : rs_relay s = relay /\ rs_signer s = signer;
  si_panic : rs_panic s = false;
  si_asked : rs_askedCh s = rs_asked s /\ (rs_asked s = true -> signer = true) /\
    (signer = true -> rs_asked s = false -> first_challenge l = None);
  si_login : login_at l s;
  si_settled : rs_settleCh s = negb (bool_decide (rs_state s = AuthStateNone)) /\
    (rs_state s = AuthStateFailed <-> rs_failure s <> None);
  si_state : rs_state s = AuthStateSucceeded ->
    rs_loginID s <> ""%string /\ exists text, HMsg (WOk (rs_loginID s) true text) ∈ l;
}.

Lemma first_challenge_snoc l h :
  first_challenge (l ++ [h]) = match first_challenge l with Some c => Some c | None => challenge_of h end.
Proof.
  unfold first_challenge. rewrite omap_app. destruct (omap challenge_of l); [|done]. cbn. by destruct (challenge_of h).
Qed.

Lemma first_challenge_stays l h c : first_challenge l = Some c -> first_challenge (l ++ [h]) = Some c.
Proof. intros E. by rewrite first_challenge_snoc, E. Qed.

(** What happens next keeps the invariant, when the session does not change. *)
Lemma inv_idle relay signer l h s :
  session_inv relay signer l s -> (rs_asked s = true \/ signer = false \/ challenge_of h = None) ->
  session_inv relay signer (l ++ [h]) s.
Proof.
  intros [I1 I2 (I3 & I4 & I5) I6 I7 I8] Hh. split; try done.
  - split_and!; [done|done|]. intros Hs Ha. rewrite first_challenge_snoc, (I5 Hs Ha).
    destruct Hh as [?|[?|?]]; congruence.
  - unfold login_at in *. destruct (rs_login s); naive_solver eauto using first_challenge_stays.
  - intros Hs. destruct (I8 Hs) as (? & t & ?). split; [done|]. exists t. apply elem_of_app. by left.
Qed.

(** Settling an unsettled login. *)
Lemma inv_settle relay signer l st e s :
  session_inv relay signer l s ->
  (st = AuthStateFailed /\ e <> None) \/
  (st = AuthStateSucceeded /\ e = None /\ rs_loginID s <> ""%string /\ exists text, HMsg (WOk (rs_loginID s) true text) ∈ l) ->
  session_inv relay signer l (settle st e s).
Proof.
  intros HI Hst. unfold settle. destruct (decide (rs_state s = AuthStateNone)) as [Hn|Hn].
  - rewrite bool_decide_eq_true_2 by done. cbn [negb]. destruct HI as [I1 I2 I3 I4 [I5 I5'] I6].
    split; cbn [rs_relay rs_signer rs_asked rs_loginID rs_state rs_failure rs_askedCh rs_settleCh rs_login rs_packets rs_panic]; try done.
    + rewrite I2, I5, bool_decide_eq_true_2 by done. done.
    + destruct Hst as [[-> He]|(-> & -> & _)]; (split; [done|]); split; done.
    + intros ->. destruct Hst as [[? _]|(_ & _ & ? & ?)]; [done|]. done.
  - by rewrite bool_decide_eq_false_2 by done.
Qed.

Lemma settle_frame st e s : rs_asked (settle st e s) = rs_asked s /\ rs_packets (settle st e s) = rs_packets s.
Proof. unfold settle. by case_match. Qed.

Lemma session_step_inv relay signer l h s :
  session_inv relay signer l s -> session_inv relay signer (l ++ [h]) (session_step s h).
Proof.
  intros HI. destruct h as [r|taken|m| | | | | | |]; cbn [session_step background];
    try (apply inv_idle; [done|by right; right]).
  - apply (inv_idle _ _ _ (HSign r)) in HI; [|by right; right]. unfold sendLogin_sign.
    destruct (rs_login s) as [|c| |] eqn:El; try done.
    pose proof (si_login _ _ _ _ HI) as Hl. unfold login_at in Hl. rewrite El in Hl. destruct Hl as (Ha & Hc & Hid & Hp).
    assert (forall e, session_inv relay signer (l ++ [HSign r]) (set_login LOver (settle AuthStateFailed (Some e) s))) as Hfail.
    { intros e. pose proof (inv_settle _ _ _ AuthStateFailed (Some e) s HI ltac:(by left)) as [J1 J2 J3 J4 J5 J6].
      split; try done. unfold login_at. cbn [set_login rs_login rs_asked rs_packets].
      destruct (settle_frame AuthStateFailed (Some e) s) as [-> ->]. auto. }
    destruct (signLogin _ _ _) as [ev| | |] eqn:E; try apply Hfail.
    apply signLogin_ok in E as [_ Hev]. destruct HI as [I1 I2 I3 I4 I5 I6]. split; try done.
    + unfold login_at. cbn [set_login set_loginID rs_login rs_asked rs_loginID rs_relay rs_packets]. eauto 6.
    + cbn [set_login set_loginID rs_state rs_loginID]. intros Hs. by destruct (I6 Hs).
  - apply (inv_idle _ _ _ (HSent taken)) in HI; [|by right; right]. unfold sendLogin_send.
    destruct (rs_login s) as [| |ev|] eqn:El; try done.
    destruct HI as [I1 I2 I3 I4 I5 I6]. unfold login_at in I4. rewrite El in I4. destruct I4 as (Ha & Hp & Hid & c & Hc & Hev).
    split; destruct taken; try done; unfold login_at; cbn [set_login set_packet rs_login rs_asked rs_packets rs_relay rs_loginID];
      rewrite ?Hp; (split; [done|]); eauto 8.
  - destruct m as [c|id acc text| | | | |]; cbn [observe]; try (apply inv_idle; [done|by right; right]).
    + destruct (rs_signer s) eqn:Es; cbn [negb]; [|apply inv_idle; [done|right; left; by destruct (si_relay _ _ _ _ HI) as [_ <-]]].
      destruct (rs_asked s) eqn:Ea; cbn [snd]; [apply inv_idle; auto|].
      destruct HI as [[I1 I1'] I2 (I3 & I3' & I3'') I4 I5 I6]. rewrite Es in I1'. specialize (I3'' ltac:(done) Ea).
      assert (first_challenge (l ++ [HMsg (WAuth c)]) = Some c) as Hc by by rewrite first_challenge_snoc, I3''.
      unfold login_at in I4. destruct (rs_login s) eqn:El; destruct I4 as (Ha & I4); try congruence.
      split; cbn [set_asked rs_relay rs_signer rs_asked rs_loginID rs_state rs_failure rs_askedCh rs_settleCh rs_login rs_packets rs_panic];
        rewrite ?I2, ?I3, ?Ea; try done.
      * by rewrite Es.
      * intros Hs. destruct (I6 Hs) as (Hne & _). by destruct I4.
    + destruct (negb (is_empty (rs_loginID s)) && String.eqb id (rs_loginID s)) eqn:E; cbn [negb snd];
        [|apply inv_idle; [done|by right; right]].
      apply andb_true_iff in E as [E1 ->%String.eqb_eq]. apply negb_true_iff, is_empty_false in E1.
      apply (inv_idle _ _ _ (HMsg (WOk (rs_loginID s) acc text))) in HI; [|by right; right].
      destruct acc; apply inv_settle; try done; [right|by left]. split_and!; try done. exists text. set_solver.
Qed.

Lemma login_packets l s : login_at l s ->
  rs_packets s = [] \/ (rs_asked s = true /\ exists c ev, first_challenge l = Some c /\ login_event (rs_relay s) c ev /\ rs_packets s = [ev]).
Proof. unfold login_at. destruct (rs_login s); naive_solver. Qed.

Lemma session_run_inv relay signer l : session_inv relay signer l (session_run l (newSession relay signer)).
Proof.
  induction l as [|h l IH] using rev_ind; [by split|].
  unfold session_run in *. rewrite fold_left_app. cbn [fold_left]. by apply session_step_inv.
Qed.

(** ** The operations are runs *)

(** [l] was consumed up to [rest], which took the session from [s] to [s']. *)
Definition consumed (l : list happening) (s s' : relaySession) (rest pre : list happening) : Prop :=
  l = (pre ++ rest)%list /\ s' = session_run pre s.

Lemma consumed_none l s : consumed l s s l [].
Proof. done. Qed.

Lemma consumed_one h l s : consumed (h :: l) s (session_step s h) l [h].
Proof. done. Qed.

Lemma consumed_cons h l s s' rest pre :
  consumed l (session_step s h) s' rest pre -> consumed (h :: l) s s' rest (h :: pre).
Proof. intros [-> ->]. done. Qed.

Lemma consumed_app l s s1 l1 s2 l2 pre1 pre2 :
  consumed l s s1 l1 pre1 -> consumed l1 s1 s2 l2 pre2 -> consumed l s s2 l2 (pre1 ++ pre2).
Proof.
  intros [-> ->] [-> ->]. split; [by rewrite (assoc_L (++))|]. unfold session_run. by rewrite fold_left_app.
Qed.

(** The next thing that happened ended the operation. *)
Ltac returns :=
  match goal with
  | |- context [?h :: ?l] => exists [h]; split_and!; try done; cbn; lia
  end.

Definition timeouts (l : list happening) : nat :=
  length (omap (fun h => match h with HTimeout => Some tt | _ => None end) l).

Lemma timeouts_app l l' : timeouts (l ++ l') = (timeouts l + timeouts l')%nat.
Proof. unfold timeouts. by rewrite omap_app, length_app. Qed.

Lemma timeouts_cons h l : h <> HTimeout -> timeouts (h :: l) = timeouts l.
Proof. by destruct h. Qed.

(** What [awaitLogin] comes to: without a timer it may wait on, and it returns
    nil only for a settled login that did not fail. *)
Definition login_spec (l : list happening) (s : relaySession)
    (x : outcome (option login_error) * list wire_message * relaySession * list happening) : Prop :=
  let '(r, _, s', rest) := x in
  exists pre, consumed l s s' rest pre /\ ((timeouts pre <= 1)%nat /\ (r = Waiting -> rest = [] /\ timeouts pre = 0%nat)) /\
    (r = Returned None -> rs_settleCh s' = true /\ rs_failure s' = None).

Lemma login_spec_cons h l s x : h <> HTimeout -> login_spec l (session_step s h) x -> login_spec (h :: l) s x.
Proof.
  intros Hh. destruct x as [[[r ?] s'] rest]. intros (pre & Hc & Hw & Hn). exists (h :: pre).
  rewrite timeouts_cons by done. split_and!; [by apply consumed_cons|by apply Hw|by apply Hw|done].
Qed.

Lemma awaitLogin_loop_spec refusal l s : login_spec l s (awaitLogin_loop refusal l s).
Proof.
  revert s. induction l as [|h l IH]; intros s; cbn [awaitLogin_loop].
  - exists []. split_and!; [done|cbn; lia|done|done].
  - destruct h as [r|taken|m| | | | | | |]; try (by apply login_spec_cons, IH); try returns.
    + pose proof (login_spec_cons (HMsg m) l s _ ltac:(done) (IH _)) as Hgo. cbn [session_step] in Hgo.
      destruct (observe m s) as [ours s1] eqn:Eo. cbn [snd] in Hgo. destruct (rs_settleCh s1) eqn:Es.
      * exists [HMsg m]. split_and!; [|cbn; lia|done|by intros [= Hf]]. split; [done|]. unfold session_run. cbn [fold_left session_step]. by rewrite Eo.
      * by destruct (awaitLogin_loop refusal l s1) as [[[r o] s'] rest].
    + destruct (rs_settleCh s) eqn:Es; [|by apply login_spec_cons, IH].
      exists [HSettled]. split_and!; [done|cbn; lia|done|]. by intros [= Hf].
Qed.

Lemma awaitLogin_spec refusal l s : login_spec l s (awaitLogin refusal l s).
Proof.
  unfold awaitLogin. destruct (negb (rs_signer s)); [exists []; split_and!; try done; cbn; lia|].
  destruct (rs_settleCh s) eqn:Es; [|apply awaitLogin_loop_spec]. exists []. split_and!; [done|cbn; lia|done|]. by intros [= Hf].
Qed.

(** The answer to an event is the last thing read. *)
Definition answer_spec (id : string) (l : list happening) (s : relaySession)
    (x : outcome (result login_error (bool * string)) * relaySession * list happening) : Prop :=
  let '(r, s', rest) := x in
  exists pre, consumed l s s' rest pre /\ ((timeouts pre <= 1)%nat /\ (r = Waiting -> rest = [] /\ timeouts pre = 0%nat)) /\
    (forall acc text, r = Returned (Ok (acc, text)) -> last pre = Some (HMsg (WOk id acc text))).

Lemma answer_spec_cons id h l s x : h <> HTimeout -> answer_spec id l (session_step s h) x -> answer_spec id (h :: l) s x.
Proof.
  intros Hh. destruct x as [[r s'] rest]. intros (pre & Hc & Hw & Hn). exists (h :: pre).
  rewrite timeouts_cons by done. split_and!; [by apply consumed_cons|by apply Hw|by apply Hw|].
  intros acc text Hr. by rewrite last_cons, (Hn acc text Hr).
Qed.

Lemma awaitOK_loop_spec id l s : answer_spec id l s (awaitOK_loop id l s).
Proof.
  revert s. induction l as [|h l IH]; intros s; cbn [awaitOK_loop].
  - exists []. split_and!; [done|cbn; lia|done|done].
  - destruct h as [r|taken|m| | | | | | |]; try (by apply answer_spec_cons, IH); try returns.
    pose proof (answer_spec_cons id (HMsg m) l s _ ltac:(done) (IH _)) as Hgo. cbn [session_step] in Hgo.
    destruct (observe m s) as [ours s1] eqn:Eo. cbn [snd] in Hgo. destruct ours; [done|].
    destruct m as [|id' acc text| | | | |]; try done. destruct (String.eqb_spec id' id) as [->|]; [|done].
    exists [HMsg (WOk id acc text)]. split_and!; [|cbn; lia|done|by intros ? ? [= -> ->]].
    split; [done|]. unfold session_run. cbn [fold_left session_step]. by rewrite Eo.
Qed.

(** The events of a request among what was consumed, and what ends it. *)
Definition events_of (sub : string) (l : list happening) : list (option Event) :=
  omap (fun h => match h with HMsg (WEvent sub' ev) => if String.eqb sub' sub then Some ev else None | _ => None end) l.

Definition ends (sub : string) (closed : option string) (h : happening) : Prop :=
  (closed = None /\ (h = HMsg (WEOSE sub) \/ h = HReadClosed)) \/ (exists text, closed = Some text /\ h = HMsg (WClosed sub text)).

Definition request_spec (sub : string) (events : list (option Event)) (l : list happening) (s : relaySession)
    (x : outcome (result login_error once) * relaySession * list happening) : Prop :=
  let '(r, s', rest) := x in
  exists pre, consumed l s s' rest pre /\ (r = Waiting -> rest = []) /\
    (forall evs closed, r = Returned (Ok (evs, closed)) ->
       evs = (events ++ events_of sub pre)%list /\ exists h, last pre = Some h /\ ends sub closed h).

Lemma request_spec_cons sub events h l s x :
  request_spec sub (events ++ events_of sub [h]) l (session_step s h) x -> request_spec sub events (h :: l) s x.
Proof.
  destruct x as [[r s'] rest]. intros (pre & Hc & Hw & Hn). exists (h :: pre). split_and!; [by apply consumed_cons|done|].
  intros evs closed Hr. destruct (Hn evs closed Hr) as (-> & x & Hx & He). split; [|exists x; by rewrite last_cons, Hx].
  change (h :: pre) with ([h] ++ pre)%list. unfold events_of. by rewrite omap_app, (assoc_L (++)).
Qed.

Lemma request_spec_skip sub events h l s x :
  events_of sub [h] = [] -> request_spec sub events l (session_step s h) x -> request_spec sub events (h :: l) s x.
Proof. intros Hn Hx. apply request_spec_cons. by rewrite Hn, app_nil_r. Qed.

Lemma request_spec_end sub events closed h l s :
  events_of sub [h] = [] -> ends sub closed h ->
  request_spec sub events (h :: l) s (Returned (Ok (events, closed)), session_step s h, l).
Proof.
  intros Hn He. exists [h]. split_and!; [done|done|]. intros evs closed' [= <- <-]. rewrite Hn, app_nil_r. eauto.
Qed.

Lemma subscribe_loop_spec sub events l s : request_spec sub events l s (subscribe_loop sub events l s).
Proof.
  revert events s. induction l as [|h l IH]; intros events s; cbn [subscribe_loop]; [by exists []|].
  destruct h as [r|taken|m| | | | | | |]; try (by apply request_spec_skip, IH); try returns.
  - destruct (observe m s) as [ours s1] eqn:Eo. assert (session_step s (HMsg m) = s1) as Hs by (cbn; by rewrite Eo).
    destruct ours; [apply request_spec_skip; [by destruct m; inversion Eo|rewrite Hs; apply IH]|].
    destruct m as [| | |sub' ev|sub'|sub' text|]; try (apply request_spec_skip; [done|rewrite Hs; apply IH]).
    + apply request_spec_cons. rewrite Hs. cbn. destruct (String.eqb sub' sub); [apply IH|rewrite app_nil_r; apply IH].
    + destruct (String.eqb_spec sub' sub) as [->|]; [|apply request_spec_skip; [done|rewrite Hs; apply IH]].
      rewrite <- Hs. apply request_spec_end; [done|]. left. auto.
    + destruct (String.eqb_spec sub' sub) as [->|]; [|apply request_spec_skip; [done|rewrite Hs; apply IH]].
      rewrite <- Hs. apply request_spec_end; [done|]. right. eauto.
  - apply (request_spec_end sub events None HReadClosed); [done|]. left. auto.
Qed.

Lemma loginFirst_run l s :
  let '(r, _, s', rest) := loginFirst l s in exists pre, consumed l s s' rest pre.
Proof.
  unfold loginFirst. destruct (negb (rs_signer s)); [by exists []|]. revert s.
  induction l as [|h l IH]; intros s; cbn [loginFirst_loop]; [by exists []|].
  assert (let '(r, _, s', rest) := loginFirst_loop l (session_step s h) in exists pre, consumed (h :: l) s s' rest pre) as Hgo.
  { specialize (IH (session_step s h)). destruct (loginFirst_loop _ _) as [[[r o] s'] rest]. destruct IH as [pre Hc].
    exists (h :: pre). by apply consumed_cons. }
  destruct h as [r|taken|m| | | | | | |]; try exact Hgo; try (eexists; apply consumed_one).
  - cbn [session_step] in Hgo. destruct (observe m s) as [ours s1]. cbn [snd] in Hgo.
    by destruct (loginFirst_loop l s1) as [[[r o] s'] rest].
  - destruct (rs_askedCh s); [|exact Hgo]. pose proof (awaitLogin_spec "" l s) as Ha.
    destruct (awaitLogin "" l s) as [[[r o] s'] rest]. destruct Ha as (pre & Hc & _). exists (HAsked :: pre). by apply consumed_cons.
Qed.

(** ** Publishing and reading *)

(** After a login that did not fail, the session is logged in. *)
Lemma settled_logged_in relay signer l s :
  session_inv relay signer l s -> rs_settleCh s = true -> rs_failure s = None -> loggedIn s = true.
Proof.
  intros HI Hc Hf. destruct (si_settled _ _ _ _ HI) as [E1 E2]. rewrite Hc in E1. unfold loggedIn. apply bool_decide_eq_true.
  symmetry in E1. apply negb_true_iff, bool_decide_eq_false in E1. destruct (rs_state s); [done|done|].
  exfalso. by apply (proj1 E2).
Qed.

(** Only a session with a signer is. *)
Lemma logged_in_signer relay signer l s : session_inv relay signer l s -> loggedIn s = true -> signer = true.
Proof.
  intros HI Hin. apply bool_decide_eq_true in Hin. destruct (si_state _ _ _ _ HI Hin) as [Hne _].
  destruct (si_asked _ _ _ _ HI) as (_ & Hsg & _). apply Hsg. pose proof (si_login _ _ _ _ HI) as HL. unfold login_at in HL.
  destruct (rs_login s); [|by destruct HL..]. destruct HL as (_ & Hid & _). congruence.
Qed.

Lemma loggedIn_step s h : loggedIn s = true -> loggedIn (session_step s h) = true.
Proof.
  unfold loggedIn. rewrite !bool_decide_eq_true. intros Hs.
  assert (forall st e, rs_state (settle st e s) = AuthStateSucceeded) as Hset.
  { intros st e. unfold settle. by rewrite Hs, bool_decide_eq_false_2. }
  destruct h as [r|taken|m| | | | | | |]; cbn [session_step background]; try done.
  - unfold sendLogin_sign. destruct (rs_login s); try done. destruct (signLogin _ _ _); cbn; auto.
  - unfold sendLogin_send. destruct (rs_login s); try done. by destruct taken.
  - unfold observe. destruct m; try done; repeat case_match; cbn; auto.
Qed.

Lemma loggedIn_run l s : loggedIn s = true -> loggedIn (session_run l s) = true.
Proof. revert s. induction l as [|h l IH]; intros s Hs; [done|]. apply IH. by apply loggedIn_step. Qed.

Lemma consumed_inv relay signer past s l s' rest pre :
  s = session_run past (newSession relay signer) -> consumed l s s' rest pre ->
  session_inv relay signer (past ++ pre) s'.
Proof.
  intros -> [_ ->]. pose proof (session_run_inv relay signer (past ++ pre)) as HI.
  unfold session_run in *. by rewrite fold_left_app in HI.
Qed.

Lemma last_app_some {A} (l l' : list A) x : last l' = Some x -> last (l ++ l') = Some x.
Proof. intros E. by rewrite last_app, E. Qed.

Lemma awaitOK_spec sent id l s :
  let '(r, n, s', rest) := awaitOK sent id l s in
  answer_spec id l s (r, s', rest) /\ (n <= 1)%nat.
Proof.
  unfold awaitOK. destruct sent; cbn [negb].
  - pose proof (awaitOK_loop_spec id l s) as Ha. destruct (awaitOK_loop id l s) as [[r s'] rest]. split; [done|lia].
  - split; [|lia]. exists []. split_and!; try done. cbn. lia.
Qed.

Lemma publish_verdict_ok acc text s t : publish_verdict acc text s = Ok t -> acc = true /\ text = t.
Proof. unfold publish_verdict. destruct acc; [by intros [= ->]|]. by case_match. Qed.

Lemma publish_again_spec sent id l s :
  let '(r, n, s', rest) := publish_again sent id l s in
  exists pre, consumed l s s' rest pre /\ (n <= 1)%nat /\ (r = Waiting -> rest = [] /\ timeouts pre = 0%nat) /\
    (forall text, r = Returned (Ok text) -> last pre = Some (HMsg (WOk id true text))).
Proof.
  unfold publish_again. pose proof (awaitOK_spec sent id l s) as Ha. destruct (awaitOK sent id l s) as [[[r n] s'] rest].
  destruct Ha as [(pre & Hc & Ht & Hr) Hn]. destruct r as [|[[acc text]|e]]; exists pre; split_and!; try done; [intros _; by apply Ht|].
  intros t [= [-> ->]%publish_verdict_ok]. by apply Hr.
Qed.

Lemma publish_run relay signer past sent again id l :
  let s := session_run past (newSession relay signer) in
  let '(r, n, s', rest) := publish sent again id l s in
  exists pre, consumed l s s' rest pre /\
    (n <= 2)%nat /\ (n = 2%nat -> signer = true /\ loggedIn s' = true) /\
    (forall text, r = Returned (Ok text) -> last pre = Some (HMsg (WOk id true text))) /\
    (r = Waiting -> rest = [] /\ (timeouts l <= 2)%nat).
Proof.
  cbv zeta. remember (session_run past (newSession relay signer)) as s eqn:Es. unfold publish.
  pose proof (awaitOK_spec sent id l s) as Ha. destruct (awaitOK sent id l s) as [[[r n] s1] l1].
  destruct Ha as [(pre & Hc & [Ht Hw] & Hr) Hn].
  destruct r as [|[[acc text]|e]].
  - exists pre. split_and!; try done; try lia. intros _. destruct (Hw eq_refl) as [-> Hz]. split; [done|].
    destruct Hc as [-> _]. rewrite timeouts_app, Hz. cbn. lia.
  - destruct (negb acc && refusedForLogin text) eqn:Ea.
    + pose proof (awaitLogin_spec text l1 s1) as Hl. destruct (awaitLogin text l1 s1) as [[[r o] s2] l2].
      destruct Hl as (pre2 & Hc2 & [Ht2 Hw2] & Hok). pose proof (consumed_app _ _ _ _ _ _ _ _ Hc Hc2) as Hc12.
      destruct r as [|[e|]].
      * exists (pre ++ pre2)%list. split_and!; try done; try lia. intros _. destruct (Hw2 eq_refl) as [-> Hz]. split; [done|].
        destruct Hc12 as [-> _]. rewrite !timeouts_app, Hz. cbn. lia.
      * exists (pre ++ pre2)%list. split_and!; try done; lia.
      * pose proof (publish_again_spec again id l2 s2) as Hp. destruct (publish_again again id l2 s2) as [[[r n'] s3] l3].
        destruct Hp as (pre3 & Hc3 & Hn' & Hw3 & Hr3). pose proof (consumed_app _ _ _ _ _ _ _ _ Hc12 Hc3) as Hc123.
        exists ((pre ++ pre2) ++ pre3)%list. split_and!; [done|lia| | |].
        -- intros _. destruct (Hok eq_refl) as [Hset Hfail]. pose proof (consumed_inv _ _ _ _ _ _ _ _ Es Hc12) as HI.
           pose proof (settled_logged_in _ _ _ _ HI Hset Hfail) as Hin. split.
           ++ by eapply logged_in_signer.
           ++ destruct Hc3 as [_ ->]. by apply loggedIn_run.
        -- intros t Ht'. apply last_app_some. by apply Hr3.
        -- intros Hwait. destruct (Hw3 Hwait) as [-> Hz]. split; [done|]. destruct Hc123 as [-> _]. rewrite !timeouts_app, Hz. cbn. lia.
    + exists pre. split_and!; try done; try lia. intros t [= [-> ->]%publish_verdict_ok]. by apply Hr.
  - exists pre. split_and!; try done; lia.
Qed.

(** Publishing sends the event at most twice, the second time only on a
    connection that has logged in; it reports success only for the relay's own
    acceptance of that event, the last message read; and it cannot wait on past
    its third timer. *)
Theorem publish_exact relay signer past sent again id l :
  let s := session_run past (newSession relay signer) in
  let '(r, n, s', rest) := publish sent again id l s in
  exists pre, consumed l s s' rest pre /\
    (n <= 2)%nat /\ (n = 2%nat -> signer = true /\ loggedIn s' = true) /\
    (forall text, r = Returned (Ok text) -> last pre = Some (HMsg (WOk id true text))) /\
    (r = Waiting -> rest = [] /\ (timeouts l <= 2)%nat).
Proof. apply publish_run. Qed.

(** A request's result: its events, up to what ended it. *)
Definition answered (sub : string) (q : list happening) (evs : list (option Event)) (restr : bool) : Prop :=
  exists closed h, last q = Some h /\ ends sub closed h /\ evs = events_of sub q /\ restr = restricted closed.

Lemma subscribeOnce_spec sub sent l s :
  let '(r, n, s', rest) := subscribeOnce sub sent l s in
  request_spec sub [] l s (r, s', rest) /\ (n <= 1)%nat /\ (forall x, r = Returned (Ok x) -> n = 1%nat).
Proof.
  unfold subscribeOnce. destruct sent; cbn [negb].
  - pose proof (subscribe_loop_spec sub [] l s) as Ha. by destruct (subscribe_loop sub [] l s) as [[r s'] rest].
  - split; [|split; [lia|done]]. by exists [].
Qed.

Lemma read_again_spec sub sent l s :
  let '(r, n, s', rest) := read_again sub sent l s in
  exists pre, consumed l s s' rest pre /\ (n <= 1)%nat /\
    (forall evs restr, r = Returned (Ok (evs, restr)) -> n = 1%nat /\ answered sub pre evs restr).
Proof.
  unfold read_again. pose proof (subscribeOnce_spec sub sent l s) as Ha. destruct (subscribeOnce sub sent l s) as [[[r n] s'] rest].
  destruct Ha as ((pre & Hc & _ & Hr) & Hn & Hn1). destruct r as [|[[evs closed]|e]]; exists pre; split_and!; try done.
  intros evs' restr. destruct (closed_for refusedForLogin closed); [done|]. intros [= <- <-]. split; [by eapply Hn1|].
  destruct (Hr _ _ eq_refl) as (-> & h & Hh & He). by exists closed, h.
Qed.

Definition read_spec (relay : string) (signer : bool) (sub sub' : string) (l : list happening) (s : relaySession)
    (x : outcome (result login_error (list (option Event) * bool)) * nat * relaySession * list happening) : Prop :=
  let '(r, n, s', rest) := x in
  exists pre, consumed l s s' rest pre /\ (n <= 2)%nat /\ (n = 2%nat -> signer = true /\ loggedIn s' = true) /\
    forall evs restr, r = Returned (Ok (evs, restr)) ->
      (n = 1%nat /\ exists q b, pre = (q ++ b)%list /\ answered sub q evs restr) \/
      (n = 2%nat /\ exists a q, pre = (a ++ q)%list /\ answered sub' q evs restr).

(** The second request, after a login that succeeded. *)
Lemma read_after_login relay signer past sub sub' again l s n s2 l2 pre :
  s = session_run past (newSession relay signer) -> consumed l s s2 l2 pre -> n = 1%nat ->
  rs_settleCh s2 = true -> rs_failure s2 = None ->
  read_spec relay signer sub sub' l s
    (let '(r, n', s, l) := read_again sub' again l2 s2 in (r, (n + n')%nat, s, l)).
Proof.
  intros Hs Hc -> Hset Hfail. pose proof (consumed_inv _ _ _ _ _ _ _ _ Hs Hc) as HI.
  pose proof (settled_logged_in _ _ _ _ HI Hset Hfail) as Hin. pose proof (logged_in_signer _ _ _ _ HI Hin) as ->.
  pose proof (read_again_spec sub' again l2 s2) as Hr. destruct (read_again sub' again l2 s2) as [[[r n'] s3] l3].
  destruct Hr as (pre3 & Hc3 & Hn' & Hr). exists (pre ++ pre3)%list.
  split_and!; [by eapply consumed_app|lia| |].
  - intros _. split; [done|]. destruct Hc3 as [_ ->]. by apply loggedIn_run.
  - intros evs restr E. destruct (Hr _ _ E) as [-> Ha]. right. split; [done|]. by exists pre, pre3.
Qed.

Lemma read_run relay signer past sub sent sub' again l :
  let s := session_run past (newSession relay signer) in
  read_spec relay signer sub sub' l s (read sub sent sub' again l s).
Proof.
  cbv zeta. remember (session_run past (newSession relay signer)) as s eqn:Es. unfold read. cbv zeta.
  pose proof (subscribeOnce_spec sub sent l s) as Ha. destruct (subscribeOnce sub sent l s) as [[[r n] s1] l1].
  destruct Ha as ((pre & Hc & _ & Hr) & Hn & Hn1). destruct r as [|[[evs closed]|e]].
  1, 3: exists pre; split_and!; try done; lia.
  specialize (Hn1 _ eq_refl). destruct (Hr _ _ eq_refl) as (Hevs & h & Hh & He). cbn [app] in Hevs.
  assert (answered sub pre evs (restricted closed)) as Hans by by exists closed, h.
  pose proof (awaitLogin_spec (default ""%string closed) l1 s1) as Hl.
  destruct (awaitLogin (default ""%string closed) l1 s1) as [[[r o] s2] l2]. destruct Hl as (pre2 & Hc2 & _ & Hok).
  pose proof (consumed_app _ _ _ _ _ _ _ _ Hc Hc2) as Hc12.
  assert (forall (r : outcome (result login_error (list (option Event) * bool))),
    (forall x, r = Returned (Ok x) -> x = (evs, restricted closed)) ->
    read_spec relay signer sub sub' l s (r, n, s2, l2)) as Hkeep.
  { intros r' Hx. exists (pre ++ pre2)%list. split_and!; [done|lia|lia|]. intros evs' restr E. left. split; [done|].
    exists pre, pre2. split; [done|]. by injection (Hx _ E) as -> ->. }
  destruct (closed_for refusedForLogin closed).
  { destruct r as [|[e|]]; [by apply Hkeep..|]. destruct (Hok eq_refl). by eapply read_after_login. }
  destruct (_ && _ && _).
  - destruct r as [|[e|]]; [by apply Hkeep| |destruct (Hok eq_refl); by eapply read_after_login].
    apply Hkeep. intros x. destruct (is_login e && bool_decide (closed = None)) eqn:E; [|done].
    apply andb_true_iff in E as [_ ->%bool_decide_eq_true]. by intros [= <-].
  - exists pre. split_and!; [done|lia|lia|]. intros evs' restr [= <- <-]. left. split; [done|]. exists pre, []. by rewrite app_nil_r.
Qed.

(** Reading sends the request at most twice, the second time only on a
    connection that has logged in.  The events returned are exactly those one
    request brought, in order, up to the end of its stored events, the relay's
    refusal or the end of the connection; [restricted] says whether it was
    refused so, and events of an unfinished first request are never mixed in. *)
Theorem read_exact relay signer past sub sent sub' again l :
  let s := session_run past (newSession relay signer) in
  read_spec relay signer sub sub' l s (read sub sent sub' again l s).
Proof. apply read_run. Qed.

(** ** Any use of a connection *)

(** A call on the session by the reader of its connection. *)
Inductive call :=
| CPublish (sent again : bool) (id : string)
| CRead (sub : string) (sent : bool) (sub' : string) (again : bool)
| CAwaitLogin (refusal : string)
| CLoginFirst
| CObserve.     (* one message, as the loops of other files take them *)

Definition call_run (c : call) (l : list happening) (s : relaySession) : relaySession * list happening :=
  match c with
  | CPublish sent again id => let '(_, _, s, l) := publish sent again id l s in (s, l)
  | CRead sub sent sub' again => let '(_, _, s, l) := read sub sent sub' again l s in (s, l)
  | CAwaitLogin refusal => let '(_, _, s, l) := awaitLogin refusal l s in (s, l)
  | CLoginFirst => let '(_, _, s, l) := loginFirst l s in (s, l)
  | CObserve => match l with h :: l => (session_step s h, l) | [] => (s, []) end
  end.

Fixpoint calls_run (cs : list call) (l : list happening) (s : relaySession) : relaySession * list happening :=
  match cs with
  | [] => (s, l)
  | c :: cs => let '(s, l) := call_run c l s in calls_run cs l s
  end.

Lemma calls_are_runs relay signer cs l past s :
  s = session_run past (newSession relay signer) ->
  exists pre, consumed l s (calls_run cs l s).1 (calls_run cs l s).2 pre.
Proof.
  revert l past s. induction cs as [|c cs IH]; intros l past s Hs; cbn [calls_run]; [by exists []|].
  assert (exists pre, consumed l s (call_run c l s).1 (call_run c l s).2 pre) as [pre Hc].
  { destruct c; cbn [call_run].
    - pose proof (publish_run relay signer past sent again id l) as Hp. cbv zeta in Hp. rewrite <- Hs in Hp.
      destruct (publish _ _ _ _ _) as [[[? ?] ?] ?]. destruct Hp as [pre [? _]]. by exists pre.
    - pose proof (read_run relay signer past sub sent sub' again l) as Hp. cbv zeta in Hp. rewrite <- Hs in Hp.
      destruct (read _ _ _ _ _ _) as [[[? ?] ?] ?]. destruct Hp as [pre [? _]]. by exists pre.
    - pose proof (awaitLogin_spec refusal l s) as Hp. destruct (awaitLogin _ _ _) as [[[? ?] ?] ?]. destruct Hp as [pre [? _]]. by exists pre.
    - pose proof (loginFirst_run l s) as Hp. by destruct (loginFirst _ _) as [[[? ?] ?] ?].
    - destruct l as [|h l]; [by exists []|]. by exists [h]. }
  destruct (call_run c l s) as [s1 l1]. cbn [fst snd] in *.
  destruct (IH l1 (past ++ pre)%list s1) as [pre2 Hc2].
  { destruct Hc as [_ ->]. rewrite Hs. unfold session_run. by rewrite fold_left_app. }
  exists (pre ++ pre2)%list. by eapply consumed_app.
Qed.

(** C17: a connection logs in at most once, whatever is called on it and however
    the calls, the relay's messages and the signing goroutine interleave: at most
    one AUTH packet is handed to the connection, none without a signer; it
    carries a verified kind 22242 event for the relay as dialed and the first
    challenge received; no channel is closed twice; and the session counts as
    logged in only after the relay accepted an event with the login's id. *)
Theorem login_once relay signer cs l :
  let s := (calls_run cs l (newSession relay signer)).1 in
  rs_panic s = false /\ (length (rs_packets s) <= 1)%nat /\ (signer = false -> rs_packets s = []) /\
  (forall ev, ev ∈ rs_packets s -> exists c, first_challenge l = Some c /\ login_event relay c ev) /\
  (loggedIn s = true -> signer = true /\ exists text, HMsg (WOk (rs_loginID s) true text) ∈ l).
Proof.
  destruct (calls_are_runs relay signer cs l [] (newSession relay signer) eq_refl) as [pre [Hl Hs]].
  destruct (calls_run cs l _) as [s rest]. cbn [fst snd] in *. cbv zeta.
  pose proof (session_run_inv relay signer pre) as HI. rewrite <- Hs in HI.
  assert (forall c, first_challenge pre = Some c -> first_challenge l = Some c) as Hfc.
  { intros c Hc. subst l. unfold first_challenge in *. rewrite omap_app. by destruct (omap challenge_of pre). }
  destruct (si_relay _ _ _ _ HI) as [Hre Hsi]. destruct (si_asked _ _ _ _ HI) as (_ & Ha & _).
  assert ((length (rs_packets s) <= 1)%nat /\ (signer = false -> rs_packets s = []) /\
    (forall ev, ev ∈ rs_packets s -> exists c, first_challenge l = Some c /\ login_event relay c ev)) as (H1 & H2 & H3).
  { destruct (login_packets _ _ (si_login _ _ _ _ HI)) as [->|(Hask & c & ev & Hc & Hev & ->)].
    - split_and!; [cbn; lia|done|]. intros ev Hev. by apply elem_of_nil in Hev.
    - specialize (Ha Hask). split_and!; [cbn; lia|congruence|]. intros ev' ->%list_elem_of_singleton. rewrite Hre in Hev. eauto. }
  split_and!; [apply HI|done|done|done|].
  intros Hin. split; [by eapply logged_in_signer|]. apply bool_decide_eq_true in Hin.
  destruct (si_state _ _ _ _ HI Hin) as (_ & text & Ht). exists text. subst l. apply elem_of_app. by left.
Qed.

End Facts.
