(* ===== verification/ClientExamples.v ===== *)
(** * Following a relay on concrete stores

    The theorems of the follow at work: a relay that cuts 130 events at 50, a
    state that remembers, a state file written and read back; and the paging on
    a second that holds a whole page ([flood_hides_older]). *)
From stdpp Require Import sorting.
From S2P Require Import Prelude GoTime GoStrings Nostr ClientFollow.
From S2P Require Import ClientFollowFacts ClientPaging RelayExamples.
From S2P Require Import ClientLogin ClientLoginFacts.
From stdpp Require Import options.

Local Open Scope Z_scope.

Definition ex_event (id : string) (at_ : Z) : Event := mkEvent id "author" at_ 1 [] "hello" ("sig:" ++ id).

Definition ex_around : around := mkAround 5000 "u" EmOk true None.

Definition ex_reply (cap : Z) (stored : list Event) (i : nat) (until : Z) : reply :=
  mkReply ((fun e => (ex_around, e)) <$> serve cap stored until)
    (mkAround 5000 (Itoa (Z.of_nat i)) EmOk true None).

Lemma ex_reply_ok cap stored i until :
  0 <= cap -> NoDup stored -> StronglySorted (fun e x => ev_CreatedAt x <= ev_CreatedAt e) stored ->
  Forall (fun e => VerifyWithoutPow (Nmilat := reference_nmilat) e = true) stored ->
  reply_ok (N := reference_nmilat) cap stored until (ex_reply cap stored i until).
Proof.
  intros Hc Hn Hs Hv. pose proof (serve_page cap stored until Hc Hn Hs) as Hp. unfold ex_reply. split; [|split]; cbn [rp_events rp_eose].
  - by rewrite <- list_fmap_compose, list_fmap_id.
  - done.
  - apply Forall_fmap, Forall_forall. intros e He. split; [done|]. rewrite Forall_forall in Hv. by apply Hv, (po_stored _ _ _ _ Hp).
Qed.

Definition ex_filters : list Filter := [mkFilter 0 0 0 "kinds"].

Definition ex_stream (f : FollowState) : stream :=
  mkStream "wss://r" "sub" ex_filters 0 (newFollowPager ex_filters) false f.

(** 130 events, one a second, the newest first. *)
Definition ex_store : list Event := (fun i => ex_event (Itoa i) (3000 - i)) <$> seqZ 1 130.

Lemma at_most_one {A B} `{EqDecision B} (f : A -> B) l t :
  NoDup (f <$> l) -> (length (filter (fun x => f x = t) l) <= 1)%nat.
Proof.
  induction l as [|x l IH]; [cbn; lia|]. rewrite fmap_cons, NoDup_cons, filter_cons. intros [Hx Hn].
  case_decide as E; [|auto]. cbn [length]. destruct (filter (fun x => f x = t) l) as [|y k] eqn:Hk; [done|]. exfalso.
  assert (y ∈ filter (fun x => f x = t) l) as [Hy Hin]%list_elem_of_filter by (rewrite Hk; by left).
  apply Hx. rewrite E, <- Hy. by apply list_elem_of_fmap_2.
Qed.

#[local] Instance newer_trans : Transitive (fun e x => ev_CreatedAt x <= ev_CreatedAt e).
Proof. intros x y z ??. lia. Qed.

Lemma ex_store_ok : store_ok 50 0 ex_store.
Proof.
  split.
  - done.
  - apply (bool_decide_unpack _). by vm_compute.
  - apply (bool_decide_unpack _). by vm_compute.
  - intros t. pose proof (at_most_one ev_CreatedAt ex_store t) as H.
    assert (NoDup (ev_CreatedAt <$> ex_store)) as Hn by (apply (bool_decide_unpack _); by vm_compute).
    specialize (H Hn). lia.
Qed.

Lemma ex_store_sorted : StronglySorted (fun e x => ev_CreatedAt x <= ev_CreatedAt e) ex_store.
Proof.
  apply Sorted_StronglySorted; [apply _|]. vm_compute. repeat (constructor; [|constructor; by vm_compute]). repeat constructor.
Qed.

Lemma follow_complete_witness :
  exists s0 s' out,
    subscribe ex_around (ex_stream (emptyState "")) = (s0, [OSubscribe "sub" (pg_base (sm_pager s0))], None) /\
    converse (N := reference_nmilat) 101 (ex_reply 50 ex_store) 0 "sub" s0 = (s', out, None) /\
    pg_sub (sm_pager s') = ""%string /\
    ((pg_cut (sm_pager s') <> ""%string /\ OWarn (pg_cut (sm_pager s')) ∈ out) \/
     (pg_cut (sm_pager s') = ""%string /\
      forall e, e ∈ ex_store -> known (ev_ID e) (emptyState "") = true \/ handed_over out (ev_ID e))).
Proof.
  apply (@follow_complete reference_nmilat 50 ex_store (ex_reply 50 ex_store) ex_around (ex_stream (emptyState ""))).
  - reflexivity.
  - reflexivity.
  - exact ex_store_ok.
  - intros i until. apply ex_reply_ok; [lia| |exact ex_store_sorted|].
    + apply (NoDup_fmap_1 ev_ID), (so_ids _ _ _ ex_store_ok).
    + apply (bool_decide_unpack _). by vm_compute.
Defined.

(** A second that holds a whole page: 50 events at 2000 and one older.  The
    next page is asked up to 2000, brings the same 50, nothing of it is new and
    the paging ends: the older event is never handed over, and no warning is
    shown. *)
Definition flood_store : list Event :=
  (((fun i => ex_event (Itoa i) 2000) <$> seqZ 1 50) ++ [ex_event "old" 1000])%list.

Lemma flood_hides_older :
  let '(s0, _, _) := subscribe ex_around (ex_stream (emptyState "")) in
  let '(s, out, e) := converse (N := reference_nmilat) 101 (ex_reply 50 flood_store) 0 "sub" s0 in
  e = None /\ pg_sub (sm_pager s) = ""%string /\ pg_cut (sm_pager s) = ""%string /\
  pg_pages (sm_pager s) = 1 /\ length (delivered out) = 50%nat /\
  existsb (fun o => match o with OWarn _ => true | _ => false end) out = false /\
  bool_decide ("old"%string ∈ delivered out) = false.
Proof. vm_compute. split_and!; reflexivity. Qed.

(** ** The delivered state *)

(** Two relays send the same event, then another, dated past the clock. *)
Definition ex_attempts : list attempt :=
  [mkAttempt "wss://a" ex_around (ex_event "one" 1000); mkAttempt "wss://b" ex_around (ex_event "one" 1000);
   mkAttempt "wss://a" ex_around (ex_event "two" 9000)].

Lemma emptyState_wf path : wf (emptyState path).
Proof. split; [split_and!; [constructor|done|cbn; lia]..|]. cbn. set_solver. Qed.

Lemma follow_once_witness :
  let '(f', d) := emit_all ex_attempts (emptyState "") in
  d = ["one"; "two"]%string /\ since_of "wss://a" f' = 5000 /\
  (forall i j id, d !! i = Some id -> d !! j = Some id -> (i < j)%nat -> (5000 < j - i)%nat).
Proof.
  pose proof (follow_once ex_attempts (emptyState "") 5000 (emptyState_wf "")) as H.
  assert (Forall (fun t => ar_now (at_around t) <= 5000) ex_attempts) as HT by (apply (bool_decide_unpack _); by vm_compute).
  specialize (H HT). destruct (emit_all ex_attempts (emptyState "")) as [f' d] eqn:E.
  assert (d = (emit_all ex_attempts (emptyState "")).2) as -> by by rewrite E.
  assert (f' = (emit_all ex_attempts (emptyState "")).1) as -> by by rewrite E.
  split; [vm_compute; reflexivity|]. split; [vm_compute; reflexivity|]. apply H.
Defined.

(** A codec: the file as the bits of a number. *)
#[local] Instance followStateFile_eq_dec : EqDecision followStateFile.
Proof. solve_decision. Defined.

#[local] Instance followStateFile_countable : Countable followStateFile.
Proof.
  refine (inj_countable' (fun f => (ff_Seen f, ff_SeenOnly f, ff_Since f)) (fun '(a, b, c) => mkStateFile a b c) _).
  by intros [].
Defined.

Definition bits_codec : StateCodec := {|
  state_Marshal f := put_bits (encode f) "";
  state_Unmarshal s := '(p, _) ← get_bits s; decode p;
|}.

#[local] Existing Instance bits_codec.

#[local] Instance bits_codec_laws : StateCodecLaws.
Proof. split. intros f _. unfold state_Unmarshal, state_Marshal, bits_codec. rewrite get_put_bits. cbn. apply decode_encode. Qed.

Definition ex_state : FollowState := (emit_all ex_attempts (emptyState "state.json")).1.

Lemma ex_state_wf : wf ex_state.
Proof.
  pose proof (order_is_last ex_attempts (emptyState "state.json") (emptyState_wf _)) as H.
  unfold ex_state. destruct (emit_all _ _). apply H.
Qed.

Lemma state_roundtrip_witness :
  let '(ok, s', file') := Save false ex_state None in
  ok = true /\ s' = with_dirty false ex_state /\ LoadFollowState "state.json" 5000 true file' = Ok s'.
Proof.
  apply (state_roundtrip ex_state 5000 false None).
  - exact ex_state_wf.
  - vm_compute. discriminate.
  - vm_compute. reflexivity.
  - intros r v Hr. change ex_state with (emit_all ex_attempts (emptyState "state.json")).1 in Hr.
    assert (fs_since ex_state = {["wss://a"%string := 5000]}) as E by (vm_compute; reflexivity).
    change (fs_since ex_state !! r = Some v) in Hr. rewrite E in Hr. apply lookup_singleton_Some in Hr as [_ <-]. lia.
  - vm_compute. reflexivity.
Defined.

(** ** Logging in *)

Definition ex_nip42 : Nip42 := {|
  KindClientAuth := 22242;
  NewAuthEvent c r := mkEvent "" "me" 1000 22242 [["relay"; r]; ["challenge"; c]]%string "" "";
  Verify e := String.eqb (ev_Sig e) ("sig:" ++ ev_ID e);
|}.

Definition ex_login (c : string) : Event :=
  mkEvent "login" "me" 1000 22242 [["relay"; "wss://r"]; ["challenge"; c]]%string "" "sig:login".

(** The relay asks for a login, the signer answers, the relay accepts the login
    and then the event. *)
Definition ex_publish : list happening :=
  [HMsg (WAuth "c1"); HMsg (WOk "e" false "auth-required: log in"); HMsg (WAuth "c2"); HSign (SignOk (ex_login "c1"));
   HSent true; HMsg (WOk "login" true ""); HMsg (WOk "e" true "stored")].

Lemma publish_logs_in :
  let '(r, n, s, rest) := publish (H := ex_nip42) true true "e" ex_publish (newSession "wss://r" true) in
  r = Returned (Ok "stored"%string) /\ n = 2%nat /\ rest = [] /\ rs_packets s = [ex_login "c1"] /\ loggedIn s = true.
Proof. vm_compute. repeat split. Qed.

(** A login for another challenge is not sent. *)
Lemma publish_other_login :
  let '(r, n, s, _) := publish (H := ex_nip42) true true "e"
     [HMsg (WAuth "c1"); HMsg (WOk "e" false "auth-required: log in"); HSign (SignOk (ex_login "c2")); HSettled]
     (newSession "wss://r" true) in
  r = Returned (Err (LoginError "wss://r" LoginSignerRefused "signer returned a different login event")) /\
  n = 1%nat /\ rs_packets s = [].
Proof. vm_compute. repeat split. Qed.

(** A connection that ends in the middle of a request's stored events: what
    came so far is returned as the whole answer, without an error. *)
Lemma read_cut_short :
  (read (H := ex_nip42) "q" true "q2" true [HMsg (WEvent "q" (Some (ex_event "one" 1000))); HReadClosed]
    (newSession "wss://r" false)).1.1.1
  = Returned (Ok ([Some (ex_event "one" 1000)], false)).
Proof. vm_compute. repeat split. Qed.
