(* ===== verification/ClientStream.v ===== *)
(** * Streaming events to a destination

    Models [src/client/stream.go]: what a stream keeps about a destination
    ([FlowContext], [StreamEventHistory], [dispatchTracker]), how an event is
    handed to it ([deliverToSubscriber]), sent to a relay
    ([RemoteSubscription.Write]) and acknowledged ([handleFlow]), and how a lost
    connection is replaced.

    A destination has a broadcaster and, for each time its worker ran [Write], a
    cycle: the writer, the reader of its connection and the handler of its flow.
    Each goroutine is cut into atomic steps where it takes a lock, uses a channel
    or calls the connection; an [action] says who steps and what the outside
    answers, and [dstep] is the step.  A worker starts a cycle when its timer says
    so, whatever still runs of the cycles before: they share the flow, its queues
    and its channel of errors, and a goroutine that waits for a slot waits on the
    semaphore it looked up.  [dest] has one cycle in view and keeps the others
    beside it; [step] brings one into view and lets it act.  The log is what
    happened, for the theorems. *)
From S2P Require Import Prelude GoTime GoStrings Nostr ClientFollow.
From stdpp Require Import options.

Local Open Scope Z_scope.

Definition streamFlowBufferSize : Z := 10240.
Definition maxEventHistorySize : Z := 24000.
Definition workerFailureThreshold : Z := 2.
Definition workerCoolDownTime : Z := 10 * Second.
Definition workerDelayTime : Z := 5 * Second.

(** ** Texts of acknowledgements *)

Definition prefix_fold (prefix msg : string) : bool :=
  (String.length prefix <=? String.length msg)%nat && EqualFold (String.substring 0 (String.length prefix) msg) prefix.

Definition isDuplicatedEvent (msg : string) : bool := prefix_fold "duplicate:" msg.
Definition isEphemeralAck (msg : string) : bool := prefix_fold "ephemeral:" msg.

(** ** Events awaiting an acknowledgement *)

Record pendingEntry := mkPendingEntry { pe_event : Event; pe_dispatchedGen : Z }.

(** [StreamEventHistory]: the list's elements by id, the most recent first. *)
Record StreamEventHistory := mkHistory {
  sh_data : gmap string pendingEntry;
  sh_order : list string;
  sh_generation : Z;
}.

Definition newStreamEventHistory : StreamEventHistory := mkHistory ∅ [] 0.

Definition history_get (id : string) (h : StreamEventHistory) : option Event := pe_event <$> sh_data h !! id.

Definition history_add (ev : Event) (h : StreamEventHistory) : StreamEventHistory :=
  let id := ev_ID ev in
  let data := <[id := mkPendingEntry ev 0]> (sh_data h) in
  match sh_data h !! id with
  | Some _ => mkHistory data (id :: filter (fun x => x <> id) (sh_order h)) (sh_generation h)
  | None =>
      let order := id :: sh_order h in
      if maxEventHistorySize <? Z.of_nat (length order) then
        mkHistory (delete (List.last order ""%string) data) (removelast order) (sh_generation h)
      else mkHistory data order (sh_generation h)
  end.

Definition history_delete (id : string) (h : StreamEventHistory) : StreamEventHistory :=
  match sh_data h !! id with
  | Some _ => mkHistory (delete id (sh_data h)) (filter (fun x => x <> id) (sh_order h)) (sh_generation h)
  | None => h
  end.

Definition history_size (h : StreamEventHistory) : nat := size (sh_data h).

Definition markDispatched (id : string) (h : StreamEventHistory) : StreamEventHistory :=
  match sh_data h !! id with
  | Some e => mkHistory (<[id := mkPendingEntry (pe_event e) (sh_generation h)]> (sh_data h)) (sh_order h) (sh_generation h)
  | None => h
  end.

(** An entry whose connection is gone. *)
Definition dead_entry (cur : Z) (e : pendingEntry) : bool :=
  negb (pe_dispatchedGen e =? 0) && (pe_dispatchedGen e <? cur).

Definition newGeneration (h : StreamEventHistory) : StreamEventHistory :=
  let cur := sh_generation h + 1 in
  let dead (id : string) := match sh_data h !! id with Some e => dead_entry cur e | None => false end in
  mkHistory (filter (fun ie => dead_entry cur ie.2 = false) (sh_data h)) (filter (fun id => dead id = false) (sh_order h)) cur.

(** [takeIfPresent] of the [dispatchTracker], which is a set of ids. *)
Definition takeIfPresent (id : string) (d : gset string) : bool * gset string :=
  (bool_decide (id ∈ d), d ∖ {[id]}).

(** ** The flow *)

(** [tui.FlowStat]'s counters. *)
Record stat := mkStat { sa_events : Z; sa_failures : Z; sa_lost : Z; sa_duplicates : Z; sa_retries : Z }.

Definition AddEvent (s : stat) : stat := mkStat (sa_events s + 1) (sa_failures s) (sa_lost s) (sa_duplicates s) (sa_retries s).
Definition IncreaseFailures (s : stat) : stat := mkStat (sa_events s) (sa_failures s + 1) (sa_lost s) (sa_duplicates s) (sa_retries s).
Definition IncreaseLost (s : stat) : stat := mkStat (sa_events s) (sa_failures s) (sa_lost s + 1) (sa_duplicates s) (sa_retries s).
Definition IncDuplicates (s : stat) : stat := mkStat (sa_events s) (sa_failures s) (sa_lost s) (sa_duplicates s + 1) (sa_retries s).
Definition IncreaseRetries (s : stat) : stat := mkStat (sa_events s) (sa_failures s) (sa_lost s) (sa_duplicates s) (sa_retries s + 1).

(** What a relay answers. *)
Inductive response :=
| ROk (id : string) (accepted : bool) (text : string)
| REvent (ev : Event)
| REose
| RNotice (text : string)
| RClosed (text : string).

(** [FlowContext] *)
Record flow := mkFlow {
  fw_pending : StreamEventHistory;
  fw_dispatched : gset string;
  fw_inFlight : option nat;         (* how full the semaphore is; [None] is nil *)
  fw_stale : gmap Z nat;            (* the semaphores of earlier generations *)
  fw_paused : bool;                 (* [pauseCh] is closed *)
  fw_queue : list Event;            (* [incomingEvents] *)
  fw_incoming : list response;
  fw_stat : stat;
  fw_lastUpdate : Z;
}.

Definition NewFlowContext : flow :=
  mkFlow newStreamEventHistory ∅ None ∅ false [] [] (mkStat 0 0 0 0 0) 0.

Definition set_pending (h : StreamEventHistory) (f : flow) : flow :=
  mkFlow h (fw_dispatched f) (fw_inFlight f) (fw_stale f) (fw_paused f) (fw_queue f) (fw_incoming f) (fw_stat f) (fw_lastUpdate f).
Definition set_dispatched (d : gset string) (f : flow) : flow :=
  mkFlow (fw_pending f) d (fw_inFlight f) (fw_stale f) (fw_paused f) (fw_queue f) (fw_incoming f) (fw_stat f) (fw_lastUpdate f).
Definition set_inFlight (n : option nat) (f : flow) : flow :=
  mkFlow (fw_pending f) (fw_dispatched f) n (fw_stale f) (fw_paused f) (fw_queue f) (fw_incoming f) (fw_stat f) (fw_lastUpdate f).
Definition set_stale (m : gmap Z nat) (f : flow) : flow :=
  mkFlow (fw_pending f) (fw_dispatched f) (fw_inFlight f) m (fw_paused f) (fw_queue f) (fw_incoming f) (fw_stat f) (fw_lastUpdate f).
Definition set_paused (b : bool) (f : flow) : flow :=
  mkFlow (fw_pending f) (fw_dispatched f) (fw_inFlight f) (fw_stale f) b (fw_queue f) (fw_incoming f) (fw_stat f) (fw_lastUpdate f).
Definition set_events (q : list Event) (f : flow) : flow :=
  mkFlow (fw_pending f) (fw_dispatched f) (fw_inFlight f) (fw_stale f) (fw_paused f) q (fw_incoming f) (fw_stat f) (fw_lastUpdate f).
Definition set_incoming (q : list response) (f : flow) : flow :=
  mkFlow (fw_pending f) (fw_dispatched f) (fw_inFlight f) (fw_stale f) (fw_paused f) (fw_queue f) q (fw_stat f) (fw_lastUpdate f).
Definition count (g : stat -> stat) (f : flow) : flow :=
  mkFlow (fw_pending f) (fw_dispatched f) (fw_inFlight f) (fw_stale f) (fw_paused f) (fw_queue f) (fw_incoming f) (g (fw_stat f)) (fw_lastUpdate f).
Definition set_lastUpdate (t : Z) (f : flow) : flow :=
  mkFlow (fw_pending f) (fw_dispatched f) (fw_inFlight f) (fw_stale f) (fw_paused f) (fw_queue f) (fw_incoming f) (fw_stat f) t.

(** [open], with the destination's [publishConcurrency].  A semaphore belongs to
    the generation it was made for, and those that hold it keep it. *)
Definition open (conc : nat) (f : flow) : flow :=
  let stale := match fw_inFlight f with Some n => <[sh_generation (fw_pending f) := n]> (fw_stale f) | None => fw_stale f end in
  set_dispatched ∅ (set_pending (newGeneration (fw_pending f))
    (set_inFlight (if (0 <? conc)%nat then Some 0%nat else None) (set_stale stale (set_paused false f)))).

(** The semaphore that was looked up in a generation. *)
Definition slots_of (gen : Z) (f : flow) : option nat :=
  if gen =? sh_generation (fw_pending f) then fw_inFlight f else fw_stale f !! gen.

Definition set_slots (gen : Z) (n : nat) (f : flow) : flow :=
  if gen =? sh_generation (fw_pending f) then set_inFlight (Some n) f else set_stale (<[gen := n]> (fw_stale f)) f.

(** [releaseSlot]: receiving from an empty semaphore blocks. *)
Definition releaseSlot (f : flow) : option flow :=
  match fw_inFlight f with
  | None => Some f
  | Some O => None
  | Some (S n) => Some (set_inFlight (Some n) f)
  end.

(** ** What happens to events *)

(** How an acknowledgement was counted. *)
Inductive verdict :=
| VEvent | VDuplicate
| VSaved (ev : Event)         (* refused, and taken over by recovery *)
| VLost                       (* refused, and lost *)
| VLate                       (* accepted, for an event no longer awaited *)
| VUnexpected (text : string).

Inductive fact :=
| FOpened                                 (* a cycle began *)
| FDelivered (ev : Event)
| FSaved (ev : Event)                     (* not sent; recovery has it *)
| FLost (ev : Event)                      (* not sent, and counted as lost *)
| FDropped (ev : Event)                   (* not sent: everything stops *)
| FSent (conn : nat) (ev : Event)         (* on this connection *)
| FResent (id : string)                   (* sent once more after a login *)
| FAcked (id : string) (v : verdict)
| FRelayed (ev : Event).                  (* broadcast to the destinations *)

(** [handleFlow] on an OK: what it looks up and takes out; *)
Definition lookup_ok (id : string) (f : flow) : option Event * bool * flow :=
  let found := history_get id (fw_pending f) in
  let f := set_pending (history_delete id (fw_pending f)) f in
  let '(taken, d) := takeIfPresent id (fw_dispatched f) in
  (found, taken, set_dispatched d f).

(** and, past the release, what it counts; [saved] says whether recovery's queue
    takes the event. *)
Definition count_ok (recovery saved accepted : bool) (text : string) (found : option Event) (f : flow) : flow * verdict :=
  if negb accepted then
    let f := count IncreaseFailures f in
    match found with
    | Some ev => if recovery && saved then (f, VSaved ev) else (count IncreaseLost f, VLost)
    | None => (count IncreaseLost f, VLost)
    end
  else if isDuplicatedEvent text then (count IncDuplicates f, VDuplicate)
  else match found with
       | Some _ => (count AddEvent f, VEvent)
       | None => (f, if is_empty text || isEphemeralAck text then VLate else VUnexpected text)
       end.

(** [None] when [releaseSlot] blocks. *)
Definition handle_ok (recovery saved : bool) (id : string) (accepted : bool) (text : string) (f : flow) : option (flow * verdict) :=
  let '(found, taken, f) := lookup_ok id f in
  f ← (if taken then releaseSlot f else Some f);
  Some (count_ok recovery saved accepted text found f).

(** Where an event received from a relay goes. *)
Inductive handled := Rejected | Broadcast | Retained | Logged.

Section Flow.
Context {N : Nmilat}.

(** [handleEvent]: the event is verified unless the relay is trusted. *)
Definition handleEvent (trusted strictPow hasSubscribers retain : bool) (now : Z) (ev : Event) (f : flow) : flow * handled :=
  if negb trusted && negb (if strictPow then Verify ev else VerifyWithoutPow ev)
  then (count IncreaseFailures f, Rejected)
  else (set_lastUpdate (now `div` Second) (count AddEvent f),
        if hasSubscribers then Broadcast else if retain then Retained else Logged).

(** ** A remote destination *)

Record settings := mkSettings {
  se_concurrency : nat;       (* [publishConcurrency] *)
  se_recovery : bool;         (* a recovery store is there *)
  se_signer : bool;           (* [trackUnacked] *)
  se_trusted : bool;
  se_strictPow : bool;
}.

(** [Write]: connecting; its [select]; holding an event before the slot (of
    which generation), before the send, and between the send and each of the two notes; reporting an error. *)
Inductive writer :=
| WOff | WDial | WLoop | WSlot (ev : Event) (gen : Z) | WSend (ev : Event) | WMark (ev : Event) | WTrack (ev : Event) | WError.

(** The connection's reader; [connDead] is closed when it is off. *)
Inductive reader := ReadOff | ReadOn | ReadError (packet : bool).

(** [handleFlow]; [HRelease] is blocked in [releaseSlot], [HDrain] is its drain
    window. *)
Inductive handler :=
| HOff | HOpening | HOn
| HRelease (gen : Z) (id : string) (accepted : bool) (text : string) (found : option Event)
| HDrain.

(** A cycle, by the number of its connection. *)
Record cycle := mkCycle {
  cy_conn : nat;
  cy_writer : writer;
  cy_reader : reader;
  cy_handler : handler;
  cy_unacked : gset string;
}.

Record dest := mkDest {
  de_flow : flow;
  de_delivering : option Event;
  de_conn : nat;                    (* the cycle in view *)
  de_writer : writer;
  de_reader : reader;
  de_handler : handler;
  de_unacked : gset string;
  de_others : list cycle;
  de_started : nat;                 (* how many cycles were started *)
  de_retries : nat;                 (* how often the worker will run [Write] *)
  de_closed : bool;                 (* [fc.closed()] *)
  de_cancelled : bool;              (* the stream's context is done *)
  de_log : list fact;
}.

Definition newDest : dest := mkDest NewFlowContext None 0 WOff ReadOff HOff ∅ [] 0 1 false false [].

Definition with_flow (f : flow) (d : dest) : dest :=
  mkDest f (de_delivering d) (de_conn d) (de_writer d) (de_reader d) (de_handler d) (de_unacked d) (de_others d) (de_started d) (de_retries d) (de_closed d) (de_cancelled d) (de_log d).
Definition with_delivering (o : option Event) (d : dest) : dest :=
  mkDest (de_flow d) o (de_conn d) (de_writer d) (de_reader d) (de_handler d) (de_unacked d) (de_others d) (de_started d) (de_retries d) (de_closed d) (de_cancelled d) (de_log d).
Definition with_writer (w : writer) (d : dest) : dest :=
  mkDest (de_flow d) (de_delivering d) (de_conn d) w (de_reader d) (de_handler d) (de_unacked d) (de_others d) (de_started d) (de_retries d) (de_closed d) (de_cancelled d) (de_log d).
Definition with_reader (r : reader) (d : dest) : dest :=
  mkDest (de_flow d) (de_delivering d) (de_conn d) (de_writer d) r (de_handler d) (de_unacked d) (de_others d) (de_started d) (de_retries d) (de_closed d) (de_cancelled d) (de_log d).
Definition with_handler (h : handler) (d : dest) : dest :=
  mkDest (de_flow d) (de_delivering d) (de_conn d) (de_writer d) (de_reader d) h (de_unacked d) (de_others d) (de_started d) (de_retries d) (de_closed d) (de_cancelled d) (de_log d).
Definition with_retries (n : nat) (d : dest) : dest :=
  mkDest (de_flow d) (de_delivering d) (de_conn d) (de_writer d) (de_reader d) (de_handler d) (de_unacked d) (de_others d) (de_started d) n (de_closed d) (de_cancelled d) (de_log d).
Definition with_unacked (u : gset string) (d : dest) : dest :=
  mkDest (de_flow d) (de_delivering d) (de_conn d) (de_writer d) (de_reader d) (de_handler d) u (de_others d) (de_started d) (de_retries d) (de_closed d) (de_cancelled d) (de_log d).
Definition with_stop (closed cancelled : bool) (d : dest) : dest :=
  mkDest (de_flow d) (de_delivering d) (de_conn d) (de_writer d) (de_reader d) (de_handler d) (de_unacked d) (de_others d) (de_started d) (de_retries d) closed cancelled (de_log d).
Definition note (x : fact) (d : dest) : dest :=
  mkDest (de_flow d) (de_delivering d) (de_conn d) (de_writer d) (de_reader d) (de_handler d) (de_unacked d) (de_others d) (de_started d) (de_retries d) (de_closed d) (de_cancelled d) (de_log d ++ [x]).

(** The cycle in view, and another one in its place. *)
Definition in_view (d : dest) : cycle := mkCycle (de_conn d) (de_writer d) (de_reader d) (de_handler d) (de_unacked d).
Definition show (c : cycle) (others : list cycle) (d : dest) : dest :=
  mkDest (de_flow d) (de_delivering d) (cy_conn c) (cy_writer c) (cy_reader c) (cy_handler c) (cy_unacked c) others (de_started d) (de_retries d) (de_closed d) (de_cancelled d) (de_log d).

(** The worker runs [Write]: a new cycle, beside whatever still runs. *)
Definition start (d : dest) : dest :=
  mkDest (de_flow d) (de_delivering d) (S (de_started d)) WDial ReadOff HOpening ∅ (de_others d ++ [in_view d])
    (S (de_started d)) (de_retries d - 1) (de_closed d) (de_cancelled d) (de_log d).

Definition on_pending (g : StreamEventHistory -> StreamEventHistory) (d : dest) : dest :=
  with_flow (set_pending (g (fw_pending (de_flow d))) (de_flow d)) d.

(** Recovery takes an event that is not sent, or it is lost. *)
Definition save_or_lose (recovery saved : bool) (ev : Event) (d : dest) : dest :=
  if recovery && saved then note (FSaved ev) d
  else note (FLost ev) (with_flow (count IncreaseLost (de_flow d)) d).

(** [saveToRecoveryOrLose] *)
Definition saveToRecoveryOrLose (recovery saved : bool) (ev : Event) (d : dest) : dest :=
  on_pending (history_delete (ev_ID ev)) (save_or_lose recovery saved ev d).

(** [reload], and the handler's return, which pauses the flow. *)
Definition pause_off (d : dest) : dest := with_handler HOff (with_flow (set_paused true (de_flow d)) d).
Definition reload (d : dest) : dest := pause_off (with_retries (S (de_retries d)) (with_flow (count IncreaseRetries (de_flow d)) d)).

(** [receive] *)
Definition receive (r : response) (d : dest) : option dest :=
  if Z.of_nat (length (fw_incoming (de_flow d))) <? streamFlowBufferSize
  then Some (with_flow (set_incoming (fw_incoming (de_flow d) ++ [r])%list (de_flow d)) d)
  else None.

Inductive action :=
(* the broadcaster: [deliverToSubscriber] *)
| ADeliver (ev : Event) | AEnqueue | ADivert (saved : bool) | AForget
(* the worker and [Write] *)
| AStart | ADial (ok : bool) | ATake | ASlot | ASlotDead (saved : bool) | ASlotStop
| ASend (ok saved : bool) | AMark | ATrack | AWriterEnd
(* the connection's reader *)
| AReceive (r : response) (again : bool) | AReadError (packet : bool) | AReaderEnd
(* [handleFlow] *)
| AOpen | AHandle (saved : bool) (now : Z) | ARelease (saved : bool) | AError (ofWriter : bool) | ADrained | AHandlerEnd
(* from outside *)
| AClose | ACancel.

(** Whether a goroutine of a cycle sees the end of it: the flow is closed, the
    stream ends, or [Write] has returned. *)
Definition ended (d : dest) : bool :=
  de_closed d || de_cancelled d || match de_writer d with WOff => true | _ => false end.

Definition conn_dead (d : dest) : bool := match de_reader d with ReadOff => true | _ => false end.

(** [handleFlow] on what it received. *)
Definition handle_response (st : settings) (saved : bool) (now : Z) (r : response) (d : dest) : dest :=
  match r with
  | ROk id accepted text =>
      match handle_ok (se_recovery st) saved id accepted text (de_flow d) with
      | Some (f, v) => note (FAcked id v) (with_flow f d)
      | None =>
          let '(found, _, f) := lookup_ok id (de_flow d) in
          with_handler (HRelease (sh_generation (fw_pending f)) id accepted text found) (with_flow f d)
      end
  | REvent ev =>
      let '(f, h) := handleEvent (se_trusted st) (se_strictPow st) true false now ev (de_flow d) in
      let d := with_flow f d in
      match h with Broadcast => note (FRelayed ev) d | _ => d end
  | REose | RNotice _ => d
  | RClosed _ => reload d
  end.

(** [sendError]: the error of the cycle's writer or reader, who returns once it is
    taken; whether it is a packet's. *)
Definition send_error (ofWriter : bool) (d : dest) : option (bool * dest) :=
  match ofWriter, de_writer d, de_reader d with
  | true, WError, _ => Some (false, with_writer WOff d)
  | false, _, ReadError packet => Some (packet, with_reader ReadOff d)
  | _, _, _ => None
  end.

(** [handleFlow] on an error. *)
Definition take_error (packet : bool) (d : dest) : option dest :=
  match de_handler d with
  | HOn => Some (if packet then with_flow (count IncreaseFailures (de_flow d)) d else with_handler HDrain d)
  | HDrain => Some d
  | _ => None
  end.

(** The reader on a message: with a signer, an event refused for the login is
    sent once more after it. *)
Definition read_response (st : settings) (r : response) (again : bool) (d : dest) : option dest :=
  match r with
  | ROk id accepted text =>
      if se_signer st then
        let was := bool_decide (id ∈ de_unacked d) in
        let d := with_unacked (de_unacked d ∖ {[id]}) d in
        if was && negb accepted && refusedForLogin text && again then Some (note (FResent id) d)
        else receive r d
      else receive r d
  | _ => receive r d
  end.

Definition dstep (st : settings) (a : action) (d : dest) : option dest :=
  let f := de_flow d in
  match a with
  | ADeliver ev =>
      match de_delivering d with
      | Some _ => None
      | None => Some (note (FDelivered ev) (with_delivering (Some ev) (on_pending (history_add ev) d)))
      end
  | AEnqueue =>
      ev ← de_delivering d;
      if Z.of_nat (length (fw_queue f)) <? streamFlowBufferSize
      then Some (with_delivering None (with_flow (set_events (fw_queue f ++ [ev])%list f) d)) else None
  | ADivert saved =>
      ev ← de_delivering d;
      if fw_paused f
      then Some (save_or_lose (se_recovery st) saved ev (with_delivering None (on_pending (history_delete (ev_ID ev)) d))) else None
  | AForget =>
      ev ← de_delivering d;
      if de_cancelled d
      then Some (note (FDropped ev) (with_delivering None (on_pending (history_delete (ev_ID ev)) d))) else None
  | AStart => match de_retries d with O => None | S _ => Some (start d) end
  | ADial ok =>
      match de_writer d with
      | WDial => Some (if ok then with_reader ReadOn (with_writer WLoop d) else with_writer WError d)
      | _ => None
      end
  | ATake =>
      match de_writer d, fw_queue f with
      | WLoop, ev :: q =>
          Some (with_writer (match fw_inFlight f with Some _ => WSlot ev (sh_generation (fw_pending f)) | None => WSend ev end) (with_flow (set_events q f) d))
      | _, _ => None
      end
  | ASlot =>
      match de_writer d with
      | WSlot ev gen =>
          n ← slots_of gen f;
          if (n <? se_concurrency st)%nat then Some (with_writer (WSend ev) (with_flow (set_slots gen (S n) f) d)) else None
      | _ => None
      end
  | ASlotDead saved =>
      match de_writer d with
      | WSlot ev _ => if conn_dead d then Some (with_writer WOff (saveToRecoveryOrLose (se_recovery st) saved ev d)) else None
      | _ => None
      end
  | ASlotStop =>
      match de_writer d with
      | WSlot ev _ =>
          if de_closed d || de_cancelled d
          then Some (with_writer WOff (note (FDropped ev) (on_pending (history_delete (ev_ID ev)) d))) else None
      | _ => None
      end
  | ASend ok saved =>
      match de_writer d with
      | WSend ev =>
          let d := if se_signer st then with_unacked ({[ev_ID ev]} ∪ de_unacked d) d else d in
          Some (if ok then with_writer (WMark ev) (note (FSent (de_conn d) ev) d)
                else with_writer WError (saveToRecoveryOrLose (se_recovery st) saved ev d))
      | _ => None
      end
  | AMark =>
      match de_writer d with
      | WMark ev => Some (with_writer (WTrack ev) (on_pending (markDispatched (ev_ID ev)) d))
      | _ => None
      end
  | ATrack =>
      match de_writer d with
      | WTrack ev => Some (with_writer WLoop (with_flow (set_dispatched ({[ev_ID ev]} ∪ fw_dispatched f) f) d))
      | _ => None
      end
  | AWriterEnd =>
      match de_writer d with
      | WLoop => if conn_dead d || de_closed d || de_cancelled d then Some (with_writer WOff d) else None
      | WError => if de_closed d || de_cancelled d then Some (with_writer WOff d) else None
      | _ => None
      end
  | AReceive r again =>
      match de_reader d with ReadOn => read_response st r again d | _ => None end
  | AReadError packet =>
      match de_reader d with ReadOn => Some (with_reader (ReadError packet) d) | _ => None end
  | AReaderEnd =>
      match de_reader d with
      | ReadOff => None
      | _ => if ended d then Some (with_reader ReadOff d) else None
      end
  | AOpen =>
      match de_handler d with
      | HOpening => Some (note FOpened (with_handler HOn (with_flow (open (se_concurrency st) f) d)))
      | _ => None
      end
  | AHandle saved now =>
      match de_handler d, fw_incoming f with
      | HOn, r :: rs => Some (handle_response st saved now r (with_flow (set_incoming rs f) d))
      | _, _ => None
      end
  | ARelease saved =>
      match de_handler d with
      | HRelease gen id accepted text found =>
          match slots_of gen f with
          | Some (S n) =>
              let '(f, v) := count_ok (se_recovery st) saved accepted text found (set_slots gen n f) in
              Some (note (FAcked id v) (with_handler HOn (with_flow f d)))
          | _ => None
          end
      | _ => None
      end
  | AError ofWriter => '(packet, d) ← send_error ofWriter d; take_error packet d
  | ADrained => match de_handler d with HDrain => Some (reload d) | _ => None end
  | AHandlerEnd => match de_handler d with HOn => if ended d then Some (pause_off d) else None | _ => None end
  | AClose => Some (with_stop true (de_cancelled d) d)
  | ACancel => Some (with_stop (de_closed d) true d)
  end.

(** ** All cycles *)

(** Bring a cycle into view: 0 is there already. *)
Definition focus (i : nat) (d : dest) : option dest :=
  match i with
  | O => Some d
  | S k => c ← de_others d !! k; Some (show c (<[k := in_view d]> (de_others d)) d)
  end.

(** An action of a cycle, or an error of one that another's handler takes. *)
Inductive move := On (i : nat) (a : action) | Cross (i : nat) (ofWriter : bool) (j : nat).

Definition step (st : settings) (m : move) (d : dest) : option dest :=
  match m with
  | On i a => d ← focus i d; d ← dstep st a d; focus i d
  | Cross i ofWriter j =>
      d ← focus i d; '(packet, d) ← send_error ofWriter d; d ← focus i d;
      d ← focus j d; d ← take_error packet d; focus j d
  end.

Fixpoint run (st : settings) (l : list move) (d : dest) : option dest :=
  match l with
  | [] => Some d
  | m :: l => d ← step st m d; run st l d
  end.

End Flow.

(** ** Trying again *)

(** [NextRetry]: when a worker with this many failures starts again, and the
    count it has then ([Retry]). *)
Definition NextRetry (now failureCount : Z) : Z :=
  if workerFailureThreshold <=? failureCount + 1 then Time_Add now (workerDelayTime + workerCoolDownTime) else Time_Add now workerDelayTime.

Definition Retry (failureCount : Z) : Z :=
  if workerFailureThreshold <=? failureCount + 1 then 0 else failureCount + 1.
