(* ===== verification/ClientStreamFacts.v ===== *)
(** * Streaming events to a destination: nothing vanishes unnoticed

    Invariants over all interleavings of a destination's goroutines. *)
From S2P Require Import Prelude GoTime GoStrings Nostr ClientFollow ClientStream.
From stdpp Require Import options.

Local Open Scope Z_scope.

(** ** What the log says *)

Definition delivered (l : list fact) : list Event :=
  omap (fun x => match x with FDelivered ev => Some ev | _ => None end) l.

Definition sent (l : list fact) : list Event :=
  omap (fun x => match x with FSent _ ev => Some ev | _ => None end) l.

(** What was sent on one connection. *)
Definition sent_on (c : nat) (l : list fact) : list Event :=
  omap (fun x => match x with FSent c' ev => if Nat.eqb c' c then Some ev else None | _ => None end) l.

(** Events that are not sent, and known not to be. *)
Definition unsent (l : list fact) : list Event :=
  omap (fun x => match x with FSaved ev | FLost ev | FDropped ev => Some ev | _ => None end) l.

Definition acked (l : list fact) : list verdict :=
  omap (fun x => match x with FAcked _ v => Some v | _ => None end) l.

Definition tally (P : fact -> bool) (l : list fact) : Z := Z.of_nat (length (List.filter P l)).

Definition is_counted (x : fact) : bool := match x with FAcked _ VEvent | FRelayed _ => true | _ => false end.
Definition is_duplicate (x : fact) : bool := match x with FAcked _ VDuplicate => true | _ => false end.
Definition is_lost (x : fact) : bool := match x with FLost _ | FAcked _ VLost => true | _ => false end.
Definition is_refused (x : fact) : bool := match x with FAcked _ (VSaved _) | FAcked _ VLost => true | _ => false end.

Lemma tally_snoc P l x : tally P (l ++ [x]) = tally P l + (if P x then 1 else 0).
Proof. unfold tally. rewrite List.filter_app, length_app. cbn. destruct (P x); cbn; lia. Qed.

#[local] Arguments sent_on : simpl never.
#[local] Arguments sent : simpl never.
#[local] Arguments delivered : simpl never.
#[local] Arguments unsent : simpl never.

Lemma omap_snoc {A B} (g : A -> option B) l x : omap g (l ++ [x]) = (omap g l ++ option_list (g x))%list.
Proof. rewrite omap_app. cbn. by destruct (g x). Qed.

Lemma sent_snoc l x : sent (l ++ [x]) = (sent l ++ match x with FSent _ ev => [ev] | _ => [] end)%list.
Proof. unfold sent. rewrite omap_snoc. by destruct x. Qed.

Lemma sent_on_snoc c l x :
  sent_on c (l ++ [x]) = (sent_on c l ++ match x with FSent c' ev => if Nat.eqb c' c then [ev] else [] | _ => [] end)%list.
Proof. unfold sent_on. rewrite omap_snoc. destruct x as [| | | | |c' ev| | |]; try done. by destruct (Nat.eqb c' c). Qed.

(** The event in a writer's hands, before it is sent. *)
Definition hands (w : writer) : list Event := match w with WSlot ev _ | WSend ev => [ev] | _ => [] end.

(** What no writer has yet, and what the writer in view has before it. *)
Definition rest (d : dest) : list Event := (fw_queue (de_flow d) ++ option_list (de_delivering d))%list.
Definition view (d : dest) : list Event := (hands (de_writer d) ++ rest d)%list.

Definition cycles (d : dest) : list cycle := in_view d :: de_others d.

(** The events in the hands of the writers of all cycles. *)
Definition held (d : dest) : list Event := cycles d ≫= fun c => hands (cy_writer c).

(** The counters say what the log says. *)
Record tallied (d : dest) : Prop := {
  ta_events : sa_events (fw_stat (de_flow d)) = tally is_counted (de_log d);
  ta_duplicates : sa_duplicates (fw_stat (de_flow d)) = tally is_duplicate (de_log d);
  ta_lost : sa_lost (fw_stat (de_flow d)) = tally is_lost (de_log d);
  ta_failures : tally is_refused (de_log d) <= sa_failures (fw_stat (de_flow d));
}.

Section Facts.
Context {N : Nmilat} (st : settings).

(** ** What a step notes *)

(** What a fact adds to a tally. *)
Definition adds (P : fact -> bool) (x : option fact) : Z := match x with Some y => if P y then 1 else 0 | None => 0 end.

Definition counts (x : option fact) (s s' : stat) : Prop :=
  sa_events s' = sa_events s + adds is_counted x /\ sa_duplicates s' = sa_duplicates s + adds is_duplicate x /\
  sa_lost s' = sa_lost s + adds is_lost x /\ sa_failures s + adds is_refused x <= sa_failures s'.

(** How a fact moves events. *)
Definition moves (x : option fact) (d d' : dest) : Prop :=
  match x with
  | Some (FDelivered ev) => view d' = (view d ++ [ev])%list /\ rest d' = (rest d ++ [ev])%list
  | Some (FSent c ev) => c = de_conn d /\ view d = ev :: view d' /\ rest d' = rest d
  | Some (FSaved ev) | Some (FLost ev) | Some (FDropped ev) =>
      (exists l1 l2, view d = (l1 ++ ev :: l2)%list /\ view d' = (l1 ++ l2)%list) /\ rest d' `sublist_of` rest d
  | _ => view d' = view d /\ rest d' `sublist_of` rest d
  end.

(** The cycles that are not in view are as they were. *)
Definition aside (d d' : dest) : Prop :=
  de_others d' = de_others d /\ de_conn d' = de_conn d /\ de_started d' = de_started d.

Definition noted (d d' : dest) (x : option fact) : Prop :=
  de_log d' = (de_log d ++ option_list x)%list /\ moves x d d' /\
  counts x (fw_stat (de_flow d)) (fw_stat (de_flow d')) /\ aside d d'.

Lemma tallied_step d d' x : noted d d' x -> tallied d -> tallied d'.
Proof.
  intros (Hl & _ & (S1 & S2 & S3 & S4) & _) [A3 A4 A5 A6].
  assert (forall P : fact -> bool, tally P (de_log d') = tally P (de_log d) + adds P x) as E5.
  { intros P. rewrite Hl. destruct x; cbn [option_list option_rect adds]; [by rewrite tally_snoc|]. rewrite app_nil_r. lia. }
  split; rewrite E5; lia.
Qed.

Lemma save_or_lose_noted recovery saved ev d :
  let d' := save_or_lose recovery saved ev d in
  exists x, (x = FSaved ev \/ x = FLost ev) /\ de_log d' = (de_log d ++ [x])%list /\
    counts (Some x) (fw_stat (de_flow d)) (fw_stat (de_flow d')) /\
    de_delivering d' = de_delivering d /\ de_writer d' = de_writer d /\ fw_queue (de_flow d') = fw_queue (de_flow d) /\ aside d d'.
Proof.
  unfold save_or_lose. destruct (recovery && saved).
  - exists (FSaved ev). cbn. unfold counts. cbn. split_and!; auto; lia || done.
  - exists (FLost ev). cbn. unfold counts. cbn. split_and!; auto; lia || done.
Qed.

Lemma count_ok_noted saved id accepted text found f :
  fw_queue (count_ok (se_recovery st) saved accepted text found f).1 = fw_queue f /\
  counts (Some (FAcked id (count_ok (se_recovery st) saved accepted text found f).2)) (fw_stat f)
    (fw_stat (count_ok (se_recovery st) saved accepted text found f).1).
Proof. unfold count_ok, counts. repeat case_match; cbn; split_and!; try done; lia. Qed.

Lemma lookup_ok_frame id f found taken f' :
  lookup_ok id f = (found, taken, f') ->
  found = history_get id (fw_pending f) /\ taken = bool_decide (id ∈ fw_dispatched f) /\
  fw_pending f' = history_delete id (fw_pending f) /\ fw_dispatched f' = fw_dispatched f ∖ {[id]} /\
  fw_queue f' = fw_queue f /\ fw_stat f' = fw_stat f /\ fw_inFlight f' = fw_inFlight f /\ fw_stale f' = fw_stale f.
Proof. unfold lookup_ok, takeIfPresent. intros [= <- <- <-]. done. Qed.

Lemma releaseSlot_held f f' :
  releaseSlot f = Some f' ->
  fw_dispatched f' = fw_dispatched f /\ fw_inFlight f = (S <$> fw_inFlight f') /\ fw_pending f' = fw_pending f /\
  fw_queue f' = fw_queue f /\ fw_stat f' = fw_stat f.
Proof. unfold releaseSlot. intros Hr. repeat case_match; simplify_eq; cbn; try done. by rewrite H. Qed.

Lemma handle_ok_noted saved id accepted text f f' v :
  handle_ok (se_recovery st) saved id accepted text f = Some (f', v) ->
  fw_queue f' = fw_queue f /\ counts (Some (FAcked id v)) (fw_stat f) (fw_stat f').
Proof.
  unfold handle_ok. destruct (lookup_ok id f) as [[found taken] f1] eqn:E. apply lookup_ok_frame in E as (_ & _ & _ & _ & Eq & Es & _).
  destruct (if taken then releaseSlot f1 else Some f1) as [f2|] eqn:Er; cbn; [|done]. intros [= Hc].
  assert (fw_queue f2 = fw_queue f1 /\ fw_stat f2 = fw_stat f1) as [Eq2 Es2].
  { destruct taken; [by apply releaseSlot_held in Er as (_ & _ & _ & ? & ?)|by injection Er as <-]. }
  destruct (count_ok_noted saved id accepted text found f2) as [C1 C2]. rewrite Hc in C1, C2. cbn in C1, C2.
  rewrite C1, Eq2, Eq. split; [done|]. by rewrite <- Es, <- Es2.
Qed.

(** A step that notes nothing and moves nothing. *)
Ltac quiet_step :=
  exists None; unfold noted, moves, view, rest, counts, aside; cbn; rewrite ?app_nil_r; split_and!; try done; lia.

Lemma receive_noted r d d' : receive r d = Some d' -> exists x, noted d d' x.
Proof. unfold receive. case_match; [|done]. intros [= <-]. quiet_step. Qed.

Lemma read_response_noted r again d d' : read_response st r again d = Some d' -> exists x, noted d d' x.
Proof.
  unfold read_response. destruct r as [id accepted text| | | |]; try apply receive_noted.
  destruct (se_signer st); [|apply receive_noted].
  destruct (bool_decide (id ∈ de_unacked d) && negb accepted && refusedForLogin text && again).
  - intros [= <-]. exists (Some (FResent id)). unfold noted, moves, counts. cbn. split_and!; try done; lia.
  - intros [x Hx]%receive_noted. by exists x.
Qed.

Lemma handle_response_noted saved now r d : exists x, noted d (handle_response st saved now r d) x.
Proof.
  unfold handle_response. destruct r as [id accepted text|ev| | |text].
  - destruct (handle_ok _ _ _ _ _ _) as [[f v]|] eqn:E.
    + apply handle_ok_noted in E as [E1 E2]. exists (Some (FAcked id v)). unfold noted, moves, view, rest. cbn. by rewrite E1.
    + destruct (lookup_ok id (de_flow d)) as [[found taken] f] eqn:Et. apply lookup_ok_frame in Et as (_ & _ & _ & _ & Eq & Es & _).
      exists None. unfold noted, moves, view, rest, counts, aside. cbn. rewrite Eq, Es, app_nil_r. split_and!; try done; lia.
  - unfold handleEvent. destruct (negb _ && _); [quiet_step|].
    exists (Some (FRelayed ev)). unfold noted, moves, counts. cbn. split_and!; try done; lia.
  - quiet_step.
  - quiet_step.
  - quiet_step.
Qed.

(** The writer in view gives its event up. *)
Lemma hands_given_up d d' ev x :
  hands (de_writer d) = [ev] -> hands (de_writer d') = [] -> fw_queue (de_flow d') = fw_queue (de_flow d) ->
  de_delivering d' = de_delivering d -> x = FSaved ev \/ x = FLost ev \/ x = FDropped ev -> moves (Some x) d d'.
Proof.
  intros H1 H2 H3 H4 Hx.
  assert ((exists l1 l2, view d = (l1 ++ ev :: l2)%list /\ view d' = (l1 ++ l2)%list) /\ rest d' `sublist_of` rest d) as Hl.
  { unfold view, rest. rewrite H1, H2, H3, H4. split; [by exists [], (rest d)|done]. }
  destruct Hx as [->|[->| ->]]; exact Hl.
Qed.

(** So does the broadcaster. *)
Lemma delivering_given_up d d' ev x :
  de_delivering d = Some ev -> de_delivering d' = None -> hands (de_writer d') = hands (de_writer d) ->
  fw_queue (de_flow d') = fw_queue (de_flow d) -> x = FSaved ev \/ x = FLost ev \/ x = FDropped ev -> moves (Some x) d d'.
Proof.
  intros H1 H2 H3 H4 Hx.
  assert ((exists l1 l2, view d = (l1 ++ ev :: l2)%list /\ view d' = (l1 ++ l2)%list) /\ rest d' `sublist_of` rest d) as Hl.
  { unfold view, rest. rewrite H1, H2, H3, H4. split; [|apply sublist_app; [done|apply sublist_nil_l]].
    exists (hands (de_writer d) ++ fw_queue (de_flow d))%list, []. rewrite !app_nil_r. cbn. by rewrite <- !(assoc_L (++)). }
  destruct Hx as [->|[->| ->]]; exact Hl.
Qed.

Lemma send_error_noted ofWriter packet d d' : send_error ofWriter d = Some (packet, d') -> noted d d' None.
Proof.
  unfold send_error. intros He. destruct ofWriter.
  - destruct (de_writer d) eqn:Ew; simplify_eq. unfold noted, moves, view, rest, counts, aside. cbn. rewrite Ew, app_nil_r. split_and!; try done; lia.
  - destruct (de_writer d), (de_reader d); simplify_eq; unfold noted, moves, view, rest, counts, aside; cbn; rewrite app_nil_r; split_and!; try done; lia.
Qed.

Lemma take_error_noted packet d d' : take_error packet d = Some d' -> noted d d' None.
Proof.
  unfold take_error. intros He. destruct (de_handler d), packet; simplify_eq;
    unfold noted, moves, view, rest, counts, aside; cbn; rewrite app_nil_r; split_and!; try done; lia.
Qed.

Lemma noted_quiet_trans d1 d2 d3 : noted d1 d2 None -> noted d2 d3 None -> noted d1 d3 None.
Proof.
  intros (L1 & [V1 R1] & C1 & O1 & O2 & O3) (L2 & [V2 R2] & C2 & P1 & P2 & P3). cbn [option_list option_rect] in *. rewrite app_nil_r in L1, L2.
  unfold noted, moves, aside. cbn [option_list option_rect]. rewrite app_nil_r. split_and!; try congruence; [by etrans|].
  unfold counts in *. cbn in *. lia.
Qed.

#[local] Arguments set_slots : simpl never.
#[local] Arguments slots_of : simpl never.

Lemma set_slots_frame gen n f : fw_queue (set_slots gen n f) = fw_queue f /\ fw_stat (set_slots gen n f) = fw_stat f.
Proof. unfold set_slots. by destruct (_ =? _). Qed.

Lemma dstep_noted a d d' : a <> AStart -> dstep st a d = Some d' -> exists x, noted d d' x.
Proof.
  intros Hst. destruct a as [ev| |saved| | |ok| | |saved| |ok saved| | | |r again|packet| | |saved now|saved|ofWriter| | | |]; cbn [dstep].
  - destruct (de_delivering d) eqn:E; [done|]. intros [= <-]. exists (Some (FDelivered ev)). unfold noted, moves, view, rest, counts, aside. cbn.
    rewrite E, ?app_nil_r. cbn. rewrite <- ?(assoc_L (++)). split_and!; try done; lia.
  - destruct (de_delivering d) as [ev|] eqn:E; cbn; [|done]. case_match; [|done]. intros [= <-]. exists None. unfold noted, moves, view, rest, counts, aside. cbn.
    rewrite E, !app_nil_r. cbn. split_and!; try done; lia.
  - destruct (de_delivering d) as [ev|] eqn:E; cbn; [|done]. destruct (fw_paused _); [|done]. intros [= <-].
    destruct (save_or_lose_noted (se_recovery st) saved ev (with_delivering None (on_pending (history_delete (ev_ID ev)) d))) as (x & Hx & Hl & Hc & Hd & Hw & Hq & Ha).
    exists (Some x). split_and!; [done| |done|done]. eapply delivering_given_up; try done; [by rewrite Hw|naive_solver].
  - destruct (de_delivering d) as [ev|] eqn:E; cbn; [|done]. destruct (de_cancelled d); [|done]. intros [= <-].
    exists (Some (FDropped ev)). split_and!; [done| |unfold counts; cbn; lia|done]. eapply delivering_given_up; try done. auto.
  - done.
  - destruct (de_writer d) eqn:Ew; try done. intros [= <-]. destruct ok; exists None; unfold noted, moves, view, rest, counts, aside; cbn;
      rewrite Ew, app_nil_r; (split_and!; try done; lia).
  - destruct (de_writer d) eqn:Ew; try done. destruct (fw_queue (de_flow d)) as [|ev q] eqn:Eq; [done|]. intros [= <-].
    exists None. unfold noted, moves, view, rest, counts, aside. cbn. rewrite Ew, Eq, app_nil_r.
    destruct (fw_inFlight _); (split_and!; try done; try lia; by apply sublist_cons).
  - destruct (de_writer d) as [| | |ev gen| | | |] eqn:Ew; try done. destruct (slots_of gen _) as [n|]; cbn [mbind option_bind]; [|done]. destruct (_ <? _)%nat; [|done]. intros [= <-].
    exists None. unfold noted, moves, view, rest, counts, aside. cbn. destruct (set_slots_frame gen (S n) (de_flow d)) as [-> ->].
    rewrite Ew, app_nil_r. split_and!; try done; lia.
  - destruct (de_writer d) as [| | |ev gen| | | |] eqn:Ew; try done. destruct (conn_dead d); [|done]. intros [= <-].
    destruct (save_or_lose_noted (se_recovery st) saved ev d) as (x & Hx & Hl & Hc & Hd & Hw & Hq & Ha). exists (Some x).
    split_and!; [done| |done|done]. eapply hands_given_up; try done; [by rewrite Ew|naive_solver].
  - destruct (de_writer d) as [| | |ev gen| | | |] eqn:Ew; try done. destruct (_ || _); [|done]. intros [= <-].
    exists (Some (FDropped ev)). split_and!; [done| |unfold counts; cbn; lia|done]. eapply hands_given_up; try done; [by rewrite Ew|auto].
  - destruct (de_writer d) as [| | | |ev| | |] eqn:Ew; try done. intros [= <-].
    set (d1 := if se_signer st then _ else d).
    assert (de_flow d1 = de_flow d /\ de_delivering d1 = de_delivering d /\ de_writer d1 = de_writer d /\ de_log d1 = de_log d /\ aside d d1)
      as (E1 & E2 & E3 & E4 & E5) by (subst d1; by destruct (se_signer st)). destruct ok.
    + exists (Some (FSent (de_conn d1) ev)). unfold noted, moves, view, rest, counts. cbn. rewrite E1, E2, E4, Ew.
      destruct E5 as (E5 & E6 & E7). rewrite E6. split_and!; try done; lia.
    + destruct (save_or_lose_noted (se_recovery st) saved ev d1) as (x & Hx & Hl & Hc & Hd & Hw & Hq & Ha). exists (Some x). rewrite E1 in Hc. unfold noted.
      split_and!; [cbn; by rewrite Hl, E4| |done|unfold aside in *; cbn; intuition congruence].
      eapply (hands_given_up _ _ ev); [by rewrite Ew|done|cbn; by rewrite Hq, E1|cbn; by rewrite Hd, E2|naive_solver].
  - destruct (de_writer d) as [| | | | |ev| |] eqn:Ew; try done. intros [= <-]. exists None. unfold noted, moves, view, rest, counts, aside. cbn.
    rewrite Ew, app_nil_r. split_and!; try done; lia.
  - destruct (de_writer d) as [| | | | | |ev|] eqn:Ew; try done. intros [= <-]. exists None. unfold noted, moves, view, rest, counts, aside. cbn.
    rewrite Ew, app_nil_r. split_and!; try done; lia.
  - destruct (de_writer d) eqn:Ew; try done; (destruct (_ || _); [|done]); intros [= <-]; exists None;
      unfold noted, moves, view, rest, counts, aside; cbn; rewrite Ew, app_nil_r; (split_and!; try done; lia).
  - destruct (de_reader d); try done. apply read_response_noted.
  - destruct (de_reader d); try done. intros [= <-]. quiet_step.
  - destruct (de_reader d); try done; (destruct (ended d); [|done]); intros [= <-]; quiet_step.
  - destruct (de_handler d); try done. intros [= <-]. exists (Some FOpened). unfold noted, moves, counts. cbn. split_and!; try done; lia.
  - destruct (de_handler d); try done. destruct (fw_incoming (de_flow d)) as [|r rs]; [done|]. intros [= <-].
    destruct (handle_response_noted saved now r (with_flow (set_incoming rs (de_flow d)) d)) as [x Hx]. by exists x.
  - destruct (de_handler d) as [| | |gen id accepted text found|] eqn:Eh; try done. destruct (slots_of gen _) as [[|n]|]; try done.
    pose proof (count_ok_noted saved id accepted text found (set_slots gen n (de_flow d))) as [C1 C2].
    destruct (set_slots_frame gen n (de_flow d)) as [F1 F2]. rewrite F1 in C1. rewrite F2 in C2.
    destruct (count_ok _ _ _ _ _ _) as [f v]. intros [= <-]. cbn in C1, C2.
    exists (Some (FAcked id v)). unfold noted, moves, view, rest. cbn. by rewrite C1.
  - destruct (send_error ofWriter d) as [[packet d1]|] eqn:Es; cbn; [|done]. intros Ht.
    exists None. by eapply noted_quiet_trans; [eapply send_error_noted|eapply take_error_noted].
  - destruct (de_handler d); try done. intros [= <-]. quiet_step.
  - destruct (de_handler d); try done. destruct (ended d); [|done]. intros [= <-]. quiet_step.
  - intros [= <-]. quiet_step.
  - intros [= <-]. quiet_step.
Qed.

(** ** Every event is somewhere *)

(** The events a cycle has sent, has in hand and may still be given, in order. *)
Definition line_of (c : cycle) (d : dest) : list Event := (sent_on (cy_conn c) (de_log d) ++ hands (cy_writer c) ++ rest d)%list.

Record accounts (d : dest) : Prop := {
  ac_where : delivered (de_log d) ≡ₚ (sent (de_log d) ++ held d ++ rest d ++ unsent (de_log d))%list;
  ac_order : forall c, c ∈ cycles d -> line_of c d `sublist_of` delivered (de_log d);
  ac_conns : NoDup (cy_conn <$> cycles d);
  ac_started : forall c, c ∈ cycles d -> (cy_conn c <= de_started d)%nat;
  ac_sends : forall c, sent_on c (de_log d) `sublist_of` delivered (de_log d) /\ ((de_started d < c)%nat -> sent_on c (de_log d) = []);
  ac_tallied : tallied d;
}.

Lemma accounts_new : accounts newDest.
Proof.
  split; cbn; try done.
  - intros c ->%list_elem_of_singleton. done.
  - apply NoDup_singleton.
  - by intros c ->%list_elem_of_singleton.
Qed.

(** The same cycles in another order. *)
Lemma accounts_perm d d' :
  cycles d' ≡ₚ cycles d -> rest d' = rest d -> de_log d' = de_log d -> de_started d' = de_started d ->
  fw_stat (de_flow d') = fw_stat (de_flow d) -> accounts d -> accounts d'.
Proof.
  intros Hp Hr Hl Hs Hf [A1 A2 A3 A4 A5 [T1 T2 T3 T4]]. split; rewrite ?Hl, ?Hs; try done.
  - rewrite A1, Hr. unfold held. by rewrite Hp.
  - intros c Hc. unfold line_of. rewrite Hr, Hl. apply A2. by rewrite <- Hp.
  - by rewrite Hp.
  - intros c. rewrite Hp. apply A4.
  - split; by rewrite Hf, Hl.
Qed.

Lemma focus_cycles i d d' :
  focus i d = Some d' ->
  cycles d' ≡ₚ cycles d /\ de_flow d' = de_flow d /\ de_delivering d' = de_delivering d /\ de_log d' = de_log d /\
  de_started d' = de_started d.
Proof.
  destruct i as [|k]; cbn; [by intros [= <-]|]. destruct (de_others d !! k) as [c|] eqn:Ec; cbn; [|done]. intros [= <-].
  split_and!; try done. unfold cycles, show, in_view. cbn [de_conn de_writer de_reader de_handler de_unacked de_others].
  destruct c as [n w r h u]. cbn. assert (k < length (de_others d))%nat as Hk by (by eapply lookup_lt_Some).
  rewrite <- (take_drop_middle _ _ _ Ec) at 2. rewrite insert_take_drop by done.
  rewrite <- !Permutation_middle. apply perm_swap.
Qed.

Lemma accounts_focus i d d' : focus i d = Some d' -> accounts d -> accounts d'.
Proof.
  intros (Hp & Hf & Hd & Hl & Hs)%focus_cycles. apply accounts_perm; try done; [unfold rest; by rewrite Hf, Hd|by rewrite Hf].
Qed.

Lemma accounts_start d : accounts d -> accounts (start d).
Proof.
  intros [A1 A2 A3 A4 A5 [T1 T2 T3 T4]].
  assert (cycles (start d) ≡ₚ mkCycle (S (de_started d)) WDial ReadOff HOpening ∅ :: cycles d) as Hp.
  { unfold cycles. cbn. by rewrite <- Permutation_cons_append. }
  split; cbn [start de_log de_started].
  - rewrite A1. unfold held. rewrite Hp. done.
  - intros c. rewrite Hp. intros [->|Hc]%elem_of_cons; [|by apply A2]. unfold line_of. cbn.
    destruct (A5 (S (de_started d))) as [_ ->]; [|lia]. etrans; [|apply (A2 (in_view d)); by left].
    apply sublist_inserts_l, sublist_inserts_l. done.
  - rewrite Hp. cbn [fmap list_fmap cy_conn]. constructor; [|done]. intros (c & E & Hc)%list_elem_of_fmap. apply A4 in Hc. lia.
  - intros c. rewrite Hp. intros [->|Hc]%elem_of_cons; [done|]. apply A4 in Hc. lia.
  - intros c. destruct (A5 c) as [H1 H2]. split; [done|]. intros. apply H2. lia.
  - by split.
Qed.

Lemma log_split l (x : option fact) :
  delivered (l ++ option_list x) = (delivered l ++ match x with Some (FDelivered ev) => [ev] | _ => [] end)%list /\
  sent (l ++ option_list x) = (sent l ++ match x with Some (FSent _ ev) => [ev] | _ => [] end)%list /\
  unsent (l ++ option_list x) = (unsent l ++ match x with Some (FSaved ev) | Some (FLost ev) | Some (FDropped ev) => [ev] | _ => [] end)%list /\
  forall c, sent_on c (l ++ option_list x) = (sent_on c l ++ match x with Some (FSent c' ev) => if Nat.eqb c' c then [ev] else [] | _ => [] end)%list.
Proof.
  destruct x as [x|]; cbn [option_list option_rect].
  - unfold delivered, unsent. rewrite !omap_snoc, sent_snoc. split_and!; try (by destruct x). intros c. by rewrite sent_on_snoc.
  - split_and!; try intros c; by rewrite !app_nil_r.
Qed.

Lemma where_perm {A} (s v o u x1 x2 h r x3 : list A) :
  (x1 ++ v)%list ≡ₚ (x2 ++ (h ++ r) ++ x3)%list ->
  ((s ++ v ++ o ++ u) ++ x1)%list ≡ₚ ((s ++ x2) ++ (h ++ o) ++ r ++ u ++ x3)%list.
Proof. intros Hw. trans ((x1 ++ v) ++ s ++ o ++ u)%list; [solve_Permutation|]. rewrite Hw. solve_Permutation. Qed.

(** What a fact says of the events, the view shows. *)
Lemma moves_where d d' x :
  noted d d' x ->
  (match x with Some (FDelivered ev) => [ev] | _ => [] end ++ view d)%list
    ≡ₚ (match x with Some (FSent _ ev) => [ev] | _ => [] end ++ view d'
        ++ match x with Some (FSaved ev) | Some (FLost ev) | Some (FDropped ev) => [ev] | _ => [] end)%list.
Proof.
  intros (_ & Hm & _). unfold moves in Hm.
  destruct x as [[]|]; cbn [app]; rewrite ?app_nil_r; try (destruct Hm as [-> _]; done).
  - destruct Hm as [-> _]. apply Permutation_cons_append.
  - destruct Hm as [(l1 & l2 & -> & ->) _]. rewrite <- Permutation_middle. apply Permutation_cons_append.
  - destruct Hm as [(l1 & l2 & -> & ->) _]. rewrite <- Permutation_middle. apply Permutation_cons_append.
  - destruct Hm as [(l1 & l2 & -> & ->) _]. rewrite <- Permutation_middle. apply Permutation_cons_append.
  - destruct Hm as (_ & -> & _). done.
Qed.

(** What was sent before the view of the cycle in view, *)
Lemma line_step d d' x s l :
  noted d d' x -> (s ++ view d)%list `sublist_of` l ->
  ((s ++ match x with Some (FSent _ ev) => [ev] | _ => [] end) ++ view d')%list
    `sublist_of` (l ++ match x with Some (FDelivered ev) => [ev] | _ => [] end)%list.
Proof.
  intros (_ & Hm & _) Hs. unfold moves in Hm.
  assert (forall ev l1 l2, view d = (l1 ++ ev :: l2)%list -> view d' = (l1 ++ l2)%list -> (s ++ view d')%list `sublist_of` l) as Hgone.
  { intros ev l1 l2 E E'. rewrite E in Hs. rewrite E'. etrans; [|exact Hs]. repeat (apply sublist_app; [done|]). by apply sublist_cons. }
  destruct x as [[]|]; rewrite ?app_nil_r; try (destruct Hm as [-> _]; exact Hs).
  - destruct Hm as [-> _]. rewrite (assoc_L (++)). by apply sublist_app.
  - destruct Hm as [(l1 & l2 & E & E') _]. by eapply Hgone.
  - destruct Hm as [(l1 & l2 & E & E') _]. by eapply Hgone.
  - destruct Hm as [(l1 & l2 & E & E') _]. by eapply Hgone.
  - destruct Hm as (_ & E & _). rewrite <- (assoc_L (++)). cbn. by rewrite <- E.
Qed.

(** on its connection, *)
Lemma line_in_view d d' x l :
  noted d d' x -> (sent_on (de_conn d) (de_log d) ++ view d)%list `sublist_of` l ->
  (sent_on (de_conn d) (de_log d') ++ view d')%list `sublist_of` (l ++ match x with Some (FDelivered ev) => [ev] | _ => [] end)%list.
Proof.
  intros Hn Hs. pose proof Hn as (Hl & Hm & _). rewrite Hl. destruct (log_split (de_log d) x) as (_ & _ & _ & ->).
  pose proof (line_step d d' x _ _ Hn Hs) as Hk. destruct x as [[]|]; try done. destruct Hm as (-> & _). by rewrite Nat.eqb_refl.
Qed.

(** and the line of another. *)
Lemma line_aside d d' x c l :
  noted d d' x -> cy_conn c <> de_conn d -> line_of c d `sublist_of` l ->
  line_of c d' `sublist_of` (l ++ match x with Some (FDelivered ev) => [ev] | _ => [] end)%list.
Proof.
  intros (Hl & Hm & _) Hc Hs. unfold line_of in *. rewrite Hl. destruct (log_split (de_log d) x) as (_ & _ & _ & ->).
  assert (match x with Some (FSent c' ev) => if Nat.eqb c' (cy_conn c) then [ev] else [] | _ => [] end = []) as ->.
  { destruct x as [[]|]; try done. destruct Hm as (-> & _). rewrite (proj2 (Nat.eqb_neq _ _)) by done. done. }
  rewrite app_nil_r. assert (rest d' `sublist_of` (rest d ++ match x with Some (FDelivered ev) => [ev] | _ => [] end)%list) as Hr.
  { unfold moves in Hm. destruct x as [[]|]; rewrite ?app_nil_r; try apply Hm.
    - destruct Hm as [_ ->]. done.
    - destruct Hm as (_ & _ & ->). done. }
  etrans; [|apply sublist_app; [exact Hs|done]]. rewrite <- !(assoc_L (++)). by repeat (apply sublist_app; [done|]).
Qed.

Lemma sent_on_conn d d' x c :
  noted d d' x -> c <> de_conn d -> sent_on c (de_log d') = sent_on c (de_log d).
Proof.
  intros (Hl & Hm & _) Hc. rewrite Hl. destruct (log_split (de_log d) x) as (_ & _ & _ & ->).
  destruct x as [[]|]; rewrite ?app_nil_r; try done. destruct Hm as (-> & _). rewrite (proj2 (Nat.eqb_neq _ _)), app_nil_r by done. done.
Qed.

Lemma accounts_noted d d' x : noted d d' x -> accounts d -> accounts d'.
Proof.
  intros Hn [A1 A2 A3 A4 A5 A6]. pose proof Hn as (Hl & Hm & Hc & Ho & Hcn & Hst).
  destruct (log_split (de_log d) x) as (L1 & L2 & L3 & L4).
  assert (Hdl : delivered (de_log d') = (delivered (de_log d) ++ match x with Some (FDelivered ev) => [ev] | _ => [] end)%list) by (by rewrite Hl).
  assert (Hself : line_of (in_view d) d = (sent_on (de_conn d) (de_log d) ++ view d)%list) by done.
  assert (Hself' : line_of (in_view d') d' = (sent_on (de_conn d) (de_log d') ++ view d')%list) by (by unfold line_of, view; cbn; rewrite Hcn).
  unfold cycles in A3. cbn [fmap list_fmap in_view cy_conn] in A3. apply NoDup_cons in A3 as [Hnew Hnd].
  assert (Hother : forall c, c ∈ de_others d -> cy_conn c <> de_conn d).
  { intros c Hin E. apply Hnew. rewrite <- E. by apply list_elem_of_fmap_2. }
  split.
  - rewrite Hl, L1, L2, L3. unfold held, cycles. cbn [mbind list_bind in_view cy_writer]. rewrite Ho.
    assert (delivered (de_log d) ≡ₚ (sent (de_log d) ++ view d ++ (de_others d ≫= fun c => hands (cy_writer c)) ++ unsent (de_log d))%list) as ->.
    { rewrite A1. unfold held, cycles, view. cbn [mbind list_bind in_view cy_writer]. solve_Permutation. }
    apply where_perm. by apply moves_where.
  - intros c. unfold cycles. rewrite Ho. intros [->|Hin]%elem_of_cons; rewrite Hdl.
    + rewrite Hself'. apply line_in_view; [done|]. rewrite <- Hself. apply A2. by left.
    + apply (line_aside d d' x); [done|by apply Hother|]. apply A2. by right.
  - unfold cycles. cbn [fmap list_fmap in_view cy_conn]. rewrite Ho, Hcn. by constructor.
  - intros c. unfold cycles. rewrite Ho, Hst. intros [->|Hin]%elem_of_cons; [|apply A4; by right]. cbn. rewrite Hcn. apply (A4 (in_view d)). by left.
  - intros c. rewrite Hst, Hdl. destruct (decide (c = de_conn d)) as [->|Hne].
    + split; [|intros Hlt; specialize (A4 (in_view d) ltac:(by left)); cbn in A4; lia].
      etrans; [|apply (line_in_view d d' x); [done|rewrite <- Hself; apply A2; by left]]. by apply sublist_inserts_r.
    + rewrite (sent_on_conn d d' x) by done. split; [|apply A5]. apply sublist_inserts_r, A5.
  - by eapply tallied_step.
Qed.

Lemma step_accounts m d d' : step st m d = Some d' -> accounts d -> accounts d'.
Proof.
  intros Hs HA. destruct m as [i a|i ofWriter j]; cbn in Hs.
  - apply bind_Some in Hs as (d1 & H1 & (d2 & H2 & H3)%bind_Some). apply (accounts_focus _ _ _ H3).
    apply (accounts_focus _ _ _ H1) in HA. assert (a = AStart \/ a <> AStart) as [->|Hne] by (destruct a; (by left) || by right).
    + cbn in H2. destruct (de_retries d1); [done|]. injection H2 as <-. by apply accounts_start.
    + apply dstep_noted in H2 as [x Hx]; [|done]. by eapply accounts_noted.
  - apply bind_Some in Hs as (d1 & H1 & Hs). apply bind_Some in Hs as ([packet d2] & H2 & Hs).
    apply bind_Some in Hs as (d3 & H3 & Hs). apply bind_Some in Hs as (d4 & H4 & (d5 & H5 & H6)%bind_Some).
    apply (accounts_focus _ _ _ H6). eapply accounts_noted; [by eapply take_error_noted|].
    apply (accounts_focus _ _ _ H4), (accounts_focus _ _ _ H3). eapply accounts_noted; [by eapply send_error_noted|].
    by apply (accounts_focus _ _ _ H1).
Qed.

Lemma run_accounts l d d' : accounts d -> run st l d = Some d' -> accounts d'.
Proof.
  revert d. induction l as [|m l IH]; intros d HA; cbn [run]; [by intros [= <-]|].
  destruct (step st m d) as [d1|] eqn:E; cbn; [|done]. apply IH. by eapply step_accounts.
Qed.

(** C18: in every interleaving of the goroutines of a destination's cycles, of
    which several may run at once, every event that was handed to it is in exactly
    one place: with the broadcaster, in the queue, in the hands of a writer, sent,
    saved for recovery, counted as lost, or dropped because everything stops; on
    each connection events are sent in the order they were handed over (but not
    across connections, see [connections_reorder]); and the counters say what
    happened: one event per accepted acknowledgement that was awaited and per
    event relayed, one duplicate per duplicate, one loss per event that nothing
    will retry, and at least one failure per refusal. *)
Theorem stream_accounts l d :
  run st l newDest = Some d ->
  delivered (de_log d) ≡ₚ (sent (de_log d) ++ held d ++ fw_queue (de_flow d) ++ option_list (de_delivering d)
                           ++ unsent (de_log d))%list /\
  (forall c, sent_on c (de_log d) `sublist_of` delivered (de_log d)) /\
  sa_events (fw_stat (de_flow d)) = tally is_counted (de_log d) /\
  sa_duplicates (fw_stat (de_flow d)) = tally is_duplicate (de_log d) /\
  sa_lost (fw_stat (de_flow d)) = tally is_lost (de_log d) /\
  tally is_refused (de_log d) <= sa_failures (fw_stat (de_flow d)).
Proof.
  intros [A1 A2 A3 A4 A5 [T1 T2 T3 T4]]%(run_accounts _ _ _ accounts_new). split_and!; try done; [|intros c; apply A5].
  rewrite A1. unfold rest. by rewrite <- !(assoc_L (++)).
Qed.

(** ** The window of unacknowledged events *)

(** One cycle at a time: it starts when the one before has ended, and its flow is
    open before its connection is up. *)
Definition alone (a : action) (d : dest) : bool :=
  match a with
  | AStart => match de_writer d, de_reader d, de_handler d with WOff, ReadOff, HOff => true | _, _, _ => false end
  | ADial _ => match de_handler d with HOpening => false | _ => true end
  | _ => true
  end.

(** A run of the cycle in view, all of whose actions a condition allows. *)
Fixpoint drun (ok : action -> dest -> bool) (l : list action) (d : dest) : option dest :=
  match l with
  | [] => Some d
  | a :: l => if ok a d then d ← dstep st a d; drun ok l d else None
  end.

Lemma drun_run ok l d d' : drun ok l d = Some d' -> run st (On 0 <$> l) d = Some d'.
Proof.
  revert d. induction l as [|a l IH]; intros d; cbn; [done|]. destruct (ok a d); [|done].
  destruct (dstep st a d) as [d1|]; cbn; [|done]. apply IH.
Qed.

(** What was noted since the flow was last opened. *)
Definition since_opened (l : list fact) : list fact :=
  fold_left (fun acc x => match x with FOpened => [] | x => acc ++ [x] end)%list l [].

Lemma since_opened_snoc l x : since_opened (l ++ [x]) = match x with FOpened => [] | x => (since_opened l ++ [x])%list end.
Proof. unfold since_opened. rewrite fold_left_app. by destruct x. Qed.

Definition sent_now (l : list fact) : nat := length (sent (since_opened l)).
Definition acked_now (l : list fact) : nat := length (acked (since_opened l)).

#[local] Arguments sent_now : simpl never.
#[local] Arguments acked_now : simpl never.

Lemma sent_now_snoc l x :
  sent_now (l ++ [x]) = match x with FOpened => 0 | FSent _ _ => S (sent_now l) | _ => sent_now l end%nat.
Proof.
  unfold sent_now. rewrite since_opened_snoc. destruct x; [done|..]; unfold sent; rewrite omap_snoc, length_app; cbn; lia.
Qed.

Lemma acked_now_snoc l x :
  acked_now (l ++ [x]) = match x with FOpened => 0 | FAcked _ _ => S (acked_now l) | _ => acked_now l end%nat.
Proof.
  unfold acked_now. rewrite since_opened_snoc. destruct x; [done|..]; unfold acked; rewrite omap_snoc, length_app; cbn; lia.
Qed.

(** The writer has a slot for its event. *)
Definition busy (w : writer) : nat := match w with WSend _ | WMark _ | WTrack _ => 1 | _ => 0 end.
Definition sending (w : writer) : nat := match w with WSend _ => 1 | _ => 0 end.

(** Before the flow was ever opened. *)
Definition unopened (d : dest) : Prop :=
  sent_now (de_log d) = 0%nat /\
  match de_handler d, de_writer d with HOff, WOff | HOpening, WDial => True | _, _ => False end.

(** The writer waits for a slot of the semaphore in use, and the handler for none. *)
Definition current (d : dest) : Prop :=
  match de_writer d with WSlot _ gen => gen = sh_generation (fw_pending (de_flow d)) | _ => True end /\
  match de_handler d with HRelease _ _ _ _ _ => False | _ => True end.

Record slots (d : dest) : Prop := {
  sl_opening : de_handler d = HOpening -> de_writer d = WDial;
  sl_current : current d;
  sl_held : match fw_inFlight (de_flow d) with
            | None => (0 < se_concurrency st)%nat -> unopened d
            | Some n => (n <= se_concurrency st /\ size (fw_dispatched (de_flow d)) + busy (de_writer d) <= n /\
                         sent_now (de_log d) + sending (de_writer d) <= n + acked_now (de_log d))%nat
            end;
}.

Lemma slots_new : slots newDest.
Proof. by split. Qed.

(** A step that leaves the slots alone. *)
Lemma slots_frame d d' :
  slots d -> fw_inFlight (de_flow d') = fw_inFlight (de_flow d) -> fw_dispatched (de_flow d') = fw_dispatched (de_flow d) ->
  busy (de_writer d') = busy (de_writer d) -> sending (de_writer d') = sending (de_writer d) ->
  sent_now (de_log d') = sent_now (de_log d) -> (acked_now (de_log d) <= acked_now (de_log d'))%nat ->
  (de_handler d' = HOpening -> de_writer d' = WDial) -> (unopened d -> unopened d') -> (current d -> current d') -> slots d'.
Proof.
  intros [S1 S2 S3] E1 E2 E3 E4 E5 E6 E7 E8 E9. split; [done|auto|]. rewrite E1, E2, E3, E4, E5.
  destruct (fw_inFlight (de_flow d)) as [n|]; [lia|]. auto.
Qed.

Lemma save_or_lose_flow recovery saved ev d :
  let d' := save_or_lose recovery saved ev d in
  fw_inFlight (de_flow d') = fw_inFlight (de_flow d) /\ fw_dispatched (de_flow d') = fw_dispatched (de_flow d) /\
  de_writer d' = de_writer d /\ de_handler d' = de_handler d /\ de_reader d' = de_reader d /\
  sent_now (de_log d') = sent_now (de_log d) /\ acked_now (de_log d') = acked_now (de_log d) /\
  fw_pending (de_flow d') = fw_pending (de_flow d).
Proof. unfold save_or_lose. destruct (recovery && saved); cbn; rewrite sent_now_snoc, acked_now_snoc; done. Qed.

Lemma unopened_writer d w : unopened d -> de_writer d = w -> w = WOff \/ w = WDial.
Proof. intros [_ Hu] <-. destruct (de_handler d), (de_writer d); auto; done. Qed.

(** For a step of the writer past the dial. *)
Ltac past_dial Ew :=
  intros Hu; exfalso; destruct (unopened_writer _ _ Hu Ew); congruence.

Lemma size_take (id : string) (X : gset string) :
  (size X = size (X ∖ {[id]}) + (if bool_decide (id ∈ X) then 1 else 0))%nat.
Proof.
  case_bool_decide as Hin.
  - rewrite (union_difference_singleton_L id X Hin) at 1. rewrite size_union by set_solver. rewrite size_singleton. lia.
  - replace (X ∖ {[id]}) with X by set_solver. lia.
Qed.

Lemma count_ok_frame recovery saved accepted text found f :
  let f' := (count_ok recovery saved accepted text found f).1 in
  fw_pending f' = fw_pending f /\ fw_dispatched f' = fw_dispatched f /\ fw_inFlight f' = fw_inFlight f.
Proof. unfold count_ok. by repeat case_match. Qed.

(** What an OK does to the slots. *)
Lemma handle_ok_slots saved id accepted text f f' v :
  handle_ok (se_recovery st) saved id accepted text f = Some (f', v) ->
  fw_dispatched f' = fw_dispatched f ∖ {[id]} /\
  match fw_inFlight f with
  | None => fw_inFlight f' = None
  | Some n => fw_inFlight f' = Some (n - (if bool_decide (id ∈ fw_dispatched f) then 1 else 0))%nat
  end /\
  fw_pending f' = history_delete id (fw_pending f).
Proof.
  unfold handle_ok. destruct (lookup_ok id f) as [[found taken] f1] eqn:E.
  apply lookup_ok_frame in E as (_ & -> & Ep & Ed & _ & _ & Ei & _).
  destruct (if bool_decide _ then releaseSlot f1 else Some f1) as [f2|] eqn:Er; cbn; [|done]. intros [= Hc].
  destruct (count_ok_frame (se_recovery st) saved accepted text found f2) as (C1 & C2 & C3). rewrite Hc in C1, C2, C3. cbn in C1, C2, C3.
  rewrite C1, C2, C3, <- Ed, <- Ep, <- Ei. destruct (bool_decide (id ∈ fw_dispatched f)).
  - apply releaseSlot_held in Er as (E1 & E2 & E3 & _). rewrite E1, E2, E3.
    split_and!; [done| |done]. destruct (fw_inFlight f2); cbn; [|done]. f_equal. lia.
  - injection Er as <-. split_and!; [done| |done]. destruct (fw_inFlight f1); [f_equal; lia|done].
Qed.

(** With a slot for every dispatched event, releasing one never blocks. *)
Lemma handle_ok_ready saved id accepted text d : slots d -> is_Some (handle_ok (se_recovery st) saved id accepted text (de_flow d)).
Proof.
  intros HS. unfold handle_ok. destruct (lookup_ok id (de_flow d)) as [[found taken] f] eqn:E.
  apply lookup_ok_frame in E as (_ & -> & _ & _ & _ & _ & Ei & _). pose proof (sl_held _ HS) as Hh.
  case_bool_decide as Hin; [|by eexists]. unfold releaseSlot. rewrite Ei. destruct (fw_inFlight (de_flow d)) as [[|n]|]; [|by eexists..].
  exfalso. destruct Hh as (_ & Hh & _). rewrite (size_take id), bool_decide_eq_true_2 in Hh by done. lia.
Qed.

Lemma history_generation ev id h :
  sh_generation (history_add ev h) = sh_generation h /\ sh_generation (history_delete id h) = sh_generation h /\
  sh_generation (markDispatched id h) = sh_generation h.
Proof. unfold history_add, history_delete, markDispatched. by repeat case_match. Qed.

Lemma receive_slots r d d' : slots d -> receive r d = Some d' -> slots d'.
Proof. unfold receive. intros HS. case_match; [|done]. intros [= <-]. apply (slots_frame d); try done. apply HS. Qed.

Lemma read_response_slots r again d d' : slots d -> read_response st r again d = Some d' -> slots d'.
Proof.
  intros HS. unfold read_response. destruct r as [id accepted text| | | |]; try by apply receive_slots.
  destruct (se_signer st); [|by apply receive_slots]. destruct (_ && _).
  - intros [= <-]. apply (slots_frame d); try done; cbn; rewrite ?sent_now_snoc, ?acked_now_snoc; try done; [apply HS|].
    unfold unopened. cbn. by rewrite sent_now_snoc.
  - apply receive_slots. apply (slots_frame d); try done. apply HS.
Qed.

(** That the semaphores looked up are still in use. *)
Ltac still_current :=
  intros [Hcw Hch]; split; cbn in *;
  repeat match goal with
         | H : de_writer _ = _ |- _ => rewrite H in *
         | H : de_handler _ = _ |- _ => rewrite H in *
         end; try done;
  repeat match goal with |- context [match de_writer ?d with _ => _ end] => destruct (de_writer d) end; try done;
  by rewrite ?(proj1 (history_generation _ ""%string _)), ?(proj1 (proj2 (history_generation (mkEvent "" "" 0 0 [] "" "") _ _))).

Lemma handle_response_slots saved now r d :
  slots d -> de_handler d = HOn -> slots (handle_response st saved now r d).
Proof.
  intros HS Hh. unfold handle_response. destruct r as [id accepted text|ev| | |text].
  - destruct (handle_ok_ready saved id accepted text d HS) as [[f v] E]. rewrite E. apply handle_ok_slots in E as (E1 & E2 & E3).
    split; [cbn; by rewrite Hh| |].
    { pose proof (sl_current _ HS) as [Hcw Hch]. split; cbn; [|by rewrite Hh]. rewrite E3.
      destruct (de_writer d); try done. by rewrite (proj1 (proj2 (history_generation ev id _))). }
    cbn. rewrite sent_now_snoc, acked_now_snoc, E1. pose proof (sl_held _ HS) as H2.
    destruct (fw_inFlight (de_flow d)) as [n|] eqn:En; rewrite E2.
    + rewrite (size_take id) in H2. destruct (bool_decide _); lia.
    + intros Hc. destruct (H2 Hc) as [Hs Hu]. rewrite Hh in Hu. by destruct (de_writer d).
  - unfold handleEvent. destruct (negb _ && _); apply (slots_frame d); try done; cbn; rewrite ?sent_now_snoc, ?acked_now_snoc; try done;
      try apply HS. unfold unopened. cbn. by rewrite sent_now_snoc.
  - done.
  - done.
  - apply (slots_frame d); try done; [|still_current]. intros [_ Hu]. rewrite Hh in Hu. by destruct (de_writer d).
Qed.

Lemma slots_current d ev gen :
  current d -> de_writer d = WSlot ev gen ->
  slots_of gen (de_flow d) = fw_inFlight (de_flow d) /\ forall n, set_slots gen n (de_flow d) = set_inFlight (Some n) (de_flow d).
Proof. intros [Hc _] Hw. rewrite Hw in Hc. unfold slots_of, set_slots. rewrite Hc, Z.eqb_refl. done. Qed.

Lemma errors_slots ofWriter packet d d1 d' :
  slots d -> send_error ofWriter d = Some (packet, d1) -> take_error packet d1 = Some d' -> slots d'.
Proof.
  intros HS Hs Ht. assert (de_handler d1 = de_handler d) as Eh1.
  { unfold send_error in Hs. destruct ofWriter, (de_writer d), (de_reader d); by simplify_eq. }
  assert (slots d1) as HS1.
  { assert (de_handler d <> HOpening \/ de_writer d = WDial) as Hno by (destruct (de_handler d) eqn:E; auto; right; by apply (sl_opening _ HS)).
    unfold send_error in Hs. unfold take_error in Ht. rewrite Eh1 in Ht.
    destruct ofWriter.
    - destruct (de_writer d) eqn:Ew; try done. injection Hs as <- <-. apply (slots_frame d); cbn; rewrite ?Ew; try done; [| |still_current].
      + destruct Hno; done.
      + intros [_ Hu]. rewrite Ew in Hu. by destruct (de_handler d).
    - assert (d1 = with_reader ReadOff d) as -> by (destruct (de_writer d), (de_reader d); by simplify_eq).
      apply (slots_frame d); try done. apply HS. }
  unfold take_error in Ht. destruct (de_handler d1) eqn:Eh; try done; [|by injection Ht as <-].
  injection Ht as <-. destruct packet; apply (slots_frame d1); cbn; rewrite ?Eh; try done; [|still_current].
  intros [_ Hu]. rewrite Eh in Hu. by destruct (de_writer d1).
Qed.

Lemma dstep_slots a d d' : slots d -> alone a d = true -> dstep st a d = Some d' -> slots d'.
Proof.
  intros HS Ha. pose proof (sl_opening _ HS) as Hop. pose proof (sl_held _ HS) as Hheld. pose proof (sl_current _ HS) as Hcur.
  destruct a as [ev| |saved| | |ok| | |saved| |ok saved| | | |r again|packet| | |saved now|saved|ofWriter| | | |]; cbn [dstep alone] in *.
  - destruct (de_delivering d); [done|]. intros [= <-]. apply (slots_frame d); try done; cbn; rewrite ?sent_now_snoc, ?acked_now_snoc; try done; [|still_current].
    unfold unopened. cbn. by rewrite sent_now_snoc.
  - destruct (de_delivering d); cbn; [|done]. destruct (_ <? _); [|done]. intros [= <-]. by apply (slots_frame d).
  - destruct (de_delivering d) as [ev|]; cbn; [|done]. destruct (fw_paused _); [|done]. intros [= <-].
    set (d1 := with_delivering None _). destruct (save_or_lose_flow (se_recovery st) saved ev d1) as (E1 & E2 & E3 & E4 & E5 & E6 & E7 & E8).
    apply (slots_frame d); rewrite ?E1, ?E2, ?E3, ?E4, ?E6, ?E7; try done; [unfold unopened; by rewrite E3, E4, E6|].
    unfold current. rewrite E3, E4, E8. still_current.
  - destruct (de_delivering d) as [ev|]; cbn; [|done]. destruct (de_cancelled d); [|done]. intros [= <-].
    apply (slots_frame d); try done; cbn; rewrite ?sent_now_snoc, ?acked_now_snoc; try done; [|still_current]. unfold unopened. cbn. by rewrite sent_now_snoc.
  - destruct (de_writer d) eqn:Ew; try done. destruct (de_reader d); try done. destruct (de_handler d) eqn:Eh; try done.
    destruct (de_retries d); [done|]. intros [= <-]. apply (slots_frame d); cbn; rewrite ?Ew; try done. unfold unopened. cbn. tauto.
  - destruct (de_writer d) eqn:Ew; try done. destruct (de_handler d) eqn:Eh; try done; intros [= <-]; (destruct ok; (apply (slots_frame d); cbn; rewrite ?Ew, ?Eh; try done;
      [intros [_ Hu]; rewrite Eh, ?Ew in Hu; done|still_current])).
  - destruct (de_writer d) eqn:Ew; try done. destruct (fw_queue (de_flow d)) as [|ev q] eqn:Eq; [done|]. intros [= <-].
    assert (de_handler d <> HOpening) as Hno by (intros Hx; by apply Hop in Hx).
    destruct (fw_inFlight (de_flow d)) as [n|] eqn:En.
    + apply (slots_frame d); cbn; rewrite ?Ew, ?En; try done; [past_dial Ew|]. intros [_ Hch]. by split.
    + split; cbn; [done|split; [done|apply Hcur]|]. rewrite En. intros Hc. destruct (unopened_writer _ _ (Hheld Hc) Ew); done.
  - destruct (de_writer d) as [| | |ev gen| | | |] eqn:Ew; try done. destruct (slots_current d ev gen Hcur Ew) as [Eg Es]. rewrite Eg.
    destruct (fw_inFlight (de_flow d)) as [n|] eqn:En; cbn [mbind option_bind]; [|done]. rewrite Es.
    destruct (Nat.ltb_spec n (se_concurrency st)); [|done]. intros [= <-]. split; cbn; [intros Hx; by apply Hop in Hx|split; [done|apply Hcur]|].
    cbn [busy sending] in Hheld. lia.
  - destruct (de_writer d) as [| | |ev gen| | | |] eqn:Ew; try done. destruct (conn_dead d); [|done]. intros [= <-].
    destruct (save_or_lose_flow (se_recovery st) saved ev d) as (E1 & E2 & E3 & E4 & E5 & E6 & E7 & E8).
    apply (slots_frame d); cbn; rewrite ?E1, ?E2, ?E4, ?E6, ?E7, ?Ew; try done; [|past_dial Ew|]; [intros Hx; by apply Hop in Hx|].
    intros [_ Hch]. split; [done|]. cbn. by rewrite E4.
  - destruct (de_writer d) as [| | |ev gen| | | |] eqn:Ew; try done. destruct (_ || _); [|done]. intros [= <-].
    apply (slots_frame d); cbn; rewrite ?sent_now_snoc, ?acked_now_snoc, ?Ew; try done; [|past_dial Ew|]; [intros Hx; by apply Hop in Hx|].
    intros [_ Hch]. by split.
  - destruct (de_writer d) as [| | | |ev| | |] eqn:Ew; try done. intros [= <-].
    set (d1 := if se_signer st then _ else d). assert (de_flow d1 = de_flow d /\ de_handler d1 = de_handler d /\ de_log d1 = de_log d) as (E1 & E2 & E3)
      by (subst d1; by destruct (se_signer st)). destruct Hcur as [_ Hch].
    assert (de_handler d <> HOpening) as Hno by (intros Hx; by apply Hop in Hx). cbn [busy sending] in Hheld. destruct ok.
    + split; cbn; rewrite ?E2; [done|split; [done|cbn; by rewrite E2]|]. rewrite E1, E3, sent_now_snoc, acked_now_snoc. cbn [busy sending].
      destruct (fw_inFlight (de_flow d)); [lia|]. intros Hc. destruct (unopened_writer _ _ (Hheld Hc) Ew); done.
    + destruct (save_or_lose_flow (se_recovery st) saved ev d1) as (F1 & F2 & F3 & F4 & F5 & F6 & F7 & F8).
      split; cbn; rewrite ?F4, ?E2; [done|split; [done|cbn; by rewrite F4, E2]|]. rewrite F1, F2, F6, F7, E1, E3. cbn [busy sending].
      destruct (fw_inFlight (de_flow d)); [lia|]. intros Hc. destruct (unopened_writer _ _ (Hheld Hc) Ew); done.
  - destruct (de_writer d) as [| | | | |ev| |] eqn:Ew; try done. intros [= <-]. apply (slots_frame d); cbn; rewrite ?Ew; try done; [|past_dial Ew|].
    + intros Hx. by apply Hop in Hx.
    + intros [_ Hch]. by split.
  - destruct (de_writer d) as [| | | | | |ev|] eqn:Ew; try done. intros [= <-]. split; cbn; [intros Hx; by apply Hop in Hx|split; [done|apply Hcur]|].
    cbn [busy sending] in Hheld. destruct (fw_inFlight (de_flow d)).
    + destruct Hheld as (H1 & H2 & H3). assert (size ({[ev_ID ev]} ∪ fw_dispatched (de_flow d)) <= 1 + size (fw_dispatched (de_flow d)))%nat; [|lia].
      rewrite size_union_alt, size_singleton. apply Nat.add_le_mono_l, subseteq_size. set_solver.
    + intros Hc. destruct (unopened_writer _ _ (Hheld Hc) Ew); done.
  - destruct (de_writer d) eqn:Ew; try done; (destruct (_ || _); [|done]); intros [= <-]; (apply (slots_frame d); cbn; rewrite ?Ew; try done;
      [intros Hx; by apply Hop in Hx|past_dial Ew|intros [_ Hch]; by split]).
  - destruct (de_reader d); try done. by apply read_response_slots.
  - destruct (de_reader d); try done. intros [= <-]. by apply (slots_frame d).
  - destruct (de_reader d); try done; (destruct (ended d); [|done]); intros [= <-]; by apply (slots_frame d).
  - destruct (de_handler d) eqn:Eh; try done. intros [= <-]. specialize (Hop eq_refl). split; cbn; [done|split; cbn; by rewrite ?Hop|].
    rewrite sent_now_snoc, acked_now_snoc, Hop. destruct (se_concurrency st); [intros ?; lia|].
    cbn. rewrite size_empty. lia.
  - destruct (de_handler d) eqn:Eh; try done. destruct (fw_incoming (de_flow d)) as [|r rs]; [done|]. intros [= <-]. apply handle_response_slots; [|done].
    apply (slots_frame d); try done. cbn. by rewrite Eh.
  - destruct Hcur as [_ Hch]. by destruct (de_handler d).
  - destruct (send_error ofWriter d) as [[packet d1]|] eqn:Es; cbn; [|done]. by apply (errors_slots ofWriter packet d d1).
  - destruct (de_handler d) eqn:Eh; try done. intros [= <-]. apply (slots_frame d); cbn; try done; [|still_current]. intros [_ Hu]. rewrite Eh in Hu. by destruct (de_writer d).
  - destruct (de_handler d) eqn:Eh; try done. destruct (ended d); [|done]. intros [= <-]. apply (slots_frame d); cbn; try done; [|still_current].
    intros [_ Hu]. rewrite Eh in Hu. by destruct (de_writer d).
  - intros [= <-]. by apply (slots_frame d).
  - intros [= <-]. by apply (slots_frame d).
Qed.

Lemma drun_slots ok l d d' :
  (forall a d, ok a d = true -> alone a d = true) -> slots d -> drun ok l d = Some d' -> slots d'.
Proof.
  intros Hok. revert d. induction l as [|a l IH]; intros d HS; cbn [drun]; [by intros [= <-]|]. destruct (ok a d) eqn:Eo; [|done].
  destruct (dstep st a d) as [d1|] eqn:E; cbn; [|done]. apply IH. eapply dstep_slots; eauto.
Qed.

(** A destination with a limit whose cycles do not overlap never has more events
    sent and not acknowledged on a connection than the limit, and its handler never
    blocks on the semaphore, in whatever order events are sent, acknowledged,
    given up and the connection replaced. *)
Theorem stream_window l d :
  (0 < se_concurrency st)%nat -> drun alone l newDest = Some d ->
  (sent_now (de_log d) <= se_concurrency st + acked_now (de_log d))%nat /\
  (forall gen id accepted text found, de_handler d <> HRelease gen id accepted text found).
Proof.
  intros Hc HS%(drun_slots _ _ _ _ (fun _ _ H => H) slots_new). split.
  - pose proof (sl_held _ HS) as Hh. destruct (fw_inFlight (de_flow d)); [lia|]. destruct (Hh Hc). lia.
  - intros gen id accepted text found E. destruct (sl_current _ HS) as [_ Hr]. by rewrite E in Hr.
Qed.

End Facts.
