(* ===== verification/ClientStreamOrderly.v ===== *)
(** * Streaming events to a destination: when the window is exact

    In an orderly run (cycles that do not overlap, events with ids of their own,
    and a relay that acknowledges what it was sent, once, after the writer noted
    it) of a destination with a limit the slots in use are exactly the
    unacknowledged events, nothing is evicted from the history, and every
    acknowledgement finds its event ([window_exact]).  Runs show what is lost
    otherwise: an event handed over twice ([duplicate_leaks_slot]), an
    acknowledgement that overtakes the note ([early_ack_leaks_slot]), cycles that
    overlap ([connections_reorder], [closed_strands_event]); what becomes of
    events on a connection that dies ([unacked_vanish]); and how a destination
    ends for good ([packet_error_ends]). *)
From S2P Require Import Prelude GoTime GoStrings Nostr ClientFollow ClientStream.
From S2P Require Import ClientStreamFacts.
From stdpp Require Import options.

Local Open Scope Z_scope.

(** ** The history *)

(** The list and the map hold the same ids. *)
Record history_ok (h : StreamEventHistory) : Prop := {
  hk_nodup : NoDup (sh_order h);
  hk_in : forall id, id ∈ sh_order h <-> is_Some (sh_data h !! id);
}.

Lemma history_size_order h : history_ok h -> length (sh_order h) = history_size h.
Proof.
  intros [Hn Hi]. unfold history_size. rewrite <- (size_dom (D := gset string)).
  replace (dom (sh_data h)) with (list_to_set (C := gset string) (sh_order h)); [by rewrite size_list_to_set|].
  apply set_eq. intros id. rewrite elem_of_list_to_set, elem_of_dom. apply Hi.
Qed.

Lemma history_add_spec ev h :
  history_ok h -> Z.of_nat (history_size h) < maxEventHistorySize ->
  history_ok (history_add ev h) /\ sh_data (history_add ev h) = <[ev_ID ev := mkPendingEntry ev 0]> (sh_data h) /\
  sh_generation (history_add ev h) = sh_generation h.
Proof.
  intros HO Hs. pose proof (history_size_order _ HO) as Hl. destruct HO as [Hn Hi]. unfold history_add.
  destruct (sh_data h !! ev_ID ev) as [e|] eqn:E.
  - split_and!; [|done..]. split; cbn [sh_order sh_data].
    + constructor; [|by apply NoDup_filter]. rewrite list_elem_of_filter. tauto.
    + intros id. rewrite elem_of_cons, list_elem_of_filter, Hi. destruct (decide (id = ev_ID ev)) as [->|Hne].
      * rewrite lookup_insert_eq. split; [by eexists|auto].
      * rewrite lookup_insert_ne by done. tauto.
  - rewrite (proj2 (Z.ltb_ge _ _)) by (cbn [length]; lia). split_and!; [|done..]. split; cbn [sh_order sh_data].
    + constructor; [|done]. rewrite Hi, E. by intros [].
    + intros id. rewrite elem_of_cons, Hi. destruct (decide (id = ev_ID ev)) as [->|Hne].
      * rewrite lookup_insert_eq. split; [by eexists|auto].
      * rewrite lookup_insert_ne by done. tauto.
Qed.

Lemma history_delete_spec id h :
  history_ok h -> history_ok (history_delete id h) /\ sh_data (history_delete id h) = delete id (sh_data h) /\
  sh_generation (history_delete id h) = sh_generation h.
Proof.
  intros HO. pose proof HO as [Hn Hi]. unfold history_delete. destruct (sh_data h !! id) as [e|] eqn:E.
  - split_and!; [|done..]. split; cbn [sh_order sh_data]; [by apply NoDup_filter|].
    intros x. rewrite list_elem_of_filter, Hi. destruct (decide (x = id)) as [->|Hne].
    + rewrite lookup_delete_eq. split; [tauto|by intros []].
    + rewrite lookup_delete_ne by done. tauto.
  - split_and!; [done| |done]. by rewrite delete_id.
Qed.

Lemma markDispatched_spec id h :
  history_ok h -> history_ok (markDispatched id h) /\
  sh_data (markDispatched id h) = alter (fun e => mkPendingEntry (pe_event e) (sh_generation h)) id (sh_data h) /\
  sh_generation (markDispatched id h) = sh_generation h.
Proof.
  intros HO. pose proof HO as [Hn Hi]. unfold markDispatched. destruct (sh_data h !! id) as [e|] eqn:E.
  - split_and!; [| |done].
    + split; cbn [sh_order sh_data]; [done|]. intros x. rewrite Hi. destruct (decide (x = id)) as [->|Hne].
      * rewrite lookup_insert_eq, E. split; by eexists.
      * by rewrite lookup_insert_ne.
    + cbn. apply map_eq. intros x. destruct (decide (x = id)) as [->|Hne].
      * by rewrite lookup_insert_eq, lookup_alter_eq, E.
      * by rewrite lookup_insert_ne, lookup_alter_ne.
  - split_and!; [done| |done]. symmetry. apply map_eq. intros x. destruct (decide (x = id)) as [->|Hne].
    + by rewrite lookup_alter_eq, E.
    + by rewrite lookup_alter_ne.
Qed.

Lemma newGeneration_spec h :
  history_ok h -> history_ok (newGeneration h) /\
  sh_data (newGeneration h) = filter (fun ie => dead_entry (sh_generation h + 1) ie.2 = false) (sh_data h) /\
  sh_generation (newGeneration h) = sh_generation h + 1.
Proof.
  intros [Hn Hi]. split_and!; [|done..]. split; cbn [newGeneration sh_order sh_data]; [by apply NoDup_filter|].
  intros id. rewrite list_elem_of_filter, Hi. destruct (sh_data h !! id) as [e|] eqn:E.
  - split.
    + intros [Hd _]. exists e. by apply map_lookup_filter_Some.
    + intros [e' [He Hd]%map_lookup_filter_Some]. rewrite E in He. injection He as <-. done.
  - split; [by intros [_ []]|]. intros [e' [He _]%map_lookup_filter_Some]. congruence.
Qed.

(** ** Orderly runs *)

Definition ids (l : list Event) : list string := ev_ID <$> l.

(** The ids sent on the current connection and not acknowledged. *)
Definition awaiting (l : list fact) : gset string :=
  fold_left (fun s x => match x with
                        | FOpened => ∅
                        | FSent _ ev => {[ev_ID ev]} ∪ s
                        | FAcked id _ => s ∖ {[id]}
                        | _ => s
                        end) l ∅.

Lemma awaiting_snoc l x :
  awaiting (l ++ [x]) = match x with
                        | FOpened => ∅
                        | FSent _ ev => {[ev_ID ev]} ∪ awaiting l
                        | FAcked id _ => awaiting l ∖ {[id]}
                        | _ => awaiting l
                        end.
Proof. unfold awaiting. by rewrite fold_left_app. Qed.

#[local] Arguments awaiting : simpl never.

(** Sent, and not yet noted by the writer. *)
Definition marking (w : writer) : gset string := match w with WMark ev | WTrack ev => {[ev_ID ev]} | _ => ∅ end.

(** The ids that wait to be sent. *)
Definition waiting (d : dest) : list string := ids (hands (de_writer d) ++ fw_queue (de_flow d) ++ option_list (de_delivering d)).

Definition orderly (a : action) (d : dest) : bool :=
  alone a d &&
  match a with
  | ADeliver ev => bool_decide (ev_ID ev ∉ ids (delivered (de_log d)))
  | AHandle _ _ =>
      match fw_incoming (de_flow d) with
      | ROk id _ _ :: _ => bool_decide (id ∈ awaiting (de_log d)) && bool_decide (id ∉ marking (de_writer d))
      | _ => true
      end
  | _ => true
  end.

(** The writer is connected. *)
Definition past (w : writer) : bool := match w with WLoop | WSlot _ _ | WSend _ | WMark _ | WTrack _ => true | _ => false end.

Definition timely (v : verdict) : bool := match v with VLate | VUnexpected _ => false | _ => true end.

Section Orderly.
Context {N : Nmilat} (st : settings).

(** All that was sent, and what waits, in the order of delivery. *)
Definition in_line (d : dest) : Prop := (sent (de_log d) ++ view d)%list `sublist_of` delivered (de_log d).

Lemma in_line_step a d d' : alone a d = true -> in_line d -> dstep st a d = Some d' -> in_line d'.
Proof.
  intros Ha Hi Hs. unfold in_line in *. assert (a = AStart \/ a <> AStart) as [->|Hne] by (destruct a; (by left) || by right).
  - cbn in Ha, Hs. destruct (de_retries d); [done|]. injection Hs as <-. unfold view in *. cbn. by destruct (de_writer d).
  - apply dstep_noted in Hs as [x Hx]; [|done]. pose proof Hx as (Hl & _). rewrite Hl.
    destruct (log_split (de_log d) x) as (-> & -> & _). by apply (line_step d).
Qed.

Record exact (d : dest) : Prop := {
  ex_nodup : NoDup (ids (delivered (de_log d)));
  ex_hist : history_ok (fw_pending (de_flow d));
  ex_queue : Z.of_nat (length (fw_queue (de_flow d))) <= streamFlowBufferSize;
  ex_gen : 0 <= sh_generation (fw_pending (de_flow d)) /\
    (de_writer d <> WOff -> de_handler d = HOpening \/ 1 <= sh_generation (fw_pending (de_flow d)));
  ex_dial : de_writer d = WDial -> de_handler d <> HOpening ->
    awaiting (de_log d) = ∅ /\ forall n, fw_inFlight (de_flow d) = Some n -> n = 0%nat;
  ex_pending : forall id, is_Some (sh_data (fw_pending (de_flow d)) !! id) <-> id ∈ awaiting (de_log d) \/ id ∈ waiting d;
  ex_noted : forall id e, sh_data (fw_pending (de_flow d)) !! id = Some e ->
    (id ∈ awaiting (de_log d) -> (forall ev, de_writer d = WMark ev -> ev_ID ev <> id) -> pe_dispatchedGen e = sh_generation (fw_pending (de_flow d))) /\
    (id ∉ awaiting (de_log d) -> pe_dispatchedGen e = 0);
  ex_held : fw_dispatched (de_flow d) = awaiting (de_log d) ∖ marking (de_writer d) /\ marking (de_writer d) ⊆ awaiting (de_log d);
  ex_slots : match fw_inFlight (de_flow d) with
             | None => (0 < se_concurrency st)%nat -> awaiting (de_log d) = ∅
             | Some n => (size (awaiting (de_log d)) + sending (de_writer d) <= n)%nat /\
                         (past (de_writer d) = true -> n = (size (awaiting (de_log d)) + sending (de_writer d))%nat)
             end;
  ex_sent : forall id, id ∈ awaiting (de_log d) -> id ∈ ids (sent (de_log d));
  ex_timely : forall id v, FAcked id v ∈ de_log d -> timely v = true;
  ex_opened : sh_generation (fw_pending (de_flow d)) = 0 -> awaiting (de_log d) = ∅;
}.

Lemma in_line_new : in_line newDest.
Proof. apply (sublist_nil_l (delivered [])). Qed.

Lemma exact_new : exact newDest.
Proof.
  split; cbn; try done; try set_solver.
  - constructor.
  - split; [constructor|]. intros id. split; [intros Hx; by apply elem_of_nil in Hx|by intros []].
  - intros id. split; [by intros []|]. intros [?|Hx]; [set_solver|by apply elem_of_nil in Hx].
Qed.

Lemma sublist_fmap {A B} (g : A -> B) l1 l2 : l1 `sublist_of` l2 -> (g <$> l1) `sublist_of` (g <$> l2).
Proof. induction 1; cbn; by constructor. Qed.

(** Waiting ids are distinct, and were not sent. *)
Lemma waiting_fresh d : in_line d -> exact d -> NoDup (waiting d) /\ forall id, id ∈ waiting d -> id ∉ awaiting (de_log d).
Proof.
  intros HA HE. assert (NoDup (ids (sent (de_log d) ++ view d)%list)) as Hn.
  { eapply sublist_NoDup; [apply HE|]. apply sublist_fmap, HA. }
  unfold ids in Hn. rewrite fmap_app in Hn. apply NoDup_app in Hn as (_ & Hd & Hn). split; [done|].
  intros id Hw Ha%(ex_sent _ HE). by apply (Hd id).
Qed.

(** A step that leaves the history, the slots and the waiting alone. *)
Lemma exact_frame d d' :
  exact d -> fw_pending (de_flow d') = fw_pending (de_flow d) -> fw_dispatched (de_flow d') = fw_dispatched (de_flow d) ->
  fw_inFlight (de_flow d') = fw_inFlight (de_flow d) -> Z.of_nat (length (fw_queue (de_flow d'))) <= streamFlowBufferSize ->
  delivered (de_log d') = delivered (de_log d) -> awaiting (de_log d') = awaiting (de_log d) -> sent (de_log d') = sent (de_log d) ->
  (forall id v, FAcked id v ∈ de_log d' -> FAcked id v ∈ de_log d) ->
  (forall id, id ∈ waiting d' <-> id ∈ waiting d) -> marking (de_writer d') = marking (de_writer d) ->
  (forall ev, de_writer d' = WMark ev <-> de_writer d = WMark ev) ->
  (match fw_inFlight (de_flow d) with Some _ => sending (de_writer d') = sending (de_writer d) | None => True end) ->
  (past (de_writer d') = true -> past (de_writer d) = true \/ (de_writer d = WDial /\ de_handler d <> HOpening)) ->
  (de_writer d' <> WOff -> de_handler d' = HOpening \/ (de_writer d <> WOff /\ de_handler d <> HOpening)) ->
  (de_writer d' = WDial -> de_handler d' <> HOpening -> de_writer d = WDial /\ de_handler d <> HOpening) -> exact d'.
Proof.
  intros [X1 X2 X3 [X4 X5] X6 X7 X8 X9 X10 X11 X12 X13] E1 E2 E3 E4 E5 E6 E7 E8 E9 E10 E11 E12 E13 E14 E15.
  split; rewrite ?E1, ?E2, ?E3, ?E5, ?E6, ?E7, ?E10; try done.
  - split; [done|]. intros Hw. destruct (E14 Hw) as [?|[Hw2 Hh2]]; [auto|]. destruct (X5 Hw2); [done|auto].
  - intros Hw Hh. destruct (E15 Hw Hh) as [Hw2 Hh2]. auto.
  - intros id. rewrite E9. auto.
  - intros id e He. destruct (X8 id e He) as [Y1 Y2]. split; [|done]. intros Ha Hm. apply Y1; [done|]. intros ev Hev%E11. by apply Hm.
  - destruct (fw_inFlight (de_flow d)) as [n|] eqn:En; [|done]. rewrite E12. destruct X10 as [Y1 Y2]. split; [done|].
    intros Hp. destruct (E13 Hp) as [?|[Hw Hh]]; [auto|]. destruct (X6 Hw Hh) as [Ha Hn]. rewrite (Hn n eq_refl), Ha, size_empty, Hw. done.
  - intros id v Hin. by apply (X12 id v), E8.
Qed.

(** A waiting event is given up. *)
Lemma exact_delete d d' ev :
  in_line d -> exact d -> fw_pending (de_flow d') = history_delete (ev_ID ev) (fw_pending (de_flow d)) ->
  fw_dispatched (de_flow d') = fw_dispatched (de_flow d) -> fw_inFlight (de_flow d') = fw_inFlight (de_flow d) ->
  fw_queue (de_flow d') = fw_queue (de_flow d) ->
  delivered (de_log d') = delivered (de_log d) -> awaiting (de_log d') = awaiting (de_log d) -> sent (de_log d') = sent (de_log d) ->
  (forall id v, FAcked id v ∈ de_log d' -> FAcked id v ∈ de_log d) ->
  ev_ID ev ∈ waiting d -> (forall id, id ∈ waiting d' <-> id ∈ waiting d /\ id <> ev_ID ev) ->
  de_handler d' = de_handler d ->
  (de_writer d' = de_writer d \/ (marking (de_writer d') = ∅ /\ marking (de_writer d) = ∅ /\ past (de_writer d') = false /\ de_writer d' <> WDial /\
     sending (de_writer d') = 0%nat /\ (forall ev, de_writer d' <> WMark ev) /\ (forall ev, de_writer d <> WMark ev) /\ de_writer d <> WOff)) -> exact d'.
Proof.
  intros HA HE E1 E2 E3 E4 E5 E6 E7 E8 Hin E9 E10 Hw. destruct (waiting_fresh d HA HE) as [_ Hfr]. specialize (Hfr _ Hin).
  destruct (history_delete_spec (ev_ID ev) _ (ex_hist _ HE)) as (H1 & H2 & H3). destruct HE as [X1 X2 X3 [X4 X5] X6 X7 X8 X9 X10 X11 X12 X13].
  rewrite <- E1 in H1, H2, H3. split; rewrite ?H3, ?E2, ?E3, ?E4, ?E5, ?E6, ?E7, ?E10; try done.
  - split; [done|]. intros Hx. apply X5. destruct Hw as [<-|Hw]; [done|tauto].
  - intros Hd Hh. apply X6; [|done]. destruct Hw as [<-|Hw]; [done|tauto].
  - intros id. rewrite H2, E9. destruct (decide (id = ev_ID ev)) as [->|Hne].
    + rewrite lookup_delete_eq. split; [by intros []|]. tauto.
    + rewrite lookup_delete_ne, X7 by done. tauto.
  - intros id e. rewrite H2. intros [_ He]%lookup_delete_Some. destruct (X8 id e He) as [Y1 Y2]. split; [|done]. intros Ha Hm. apply Y1; [done|].
    destruct Hw as [<-|Hw]; [done|]. intros ev' Hev'. naive_solver.
  - destruct Hw as [->|(-> & Hm & _)]; [done|]. rewrite Hm in X9. done.
  - destruct (fw_inFlight (de_flow d)) as [n|]; [|done]. destruct Hw as [->|(_ & _ & -> & _ & -> & _)]; [done|]. split; [lia|done].
  - intros id v Hv. by apply (X12 id v), E8.
Qed.

Context (Hconc : (0 < se_concurrency st)%nat) (Hsmall : Z.of_nat (se_concurrency st) <= 13000).

(** The history stays well below its bound. *)
Lemma history_small d : slots st d -> exact d -> de_delivering d = None -> Z.of_nat (history_size (fw_pending (de_flow d))) < maxEventHistorySize.
Proof using Hconc Hsmall.
  intros HS HE Hd. unfold history_size. rewrite <- (size_dom (D := gset string)).
  assert (dom (sh_data (fw_pending (de_flow d))) ⊆ awaiting (de_log d) ∪ list_to_set (waiting d)) as Hsub.
  { intros id. rewrite elem_of_dom, (ex_pending _ HE), elem_of_union, elem_of_list_to_set. done. }
  apply subseteq_size in Hsub. rewrite size_union_alt in Hsub.
  assert (size (list_to_set (C := gset string) (waiting d) ∖ awaiting (de_log d)) <= length (waiting d))%nat as H1.
  { etrans; [apply subseteq_size; apply subseteq_difference_l; reflexivity|]. clear. induction (waiting d) as [|x l IH]; cbn; [by rewrite size_empty|].
    rewrite size_union_alt, size_singleton. assert (size (list_to_set (C := gset string) l ∖ {[x]}) <= size (list_to_set (C := gset string) l))%nat; [|lia].
    apply subseteq_size. set_solver. }
  assert (size (awaiting (de_log d)) <= se_concurrency st)%nat as H2.
  { pose proof (ex_slots _ HE) as Hx. pose proof (sl_held _ _ HS) as Hy. destruct (fw_inFlight (de_flow d)); [lia|].
    rewrite (Hx Hconc), size_empty. lia. }
  assert (length (waiting d) <= 1 + length (fw_queue (de_flow d)))%nat as H3.
  { unfold waiting, ids. rewrite Hd, length_fmap, !length_app. cbn. destruct (de_writer d); cbn; lia. }
  pose proof (ex_queue _ HE). unfold maxEventHistorySize, streamFlowBufferSize in *. lia.
Qed.

Lemma exact_deliver d ev :
  in_line d -> slots st d -> exact d -> de_delivering d = None -> ev_ID ev ∉ ids (delivered (de_log d)) ->
  exact (note (FDelivered ev) (with_delivering (Some ev) (on_pending (history_add ev) d))).
Proof using Hconc Hsmall.
  intros HA HS HE Hd Hf. pose proof (history_small d HS HE Hd) as Hsz.
  destruct (history_add_spec ev _ (ex_hist _ HE) Hsz) as (H1 & H2 & H3).
  assert (ev_ID ev ∉ awaiting (de_log d)) as Hna.
  { intros Ha%(ex_sent _ HE). apply Hf. pose proof (sublist_fmap ev_ID _ _ HA) as Hsub.
    eapply elem_of_submseteq; [|by apply sublist_submseteq]. rewrite fmap_app, elem_of_app. by left. }
  destruct HE as [X1 X2 X3 [X4 X5] X6 X7 X8 X9 X10 X11 X12 X13].
  assert (forall id, id ∈ waiting (note (FDelivered ev) (with_delivering (Some ev) (on_pending (history_add ev) d))) <-> id ∈ waiting d \/ id = ev_ID ev) as Hw.
  { intros id. unfold waiting, ids. cbn. rewrite Hd, !fmap_app, !elem_of_app. cbn. rewrite elem_of_cons, elem_of_nil. tauto. }
  split; cbn [note with_delivering on_pending with_flow set_pending de_log de_flow fw_pending fw_queue fw_inFlight fw_dispatched de_writer de_handler];
    rewrite ?awaiting_snoc, ?H3; try done.
  - unfold delivered. rewrite omap_snoc. unfold ids. rewrite fmap_app. cbn. apply NoDup_app. split_and!; [done| |apply NoDup_singleton].
    intros x Hx Hx2. apply list_elem_of_singleton in Hx2 as ->. done.
  - intros id. rewrite H2, Hw. destruct (decide (id = ev_ID ev)) as [->|Hne].
    + rewrite lookup_insert_eq. split; [auto|by eexists].
    + rewrite lookup_insert_ne, X7 by done. tauto.
  - intros id e. rewrite H2. intros [[<- <-]|[Hne He]]%lookup_insert_Some; [|auto]. split; [done|]. done.
  - intros id Hin. rewrite sent_snoc, app_nil_r. auto.
  - intros id v [Hv|Hv]%elem_of_app; [by apply (X12 id)|]. apply list_elem_of_singleton in Hv. done.
Qed.

Lemma exact_send d ev d' :
  in_line d -> slots st d -> exact d -> de_writer d = WSend ev ->
  de_flow d' = de_flow d -> de_writer d' = WMark ev -> de_handler d' = de_handler d -> de_delivering d' = de_delivering d ->
  de_log d' = (de_log d ++ [FSent (de_conn d) ev])%list -> exact d'.
Proof using Hconc Hsmall.
  intros HA HS HE Hw Ef Ew Eh Ed El. destruct (waiting_fresh d HA HE) as [Hnd Hfr].
  destruct HE as [X1 X2 X3 [X4 X5] X6 X7 X8 X9 X10 X11 X12 X13].
  assert (waiting d = ev_ID ev :: waiting d') as Hwd by (unfold waiting, ids; by rewrite Hw, Ef, Ew, Ed).
  assert (ev_ID ev ∉ awaiting (de_log d)) as Hna by (apply Hfr; rewrite Hwd; by left).
  rewrite Hwd in Hnd. apply NoDup_cons in Hnd as [Hnin _]. rewrite Hw in X9. cbn in X9. destruct X9 as [X9 _].
  split; rewrite ?Ef, ?Ew, ?Eh, ?El, ?awaiting_snoc; try done.
  - unfold delivered. rewrite omap_snoc. cbn. by rewrite app_nil_r.
  - rewrite Hw in X5. split; [done|]. intros _. by apply X5.
  - intros id. rewrite X7, Hwd, elem_of_cons, elem_of_union, elem_of_singleton. tauto.
  - intros id e He. destruct (X8 id e He) as [Y1 Y2]. split.
    + intros Ha Hm. apply Y1; [|by rewrite Hw]. specialize (Hm ev eq_refl). set_solver.
    + intros Ha. apply Y2. set_solver.
  - cbn. rewrite X9. split; [set_solver|set_solver].
  - rewrite Hw in X10. destruct (fw_inFlight (de_flow d)) as [n|] eqn:En.
    2: { intros Hc. pose proof (sl_held _ _ HS) as Hh. rewrite En in Hh. destruct (unopened_writer _ _ (Hh Hc) Hw); done. }
    rewrite size_union, size_singleton by set_solver. cbn in *. split; [lia|]. intros _. destruct X10 as [_ X10]. specialize (X10 eq_refl). lia.
  - intros id. rewrite sent_snoc. unfold ids. rewrite fmap_app, elem_of_app, elem_of_union, elem_of_singleton. intros [->|Hin]; [right; cbn; by left|left; by apply X11].
  - intros id v [Hv|Hv]%elem_of_app; [by apply (X12 id)|]. apply list_elem_of_singleton in Hv. done.
  - intros Hg. exfalso. destruct X5 as [Hx|Hx]; [by rewrite Hw| |lia]. apply (sl_opening _ _ HS) in Hx. congruence.
Qed.

Lemma exact_mark d ev :
  slots st d -> exact d -> de_writer d = WMark ev -> exact (with_writer (WTrack ev) (on_pending (markDispatched (ev_ID ev)) d)).
Proof using Hconc Hsmall.
  intros HS HE Hw. destruct (markDispatched_spec (ev_ID ev) _ (ex_hist _ HE)) as (H1 & H2 & H3).
  destruct HE as [X1 X2 X3 [X4 X5] X6 X7 X8 X9 X10 X11 X12 X13]. rewrite Hw in *.
  assert (waiting (with_writer (WTrack ev) (on_pending (markDispatched (ev_ID ev)) d)) = waiting d) as Hwd by (unfold waiting; cbn; by rewrite Hw).
  split; rewrite ?Hwd; cbn [with_writer on_pending with_flow set_pending de_log de_flow fw_pending fw_queue fw_inFlight fw_dispatched de_writer de_handler];
    rewrite ?H3; try done.
  - split; [done|]. intros _. by apply X5.
  - intros id. rewrite H2, <- X7. destruct (decide (id = ev_ID ev)) as [->|Hne].
    + rewrite lookup_alter_eq. destruct (sh_data _ !! _); cbn; split; intros []; try done; by eexists.
    + by rewrite lookup_alter_ne.
  - intros id e. rewrite H2. destruct (decide (id = ev_ID ev)) as [->|Hne].
    + rewrite lookup_alter_eq. destruct (sh_data _ !! _) as [e0|]; cbn; [|done]. intros [= <-]. cbn. split; [done|].
      intros Hna. exfalso. apply Hna, X9. cbn. set_solver.
    + rewrite lookup_alter_ne by done. intros He. destruct (X8 id e He) as [Y1 Y2]. split; [|done]. intros Ha _. apply Y1; [done|]. intros ev' [= <-]. done.
Qed.

Lemma exact_track d ev :
  exact d -> de_writer d = WTrack ev ->
  exact (with_writer WLoop (with_flow (set_dispatched ({[ev_ID ev]} ∪ fw_dispatched (de_flow d)) (de_flow d)) d)).
Proof using Hconc Hsmall.
  intros HE Hw. set (d' := with_writer WLoop _). destruct HE as [X1 X2 X3 [X4 X5] X6 X7 X8 X9 X10 X11 X12 X13]. rewrite Hw in *.
  assert (waiting d' = waiting d) as Hwd by (unfold waiting; cbn; by rewrite Hw).
  split; rewrite ?Hwd; cbn [d' with_writer with_flow set_dispatched de_log de_flow fw_pending fw_queue fw_inFlight fw_dispatched de_writer de_handler]; try done.
  - split; [done|]. intros _. by apply X5.
  - intros id e He. destruct (X8 id e He) as [Y1 Y2]. split; [|done]. intros Ha _. by apply Y1.
  - cbn in X9. destruct X9 as [-> Hs]. cbn. split; [|set_solver]. apply set_eq. intros x. destruct (decide (x = ev_ID ev)) as [->|]; set_solver.
Qed.

Lemma exact_slot d ev gen n :
  exact d -> de_writer d = WSlot ev gen -> fw_inFlight (de_flow d) = Some n ->
  exact (with_writer (WSend ev) (with_flow (set_inFlight (Some (S n)) (de_flow d)) d)).
Proof using Hconc Hsmall.
  intros HE Hw En. set (d' := with_writer (WSend ev) _). destruct HE as [X1 X2 X3 [X4 X5] X6 X7 X8 X9 X10 X11 X12 X13]. rewrite Hw, En in *.
  assert (waiting d' = waiting d) as Hwd by (unfold waiting; cbn; by rewrite Hw).
  split; rewrite ?Hwd; cbn [d' with_writer with_flow set_inFlight de_log de_flow fw_pending fw_queue fw_inFlight fw_dispatched de_writer de_handler]; try done.
  - split; [done|]. intros _. by apply X5.
  - intros id e He. destruct (X8 id e He) as [Y1 Y2]. split; [|done]. intros Ha _. by apply Y1.
  - cbn in *. destruct X10 as [Y1 Y2]. specialize (Y2 eq_refl). lia.
Qed.

Lemma exact_open d :
  in_line d -> slots st d -> exact d -> de_handler d = HOpening ->
  exact (note FOpened (with_handler HOn (with_flow (open (se_concurrency st) (de_flow d)) d))).
Proof using Hconc Hsmall.
  intros HA HS HE Hh. set (d' := note FOpened _). pose proof (sl_opening _ _ HS Hh) as Hw. destruct (waiting_fresh d HA HE) as [_ Hfr].
  destruct (newGeneration_spec _ (ex_hist _ HE)) as (H1 & H2 & H3). destruct HE as [X1 X2 X3 [X4 X5] X6 X7 X8 X9 X10 X11 X12 X13].
  assert (waiting d' = waiting d) as Hwd by done.
  assert (forall id e, sh_data (fw_pending (de_flow d)) !! id = Some e ->
    dead_entry (sh_generation (fw_pending (de_flow d)) + 1) e = false <-> id ∉ awaiting (de_log d)) as Hdead.
  { intros id e He. destruct (X8 id e He) as [Y1 Y2]. unfold dead_entry. split.
    - intros Hd Ha. rewrite Hw in Y1. rewrite (Y1 Ha ltac:(done)) in Hd.
      destruct (Z.eqb_spec (sh_generation (fw_pending (de_flow d))) 0) as [E0|]; [rewrite (X13 E0) in Ha; set_solver|].
      cbn in Hd. apply Z.ltb_ge in Hd. lia.
    - intros Ha. by rewrite (Y2 Ha). }
  split; rewrite ?Hwd; cbn [d' note open with_handler with_flow set_dispatched set_pending set_inFlight set_paused de_log de_flow fw_pending fw_queue fw_inFlight fw_dispatched de_writer de_handler];
    rewrite ?awaiting_snoc, ?H3; try done.
  - unfold delivered. rewrite omap_snoc. cbn. by rewrite app_nil_r.
  - split; [lia|]. intros _. right. lia.
  - intros _ _. split; [done|]. intros n. destruct (_ <? _)%nat; [by intros [= <-]|done].
  - intros id. rewrite H2. split.
    + intros [e [He Hd]%map_lookup_filter_Some]. right. apply (Hdead id e He) in Hd.
      assert (is_Some (sh_data (fw_pending (de_flow d)) !! id)) as [Ha|?]%X7 by (by eexists); done.
    + intros [Hx|Hx]; [set_solver|]. assert (is_Some (sh_data (fw_pending (de_flow d)) !! id)) as [e He] by (apply X7; auto).
      exists e. apply map_lookup_filter_Some. split; [done|]. apply (Hdead id e He), Hfr, Hx.
  - intros id e. rewrite H2. intros [He Hd]%map_lookup_filter_Some. split; [set_solver|]. intros _. apply (X8 id e He). by apply (Hdead id e He).
  - cbn. rewrite Hw. cbn. set_solver.
  - destruct (_ <? _)%nat eqn:Ec; [|by intros _]. rewrite size_empty, Hw. cbn. done.
  - intros id v [Hv|Hv]%elem_of_app; [by apply (X12 id)|]. apply list_elem_of_singleton in Hv. done.
Qed.

(** What an OK does to the history and the counters. *)
Lemma handle_ok_pending saved id accepted text f f' v :
  handle_ok (se_recovery st) saved id accepted text f = Some (f', v) ->
  fw_pending f' = history_delete id (fw_pending f) /\ fw_queue f' = fw_queue f /\
  (is_Some (sh_data (fw_pending f) !! id) -> timely v = true).
Proof using.
  intros Hh. split_and!; [by eapply handle_ok_slots|by eapply handle_ok_noted|]. intros [e He]. unfold handle_ok in Hh.
  destruct (lookup_ok id f) as [[found taken] f1] eqn:E. apply lookup_ok_frame in E as (-> & _). unfold history_get in Hh. rewrite He in Hh.
  destruct (if taken then _ else _) as [f2|]; cbn in Hh; [|done]. injection Hh as Hc. unfold count_ok in Hc. by repeat case_match; simplify_eq.
Qed.

Lemma exact_ok d id accepted text saved f v :
  in_line d -> exact d -> de_handler d = HOn -> id ∈ awaiting (de_log d) -> id ∉ marking (de_writer d) ->
  handle_ok (se_recovery st) saved id accepted text (de_flow d) = Some (f, v) -> exact (note (FAcked id v) (with_flow f d)).
Proof using Hconc Hsmall.
  intros HA HE Hh Ha Hm Hok. pose proof (handle_ok_slots st _ _ _ _ _ _ _ Hok) as (S1 & S2 & _).
  destruct (handle_ok_pending _ _ _ _ _ _ _ Hok) as (P1 & P2 & P3). destruct (waiting_fresh d HA HE) as [_ Hfr].
  destruct (history_delete_spec id _ (ex_hist _ HE)) as (H1 & H2 & H3). rewrite <- P1 in H1, H2, H3.
  set (d' := note _ _). destruct HE as [X1 X2 X3 [X4 X5] X6 X7 X8 [X9 X9'] X10 X11 X12 X13].
  assert (waiting d' = waiting d) as Hwd by (unfold waiting; cbn; by rewrite P2).
  assert (id ∈ fw_dispatched (de_flow d)) as Hdi by (rewrite X9; set_solver).
  split; rewrite ?Hwd; cbn [d' note with_flow de_log de_flow de_writer de_handler]; rewrite ?awaiting_snoc, ?H3, ?P2; try done.
  - unfold delivered. rewrite omap_snoc. cbn. by rewrite app_nil_r.
  - intros Hw _. destruct (X6 Hw) as [Y1 Y2]; [by rewrite Hh|]. rewrite Y1 in Ha. set_solver.
  - intros x. rewrite H2. destruct (decide (x = id)) as [->|Hne].
    + rewrite lookup_delete_eq. split; [by intros []|]. intros [?|Hw]; [set_solver|]. by apply Hfr in Hw.
    + rewrite lookup_delete_ne, X7, elem_of_difference, not_elem_of_singleton by done. tauto.
  - intros x e. rewrite H2. intros [Hne He]%lookup_delete_Some. destruct (X8 x e He) as [Y1 Y2]. split; [set_solver|]. intros Hx. apply Y2. set_solver.
  - rewrite S1, X9. set_solver.
  - destruct (fw_inFlight (de_flow d)) as [n|]; rewrite S2; [|intros Hc; rewrite (X10 Hc); set_solver].
    rewrite bool_decide_eq_true_2 by done. rewrite (size_take id (awaiting (de_log d))), bool_decide_eq_true_2 in X10 by done.
    destruct X10 as [Y1 Y2]. split; [lia|]. intros Hp. specialize (Y2 Hp). lia.
  - intros x Hx. rewrite sent_snoc, app_nil_r. apply X11. set_solver.
  - intros x v' [Hv|Hv]%elem_of_app; [by apply (X12 x)|]. apply list_elem_of_singleton in Hv as [= -> ->]. apply P3, X7. by left.
  - intros Hg. rewrite (X13 Hg). set_solver.
Qed.

(** What a note says besides being delivered, sent, acknowledged or opened. *)
Lemma side_note l x :
  match x with FSaved _ | FLost _ | FDropped _ | FResent _ | FRelayed _ => True | _ => False end ->
  delivered (l ++ [x]) = delivered l /\ awaiting (l ++ [x]) = awaiting l /\ sent (l ++ [x]) = sent l /\
  forall id v, FAcked id v ∈ (l ++ [x])%list -> FAcked id v ∈ l.
Proof using.
  intros Hx. unfold delivered. rewrite omap_snoc, awaiting_snoc, sent_snoc.
  split_and!; try (destruct x; try done; by rewrite ?app_nil_r).
  intros id v [?|Hv]%elem_of_app; [done|]. apply list_elem_of_singleton in Hv. by subst.
Qed.

Lemma save_or_lose_side recovery saved ev d :
  let d' := save_or_lose recovery saved ev d in
  fw_pending (de_flow d') = fw_pending (de_flow d) /\
  delivered (de_log d') = delivered (de_log d) /\ awaiting (de_log d') = awaiting (de_log d) /\ sent (de_log d') = sent (de_log d) /\
  forall id v, FAcked id v ∈ de_log d' -> FAcked id v ∈ de_log d.
Proof using.
  unfold save_or_lose. destruct (recovery && saved); cbn.
  - destruct (side_note (de_log d) (FSaved ev)) as (? & ? & ? & ?); done.
  - destruct (side_note (de_log d) (FLost ev)) as (? & ? & ? & ?); done.
Qed.

(** The broadcaster's event is given up. *)
Lemma exact_divert d d1 ev :
  in_line d -> exact d -> de_delivering d = Some ev -> d1 = with_delivering None (on_pending (history_delete (ev_ID ev)) d) ->
  forall d', fw_pending (de_flow d') = fw_pending (de_flow d1) -> fw_dispatched (de_flow d') = fw_dispatched (de_flow d) ->
  fw_inFlight (de_flow d') = fw_inFlight (de_flow d) -> fw_queue (de_flow d') = fw_queue (de_flow d) -> de_delivering d' = None ->
  de_writer d' = de_writer d -> de_handler d' = de_handler d ->
  delivered (de_log d') = delivered (de_log d) -> awaiting (de_log d') = awaiting (de_log d) -> sent (de_log d') = sent (de_log d) ->
  (forall id v, FAcked id v ∈ de_log d' -> FAcked id v ∈ de_log d) -> exact d'.
Proof using.
  intros HA HE Hd -> d' E1 E2 E3 E4 E5 E6 E7 E8 E9 E10 E11. destruct (waiting_fresh d HA HE) as [Hnd _].
  assert (waiting d = (waiting d' ++ [ev_ID ev])%list) as Hw.
  { unfold waiting, ids. rewrite Hd, E4, E5, E6. cbn. by rewrite !fmap_app, !app_nil_r, (assoc_L (++)). }
  eapply (exact_delete d d' ev); try done; [rewrite Hw; apply elem_of_app; right; by left| |by left].
  rewrite Hw in Hnd |- *. apply NoDup_app in Hnd as (_ & Hx & _). intros id. rewrite elem_of_app, list_elem_of_singleton.
  split; [|tauto]. intros Hin. split; [auto|]. intros ->. apply (Hx _ Hin). by left.
Qed.

(** So is the writer's. *)
Lemma exact_abandon d d' ev :
  in_line d -> exact d -> hands (de_writer d) = [ev] -> fw_pending (de_flow d') = history_delete (ev_ID ev) (fw_pending (de_flow d)) ->
  fw_dispatched (de_flow d') = fw_dispatched (de_flow d) ->
  fw_inFlight (de_flow d') = fw_inFlight (de_flow d) -> fw_queue (de_flow d') = fw_queue (de_flow d) -> de_delivering d' = de_delivering d ->
  de_writer d' = WOff \/ de_writer d' = WError -> de_handler d' = de_handler d ->
  delivered (de_log d') = delivered (de_log d) -> awaiting (de_log d') = awaiting (de_log d) -> sent (de_log d') = sent (de_log d) ->
  (forall id v, FAcked id v ∈ de_log d' -> FAcked id v ∈ de_log d) -> exact d'.
Proof using.
  intros HA HE Hh E1 E2 E3 E4 E5 E6 E7 E8 E9 E10 E11. destruct (waiting_fresh d HA HE) as [Hnd _].
  assert (waiting d = ev_ID ev :: waiting d') as Hw.
  { unfold waiting, ids. rewrite Hh, E4, E5. by destruct E6 as [-> | ->]. }
  eapply (exact_delete d d' ev); try done; [rewrite Hw; by left| |right].
  - rewrite Hw in Hnd |- *. apply NoDup_cons in Hnd as [Hx _]. intros id. rewrite elem_of_cons.
    split; [|naive_solver]. intros Hin. split; [auto|]. by intros ->.
  - destruct E6 as [-> | ->]; destruct (de_writer d); naive_solver.
Qed.

(** The obligations of [exact_frame] about places that did not change. *)
Ltac frame_rest d :=
  cbn; solve [ done | by destruct (fw_inFlight (de_flow d)) | by auto | tauto | intuition congruence
             | destruct (de_handler d); intuition congruence | destruct (fw_inFlight (de_flow d)); cbn; intuition congruence ].

Lemma receive_exact r d d' : exact d -> receive r d = Some d' -> exact d'.
Proof using.
  unfold receive. intros HE. destruct (_ <? _); [|done]. intros [= <-]. eapply (exact_frame d); try done; try apply HE; frame_rest d.
Qed.

Lemma read_response_exact r again d d' : exact d -> de_reader d = ReadOn -> read_response st r again d = Some d' -> exact d'.
Proof using.
  intros HE Hr. unfold read_response. destruct r as [id accepted text| | | |]; try by apply receive_exact.
  destruct (se_signer st); [|by apply receive_exact]. destruct (_ && _).
  - intros [= <-]. destruct (side_note (de_log d) (FResent id)) as (S1 & S2 & S3 & S4); [done|].
    eapply (exact_frame d); try done; try apply HE; frame_rest d.
  - apply receive_exact. eapply (exact_frame d); try done; try apply HE; frame_rest d.
Qed.

Lemma handle_response_exact saved now r d :
  in_line d -> slots st d -> exact d -> de_handler d = HOn ->
  (forall id accepted text, r = ROk id accepted text -> id ∈ awaiting (de_log d) /\ id ∉ marking (de_writer d)) ->
  exact (handle_response st saved now r d).
Proof using Hconc Hsmall.
  intros HA HS HE Hh Ho. unfold handle_response. destruct r as [id accepted text|ev| | |text].
  - destruct (handle_ok_ready st saved id accepted text d HS) as [[f v] E]. rewrite E.
    destruct (Ho id accepted text eq_refl). by eapply exact_ok.
  - unfold handleEvent. destruct (negb _ && _).
    + eapply (exact_frame d); try done; try apply HE; frame_rest d.
    + destruct (side_note (de_log d) (FRelayed ev)) as (S1 & S2 & S3 & S4); [done|].
      eapply (exact_frame d); try done; try apply HE; frame_rest d.
  - done.
  - done.
  - eapply (exact_frame d); try done; try apply HE; cbn; rewrite ?Hh; frame_rest d.
Qed.

(** An error is taken by the handler. *)
Lemma errors_exact ofWriter packet d d1 d' :
  slots st d -> exact d -> send_error ofWriter d = Some (packet, d1) -> take_error packet d1 = Some d' -> exact d'.
Proof using.
  intros HS HE Hs Ht. pose proof (ex_queue _ HE) as Hqu. unfold send_error in Hs. destruct ofWriter.
  - destruct (de_writer d) eqn:Ew; try done. injection Hs as <- <-. unfold take_error in Ht. cbn in Ht.
    destruct (de_handler d) eqn:Eh; try done; injection Ht as <-;
      (eapply (exact_frame d); try done; cbn; rewrite ?Ew, ?Eh; try done; [|frame_rest d..]; intros id; unfold waiting; cbn; by rewrite Ew).
  - assert (d1 = with_reader ReadOff d) as -> by (destruct (de_writer d), (de_reader d); by simplify_eq).
    unfold take_error in Ht. cbn in Ht.
    destruct (de_handler d) eqn:Eh; try done; injection Ht as <-; [destruct packet|]; (eapply (exact_frame d); try done; cbn; rewrite ?Eh; frame_rest d).
Qed.

Lemma dstep_exact a d d' :
  in_line d -> slots st d -> exact d -> orderly a d = true -> dstep st a d = Some d' -> exact d'.
Proof using Hconc Hsmall.
  intros HA HS HE Ho. pose proof (sl_opening _ _ HS) as Hop. pose proof (ex_queue _ HE) as Hqu.
  unfold orderly in Ho. apply andb_true_iff in Ho as [Hal Ho].
  destruct a as [ev| |saved| | |ok| | |saved| |ok saved| | | |r again|packet| | |saved now|saved|ofWriter| | | |]; cbn [dstep alone] in *.
  - destruct (de_delivering d) eqn:E; [done|]. intros [= <-]. apply bool_decide_eq_true in Ho. by apply exact_deliver.
  - destruct (de_delivering d) as [ev|] eqn:E; cbn; [|done]. destruct (Z.ltb_spec (Z.of_nat (length (fw_queue (de_flow d)))) streamFlowBufferSize); [|done].
    intros [= <-]. eapply (exact_frame d); try done; cbn; [rewrite length_app; cbn; lia| |frame_rest d..].
    intros id. unfold waiting, ids. cbn. rewrite E, !fmap_app, !elem_of_app. cbn. rewrite elem_of_nil. tauto.
  - destruct (de_delivering d) as [ev|] eqn:E; cbn; [|done]. destruct (fw_paused _); [|done]. intros [= <-].
    set (d1 := with_delivering None _).
    destruct (save_or_lose_flow (se_recovery st) saved ev d1) as (E1 & E2 & E3 & E4 & E5 & E6 & E7 & _).
    destruct (save_or_lose_side (se_recovery st) saved ev d1) as (F1 & F2 & F3 & F4 & F5).
    destruct (save_or_lose_noted (se_recovery st) saved ev d1) as (x & _ & _ & _ & G1 & _ & G2 & _).
    by eapply (exact_divert d d1 ev).
  - destruct (de_delivering d) as [ev|] eqn:E; cbn; [|done]. destruct (de_cancelled d); [|done]. intros [= <-].
    destruct (side_note (de_log d) (FDropped ev)) as (S1 & S2 & S3 & S4); [done|]. by eapply (exact_divert d _ ev).
  - destruct (de_writer d) eqn:Ew; try done. destruct (de_reader d); try done. destruct (de_handler d) eqn:Eh; try done.
    destruct (de_retries d); [done|]. intros [= <-]. eapply (exact_frame d); try done; cbn; rewrite ?Ew; try done; [|frame_rest d..]. intros id. unfold waiting. cbn. by rewrite Ew.
  - destruct (de_writer d) eqn:Ew; try done. destruct (de_handler d) eqn:Eh; try done; intros [= <-]; destruct ok;
      (eapply (exact_frame d); try done; cbn; rewrite ?Ew, ?Eh; try done; [|frame_rest d..]; intros ?; unfold waiting; cbn; by rewrite Ew).
  - destruct (de_writer d) eqn:Ew; try done. destruct (fw_queue (de_flow d)) as [|ev q] eqn:Eq; [done|]. intros [= <-].
    assert (de_handler d <> HOpening) as Hno by (intros Hx; by apply Hop in Hx). cbn [length] in Hqu.
    eapply (exact_frame d); try done; cbn; [lia| |..]; rewrite ?Ew; try (destruct (fw_inFlight (de_flow d)); frame_rest d).
    intros id. unfold waiting, ids. cbn. rewrite Ew, Eq. destruct (fw_inFlight _); done.
  - destruct (de_writer d) as [| | |ev gen| | | |] eqn:Ew; try done. destruct (slots_current d ev gen (sl_current _ _ HS) Ew) as [Eg Es]. rewrite Eg.
    destruct (fw_inFlight (de_flow d)) as [n|] eqn:En; cbn [mbind option_bind]; [|done]. rewrite Es.
    destruct (_ <? _)%nat; [|done]. intros [= <-]. by eapply exact_slot.
  - destruct (de_writer d) as [| | |ev gen| | | |] eqn:Ew; try done. destruct (conn_dead d); [|done]. intros [= <-].
    destruct (save_or_lose_flow (se_recovery st) saved ev d) as (E1 & E2 & E3 & E4 & E5 & E6 & E7 & _).
    destruct (save_or_lose_side (se_recovery st) saved ev d) as (F1 & F2 & F3 & F4 & F5).
    destruct (save_or_lose_noted (se_recovery st) saved ev d) as (x & _ & _ & _ & G1 & _ & G2 & _).
    eapply (exact_abandon d _ ev); try done; cbn; rewrite ?Ew, ?F1; auto.
  - destruct (de_writer d) as [| | |ev gen| | | |] eqn:Ew; try done. destruct (_ || _); [|done]. intros [= <-].
    destruct (side_note (de_log d) (FDropped ev)) as (S1 & S2 & S3 & S4); [done|].
    eapply (exact_abandon d _ ev); try done; cbn; rewrite ?Ew; auto.
  - destruct (de_writer d) as [| | | |ev| | |] eqn:Ew; try done. intros [= <-].
    set (d1 := if se_signer st then _ else d).
    assert (de_flow d1 = de_flow d /\ de_handler d1 = de_handler d /\ de_log d1 = de_log d /\ de_delivering d1 = de_delivering d /\ de_conn d1 = de_conn d) as (D1 & D2 & D3 & D4 & D5)
      by (subst d1; by destruct (se_signer st)). destruct ok.
    + eapply (exact_send d ev); try done; cbn. by rewrite D3, D5.
    + destruct (save_or_lose_flow (se_recovery st) saved ev d1) as (E1 & E2 & E3 & E4 & E5 & E6 & E7 & _).
      destruct (save_or_lose_side (se_recovery st) saved ev d1) as (F1 & F2 & F3 & F4 & F5).
      destruct (save_or_lose_noted (se_recovery st) saved ev d1) as (x & _ & _ & _ & G1 & _ & G2 & _).
      rewrite D1, ?D2, ?D3, ?D4 in *. eapply (exact_abandon d _ ev); try done; cbn; rewrite ?Ew, ?F1; auto; congruence.
  - destruct (de_writer d) as [| | | | |ev| |] eqn:Ew; try done. intros [= <-]. by apply exact_mark.
  - destruct (de_writer d) as [| | | | | |ev|] eqn:Ew; try done. intros [= <-]. by apply exact_track.
  - destruct (de_writer d) eqn:Ew; try done; (destruct (_ || _); [|done]); intros [= <-];
      (eapply (exact_frame d); try done; cbn; rewrite ?Ew; try done; [|frame_rest d..]; intros id; unfold waiting; cbn; by rewrite Ew).
  - destruct (de_reader d) eqn:Er; try done. by apply read_response_exact.
  - destruct (de_reader d); try done. intros [= <-]. eapply (exact_frame d); try done; frame_rest d.
  - destruct (de_reader d); try done; (destruct (ended d); [|done]); intros [= <-]; eapply (exact_frame d); try done; frame_rest d.
  - destruct (de_handler d) eqn:Eh; try done. intros [= <-]. by apply exact_open.
  - destruct (de_handler d) eqn:Eh; try done. destruct (fw_incoming (de_flow d)) as [|r rs]; [done|]. intros [= <-]. apply handle_response_exact; [done| | |done|].
    + apply (slots_frame st d); try done. cbn. by rewrite Eh.
    + eapply (exact_frame d); try done; frame_rest d.
    + intros id accepted text ->. apply andb_true_iff in Ho as [?%bool_decide_eq_true ?%bool_decide_eq_true]. done.
  - destruct (sl_current _ _ HS) as [_ Hch]. by destruct (de_handler d).
  - destruct (send_error ofWriter d) as [[packet d1]|] eqn:Es; cbn; [|done]. by apply (errors_exact ofWriter packet d d1).
  - destruct (de_handler d) eqn:Eh; try done. intros [= <-]. eapply (exact_frame d); try done; cbn; rewrite ?Eh; frame_rest d.
  - destruct (de_handler d) eqn:Eh; try done. destruct (ended d); [|done]. intros [= <-]. eapply (exact_frame d); try done; cbn; rewrite ?Eh; frame_rest d.
  - intros [= <-]. eapply (exact_frame d); try done; frame_rest d.
  - intros [= <-]. eapply (exact_frame d); try done; frame_rest d.
Qed.

Lemma orderly_exact l d d' :
  in_line d -> slots st d -> exact d -> drun st orderly l d = Some d' -> slots st d' /\ exact d'.
Proof using Hconc Hsmall.
  revert d. induction l as [|a l IH]; intros d HA HS HE; cbn [drun]; [by intros [= <-]|].
  destruct (orderly a d) eqn:Eo; [|done]. destruct (dstep st a d) as [d1|] eqn:E; cbn; [|done].
  assert (alone a d = true) as Hal by (unfold orderly in Eo; by apply andb_true_iff in Eo as [? _]).
  apply IH; [by eapply in_line_step|by eapply dstep_slots|by eapply dstep_exact].
Qed.

(** The slots in use while the writer is connected. *)
Lemma slots_in_use d :
  slots st d -> exact d -> past (de_writer d) = true ->
  fw_inFlight (de_flow d) = Some (size (awaiting (de_log d)) + sending (de_writer d))%nat.
Proof using Hconc.
  intros HS HE Hp. pose proof (ex_slots _ HE) as Hx. pose proof (sl_held _ _ HS) as Hy. destruct (fw_inFlight (de_flow d)).
  - destruct Hx as [_ Hx]. by rewrite (Hx Hp).
  - destruct (unopened_writer _ _ (Hy Hconc) eq_refl) as [E|E]; by rewrite E in Hp.
Qed.
End Orderly.

(** C19: a destination that is given a limit of at most 13,000 unacknowledged events
    (the default is none, and then nothing bounds what the history must hold), in an
    orderly run: its cycles do not overlap and each opens its flow before its
    connection is up, no event id is handed over twice, and an OK is for an event
    sent on this connection and is handled after the writer noted the send.  Then
    the slots in use are exactly the events sent on this connection and not
    acknowledged, so whenever fewer than the limit are, the next one can be sent;
    the history holds exactly those and the ones that wait, so its bound of 24,000
    evicts nothing; and every acknowledgement found its event, so it was counted
    as an event, a duplicate or a refusal. *)
Theorem window_exact {N : Nmilat} (st : settings) l d :
  (0 < se_concurrency st)%nat -> Z.of_nat (se_concurrency st) <= 13000 ->
  drun st orderly l newDest = Some d ->
  (past (de_writer d) = true ->
     fw_inFlight (de_flow d) = Some (size (awaiting (de_log d)) + sending (de_writer d))%nat) /\
  (forall ev gen, de_writer d = WSlot ev gen -> (size (awaiting (de_log d)) < se_concurrency st)%nat -> is_Some (dstep st ASlot d)) /\
  (forall id, is_Some (history_get id (fw_pending (de_flow d))) <-> id ∈ awaiting (de_log d) \/ id ∈ waiting d) /\
  (forall id v, FAcked id v ∈ de_log d -> timely v = true).
Proof.
  intros Hconc Hsmall [HS HE]%(orderly_exact st Hconc Hsmall _ _ _ in_line_new (slots_new st) (exact_new st)).
  pose proof (slots_in_use st Hconc d HS HE) as Hin. split_and!; [done| | |apply HE].
  - intros ev gen Hw Hlt. destruct (slots_current d ev gen (sl_current _ _ HS) Hw) as [Eg _].
    rewrite Hw in Hin. cbn [dstep]. rewrite Hw, Eg, (Hin eq_refl). cbn [sending mbind option_bind]. rewrite Nat.add_0_r.
    rewrite (proj2 (Nat.ltb_lt _ _)) by done. by eexists.
  - intros id. unfold history_get. rewrite fmap_is_Some. apply HE.
Qed.

(** ** Runs *)

Definition ex_event (id : string) : Event := mkEvent id "alice" 0 1 [] "" "".

Definition ex_settings (conc : nat) : settings := mkSettings conc true false false false.

Definition ex_connect : list action := [AStart; AOpen; ADial true].
Definition ex_hand (id : string) : list action := [ADeliver (ex_event id); AEnqueue; ATake].
Definition ex_publish (id : string) : list action := ex_hand id ++ [ASlot; ASend true true; AMark; ATrack].
Definition ex_answer (id : string) : list action := [AReceive (ROk id true "") false; AHandle true 0].

#[local] Existing Instance reference_nmilat.

Definition ex_orderly : list action := ex_connect ++ ex_publish "a" ++ ex_publish "b" ++ ex_answer "b" ++ ex_hand "c".

Definition ex_orderly_end : dest := default newDest (drun (ex_settings 2) orderly ex_orderly newDest).

(** "a" is unacknowledged, "c" waits for a slot, of which there is one. *)
Lemma window_exact_witness :
  awaiting (de_log ex_orderly_end) = {["a"%string]} /\ is_Some (dstep (ex_settings 2) ASlot ex_orderly_end).
Proof.
  split; [by vm_compute|].
  apply (window_exact (ex_settings 2) ex_orderly ex_orderly_end) with (ev := ex_event "c") (gen := 1);
    [cbn; lia|cbn; lia|vm_compute; reflexivity|vm_compute; reflexivity|vm_compute; lia].
Defined.

Lemma stream_window_witness :
  sent_now (de_log ex_orderly_end) = 2%nat /\ (sent_now (de_log ex_orderly_end) <= 2 + acked_now (de_log ex_orderly_end))%nat.
Proof.
  split; [by vm_compute|]. apply (stream_window (ex_settings 2) ex_orderly ex_orderly_end); vm_compute; [lia|reflexivity].
Defined.

(** The relay closes the subscription of a connection that has none to close: the
    handler reloads and returns, while the connection, its reader and its writer go
    on.  The next cycle runs beside them: the second event goes out on its
    connection before the first on the old one. *)
Definition ex_closed : list move := On 0 <$> [AReceive (RClosed "") false; AHandle true 0] ++ ex_connect.

Definition ex_reorder : list move :=
  (On 0 <$> ex_connect ++ ex_hand "a") ++ ex_closed ++ (On 0 <$> ex_hand "b" ++ [ASend true true]) ++ [On 2 (ASend true true)].

Definition ex_reorder_end : dest := default newDest (run (ex_settings 0) ex_reorder newDest).

Example connections_reorder :
  is_Some (run (ex_settings 0) ex_reorder newDest) /\
  ids (delivered (de_log ex_reorder_end)) = ["a"; "b"]%string /\ ids (sent (de_log ex_reorder_end)) = ["b"; "a"]%string /\
  ids (sent_on 1 (de_log ex_reorder_end)) = ["a"]%string /\ ids (sent_on 2 (de_log ex_reorder_end)) = ["b"]%string.
Proof. split; [vm_compute; by eexists|]. by vm_compute. Qed.

(** Both connections' sends are accounted for. *)
Lemma stream_accounts_witness :
  delivered (de_log ex_reorder_end) ≡ₚ (sent (de_log ex_reorder_end) ++ held ex_reorder_end
    ++ fw_queue (de_flow ex_reorder_end) ++ option_list (de_delivering ex_reorder_end) ++ unsent (de_log ex_reorder_end))%list.
Proof. apply (stream_accounts (ex_settings 0) ex_reorder ex_reorder_end). vm_compute. reflexivity. Defined.

(** The old writer waits for a slot of the semaphore it looked up, which the next
    cycle replaced: the acknowledgement that would free one frees none, so the
    event stays in its hands as long as the old connection lives, although all
    that was sent is acknowledged. *)
Definition ex_strands : list move :=
  (On 0 <$> ex_connect ++ ex_publish "a" ++ ex_hand "b") ++ ex_closed ++ [On 2 (AReceive (ROk "a" true "") false); On 0 (AHandle true 0)].

Example closed_strands_event :
  exists d, run (ex_settings 1) ex_strands newDest = Some d /\
    held d = [ex_event "b"] /\ acked (de_log d) = [VLate] /\ fw_inFlight (de_flow d) = Some 0%nat /\ fw_incoming (de_flow d) = [] /\
    step (ex_settings 1) (On 2 ASlot) d = None /\ step (ex_settings 1) (On 2 (ASlotDead true)) d = None /\
    step (ex_settings 1) (On 2 ASlotStop) d = None.
Proof. eexists. split; [vm_compute; reflexivity|]. by vm_compute. Qed.

(** Two sources hand over the same event, both copies are sent before the first
    is acknowledged, and both are acknowledged: everything is acknowledged, and one
    of the two slots is still taken, which nothing will free on this connection. *)
Definition ex_twice (id : string) : list action := ex_publish id ++ ex_publish id ++ ex_answer id ++ ex_answer id.

Lemma duplicate_leaks_slot :
  exists d, drun (ex_settings 2) alone (ex_connect ++ ex_twice "a") newDest = Some d /\
    fw_inFlight (de_flow d) = Some 1%nat /\ awaiting (de_log d) = ∅ /\ fw_dispatched (de_flow d) = ∅ /\
    fw_incoming (de_flow d) = [] /\ de_writer d = WLoop.
Proof. eexists. split; [vm_compute; reflexivity|]. by vm_compute. Qed.

(** The relay's OK is handled after the event is sent and before the writer
    noted it: the slot is never released, and with one slot the next event waits
    although nothing is unacknowledged. *)
Definition ex_early : list action :=
  ex_connect ++ ex_hand "a" ++ [ASlot; ASend true true] ++ ex_answer "a" ++ [AMark; ATrack] ++ ex_hand "b".

Lemma early_ack_leaks_slot :
  exists d, drun (ex_settings 1) alone ex_early newDest = Some d /\
    awaiting (de_log d) = ∅ /\ fw_incoming (de_flow d) = [] /\ de_writer d = WSlot (ex_event "b") 1 /\
    de_reader d = ReadOn /\ dstep (ex_settings 1) ASlot d = None.
Proof. eexists. split; [vm_compute; reflexivity|]. by vm_compute. Qed.

(** The connection dies before an event is acknowledged: the next cycle forgets
    it, although recovery is there; it is neither saved nor counted. *)
Definition ex_dies : list action :=
  ex_connect ++ ex_publish "a" ++ [AReadError false; AError false; AWriterEnd; ADrained] ++ ex_connect.

Lemma unacked_vanish :
  exists d, drun (ex_settings 1) alone ex_dies newDest = Some d /\
    sent (de_log d) = [ex_event "a"] /\ acked (de_log d) = [] /\ unsent (de_log d) = [] /\
    history_size (fw_pending (de_flow d)) = 0%nat /\ sa_lost (fw_stat (de_flow d)) = 0 /\ sa_failures (fw_stat (de_flow d)) = 0.
Proof. eexists. split; [vm_compute; reflexivity|]. by vm_compute. Qed.

(** The connection reports an error the handler takes for a packet's: the reader
    has returned, so the writer does, and so does the handler, without [reload].
    Nothing starts the destination again. *)
Lemma packet_error_ends :
  exists d, drun (ex_settings 1) alone (ex_connect ++ [AReadError true; AError false; AWriterEnd; AHandlerEnd]) newDest = Some d /\
    de_closed d = false /\ de_cancelled d = false /\ de_retries d = 0%nat /\
    de_writer d = WOff /\ de_reader d = ReadOff /\ de_handler d = HOff /\ dstep (ex_settings 1) AStart d = None.
Proof. eexists. split; [vm_compute; reflexivity|]. by vm_compute. Qed.
