(* ===== verification/ClientStreamLocal.v ===== *)
(** * Streaming events into a local store

    Models [LocalSubscription.Write] of [src/client/stream.go]: one goroutine
    reads events off the queue, takes the delete barrier for each (shared for an
    ordinary event, alone for a deletion) and hands it to one of a bounded number
    of workers, which gives the store a task, waits for what the store says of it
    or for the end of everything, answers and releases the barrier.  The store
    (nmilat) settles the tasks it was given when and how it likes, also after the
    worker gave up.  [local_writes] shows that a deletion is never reordered with
    an event, that the workers stay within their limit and never deadlock with the
    reader, and what an acknowledgement and its absence mean. *)
From S2P Require Import Prelude GoTime Nostr.
From stdpp Require Import options.

Definition localWriteConcurrency : nat := 32.

(** [NewLocalSubscription] *)
Definition local_limit (writeConcurrency : Z) : nat :=
  if (writeConcurrency <=? 0)%Z then localWriteConcurrency else Z.to_nat writeConcurrency.

(** What the store says of a task. *)
Inductive result := Inserted | Duplicated | Failed.

(** How [writeOneSafe] ends: it answered (for an event that was there already, or
    not), with the store's error or a panic, or because the flow is closed or the
    stream cancelled. *)
Inductive ending := Answered (duplicate : bool) | Refused | GaveUp.

Definition stored (duplicate : bool) : result := if duplicate then Duplicated else Inserted.

Definition ending_of (r : result) : ending :=
  match r with Inserted => Answered false | Duplicated => Answered true | Failed => Refused end.

(** The reading goroutine: its [select]; before the barrier; before [g.Go], with
    the barrier; in [g.Wait]; returned, with the error it reports. *)
Inductive dispatcher := DLoop | DLock (k : nat) | DGo (k : nat) | DWait | DDone (failed : bool).

(** A worker, from [g.Go] on: before it gives the store its task, and after. *)
Inductive worker := Ready | Running.

Inductive entry :=
| Began (k : nat)                        (* the store was given the task *)
| Settled (k : nat) (r : result)         (* the store is done with it *)
| Acked (k : nat) (duplicate : bool)     (* the flow was answered *)
| Finished (k : nat) (e : ending).       (* the worker returned *)

(** Events are named by their position in the queue. *)
Record local := mkLocal {
  lo_dispatcher : dispatcher;
  lo_read : nat;                       (* how many were read *)
  lo_readers : nat;                    (* [deleteBarrier]: how many share it *)
  lo_writing : bool;                   (* and whether one has it alone *)
  lo_workers : gmap nat worker;
  lo_failed : bool;                    (* a worker returned an error: [gctx] is done *)
  lo_tasks : gmap nat (option result); (* what the store was given, and said *)
  lo_stopped : bool;                   (* the flow is closed or [parent] is done *)
  lo_log : list entry;
}.

Definition newLocal : local := mkLocal DLoop 0 0 false ∅ false ∅ false [].

Definition finished (l : list entry) (k : nat) : Prop := exists e, Finished k e ∈ l.

Lemma finished_app l l' k : finished (l ++ l') k <-> finished l k \/ finished l' k.
Proof. unfold finished. setoid_rewrite elem_of_app. naive_solver. Qed.

(** Who has the barrier: the workers, and the reader's event before [g.Go]. *)
Definition holders (s : local) : gset nat :=
  dom (lo_workers s) ∪ match lo_dispatcher s with DGo k => {[k]} | _ => ∅ end.

Lemma holders_without s k :
  (forall x, lo_dispatcher s = DGo x -> lo_workers s !! x = None) -> is_Some (lo_workers s !! k) ->
  dom (delete k (lo_workers s)) ∪ match lo_dispatcher s with DGo x => {[x]} | _ => ∅ end = holders s ∖ {[k]}.
Proof.
  intros Hg Hk. unfold holders. rewrite dom_delete_L. destruct (lo_dispatcher s) as [| |x| |] eqn:Ed; [set_solver..| |set_solver|set_solver].
  assert (x <> k) by (intros ->; specialize (Hg k eq_refl); rewrite Hg in Hk; by destruct Hk). set_solver.
Qed.

Section Local.
(** The events, whether a kind is a deletion's ([nip09.IsDeletionKind]), the
    limit. *)
Context (queue : nat -> Event) (IsDeletionKind : Z -> bool) (limit : nat).

Definition isDelete (k : nat) : bool := IsDeletionKind (ev_Kind (queue k)).

Inductive local_action :=
| LTake | LLock | LGo
| LBegin (k : nat) | LSettle (k : nat) (r : result) | LFinish (k : nat) | LPanic (k : nat) | LGiveUp (k : nat)
| LBreak | LReturn | LStop.

Definition on_dispatcher (p : dispatcher) (s : local) : local :=
  mkLocal p (lo_read s) (lo_readers s) (lo_writing s) (lo_workers s) (lo_failed s) (lo_tasks s) (lo_stopped s) (lo_log s).

(** What a worker answers to the flow. *)
Definition acks (k : nat) (e : ending) : list entry :=
  match e with Answered dup => [Acked k dup] | _ => [] end.

(** A worker returns, and releases the barrier. *)
Definition finish (k : nat) (e : ending) (s : local) : local :=
  mkLocal (lo_dispatcher s) (lo_read s)
    (if isDelete k then lo_readers s else pred (lo_readers s))
    (if isDelete k then false else lo_writing s)
    (delete k (lo_workers s))
    (lo_failed s || match e with Refused => true | _ => false end)
    (lo_tasks s) (lo_stopped s) (lo_log s ++ acks k e ++ [Finished k e]).

Definition lstep (a : local_action) (s : local) : option local :=
  match a with
  | LTake =>
      match lo_dispatcher s with
      | DLoop => Some (mkLocal (DLock (lo_read s)) (S (lo_read s)) (lo_readers s) (lo_writing s) (lo_workers s) (lo_failed s) (lo_tasks s) (lo_stopped s) (lo_log s))
      | _ => None
      end
  | LLock =>
      match lo_dispatcher s with
      | DLock k =>
          if isDelete k then
            if negb (lo_writing s) && (lo_readers s =? 0)
            then Some (mkLocal (DGo k) (lo_read s) (lo_readers s) true (lo_workers s) (lo_failed s) (lo_tasks s) (lo_stopped s) (lo_log s)) else None
          else
            if negb (lo_writing s)
            then Some (mkLocal (DGo k) (lo_read s) (S (lo_readers s)) (lo_writing s) (lo_workers s) (lo_failed s) (lo_tasks s) (lo_stopped s) (lo_log s)) else None
      | _ => None
      end
  | LGo =>
      match lo_dispatcher s with
      | DGo k =>
          if size (lo_workers s) <? limit
          then Some (mkLocal DLoop (lo_read s) (lo_readers s) (lo_writing s) (<[k := Ready]> (lo_workers s)) (lo_failed s) (lo_tasks s) (lo_stopped s) (lo_log s)) else None
      | _ => None
      end
  | LBegin k =>
      match lo_workers s !! k with
      | Some Ready => Some (mkLocal (lo_dispatcher s) (lo_read s) (lo_readers s) (lo_writing s) (<[k := Running]> (lo_workers s)) (lo_failed s)
                              (<[k := None]> (lo_tasks s)) (lo_stopped s) (lo_log s ++ [Began k]))
      | _ => None
      end
  | LSettle k r =>
      match lo_tasks s !! k with
      | Some None => Some (mkLocal (lo_dispatcher s) (lo_read s) (lo_readers s) (lo_writing s) (lo_workers s) (lo_failed s)
                             (<[k := Some r]> (lo_tasks s)) (lo_stopped s) (lo_log s ++ [Settled k r]))
      | _ => None
      end
  | LFinish k =>
      match lo_workers s !! k, lo_tasks s !! k with
      | Some Running, Some (Some r) => Some (finish k (ending_of r) s)
      | _, _ => None
      end
  | LPanic k => match lo_workers s !! k with Some Running => Some (finish k Refused s) | _ => None end
  | LGiveUp k =>
      match lo_workers s !! k with
      | Some Running => if lo_stopped s then Some (finish k GaveUp s) else None
      | _ => None
      end
  | LBreak =>
      match lo_dispatcher s with
      | DLoop => if lo_stopped s || lo_failed s then Some (on_dispatcher DWait s) else None
      | _ => None
      end
  | LReturn =>
      match lo_dispatcher s with
      | DWait => if bool_decide (lo_workers s = ∅) then Some (on_dispatcher (DDone (lo_failed s)) s) else None
      | _ => None
      end
  | LStop => Some (mkLocal (lo_dispatcher s) (lo_read s) (lo_readers s) (lo_writing s) (lo_workers s) (lo_failed s) (lo_tasks s) true (lo_log s))
  end.

Fixpoint lrun (l : list local_action) (s : local) : option local :=
  match l with
  | [] => Some s
  | a :: l => s ← lstep a s; lrun l s
  end.

(** ** The barrier *)

(** How many events took the barrier. *)
Definition locked_count (s : local) : nat := match lo_dispatcher s with DLock k => k | _ => lo_read s end.

Definition shared (k : nat) : Prop := isDelete k = false.

(** Two writes whose order matters. *)
Definition conflict (j k : nat) : bool := isDelete j || isDelete k.

Definition ordered (l : list entry) : Prop :=
  forall pre k post, l = (pre ++ Began k :: post)%list -> forall j, j < k -> conflict j k = true -> finished pre j.

Record barrier (s : local) : Prop := {
  ba_lock : forall k, lo_dispatcher s = DLock k \/ lo_dispatcher s = DGo k -> lo_read s = S k;
  ba_go : forall k, lo_dispatcher s = DGo k -> lo_workers s !! k = None;
  ba_shared : lo_readers s = size (filter shared (holders s));
  ba_alone : lo_writing s = true -> exists k, isDelete k = true /\ holders s = {[k]};
  ba_deletes : forall k, k ∈ holders s -> isDelete k = true -> lo_writing s = true;
  ba_workers : forall k, k ∈ holders s -> k < locked_count s;
  ba_limit : size (lo_workers s) <= limit;
  ba_all : forall k, k < locked_count s -> k ∈ holders s \/ finished (lo_log s) k;
  ba_order : forall j k, k ∈ holders s -> j < k -> conflict j k = true -> finished (lo_log s) j;
  ba_ordered : ordered (lo_log s);
  ba_once : NoDup (omap (fun x => match x with Finished k _ => Some k | _ => None end) (lo_log s));
  ba_gone : forall k, finished (lo_log s) k -> (k ∉ holders s) /\ k < locked_count s;
}.

Lemma barrier_new : barrier newLocal.
Proof.
  assert (holders newLocal = ∅) as E by (unfold holders; cbn; set_solver).
  split; rewrite ?E; cbn; try done; try lia; try set_solver.
  - rewrite map_size_empty. lia.
  - intros pre k post Ex. by destruct pre.
  - constructor.
  - intros k [o Hx]. by apply elem_of_nil in Hx.
Qed.

(** The log grows by something that is not the beginning of a write. *)
Lemma ordered_app l l' : ordered l -> (forall k, Began k ∉ l') -> ordered (l ++ l').
Proof.
  intros Ho Hn. induction l' as [|x l' IH] using rev_ind; [by rewrite app_nil_r|].
  assert (ordered (l ++ l')) as Ho' by (apply IH; intros k Hk; apply (Hn k), elem_of_app; by left).
  intros pre k post E j Hj Hc. rewrite (assoc_L (++)) in E. destruct post as [|y post _] using rev_ind.
  - apply app_inj_tail in E as [_ ->]. exfalso. apply (Hn k). apply elem_of_app. right. by left.
  - rewrite app_comm_cons, (assoc_L (++)) in E. apply app_inj_tail in E as [E _]. by eapply Ho'.
Qed.

Lemma ordered_began l k : ordered l -> (forall j, j < k -> conflict j k = true -> finished l j) -> ordered (l ++ [Began k]).
Proof.
  intros Ho Hk pre k' post E j Hj Hc. destruct post as [|y post _] using rev_ind.
  - apply app_inj_tail in E as [-> [= ->]]. by apply Hk.
  - rewrite app_comm_cons, (assoc_L (++)) in E. apply app_inj_tail in E as [E _]. by eapply Ho.
Qed.

Lemma shared_insert k (X : gset nat) : isDelete k = false -> k ∉ X -> size (filter shared ({[k]} ∪ X)) = S (size (filter shared X)).
Proof.
  intros Hs Hk. replace (filter shared ({[k]} ∪ X)) with ({[k]} ∪ filter shared X).
  2: { apply set_eq. intros x. rewrite elem_of_union, !elem_of_filter, elem_of_union, elem_of_singleton. unfold shared.
       split; [intros [->|?]; tauto|tauto]. }
  rewrite size_union, size_singleton; [done|].
  intros x ->%elem_of_singleton [_ Hx]%elem_of_filter. done.
Qed.

Lemma step_take s : barrier s -> lo_dispatcher s = DLoop ->
  barrier (mkLocal (DLock (lo_read s)) (S (lo_read s)) (lo_readers s) (lo_writing s) (lo_workers s) (lo_failed s) (lo_tasks s) (lo_stopped s) (lo_log s)).
Proof.
  intros [B1 B2 B3 B4 B5 B6 B7 B8 B9 B10 B11 B12] Hd. set (s' := mkLocal _ _ _ _ _ _ _ _ _).
  assert (holders s' = holders s) as E by (unfold holders; cbn; by rewrite Hd).
  assert (locked_count s' = locked_count s) as E2 by (unfold locked_count; cbn; by rewrite Hd).
  split; rewrite ?E, ?E2; cbn; try done. by intros k [[= ->]|?].
Qed.

Lemma step_lock s k : barrier s -> lo_dispatcher s = DLock k -> lo_writing s = false -> (isDelete k = true -> lo_readers s = 0) ->
  barrier (mkLocal (DGo k) (lo_read s) (if isDelete k then lo_readers s else S (lo_readers s)) (isDelete k) (lo_workers s) (lo_failed s) (lo_tasks s) (lo_stopped s) (lo_log s)).
Proof.
  intros [B1 B2 B3 B4 B5 B6 B7 B8 B9 B10 B11 B12] Hd Hw Hr. set (s' := mkLocal _ _ _ _ _ _ _ _ _).
  assert (holders s' = {[k]} ∪ holders s) as E by (unfold holders; cbn; rewrite Hd; set_solver).
  assert (locked_count s = k) as E1 by (unfold locked_count; by rewrite Hd).
  pose proof (B1 k ltac:(by left)) as Hrd.
  assert (locked_count s' = S k) as E2 by (unfold locked_count; cbn; done).
  assert (k ∉ holders s) as Hk by (intros Hx%B6; lia).
  assert (forall x, x ∈ holders s -> isDelete x = false) as Hns.
  { intros x Hx. destruct (isDelete x) eqn:Ex; [|done]. rewrite (B5 x Hx Ex) in Hw. done. }
  assert (isDelete k = true -> holders s = ∅) as Hem.
  { intros Hdk. specialize (Hr Hdk). rewrite B3 in Hr. apply size_empty_inv in Hr. apply set_eq. intros x. split; [|set_solver].
    intros Hx. exfalso. assert (x ∈ filter shared (holders s)) as Hf; [|set_solver]. apply elem_of_filter. split; [by apply Hns|done]. }
  split; rewrite ?E, ?E2; cbn [s' lo_dispatcher lo_read lo_readers lo_writing lo_workers lo_failed lo_log]; try done.
  - by intros x [?|[= <-]].
  - intros x [= <-]. destruct (lo_workers s !! k) eqn:Ek; [|done]. exfalso. apply Hk. unfold holders. apply elem_of_union. left. apply elem_of_dom. by eexists.
  - destruct (isDelete k) eqn:Edk.
    + rewrite (Hem eq_refl), (Hr eq_refl). replace (filter shared _) with (∅ : gset nat); [by rewrite size_empty|].
      apply set_eq. intros x. rewrite elem_of_filter, elem_of_union, elem_of_singleton. unfold shared. set_solver.
    + by rewrite B3, shared_insert.
  - intros Hdk. exists k. split; [done|]. rewrite (Hem Hdk). set_solver.
  - intros x [->%elem_of_singleton|Hx]%elem_of_union Hdx; [done|]. by rewrite Hns in Hdx.
  - intros x [->%elem_of_singleton|Hx%B6]%elem_of_union; lia.
  - intros x Hx. destruct (decide (x = k)) as [->|]; [left; set_solver|]. destruct (B8 x) as [?|?]; [lia|left; set_solver|auto].
  - intros j x [->%elem_of_singleton|Hx]%elem_of_union Hj Hc; [|by eapply B9].
    destruct (B8 j) as [Hin|?]; [lia| |done]. exfalso. unfold conflict in Hc. apply orb_true_iff in Hc as [Hc|Hc].
    + by rewrite (Hns j Hin) in Hc.
    + rewrite (Hem Hc) in Hin. set_solver.
  - intros x Hx. destruct (B12 x Hx) as [Hx1 Hx2]. split; [|lia]. rewrite not_elem_of_union, not_elem_of_singleton. split; [lia|done].
Qed.

Lemma step_go s k : barrier s -> lo_dispatcher s = DGo k -> size (lo_workers s) < limit ->
  barrier (mkLocal DLoop (lo_read s) (lo_readers s) (lo_writing s) (<[k := Ready]> (lo_workers s)) (lo_failed s) (lo_tasks s) (lo_stopped s) (lo_log s)).
Proof.
  intros [B1 B2 B3 B4 B5 B6 B7 B8 B9 B10 B11 B12] Hd Hl. set (s' := mkLocal _ _ _ _ _ _ _ _ _).
  assert (holders s' = holders s) as E by (unfold holders; cbn; rewrite Hd, dom_insert_L; set_solver).
  assert (locked_count s' = locked_count s) as E2 by (unfold locked_count; cbn; by rewrite Hd).
  split; rewrite ?E, ?E2; cbn; try done; [by intros x [?|?]|]. rewrite map_size_insert_None by by apply B2. lia.
Qed.

(** A worker goes on. *)
Lemma step_begin s k : barrier s -> lo_workers s !! k = Some Ready ->
  barrier (mkLocal (lo_dispatcher s) (lo_read s) (lo_readers s) (lo_writing s) (<[k := Running]> (lo_workers s)) (lo_failed s)
    (<[k := None]> (lo_tasks s)) (lo_stopped s) (lo_log s ++ [Began k])).
Proof.
  intros [B1 B2 B3 B4 B5 B6 B7 B8 B9 B10 B11 B12] Hk. set (s' := mkLocal _ _ _ _ _ _ _ _ _).
  assert (k ∈ holders s) as Hin by (apply elem_of_union; left; apply elem_of_dom; by eexists).
  assert (dom (lo_workers s') = dom (lo_workers s)) as Ed by (apply dom_insert_lookup_L; by eexists).
  assert (holders s' = holders s) as E by (unfold holders; by rewrite Ed).
  assert (locked_count s' = locked_count s) as E2 by done.
  assert (forall x, finished (lo_log s') x <-> finished (lo_log s) x) as Hf.
  { intros x. cbn. rewrite finished_app. split; [|auto]. intros [?|[o Hx]]; [done|]. by apply list_elem_of_singleton in Hx. }
  split; rewrite ?E, ?E2; try setoid_rewrite Hf; cbn [s' lo_dispatcher lo_read lo_readers lo_writing lo_workers lo_log]; try done.
  - intros x Hx. rewrite lookup_insert_ne; [by apply B2|]. intros ->. apply B2 in Hx. congruence.
  - by rewrite map_size_insert_Some by by eexists.
  - apply ordered_began; [done|]. intros j Hj Hc. by eapply B9.
  - rewrite omap_app. cbn. by rewrite app_nil_r.
Qed.

Lemma step_finish s k o : barrier s -> lo_workers s !! k = Some Running -> barrier (finish k o s).
Proof.
  intros [B1 B2 B3 B4 B5 B6 B7 B8 B9 B10 B11 B12] Hk. unfold finish. set (s' := mkLocal _ _ _ _ _ _ _ _ _).
  assert (k ∈ holders s) as Hin by (apply elem_of_union; left; apply elem_of_dom; by eexists).
  assert (holders s' = holders s ∖ {[k]}) as E by (unfold holders at 1; cbn; apply holders_without; [done|by eexists]).
  assert (locked_count s' = locked_count s) as E2 by done.
  assert (forall x, finished (lo_log s') x <-> finished (lo_log s) x \/ x = k) as Hf.
  { intros x. cbn. rewrite !finished_app. split.
    - intros [?|[[o' Hx]|[o' Hx]]]; [auto| |apply list_elem_of_singleton in Hx as [= -> ->]; auto].
      exfalso. destruct o; cbn in Hx; rewrite ?elem_of_cons, ?elem_of_nil in Hx; naive_solver.
    - intros [?| ->]; [auto|]. right. right. exists o. by left. }
  assert (isDelete k = true -> holders s = {[k]}) as Hal.
  { intros Hd. destruct (B4 (B5 k Hin Hd)) as (x & _ & Hx). rewrite Hx in Hin |- *. by apply elem_of_singleton in Hin as ->. }
  split; rewrite ?E, ?E2; try setoid_rewrite Hf; cbn [s' lo_dispatcher lo_read lo_readers lo_writing lo_workers lo_log]; try done.
  - intros x Hx. apply lookup_delete_None. right. by apply B2.
  - destruct (isDelete k) eqn:Ed.
    + rewrite B3. f_equal. apply set_eq. intros x. rewrite !elem_of_filter, elem_of_difference, elem_of_singleton. unfold shared.
      split; [|tauto]. intros [Hs Hx]. split_and!; [done|done|]. intros ->. congruence.
    + rewrite B3, (union_difference_singleton_L k (holders s) Hin) at 1. rewrite shared_insert; [done|done|].
      by intros [_ ?%not_elem_of_singleton]%elem_of_difference.
  - destruct (isDelete k) eqn:Ed; [done|]. intros Hw. destruct (B4 Hw) as (x & Hx & Hh). exfalso. rewrite Hh in Hin.
    apply elem_of_singleton in Hin as ->. congruence.
  - intros x [Hx Hne]%elem_of_difference Hd. destruct (isDelete k) eqn:Ed; [|by eapply B5].
    rewrite (Hal eq_refl) in Hx. set_solver.
  - intros x [Hx _]%elem_of_difference. by apply B6.
  - etrans; [|exact B7]. rewrite map_size_delete_Some by by eexists. lia.
  - intros x Hx. destruct (B8 x Hx) as [Hh|?]; [|auto]. destruct (decide (x = k)); [auto|]. left. set_solver.
  - intros j x [Hx _]%elem_of_difference Hj Hc. left. by eapply B9.
  - apply ordered_app; [done|]. intros x Hx. destruct o; cbn in Hx; rewrite ?elem_of_cons, ?elem_of_nil in Hx; naive_solver.
  - rewrite !omap_app. assert (omap (fun x => match x with Finished k _ => Some k | _ => None end) (acks k o) = []) as -> by by destruct o.
    cbn. apply NoDup_app. split_and!; [done| |apply NoDup_singleton]. intros x (y & Hy & Hxy)%list_elem_of_omap ->%list_elem_of_singleton.
    destruct y as [| | |k' o']; try done. injection Hxy as ->. destruct (B12 k) as [Hno _]; [by exists o'|done].
  - intros x [Hx| ->]; [|split; [set_solver|by apply B6]]. destruct (B12 x Hx). split; [set_solver|done].
Qed.

(** The reader leaves its loop. *)
Lemma step_leave s p : barrier s -> (lo_dispatcher s = DLoop \/ lo_dispatcher s = DWait) -> (p = DWait \/ exists b, p = DDone b) ->
  barrier (on_dispatcher p s).
Proof.
  intros [B1 B2 B3 B4 B5 B6 B7 B8 B9 B10 B11 B12] Hd Hp.
  assert (holders (on_dispatcher p s) = holders s) as E by (unfold holders; cbn; by destruct Hd as [-> | ->], Hp as [->|[? ->]]).
  assert (locked_count (on_dispatcher p s) = locked_count s) as E2 by (unfold locked_count; cbn; by destruct Hd as [-> | ->], Hp as [->|[? ->]]).
  split; rewrite ?E, ?E2; cbn; try done; destruct Hp as [->|[? ->]]; try done; by intros ? [?|?].
Qed.

(** The store is done with a task, or everything stops. *)
Lemma step_note s tasks stopped l :
  barrier s -> (forall x, x ∈ l -> exists k r, x = Settled k r) ->
  barrier (mkLocal (lo_dispatcher s) (lo_read s) (lo_readers s) (lo_writing s) (lo_workers s) (lo_failed s) tasks stopped (lo_log s ++ l)).
Proof.
  intros [B1 B2 B3 B4 B5 B6 B7 B8 B9 B10 B11 B12] Hl. set (s' := mkLocal _ _ _ _ _ _ _ _ _).
  assert (forall x, finished (lo_log s') x <-> finished (lo_log s) x) as Hf.
  { intros x. cbn. rewrite finished_app. split; [|auto]. intros [?|[e (? & ? & Hx)%Hl]]; done. }
  split; try setoid_rewrite Hf; cbn [s' lo_dispatcher lo_read lo_readers lo_writing lo_workers lo_log]; try done.
  - apply ordered_app; [done|]. intros k (? & ? & Hx)%Hl. done.
  - rewrite omap_app. replace (omap _ l) with (@nil nat); [by rewrite app_nil_r|]. clear -Hl.
    induction l as [|x l IH]; [done|]. cbn. destruct (Hl x) as (k & r & ->); [by left|]. apply IH. intros y Hy. apply Hl. by right.
Qed.

Lemma lstep_barrier a s s' : barrier s -> lstep a s = Some s' -> barrier s'.
Proof.
  intros HB. destruct a as [| | |k|k r|k|k|k| | |]; cbn [lstep].
  - destruct (lo_dispatcher s) eqn:Ed; try done. intros [= <-]. by apply step_take.
  - destruct (lo_dispatcher s) as [|k| | |] eqn:Ed; try done. pose proof (step_lock s k HB Ed) as Hs.
    destruct (isDelete k) eqn:Edk; destruct (lo_writing s) eqn:Ew; cbn [negb andb]; try done.
    + destruct (Nat.eqb_spec (lo_readers s) 0) as [Er|]; [|done]. intros [= <-]. by apply Hs.
    + intros [= <-]. by apply Hs.
  - destruct (lo_dispatcher s) as [| |k| |] eqn:Ed; try done. destruct (Nat.ltb_spec (size (lo_workers s)) limit); [|done].
    intros [= <-]. by apply step_go.
  - destruct (lo_workers s !! k) as [[]|] eqn:Ek; try done. intros [= <-]. by apply step_begin.
  - destruct (lo_tasks s !! k) as [[]|]; try done. intros [= <-]. apply step_note; [done|]. intros x ->%list_elem_of_singleton. eauto.
  - destruct (lo_workers s !! k) as [[]|] eqn:Ek; try done. destruct (lo_tasks s !! k) as [[r|]|]; try done. intros [= <-]. by apply step_finish.
  - destruct (lo_workers s !! k) as [[]|] eqn:Ek; try done. intros [= <-]. by apply step_finish.
  - destruct (lo_workers s !! k) as [[]|] eqn:Ek; try done. destruct (lo_stopped s); [|done]. intros [= <-]. by apply step_finish.
  - destruct (lo_dispatcher s) eqn:Ed; try done. destruct (_ || _); [|done]. intros [= <-]. apply step_leave; auto.
  - destruct (lo_dispatcher s) eqn:Ed; try done. destruct (bool_decide _); [|done]. intros [= <-]. apply step_leave; eauto.
  - intros [= <-]. rewrite <- (app_nil_r (lo_log s)). apply step_note; [done|]. intros x Hx. by apply elem_of_nil in Hx.
Qed.

(** ** What the store did and what the flow was told *)

Definition acked_of (x : entry) : option (nat * bool) := match x with Acked k dup => Some (k, dup) | _ => None end.
Definition answered_of (x : entry) : option (nat * bool) := match x with Finished k (Answered dup) => Some (k, dup) | _ => None end.
Definition settled_of (x : entry) : option nat := match x with Settled k _ => Some k | _ => None end.

Record answers (s : local) : Prop := {
  an_tasks : forall k r, lo_tasks s !! k = Some (Some r) <-> Settled k r ∈ lo_log s;
  an_begun : forall k, is_Some (lo_tasks s !! k) -> lo_workers s !! k = Some Running \/ finished (lo_log s) k;
  an_running : forall k, lo_workers s !! k = Some Running -> is_Some (lo_tasks s !! k);
  an_once : NoDup (omap settled_of (lo_log s));
  an_acked : omap acked_of (lo_log s) = omap answered_of (lo_log s);
  an_stored : forall pre k dup post, lo_log s = (pre ++ Finished k (Answered dup) :: post)%list -> Settled k (stored dup) ∈ pre;
  an_refused : forall k, Finished k Refused ∈ lo_log s -> lo_failed s = true;
  an_gaveup : forall k, Finished k GaveUp ∈ lo_log s -> lo_stopped s = true;
}.

(** The log grows by something that is not the end of a write. *)
Lemma stored_app (l l' : list entry) :
  (forall pre k dup post, l = (pre ++ Finished k (Answered dup) :: post)%list -> Settled k (stored dup) ∈ pre) ->
  (forall k dup, Finished k (Answered dup) ∈ l' -> Settled k (stored dup) ∈ l) ->
  forall pre k dup post, (l ++ l')%list = (pre ++ Finished k (Answered dup) :: post)%list -> Settled k (stored dup) ∈ pre.
Proof.
  intros Ho Hn pre k dup post E. apply app_eq_inv in E as [(m & -> & E)|(m & -> & E)].
  - destruct m as [|x m]; cbn in E.
    + rewrite app_nil_r in *. apply Hn with (k := k). rewrite <- E. by left.
    + injection E as <- E. by apply (Ho pre k dup m).
  - apply elem_of_app. left. apply Hn. rewrite E. apply elem_of_app. right. by left.
Qed.

(** Nothing was said of the store, the flow or a worker. *)
Lemma answers_frame s s' :
  answers s -> lo_tasks s' = lo_tasks s -> lo_log s' = lo_log s -> lo_failed s' = lo_failed s ->
  (lo_stopped s = true -> lo_stopped s' = true) ->
  (forall k, is_Some (lo_tasks s !! k) -> lo_workers s !! k = Some Running -> lo_workers s' !! k = Some Running) ->
  (forall k, lo_workers s' !! k = Some Running -> lo_workers s !! k = Some Running) -> answers s'.
Proof.
  intros [A1 A2 A0 A3 A4 A5 A6 A7] E1 E2 E3 E4 E5 E6. split; rewrite ?E1, ?E2, ?E3; try done.
  - intros k Hk. destruct (A2 k Hk); [left|right]; auto.
  - auto.
  - eauto.
Qed.

Lemma answers_finish s k e :
  answers s -> lo_workers s !! k = Some Running -> (forall dup, e = Answered dup -> Settled k (stored dup) ∈ lo_log s) ->
  (e = GaveUp -> lo_stopped s = true) -> answers (finish k e s).
Proof.
  intros [A1 A2 A0 A3 A4 A5 A6 A7] Hk He Hg.
  assert (forall x, x ∈ (acks k e ++ [Finished k e])%list -> x = Finished k e \/ exists dup, x = Acked k dup) as Hnew.
  { intros x. destruct e; cbn; rewrite ?elem_of_cons, ?elem_of_nil; naive_solver. }
  split; cbn [finish lo_tasks lo_log lo_workers lo_failed lo_stopped].
  - intros x r. rewrite A1, elem_of_app. split; [auto|]. intros [?|[?|[? ?]]%Hnew]; done.
  - intros x Hx. rewrite finished_app. destruct (decide (x = k)) as [->|Hne].
    + right. right. exists e. apply elem_of_app. right. by left.
    + destruct (A2 x Hx) as [?|?]; [left; by rewrite lookup_delete_ne|auto].
  - intros x [_ Hx]%lookup_delete_Some. by apply A0.
  - rewrite omap_app. replace (omap settled_of (acks k e ++ [Finished k e])%list) with (@nil nat) by by destruct e. by rewrite app_nil_r.
  - rewrite !omap_app, A4. f_equal. by destruct e.
  - apply stored_app; [done|]. intros x dup [Hx|[? ?]]%Hnew; [|done]. injection Hx as -> <-. by apply He.
  - intros x. rewrite elem_of_app. intros [Hx|[Hx|[? ?]]%Hnew]; [by rewrite (A6 x Hx)| |done]. injection Hx as -> <-. apply orb_true_r.
  - intros x. rewrite elem_of_app. intros [Hx|[Hx|[? ?]]%Hnew]; [by apply (A7 x)| |done]. injection Hx as -> <-. by apply Hg.
Qed.

Lemma answers_begin s k :
  barrier s -> answers s -> lo_workers s !! k = Some Ready ->
  answers (mkLocal (lo_dispatcher s) (lo_read s) (lo_readers s) (lo_writing s) (<[k := Running]> (lo_workers s)) (lo_failed s)
             (<[k := None]> (lo_tasks s)) (lo_stopped s) (lo_log s ++ [Began k])).
Proof.
  intros HB [A1 A2 A0 A3 A4 A5 A6 A7] Hk.
  assert (lo_tasks s !! k = None) as Hnone.
  { destruct (lo_tasks s !! k) eqn:E; [|done]. destruct (A2 k) as [Hr|Hf]; [by eexists|congruence|].
    apply (ba_gone _ HB) in Hf as [Hno _]. exfalso. apply Hno, elem_of_union. left. apply elem_of_dom. by eexists. }
  split; cbn [lo_tasks lo_log lo_workers lo_failed lo_stopped].
  - intros x r. rewrite elem_of_app, list_elem_of_singleton, <- A1. destruct (decide (x = k)) as [->|Hne].
    + rewrite lookup_insert_eq, Hnone. intuition congruence.
    + rewrite lookup_insert_ne by done. intuition congruence.
  - intros x Hx. destruct (decide (x = k)) as [->|Hne]; [left; by rewrite lookup_insert_eq|].
    rewrite lookup_insert_ne in Hx by done. rewrite lookup_insert_ne by done. rewrite finished_app. destruct (A2 x Hx); auto.
  - intros x Hx. destruct (decide (x = k)) as [->|Hne]; [rewrite lookup_insert_eq; by eexists|].
    rewrite lookup_insert_ne in Hx by done. rewrite lookup_insert_ne by done. by apply A0.
  - rewrite omap_app. cbn. by rewrite app_nil_r.
  - rewrite !omap_app, A4. done.
  - apply stored_app; [done|]. intros x dup Hx%list_elem_of_singleton. done.
  - intros x. rewrite elem_of_app, list_elem_of_singleton. intros [Hx|Hx]; [by eapply A6|done].
  - intros x. rewrite elem_of_app, list_elem_of_singleton. intros [Hx|Hx]; [by eapply A7|done].
Qed.

Lemma answers_settle s k r :
  answers s -> lo_tasks s !! k = Some None ->
  answers (mkLocal (lo_dispatcher s) (lo_read s) (lo_readers s) (lo_writing s) (lo_workers s) (lo_failed s)
             (<[k := Some r]> (lo_tasks s)) (lo_stopped s) (lo_log s ++ [Settled k r])).
Proof.
  clear queue IsDeletionKind limit. intros [A1 A2 A0 A3 A4 A5 A6 A7] Hk. split; cbn [lo_tasks lo_log lo_workers lo_failed lo_stopped].
  - intros x r'. rewrite elem_of_app, list_elem_of_singleton, <- A1. destruct (decide (x = k)) as [->|Hne].
    + rewrite lookup_insert_eq, Hk. intuition congruence.
    + rewrite lookup_insert_ne by done. intuition congruence.
  - intros x Hx. rewrite finished_app. destruct (decide (x = k)) as [->|Hne]; [destruct (A2 k); [by eexists|auto..]|].
    rewrite lookup_insert_ne in Hx by done. destruct (A2 x Hx); auto.
  - intros x Hx. destruct (decide (x = k)) as [->|Hne]; [rewrite lookup_insert_eq; by eexists|]. rewrite lookup_insert_ne by done. by apply A0.
  - rewrite omap_app. cbn. apply NoDup_app. split_and!; [done| |apply NoDup_singleton].
    intros x (y & Hy & Hxy)%list_elem_of_omap ->%list_elem_of_singleton. destruct y as [|k' r'| |]; try done. injection Hxy as ->.
    apply A1 in Hy. congruence.
  - rewrite !omap_app, A4. done.
  - apply stored_app; [done|]. intros x dup Hx%list_elem_of_singleton. done.
  - intros x. rewrite elem_of_app, list_elem_of_singleton. intros [Hx|Hx]; [by eapply A6|done].
  - intros x. rewrite elem_of_app, list_elem_of_singleton. intros [Hx|Hx]; [by eapply A7|done].
Qed.

Lemma lstep_answers a s s' : barrier s -> answers s -> lstep a s = Some s' -> answers s'.
Proof.
  intros HB HA. destruct a as [| | |k|k r|k|k|k| | |]; cbn [lstep]; intros Hs.
  - destruct (lo_dispatcher s); simplify_eq. by apply (answers_frame s).
  - repeat case_match; simplify_eq; by apply (answers_frame s).
  - destruct (lo_dispatcher s) as [| |k| |] eqn:Ed; try done. destruct (_ <? _); simplify_eq. apply (answers_frame s); try done; cbn.
    + intros x _ Hx. rewrite lookup_insert_ne; [done|]. intros <-. rewrite (ba_go _ HB k Ed) in Hx. done.
    + intros x [[_ ?]|[_ ?]]%lookup_insert_Some; done.
  - destruct (lo_workers s !! k) as [[]|] eqn:Ek; simplify_eq. by apply answers_begin.
  - destruct (lo_tasks s !! k) as [[]|] eqn:Ek; simplify_eq. by apply answers_settle.
  - destruct (lo_workers s !! k) as [[]|] eqn:Ek; try done. destruct (lo_tasks s !! k) as [[r|]|] eqn:Et; simplify_eq.
    apply (an_tasks _ HA) in Et. apply answers_finish; [done|done| |by destruct r]. intros dup. destruct r; cbn; by intros [= <-].
  - destruct (lo_workers s !! k) as [[]|] eqn:Ek; simplify_eq. by apply answers_finish.
  - destruct (lo_workers s !! k) as [[]|] eqn:Ek; try done. destruct (lo_stopped s) eqn:Es; simplify_eq. by apply answers_finish.
  - destruct (lo_dispatcher s); try done. destruct (_ || _); simplify_eq. by apply (answers_frame s).
  - destruct (lo_dispatcher s); try done. destruct (bool_decide _); simplify_eq. by apply (answers_frame s).
  - injection Hs as <-. by apply (answers_frame s).
Qed.

Lemma lrun_ok l s s' : barrier s -> answers s -> lrun l s = Some s' -> barrier s' /\ answers s'.
Proof.
  revert s. induction l as [|a l IH]; intros s HB HA; cbn [lrun]; [by intros [= <-]|].
  destruct (lstep a s) as [s1|] eqn:E; cbn; [|done]. apply IH; [by eapply lstep_barrier|by eapply lstep_answers].
Qed.

(** A step of the reader or a worker is enabled without anything new to read, or
    the store has a task to settle. *)
Definition can_go_on (s : local) : Prop :=
  is_Some (lstep LLock s) \/ is_Some (lstep LGo s) \/ is_Some (lstep LReturn s) \/
  (exists k, is_Some (lstep (LBegin k) s)) \/ (exists k, is_Some (lstep (LFinish k) s)) \/
  (exists k, lo_workers s !! k = Some Running /\ forall r, is_Some (lstep (LSettle k r) s)).

Lemma barrier_progress s : barrier s -> answers s -> 0 < limit ->
  match lo_dispatcher s with DLoop | DDone _ => lo_workers s <> ∅ | _ => True end -> can_go_on s.
Proof.
  intros HB HA Hl Hx. unfold can_go_on. destruct (map_choose_or_empty (lo_workers s)) as [(k & w & Hk)|He].
  - destruct w.
    + do 3 right. left. exists k. cbn. rewrite Hk. by eexists.
    + do 4 right. destruct (an_running _ HA k Hk) as [[r|] Ht].
      * left. exists k. cbn. rewrite Hk, Ht. by eexists.
      * right. exists k. split; [done|]. intros r. cbn. rewrite Ht. by eexists.
  - destruct HB as [B1 B2 B3 B4 B5 B6 B7 B8 B9 B10 B11 B12]. unfold holders in *. rewrite He, dom_empty_L in *. cbn.
    destruct (lo_dispatcher s) as [|k|k| |] eqn:Ed; [done| | | |done].
    + left. assert (filter shared (∅ ∪ ∅ : gset nat) = ∅) as E by (apply set_eq; intros x; rewrite elem_of_filter; set_solver).
      rewrite E, size_empty in B3. rewrite B3. destruct (lo_writing s); [|by destruct (isDelete k); eexists].
      destruct (B4 eq_refl) as (x & _ & Hh). set_solver.
    + right. left. rewrite He, map_size_empty. destruct limit; [lia|]. by eexists.
    + do 2 right. left. rewrite bool_decide_eq_true_2 by done. by eexists.
Qed.

(** What an ending says, and that the flow was answered for no other. *)
Lemma answers_endings s k e :
  answers s -> NoDup (omap (fun x => match x with Finished k _ => Some k | _ => None end) (lo_log s)) -> Finished k e ∈ lo_log s ->
  match e with
  | Answered dup => Settled k (stored dup) ∈ lo_log s /\ Acked k dup ∈ lo_log s
  | Refused => lo_failed s = true /\ forall dup, Acked k dup ∉ lo_log s
  | GaveUp => lo_stopped s = true /\ forall dup, Acked k dup ∉ lo_log s
  end.
Proof.
  clear queue IsDeletionKind limit. intros [A1 A2 A0 A3 A4 A5 A6 A7] Hn He.
  assert (forall dup, Acked k dup ∈ lo_log s <-> Finished k (Answered dup) ∈ lo_log s) as Hiff.
  { intros dup. trans ((k, dup) ∈ omap acked_of (lo_log s)).
    - rewrite list_elem_of_omap. split; [intros ?; by exists (Acked k dup)|]. intros (x & Hx & E). destruct x; naive_solver.
    - rewrite A4, list_elem_of_omap. split; [|intros ?; by exists (Finished k (Answered dup))].
      intros (x & Hx & E). destruct x as [| | |k' []]; naive_solver. }
  assert (forall e', Finished k e' ∈ lo_log s -> e' = e) as Hone.
  { clear -Hn He. induction (lo_log s) as [|x l IH]; [by apply elem_of_nil in He|]. intros e' He'.
    assert (forall e0, Finished k e0 ∈ l -> k ∈ omap (fun x => match x with Finished k _ => Some k | _ => None end) l) as Hin
      by (intros e0 H0; apply list_elem_of_omap; by exists (Finished k e0)).
    apply elem_of_cons in He as [<-|He], He' as [Hx|He'].
    - by injection Hx.
    - cbn in Hn. apply NoDup_cons in Hn as [Hn _]. exfalso. eauto.
    - subst x. cbn in Hn. apply NoDup_cons in Hn as [Hn _]. exfalso. eauto.
    - apply IH; [|done|done]. destruct x; cbn in Hn; try done. by apply NoDup_cons in Hn as [_ ?]. }
  destruct e as [dup| |].
  - split; [|by apply Hiff]. apply list_elem_of_split in He as (pre & post & El). rewrite El. apply elem_of_app. left. by eapply A5.
  - split; [by eapply A6|]. intros dup Hk%Hiff%Hone. done.
  - split; [by eapply A7|]. intros dup Hk%Hiff%Hone. done.
Qed.

End Local.

Lemma answers_new : answers newLocal.
Proof.
  split; cbn; try done.
  - intros k r. rewrite lookup_empty, elem_of_nil. done.
  - intros k [? Hk]. by rewrite lookup_empty in Hk.
  - constructor.
  - intros pre k dup post E. by destruct pre.
  - intros k Hk. by apply elem_of_nil in Hk.
  - intros k Hk. by apply elem_of_nil in Hk.
Qed.

Lemma local_limit_pos wc : 0 < local_limit wc.
Proof. unfold local_limit, localWriteConcurrency. destruct (Z.leb_spec wc 0); lia. Qed.

(** C20: in every interleaving of the reader with its workers and the store, a
    deletion is given to the store only after every event read before it is done
    with, and an event only after every deletion read before it is: the store has
    settled it, unless its write was refused or given up ([shutdown_unordered]);
    the workers stay within the limit and never deadlock with the reader (someone
    can go on, or the store has a task to settle); the store settles each task at
    most once and every event read is with the reader, being written or was
    written once; and the flow is answered exactly for the events whose worker
    returned with an answer, and then the store had settled the event as inserted
    or as there already.  A write that ends without an answer was refused, which
    ends the cycle, or given up because everything stops, in which case the event
    may be in the store all the same ([stored_unanswered]). *)
Theorem local_writes queue IsDeletionKind writeConcurrency l s :
  lrun queue IsDeletionKind (local_limit writeConcurrency) l newLocal = Some s ->
  (forall pre k post, lo_log s = (pre ++ Began k :: post)%list -> forall j, j < k ->
     isDelete queue IsDeletionKind j || isDelete queue IsDeletionKind k = true ->
     exists e, Finished j e ∈ pre /\ forall dup, e = Answered dup -> Settled j (stored dup) ∈ pre) /\
  size (lo_workers s) <= local_limit writeConcurrency /\
  (match lo_dispatcher s with DLoop | DDone _ => lo_workers s <> ∅ | _ => True end ->
     can_go_on queue IsDeletionKind (local_limit writeConcurrency) s) /\
  NoDup (omap settled_of (lo_log s)) /\
  NoDup (omap (fun x => match x with Finished k _ => Some k | _ => None end) (lo_log s)) /\
  (forall k, k < lo_read s -> k ∈ holders s \/ lo_dispatcher s = DLock k \/ finished (lo_log s) k) /\
  omap acked_of (lo_log s) = omap answered_of (lo_log s) /\
  (forall k e, Finished k e ∈ lo_log s ->
     match e with
     | Answered dup => Settled k (stored dup) ∈ lo_log s /\ Acked k dup ∈ lo_log s
     | Refused => lo_failed s = true /\ forall dup, Acked k dup ∉ lo_log s
     | GaveUp => lo_stopped s = true /\ forall dup, Acked k dup ∉ lo_log s
     end).
Proof.
  intros Hr. destruct (lrun_ok _ _ _ _ _ _ (barrier_new queue IsDeletionKind (local_limit writeConcurrency)) answers_new Hr) as [HB HA].
  split_and!; [|apply HB| |apply HA|apply HB| |apply HA|].
  - intros pre k post El j Hj Hc. destruct (ba_ordered _ _ _ _ HB pre k post El j Hj Hc) as [e He]. exists e. split; [done|]. intros dup ->.
    apply list_elem_of_split in He as (p & q & ->). apply elem_of_app. left.
    apply (an_stored _ HA p j dup (q ++ Began k :: post)). by rewrite El, <- (assoc_L (++)).
  - apply barrier_progress; [done|done|apply local_limit_pos].
  - intros k Hk. pose proof (ba_all _ _ _ _ HB k) as Ha. unfold locked_count in Ha.
    destruct (lo_dispatcher s) as [|k'| | |] eqn:Ed; try (destruct (Ha Hk); auto; fail).
    destruct (decide (k = k')) as [->|]; [auto|]. pose proof (ba_lock _ _ _ _ HB k' (or_introl Ed)) as Hrd.
    destruct Ha as [?|?]; [lia|auto..].
  - intros k e He. eapply answers_endings; [done|apply HB|done].
Qed.

(** ** Runs *)

(** An event, its deletion, and an event after it, by two workers. *)
Definition ex_queue (k : nat) : Event := mkEvent (nth k ["a"; "d"; "b"]%string "z"%string) "alice" 0 (if (k =? 1)%nat then 5 else 1)%Z [] "" "".

Definition ex_write (k : nat) : list local_action := [LTake; LLock; LGo; LBegin k].

Definition ex_local : list local_action :=
  ex_write 0 ++ [LTake; LSettle 0 Inserted; LFinish 0; LLock; LGo; LBegin 1; LSettle 1 Inserted; LFinish 1] ++ ex_write 2.

Definition ex_local_end : local := default newLocal (lrun ex_queue (Z.eqb 5) (local_limit 2) ex_local newLocal).

Lemma local_writes_witness :
  lo_log ex_local_end = [Began 0; Settled 0 Inserted; Acked 0 false; Finished 0 (Answered false);
                         Began 1; Settled 1 Inserted; Acked 1 false; Finished 1 (Answered false); Began 2] /\
  size (lo_workers ex_local_end) <= local_limit 2.
Proof.
  split; [by vm_compute|]. refine (proj1 (proj2 (local_writes ex_queue (Z.eqb 5) 2 ex_local ex_local_end _))). vm_compute. reflexivity.
Defined.

(** The store refuses an event: [Write] ends with the error, and the event is
    neither in the store nor answered, so nothing retries or counts it. *)
Lemma store_failure_vanishes :
  exists s, lrun ex_queue (Z.eqb 5) (local_limit 2) (ex_write 0 ++ [LSettle 0 Failed; LFinish 0; LBreak; LReturn]) newLocal = Some s /\
    lo_dispatcher s = DDone true /\ lo_log s = [Began 0; Settled 0 Failed; Finished 0 Refused].
Proof. eexists. split; [vm_compute; reflexivity|]. by vm_compute. Qed.

(** Everything stops while the store works: the event is in the store, and the
    flow never hears of it. *)
Example stored_unanswered :
  exists s, lrun ex_queue (Z.eqb 5) (local_limit 2) (ex_write 0 ++ [LSettle 0 Inserted; LStop; LGiveUp 0]) newLocal = Some s /\
    lo_log s = [Began 0; Settled 0 Inserted; Finished 0 GaveUp].
Proof. eexists. split; [vm_compute; reflexivity|]. by vm_compute. Qed.

(** And a deletion read after an event whose write was given up can reach the
    store before it. *)
Example shutdown_unordered :
  exists s, lrun ex_queue (Z.eqb 5) (local_limit 2)
      (ex_write 0 ++ [LStop; LGiveUp 0] ++ ex_write 1 ++ [LSettle 1 Inserted; LSettle 0 Inserted]) newLocal = Some s /\
    omap settled_of (lo_log s) = [1; 0].
Proof. eexists. split; [vm_compute; reflexivity|]. by vm_compute. Qed.
