(* ===== verification/ClientRecovery.v ===== *)
(** * Trying refused events again

    Models [src/client/recovery.go]: events a stream could not deliver are kept in
    a store with a record of the attempts, and a background loop publishes them
    again, a goroutine per destination, with a growing delay and a bounded number
    of attempts.  The event store, the metadata bucket's transactions and the
    relays are given by their outcomes; reading the bucket does not fail.  An
    [happening] is one request saved, one pass begun or one entry of a
    destination tried, so the destinations and the saving goroutine interleave
    freely.  [recovery_kept] is the invariant of what is kept, and
    [recovery_pass] says what a pass does to each entry. *)
From S2P Require Import Prelude GoTime GoStrings Nostr.
From stdpp Require Import options.

Local Open Scope Z_scope.

(** The event is kept as its id. *)
Record RetryMeta := mkRetryMeta {
  rm_EventID : string;
  rm_Destination : string;
  rm_Attempts : Z;
  rm_LastAttempt : Z;
  rm_NextRetry : Z;
  rm_FailReason : string;
}.

#[export] Instance RetryMeta_eq_dec : EqDecision RetryMeta.
Proof. solve_decision. Defined.

Record saveRequest := mkSaveRequest { sr_event : Event; sr_destination : string; sr_reason : string }.

Definition saveQueueSize : Z := 10240.

(** [RecoveryManager]: the event store, the metadata bucket by key, the queue. *)
Record recovery := mkRecovery {
  rc_events : gmap string Event;
  rc_meta : gmap string RetryMeta;
  rc_saveQueue : list saveRequest;
}.

Definition emptyRecovery : recovery := mkRecovery ∅ ∅ [].

Definition meta_key (id destination : string) : string := id ++ ":" ++ destination.
Definition key_of (m : RetryMeta) : string := meta_key (rm_EventID m) (rm_Destination m).

(** ** Saving *)

(** [SaveFailedEvent]; [false] is its error, a full queue. *)
Definition SaveFailedEvent (r : saveRequest) (s : recovery) : bool * recovery :=
  if Z.of_nat (length (rc_saveQueue s)) <? saveQueueSize
  then (true, mkRecovery (rc_events s) (rc_meta s) (rc_saveQueue s ++ [r])) else (false, s).

(** [saveMeta] and [deleteMeta]; [ok] says whether the transaction commits. *)
Definition saveMeta (ok : bool) (m : RetryMeta) (s : recovery) : recovery :=
  if ok then mkRecovery (rc_events s) (<[key_of m := m]> (rc_meta s)) (rc_saveQueue s) else s.

Definition deleteMeta (ok : bool) (id destination : string) (s : recovery) : recovery :=
  if ok then mkRecovery (rc_events s) (delete (meta_key id destination) (rc_meta s)) (rc_saveQueue s) else s.

(** How inserting into the store ends; the store may remove other events with it
    (those it replaces or deletes). *)
Inductive inserted := InsCompleted (removed : gset string) | InsDuplicated | InsFailed | InsTimeout.

Definition store_insert (removed : gset string) (ev : Event) (events : gmap string Event) : gmap string Event :=
  filter (fun ie => ie.1 ∉ removed) (<[ev_ID ev := ev]> events).

(** What a destination answers to an entry: the context ended before, whether the
    event can be read, the publishing's error, whether the context ended with it,
    and whether the transaction that follows commits. *)
Record answer := mkAnswer {
  an_ended : bool;
  an_readable : bool;
  an_error : option string;
  an_endedWith : bool;
  an_commits : bool;
  an_now1 : Z;
  an_now2 : Z;
}.

(** How [getConnection] ends. *)
Inductive connection := Connected | NotConnected (reason : string) | InvalidURL.

#[export] Instance connection_eq_dec : EqDecision connection.
Proof. solve_decision. Defined.

(** [findEvent] *)
Definition findEvent (events : gmap string Event) (a : answer) (id : string) : option Event :=
  if an_readable a then events !! id else None.

Section Recovery.
Context (maxRetries retryInterval : Z).

(** [saveEventSync]; a duplicate is in the store already. *)
Definition saveEventSync (o : inserted) (ok : bool) (now1 now2 : Z) (r : saveRequest) (s : recovery) : recovery :=
  let ev := sr_event r in
  let m := mkRetryMeta (ev_ID ev) (sr_destination r) 0 now1 (Time_Add now2 retryInterval) (sr_reason r) in
  match o with
  | InsCompleted removed => saveMeta ok m (mkRecovery (store_insert removed ev (rc_events s)) (rc_meta s) (rc_saveQueue s))
  | InsDuplicated => saveMeta ok m s
  | InsFailed | InsTimeout => s
  end.

(** One request of [saveWorker] or [drainSaveQueue]. *)
Definition save_next (o : inserted) (ok : bool) (now1 now2 : Z) (s : recovery) : option recovery :=
  match rc_saveQueue s with
  | [] => None
  | r :: q => Some (saveEventSync o ok now1 now2 r (mkRecovery (rc_events s) (rc_meta s) q))
  end.

(** ** A pass *)

(** [collectPending] *)
Definition collectPending (force : bool) (now : Z) (s : recovery) : list RetryMeta :=
  filter (fun m => force || Time_After now (rm_NextRetry m) = true) (map_to_list (rc_meta s)).*2.

(** [handleRetryFailure] *)
Definition handleRetryFailure (ok : bool) (now1 now2 : Z) (reason : string) (m : RetryMeta) (s : recovery) : recovery :=
  let attempts := rm_Attempts m + 1 in
  if maxRetries <=? attempts then deleteMeta ok (rm_EventID m) (rm_Destination m) s
  else saveMeta ok (mkRetryMeta (rm_EventID m) (rm_Destination m) attempts now1
                      (Time_Add now2 (wrap64 (retryInterval * attempts))) reason) s.

(** [processBatch] on an entry: whether it was published, and the state; [None]
    ends the batch. *)
Definition try_entry (c : connection) (a : answer) (m : RetryMeta) (s : recovery) : option (bool * recovery) :=
  match c with
  | InvalidURL => Some (false, deleteMeta (an_commits a) (rm_EventID m) (rm_Destination m) s)
  | NotConnected reason => Some (false, handleRetryFailure (an_commits a) (an_now1 a) (an_now2 a) reason m s)
  | Connected =>
      if an_ended a then None
      else match findEvent (rc_events s) a (rm_EventID m) with
           | None => Some (false, deleteMeta (an_commits a) (rm_EventID m) (rm_Destination m) s)
           | Some _ =>
               match an_error a with
               | Some reason =>
                   if an_endedWith a then None
                   else Some (false, handleRetryFailure (an_commits a) (an_now1 a) (an_now2 a) reason m s)
               | None => Some (true, deleteMeta (an_commits a) (rm_EventID m) (rm_Destination m) s)
               end
           end
  end.

(** The groups of [retryBatchGroups]. *)
Fixpoint retryGroups (metas : list RetryMeta) : gmap string (list RetryMeta) :=
  match metas with
  | [] => ∅
  | m :: metas =>
      let groups := retryGroups metas in
      <[rm_Destination m := m :: default [] (groups !! rm_Destination m)]> groups
  end.

(** ** The manager at work *)

(** The goroutines of a pass: what is left for each destination, with its
    connection; and what was published. *)
Record manager := mkManager {
  mg_recovery : recovery;
  mg_batches : gmap string (connection * list RetryMeta);
  mg_published : list RetryMeta;
}.

Definition newManager : manager := mkManager emptyRecovery ∅ [].

Inductive happening :=
| HFail (r : saveRequest)
| HSave (o : inserted) (ok : bool) (now1 now2 : Z)
| HPass (force : bool) (now : Z) (conns : string -> connection)
| HEntry (destination : string) (answers : RetryMeta -> answer).

(** [retryBatchGroups], up to its [Wait]. *)
Definition start_pass (metas : list RetryMeta) (conns : string -> connection) (g : manager) : manager :=
  mkManager (mg_recovery g) (map_imap (fun d l => Some (conns d, l)) (retryGroups metas)) [].

(** The next entry of a destination. *)
Definition step_batch (d : string) (answers : RetryMeta -> answer) (g : manager) : option manager :=
  match mg_batches g !! d with
  | Some (c, m :: rest) =>
      Some (match try_entry c (answers m) m (mg_recovery g) with
            | None => mkManager (mg_recovery g) (delete d (mg_batches g)) (mg_published g)
            | Some (published, s) =>
                mkManager s (match rest with [] => delete d (mg_batches g) | _ => <[d := (c, rest)]> (mg_batches g) end)
                  (if published then mg_published g ++ [m] else mg_published g)
            end)
  | _ => None
  end.

Definition mstep (h : happening) (g : manager) : option manager :=
  match h with
  | HFail r => Some (mkManager (SaveFailedEvent r (mg_recovery g)).2 (mg_batches g) (mg_published g))
  | HSave o ok now1 now2 => s ← save_next o ok now1 now2 (mg_recovery g); Some (mkManager s (mg_batches g) (mg_published g))
  | HPass force now conns =>
      if bool_decide (mg_batches g = ∅) then Some (start_pass (collectPending force now (mg_recovery g)) conns g) else None
  | HEntry d answers => step_batch d answers g
  end.

Fixpoint mrun (l : list happening) (g : manager) : option manager :=
  match l with
  | [] => Some g
  | h :: l => g ← mstep h g; mrun l g
  end.

(** A pass as its goroutines interleave. *)
Fixpoint schedule (answers : RetryMeta -> answer) (l : list string) (g : manager) : option manager :=
  match l with
  | [] => Some g
  | d :: l => g ← step_batch d answers g; schedule answers l g
  end.

(** ** What is kept *)

Definition in_limit (m : RetryMeta) : Prop := 0 <= rm_Attempts m < Z.max 1 maxRetries.

Record kept (g : manager) : Prop := {
  kp_meta : forall k m, rc_meta (mg_recovery g) !! k = Some m -> k = key_of m /\ in_limit m;
  kp_batch : forall d c l, mg_batches g !! d = Some (c, l) -> Forall in_limit l;
}.

Definition meta_kept (s : recovery) : Prop := forall k m, rc_meta s !! k = Some m -> k = key_of m /\ in_limit m.

Lemma saveMeta_kept ok m s : in_limit m -> meta_kept s -> meta_kept (saveMeta ok m s).
Proof.
  intros Hm HK. destruct ok; [|done]. intros k m'. cbn. intros [[<- <-]|[_ H]]%lookup_insert_Some; [done|by apply HK].
Qed.

Lemma deleteMeta_kept ok id d s : meta_kept s -> meta_kept (deleteMeta ok id d s).
Proof. intros HK. destruct ok; [|done]. intros k m. cbn. intros [_ H]%lookup_delete_Some. by apply HK. Qed.

Lemma handleRetryFailure_kept ok now1 now2 reason m s : in_limit m -> meta_kept s -> meta_kept (handleRetryFailure ok now1 now2 reason m s).
Proof.
  intros Hm HK. unfold handleRetryFailure. destruct (Z.leb_spec maxRetries (rm_Attempts m + 1)); [by apply deleteMeta_kept|].
  apply saveMeta_kept; [|done]. unfold in_limit in *. cbn. lia.
Qed.

Lemma try_entry_kept c a m s p s' : in_limit m -> meta_kept s -> try_entry c a m s = Some (p, s') -> meta_kept s'.
Proof.
  intros Hm HK. unfold try_entry. destruct c as [|reason|]; [|intros [= <- <-]; by apply handleRetryFailure_kept|intros [= <- <-]; by apply deleteMeta_kept].
  destruct (an_ended a); [done|]. destruct (findEvent _ _ _); [|intros [= <- <-]; by apply deleteMeta_kept].
  destruct (an_error a); [|intros [= <- <-]; by apply deleteMeta_kept]. destruct (an_endedWith a); [done|].
  intros [= <- <-]. by apply handleRetryFailure_kept.
Qed.

Lemma retryGroups_in metas d l m : retryGroups metas !! d = Some l -> m ∈ l -> m ∈ metas.
Proof.
  revert l. induction metas as [|x metas IH]; intros l; cbn; [done|]. intros [[<- <-]|[_ H]]%lookup_insert_Some.
  - intros [->|Hm]%elem_of_cons; [by left|]. destruct (retryGroups metas !! rm_Destination x) as [l|] eqn:El; [|by apply elem_of_nil in Hm].
    right. by apply (IH l).
  - intros Hm. right. by apply (IH l).
Qed.

Lemma collected_meta s force now m : meta_kept s -> m ∈ collectPending force now s <->
  (rc_meta s !! key_of m = Some m /\ (force || Time_After now (rm_NextRetry m)) = true).
Proof.
  intros HK. unfold collectPending. rewrite list_elem_of_filter, list_elem_of_fmap. split.
  - intros [Hd ([k m'] & -> & Hm%elem_of_map_to_list)]. destruct (HK _ _ Hm) as (-> & _). done.
  - intros [Hm Hd]. split; [done|]. exists (key_of m, m). split; [done|]. by apply elem_of_map_to_list.
Qed.

Lemma start_pass_batch metas conns g d c l :
  mg_batches (start_pass metas conns g) !! d = Some (c, l) <-> c = conns d /\ retryGroups metas !! d = Some l.
Proof.
  cbn. rewrite map_lookup_imap. destruct (retryGroups metas !! d) as [l'|]; cbn; [|naive_solver]. naive_solver.
Qed.

Lemma mstep_kept h g g' : kept g -> mstep h g = Some g' -> kept g'.
Proof.
  intros [HK HB]. destruct h as [r|o ok now1 now2|force now conns|d answers]; cbn [mstep].
  - intros [= <-]. split; [|done]. unfold SaveFailedEvent. destruct (_ <? _); cbn; apply HK.
  - unfold save_next. destruct (rc_saveQueue (mg_recovery g)) as [|r q]; [done|]. cbn. intros [= <-]. split; [|done]. unfold saveEventSync.
    assert (forall events m, rm_Attempts m = 0 -> meta_kept (saveMeta ok m (mkRecovery events (rc_meta (mg_recovery g)) q))) as HS.
    { intros events m Hm. apply saveMeta_kept; [unfold in_limit; lia|]. exact HK. }
    destruct o; cbn; (apply HS; done) || exact HK.
  - case_bool_decide; [|done]. intros [= <-]. split; [exact HK|]. intros d c l [-> Hl]%start_pass_batch. apply Forall_forall. intros m Hm.
    apply (retryGroups_in _ _ _ _ Hl), collected_meta in Hm as [Hm _]; [|exact HK]. by apply (HK _ _ Hm).
  - unfold step_batch. destruct (mg_batches g !! d) as [[c [|m rest]]|] eqn:Ed; [done| |done]. intros [= <-].
    pose proof (HB _ _ _ Ed) as [Hm Hrest]%Forall_cons.
    destruct (try_entry c (answers m) m (mg_recovery g)) as [[p s']|] eqn:Et; cbn.
    + split; cbn; [by apply (try_entry_kept _ _ _ _ _ _ Hm HK Et)|]. intros d' c' l'.
      destruct rest as [|m' rest]; [intros [_ H]%lookup_delete_Some; by apply (HB _ _ _ H)|].
      intros [[<- [= <- <-]]|[_ H]]%lookup_insert_Some; [done|by apply (HB _ _ _ H)].
    + split; cbn; [exact HK|]. intros d' c' l' [_ H]%lookup_delete_Some. by apply (HB _ _ _ H).
Qed.

Lemma mrun_kept l g g' : kept g -> mrun l g = Some g' -> kept g'.
Proof.
  revert g. induction l as [|h l IH]; intros g HK; cbn [mrun]; [by intros [= <-]|].
  destruct (mstep h g) as [g1|] eqn:E; [|done]. apply IH. by apply (mstep_kept h g).
Qed.

(** ** The fate of an entry *)

(** Whether an entry is dealt with; otherwise the context ended, and the batch
    with it. *)
Definition goes_on (events : gmap string Event) (c : connection) (a : answer) (m : RetryMeta) : bool :=
  match c with
  | Connected =>
      negb (an_ended a) &&
      negb (match findEvent events a (rm_EventID m), an_error a with Some _, Some _ => an_endedWith a | _, _ => false end)
  | _ => true
  end.

(** Whether its relay accepted it. *)
Definition accepted (events : gmap string Event) (c : connection) (a : answer) (m : RetryMeta) : bool :=
  match c, findEvent events a (rm_EventID m), an_error a with Connected, Some _, None => true | _, _, _ => false end.

(** What an attempt leaves of it. *)
Definition after_failure (a : answer) (reason : string) (m : RetryMeta) : option RetryMeta :=
  let attempts := rm_Attempts m + 1 in
  if maxRetries <=? attempts then None
  else Some (mkRetryMeta (rm_EventID m) (rm_Destination m) attempts (an_now1 a)
               (Time_Add (an_now2 a) (wrap64 (retryInterval * attempts))) reason).

Definition fate (events : gmap string Event) (c : connection) (a : answer) (m : RetryMeta) : option RetryMeta :=
  if negb (an_commits a) then Some m else
  match c with
  | InvalidURL => None
  | NotConnected reason => after_failure a reason m
  | Connected =>
      match findEvent events a (rm_EventID m), an_error a with
      | Some _, Some reason => after_failure a reason m
      | _, _ => None
      end
  end.

Definition settle (o : option RetryMeta) (m : RetryMeta) (s : recovery) : recovery :=
  mkRecovery (rc_events s) (partial_alter (fun _ => o) (key_of m) (rc_meta s)) (rc_saveQueue s).

Lemma settle_same m s : rc_meta s !! key_of m = Some m -> settle (Some m) m s = s.
Proof.
  intros Hm. unfold settle. destruct s as [e ms q]. cbn in *. f_equal. apply map_eq. intros k.
  destruct (decide (k = key_of m)) as [->|]; [by rewrite lookup_partial_alter_eq|by rewrite lookup_partial_alter_ne].
Qed.

Lemma deleteMeta_settle ok m s :
  rc_meta s !! key_of m = Some m -> deleteMeta ok (rm_EventID m) (rm_Destination m) s = settle (if negb ok then Some m else None) m s.
Proof. intros Hm. destruct ok; [done|]. cbn [negb]. by rewrite settle_same. Qed.

Lemma handleRetryFailure_settle a reason m s :
  rc_meta s !! key_of m = Some m ->
  handleRetryFailure (an_commits a) (an_now1 a) (an_now2 a) reason m s
  = settle (if negb (an_commits a) then Some m else after_failure a reason m) m s.
Proof.
  intros Hm. unfold handleRetryFailure, after_failure. destruct (maxRetries <=? rm_Attempts m + 1).
  - rewrite deleteMeta_settle by done. by destruct (an_commits a).
  - destruct (an_commits a); cbn [saveMeta negb]; [|by rewrite settle_same]. unfold settle. f_equal.
Qed.

Lemma try_entry_fate c a m s :
  rc_meta s !! key_of m = Some m ->
  try_entry c a m s
  = if goes_on (rc_events s) c a m then Some (accepted (rc_events s) c a m, settle (fate (rc_events s) c a m) m s) else None.
Proof.
  intros Hm. unfold try_entry, goes_on, accepted, fate. destruct c as [|reason|].
  - destruct (an_ended a); [done|]. cbn [negb andb]. destruct (findEvent _ _ _); [|by rewrite deleteMeta_settle].
    destruct (an_error a); [|by rewrite deleteMeta_settle]. destruct (an_endedWith a); [done|]. by rewrite handleRetryFailure_settle.
  - by rewrite handleRetryFailure_settle.
  - by rewrite deleteMeta_settle.
Qed.

(** ** Groups *)

Definition group (destination : string) (metas : list RetryMeta) : list RetryMeta :=
  filter (fun m => rm_Destination m = destination) metas.

Lemma elem_of_group d metas m : m ∈ group d metas <-> m ∈ metas /\ rm_Destination m = d.
Proof. unfold group. rewrite list_elem_of_filter. tauto. Qed.

Lemma retryGroups_group metas d :
  retryGroups metas !! d = match group d metas with [] => None | l => Some l end.
Proof.
  induction metas as [|m metas IH]; [done|]. cbn [retryGroups]. unfold group. rewrite filter_cons. fold (group d metas). case_decide as Hd.
  - rewrite Hd, lookup_insert_eq, IH. by destruct (group d metas).
  - by rewrite lookup_insert_ne.
Qed.

Lemma collected_nodup s force now : meta_kept s -> NoDup (key_of <$> collectPending force now s).
Proof.
  intros HK. unfold collectPending. assert (NoDup (key_of <$> (map_to_list (rc_meta s)).*2)) as Hn.
  { replace (key_of <$> (map_to_list (rc_meta s)).*2) with (map_to_list (rc_meta s)).*1; [apply NoDup_fst_map_to_list|].
    rewrite <- list_fmap_compose. apply list_fmap_ext. intros i [k m] Hi%list_elem_of_lookup_2%elem_of_map_to_list.
    destruct (HK _ _ Hi) as (-> & _). done. }
  eapply sublist_NoDup; [exact Hn|]. apply fmap_sublist, sublist_filter.
Qed.

Lemma key_inj m m' metas : NoDup (key_of <$> metas) -> m ∈ metas -> m' ∈ metas -> key_of m = key_of m' -> m = m'.
Proof.
  intros Hn (i & Hi)%list_elem_of_lookup (j & Hj)%list_elem_of_lookup E.
  assert (i = j) as ->; [|congruence]. eapply NoDup_lookup; [exact Hn|by rewrite list_lookup_fmap, Hi|by rewrite list_lookup_fmap, Hj, E].
Qed.

(** ** A pass, however its goroutines interleave *)

Section Pass.
Context (s0 : recovery) (metas : list RetryMeta) (conns : string -> connection) (answers : RetryMeta -> answer).
Context (Hkeys : NoDup (key_of <$> metas)) (Hmeta : forall m, m ∈ metas -> rc_meta s0 !! key_of m = Some m).

Definition on (m : RetryMeta) : bool := goes_on (rc_events s0) (conns (rm_Destination m)) (answers m) m.
Definition leaves (m : RetryMeta) : option RetryMeta := fate (rc_events s0) (conns (rm_Destination m)) (answers m) m.
Definition heeded (m : RetryMeta) : bool := accepted (rc_events s0) (conns (rm_Destination m)) (answers m) m.

(** A destination's entries so far, and those that remain. *)
Record progress (d : string) (past rest : list RetryMeta) (g : manager) : Prop := {
  pg_split : group d metas = past ++ rest;
  pg_past : Forall (fun m => on m = true /\ rc_meta (mg_recovery g) !! key_of m = leaves m) past;
  pg_rest : Forall (fun m => rc_meta (mg_recovery g) !! key_of m = Some m) rest;
  pg_batch : match mg_batches g !! d with
             | Some (c, l) => c = conns d /\ l = rest /\ rest <> []
             | None => match rest with [] => True | m :: _ => on m = false end
             end;
  pg_published : forall m, rm_Destination m = d -> m ∈ mg_published g <-> m ∈ past /\ heeded m = true;
}.

Record passing (g : manager) : Prop := {
  pa_events : rc_events (mg_recovery g) = rc_events s0;
  pa_queue : rc_saveQueue (mg_recovery g) = rc_saveQueue s0;
  pa_progress : forall d, exists past rest, progress d past rest g;
  pa_other : forall k, (forall m, m ∈ metas -> key_of m <> k) -> rc_meta (mg_recovery g) !! k = rc_meta s0 !! k;
}.

Lemma progress_in d past rest g m : progress d past rest g -> m ∈ past \/ m ∈ rest -> m ∈ metas /\ rm_Destination m = d.
Proof. intros HP H. apply elem_of_group. rewrite (pg_split _ _ _ _ HP), elem_of_app. tauto. Qed.

(** Another destination's step. *)
Lemma progress_other d past rest g g' x :
  progress d past rest g -> x ∈ metas -> rm_Destination x <> d ->
  (forall k, k <> key_of x -> rc_meta (mg_recovery g') !! k = rc_meta (mg_recovery g) !! k) ->
  mg_batches g' !! d = mg_batches g !! d -> (forall m, m ∈ mg_published g' <-> m ∈ mg_published g \/ (m = x /\ m ∈ mg_published g')) ->
  progress d past rest g'.
Proof using Hkeys.
  intros HP Hx Hd Hm Hb Hp. assert (forall m, m ∈ past \/ m ∈ rest -> rc_meta (mg_recovery g') !! key_of m = rc_meta (mg_recovery g) !! key_of m) as Hsame.
  { intros m [Hin Hmd]%(progress_in _ _ _ _ _ HP). apply Hm. intros E. apply Hd. by rewrite <- (key_inj m x metas). }
  split.
  - apply HP.
  - apply Forall_forall. intros m Hin. rewrite Hsame by tauto. by apply (proj1 (Forall_forall _ _) (pg_past _ _ _ _ HP)).
  - apply Forall_forall. intros m Hin. rewrite Hsame by tauto. by apply (proj1 (Forall_forall _ _) (pg_rest _ _ _ _ HP)).
  - rewrite Hb. apply HP.
  - intros m Hmd. rewrite <- (pg_published _ _ _ _ HP m Hmd), Hp. split; [|tauto]. intros [H|[-> _]]; [done|by destruct Hd].
Qed.

Lemma passing_start g : mg_recovery g = s0 -> passing (start_pass metas conns g).
Proof using Hmeta.
  intros E. split; cbn; rewrite ?E; try done. intros d. exists [], (group d metas). split.
  - done.
  - constructor.
  - apply Forall_forall. cbn. rewrite E. intros m [Hm _]%elem_of_group. by apply Hmeta.
  - cbn. rewrite map_lookup_imap, retryGroups_group. by destruct (group d metas).
  - intros m _. cbn. rewrite !elem_of_nil. tauto.
Qed.

Lemma settle_lookup o m s k : k <> key_of m -> rc_meta (settle o m s) !! k = rc_meta s !! k.
Proof. intros Hk. cbn. by rewrite lookup_partial_alter_ne. Qed.

(** A destination's own step on an entry that is dealt with. *)
Lemma progress_entry d past m rest g :
  progress d past (m :: rest) g -> on m = true ->
  progress d (past ++ [m]) rest
    (mkManager (settle (leaves m) m (mg_recovery g)) (match rest with [] => delete d (mg_batches g) | _ => <[d := (conns d, rest)]> (mg_batches g) end)
       (if heeded m then mg_published g ++ [m] else mg_published g)).
Proof using Hkeys.
  intros HP Hon. pose proof (progress_in _ _ _ _ m HP ltac:(right; by left)) as [Hm Hd].
  assert (NoDup (past ++ m :: rest)) as Hn.
  { rewrite <- (pg_split _ _ _ _ HP). apply NoDup_filter. by eapply NoDup_fmap_1. }
  apply NoDup_app in Hn as (_ & Hpast & [Hrest _]%NoDup_cons).
  assert (forall x, x ∈ past \/ x ∈ rest -> key_of x <> key_of m) as Hne.
  { intros x Hx E. pose proof (progress_in _ _ _ _ x HP ltac:(destruct Hx; [by left|right; by right])) as [Hxm _].
    rewrite (key_inj x m metas) in Hx by done. destruct Hx as [Hx|Hx]; [apply (Hpast m Hx); by left|done]. }
  destruct HP as [H1 H2 H3 H4 H5]. rewrite Forall_cons in H3. split; cbn -[settle].
  - by rewrite H1, <- app_assoc.
  - apply Forall_app. split; [|apply Forall_singleton; split; [done|]; cbn; by rewrite lookup_partial_alter_eq].
    apply Forall_forall. intros x Hx. rewrite settle_lookup by auto. by apply (proj1 (Forall_forall _ _) H2).
  - apply Forall_forall. intros x Hx. rewrite settle_lookup by auto. by apply (proj1 (Forall_forall _ _) (proj2 H3)).
  - destruct rest; [by rewrite lookup_delete_eq|by rewrite lookup_insert_eq].
  - intros x Hx. rewrite elem_of_app, list_elem_of_singleton. specialize (H5 x Hx).
    destruct (heeded m) eqn:Es; [rewrite elem_of_app, list_elem_of_singleton|]; rewrite H5; [naive_solver|]. split; [tauto|].
    intros [[Hin| ->] Hs]; [done|congruence].
Qed.

Lemma step_passing d g g' : passing g -> step_batch d answers g = Some g' -> passing g'.
Proof using Hkeys.
  intros [He Hq HP Ho]. unfold step_batch. destruct (HP d) as (past & rest & Hd). pose proof (pg_batch _ _ _ _ Hd) as Hb.
  destruct (mg_batches g !! d) as [[c l]|] eqn:Ed; [|done]. destruct Hb as (-> & -> & _). destruct rest as [|m rest]; [done|]. intros [= <-].
  pose proof (progress_in _ _ _ _ m Hd ltac:(right; by left)) as [Hm Hmd]. pose proof (pg_rest _ _ _ _ Hd) as [Hmm _]%Forall_cons.
  rewrite try_entry_fate by done. rewrite He. subst d. fold (on m) (heeded m) (leaves m). destruct (on m) eqn:Eon.
  - split; [done|done| |].
    + intros d'. destruct (decide (rm_Destination m = d')) as [<-|Hne]; [eexists _, _; by apply progress_entry|].
      destruct (HP d') as (past' & rest' & Hd'). exists past', rest'. apply (progress_other _ _ _ _ _ m Hd'); [done|done| | |].
      * intros k Hk. by apply settle_lookup.
      * cbn. destruct rest; [by rewrite lookup_delete_ne|by rewrite lookup_insert_ne].
      * intros x. cbn. destruct (heeded m); [|tauto]. rewrite elem_of_app, list_elem_of_singleton. tauto.
    + intros k Hk. cbn -[settle]. rewrite settle_lookup; [by apply Ho|]. intros ->. by apply (Hk m).
  - split; [done|done| |done]. intros d'. destruct (decide (rm_Destination m = d')) as [<-|Hne].
    + exists past, (m :: rest). destruct Hd as [D1 D2 D3 D4 D5]. split; [done|done|done| |done]. cbn. by rewrite lookup_delete_eq.
    + destruct (HP d') as (past' & rest' & Hd'). exists past', rest'. apply (progress_other _ _ _ _ _ m Hd'); [done|done|done| |tauto].
      cbn. by rewrite lookup_delete_ne.
Qed.

Lemma schedule_passing l g g' : passing g -> schedule answers l g = Some g' -> passing g'.
Proof using Hkeys.
  revert g. induction l as [|d l IH]; intros g HP; cbn [schedule]; [by intros [= <-]|].
  destruct (step_batch d answers g) as [g1|] eqn:E; [|done]. apply IH. by apply (step_passing d g).
Qed.

(** The entries of a destination that are dealt with: those before the end of the
    context. *)
Fixpoint before_end (l : list RetryMeta) : list RetryMeta :=
  match l with
  | [] => []
  | m :: l => if on m then m :: before_end l else []
  end.

Lemma before_end_app past rest :
  Forall (fun m => on m = true) past -> match rest with [] => True | m :: _ => on m = false end -> before_end (past ++ rest) = past.
Proof using Type.
  intros HF Hr. induction HF as [|m past Hm HF IH]; cbn; [|by rewrite Hm, IH]. destruct rest as [|m rest]; [done|]. cbn. by rewrite Hr.
Qed.

Lemma before_end_due d m : m ∈ before_end (group d metas) -> m ∈ metas.
Proof using Type.
  intros Hin. apply (elem_of_group d). revert Hin. generalize (group d metas). intros l. induction l as [|x l IH]; cbn; [done|].
  destruct (on x); rewrite ?elem_of_nil; [|tauto]. rewrite !elem_of_cons. tauto.
Qed.

Lemma passing_done g m :
  passing g -> mg_batches g = ∅ -> m ∈ metas ->
  (m ∈ before_end (group (rm_Destination m) metas) -> rc_meta (mg_recovery g) !! key_of m = leaves m) /\
  (m ∉ before_end (group (rm_Destination m) metas) -> rc_meta (mg_recovery g) !! key_of m = Some m) /\
  (m ∈ mg_published g <-> m ∈ before_end (group (rm_Destination m) metas) /\ heeded m = true).
Proof using Type.
  intros HP Hb Hm. destruct (pa_progress _ HP (rm_Destination m)) as (past & rest & [H1 H2 H3 H4 H5]). rewrite Hb, lookup_empty in H4.
  assert (before_end (group (rm_Destination m) metas) = past) as E.
  { rewrite H1. apply before_end_app; [|done]. eapply Forall_impl; [exact H2|]. by intros x []. }
  rewrite E. split_and!.
  - intros Hin. by apply (proj1 (Forall_forall _ _) H2).
  - intros Hno. apply (proj1 (Forall_forall _ _) H3). assert (m ∈ group (rm_Destination m) metas) as Hg by (by apply elem_of_group).
    rewrite H1, elem_of_app in Hg. by destruct Hg.
  - by apply H5.
Qed.

End Pass.

(** Each step of a pass deals with an entry, so a pass ends. *)
Definition remaining (g : manager) : nat := map_fold (fun _ b n => length b.2 + n)%nat O (mg_batches g).

Lemma remaining_insert d (b : connection * list RetryMeta) (bs : gmap string (connection * list RetryMeta)) :
  bs !! d = None -> map_fold (fun _ b n => length b.2 + n)%nat O (<[d := b]> bs) = (length b.2 + map_fold (fun _ b n => length b.2 + n)%nat O bs)%nat.
Proof. intros Hd. rewrite map_fold_insert_L; [done| |done]. intros. lia. Qed.

Lemma step_remaining d answers g g' : step_batch d answers g = Some g' -> (remaining g' < remaining g)%nat.
Proof.
  unfold step_batch, remaining. destruct (mg_batches g !! d) as [[c [|m rest]]|] eqn:Ed; [done| |done]. intros [= <-].
  rewrite <- (insert_delete_id (mg_batches g) d (c, m :: rest)) by done.
  rewrite (remaining_insert d (c, m :: rest)) by apply lookup_delete_eq. cbn [snd length].
  destruct (try_entry c (answers m) m (mg_recovery g)) as [[p s]|]; cbn [mg_batches].
  - destruct rest as [|m' rest]; rewrite ?delete_insert_eq, ?insert_insert_eq.
    + rewrite delete_id by apply lookup_delete_eq. lia.
    + rewrite remaining_insert by apply lookup_delete_eq. cbn [snd length]. lia.
  - rewrite delete_insert_eq, delete_id by apply lookup_delete_eq. lia.
Qed.

Lemma schedule_remaining answers l g g' : schedule answers l g = Some g' -> (length l + remaining g' <= remaining g)%nat.
Proof.
  revert g. induction l as [|d l IH]; intros g; cbn; [intros [= <-]; lia|]. destruct (step_batch d answers g) as [g1|] eqn:E; [|done].
  intros H%IH. apply step_remaining in E. lia.
Qed.

Lemma remaining_start metas conns g : remaining (start_pass metas conns g) = length metas.
Proof.
  unfold remaining. cbn. induction metas as [|m metas IH]; cbn; [by rewrite map_imap_empty|].
  rewrite map_imap_insert. cbn. set (bs := map_imap _ (retryGroups metas)) in *. set (d := rm_Destination m) in *.
  assert (bs !! d = (fun l => (conns d, l)) <$> retryGroups metas !! d) as Hd by (unfold bs; rewrite map_lookup_imap; by destruct (retryGroups metas !! d)).
  rewrite <- insert_delete_eq, remaining_insert by apply lookup_delete_eq. rewrite <- IH. cbn [snd length]. f_equal.
  destruct (retryGroups metas !! d) as [l|] eqn:El; cbn in *; [|by rewrite delete_id].
  rewrite <- (insert_delete_id bs d (conns d, l)) at 2 by done. by rewrite remaining_insert by apply lookup_delete_eq.
Qed.

(** While something remains, a destination can go on. *)
Definition nonempty (g : manager) : Prop := forall d c l, mg_batches g !! d = Some (c, l) -> l <> [].

Lemma step_nonempty d answers g g' : nonempty g -> step_batch d answers g = Some g' -> nonempty g'.
Proof.
  intros HN. unfold step_batch. destruct (mg_batches g !! d) as [[c [|m rest]]|] eqn:Ed; [done| |done]. intros [= <-].
  destruct (try_entry c (answers m) m (mg_recovery g)) as [[p s]|]; intros d' c' l'; cbn [mg_batches].
  - destruct rest as [|m' rest]; [intros [_ H]%lookup_delete_Some; by apply (HN _ _ _ H)|].
    intros [[_ [= <- <-]]|[_ H]]%lookup_insert_Some; [done|by apply (HN _ _ _ H)].
  - intros [_ H]%lookup_delete_Some. by apply (HN _ _ _ H).
Qed.

Lemma start_nonempty metas conns g : nonempty (start_pass metas conns g).
Proof. intros d c l [_ Hl]%start_pass_batch. rewrite retryGroups_group in Hl. by destruct (group d metas); simplify_eq. Qed.

Lemma schedule_nonempty answers l g g' : nonempty g -> schedule answers l g = Some g' -> nonempty g'.
Proof.
  revert g. induction l as [|d l IH]; intros g HN; cbn; [by intros [= <-]|]. destruct (step_batch d answers g) as [g1|] eqn:E; [|done].
  apply IH. by apply (step_nonempty d answers g).
Qed.

Lemma nonempty_steps answers g : nonempty g -> mg_batches g <> ∅ -> exists d g', step_batch d answers g = Some g'.
Proof.
  intros HN (d & [c l] & Hd)%map_choose. exists d. unfold step_batch. rewrite Hd. destruct l as [|m l]; [by destruct (HN _ _ _ Hd)|]. eauto.
Qed.

End Recovery.

Lemma kept_new maxRetries : kept maxRetries newManager.
Proof. split; done. Qed.

(** Whatever is saved, tried, interrupted, replaced in the store or fails to
    commit, and however the goroutines interleave, an entry that is kept is under
    the key of its own event and destination and was tried fewer times than the
    limit; so is every entry a pass is about to try. *)
Theorem recovery_kept maxRetries retryInterval l g :
  1 <= maxRetries -> mrun maxRetries retryInterval l newManager = Some g ->
  (forall k m, rc_meta (mg_recovery g) !! k = Some m ->
     k = meta_key (rm_EventID m) (rm_Destination m) /\ 0 <= rm_Attempts m < maxRetries) /\
  (forall d c metas, mg_batches g !! d = Some (c, metas) -> Forall (fun m => 0 <= rm_Attempts m < maxRetries) metas).
Proof.
  intros Hmax [HK HB]%(mrun_kept _ _ _ _ _ (kept_new maxRetries)). unfold in_limit in *. rewrite Z.max_r in * by done.
  split; [exact HK|exact HB].
Qed.

(** C21: a pass over the due entries (all, at the end) treats each of them as its
    own destination's answers say, however the destinations' goroutines interleave:
    an entry whose event is published is removed, and so is one whose event cannot
    be read or whose destination is no URL; one that fails is kept with one more
    attempt and a longer delay, or given up at the limit; one that is not due, or
    comes after the context ended, is untouched, and no entry appears.  What is
    published is exactly the entries dealt with that their relays accepted.  Every
    pass ends, after at most a step per entry. *)
Theorem recovery_pass maxRetries retryInterval l g force now conns answers order g' :
  mrun maxRetries retryInterval l newManager = Some g ->
  let s := mg_recovery g in
  let due := collectPending force now s in
  schedule maxRetries retryInterval answers order (start_pass due conns g) = Some g' ->
  (length order <= length due)%nat /\
  (mg_batches g' <> ∅ -> exists d g'', step_batch maxRetries retryInterval d answers g' = Some g'') /\
  (mg_batches g' = ∅ ->
   (forall k, rc_meta s !! k = None -> rc_meta (mg_recovery g') !! k = None) /\
   (forall k m, rc_meta s !! k = Some m ->
      let tried := before_end s conns answers (group (rm_Destination m) due) in
      (m ∈ tried -> rc_meta (mg_recovery g') !! k = fate maxRetries retryInterval (rc_events s) (conns (rm_Destination m)) (answers m) m) /\
      (m ∉ tried -> rc_meta (mg_recovery g') !! k = Some m)) /\
   (forall m, m ∈ due -> m ∈ mg_published g' <->
      m ∈ before_end s conns answers (group (rm_Destination m) due) /\
      accepted (rc_events s) (conns (rm_Destination m)) (answers m) m = true)).
Proof.
  intros [HK _]%(mrun_kept _ _ _ _ _ (kept_new maxRetries)) s due Hs.
  assert (forall m, m ∈ due -> rc_meta s !! key_of m = Some m) as Hdue by (intros m [Hm _]%(collected_meta maxRetries); done).
  pose proof (collected_nodup maxRetries s force now HK) as Hn. fold due in Hn.
  pose proof (passing_start maxRetries retryInterval s due conns answers Hdue g eq_refl) as HP0.
  pose proof (schedule_passing maxRetries retryInterval s due conns answers Hn _ _ _ HP0 Hs) as HP.
  split_and!.
  - apply schedule_remaining in Hs. rewrite remaining_start in Hs. lia.
  - apply nonempty_steps. by apply (schedule_nonempty _ _ _ _ _ _ (start_nonempty due conns g) Hs).
  - intros Hb. split_and!.
    + intros k Hk. rewrite (pa_other _ _ _ _ _ _ _ HP); [done|]. intros m Hm <-. by rewrite Hdue in Hk.
    + intros k m Hk. destruct (HK _ _ Hk) as [-> _]. destruct (decide (m ∈ due)) as [Hm|Hm].
      * destruct (passing_done _ _ _ _ _ _ _ m HP Hb Hm) as (P1 & P2 & _). done.
      * split; [intros Hin; exfalso; apply Hm; by apply (before_end_due s due conns answers (rm_Destination m))|]. intros _.
        rewrite (pa_other _ _ _ _ _ _ _ HP); [done|]. intros x Hx E. specialize (Hdue _ Hx). rewrite E in Hdue. congruence.
    + intros m Hm. by apply (passing_done _ _ _ _ _ _ _ m HP Hb Hm).
Qed.

(** ** A run *)

Definition ex_refused (id destination : string) : saveRequest :=
  mkSaveRequest (mkEvent id "alice" 0 1 [] "" "") destination "blocked"%string.

(** Two events for two relays, and one for both. *)
Definition ex_history : list happening :=
  [HFail (ex_refused "a" "wss://x"); HFail (ex_refused "b" "wss://y"); HFail (ex_refused "a" "wss://y");
   HSave (InsCompleted ∅) true 0 0; HSave (InsCompleted ∅) true 0 0; HSave InsDuplicated true 0 0].

Definition ex_manager : manager := default newManager (mrun 10 (10 * Second) ex_history newManager).

Definition ex_meta : RetryMeta := mkRetryMeta "a" "wss://x" 0 0 (10 * Second) "blocked".

Lemma ex_manager_run : mrun 10 (10 * Second) ex_history newManager = Some ex_manager.
Proof. vm_compute. reflexivity. Qed.

Lemma recovery_kept_witness : rc_meta (mg_recovery ex_manager) !! "a:wss://x"%string = Some ex_meta /\ 0 <= rm_Attempts ex_meta < 10.
Proof.
  split; [by vm_compute|].
  apply (proj1 (recovery_kept 10 (10 * Second) ex_history ex_manager ltac:(lia) ex_manager_run) "a:wss://x"%string ex_meta). by vm_compute.
Defined.

(** At the exit, one relay cannot be reached and the other takes its first event
    before the time is up. *)
Definition ex_conns (d : string) : connection := if String.eqb d "wss://x" then NotConnected "refused" else Connected.
Definition ex_answers (m : RetryMeta) : answer :=
  mkAnswer (String.eqb (rm_EventID m) "b") true None false true 0 0.
Definition ex_order : list string := ["wss://y"; "wss://x"; "wss://y"]%string.

Definition ex_passed : manager :=
  default newManager (schedule 10 (10 * Second) ex_answers ex_order (start_pass (collectPending true 0 (mg_recovery ex_manager)) ex_conns ex_manager)).

Definition ex_published : RetryMeta := mkRetryMeta "a" "wss://y" 0 0 (10 * Second) "blocked".

Lemma recovery_pass_witness : mg_batches ex_passed = ∅ /\ ex_published ∈ mg_published ex_passed.
Proof.
  split; [by vm_compute|].
  destruct (recovery_pass 10 (10 * Second) ex_history ex_manager true 0 ex_conns ex_answers ex_order ex_passed ex_manager_run) as (_ & _ & HP);
    [vm_compute; reflexivity|].
  destruct HP as (_ & _ & HP); [vm_compute; reflexivity|]. apply HP.
  - apply (bool_decide_unpack _). by vm_compute.
  - split; [|by vm_compute]. apply (bool_decide_unpack _). by vm_compute.
Defined.

(** The exit's time is up while a relay is dialed: every entry for it is charged
    an attempt, and one that has a single attempt left is given up, although an
    interruption is meant not to be charged to the destination. *)
Lemma interrupted_dial_charged :
  let m := mkRetryMeta "a" "wss://x" 9 0 0 "blocked" in
  let s := mkRecovery {["a"%string := mkEvent "a" "alice" 0 1 [] "" ""]} {["a:wss://x"%string := m]} [] in
  try_entry 10 (10 * Second) (NotConnected "context deadline exceeded") (mkAnswer true true None true true 0 0) m s
  = Some (false, mkRecovery (rc_events s) ∅ []).
Proof. vm_compute. reflexivity. Qed.

(** An event the store fails to read once is given up, although it is there. *)
Lemma unreadable_given_up :
  let m := mkRetryMeta "a" "wss://x" 0 0 0 "blocked" in
  let s := mkRecovery {["a"%string := mkEvent "a" "alice" 0 1 [] "" ""]} {["a:wss://x"%string := m]} [] in
  try_entry 10 (10 * Second) Connected (mkAnswer false false None false true 0 0) m s = Some (false, mkRecovery (rc_events s) ∅ []).
Proof. vm_compute. reflexivity. Qed.
