(* ===== verification/ClientSync.v ===== *)
(** * Synchronising a store with a relay

    Models [src/client/neg_sync.go]: the negentropy rounds that find which events
    each side lacks ([execute]), asking the relay for the missing ones batch by
    batch ([pullEvents]) and sending it those it lacks, each batch acknowledged
    before the next ([pushEvents]).  What the connection gives is a list of
    inputs, which for a request may depend on it; an input that stays unread
    after a batch is there for the next.  A list that ends leaves the code
    waiting.  The negentropy algorithm, the proof-of-work check and the store are
    parameters; logging and the percentage it shows are left out. *)
From S2P Require Import Prelude Nostr.
From stdpp Require Import options.

(** What the relay sends; [SOther] is a notice, CLOSED or anything else. *)
Inductive reply :=
| SEvent (ev : option Event) | SEose | SOk (id : string) (accepted : bool)
| SNegMsg (hex : string) | SNegErr | SOther.

(** What a [select] on the connection may get; [ITimeout] is the timer that exists
    while acknowledgements are awaited. *)
Inductive input := IReply (r : reply) | IError | IDone | ITimeout.

(** ** Settings *)

Inductive direction := SyncBoth | SyncUp | SyncDown.

(** The defaults of [SyncSpec.UnmarshalJSON]. *)
Definition default_rounds (n : Z) : Z := if (n <=? 0)%Z then 1000 else n.
Definition default_batch (n : Z) : Z := if (n <=? 0)%Z then 100 else n.

(** ** Pulling *)

(** How [batchLoop] ends. *)
Inductive batch_end :=
| BatchServed (events : list Event) (returned : gset string) (rest : list input)
| BatchStopped (rest : list input)
| BatchWaiting.

(** How [store.InsertEvents] ends. *)
Inductive insertion := StoreInserted | StoreDuplicated | StoreFailed.

Definition counted (o : insertion) : bool := match o with StoreFailed => false | _ => true end.

Record pull := mkPull {
  pl_requests : list (list string);
  pl_stored : list (list Event * insertion);
  pl_pulled : nat;
  pl_unserved : nat;
}.

Definition newPull : pull := mkPull [] [] 0 0.

Inductive ending := Finished | Stopped | Waiting | OutOfFuel.

(** [nip13]: whether an event has a nonce tag, and whether it meets what it claims. *)
Record nip13 := mkNip13 { pw_tagged : Event -> bool; pw_ValidatePow : Event -> bool }.

Definition hasValidPow (pow : nip13) (ev : Event) : bool := negb (pw_tagged pow ev) || pw_ValidatePow pow ev.

Section Pull.
(** Whether events with a bad proof of work are dropped ([enforcePow]), the batch
    size, what comes in after the [n]-th request, and how each insertion ends. *)
Context (enforcePow : bool) (pow : nip13) (size : nat).
Context (answers : nat -> list string -> list input) (insert : nat -> insertion).

Definition wanted (ev : Event) : bool := negb (enforcePow && negb (hasValidPow pow ev)).

Fixpoint batchLoop (inputs : list input) (events : list Event) (returned : gset string) : batch_end :=
  match inputs with
  | [] => BatchWaiting
  | IError :: inputs | IDone :: inputs => BatchStopped inputs
  | ITimeout :: inputs => batchLoop inputs events returned
  | IReply r :: inputs =>
      match r with
      | SEose => BatchServed events returned inputs
      | SEvent (Some ev) =>
          batchLoop inputs (if wanted ev then events ++ [ev] else events) ({[ev_ID ev]} ∪ returned)
      | _ => batchLoop inputs events returned
      end
  end.

(** The bookkeeping after a batch: what is asked for next. *)
Definition after_batch (batch pending : list string) (events : list Event) (returned : gset string) (p : pull) : list string * pull :=
  let missing := filter (fun id => id ∉ returned) batch in
  let served := bool_decide (returned <> ∅) in
  let o := insert (length (pl_stored p)) in
  let p := mkPull (pl_requests p) (pl_stored p) (pl_pulled p) (if served then pl_unserved p else pl_unserved p + length missing) in
  (if served then missing ++ pending else pending,
   match events with
   | [] => p
   | _ => mkPull (pl_requests p) (pl_stored p ++ [(events, o)]) (if counted o then pl_pulled p + length events else pl_pulled p) (pl_unserved p)
   end).

Fixpoint pullEvents (fuel : nat) (pending : list string) (rest : list input) (p : pull) : ending * pull * list input :=
  match pending, fuel with
  | [], _ => (Finished, p, rest)
  | _, O => (OutOfFuel, p, rest)
  | _, S fuel =>
      let batch := take size pending in
      let pending := drop size pending in
      let inputs := rest ++ answers (length (pl_requests p)) batch in
      let p := mkPull (pl_requests p ++ [batch]) (pl_stored p) (pl_pulled p) (pl_unserved p) in
      match batchLoop inputs [] ∅ with
      | BatchServed events returned rest =>
          let '(pending, p) := after_batch batch pending events returned p in
          pullEvents fuel pending rest p
      | BatchStopped rest => (Stopped, p, rest)
      | BatchWaiting => (Waiting, p, [])
      end
  end.

End Pull.

(** ** Pushing *)

(** [readEventsFromStoreByIDs] on what the store's subscription gives, which ends
    with an error or EOSE. *)
Inductive store_item := FoundEvent (ev : Event) | NotFound | QueryError | StoreEose.

Fixpoint readEventsFromStoreByIDs (items : list store_item) : option (list Event) :=
  match items with
  | FoundEvent ev :: items => cons ev <$> readEventsFromStoreByIDs items
  | StoreEose :: _ => Some []
  | _ => None
  end.

(** How [ackLoop] ends: with what is not acknowledged and how many were accepted. *)
Inductive ack_end := AckEnd (pending : gset string) (accepted : nat) (rest : list input) | AckStopped (accepted : nat) (rest : list input) | AckWaiting (accepted : nat).

Fixpoint ackLoop (inputs : list input) (pending : gset string) (accepted : nat) : ack_end :=
  if decide (pending = ∅) then AckEnd pending accepted inputs else
  match inputs with
  | [] => AckWaiting accepted
  | IError :: inputs | IDone :: inputs => AckStopped accepted inputs
  | ITimeout :: inputs => AckEnd pending accepted inputs
  | IReply (SOk id ok) :: inputs =>
      if decide (id ∈ pending) then ackLoop inputs (pending ∖ {[id]}) (if ok then S accepted else accepted)
      else ackLoop inputs pending accepted
  | IReply _ :: inputs => ackLoop inputs pending accepted
  end.

Record push := mkPush {
  ph_batches : list (list string);
  ph_sent : list Event;
  ph_pushed : nat;
}.

Definition newPush : push := mkPush [] [] 0.

Section Push.
(** The batch size, what the store gives for a batch, whether an event is sent, and
    what comes in after the [n]-th batch's events are. *)
Context (size : nat) (stored : nat -> list string -> list store_item).
Context (send : nat -> Event -> bool) (answers : nat -> list Event -> list input).

Definition ids_of (events : list Event) : gset string := list_to_set (ev_ID <$> events).

Fixpoint pushEvents (fuel : nat) (haveIDs : list string) (rest : list input) (p : push) : ending * push * list input :=
  match haveIDs, fuel with
  | [], _ => (Finished, p, rest)
  | _, O => (OutOfFuel, p, rest)
  | _, S fuel =>
      let batch := take size haveIDs in
      let haveIDs := drop size haveIDs in
      let n := length (ph_batches p) in
      let p := mkPush (ph_batches p ++ [batch]) (ph_sent p) (ph_pushed p) in
      match readEventsFromStoreByIDs (stored n batch) with
      | None => pushEvents fuel haveIDs rest p
      | Some events =>
          let sent := filter (fun ev => send n ev = true) events in
          let p := mkPush (ph_batches p) (ph_sent p ++ sent) (ph_pushed p) in
          match ackLoop (rest ++ answers n sent) (ids_of sent) 0 with
          | AckEnd _ k rest => pushEvents fuel haveIDs rest (mkPush (ph_batches p) (ph_sent p) (ph_pushed p + k))
          | AckStopped k rest => (Stopped, mkPush (ph_batches p) (ph_sent p) (ph_pushed p + k), rest)
          | AckWaiting k => (Waiting, mkPush (ph_batches p) (ph_sent p) (ph_pushed p + k), [])
          end
      end
  end.

End Push.

(** ** Reconciling *)

(** [nip77]: a session and its messages. *)
Class Negentropy := {
  Neg : Type;
  NegMessage : Type;
  Initiate : Neg -> Neg * NegMessage;
  Reconcile : Neg -> NegMessage -> option (Neg * NegMessage * list string * list string);
  IsComplete : NegMessage -> bool;
  FromHex : string -> option NegMessage;
  ToHex : NegMessage -> option string;
}.

Inductive packet := NegOpen (hex : string) | NegMsg (hex : string) | NegClose.

Record sync := mkSync { sy_sent : list packet; sy_have : list string; sy_need : list string }.

Inductive rounds_end := Complete | MaxRounds | Failed | RoundsWaiting.

Section Execute.
Context `{Negentropy}.

(** The loop over rounds; any response counts as one. *)
Fixpoint reconcile (rounds : nat) (neg : Neg) (inputs : list input) (s : sync) : rounds_end * sync * list input :=
  match rounds with
  | O => (MaxRounds, s, inputs)
  | S rounds =>
      match inputs with
      | [] | ITimeout :: _ => (RoundsWaiting, s, [])
      | IError :: _ | IDone :: _ | IReply SNegErr :: _ => (Failed, s, [])
      | IReply (SNegMsg hex) :: inputs =>
          match FromHex hex with
          | None => (Failed, s, [])
          | Some theirs =>
              match Reconcile neg theirs with
              | None => (Failed, s, [])
              | Some (neg, ours, have, need) =>
                  let s := mkSync (sy_sent s) (sy_have s ++ have) (sy_need s ++ need) in
                  if IsComplete ours then (Complete, s, inputs)
                  else match ToHex ours with
                       | None => (Failed, s, [])
                       | Some hex => reconcile rounds neg inputs (mkSync (sy_sent s ++ [NegMsg hex]) (sy_have s) (sy_need s))
                       end
              end
          end
      | IReply _ :: inputs => reconcile rounds neg inputs s
      end
  end.

(** What pulling and pushing do with the ids, given what is still to be read. *)
Record moves := mkMoves {
  mv_pull : list string -> list input -> ending * pull * list input;
  mv_push : list string -> list input -> ending * push * list input;
}.

Definition pulls (dir : direction) : bool := match dir with SyncUp => false | _ => true end.
Definition pushes (dir : direction) : bool := match dir with SyncDown => false | _ => true end.

Record outcome := mkOutcome {
  oc_sync : sync;
  oc_pull : option (ending * pull);
  oc_push : option (ending * push);
}.

(** After the rounds: it pushes after a pull that failed, but not while the pull
    goes on. *)
Definition move (dir : direction) (mv : moves) (s : sync) (rest : list input) : outcome :=
  let '(e1, p1, rest) := if pulls dir then mv_pull mv (sy_need s) rest else (Finished, newPull, rest) in
  let pulled := if pulls dir then Some (e1, p1) else None in
  match e1 with
  | Waiting | OutOfFuel => mkOutcome s pulled None
  | Finished | Stopped => mkOutcome s pulled (if pushes dir then Some (mv_push mv (sy_have s) rest).1 else None)
  end.

(** [execute] from the first message on. *)
Definition execute (maxReconcileRounds : Z) (dir : direction) (mv : moves) (neg : Neg) (inputs : list input) : outcome :=
  let '(neg, first) := Initiate neg in
  match ToHex first with
  | None => mkOutcome (mkSync [] [] []) None None
  | Some hex =>
      let '(e, s, rest) := reconcile (Z.to_nat maxReconcileRounds) neg inputs (mkSync [NegOpen hex] [] []) in
      match e with
      | Complete | MaxRounds => move dir mv (mkSync (sy_sent s ++ [NegClose]) (sy_have s) (sy_need s)) rest
      | Failed | RoundsWaiting => mkOutcome s None None
      end
  end.

End Execute.
