(* ===== verification/ClientSyncFacts.v ===== *)
(** * Synchronisation: theorems

    [pull_complete]: against a relay that answers what it is asked, the pull ends
    and brings every event the relay has, however the relay caps its answers.
    [push_exact]: the push covers every id once and counts exactly the accepted
    events.  [execute_bounded]: the rounds are bounded and direct what is moved.
    [foreign_pull_goes_on] shows what a relay that answers something else does. *)
From S2P Require Import Prelude Nostr ClientSync.
From stdpp Require Import options.

(** ** What a relay answers *)

Lemma missing_shorter (batch : list string) (returned : gset string) id :
  id ∈ batch -> id ∈ returned -> length (filter (fun x => x ∉ returned) batch) < length batch.
Proof. intros Hb Hr. apply length_filter_lt with id; [done|]. by intros []. Qed.

(** What the relay does not have. *)
Definition lacking (relay : gmap string Event) (ids : list string) : nat := length (filter (fun id => relay !! id = None) ids).

Lemma lacking_app relay l l' : lacking relay (l ++ l') = lacking relay l + lacking relay l'.
Proof. unfold lacking. by rewrite filter_app, length_app. Qed.

Lemma lacking_missing relay batch events :
  (forall ev, ev ∈ events -> relay !! ev_ID ev = Some ev) ->
  lacking relay (filter (fun id => id ∉ (list_to_set (ev_ID <$> events) : gset string)) batch) = lacking relay batch.
Proof.
  intros Hev. unfold lacking. rewrite list_filter_filter. f_equal. apply list_filter_iff. intros id. split; [tauto|]. intros Hn. split; [done|].
  intros (ev & -> & Hin)%elem_of_list_to_set%list_elem_of_fmap. by rewrite (Hev _ Hin) in Hn.
Qed.

Section Answers.
Context (enforcePow : bool) (pow : nip13).

Local Abbreviation wanted := (wanted enforcePow pow).
Local Abbreviation batchLoop := (batchLoop enforcePow pow).

(** The events of an answer. *)
Definition events_of (l : list input) : list Event :=
  omap (fun i => match i with IReply (SEvent (Some ev)) => Some ev | _ => None end) l.

(** Nothing of an answer ends the batch. *)
Definition quiet (i : input) : bool := match i with IReply SEose | IError | IDone => false | _ => true end.

Lemma batchLoop_quiet body rest evs returned :
  forallb quiet body = true ->
  batchLoop (body ++ IReply SEose :: rest) evs returned
  = BatchServed (evs ++ filter (fun ev => wanted ev = true) (events_of body)) (list_to_set (ev_ID <$> events_of body) ∪ returned) rest.
Proof.
  revert evs returned. induction body as [|i body IH]; intros evs returned; cbn [app forallb].
  - intros _. cbn. by rewrite app_nil_r, (left_id_L ∅ (∪)).
  - intros [Hi Hb]%andb_true_iff. destruct i as [r| | |]; [|done..|cbn; by rewrite IH].
    destruct r as [[ev|]| | | | |]; try done; cbn [ClientSync.batchLoop]; rewrite IH by done; [|done..].
    change (events_of (IReply (SEvent (Some ev)) :: body)) with (ev :: events_of body). rewrite filter_cons, fmap_cons. f_equal; [|set_solver].
    destruct (wanted ev) eqn:Ew; [rewrite decide_True by done|rewrite decide_False by congruence]; [by rewrite <- app_assoc|done].
Qed.

(** A relay with these events answers a request: only with events it was asked for,
    with some of them while it has any, among whatever else, and then EOSE. *)
Record serves (relay : gmap string Event) (batch : list string) (l : list input) : Prop := {
  sv_body : exists body, l = body ++ [IReply SEose] /\ forallb quiet body = true;
  sv_asked : forall ev, ev ∈ events_of l -> ev_ID ev ∈ batch /\ relay !! ev_ID ev = Some ev;
  sv_some : (exists id, id ∈ batch /\ is_Some (relay !! id)) -> events_of l <> [];
}.

(** A batch, by what the relay has of it. *)
Record batch_ok (relay : gmap string Event) (batch : list string) (events : list Event) : Prop := {
  bo_asked : forall ev, ev ∈ events -> ev_ID ev ∈ batch /\ relay !! ev_ID ev = Some ev;
  bo_some : (exists id, id ∈ batch /\ is_Some (relay !! id)) -> events <> [];
}.

Lemma batch_served relay batch l :
  serves relay batch l ->
  exists events, batchLoop l [] ∅ = BatchServed (filter (fun ev => wanted ev = true) events) (list_to_set (ev_ID <$> events)) [] /\
    batch_ok relay batch events.
Proof.
  intros [(body & -> & Hq) Ha Hs]. exists (events_of body). rewrite (batchLoop_quiet body []) by done.
  rewrite (right_id_L ∅ (∪)). assert (events_of (body ++ [IReply SEose]) = events_of body) as Ee.
  { unfold events_of. rewrite omap_app. cbn. apply app_nil_r. }
  rewrite Ee in *. done.
Qed.

End Answers.

(** ** What is asked for next *)

Definition returned_ids (events : list Event) : gset string := list_to_set (ev_ID <$> events).

Lemma returned_empty events : returned_ids events = ∅ <-> events = [].
Proof.
  split; [|by intros ->]. destruct events as [|ev l]; [done|]. unfold returned_ids. rewrite fmap_cons, list_to_set_cons. intros H. set_solver.
Qed.

Lemma after_batch_pending insert batch pending kept events p :
  (after_batch insert batch pending kept (returned_ids events) p).1
  = match events with [] => pending | _ => filter (fun id => id ∉ returned_ids events) batch ++ pending end.
Proof.
  unfold after_batch. cbn [fst]. destruct events as [|ev l]; [by rewrite bool_decide_false by (intros H; apply H; done)|].
  rewrite bool_decide_true; [done|]. by rewrite returned_empty.
Qed.

Lemma after_batch_stored insert batch pending kept returned p b :
  b ∈ pl_stored (after_batch insert batch pending kept returned p).2 <->
  b ∈ pl_stored p \/ (kept <> [] /\ b = (kept, insert (length (pl_stored p)))).
Proof.
  unfold after_batch. destruct kept as [|ev kept]; cbn; [naive_solver|]. rewrite elem_of_app, list_elem_of_singleton. naive_solver.
Qed.

Lemma after_batch_requests insert batch pending kept returned p :
  pl_requests (after_batch insert batch pending kept returned p).2 = pl_requests p.
Proof. unfold after_batch. by destruct kept. Qed.

Lemma after_batch_unserved insert batch pending kept returned p :
  pl_unserved (after_batch insert batch pending kept returned p).2
  = if bool_decide (returned <> ∅) then pl_unserved p else pl_unserved p + length (filter (fun id => id ∉ returned) batch).
Proof. unfold after_batch. by destruct kept. Qed.

(** Each request makes progress. *)
Lemma next_shorter relay insert batch pending kept events p :
  batch_ok relay batch events -> batch <> [] ->
  length (after_batch insert batch pending kept (returned_ids events) p).1 < length (batch ++ pending).
Proof.
  intros [Ha _] Hb. rewrite after_batch_pending, length_app. destruct events as [|ev l]; [destruct batch; [done|cbn; lia]|]. rewrite length_app.
  assert (length (filter (fun id => id ∉ returned_ids (ev :: l)) batch) < length batch); [|lia].
  apply missing_shorter with (ev_ID ev); [apply Ha; left|]. unfold returned_ids. rewrite fmap_cons, list_to_set_cons. set_solver.
Qed.

Lemma next_subseteq insert batch pending kept events p :
  (after_batch insert batch pending kept (returned_ids events) p).1 ⊆ batch ++ pending.
Proof.
  rewrite after_batch_pending. intros id. rewrite elem_of_app. destruct events; [tauto|]. rewrite elem_of_app, list_elem_of_filter. tauto.
Qed.

(** What the relay lacks is counted once. *)
Lemma next_unserved relay insert batch pending kept events p :
  batch_ok relay batch events ->
  let next := after_batch insert batch pending kept (returned_ids events) p in
  pl_unserved next.2 + lacking relay next.1 = pl_unserved p + lacking relay (batch ++ pending).
Proof.
  intros [Ha Hs] next. unfold next. rewrite after_batch_unserved, after_batch_pending, lacking_app. destruct events as [|ev l].
  - rewrite bool_decide_false by (intros H; apply H; done).
    rewrite <- Nat.add_assoc. do 2 f_equal. unfold lacking. f_equal. clear next. induction batch as [|id batch IH]; [done|]. rewrite !filter_cons, IH.
    + rewrite decide_True by (unfold returned_ids; set_solver). rewrite decide_True; [done|]. destruct (relay !! id) eqn:Er; [|done].
      exfalso. apply Hs; [|done]. exists id. split; [by left|by eexists].
    + intros x Hx. by apply elem_of_nil in Hx.
    + intros (x & Hx & Hr). apply Hs. exists x. split; [by right|done].
  - rewrite bool_decide_true by (by rewrite returned_empty). rewrite lacking_app. unfold returned_ids. rewrite lacking_missing; [lia|].
    intros x Hx. by apply Ha.
Qed.

(** An event the relay has is there, or asked for again. *)
Lemma next_brought relay insert batch pending kept events p ev :
  batch_ok relay batch events -> ev_ID ev ∈ batch ++ pending -> relay !! ev_ID ev = Some ev ->
  ev ∈ events \/ ev_ID ev ∈ (after_batch insert batch pending kept (returned_ids events) p).1.
Proof.
  intros [Ha Hs] Hin Hr. destruct (decide (ev ∈ events)) as [He|He]; [by left|right]. rewrite after_batch_pending. destruct events as [|x l].
  - apply elem_of_app in Hin as [Hin|Hin]; [|done]. exfalso. apply Hs; [|done]. exists (ev_ID ev). split; [done|by eexists].
  - rewrite elem_of_app, list_elem_of_filter. apply elem_of_app in Hin as [Hin|Hin]; [|tauto]. left. split; [|done].
    intros (y & Ey & Hy)%elem_of_list_to_set%list_elem_of_fmap. destruct (Ha _ Hy) as [_ Hy']. apply He. rewrite <- Ey, Hr in Hy'. by injection Hy' as ->.
Qed.

(** ** The whole pull *)

(** How a pull goes on from here. *)
Record pull_goes (wanted : Event -> bool) (size : nat) (relay : gmap string Event) (pending : list string) (p p' : pull) : Prop := {
  pg_requests : length (pl_requests p') <= length (pl_requests p) + length pending;
  pg_asked : forall r, r ∈ pl_requests p' -> r ∈ pl_requests p \/ (r <> [] /\ length r <= size /\ r ⊆ pending);
  pg_kept : forall b, b ∈ pl_stored p -> b ∈ pl_stored p';
  pg_brought : forall ev, ev_ID ev ∈ pending -> relay !! ev_ID ev = Some ev -> wanted ev = true -> exists b, b ∈ pl_stored p' /\ ev ∈ b.1;
  pg_only : forall b ev, b ∈ pl_stored p' -> ev ∈ b.1 -> b ∈ pl_stored p \/ (ev_ID ev ∈ pending /\ relay !! ev_ID ev = Some ev /\ wanted ev = true);
  pg_unserved : pl_unserved p' = pl_unserved p + lacking relay pending;
}.

Lemma pull_goes_nil wanted size relay p : pull_goes wanted size relay [] p p.
Proof.
  split; [cbn; lia|tauto|done| |tauto|unfold lacking; cbn; lia]. intros ev Hin. by apply elem_of_nil in Hin.
Qed.

Lemma pull_goes_batch wanted size relay insert batch pending events p p' :
  batch_ok relay batch events -> batch <> [] -> length batch <= size ->
  let kept := filter (fun ev => wanted ev = true) events in
  let next := after_batch insert batch pending kept (returned_ids events) (mkPull (pl_requests p ++ [batch]) (pl_stored p) (pl_pulled p) (pl_unserved p)) in
  pull_goes wanted size relay next.1 next.2 p' -> pull_goes wanted size relay (batch ++ pending) p p'.
Proof.
  intros Hok Hb Hl kept next [H1 H2 H3 H4 H5 H6]. unfold next in H1, H2. rewrite after_batch_requests in H1, H2. cbn [pl_requests] in H1, H2.
  pose proof (next_shorter relay insert batch pending kept events (mkPull (pl_requests p ++ [batch]) (pl_stored p) (pl_pulled p) (pl_unserved p)) Hok Hb) as Hshort.
  pose proof (next_subseteq insert batch pending kept events (mkPull (pl_requests p ++ [batch]) (pl_stored p) (pl_pulled p) (pl_unserved p))) as Hsub.
  assert (forall b, b ∈ pl_stored p \/ (kept <> [] /\ b = (kept, insert (length (pl_stored p)))) -> b ∈ pl_stored p') as Hst.
  { intros b Hin. apply H3. unfold next. by rewrite after_batch_stored. }
  split.
  - rewrite length_app in H1. cbn [length] in H1. lia.
  - intros r [Hr|(R1 & R2 & R3)]%H2.
    + apply elem_of_app in Hr as [Hr| ->%list_elem_of_singleton]; [by left|]. right. split_and!; [done|done|]. intros id Hid. apply elem_of_app. by left.
    + right. split_and!; [done|done|]. etransitivity; [exact R3|]. exact Hsub.
  - intros b Hin. apply Hst. by left.
  - intros ev Hin Hr Hw. destruct (next_brought relay insert batch pending kept events (mkPull (pl_requests p ++ [batch]) (pl_stored p) (pl_pulled p) (pl_unserved p)) ev Hok Hin Hr) as [He|He]; [|by apply H4].
    assert (ev ∈ kept) as Hk by (by apply list_elem_of_filter).
    exists (kept, insert (length (pl_stored p))). split; [|done]. apply Hst. right. split; [|done]. intros E. rewrite E in Hk. by apply elem_of_nil in Hk.
  - intros b ev Hin Hev. destruct (H5 b ev Hin Hev) as [Hb'|(B1 & B2 & B3)]; [|right; split_and!; [by apply Hsub|done|done]].
    unfold next in Hb'. apply after_batch_stored in Hb' as [Hb'|[_ ->]]; [by left|]. right. cbn in Hev. apply list_elem_of_filter in Hev as [Hw Hev].
    destruct (bo_asked _ _ _ Hok _ Hev) as [E1 E2]. split_and!; [apply elem_of_app; by left|done|done].
  - rewrite H6. exact (next_unserved relay insert batch pending kept events _ Hok).
Qed.

Lemma pull_ends enforcePow pow size answers insert relay fuel pending p :
  0 < size -> (forall n batch, serves relay batch (answers n batch)) -> length pending <= fuel ->
  exists p', pullEvents enforcePow pow size answers insert fuel pending [] p = (Finished, p', []) /\
    pull_goes (wanted enforcePow pow) size relay pending p p'.
Proof.
  intros Hsize Hserves. revert pending p. induction fuel as [|fuel IH]; intros pending p Hf.
  - destruct pending; [|cbn in Hf; lia]. exists p. split; [done|apply pull_goes_nil].
  - destruct (decide (pending = [])) as [->|Hne]; [exists p; split; [done|apply pull_goes_nil]|].
    destruct (batch_served enforcePow pow relay (take size pending) (answers (length (pl_requests p)) (take size pending))) as (events & Eb & Hok); [done|].
    assert (take size pending <> []) as Hb by (destruct pending; [done|]; by destruct size; [lia|]).
    set (kept := filter _ events) in *.
    set (q := mkPull (pl_requests p ++ [take size pending]) (pl_stored p) (pl_pulled p) (pl_unserved p)).
    pose proof (next_shorter relay insert _ (drop size pending) kept events q Hok Hb) as Hshort. rewrite take_drop in Hshort.
    destruct (IH (after_batch insert (take size pending) (drop size pending) kept (returned_ids events) q).1
                 (after_batch insert (take size pending) (drop size pending) kept (returned_ids events) q).2) as (p' & Ep & Hp); [lia|].
    exists p'. split.
    + destruct pending as [|id pending]; [done|]. cbn [pullEvents app]. rewrite Eb. rewrite (surjective_pairing (after_batch _ _ _ _ _ _)). exact Ep.
    + rewrite <- (take_drop size pending). apply (pull_goes_batch _ _ _ insert _ _ events); [done|done|rewrite length_take; lia|exact Hp].
Qed.

(** What is counted is what the store took. *)
Definition taken (l : list (list Event * insertion)) : nat := sum_list ((fun b => if counted b.2 then length b.1 else 0) <$> l).

Lemma after_batch_taken insert batch pending kept returned p :
  pl_pulled p = taken (pl_stored p) ->
  let p' := (after_batch insert batch pending kept returned p).2 in pl_pulled p' = taken (pl_stored p').
Proof.
  intros Hp. unfold after_batch. destruct kept as [|ev kept]; [done|]. cbn [snd pl_pulled pl_stored]. unfold taken in *.
  rewrite fmap_app, sum_list_with_app || rewrite fmap_app. rewrite Hp. cbn. destruct (counted _); cbn; lia.
Qed.

Lemma pull_taken enforcePow pow size answers insert fuel pending rest p :
  pl_pulled p = taken (pl_stored p) ->
  let p' := (pullEvents enforcePow pow size answers insert fuel pending rest p).1.2 in pl_pulled p' = taken (pl_stored p').
Proof.
  revert pending rest p. induction fuel as [|fuel IH]; intros pending rest p Hp; (destruct pending as [|id pending]; [done|]); cbn [pullEvents]; [done|].
  set (q := mkPull (pl_requests p ++ _) (pl_stored p) (pl_pulled p) (pl_unserved p)).
  destruct (batchLoop _ _ _ _ _) as [events returned rest'| |]; [|done|done].
  pose proof (after_batch_taken insert (take size (id :: pending)) (drop size (id :: pending)) events returned q Hp) as Hq.
  destruct (after_batch _ _ _ _ _ _) as [pending' q']. by apply IH.
Qed.

(** C22: against a relay that answers each request with events it was asked for,
    some as long as it has any of them, and then EOSE, however few at a time and
    among whatever else, the pull ends after at most a request per needed id; every
    event the relay has is handed to the store, unless its proof of work is
    enforced and bad, and no other event is; exactly the ids the relay lacks are
    reported as not served, and exactly the events the store took are counted. *)
Theorem pull_complete enforcePow pow pullBatchSize answers insert relay needIDs :
  (forall n batch, serves relay batch (answers n batch)) ->
  let size := Z.to_nat (default_batch pullBatchSize) in
  exists p, pullEvents enforcePow pow size answers insert (length needIDs) needIDs [] newPull = (Finished, p, []) /\
    length (pl_requests p) <= length needIDs /\
    (forall r, r ∈ pl_requests p -> r <> [] /\ length r <= size /\ r ⊆ needIDs) /\
    (forall ev, relay !! ev_ID ev = Some ev -> ev_ID ev ∈ needIDs -> wanted enforcePow pow ev = true -> exists b, b ∈ pl_stored p /\ ev ∈ b.1) /\
    (forall b ev, b ∈ pl_stored p -> ev ∈ b.1 -> relay !! ev_ID ev = Some ev /\ ev_ID ev ∈ needIDs /\ wanted enforcePow pow ev = true) /\
    pl_unserved p = length (filter (fun id => relay !! id = None) needIDs) /\
    pl_pulled p = taken (pl_stored p).
Proof.
  intros Hs size. assert (0 < size) as Hsize by (unfold size, default_batch; destruct (Z.leb_spec pullBatchSize 0); lia).
  destruct (pull_ends enforcePow pow size answers insert relay (length needIDs) needIDs newPull Hsize Hs ltac:(done)) as (p & Ep & [H1 H2 H3 H4 H5 H6]).
  exists p. split; [done|]. split_and!; [exact H1| | | |exact H6|].
  - intros r Hr. destruct (H2 r Hr) as [Hin|?]; [by apply elem_of_nil in Hin|done].
  - intros ev Hr Hin Hw. by apply H4.
  - intros b ev Hb Hev. destruct (H5 b ev Hb Hev) as [Hin|?]; [by apply elem_of_nil in Hin|tauto].
  - pose proof (pull_taken enforcePow pow size answers insert (length needIDs) needIDs [] newPull eq_refl) as Ht. by rewrite Ep in Ht.
Qed.

(** A relay that answers with one event it has at a time. *)
Definition stingy (relay : gmap string Event) (batch : list string) : list input :=
  IReply SOther :: match omap (fun id => relay !! id) batch with ev :: _ => [IReply (SEvent (Some ev))] | [] => [] end ++ [IReply SEose].

Definition ex_pow : nip13 := mkNip13 (fun _ => false) (fun _ => true).
Definition ex_event (id : string) : Event := mkEvent id "alice" 0 1 [] "" "".
Definition ex_relay : gmap string Event := {["a"%string := ex_event "a"; "b"%string := ex_event "b"]}.

Lemma ex_relay_ids id ev : ex_relay !! id = Some ev -> ev_ID ev = id.
Proof. unfold ex_relay. intros [[<- <-]|[_ [<- <-]%lookup_singleton_Some]]%lookup_insert_Some; done. Qed.

Lemma stingy_serves (n : nat) batch : serves ex_relay batch (stingy ex_relay batch).
Proof.
  unfold stingy. destruct (omap (fun id => ex_relay !! id) batch) as [|ev l] eqn:E.
  - split.
    + by exists [IReply SOther].
    + intros ev Hin. by apply elem_of_nil in Hin.
    + intros (id & Hid & ev & Hev). assert (ev ∈ omap (fun id => ex_relay !! id) batch) as Hin by (apply list_elem_of_omap; eauto).
      rewrite E in Hin. by apply elem_of_nil in Hin.
  - assert (ev ∈ omap (fun id => ex_relay !! id) batch) as (id & Hid & Hev)%list_elem_of_omap by (rewrite E; by left).
    pose proof (ex_relay_ids _ _ Hev) as Eid. split.
    + by exists [IReply SOther; IReply (SEvent (Some ev))].
    + intros x ->%list_elem_of_singleton. by rewrite Eid.
    + done.
Qed.

(** Two events and one the relay does not have, two at a time. *)
Lemma pull_complete_witness :
  exists p, pullEvents false ex_pow (Z.to_nat (default_batch 2)) (fun _ => stingy ex_relay) (fun _ => StoreInserted) 3 ["c"; "a"; "b"]%string [] newPull
    = (Finished, p, []) /\ pl_unserved p = length (filter (fun id => ex_relay !! id = None) ["c"; "a"; "b"]%string).
Proof.
  destruct (pull_complete false ex_pow 2 (fun _ => stingy ex_relay) (fun _ => StoreInserted) ex_relay ["c"; "a"; "b"]%string stingy_serves)
    as (p & Ep & _ & _ & _ & _ & Eu & _).
  exists p. split; [exact Ep|exact Eu].
Defined.

(** A relay that answers every request with an event nobody asked for keeps the
    pull going, request after request, and gets each of its events stored. *)
Lemma foreign_pull_goes_on fuel ev id :
  ev_ID ev <> id ->
  exists p, pullEvents false ex_pow 100 (fun _ _ => [IReply (SEvent (Some ev)); IReply SEose]) (fun _ => StoreInserted) fuel [id] [] newPull
    = (OutOfFuel, p, []) /\ length (pl_requests p) = fuel /\ length (pl_stored p) = fuel.
Proof.
  intros Hne. enough (forall p, exists p', pullEvents false ex_pow 100 (fun _ _ => [IReply (SEvent (Some ev)); IReply SEose]) (fun _ => StoreInserted) fuel [id] [] p
    = (OutOfFuel, p', []) /\ length (pl_requests p') = length (pl_requests p) + fuel /\ length (pl_stored p') = length (pl_stored p) + fuel) as Hall
    by (apply (Hall newPull)).
  induction fuel as [|fuel IH]; intros p; [exists p; split; [done|lia]|]. cbn [pullEvents take drop app batchLoop wanted andb negb].
  set (q := mkPull (pl_requests p ++ [[id]]) (pl_stored p) (pl_pulled p) (pl_unserved p)).
  rewrite (surjective_pairing (after_batch _ _ _ _ _ _)).
  assert ((after_batch (fun _ => StoreInserted) [id] [] [ev] ({[ev_ID ev]} ∪ ∅) q).1 = [id]) as ->.
  { unfold after_batch. cbn [fst]. rewrite bool_decide_true by set_solver. rewrite filter_cons, decide_True by set_solver. done. }
  destruct (IH (after_batch (fun _ => StoreInserted) [id] [] [ev] ({[ev_ID ev]} ∪ ∅) q).2) as (p' & E & L1 & L2).
  exists p'. split; [exact E|]. rewrite after_batch_requests in L1. cbn in L1, L2. rewrite length_app in L1, L2. cbn in L1, L2. lia.
Qed.

(** A relay that refuses the subscription with CLOSED leaves the pull waiting. *)
Lemma closed_pull_waits id :
  exists p, pullEvents false ex_pow 100 (fun _ _ => [IReply SOther]) (fun _ => StoreInserted) 1 [id] [] newPull = (Waiting, p, []).
Proof. by eexists. Qed.

(** ** Pushing *)

(** The batches of a list. *)
Fixpoint chunks (fuel size : nat) (l : list string) : list (list string) :=
  match l, fuel with
  | [], _ | _, O => []
  | _, S fuel => take size l :: chunks fuel size (drop size l)
  end.

Lemma chunks_concat fuel size l : 0 < size -> length l <= fuel -> concat (chunks fuel size l) = l.
Proof.
  intros Hs. revert l. induction fuel as [|fuel IH]; intros [|x l] Hf; try done; [cbn in Hf; lia|]. cbn [chunks concat].
  rewrite IH; [apply take_drop|]. rewrite length_drop. cbn in *. lia.
Qed.

Lemma chunks_sizes fuel size l b : b ∈ chunks fuel size l -> length b <= size.
Proof.
  revert l. induction fuel as [|fuel IH]; intros [|x l]; cbn [chunks]; rewrite ?elem_of_nil; try done.
  intros [->|Hb]%elem_of_cons; [rewrite length_take; lia|by apply (IH (drop size (x :: l)))].
Qed.

(** What is sent of a batch. *)
Definition sent_of (stored : nat -> list string -> list store_item) (send : nat -> Event -> bool) (n : nat) (batch : list string) : list Event :=
  filter (fun ev => send n ev = true) (default [] (readEventsFromStoreByIDs (stored n batch))).

(** A relay's verdicts, the same whenever it answers. *)
Definition verdict_input (ok : string -> bool) (i : input) : bool :=
  match i with IReply (SOk id b) => Bool.eqb b (ok id) | IReply _ => true | _ => false end.

Definition oks (l : list input) : gset string :=
  list_to_set (omap (fun i => match i with IReply (SOk id _) => Some id | _ => None end) l).

Definition accepted_of (ok : string -> bool) (ids : gset string) : gset string := filter (fun id => ok id = true) ids.

Lemma accepted_empty ok : size (accepted_of ok ∅) = 0.
Proof. apply size_empty_iff. unfold accepted_of. set_solver. Qed.

Lemma accepted_without ok (ids : gset string) id :
  id ∈ ids -> size (accepted_of ok ids) = (if ok id then 1 else 0) + size (accepted_of ok (ids ∖ {[id]})).
Proof.
  intros Hid. unfold accepted_of. destruct (ok id) eqn:Eo.
  - rewrite <- (size_singleton id (C := gset string)), <- size_union by set_solver. f_equal. apply set_eq. intros x.
    rewrite elem_of_union, !elem_of_filter, elem_of_difference, elem_of_singleton. destruct (decide (x = id)) as [->|]; tauto.
  - cbn. f_equal. apply set_eq. intros x. rewrite !elem_of_filter, elem_of_difference, elem_of_singleton. split; [|tauto].
    intros [Hx Hin]. split_and!; [done|done|]. intros ->. congruence.
Qed.

Lemma ackLoop_answered ok inputs pending k :
  forallb (verdict_input ok) inputs = true -> pending ⊆ oks inputs ->
  exists rest, ackLoop inputs pending k = AckEnd ∅ (k + size (accepted_of ok pending)) rest /\ forallb (verdict_input ok) rest = true.
Proof.
  revert pending k. induction inputs as [|i inputs IH]; intros pending k Hv Hsub; cbn [ackLoop].
  - assert (pending = ∅) as -> by (cbn in Hsub; set_solver). rewrite decide_True by done. exists []. by rewrite accepted_empty, Nat.add_0_r.
  - destruct (decide (pending = ∅)) as [->|Hne].
    { exists (i :: inputs). by rewrite accepted_empty, Nat.add_0_r. }
    cbn [forallb] in Hv. apply andb_true_iff in Hv as [Hi Hv]. destruct i as [r| | |]; try done.
    destruct r as [ev| |id b| | |]; try (apply IH; [done|exact Hsub]).
    cbn in Hi. apply eqb_prop in Hi as ->. unfold oks in Hsub. cbn in Hsub. fold (oks inputs) in Hsub. destruct (decide (id ∈ pending)) as [Hid|Hid].
    + destruct (IH (pending ∖ {[id]}) (if ok id then S k else k) Hv) as (rest & E & Hr); [unfold oks; set_solver|]. exists rest. split; [|done].
      rewrite E, (accepted_without ok pending id Hid). f_equal. destruct (ok id); lia.
    + apply IH; [done|]. unfold oks. set_solver.
Qed.

(** How a push goes on, whatever comes in. *)
Lemma push_covers size stored send answers fuel ids rest p :
  0 < size -> length ids <= fuel ->
  let '(e, p', _) := pushEvents size stored send answers fuel ids rest p in
  e <> OutOfFuel /\
  exists done, ph_batches p' = ph_batches p ++ done /\ done `prefix_of` chunks fuel size ids /\ (e = Finished -> done = chunks fuel size ids) /\
    ph_sent p' = ph_sent p ++ concat (imap (fun i b => sent_of stored send (length (ph_batches p) + i) b) done).
Proof.
  intros Hs. revert ids rest p. induction fuel as [|fuel IH]; intros [|x ids] rest p Hf; cbn [pushEvents chunks]; try (cbn in Hf; lia);
    [split; [done|]; exists []; split_and!; [by rewrite app_nil_r|done|done|by rewrite app_nil_r]..|].
  set (batch := take size (x :: ids)). set (ids' := drop size (x :: ids)). set (n := length (ph_batches p)).
  assert (length ids' <= fuel) as Hf' by (unfold ids'; rewrite length_drop; cbn in *; lia).
  assert (forall e p' new, e <> OutOfFuel -> ph_batches p' = (ph_batches p ++ [batch]) ++ new -> new `prefix_of` chunks fuel size ids' ->
    (e = Finished -> new = chunks fuel size ids') ->
    ph_sent p' = (ph_sent p ++ sent_of stored send n batch) ++ concat (imap (fun i b => sent_of stored send (S n + i) b) new) ->
    e <> OutOfFuel /\ exists l, ph_batches p' = ph_batches p ++ l /\ l `prefix_of` batch :: chunks fuel size ids' /\
      (e = Finished -> l = batch :: chunks fuel size ids') /\ ph_sent p' = ph_sent p ++ concat (imap (fun i b => sent_of stored send (n + i) b) l)) as Hstep.
  { intros e p' new He Eb Hp Hd Es. split; [done|]. exists (batch :: new). split_and!.
    - by rewrite Eb, <- app_assoc.
    - by apply prefix_cons.
    - intros E. by rewrite (Hd E).
    - rewrite Es, <- app_assoc. cbn [imap concat]. rewrite Nat.add_0_r. do 3 f_equal. apply imap_ext. intros i b _. cbn. f_equal. lia. }
  destruct (readEventsFromStoreByIDs (stored n batch)) as [events|] eqn:Est.
  - assert (sent_of stored send n batch = filter (fun ev => send n ev = true) events) as Ese by (unfold sent_of; by rewrite Est).
    rewrite <- Ese. cbn [ph_batches ph_sent ph_pushed].
    destruct (ackLoop _ _ _) as [pe k rest'|k rest'|k].
    + specialize (IH ids' rest' (mkPush (ph_batches p ++ [batch]) (ph_sent p ++ sent_of stored send n batch) (ph_pushed p + k)) Hf').
      destruct (pushEvents _ _ _ _ _ _ _ _) as [[e p'] r]. destruct IH as (He & new & Eb & Hp & Hd & Es). apply (Hstep _ _ new); try done.
      rewrite Es. cbn [ph_batches]. rewrite length_app. cbn [length]. fold n. by replace (n + 1) with (S n) by lia.
    + apply (Hstep _ _ []); try done; [by rewrite app_nil_r|apply prefix_nil|by rewrite app_nil_r].
    + apply (Hstep _ _ []); try done; [by rewrite app_nil_r|apply prefix_nil|by rewrite app_nil_r].
  - assert (sent_of stored send n batch = []) as Ese by (unfold sent_of; by rewrite Est).
    specialize (IH ids' rest (mkPush (ph_batches p ++ [batch]) (ph_sent p) (ph_pushed p)) Hf').
    destruct (pushEvents _ _ _ _ _ _ _ _) as [[e p'] r]. destruct IH as (He & new & Eb & Hp & Hd & Es). apply (Hstep _ _ new); try done.
    rewrite Es, Ese, app_nil_r. cbn [ph_batches]. rewrite length_app. cbn [length]. fold n. by replace (n + 1) with (S n) by lia.
Qed.

Lemma ids_of_size events : size (ids_of events) <= length events.
Proof.
  unfold ids_of. induction events as [|ev events IH]; [cbn; by rewrite size_empty|]. rewrite fmap_cons, list_to_set_cons. cbn [length].
  rewrite size_union_alt, size_singleton.
  assert (size (list_to_set (ev_ID <$> events) ∖ {[ev_ID ev]} : gset string) <= size (list_to_set (ev_ID <$> events) : gset string)) by (apply subseteq_size; set_solver).
  lia.
Qed.

(** Only a sent event is counted. *)
Lemma ackLoop_bound inputs pending k :
  match ackLoop inputs pending k with AckEnd _ k' _ | AckStopped k' _ | AckWaiting k' => k' <= k + size pending end.
Proof.
  revert pending k. induction inputs as [|i inputs IH]; intros pending k; cbn [ackLoop]; (destruct (decide (pending = ∅)); [lia|]); [lia|].
  destruct i as [[ev| |id b| | |]| | |]; try lia; try apply IH. destruct (decide (id ∈ pending)) as [Hid|]; [|apply IH].
  specialize (IH (pending ∖ {[id]}) (if b then S k else k)).
  assert (size pending = 1 + size (pending ∖ {[id]})) as Es.
  { rewrite <- (size_singleton id (C := gset string)), <- size_union by set_solver. f_equal. rewrite <- union_difference_singleton_L; done. }
  destruct (ackLoop _ _ _); destruct b; lia.
Qed.

Lemma push_bound size stored send answers fuel ids rest p :
  ph_pushed p <= length (ph_sent p) ->
  let p' := (pushEvents size stored send answers fuel ids rest p).1.2 in ph_pushed p' <= length (ph_sent p').
Proof.
  revert ids rest p. induction fuel as [|fuel IH]; intros [|x ids] rest p Hp; cbn [pushEvents]; try done.
  destruct (readEventsFromStoreByIDs _) as [events|]; [|by apply IH]. set (sent := filter _ events). cbn [ph_batches ph_sent ph_pushed].
  pose proof (ackLoop_bound (rest ++ answers (length (ph_batches p)) sent) (ids_of sent) 0) as Hk. pose proof (ids_of_size sent) as Hs.
  destruct (ackLoop _ _ _) as [pe k rest'|k rest'|k]; [apply IH|..]; cbn [fst snd ph_sent ph_pushed]; rewrite length_app; lia.
Qed.

(** Every acknowledgement comes, in time and with the relay's verdict. *)
Definition acknowledges (ok : string -> bool) (sent : list Event) (l : list input) : Prop :=
  forallb (verdict_input ok) l = true /\ ids_of sent ⊆ oks l.

Lemma push_counts ok size stored send answers fuel ids rest p :
  0 < size -> (forall n sent, acknowledges ok sent (answers n sent)) -> length ids <= fuel -> forallb (verdict_input ok) rest = true ->
  let '(e, p', _) := pushEvents size stored send answers fuel ids rest p in
  e = Finished /\
  ph_pushed p' = ph_pushed p
    + sum_list (imap (fun i b => base.size (accepted_of ok (ids_of (sent_of stored send (length (ph_batches p) + i) b)))) (chunks fuel size ids)).
Proof.
  intros Hs Ha. revert ids rest p. induction fuel as [|fuel IH]; intros [|x ids] rest p Hf Hr; cbn [pushEvents chunks]; try (cbn in Hf; lia);
    [split; [done|cbn; lia]..|].
  set (batch := take size (x :: ids)). set (ids' := drop size (x :: ids)). set (n := length (ph_batches p)).
  assert (length ids' <= fuel) as Hf' by (unfold ids'; rewrite length_drop; cbn in *; lia). cbn [imap sum_list sum_list_with].
  assert (imap (fun i b => base.size (accepted_of ok (ids_of (sent_of stored send (length (ph_batches p ++ [batch]) + i) b)))) (chunks fuel size ids')
    = imap (fun i b => base.size (accepted_of ok (ids_of (sent_of stored send (n + S i) b)))) (chunks fuel size ids')) as Himap.
  { apply imap_ext. intros i b _. cbn. rewrite length_app. cbn [length]. fold n. do 4 f_equal. lia. }
  rewrite Nat.add_0_r. destruct (readEventsFromStoreByIDs (stored n batch)) as [events|] eqn:Est.
  - assert (sent_of stored send n batch = filter (fun ev => send n ev = true) events) as <- by (unfold sent_of; by rewrite Est).
    set (sent := sent_of stored send n batch). destruct (Ha n sent) as [A1 A2].
    destruct (ackLoop_answered ok (rest ++ answers n sent) (ids_of sent) 0) as (rest' & E & Hr'); [by rewrite forallb_app, Hr|..].
    { etransitivity; [exact A2|]. unfold oks. rewrite omap_app, list_to_set_app. set_solver. }
    cbn [ph_batches ph_sent ph_pushed]. rewrite E.
    specialize (IH ids' rest' (mkPush (ph_batches p ++ [batch]) (ph_sent p ++ sent) (ph_pushed p + (0 + base.size (accepted_of ok (ids_of sent))))) Hf' Hr').
    destruct (pushEvents _ _ _ _ _ _ _ _) as [[e p'] r]. destruct IH as [-> IH]. split; [done|]. rewrite IH. cbn [ph_pushed ph_batches]. rewrite Himap.
    unfold compose, id. lia.
  - assert (sent_of stored send n batch = []) as -> by (unfold sent_of; by rewrite Est). unfold ids_of at 1. cbn [fmap list_fmap list_to_set foldr]. 
    specialize (IH ids' rest (mkPush (ph_batches p ++ [batch]) (ph_sent p) (ph_pushed p)) Hf' Hr).
    destruct (pushEvents _ _ _ _ _ _ _ _) as [[e p'] r]. destruct IH as [-> IH]. split; [done|]. rewrite IH. cbn [ph_pushed ph_batches]. rewrite Himap.
    change (list_to_set [] : gset string) with (∅ : gset string). rewrite accepted_empty. unfold compose, id. lia.
Qed.

(** The push goes through the ids in order, in batches of the configured size,
    and never loops: whatever comes in, it has treated a prefix of the batches,
    all of them when it finishes, has sent exactly the events the store gave for
    them that the connection took, each once, and counts no more than it sent.
    When the relay acknowledges every event, in any order and among whatever else,
    it finishes and counts exactly the accepted ones. *)
Theorem push_exact pullBatchSize stored send answers haveIDs :
  let size := Z.to_nat (default_batch pullBatchSize) in
  let batches := chunks (length haveIDs) size haveIDs in
  let '(e, p, _) := pushEvents size stored send answers (length haveIDs) haveIDs [] newPush in
  concat batches = haveIDs /\ Forall (fun b => length b <= size) batches /\
  e <> OutOfFuel /\ ph_batches p `prefix_of` batches /\ (e = Finished -> ph_batches p = batches) /\
  ph_sent p = concat (imap (sent_of stored send) (ph_batches p)) /\ ph_pushed p <= length (ph_sent p) /\
  (forall ok, (forall n sent, acknowledges ok sent (answers n sent)) ->
     e = Finished /\ ph_pushed p = sum_list (imap (fun i b => base.size (accepted_of ok (ids_of (sent_of stored send i b)))) batches)).
Proof.
  intros size batches. assert (0 < size) as Hsize by (unfold size, default_batch; destruct (Z.leb_spec pullBatchSize 0); lia).
  pose proof (push_covers size stored send answers (length haveIDs) haveIDs [] newPush Hsize ltac:(done)) as HC.
  pose proof (push_bound size stored send answers (length haveIDs) haveIDs [] newPush ltac:(cbn; lia)) as HB.
  pose proof (fun ok Ha => push_counts ok size stored send answers (length haveIDs) haveIDs [] newPush Hsize Ha ltac:(done) eq_refl) as HN.
  destruct (pushEvents _ _ _ _ _ _ _ _) as [[e p] r]. destruct HC as (He & new & Eb & Hp & Hd & Es). cbn in Eb, Es, HB. subst new.
  split_and!; [by apply chunks_concat|apply Forall_forall; intros b; apply chunks_sizes|done|done|done|done|done|].
  intros ok Ha. by destruct (HN ok Ha) as [-> E].
Qed.

(** Three events, two at a time; the relay refuses one. *)
Definition ex_verdict (id : string) : bool := negb (String.eqb id "b").
Definition ex_acks (sent : list Event) : list input :=
  IReply SOther :: ((fun ev => IReply (SOk (ev_ID ev) (ex_verdict (ev_ID ev)))) <$> reverse sent).

Definition ex_stored (n : nat) (batch : list string) : list store_item := ((fun id => FoundEvent (ex_event id)) <$> batch) ++ [StoreEose].

Lemma ex_acks_all (n : nat) sent : acknowledges ex_verdict sent (ex_acks sent).
Proof.
  split.
  - unfold ex_acks. cbn [forallb verdict_input andb]. apply forallb_forall. intros i (ev & -> & _)%list_elem_of_In%list_elem_of_fmap. apply Bool.eqb_reflx.
  - unfold ids_of, oks, ex_acks. intros id (ev & -> & Hev)%elem_of_list_to_set%list_elem_of_fmap. apply elem_of_list_to_set, list_elem_of_omap.
    eexists. split; [right; apply list_elem_of_fmap_2; by apply elem_of_reverse|done].
Qed.

Definition ex_push : ending * push * list input :=
  pushEvents (Z.to_nat (default_batch 2)) ex_stored (fun _ _ => true) (fun _ => ex_acks) 3 ["a"; "b"; "c"]%string [] newPush.

Lemma push_exact_witness : ex_push.1.1 = Finished /\ ph_pushed ex_push.1.2 = 2.
Proof.
  unfold ex_push.
  pose proof (push_exact 2 ex_stored (fun _ _ => true) (fun _ => ex_acks) ["a"; "b"; "c"]%string) as HP.
  cbv zeta in HP. cbn [length] in HP. destruct (pushEvents _ _ _ _ _ _ _ _) as [[e p] r]. cbn [fst snd].
  destruct HP as (_ & _ & _ & _ & _ & _ & _ & HP). destruct (HP ex_verdict ex_acks_all) as [-> ->]. split; vm_compute; reflexivity.
Defined.

(** ** Reconciling *)

Section Reconcile.
Context `{Negentropy}.

Definition is_msg (p : packet) : bool := match p with NegMsg _ => true | _ => false end.

Lemma reconcile_rounds rounds neg inputs s :
  let '(e, s', rest) := reconcile rounds neg inputs s in
  exists used msgs, (e = Complete \/ e = MaxRounds -> inputs = used ++ rest) /\ length used <= rounds /\
    sy_sent s' = sy_sent s ++ msgs /\ forallb is_msg msgs = true /\ length msgs <= rounds.
Proof.
  assert (forall e n inputs s, e <> Complete -> e <> MaxRounds -> exists used msgs, (e = Complete \/ e = MaxRounds -> inputs = used ++ ([] : list input)) /\
    length (used : list input) <= n /\ sy_sent s = sy_sent s ++ msgs /\ forallb is_msg msgs = true /\ length msgs <= n) as Hend.
  { intros e n i t H1 H2. exists [], []. rewrite !app_nil_r. split_and!; [by intros [?|?]|cbn; lia|done|done|cbn; lia]. }
  revert neg inputs s. induction rounds as [|rounds IH]; intros neg inputs s; cbn [reconcile].
  { exists [], []. rewrite app_nil_r. split_and!; try done; cbn; lia. }
  assert (forall i inputs, let '(e, s', rest) := reconcile rounds neg inputs s in
    exists used msgs, (e = Complete \/ e = MaxRounds -> i :: inputs = used ++ rest) /\ length used <= S rounds /\
    sy_sent s' = sy_sent s ++ msgs /\ forallb is_msg msgs = true /\ length msgs <= S rounds) as Hskip.
  { intros i l. specialize (IH neg l s). destruct (reconcile _ _ _ _) as [[e s'] rest]. destruct IH as (used & msgs & U1 & U2 & U3 & U4 & U5).
    exists (i :: used), msgs. split_and!; [|cbn; lia|done|done|lia]. intros He. by rewrite (U1 He). }
  destruct inputs as [|[[ev| |id b|hex| |]| | |] inputs]; try (by apply Hend); try apply Hskip.
  destruct (FromHex hex) as [theirs|]; [|by apply Hend]. destruct (Reconcile neg theirs) as [[[[neg' ours] have] need]|]; [|by apply Hend].
  destruct (IsComplete ours).
  - exists [IReply (SNegMsg hex)], []. cbn. rewrite app_nil_r. split_and!; try done; lia.
  - destruct (ToHex ours) as [hex'|]; [|by apply (Hend Failed (S rounds) (IReply (SNegMsg hex) :: inputs) (mkSync (sy_sent s) (sy_have s ++ have) (sy_need s ++ need)))].
    cbn [sy_sent sy_have sy_need].
    specialize (IH neg' inputs (mkSync (sy_sent s ++ [NegMsg hex']) (sy_have s ++ have) (sy_need s ++ need))). destruct (reconcile _ _ _ _) as [[e s'] rest].
    destruct IH as (used & msgs & U1 & U2 & U3 & U4 & U5). exists (IReply (SNegMsg hex) :: used), (NegMsg hex' :: msgs). cbn in *. split_and!; [|lia| |done|lia].
    + intros He. by rewrite (U1 He).
    + by rewrite U3, <- app_assoc.
Qed.

Lemma move_spec dir mv s rest :
  let o := move dir mv s rest in
  oc_sync o = s /\
  (forall r, oc_pull o = Some r -> dir <> SyncUp /\ exists rest, r = (mv_pull mv (sy_need s) rest).1) /\
  (forall r, oc_push o = Some r -> dir <> SyncDown /\ exists rest, r = (mv_push mv (sy_have s) rest).1).
Proof.
  unfold move. destruct dir; cbn [pulls pushes].
  2: { cbn. split_and!; [done|done|]. intros r [= <-]. by eauto. }
  all: destruct (mv_pull mv (sy_need s) rest) as [[e1 p1] rest'] eqn:Ep; destruct e1; cbn; (split; [done|]); (split; intros r [= <-] || done);
    (split; [done|]); (by exists rest; rewrite Ep) || by eexists.
Qed.

(** However the relay answers, the exchange is an opening, at most a message per
    round and, when the rounds are over, a closing; only then is anything pulled or
    pushed, the ids found by then, as the direction says. *)
Theorem execute_bounded maxReconcileRounds dir mv neg inputs :
  let o := execute maxReconcileRounds dir mv neg inputs in
  (sy_sent (oc_sync o) = [] \/
   exists hex msgs fin, sy_sent (oc_sync o) = NegOpen hex :: msgs ++ fin /\ forallb is_msg msgs = true /\
     (length msgs <= Z.to_nat maxReconcileRounds)%nat /\ (fin = [] \/ fin = [NegClose]) /\
     (fin = [] -> oc_pull o = None /\ oc_push o = None)) /\
  (forall r, oc_pull o = Some r -> dir <> SyncUp /\ exists rest, r = (mv_pull mv (sy_need (oc_sync o)) rest).1) /\
  (forall r, oc_push o = Some r -> dir <> SyncDown /\ exists rest, r = (mv_push mv (sy_have (oc_sync o)) rest).1).
Proof.
  unfold execute. destruct (Initiate neg) as [neg' first]. destruct (ToHex first) as [hex|]; [|cbn; split_and!; [by left|done|done]].
  pose proof (reconcile_rounds (Z.to_nat maxReconcileRounds) neg' inputs (mkSync [NegOpen hex] [] [])) as HR.
  destruct (reconcile _ _ _ _) as [[e s] rest]. destruct HR as (used & msgs & _ & _ & Es & Hm & Hl). cbn in Es.
  set (s1 := mkSync (sy_sent s ++ [NegClose]) (sy_have s) (sy_need s)). destruct (move_spec dir mv s1 rest) as (M1 & M2 & M3).
  assert (exists fin, sy_sent s1 = NegOpen hex :: msgs ++ fin /\ fin = [NegClose]) as (fin & Ef & ->) by (exists [NegClose]; cbn; by rewrite Es).
  destruct e; cbn [oc_sync oc_pull oc_push]; rewrite ?M1; (split; [|done]); right; exists hex, msgs.
  1-2: exists [NegClose]; split_and!; auto; done.
  all: exists []; rewrite app_nil_r; split_and!; auto.
Qed.

(** Notices use up the rounds: the rest of the synchronisation goes on with what
    was found before them. *)
Lemma notices_are_rounds rounds neg s : reconcile rounds neg (replicate rounds (IReply SOther)) s = (MaxRounds, s, []).
Proof. induction rounds as [|rounds IH]; [done|]. exact IH. Qed.

End Reconcile.
