(* ===== verification/ClientTargets.v ===== *)
(** * Asking and publishing to several targets

    Models the loops over targets: [mergeEventsFromTargets] and [Find] of
    [src/client/client.go], [PublishEvent] and [PublishToTargets] of
    [src/client/publish.go].  What a target answers is a parameter: reading from a
    relay is [readEventsWithFallback], whose session is modelled in [ClientLogin],
    and publishing is the session's [publish].  Writing files and printing are
    left out. *)
From S2P Require Import Prelude Nostr.
From stdpp Require Import options.

(** ** Targets *)

(** [FlowType] *)
Inductive FlowType := FlowLocal | FlowRemote | FlowFile.

Record target := mkTarget { tg_killed : bool; tg_Type : FlowType; tg_name : string }.

Definition some_target (targets : list target) : bool := match targets with [] => false | _ => true end.

(** How reading from a relay fails. *)
Inductive read_error := ReadUnreachable | ReadTimeout | ReadLogin (e : string) | ReadOther (e : string).

Inductive failure := Fatal (e : string) | LoginFailed (e : string) | NoReachableTargets | Restricted.

Section Targets.
(** [ReadEventsFromStore], its directory included, and [readEventsWithFallback]
    with whether the relay restricted the query. *)
Context (readLocal : target -> result string (list Event)) (readRemote : target -> result read_error (list Event * bool)).

(** What one target gives to the loop: skipped (with a login's failure), its
    events, or the error that ends it. *)
Inductive given := Skipped (login : option string) | Answered (events : list Event) (restricted : bool) | Fails (e : string).

Definition ask (t : target) : given :=
  if tg_killed t then Skipped None else
  match tg_Type t with
  | FlowLocal => match readLocal t with Ok events => Answered events false | Err e => Fails e end
  | FlowRemote =>
      match readRemote t with
      | Ok (events, restricted) => Answered events restricted
      | Err ReadUnreachable | Err ReadTimeout => Skipped None
      | Err (ReadLogin e) => Skipped (Some e)
      | Err (ReadOther e) => Fails e
      end
  | FlowFile => Answered [] false
  end.

Record merging := mkMerging {
  mm_seen : gset string;
  mm_merged : list Event;
  mm_reached : bool;
  mm_restricted : bool;
  mm_login : option string;
}.

(** Adding a target's events. *)
Definition add_event (m : gset string * list Event) (ev : Event) : gset string * list Event :=
  if decide (ev_ID ev ∈ m.1) then m else ({[ev_ID ev]} ∪ m.1, m.2 ++ [ev]).

Definition first_login (a b : option string) : option string := match a with Some _ => a | None => b end.

Fixpoint merge_loop (targets : list target) (m : merging) : result string merging :=
  match targets with
  | [] => Ok m
  | t :: targets =>
      match ask t with
      | Skipped login => merge_loop targets (mkMerging (mm_seen m) (mm_merged m) (mm_reached m) (mm_restricted m) (first_login (mm_login m) login))
      | Answered events restricted =>
          let '(seen, merged) := fold_left add_event events (mm_seen m, mm_merged m) in
          merge_loop targets (mkMerging seen merged true (mm_restricted m || restricted) (mm_login m))
      | Fails e => Err e
      end
  end.

(** The checks after the loop, which [Find] has too. *)
Definition conclude (targets : list target) (events : list Event) (reached restricted : bool) (login : option string) : result failure (list Event) :=
  match events, login with
  | [], Some e => Err (LoginFailed e)
  | _, _ =>
      if negb reached && some_target targets then Err NoReachableTargets
      else match events with
           | [] => if restricted then Err Restricted else Ok []
           | _ => Ok events
           end
  end.

Definition mergeEventsFromTargets (targets : list target) : result failure (list Event) :=
  match merge_loop targets (mkMerging ∅ [] false false None) with
  | Err e => Err (Fatal e)
  | Ok m => conclude targets (mm_merged m) (mm_reached m) (mm_restricted m) (mm_login m)
  end.

Fixpoint find_loop (targets : list target) (reached restricted : bool) (login : option string) : result string (list Event * bool * bool * option string) :=
  match targets with
  | [] => Ok ([], reached, restricted, login)
  | t :: targets =>
      match ask t with
      | Skipped l => find_loop targets reached restricted (first_login login l)
      | Answered [] r => find_loop targets true (restricted || r) login
      | Answered events r => Ok (events, true, restricted || r, login)
      | Fails e => Err e
      end
  end.

(** [Find], up to printing. *)
Definition Find (targets : list target) : result failure (list Event) :=
  match find_loop targets false false None with
  | Err e => Err (Fatal e)
  | Ok (events, reached, restricted, login) => conclude targets events reached restricted login
  end.

End Targets.

(** ** Publishing *)

(** What [PublishEvent] waits for. *)
Inductive heard := HeardOk (id : string) (accepted : bool) (text : string) | HeardOther | HeardError (e : string) | HeardClosed | HeardDone (e : string) | HeardTimeout.

(** [PublishEvent] after a send; [None] while nothing more comes. *)
Fixpoint await_ok (id : string) (l : list heard) : option (result string unit) :=
  match l with
  | [] => None
  | HeardOk id' accepted text :: l =>
      if String.eqb id' id then Some (if accepted then Ok () else Err ("relay rejected event: " ++ text)%string) else await_ok id l
  | HeardOther :: l => await_ok id l
  | HeardError e :: _ | HeardDone e :: _ => Some (Err e)
  | HeardClosed :: _ => Some (Err "connection closed"%string)
  | HeardTimeout :: _ => Some (Err "timeout waiting for OK"%string)
  end.

Definition PublishEvent (sent : bool) (ev : Event) (l : list heard) : option (result string unit) :=
  if sent then await_ok (ev_ID ev) l else Some (Err "connection closed during send"%string).

Record PublishResult := mkPublishResult {
  pb_ID : string; pb_Relay : string; pb_Accepted : bool; pb_Message : string; pb_Error : string;
}.

Record PublishReport := mkReport {
  rp_Attempted : nat; rp_Succeeded : nat; rp_Failed : nat; rp_Results : list PublishResult; rp_LoginError : option string;
}.

Definition AllSucceeded (r : PublishReport) : bool := rp_Failed r =? 0.

Section Publish.
(** How a relay's dial fails, and the session's [publish]: the relay's message, or
    an error and whether it is a login's. *)
Inductive dial_error := DialUnreachable | DialOther (e : string).
Context (dial : target -> option dial_error) (publish : target -> Event -> result (string * bool) string).

Definition result_of (t : target) (ev : Event) : PublishResult :=
  match publish t ev with
  | Ok msg => mkPublishResult (ev_ID ev) (tg_name t) true msg ""
  | Err (e, _) => mkPublishResult (ev_ID ev) (tg_name t) false "" e
  end.

Definition publish_one (t : target) (r : PublishReport) (ev : Event) : PublishReport :=
  match publish t ev with
  | Ok _ => mkReport (S (rp_Attempted r)) (S (rp_Succeeded r)) (rp_Failed r) (rp_Results r ++ [result_of t ev]) (rp_LoginError r)
  | Err (e, login) =>
      mkReport (S (rp_Attempted r)) (rp_Succeeded r) (S (rp_Failed r)) (rp_Results r ++ [result_of t ev])
        (match rp_LoginError r with None => if login then Some e else None | some => some end)
  end.

Inductive publish_failure := OnlyRemote (t : target) | DialFailed (e : string) | PublishNoReachable.

(** The loop; the last part is what was sent before it ended. *)
Fixpoint publish_loop (targets : list target) (events : list Event) (reached : bool) (r : PublishReport) : result publish_failure (bool * PublishReport) * PublishReport :=
  match targets with
  | [] => (Ok (reached, r), r)
  | t :: targets =>
      if tg_killed t then publish_loop targets events reached r else
      match tg_Type t with
      | FlowRemote =>
          match dial t with
          | Some DialUnreachable => publish_loop targets events reached r
          | Some (DialOther e) => (Err (DialFailed e), r)
          | None => publish_loop targets events true (fold_left (publish_one t) events r)
          end
      | _ => (Err (OnlyRemote t), r)
      end
  end.

Definition PublishToTargets (targets : list target) (events : list Event) : result publish_failure PublishReport :=
  match (publish_loop targets events false (mkReport 0 0 0 [] None)).1 with
  | Err e => Err e
  | Ok (reached, r) => if negb reached && some_target targets then Err PublishNoReachable else Ok r
  end.

End Publish.

(** * Several targets: theorems

    [merge_exact] gives the merged answer by what all targets gave, each event
    once; [find_agrees] relates [Find] to it; [publish_report_exact] shows that a
    report lists every event on every relay that was reached. *)

(** ** Merging *)

(** The first event of each id. *)
Fixpoint first_by_id (l : list Event) : list Event :=
  match l with
  | [] => []
  | ev :: l => ev :: filter (fun x => ev_ID x <> ev_ID ev) (first_by_id l)
  end.

Lemma first_by_id_ids l id : id ∈ (ev_ID <$> first_by_id l) <-> id ∈ (ev_ID <$> l).
Proof.
  induction l as [|ev l IH]; cbn; [done|]. rewrite !elem_of_cons, <- IH. split.
  - intros [->|(x & -> & [_ Hx]%list_elem_of_filter)%list_elem_of_fmap]; [by left|right]. by apply list_elem_of_fmap_2.
  - intros [->|(x & -> & Hx)%list_elem_of_fmap]; [by left|]. destruct (decide (ev_ID x = ev_ID ev)) as [E|E]; [by left|right].
    apply list_elem_of_fmap_2. by apply list_elem_of_filter.
Qed.

Lemma first_by_id_sublist l : first_by_id l `sublist_of` l.
Proof. induction l as [|ev l IH]; cbn; [constructor|]. apply sublist_skip. etransitivity; [apply sublist_filter|exact IH]. Qed.

Lemma first_by_id_nodup l : NoDup (ev_ID <$> first_by_id l).
Proof.
  induction l as [|ev l IH]; cbn; [constructor|]. constructor.
  - intros (x & E & [Hx _]%list_elem_of_filter)%list_elem_of_fmap. by apply Hx.
  - eapply sublist_NoDup; [exact IH|]. apply fmap_sublist, sublist_filter.
Qed.

Lemma first_by_id_app l l' : first_by_id (l ++ l') = first_by_id l ++ filter (fun x => ev_ID x ∉ (ev_ID <$> l)) (first_by_id l').
Proof.
  induction l as [|ev l IH]; cbn.
  - induction (first_by_id l') as [|x xs IH]; [done|]. rewrite filter_cons, decide_True by (cbn; apply not_elem_of_nil). by rewrite <- IH.
  - rewrite IH, filter_app, list_filter_filter. do 2 f_equal. apply list_filter_iff. intros x. cbn. rewrite elem_of_cons. tauto.
Qed.

(** Adding events, from what was seen. *)
Lemma add_events l seen merged :
  fold_left add_event l (seen, merged) = (list_to_set (ev_ID <$> l) ∪ seen, merged ++ filter (fun x => ev_ID x ∉ seen) (first_by_id l)).
Proof.
  revert seen merged. induction l as [|ev l IH]; intros seen merged; cbn [fold_left first_by_id].
  - cbn. rewrite app_nil_r. f_equal. set_solver.
  - unfold add_event at 2. cbn [fst snd]. rewrite filter_cons, list_filter_filter. destruct (decide (ev_ID ev ∈ seen)) as [Hin|Hin]; rewrite IH.
    + rewrite decide_False by (intros H; by apply H). f_equal; [set_solver|]. f_equal. apply list_filter_iff. intros x. split; [|tauto]. intros Hx. split; [done|].
      intros E. apply Hx. by rewrite E.
    + rewrite decide_True by done. f_equal; [set_solver|]. rewrite <- app_assoc. cbn. do 2 f_equal. apply list_filter_iff. intros x. rewrite elem_of_union, elem_of_singleton. tauto.
Qed.

Section Merge.
Context (readLocal : target -> result string (list Event)) (readRemote : target -> result read_error (list Event * bool)).

Local Abbreviation ask := (ask readLocal readRemote).

Definition answer_of (t : target) : option (list Event * bool) := match ask t with Answered events r => Some (events, r) | _ => None end.
Definition login_of (t : target) : option string := match ask t with Skipped l => l | _ => None end.
Definition fatal_of (t : target) : option string := match ask t with Fails e => Some e | _ => None end.

(** What all targets together give. *)
Definition all_events (targets : list target) : list Event := concat (omap answer_of targets).*1.
Definition any_answer (targets : list target) : bool := existsb (fun t => bool_decide (is_Some (answer_of t))) targets.
Definition any_restricted (targets : list target) : bool := existsb (fun b => b) (omap answer_of targets).*2.

Definition first_fatal (targets : list target) : option string := head (omap fatal_of targets).
Definition first_login_of (targets : list target) : option string := head (omap login_of targets).

(** The target at the head. *)
Lemma all_events_cons t targets :
  all_events (t :: targets) = (match ask t with Answered events _ => events | _ => [] end ++ all_events targets)%list.
Proof. unfold all_events, answer_of. cbn. by destruct (ask t). Qed.

Lemma any_answer_cons t targets : any_answer (t :: targets) = match ask t with Answered _ _ => true | _ => any_answer targets end.
Proof. unfold any_answer, answer_of. cbn. by destruct (ask t). Qed.

Lemma any_restricted_cons t targets :
  any_restricted (t :: targets) = match ask t with Answered _ r => r | _ => false end || any_restricted targets.
Proof. unfold any_restricted, answer_of. cbn. by destruct (ask t). Qed.

Lemma first_fatal_cons t targets : first_fatal (t :: targets) = match ask t with Fails e => Some e | _ => first_fatal targets end.
Proof. unfold first_fatal, fatal_of. cbn. by destruct (ask t). Qed.

Lemma first_login_cons t targets :
  first_login_of (t :: targets) = first_login (match ask t with Skipped l => l | _ => None end) (first_login_of targets).
Proof. unfold first_login_of, login_of. cbn. destruct (ask t) as [[]| |]; done. Qed.

Lemma first_login_assoc a b c : first_login (first_login a b) c = first_login a (first_login b c).
Proof. by destruct a, b. Qed.

Lemma merge_loop_spec targets events reached restricted login :
  merge_loop readLocal readRemote targets (mkMerging (list_to_set (ev_ID <$> events)) (first_by_id events) reached restricted login)
  = match first_fatal targets with
    | Some e => Err e
    | None => Ok (mkMerging (list_to_set (ev_ID <$> (events ++ all_events targets))) (first_by_id (events ++ all_events targets))
                    (reached || any_answer targets) (restricted || any_restricted targets) (first_login login (first_login_of targets)))
    end.
Proof.
  revert events reached restricted login. induction targets as [|t targets IH]; intros events reached restricted login; cbn [merge_loop].
  - cbn. rewrite app_nil_r, !orb_false_r. by destruct login.
  - rewrite all_events_cons, any_answer_cons, any_restricted_cons, first_fatal_cons, first_login_cons.
    destruct (ask t) as [l|evs r|e]; cbn [mm_seen mm_merged mm_reached mm_restricted mm_login].
    + by rewrite IH, first_login_assoc.
    + rewrite add_events.
      assert (first_by_id events ++ filter (fun x => ev_ID x ∉ (list_to_set (ev_ID <$> events) : gset string)) (first_by_id evs) = first_by_id (events ++ evs)) as ->.
      { rewrite first_by_id_app. f_equal. apply list_filter_iff. intros x. by rewrite elem_of_list_to_set. }
      replace (list_to_set (ev_ID <$> evs) ∪ list_to_set (ev_ID <$> events) : gset string) with (list_to_set (ev_ID <$> (events ++ evs)) : gset string)
        by (rewrite fmap_app, list_to_set_app_L; apply (comm_L (∪))).
      rewrite IH, <- !app_assoc, orb_assoc, orb_true_r. by destruct (first_fatal targets).
    + done.
Qed.

(** [Find]'s loop stops at the first answer that has events. *)
Lemma find_loop_spec targets reached restricted login :
  match find_loop readLocal readRemote targets reached restricted login with
  | Err e => first_fatal targets = Some e
  | Ok ([], reached', restricted', login') =>
      first_fatal targets = None /\ all_events targets = [] /\ reached' = reached || any_answer targets /\
      restricted' = restricted || any_restricted targets /\ login' = first_login login (first_login_of targets)
  | Ok (evs, reached', _, _) => reached' = true /\ exists rest, all_events targets = evs ++ rest
  end.
Proof.
  revert reached restricted login. induction targets as [|t targets IH]; intros reached restricted login; cbn [find_loop].
  - rewrite !orb_false_r. split_and!; try done. by destruct login.
  - rewrite all_events_cons, any_answer_cons, any_restricted_cons, first_fatal_cons, first_login_cons.
    destruct (ask t) as [l|[|ev evs] r|e]; cbn [app].
    + specialize (IH reached restricted (first_login login l)). destruct (find_loop _ _ _ _ _ _) as [[[[[|ev evs] re] rs] lo]|e]; [|done|done].
      destruct IH as (? & ? & ? & ? & ->). by rewrite first_login_assoc.
    + specialize (IH true (restricted || r) login). destruct (find_loop _ _ _ _ _ _) as [[[[[|ev evs] re] rs] lo]|e]; [|done|done].
      destruct IH as (? & ? & -> & -> & ->). by rewrite orb_true_r, orb_assoc.
    + split; [done|]. by exists (all_events targets).
    + done.
Qed.

End Merge.

(** Merging asks every target that is not disabled and gives the first event of
    each id over all answers, in the order they came; the error of a store, or an
    unexpected one of a relay, ends it; with no event at all it reports the first
    failed login, that no target was reached, or that a relay restricted the
    query. *)
Theorem merge_exact readLocal readRemote targets :
  let events := all_events readLocal readRemote targets in
  mergeEventsFromTargets readLocal readRemote targets
  = match first_fatal readLocal readRemote targets with
    | Some e => Err (Fatal e)
    | None => conclude targets (first_by_id events) (any_answer readLocal readRemote targets) (any_restricted readLocal readRemote targets)
                (first_login_of readLocal readRemote targets)
    end /\
  NoDup (ev_ID <$> first_by_id events) /\ first_by_id events `sublist_of` events /\
  (forall id, id ∈ (ev_ID <$> first_by_id events) <-> id ∈ (ev_ID <$> events)).
Proof.
  intros events. split_and!; [|apply first_by_id_nodup|apply first_by_id_sublist|apply first_by_id_ids].
  unfold mergeEventsFromTargets. pose proof (merge_loop_spec readLocal readRemote targets [] false false None) as HM. cbn in HM. cbn. rewrite HM.
  by destruct (first_fatal readLocal readRemote targets).
Qed.

(** Whenever the merge succeeds, so does [Find]: it is empty when the merge is, and
    otherwise gives events the merge has. *)
Theorem find_agrees readLocal readRemote targets merged :
  mergeEventsFromTargets readLocal readRemote targets = Ok merged ->
  exists events, Find readLocal readRemote targets = Ok events /\ (events = [] <-> merged = []) /\
    forall id, id ∈ (ev_ID <$> events) -> id ∈ (ev_ID <$> merged).
Proof.
  unfold mergeEventsFromTargets, Find. pose proof (merge_loop_spec readLocal readRemote targets [] false false None) as HM. cbn in HM. rewrite HM.
  pose proof (find_loop_spec readLocal readRemote targets false false None) as HF.
  destruct (first_fatal readLocal readRemote targets) as [e|]; [done|]. cbn [mm_merged mm_reached mm_restricted mm_login].
  destruct (find_loop _ _ _ _ _ _) as [[[[[|ev evs] re] rs] lo]|e]; [| |done].
  - destruct HF as (_ & He & -> & -> & ->). rewrite He. intros HC.
    assert (merged = []) as -> by (revert HC; cbn; repeat case_match; congruence). by exists [].
  - destruct HF as (-> & rest & He). rewrite He. intros HC. exists (ev :: evs). split; [done|].
    assert (merged = first_by_id ((ev :: evs) ++ rest)) as ->.
    { revert HC. cbn [first_by_id app conclude]. case_match; [done|]. by intros [= <-]. }
    split; [done|]. intros id Hid. apply first_by_id_ids. rewrite fmap_app, elem_of_app. by left.
Qed.

(** ** Publishing *)

Section Publish.
Context (dial : target -> option dial_error) (publish : target -> Event -> result (string * bool) string).

Local Abbreviation publish_loop := (publish_loop dial publish).
Local Abbreviation publish_one := (publish_one publish).
Local Abbreviation result_of := (result_of publish).

(** The relays that are reached. *)
Definition connected (t : target) : bool :=
  negb (tg_killed t) && match tg_Type t with FlowRemote => match dial t with None => true | _ => false end | _ => false end.

Definition pairs (targets : list target) (events : list Event) : list (target * Event) :=
  t ← filter (fun t => connected t = true) targets; pair t <$> events.

Definition login_failure (te : target * Event) : option string :=
  match publish te.1 te.2 with Err (e, true) => Some e | _ => None end.

(** A report that lists these results. *)
Record reports (ps : list (target * Event)) (r : PublishReport) : Prop := {
  rs_results : rp_Results r = (fun te => result_of te.1 te.2) <$> ps;
  rs_attempted : rp_Attempted r = length ps;
  rs_succeeded : rp_Succeeded r = length (filter (fun x => pb_Accepted x = true) (rp_Results r));
  rs_failed : rp_Failed r = length (filter (fun x => pb_Accepted x = false) (rp_Results r));
  rs_login : rp_LoginError r = head (omap login_failure ps);
}.

Lemma head_snoc {A} (l : list A) (x : option A) : head (l ++ option_list x) = match head l with None => x | some => some end.
Proof. destruct l; [by destruct x|done]. Qed.

Lemma publish_one_reports ps t ev r : reports ps r -> reports (ps ++ [(t, ev)]) (publish_one t r ev).
Proof.
  intros [H1 H2 H3 H4 H5].
  assert (head (omap login_failure (ps ++ [(t, ev)])) = match rp_LoginError r with None => login_failure (t, ev) | some => some end) as El.
  { rewrite omap_app, H5, <- head_snoc. by do 2 f_equal. }
  change (login_failure (t, ev)) with (match publish t ev with Err (e, true) => Some e | _ => None end) in El. unfold ClientTargets.publish_one.
  assert (pb_Accepted (result_of t ev) = is_ok (publish t ev)) as Ea by (unfold ClientTargets.result_of; by destruct (publish t ev) as [|[]]).
  assert (forall b, length (filter (fun x => pb_Accepted x = b) (rp_Results r ++ [result_of t ev]))
    = length (filter (fun x => pb_Accepted x = b) (rp_Results r)) + if Bool.eqb (is_ok (publish t ev)) b then 1 else 0) as Ec.
  { intros b. rewrite filter_app, length_app, filter_cons, filter_nil, Ea. by destruct (is_ok (publish t ev)), b. }
  destruct (publish t ev) as [msg|[e login]]; cbn [is_ok Bool.eqb] in Ec; (split; cbn [rp_Results rp_Attempted rp_Succeeded rp_Failed rp_LoginError];
    [by rewrite fmap_app, H1|rewrite length_app, H2; cbn; lia|rewrite Ec, H3; cbn; lia|rewrite Ec, H4; cbn; lia|rewrite El; by destruct (rp_LoginError r)]).
Qed.

Lemma publish_events_reports t events ps r : reports ps r -> reports (ps ++ (pair t <$> events)) (fold_left (publish_one t) events r).
Proof.
  revert ps r. induction events as [|ev events IH]; intros ps r HR; cbn; [by rewrite app_nil_r|].
  specialize (IH (ps ++ [(t, ev)]) (publish_one t r ev) (publish_one_reports ps t ev r HR)). by rewrite <- app_assoc in IH.
Qed.

Lemma pairs_cons t targets events : pairs (t :: targets) events = (if connected t then pair t <$> events else []) ++ pairs targets events.
Proof. unfold pairs. rewrite filter_cons. destruct (connected t) eqn:E; [by rewrite decide_True|by rewrite decide_False by congruence]. Qed.

Lemma publish_loop_reports targets events reached ps r reached' r' :
  reports ps r -> (publish_loop targets events reached r).1 = Ok (reached', r') ->
  reports (ps ++ pairs targets events) r' /\ reached' = reached || existsb connected targets.
Proof.
  revert reached ps r. induction targets as [|t targets IH]; intros reached ps r HR; cbn [ClientTargets.publish_loop].
  - intros [= <- <-]. cbn. by rewrite app_nil_r, orb_false_r.
  - rewrite pairs_cons. cbn [existsb].
    assert (connected t = negb (tg_killed t) && match tg_Type t with FlowRemote => match dial t with None => true | _ => false end | _ => false end) as -> by done.
    destruct (tg_killed t); cbn [negb andb orb app]; [by apply IH|].
    destruct (tg_Type t); [done| |done]. destruct (dial t) as [[|e]|]; cbn [app orb]; [by apply IH|done|].
    intros [H1 ->]%(IH true (ps ++ (pair t <$> events))); [|by apply publish_events_reports]. rewrite <- app_assoc in H1. by rewrite orb_true_r.
Qed.

(** Without a target that ends it, the loop gives a report. *)
Lemma publish_loop_ok targets events reached r :
  (forall t, t ∈ targets -> tg_killed t = false -> tg_Type t = FlowRemote /\ (dial t = None \/ dial t = Some DialUnreachable)) ->
  exists x, (publish_loop targets events reached r).1 = Ok x.
Proof.
  revert reached r. induction targets as [|t targets IH]; intros reached r Ht; cbn [ClientTargets.publish_loop]; [by eexists|].
  destruct (tg_killed t) eqn:Ek; [apply IH; intros x Hx; apply Ht; by right|].
  destruct (Ht t ltac:(left) Ek) as [-> [-> | ->]]; apply IH; intros x Hx; apply Ht; by right.
Qed.

End Publish.

(** When every enabled target is a relay that connects or cannot be reached,
    publishing reports each event on each relay that connected, in order, and
    nothing else: the counts add up, all succeeded exactly when each was accepted,
    the login error is the first one, and only when no relay connected is there
    an error instead. *)
Theorem publish_report_exact dial publish targets events :
  (forall t, t ∈ targets -> tg_killed t = false -> tg_Type t = FlowRemote /\ (dial t = None \/ dial t = Some DialUnreachable)) ->
  let ps := pairs dial targets events in
  match PublishToTargets dial publish targets events with
  | Ok r => (targets = [] \/ existsb (connected dial) targets = true) /\
      rp_Results r = (fun te => result_of publish te.1 te.2) <$> ps /\
      rp_Attempted r = (length events * length (filter (fun t => connected dial t = true) targets))%nat /\
      rp_Succeeded r + rp_Failed r = rp_Attempted r /\
      (AllSucceeded r = true <-> forall t ev, (t, ev) ∈ ps -> is_ok (publish t ev) = true) /\
      rp_LoginError r = head (omap (login_failure publish) ps)
  | Err e => e = PublishNoReachable /\ targets <> [] /\ existsb (connected dial) targets = false
  end.
Proof.
  intros Ht ps. unfold PublishToTargets.
  destruct (publish_loop_ok dial publish targets events false (mkReport 0 0 0 [] None) Ht) as [[reached r] E]. rewrite E.
  destruct (publish_loop_reports dial publish targets events false [] (mkReport 0 0 0 [] None) reached r) as [[H1 H2 H3 H4 H5] ->]; [by split|done|].
  cbn [app orb] in *. fold ps in H1, H2, H5.
  enough (rp_Attempted r = (length events * length (filter (fun t => connected dial t = true) targets))%nat /\
    rp_Succeeded r + rp_Failed r = rp_Attempted r /\ (AllSucceeded r = true <-> forall t ev, (t, ev) ∈ ps -> is_ok (publish t ev) = true)) as (G1 & G2 & G3).
  { destruct (existsb (connected dial) targets); cbn [negb andb]; [auto 10|]. destruct targets; cbn [some_target]; [auto 10|done]. }
  split_and!.
  - rewrite H2. subst ps. unfold pairs. clear. induction (filter (fun t => connected dial t = true) targets) as [|t l IH]; cbn; [lia|].
    change (length ((pair t <$> events) ++ (t' ← l; pair t' <$> events)) = length events * S (length l)). rewrite length_app, IH, length_fmap. lia.
  - rewrite H3, H4, H2, H1. clear. induction ps as [|te ps IH]; [done|]. rewrite fmap_cons, !filter_cons. cbn [length].
    destruct (pb_Accepted (result_of publish te.1 te.2)); repeat case_decide; cbn [length]; done || lia.
  - unfold AllSucceeded. rewrite Nat.eqb_eq, H4, H1. rewrite length_zero_iff_nil. split.
    + intros Hn t ev Hin. destruct (publish t ev) as [|[e l]] eqn:Ep; [done|]. exfalso.
      assert (result_of publish t ev ∈ filter (fun x => pb_Accepted x = false) ((fun te => result_of publish te.1 te.2) <$> ps)) as Hf.
      { apply list_elem_of_filter. split; [unfold result_of; by rewrite Ep|]. by apply (list_elem_of_fmap_2 (fun te => result_of publish te.1 te.2) ps (t, ev)). }
      rewrite Hn in Hf. by apply elem_of_nil in Hf.
    + intros Hall. apply elem_of_nil_inv. intros x [Hx ([t ev] & -> & Hin)%list_elem_of_fmap]%list_elem_of_filter. specialize (Hall t ev Hin).
      unfold result_of in Hx. cbn in Hx. destruct (publish t ev) as [|[]]; done.
Qed.

(** ** Witnesses *)

Definition ex_target (name : string) : target := mkTarget false FlowRemote name.
Definition ex_note (id : string) : Event := mkEvent id "alice" 0 1 [] "" "".

(** One relay connects and refuses the second event, the other is down. *)
Definition ex_dial (t : target) : option dial_error := if String.eqb (tg_name t) "down" then Some DialUnreachable else None.
Definition ex_publish (t : target) (ev : Event) : result (string * bool) string :=
  if String.eqb (ev_ID ev) "b" then Err ("blocked"%string, false) else Ok ""%string.

Lemma publish_report_exact_witness :
  match PublishToTargets ex_dial ex_publish [ex_target "up"; ex_target "down"] [ex_note "a"; ex_note "b"] with
  | Ok r => rp_Attempted r = 2 /\ AllSucceeded r = false
  | Err _ => False
  end.
Proof.
  pose proof (publish_report_exact ex_dial ex_publish [ex_target "up"; ex_target "down"] [ex_note "a"; ex_note "b"]) as HP.
  cbv zeta in HP. destruct (PublishToTargets _ _ _ _) as [r|e] eqn:E.
  - destruct HP as (_ & _ & H1 & _ & _ & _); [|split; [exact H1|]; vm_compute in E; by injection E as <-].
    intros t [->|[->|[]%elem_of_nil]%elem_of_cons]%elem_of_cons _; (split; [done|]); [by left|by right].
  - by vm_compute in E.
Defined.

(** A local store after a relay: the events are on the relay, and the error has no
    report of them. *)
Lemma late_local_target :
  let targets := [ex_target "up"; mkTarget false FlowLocal "store"] in
  PublishToTargets ex_dial ex_publish targets [ex_note "a"] = Err (OnlyRemote (mkTarget false FlowLocal "store")) /\
  rp_Succeeded (publish_loop ex_dial ex_publish targets [ex_note "a"] false (mkReport 0 0 0 [] None)).2 = 1.
Proof. split; reflexivity. Qed.
