(* ===== verification/ClientDuration.v ===== *)
(** * Durations of the client's specs

    Models [ParseDuration], [parseDuration], [parseUnitDuration] and
    [ParseDurationUnit] of [src/client/spec.go], which the bunker's grants use
    too.  The source walks over the text with one index and skips what an earlier
    round consumed; the model consumes it.  Numbers are [float64], so
    [duration_exact] shows which sums of whole units are exact.  Converting a
    [float64] out of an [int64]'s range is left to the processor by Go, and is a
    parameter. *)
From S2P Require Import Prelude GoTime GoFloat GoStrings.
From Stdlib Require Import Ascii QArith.
From stdpp Require Import options.

Local Open Scope Z_scope.

Definition HoursPerDay : Z := 24.
Definition HoursPerWeek : Z := 168.
Definition DaysPerMonth : Z := 30.
Definition HoursPerMonth : Z := HoursPerDay * DaysPerMonth.

(** A digit or a point. *)
Definition number_byte (c : ascii) : bool := is_digit c || Ascii.eqb c ".".

Fixpoint span_bytes (f : ascii -> bool) (s : string) : string * string :=
  match s with
  | EmptyString => (""%string, ""%string)
  | String c s' => if f c then let '(a, b) := span_bytes f s' in (String c a, b) else (""%string, s)
  end.

(** [strconv.ParseFloat] on digits and points: the digits as an integer and how
    many follow the point. *)
Fixpoint decimal (s : string) (acc : Z) (scale : option Z) (digits : bool) : option (Z * Z) :=
  match s with
  | EmptyString => if digits then Some (acc, default 0 scale) else None
  | String c s =>
      if Ascii.eqb c "." then match scale with Some _ => None | None => decimal s acc (Some 0) digits end
      else d ← digit_of c; decimal s (acc * 10 + d) (Z.add 1 <$> scale) true
  end.

Definition ParseFloat (s : string) : option float64 :=
  '(n, k) ← decimal s 0 None false;
  let x := float64_round (Qmake n (Z.to_pos (10 ^ k))) in
  if Qle_bool (inject_Z (2 ^ 1024)) x then None else Some x.

Section Duration.
(** [int64] of a [float64] that is out of range. *)
Context (out_of_range : float64 -> Z).

Definition to_int64 (x : float64) : Z :=
  let z := int64_of_float x in
  if (min_int64 <=? z) && (z <=? max_int64) then z else out_of_range x.

Definition parseUnitDuration (number : float64) (unit : string) : option Z :=
  let hours (h : Z) := to_int64 (float64_mul (float64_mul number (float64_of h)) (float64_of Hour)) in
  if String.eqb unit "h" then Some (to_int64 (float64_mul number (float64_of Hour)))
  else if String.eqb unit "mo" then Some (hours HoursPerMonth)
  else if String.eqb unit "m" then Some (to_int64 (float64_mul number (float64_of Minute)))
  else if String.eqb unit "s" then Some (to_int64 (float64_mul number (float64_of Second)))
  else if String.eqb unit "d" then Some (hours HoursPerDay)
  else if String.eqb unit "w" then Some (hours HoursPerWeek)
  else None.

(** The loop: a number, a unit, and what follows. *)
Fixpoint duration_units (fuel : nat) (s : string) (total : Z) : option Z :=
  if is_empty s then Some total else
  match fuel with
  | O => None
  | S fuel =>
      let '(numberStr, rest) := span_bytes number_byte s in
      if is_empty rest then None
      else
        let '(unit, rest) := span_bytes (fun c => negb (number_byte c)) rest in
        number ← ParseFloat numberStr;
        d ← parseUnitDuration number unit;
        duration_units fuel rest (wrap64 (total + d))
  end.

Definition parseDuration (s : string) : option Z :=
  let s := ReplaceAll s " " "" in
  let '(sign, s) := match CutPrefix s "-" with
                    | Some r => (-1, r)
                    | None => (1, default s (CutPrefix s "+"))
                    end in
  total ← duration_units (String.length s) s 0;
  Some (to_int64 (float64_mul (float64_of total) (inject_Z sign))).

Definition ParseDuration (s : string) : option Z := parseDuration s.

(** [strconv.ParseUint] with base 10 and 64 bits. *)
Definition ParseUint (s : string) : option Z :=
  if is_empty s then None else
  n ← parse_digits s 0; if n <? 2 ^ 64 then Some n else None.

Definition ParseDurationUnit (now : Z) (input : string) (past : bool) : option Z :=
  if is_empty (ReplaceAll input " " "") then Some 0
  else match ParseUint input with
       | Some n => Some n
       | None =>
           d ← parseDuration input;
           Some ((Time_Unix (Time_Add now (if past then wrap64 (- d) else d))) mod 2 ^ 64)
       end.

End Duration.

(** ** Exact arithmetic *)

Lemma exponent_below b n d : 0 <= b -> 0 < n -> 0 < d -> n < 2 ^ b * d -> exponent n d < b.
Proof.
  intros Hb Hn Hd Hlt. unfold exponent.
  pose proof (Z.log2_spec n Hn) as [Hn1 Hn2]. pose proof (Z.log2_spec d Hd) as [Hd1 Hd2].
  pose proof (Z.log2_nonneg n). pose proof (Z.log2_nonneg d). set (x := Z.log2 n) in *. set (y := Z.log2 d) in *.
  destruct (Z.lt_ge_cases (x - y) b) as [Hk|Hk]; [repeat case_match; lia|].
  rewrite (proj2 (Z.leb_le 0 (x - y))) by lia. destruct (Z.eq_dec (x - y) b) as [->|Hne].
  - rewrite (proj2 (Z.ltb_lt _ _)) by lia. lia.
  - exfalso. assert (2 ^ (b + Z.succ y) <= 2 ^ x) as Hpow by (apply Z.pow_le_mono_r; lia). rewrite Z.pow_add_r in Hpow by lia.
    assert (2 ^ b * d < 2 ^ b * 2 ^ Z.succ y) by (apply Z.mul_lt_mono_pos_l; [by apply Z.pow_pos_nonneg|lia]). lia.
Qed.

(** Whole multiples of 512 below [2^62], of either sign, are kept. *)
Lemma float64_round_whole x z : (x == inject_Z z)%Q -> Z.abs z < 2 ^ 62 -> (512 | z) -> (float64_round x == inject_Z z)%Q.
Proof.
  destruct x as [n d]. intros Hx Hz [q Hq]. unfold Qeq in Hx. cbn [Qnum Qden inject_Z] in Hx. rewrite Z.mul_1_r in Hx. subst n.
  unfold float64_round. cbn [Qnum Qden]. rewrite Z.abs_mul, Z.sgn_mul, (Z.abs_eq (Zpos d)), (Z.sgn_pos (Zpos d)), Z.mul_1_r by lia.
  destruct (Z.eqb_spec (Z.abs z * Zpos d) 0) as [E|E]; [unfold Qeq; cbn; nia|].
  assert (0 < Z.abs z) as Hpos by nia.
  assert (exponent (Z.abs z * Zpos d) (Zpos d) < 62) as He by (apply exponent_below; nia).
  set (s := 52 - exponent (Z.abs z * Zpos d) (Zpos d)) in *.
  pose proof (Z.sgn_abs z) as Hsg. destruct (Z.leb_spec 0 s) as [Hs|Hs].
  - replace (Z.abs z * Zpos d * 2 ^ s) with ((Z.abs z * 2 ^ s) * Zpos d) by lia. rewrite round_half_even_exact by lia.
    assert (0 < 2 ^ s) by (apply Z.pow_pos_nonneg; lia).
    rewrite Qred_correct. unfold Qeq. cbn [Qnum Qden inject_Z].
    rewrite Z2Pos.id by lia. nia.
  - assert (exists r, Z.abs z = r * 2 ^ (- s)) as [r Hr].
    { exists (Z.abs q * 2 ^ (9 + s)). rewrite <- Z.mul_assoc, <- Z.pow_add_r by lia. replace (9 + s + - s) with 9 by lia. lia. }
    assert (0 < 2 ^ (- s)) by (apply Z.pow_pos_nonneg; lia).
    rewrite Hr. replace (r * 2 ^ (- s) * Zpos d) with (r * (Zpos d * 2 ^ (- s))) by lia. rewrite round_half_even_exact by lia. rewrite <- Hr.
    rewrite Qred_correct. unfold Qeq. cbn. nia.
Qed.

Lemma int64_of_whole x z : (x == inject_Z z)%Q -> int64_of_float x = z.
Proof. destruct x as [n d]. unfold Qeq, int64_of_float. cbn. rewrite Z.mul_1_r. intros ->. apply Z.quot_mul. lia. Qed.

Lemma to_int64_whole out x z : (x == inject_Z z)%Q -> Z.abs z < 2 ^ 62 -> to_int64 out x = z.
Proof.
  intros Hx Hz. unfold to_int64. rewrite (int64_of_whole x z Hx). unfold min_int64, max_int64, two63.
  rewrite (proj2 (Z.leb_le _ _)), (proj2 (Z.leb_le _ _)) by lia. done.
Qed.

Lemma float64_of_whole z : Z.abs z < 2 ^ 62 -> (512 | z) -> (float64_of z == inject_Z z)%Q.
Proof. intros. by apply float64_round_whole. Qed.

Lemma mul_whole x y a b :
  (x == inject_Z a)%Q -> (y == inject_Z b)%Q -> Z.abs (a * b) < 2 ^ 62 -> (512 | a * b) -> (float64_mul x y == inject_Z (a * b))%Q.
Proof. intros Hx Hy Hz Hd. apply float64_round_whole; [|done|done]. by rewrite Hx, Hy, <- inject_Z_mult. Qed.

Lemma mul_small x y a b :
  (x == inject_Z a)%Q -> (y == inject_Z b)%Q -> 0 <= a * b < max_exact -> (float64_mul x y == inject_Z (a * b))%Q.
Proof.
  intros Hx Hy Hz. assert (x * y == inject_Z (a * b))%Q as E by (by rewrite Hx, Hy, <- inject_Z_mult). unfold float64_mul.
  apply float64_round_small; [rewrite E; unfold Qle; cbn; lia|rewrite E; unfold Qlt; cbn; lia|done].
Qed.

(** ** Units *)

(** What a unit is worth. *)
Definition worth (unit : string) : option Z :=
  if String.eqb unit "h" then Some Hour
  else if String.eqb unit "mo" then Some (HoursPerMonth * Hour)
  else if String.eqb unit "m" then Some Minute
  else if String.eqb unit "s" then Some Second
  else if String.eqb unit "d" then Some (HoursPerDay * Hour)
  else if String.eqb unit "w" then Some (HoursPerWeek * Hour)
  else None.

Lemma hours_whole out x n h :
  (x == inject_Z n)%Q -> 0 < n -> 0 < h -> n * (h * Hour) < 2 ^ 62 ->
  to_int64 out (float64_mul (float64_mul x (float64_of h)) (float64_of Hour)) = n * (h * Hour).
Proof.
  intros Hx Hn Hh Hlt. assert (0 < n * h) by nia. assert (n * h < max_exact /\ h < max_exact) as [Hs1 Hs2] by (unfold max_exact, Hour, Minute, Second in *; nia).
  apply to_int64_whole; [|unfold Hour, Minute, Second in *; nia]. rewrite Z.mul_assoc. apply mul_whole.
  - apply mul_small; [done|by apply float64_of_exact; lia|lia].
  - apply float64_of_exact. unfold max_exact, Hour, Minute, Second. lia.
  - unfold Hour, Minute, Second in *. nia.
  - exists (n * h * 7031250000). unfold Hour, Minute, Second. lia.
Qed.

Lemma unit_whole out x n w :
  (x == inject_Z n)%Q -> 0 < n -> 0 < w < max_exact -> (512 | w) -> n * w < 2 ^ 62 ->
  to_int64 out (float64_mul x (float64_of w)) = n * w.
Proof.
  intros Hx Hn Hw Hd Hlt. assert (0 < n * w) by nia. apply to_int64_whole; [|lia]. apply mul_whole; [done|apply float64_of_exact; lia|lia|by apply Z.divide_mul_r].
Qed.

Lemma parseUnitDuration_whole out x n u w :
  (x == inject_Z n)%Q -> 0 < n -> worth u = Some w -> n * w < 2 ^ 62 -> parseUnitDuration out x u = Some (n * w).
Proof.
  intros Hx Hn. unfold worth, parseUnitDuration.
  assert (forall w, w = Hour \/ w = Minute \/ w = Second -> 0 < w < max_exact /\ (512 | w)) as Hw.
  { intros v [-> |[-> | ->]]; (split; [done|]); [exists 7031250000|exists 117187500|exists 1953125]; done. }
  repeat match goal with |- context [String.eqb u ?s] => destruct (String.eqb u s); [intros [= <-] Hlt|] end; try done; f_equal.
  all: first [apply hours_whole; done | apply unit_whole; (done || apply Hw; tauto)].
Qed.

(** ** Texts *)

Lemma decimal_digits s acc b :
  all_bytes is_digit s = true -> decimal s acc None b = (n ← parse_digits s acc; if b || negb (is_empty s) then Some (n, 0) else None).
Proof.
  revert acc b. induction s as [|c s IH]; intros acc b; cbn [all_bytes decimal parse_digits]; [intros _; cbn; by destruct b|].
  intros [Hc Hs]%andb_true_iff. unfold is_digit in Hc. destruct (digit_of c) as [d|] eqn:Ed; [|done].
  assert (Ascii.eqb c "." = false) as -> by (apply Ascii.eqb_neq; intros ->; done). cbn [mbind option_bind fmap option_fmap option_map].
  rewrite IH by done. replace (acc * 10 + d) with (10 * acc + d) by lia. cbn [is_empty negb]. rewrite orb_true_r. done.
Qed.

Lemma Itoa_parse n : 0 < n -> parse_digits (Itoa n) 0 = Some n.
Proof. intros Hn. rewrite Itoa_pos, parse_pretty by done. cbn. f_equal. lia. Qed.

Lemma ParseFloat_Itoa n : 0 < n < max_exact -> exists x, ParseFloat (Itoa n) = Some x /\ (x == inject_Z n)%Q.
Proof.
  intros Hn. unfold ParseFloat. rewrite decimal_digits by (apply Itoa_digits; lia). rewrite Itoa_parse by lia. cbn [mbind option_bind orb].
  rewrite (proj2 (is_empty_false _)) by (apply Itoa_nonempty; lia). cbn [negb mbind option_bind]. change (Z.to_pos (10 ^ 0)) with 1%positive.
  pose proof (float64_of_exact n ltac:(lia)) as E. unfold float64_of, inject_Z in E. fold (inject_Z n) in E |- *. exists (float64_round (inject_Z n)). split; [|done].
  destruct (Qle_bool (inject_Z (2 ^ 1024)) (float64_round (inject_Z n))) eqn:Eq; [|done]. exfalso. apply Qle_bool_iff in Eq. rewrite E in Eq.
  unfold Qle in Eq. cbn [Qnum Qden inject_Z] in Eq. rewrite !Z.mul_1_r in Eq. assert (2 ^ 53 < 2 ^ 1024) by (by apply Z.pow_lt_mono_r). unfold max_exact in Hn. lia.
Qed.

Definition starts (f : ascii -> bool) (s : string) : bool := match s with EmptyString => true | String c _ => f c end.

Lemma span_bytes_app f a b :
  all_bytes f a = true -> starts (fun c => negb (f c)) b = true -> span_bytes f (a ++ b) = (a, b).
Proof.
  intros Ha Hb. induction a as [|c a IH].
  - change ("" +:+ b) with b. destruct b as [|c b]; [done|]. cbn in Hb. apply negb_true_iff in Hb. cbn. by rewrite Hb.
  - cbn in Ha. apply andb_true_iff in Ha as [Hc Ha]. change (String c a +:+ b) with (String c (a +:+ b)). cbn. by rewrite Hc, (IH Ha).
Qed.

Lemma all_bytes_weaken (f g : ascii -> bool) s : (forall c, f c = true -> g c = true) -> all_bytes f s = true -> all_bytes g s = true.
Proof. intros Hfg. induction s as [|c s IH]; cbn; [done|]. intros [Hc Hs]%andb_true_iff. by rewrite (Hfg _ Hc), IH. Qed.

(** A written duration, and its length. *)
Fixpoint render (l : list (Z * string)) : string :=
  match l with
  | [] => ""
  | (n, u) :: l => Itoa n ++ u ++ render l
  end.

Definition field_ns (f : Z * string) : Z := f.1 * default 0 (worth f.2).
Fixpoint total_ns (l : list (Z * string)) : Z := match l with [] => 0 | f :: l => field_ns f + total_ns l end.

Definition proper_field (f : Z * string) : Prop := 0 < f.1 /\ is_Some (worth f.2).

Lemma worth_text u w : worth u = Some w -> u <> ""%string /\ all_bytes (fun c => negb (number_byte c)) u = true /\ 0 < w /\ Second <= w.
Proof.
  unfold worth.
  repeat match goal with |- context [String.eqb u ?s] => destruct (String.eqb_spec u s) as [->|]; [intros [= <-]; split_and!; done|] end. done.
Qed.

Lemma render_starts l : Forall proper_field l -> starts is_digit (render l) = true.
Proof.
  intros [|[n u] l' [Hn _] _]; [done|]. cbn [render fst] in *. pose proof (Itoa_digits n Hn) as Hd. pose proof (Itoa_nonempty n Hn) as Hne.
  destruct (Itoa n) as [|c s]; [done|]. cbn in Hd. apply andb_true_iff in Hd as [Hc _]. exact Hc.
Qed.

Lemma total_ns_nonneg l : Forall proper_field l -> 0 <= total_ns l /\ (512 | total_ns l).
Proof.
  induction 1 as [|[n u] l [Hn [w Hw]] _ [IH1 IH2]]; cbn [total_ns]; [split; [done|by exists 0]|]. unfold field_ns. cbn [fst snd] in *. rewrite Hw. cbn.
  destruct (worth_text _ _ Hw) as (_ & _ & Hp & _). split; [nia|]. apply Z.divide_add_r; [|done]. apply Z.divide_mul_r.
  revert Hw. clear. unfold worth. repeat match goal with |- context [String.eqb u ?s] => destruct (String.eqb u s); [intros [= <-]|] end; try done.
  all: apply Z.mod_divide; done.
Qed.

Lemma wrap64_small z : Z.abs z < 2 ^ 62 -> wrap64 z = z.
Proof. intros Hz. unfold wrap64, two63, two64. rewrite Z.mod_small; lia. Qed.

Lemma duration_units_exact out fuel l total :
  Forall proper_field l -> (String.length (render l) <= fuel)%nat -> 0 <= total -> total + total_ns l < 2 ^ 62 ->
  duration_units out fuel (render l) total = Some (total + total_ns l).
Proof.
  intros HF. revert fuel total. induction HF as [|[n u] l [Hn [w Hw]] HF IH]; intros fuel total Hf H0 Hlt.
  - destruct fuel; cbn; f_equal; lia.
  - cbn [fst snd] in *. pose proof (worth_text _ _ Hw) as (Hu & Hub & Hw0 & Hws). pose proof (total_ns_nonneg l HF) as [Ht _].
    cbn [total_ns] in *. unfold field_ns in *. cbn [fst snd] in *. rewrite Hw in *. cbn [default] in *. unfold id in *.
    pose proof (Itoa_nonempty n Hn) as Hne. pose proof (Itoa_digits n Hn) as Hd.
    assert (n * Second <= n * w) as Hge by (apply Z.mul_le_mono_nonneg_l; lia).
    assert (n < max_exact) as Hsmall by (unfold max_exact, Second in *; lia).
    assert (String.length (render ((n, u) :: l)) = String.length (Itoa n) + (String.length u + String.length (render l)))%nat as Hlen
      by (cbn [render]; by rewrite !length_append).
    rewrite Hlen in Hf. assert (0 < String.length (Itoa n))%nat as Hpos by (destruct (Itoa n); [done|cbn [String.length]; lia]).
    destruct fuel as [|fuel]; [lia|].
    cbn [duration_units]. rewrite (proj2 (is_empty_false (render _))) by (cbn [render]; destruct (Itoa n); done). cbn [render].
    rewrite (span_bytes_app number_byte (Itoa n)).
    2: { eapply all_bytes_weaken; [|exact Hd]. intros c Hc. unfold number_byte. by rewrite Hc. }
    2: { destruct u as [|c u]; [done|]. cbn in Hub. apply andb_true_iff in Hub as [Hc _]. exact Hc. }
    rewrite (proj2 (is_empty_false _)) by (destruct u; done). rewrite (span_bytes_app (fun c => negb (number_byte c)) u); [|done|].
    2: { pose proof (render_starts l HF) as Hs. destruct (render l) as [|c r]; [done|]. cbn in *. unfold number_byte. by rewrite Hs. }
    destruct (ParseFloat_Itoa n ltac:(lia)) as (x & -> & Hx). cbn [mbind option_bind].
    rewrite (parseUnitDuration_whole out x n u w) by (done || nia). cbn [mbind option_bind]. rewrite wrap64_small by nia.
    rewrite IH; [f_equal; lia|lia|nia|lia].
Qed.

Lemma CutPrefix_other c d r : c <> d -> CutPrefix (String c r) (String d "") = None.
Proof.
  intros Hne. destruct (CutPrefix (String c r) (String d "")) as [r'|] eqn:E; [|done]. apply CutPrefix_Some in E. by injection E as -> _.
Qed.

(** C27: a duration that is written as whole numbers of units (hours, months of 30
    days, minutes, seconds, days, weeks), spaced in any way and with or without a
    sign, is read back as exactly the sum of its parts, although the numbers go
    through floating point, as long as the sum is below 146 years. *)
Theorem duration_exact out sign l s :
  Forall proper_field l -> total_ns l < 2 ^ 62 -> sign = ""%string \/ sign = "+"%string \/ sign = "-"%string ->
  ReplaceAll s " " "" = (sign ++ render l)%string ->
  ParseDuration out s = Some (if String.eqb sign "-" then - total_ns l else total_ns l).
Proof.
  intros HF Hlt Hsign Hs. unfold ParseDuration, parseDuration. rewrite Hs. pose proof (total_ns_nonneg l HF) as [Ht0 Htd].
  assert (match CutPrefix (sign ++ render l) "-" with Some r => (-1, r) | None => (1, default (sign ++ render l)%string (CutPrefix (sign ++ render l) "+")) end
    = (if String.eqb sign "-" then -1 else 1, render l)) as ->.
  { destruct Hsign as [-> |[-> | ->]].
    - change ("" +:+ render l) with (render l). pose proof (render_starts l HF) as Hst. destruct (render l) as [|c r]; [done|]. cbn in Hst.
      rewrite !CutPrefix_other by (intros ->; done). done.
    - change ("+" +:+ render l) with (String "+" (render l)). rewrite (CutPrefix_other "+" "-" (render l)), (proj2 (CutPrefix_Some (String "+" (render l)) "+" (render l)) eq_refl) by done. done.
    - rewrite (proj2 (CutPrefix_Some _ "-" (render l)) eq_refl). done. }
  rewrite duration_units_exact by (done || lia). cbn [mbind option_bind]. rewrite Z.add_0_l. f_equal.
  set (sg := if String.eqb sign "-" then -1 else 1). assert (Z.abs (total_ns l * sg) < 2 ^ 62) by (unfold sg; destruct (String.eqb sign "-"); lia).
  rewrite (to_int64_whole out _ (total_ns l * sg)); [unfold sg; destruct (String.eqb sign "-"); lia| |done].
  apply mul_whole; [apply float64_of_whole; [lia|done]|done|done|by apply Z.divide_mul_l].
Qed.

Lemma duration_exact_witness :
  ParseDuration (fun _ => 0) "-1w 2d 12h" = Some (- (228 * Hour)).
Proof.
  apply (duration_exact (fun _ => 0) "-" [(1, "w"); (2, "d"); (12, "h")]%string).
  - repeat constructor; by eexists.
  - by vm_compute.
  - by right; right.
  - by vm_compute.
Defined.
