(* ===== verification/EventDiff.v ===== *)
(** * Comparing two events

    Models [src/cli/event/diff.go]: [diffEvents] (fields, tags as multisets, the
    content's lines) and [lineDiff] (a table of longest common subsequences,
    filled from the end, then walked from the start).  [json.Marshal] of a tag
    is the parameter [Marshal].

    Proved: the diff's lines give back both texts, and the lines it keeps are a
    longest common subsequence of them; the tags reported removed and added are
    the multiset differences, and two events are called the same exactly when
    they differ at most in the order of their tags. *)
From S2P Require Import Prelude GoTime GoStrings Nostr.
From stdpp Require Import options.
From Stdlib Require Import Ascii Permutation.

Local Open Scope nat_scope.

(** ** Lines *)

Definition maxDiffCells : Z := 4000000.

(** [lcs[i][j]], and the assignment to it; every index the code uses is in
    range. *)
Definition cell (t : list (list nat)) (i j : nat) : nat := default 0 (t !! i ≫= (.!! j)).
Definition set_cell (t : list (list nat)) (i j v : nat) : list (list nat) := alter (insert j v) i t.

(** [for j := m - 1; j >= 0; j--] and [for i := n - 1; i >= 0; i--]: [j] and
    [i] count what is left. *)
Fixpoint fill_row (a b : list string) (i j : nat) (t : list (list nat)) : list (list nat) :=
  match j with
  | O => t
  | S j =>
      let v := if bool_decide (a !! i = b !! j) then cell t (i + 1) (j + 1) + 1
               else Nat.max (cell t (i + 1) j) (cell t i (j + 1)) in
      fill_row a b i j (set_cell t i j v)
  end.

Fixpoint fill_rows (a b : list string) (i : nat) (t : list (list nat)) : list (list nat) :=
  match i with
  | O => t
  | S i => fill_rows a b i (fill_row a b i (length b) t)
  end.

Definition lcs_table (a b : list string) : list (list nat) :=
  fill_rows a b (length a) (replicate (length a + 1) (replicate (length b + 1) 0)).

Definition kept_line (l : string) : string := ("  " ++ l)%string.
Definition removed_line (l : string) : string := ("- " ++ l)%string.
Definition added_line (l : string) : string := ("+ " ++ l)%string.

(** The walk, and the two loops over what is left.  Each round advances [i] or
    [j], so [n + m] rounds are enough. *)
Fixpoint walk (a b : list string) (t : list (list nat)) (fuel i j : nat) : list string :=
  match fuel with
  | O => []
  | S fuel =>
      match a !! i, b !! j with
      | Some x, Some y =>
          if String.eqb x y then kept_line x :: walk a b t fuel (i + 1) (j + 1)
          else if Nat.leb (cell t i (j + 1)) (cell t (i + 1) j) then removed_line x :: walk a b t fuel (i + 1) j
          else added_line y :: walk a b t fuel i (j + 1)
      | Some x, None => removed_line x :: walk a b t fuel (i + 1) j
      | None, Some y => added_line y :: walk a b t fuel i (j + 1)
      | None, None => []
      end
  end.

Definition lineDiff (a b : list string) : list string :=
  let n := length a in
  let m := length b in
  if (maxDiffCells <? wrap64 (Z.of_nat n * Z.of_nat m))%Z then (removed_line <$> a) ++ (added_line <$> b)
  else walk a b (lcs_table a b) (n + m) 0 0.

(** ** Events *)

Inductive any := AnyString (s : string) | AnyInt (z : Z).

Record fieldChange := mkChange { fc_Field : string; fc_A : any; fc_B : any }.

(** [A] and [B], the arguments as given, are filled in by the command. *)
Record diffView := mkDiff {
  dv_Same : bool;
  dv_Fields : list fieldChange;
  dv_TagsRemoved : list (list string);
  dv_TagsAdded : list (list string);
  dv_Content : list string;
}.

Section Events.
Variable Marshal : list string -> string.

Definition tagKey (t : list string) : string := Marshal t.

Definition keyed (tags : list (list string)) : gmap string nat :=
  foldl (fun m t => <[tagKey t := S (default 0 (m !! tagKey t))]> m) ∅ tags.

(** The loop over one event's tags with the other's counts: the tags that are
    not matched. *)
Fixpoint unmatched (counts : gmap string nat) (tags : list (list string)) : list (list string) :=
  match tags with
  | [] => []
  | t :: tags =>
      match counts !! tagKey t with
      | Some (S n) => unmatched (<[tagKey t := n]> counts) tags
      | _ => t :: unmatched counts tags
      end
  end.

Definition when {A} (c : bool) (x : A) : list A := if c then [x] else [].

Definition differs (x y : string) : bool := negb (String.eqb x y).

Definition diffEvents (a b : Event) : diffView :=
  let removed := unmatched (keyed (ev_Tags b)) (ev_Tags a) in
  let added := unmatched (keyed (ev_Tags a)) (ev_Tags b) in
  let fields :=
    when (differs (ev_ID a) (ev_ID b)) (mkChange "id" (AnyString (ev_ID a)) (AnyString (ev_ID b))) ++
    when (differs (ev_PubKey a) (ev_PubKey b)) (mkChange "pubkey" (AnyString (ev_PubKey a)) (AnyString (ev_PubKey b))) ++
    when (negb (ev_Kind a =? ev_Kind b)%Z) (mkChange "kind" (AnyInt (ev_Kind a)) (AnyInt (ev_Kind b))) ++
    when (negb (ev_CreatedAt a =? ev_CreatedAt b)%Z)
      (mkChange "created_at" (AnyInt (ev_CreatedAt a)) (AnyInt (ev_CreatedAt b))) ++
    when (differs (ev_Sig a) (ev_Sig b)) (mkChange "sig" (AnyString (ev_Sig a)) (AnyString (ev_Sig b))) ++
    when (Nat.ltb 0 (length removed) || Nat.ltb 0 (length added))
      (mkChange "tags" (AnyInt (Z.of_nat (length (ev_Tags a)))) (AnyInt (Z.of_nat (length (ev_Tags b))))) ++
    when (differs (ev_Content a) (ev_Content b))
      (mkChange "content" (AnyInt (Z.of_nat (String.length (ev_Content a)))) (AnyInt (Z.of_nat (String.length (ev_Content b))))) in
  mkDiff (Nat.eqb (length fields) 0) fields removed added
    (if differs (ev_Content a) (ev_Content b)
     then lineDiff (Split (ev_Content a) "010") (Split (ev_Content b) "010") else []).
End Events.

(** ** Longest common subsequences *)

(** Their length, by the recurrence. *)
Fixpoint lcs (a : list string) : list string -> nat :=
  match a with
  | [] => fun _ => 0
  | x :: a' =>
      fix inner (b : list string) : nat :=
        match b with
        | [] => 0
        | y :: b' => if String.eqb x y then S (lcs a' b') else Nat.max (lcs a' b) (inner b')
        end
  end.

Lemma lcs_nil_r a : lcs a [] = 0.
Proof. by destruct a. Qed.

Lemma lcs_cons x a y b :
  lcs (x :: a) (y :: b) = if String.eqb x y then S (lcs a b) else Nat.max (lcs a (y :: b)) (lcs (x :: a) b).
Proof. done. Qed.

Lemma sublist_tail {A} (z x : A) l k : sublist (z :: l) (x :: k) -> sublist l k.
Proof.
  intros Hs. apply sublist_cons_r in Hs as [Hs|(l' & [= <- <-] & Hs)]; [|done].
  etrans; [|exact Hs]. by constructor.
Qed.

Lemma sublist_skip_head {A} (z x : A) l k : z <> x -> sublist (z :: l) (x :: k) -> sublist (z :: l) k.
Proof. intros Hz Hs. apply sublist_cons_r in Hs as [Hs|(l' & [= <- <-] & Hs)]; done. Qed.

(** No common subsequence is longer. *)
Lemma lcs_upper a b l : sublist l a -> sublist l b -> length l <= lcs a b.
Proof.
  revert b l. induction a as [|x a IHa]; intros b l Ha Hb.
  { apply sublist_nil_r in Ha as ->. done. }
  revert l Ha Hb. induction b as [|y b IHb]; intros l Ha Hb.
  { apply sublist_nil_r in Hb as ->. cbn. lia. }
  rewrite lcs_cons. destruct l as [|z l]; [cbn; lia|]. destruct (String.eqb_spec x y) as [->|Hxy].
  - cbn [length]. apply le_n_S, IHa; by eapply sublist_tail.
  - destruct (decide (z = x)) as [->|Hz].
    + assert (length (x :: l) <= lcs (x :: a) b); [|lia]. apply IHb; [done|]. by eapply sublist_skip_head.
    + assert (length (z :: l) <= lcs a (y :: b)); [|lia]. apply IHa; [|done]. by eapply sublist_skip_head.
Qed.

(** ** The table *)

Section Table.
Variables a b : list string.

(** A table of the right size that is correct at the cells [P]. *)
Record filled (P : nat -> nat -> Prop) (t : list (list nat)) : Prop := {
  fi_rows : length t = length a + 1;
  fi_cols : Forall (fun r => length r = length b + 1) t;
  fi_cell : forall i j, i <= length a -> j <= length b -> P i j -> cell t i j = lcs (drop i a) (drop j b);
}.

Lemma cell_set P t i j v i' j' :
  filled P t -> i <= length a -> j <= length b ->
  cell (set_cell t i j v) i' j' = if decide (i' = i /\ j' = j) then v else cell t i' j'.
Proof.
  intros [Hr Hc _] Hi Hj. unfold cell, set_cell.
  destruct (lookup_lt_is_Some_2 t i) as [r Hrow]; [lia|].
  assert (Hlr : length r = length b + 1) by (eapply (Forall_lookup_1 _ _ _ _ Hc); done).
  destruct (decide (i' = i)) as [->|Hn].
  - rewrite list_lookup_alter_eq, Hrow. cbn. destruct (decide (j' = j)) as [->|Hn'].
    + rewrite list_lookup_insert_eq by lia. by rewrite decide_True.
    + rewrite list_lookup_insert_ne by done. by rewrite decide_False by tauto.
  - rewrite list_lookup_alter_ne by done. by rewrite decide_False by tauto.
Qed.

Lemma set_cell_shape P t i j v :
  filled P t -> length (set_cell t i j v) = length a + 1 /\
  Forall (fun r => length r = length b + 1) (set_cell t i j v).
Proof.
  intros [Hr Hc _]. unfold set_cell. rewrite length_alter. split; [done|].
  apply Forall_alter; [done|]. intros r _ Hl. by rewrite length_insert.
Qed.

Lemma drop_lookup {A} (l : list A) i x : l !! i = Some x -> drop i l = x :: drop (i + 1) l.
Proof. intros Hx. rewrite Nat.add_1_r. by apply drop_S. Qed.

Lemma fill_row_filled i j t :
  i < length a -> j <= length b ->
  filled (fun i' j' => i < i' \/ (i' = i /\ j <= j') \/ j' = length b) t ->
  filled (fun i' j' => i <= i' \/ j' = length b) (fill_row a b i j t).
Proof.
  intros Hi. revert t. induction j as [|j IH]; intros t Hj Hf.
  - destruct Hf as [H1 H2 H3]. split; [done|done|]. intros i' j' Hi' Hj' Hp. apply H3; lia.
  - cbn [fill_row]. apply IH; [lia|].
    set (v := if bool_decide (a !! i = b !! j) then _ else _).
    assert (Hv : v = lcs (drop i a) (drop j b)).
    { destruct (lookup_lt_is_Some_2 a i) as [x Hx]; [done|]. destruct (lookup_lt_is_Some_2 b j) as [y Hy]; [lia|].
      unfold v. rewrite !(fi_cell _ _ Hf) by lia.
      rewrite (drop_lookup a i x Hx), (drop_lookup b j y Hy), lcs_cons, Hx, Hy, <- (drop_lookup b j y Hy), <- (drop_lookup a i x Hx).
      destruct (String.eqb_spec x y) as [->|Hn].
      - rewrite bool_decide_eq_true_2 by done. lia.
      - rewrite bool_decide_eq_false_2 by congruence. done. }
    destruct (set_cell_shape _ t i j v Hf) as [H1 H2]. split; [done|done|].
    intros i' j' Hi' Hj' Hp. rewrite (cell_set _ _ _ _ _ _ _ Hf) by lia.
    destruct (decide (i' = i /\ j' = j)) as [[-> ->]|Hn]; [done|]. apply (fi_cell _ _ Hf); lia.
Qed.

Lemma fill_rows_filled i t :
  i <= length a ->
  filled (fun i' j' => i <= i' \/ j' = length b) t ->
  filled (fun _ _ => True) (fill_rows a b i t).
Proof.
  revert t. induction i as [|i IH]; intros t Hi Hf.
  - destruct Hf as [H1 H2 H3]. split; [done|done|]. intros i' j' Hi' Hj' _. apply H3; lia.
  - cbn [fill_rows]. apply IH; [lia|]. apply fill_row_filled; [lia|lia|].
    destruct Hf as [H1 H2 H3]. split; [done|done|]. intros i' j' Hi' Hj' Hp. apply H3; lia.
Qed.

Lemma cell_zeros n m i j : cell (replicate n (replicate m 0)) i j = 0.
Proof.
  unfold cell. destruct (replicate n (replicate m 0) !! i) as [r|] eqn:E; [|done]. cbn.
  apply lookup_replicate in E as [-> _]. destruct (replicate m 0 !! j) as [v|] eqn:E'; [|done].
  by apply lookup_replicate in E' as [-> _].
Qed.

(** Every cell holds the length of a longest common subsequence of what is
    left of both texts. *)
Lemma lcs_table_cell i j :
  i <= length a -> j <= length b -> cell (lcs_table a b) i j = lcs (drop i a) (drop j b).
Proof.
  intros Hi Hj. apply (fi_cell (fun _ _ => True)); [|done..]. unfold lcs_table. apply fill_rows_filled; [done|].
  split.
  - by rewrite length_replicate.
  - apply Forall_replicate. by rewrite length_replicate.
  - intros i' j' Hi' Hj' Hp. rewrite cell_zeros. destruct Hp as [Hp| ->].
    + by rewrite (drop_ge a) by lia.
    + by rewrite (drop_ge b), lcs_nil_r by lia.
Qed.
End Table.

(** ** Reading a diff *)

(** The lines a diff keeps, and those of the first and of the second text. *)
Definition kept (l : string) : option string := CutPrefix l "  ".
Definition in_old (l : string) : option string :=
  match kept l with Some x => Some x | None => CutPrefix l "- " end.
Definition in_new (l : string) : option string :=
  match kept l with Some x => Some x | None => CutPrefix l "+ " end.

Lemma read_kept x :
  kept (kept_line x) = Some x /\ in_old (kept_line x) = Some x /\ in_new (kept_line x) = Some x.
Proof. unfold in_old, in_new, kept, CutPrefix, HasPrefix. by destruct x. Qed.

Lemma read_removed x :
  kept (removed_line x) = None /\ in_old (removed_line x) = Some x /\ in_new (removed_line x) = None.
Proof. unfold in_old, in_new, kept, CutPrefix, HasPrefix. by destruct x. Qed.

Lemma read_added x :
  kept (added_line x) = None /\ in_old (added_line x) = None /\ in_new (added_line x) = Some x.
Proof. unfold in_old, in_new, kept, CutPrefix, HasPrefix. by destruct x. Qed.

Local Ltac read_lines x :=
  destruct (read_kept x) as (? & ? & ?); destruct (read_removed x) as (? & ? & ?);
  destruct (read_added x) as (? & ? & ?).

Lemma omap_cons_of {A B} (f : A -> option B) x l :
  omap f (x :: l) = match f x with Some y => y :: omap f l | None => omap f l end.
Proof. done. Qed.

(** The walk reads each text to its end, and keeps as many lines as the table
    promises. *)
Lemma walk_exact a b fuel i j :
  i <= length a -> j <= length b -> length a - i + (length b - j) <= fuel ->
  omap in_old (walk a b (lcs_table a b) fuel i j) = drop i a /\
  omap in_new (walk a b (lcs_table a b) fuel i j) = drop j b /\
  length (omap kept (walk a b (lcs_table a b) fuel i j)) = lcs (drop i a) (drop j b).
Proof.
  revert i j. induction fuel as [|fuel IH]; intros i j Hi Hj Hf.
  { cbn. rewrite !drop_ge by lia. done. }
  cbn [walk]. destruct (a !! i) as [x|] eqn:Hx; destruct (b !! j) as [y|] eqn:Hy.
  - pose proof (lookup_lt_Some _ _ _ Hx). pose proof (lookup_lt_Some _ _ _ Hy).
    rewrite !lcs_table_cell by lia.
    rewrite (drop_lookup a i x Hx), (drop_lookup b j y Hy), lcs_cons, <- (drop_lookup b j y Hy), <- (drop_lookup a i x Hx).
    destruct (String.eqb_spec x y) as [<-|Hn]; [|destruct (Nat.leb_spec (lcs (drop i a) (drop (j + 1) b)) (lcs (drop (i + 1) a) (drop j b))) as [Hle|Hgt]].
    + destruct (IH (i + 1) (j + 1)) as (K1 & K2 & K3); [lia..|]. read_lines x. rewrite !omap_cons_of.
      repeat case_match; simplify_eq. rewrite K1, K2, (drop_lookup a i _ Hx), (drop_lookup b j _ Hy). cbn [length]. by rewrite K3.
    + destruct (IH (i + 1) j) as (K1 & K2 & K3); [lia..|]. read_lines x. rewrite !omap_cons_of.
      repeat case_match; simplify_eq. rewrite K1, K2, K3. split_and!; [by rewrite (drop_lookup a i x Hx)|done|lia].
    + destruct (IH i (j + 1)) as (K1 & K2 & K3); [lia..|]. read_lines y. rewrite !omap_cons_of.
      repeat case_match; simplify_eq. rewrite K1, K2, K3. split_and!; [done|by rewrite (drop_lookup b j y Hy)|lia].
  - pose proof (lookup_lt_Some _ _ _ Hx). apply lookup_ge_None in Hy.
    destruct (IH (i + 1) j) as (K1 & K2 & K3); [lia..|]. read_lines x. rewrite !omap_cons_of.
    repeat case_match; simplify_eq. rewrite K1, K2, K3, (drop_lookup a i x Hx).
    rewrite (drop_ge b) by done. by rewrite !lcs_nil_r.
  - pose proof (lookup_lt_Some _ _ _ Hy). apply lookup_ge_None in Hx.
    destruct (IH i (j + 1)) as (K1 & K2 & K3); [lia..|]. read_lines y. rewrite !omap_cons_of.
    repeat case_match; simplify_eq. rewrite K1, K2, K3, (drop_lookup b j y Hy). by rewrite (drop_ge a) by done.
  - apply lookup_ge_None in Hx, Hy. by rewrite !drop_ge by done.
Qed.

(** A subsequence of a diff's lines, read, is one of the text. *)
Lemma kept_sublist (f : string -> option string) out :
  (forall l x, kept l = Some x -> f l = Some x) -> sublist (omap kept out) (omap f out).
Proof.
  intros Hf. induction out as [|l out IH]; [constructor|]. rewrite !omap_cons_of.
  destruct (kept l) as [x|] eqn:E; [rewrite (Hf _ _ E); by constructor|]. by destruct (f l); [constructor|].
Qed.

(** C39: a line diff of two texts, of whatever size, gives both back: its kept and
    removed lines are the first in order, its kept and added lines the second.
    Unless the texts are too long for the table, the lines it keeps are a
    longest common subsequence of the two. *)
Theorem lineDiff_exact a b :
  omap in_old (lineDiff a b) = a /\ omap in_new (lineDiff a b) = b /\
  ((Z.of_nat (length a) * Z.of_nat (length b) <= maxDiffCells)%Z ->
   sublist (omap kept (lineDiff a b)) a /\ sublist (omap kept (lineDiff a b)) b /\
   forall l, sublist l a -> sublist l b -> length l <= length (omap kept (lineDiff a b))).
Proof.
  assert (Hboth : omap in_old (lineDiff a b) = a /\ omap in_new (lineDiff a b) = b).
  { unfold lineDiff. destruct (maxDiffCells <? _)%Z.
    - rewrite !omap_app. split.
      + rewrite <- (app_nil_r a) at 2. f_equal; [induction a as [|x l IH]|induction b as [|x l IH]]; [done| |done|];
          read_lines x; rewrite fmap_cons, omap_cons_of; case_match; by simplify_eq; rewrite ?IH.
      + rewrite <- (app_nil_l b) at 2. f_equal; [induction a as [|x l IH]|induction b as [|x l IH]]; [done| |done|];
          read_lines x; rewrite fmap_cons, omap_cons_of; case_match; by simplify_eq; rewrite ?IH.
    - destruct (walk_exact a b (length a + length b) 0 0) as (H1 & H2 & _); [lia..|]. by rewrite H1, H2. }
  destruct Hboth as [Hold Hnew]. split; [done|]. split; [done|]. intros Hcells. split_and!.
  - rewrite <- Hold at 2. apply kept_sublist. unfold in_old. by intros l x ->.
  - rewrite <- Hnew at 2. apply kept_sublist. unfold in_new. by intros l x ->.
  - intros l Ha Hb. unfold lineDiff. rewrite wrap64_id.
    + rewrite (proj2 (Z.ltb_ge _ _)) by done.
      destruct (walk_exact a b (length a + length b) 0 0) as (_ & _ & H3); [lia..|]. rewrite H3. by apply lcs_upper.
    + unfold maxDiffCells, is_int64, min_int64, max_int64, two63 in *. lia.
Qed.

(** ** Tags *)

Section Tags.
Variable Marshal : list string -> string.

Local Abbreviation key := (tagKey Marshal).

(** How often a key, or a tag, occurs. *)
Definition key_count (k : string) (ts : list (list string)) : nat := length (filter (fun t => key t = k) ts).
Definition tag_count (t : list string) (ts : list (list string)) : nat := length (filter (fun s => s = t) ts).

Lemma key_count_cons k t ts : key_count k (t :: ts) = (if decide (key t = k) then 1 else 0) + key_count k ts.
Proof. unfold key_count. rewrite filter_cons. by destruct (decide _). Qed.

Lemma keyed_count k ts : default 0 (keyed Marshal ts !! k) = key_count k ts.
Proof.
  assert (Hgen : forall m : gmap string nat, default 0 (foldl (fun m t => <[key t := S (default 0 (m !! key t))]> m) m ts !! k) =
                           default 0 (m !! k) + key_count k ts).
  { induction ts as [|t ts IH]; intros m; cbn [foldl]; [cbn; lia|]. rewrite IH, key_count_cons.
    destruct (decide (key t = k)) as [->|Hn].
    - rewrite lookup_insert_eq. cbn. lia.
    - by rewrite lookup_insert_ne by done. }
  unfold keyed. rewrite Hgen, lookup_empty. done.
Qed.

Lemma unmatched_count k m ts :
  key_count k (unmatched Marshal m ts) = key_count k ts - default 0 (m !! k).
Proof.
  revert m. induction ts as [|t ts IH]; intros m; [done|]. cbn [unmatched].
  destruct (m !! key t) as [[|n]|] eqn:E; rewrite ?key_count_cons, IH; destruct (decide (key t = k)) as [<-|Hn];
    rewrite ?E, ?lookup_insert_eq, ?lookup_insert_ne by done; cbn; lia.
Qed.

Lemma unmatched_sublist m ts : sublist (unmatched Marshal m ts) ts.
Proof.
  revert m. induction ts as [|t ts IH]; intros m; [constructor|]. cbn [unmatched].
  destruct (m !! key t) as [[|n]|]; by constructor.
Qed.

Lemma tag_count_absent t ts : t ∉ ts -> tag_count t ts = 0.
Proof.
  intros Ht. unfold tag_count. destruct (filter (fun s => s = t) ts) as [|s l] eqn:E; [done|].
  assert (Hs : s ∈ filter (fun s => s = t) ts) by (rewrite E; by left).
  apply list_elem_of_filter in Hs as [-> Hs]. done.
Qed.

Lemma key_tag_count t ts : (forall s, s ∈ ts -> key s = key t -> s = t) -> key_count (key t) ts = tag_count t ts.
Proof.
  induction ts as [|s ts IH]; intros Hinj; [done|]. rewrite key_count_cons, IH by (intros s' Hs'; apply Hinj; by right).
  unfold tag_count. rewrite filter_cons. destruct (decide (s = t)) as [->|Hn].
  - by rewrite decide_True.
  - rewrite decide_False; [done|]. intros Hk. apply Hn, Hinj; [by left|done].
Qed.
End Tags.

Definition tag_eq_dec (s t : list string) : {s = t} + {s <> t} := decide (s = t).

Lemma tag_count_perm l k : (forall t, tag_count t l = tag_count t k) -> l ≡ₚ k.
Proof.
  intros Hc. apply (Permutation_count_occ tag_eq_dec). intros t.
  assert (Ho : forall ts, count_occ tag_eq_dec ts t = tag_count t ts); [|by rewrite !Ho].
  intros ts. unfold tag_count. induction ts as [|s ts IH]; [done|]. cbn [count_occ]. rewrite filter_cons.
  destruct (tag_eq_dec s t) as [Hs|Hs]; [rewrite decide_True by done|rewrite decide_False by done]; cbn; by rewrite IH.
Qed.

Lemma tag_count_of_perm l k t : l ≡ₚ k -> tag_count t l = tag_count t k.
Proof. intros Hp. unfold tag_count. by rewrite Hp. Qed.

Lemma when_nil {A} c (x : A) : when c x = [] <-> c = false.
Proof. by destruct c. Qed.

Lemma differs_false x y : differs x y = false <-> x = y.
Proof. unfold differs. rewrite negb_false_iff. apply String.eqb_eq. Qed.

(** C40: two events whose tags [json.Marshal] tells apart: the tags reported removed
    are the first event's, in order, each as often as it occurs more often
    there, and those added likewise; and the events are reported the same
    exactly when all fields agree and one's tags are a rearrangement of the
    other's. *)
Theorem diffEvents_exact (Marshal : list string -> string) (a b : Event) :
  (forall s t, s ∈ ev_Tags a ++ ev_Tags b -> t ∈ ev_Tags a ++ ev_Tags b -> Marshal s = Marshal t -> s = t) ->
  sublist (dv_TagsRemoved (diffEvents Marshal a b)) (ev_Tags a) /\
  sublist (dv_TagsAdded (diffEvents Marshal a b)) (ev_Tags b) /\
  (forall t, tag_count t (dv_TagsRemoved (diffEvents Marshal a b)) = tag_count t (ev_Tags a) - tag_count t (ev_Tags b) /\
             tag_count t (dv_TagsAdded (diffEvents Marshal a b)) = tag_count t (ev_Tags b) - tag_count t (ev_Tags a)) /\
  (dv_Same (diffEvents Marshal a b) = true <->
   ev_ID a = ev_ID b /\ ev_PubKey a = ev_PubKey b /\ ev_Kind a = ev_Kind b /\ ev_CreatedAt a = ev_CreatedAt b /\
   ev_Sig a = ev_Sig b /\ ev_Content a = ev_Content b /\ ev_Tags a ≡ₚ ev_Tags b).
Proof.
  intros Hinj. unfold diffEvents. cbn [dv_TagsRemoved dv_TagsAdded dv_Same].
  set (removed := unmatched Marshal (keyed Marshal (ev_Tags b)) (ev_Tags a)).
  set (added := unmatched Marshal (keyed Marshal (ev_Tags a)) (ev_Tags b)).
  assert (Hone : forall x y, (x = ev_Tags a /\ y = ev_Tags b \/ x = ev_Tags b /\ y = ev_Tags a) ->
    forall t, tag_count t (unmatched Marshal (keyed Marshal y) x) = tag_count t x - tag_count t y).
  { intros x y Hxy t. destruct (decide (t ∈ x)) as [Ht|Ht].
    - assert (Hin : forall s, s ∈ x \/ s ∈ y -> tagKey Marshal s = tagKey Marshal t -> s = t).
      { intros s Hs. apply Hinj; rewrite elem_of_app; destruct Hxy as [[-> ->]|[-> ->]]; tauto. }
      rewrite <- !(key_tag_count Marshal t) by (intros s Hs; apply Hin; auto; left; by eapply elem_of_sublist, unmatched_sublist).
      by rewrite unmatched_count, keyed_count.
    - rewrite (tag_count_absent t x Ht). apply tag_count_absent.
      intros Hx. apply Ht. by eapply elem_of_sublist, unmatched_sublist. }
  assert (Hcounts : forall t, tag_count t removed = tag_count t (ev_Tags a) - tag_count t (ev_Tags b) /\
             tag_count t added = tag_count t (ev_Tags b) - tag_count t (ev_Tags a)).
  { intros t. split; apply Hone; tauto. }
  assert (Hperm : removed = [] /\ added = [] <-> ev_Tags a ≡ₚ ev_Tags b).
  { split.
    - intros [Hr Ha]. apply tag_count_perm. intros t. destruct (Hcounts t) as [H1 H2]. rewrite Hr in H1. rewrite Ha in H2.
      cbn in H1, H2. lia.
    - intros Hp. split; apply Permutation_nil_r, tag_count_perm; intros t; destruct (Hcounts t) as [H1 H2];
        pose proof (tag_count_of_perm _ _ t Hp); cbn; lia. }
  split; [apply unmatched_sublist|]. split; [apply unmatched_sublist|]. split; [exact Hcounts|].
  rewrite Nat.eqb_eq, length_zero_iff_nil.
  repeat setoid_rewrite app_nil. rewrite !when_nil, !differs_false, orb_false_iff, !negb_false_iff, !Z.eqb_eq, !Nat.ltb_ge.
  rewrite <- Hperm. destruct removed, added; cbn; intuition (try done; lia).
Qed.

(** ** Instances *)

Example lineDiff_example :
  lineDiff ["a"; "b"; "c"]%string ["b"; "x"; "c"]%string = ["- a"; "  b"; "+ x"; "  c"]%string.
Proof. vm_compute. reflexivity. Qed.

Definition ex_draft (tags : list (list string)) : Event := mkEvent "" "k" 1700000000 1 tags "hello" "".

(** Two drafts that differ in the order of their tags, which their ids would
    tell apart once signed, are reported as the same. *)
Lemma diffEvents_exact_witness :
  dv_Same (diffEvents (fun t => Join t ",") (ex_draft [["e"; "1"]; ["p"; "2"]]%string)
            (ex_draft [["p"; "2"]; ["e"; "1"]]%string)) = true /\
  [["e"; "1"]; ["p"; "2"]]%string <> [["p"; "2"]; ["e"; "1"]]%string.
Proof.
  split; [|done].
  apply (diffEvents_exact (fun t => Join t ",") (ex_draft [["e"; "1"]; ["p"; "2"]]%string)
           (ex_draft [["p"; "2"]; ["e"; "1"]]%string)).
  - cbn [ev_Tags ex_draft app]. intros s t Hs Ht. repeat (apply elem_of_cons in Hs as [->|Hs]; [|]).
    all: repeat (apply elem_of_cons in Ht as [->|Ht]; [|]). all: try done. all: by apply elem_of_nil in Hs || apply elem_of_nil in Ht.
  - split_and!; try done. apply Permutation_swap.
Defined.
