(* ===== verification/EventResolve.v ===== *)
(** * Finding and verifying events

    Models [src/cli/event/input.go] (references and what they match),
    [resolve.go] (which relays are asked about a reference, in which order, and
    which copy is used), [checks.go] and the checks of [verify.go].  Parameters:
    nmilat ([EventLib]: verification, hashing, proof of work, delegations,
    attestations, zaps), [url.Parse] and the file system ([RelayNames]), the
    preferences' relays, and the relays and stores, which answer as they like
    ([Reads] threads their state [W]).  What a relay's text means is decided as
    in [src/client/prefs/relayurl.go], [src/client/spec.go] and
    [src/client/event_lookup.go].  Lookups are shared by the groups that ask about
    them: a group holds positions in the one list of lookups. *)
From S2P Require Import Prelude GoTime GoStrings GoNet GoEncoding Nostr.
From stdpp Require Import options.
From Stdlib Require Import Ascii.

Local Open Scope Z_scope.

(** ** References *)

Record ref := mkRef {
  rf_Input : string;
  rf_ID : string;
  rf_Addr : bool;
  rf_Author : string;
  rf_Kind : Z;
  rf_D : string;
  rf_Hints : list string;
  rf_Event : option Event;
  rf_Source : string;
}.

Definition inline (r : ref) : bool := match rf_Event r with Some _ => true | None => false end.

(** The first value of the first [d] tag that has one. *)
Fixpoint dTag_of (tags : list (list string)) : string :=
  match tags with
  | [] => ""
  | (n :: x :: _) :: tags => if String.eqb n "d" then x else dTag_of tags
  | _ :: tags => dTag_of tags
  end.

Definition dTag (ev : Event) : string := dTag_of (ev_Tags ev).

(** What an event claims, against what a reference names. *)
Definition matches (r : ref) (ev : Event) : bool :=
  if rf_Addr r then (ev_Kind ev =? rf_Kind r) && EqualFold (ev_PubKey ev) (rf_Author r) && String.eqb (dTag ev) (rf_D r)
  else EqualFold (ev_ID ev) (rf_ID r).

Definition inlineRef (source : string) (ev : Event) : ref := mkRef source "" false "" (-1) "" [] (Some ev) source.

(** A filter of a request. *)
Inductive filter_ :=
| FIDs (ids : list string)
| FAddr (kind : Z) (author d : string)
| FRelayList (author : string).

Definition ref_filter (r : ref) : filter_ :=
  if rf_Addr r then FAddr (rf_Kind r) (rf_Author r) (rf_D r) else FIDs [rf_ID r].

(** [strings.SplitN(s, ":", 3)] into exactly three parts. *)
Definition SplitN3 (s : string) : option (string * string * string) :=
  let '(a, rest, ok1) := Cut s ":" in
  if negb ok1 then None
  else let '(b, c, ok2) := Cut rest ":" in if ok2 then Some (a, b, c) else None.

Definition parseCoordinate (ParsePublicKey : string -> option string) (s : string) : option ref :=
  '(k, p, d) ← SplitN3 s;
  kind ← Atoi k;
  if kind <? 0 then None
  else
    pub ← ParsePublicKey p;
    Some (mkRef "" "" true pub kind d [] None "").

Definition isHex32 (s : string) : bool :=
  Nat.eqb (String.length s) 64 && bool_decide (is_Some (hex_DecodeString s)).

(** ** Lookups *)

Record relayAnswer := mkAnswer {
  ra_Relay : string;
  ra_Found : bool;
  ra_Restricted : bool;
  ra_Error : string;
  ra_ElapsedMs : Z;
}.

Record eventCopy := mkCopy { ec_Source : string; ec_Event : Event }.

Record lookup := mkLookup { lk_Ref : ref; lk_Copies : list eventCopy; lk_Asked : list relayAnswer }.

(** What reading one target gave. *)
Record TargetRead := mkRead {
  tr_Target : string;
  tr_Events : list Event;
  tr_Restricted : bool;
  tr_Err : option string;
  tr_Elapsed : Z;
}.

(** Later wins; of events made at the same second, the lowest id. *)
Definition newer (a b : Event) : bool :=
  if negb (ev_CreatedAt a =? ev_CreatedAt b) then ev_CreatedAt b <? ev_CreatedAt a
  else String.ltb (ev_ID a) (ev_ID b).

(** [strings.TrimRight(s, "/")] *)
Fixpoint trim_slashes (s : string) : string :=
  match s with
  | EmptyString => EmptyString
  | String c s =>
      match trim_slashes s with
      | EmptyString => if Ascii.eqb c "/" then EmptyString else String c EmptyString
      | t => String c t
      end
  end.

Definition relayKey (label : string) : string := trim_slashes (ToLower label).

(** ** Relay addresses *)

Definition ContainsAny (s : string) (f : ascii -> bool) : bool := negb (all_bytes (fun c => negb (f c)) s).

Definition looksLikeRelayHost (raw : string) : bool :=
  if is_empty raw || ContainsAny raw (fun c => Ascii.eqb c "/" || Ascii.eqb c "\") then false
  else
    let host := match SplitHostPort raw with Ok (h, _) => h | Err _ => raw end in
    String.eqb host "localhost" || Contains host "." || bool_decide (is_Some (ParseIP host)).

(** What [url.Parse] gives: the address as [String] writes it, its scheme and host. *)
Record URL := mkURL { u_text : string; u_Scheme : string; u_Host : string }.

Definition ResolveRelayURL (parse : string -> option URL) (raw : string) : option (URL * option URL) :=
  if negb (Contains raw "://") then
    if negb (looksLikeRelayHost raw) then None
    else
      match parse ("wss://" ++ raw)%string with
      | None => None
      | Some u =>
          if is_empty (u_Host u) then None
          else match parse ("ws://" ++ raw)%string with
               | None => None
               | Some f => Some (u, Some f)
               end
      end
  else
    match parse raw with
    | None => None
    | Some uri =>
        if negb (String.eqb (u_Scheme uri) "ws" || String.eqb (u_Scheme uri) "wss") then None
        else if is_empty (u_Host uri) then None
        else Some (uri, None)
    end.

(** [url.Parse], [filepath.Abs] and [os.Stat], which says whether something that
    is there is a directory. *)
Class RelayNames := {
  url_Parse : string -> option URL;
  filepath_Abs : string -> option string;
  os_Stat : string -> option bool;
}.

(** A target: a store's path, or a relay as given with its address and the one to
    fall back to. *)
Inductive FlowSpec := FlowLocal (path : string) | FlowRemote (relay : string) (uri : URL) (fallback : option URL).

Definition Label (t : FlowSpec) : string :=
  match t with FlowLocal path => path | FlowRemote _ uri _ => u_text uri end.

Section Names.
Context `{RelayNames}.

Definition fileExists (input : string) : option string :=
  path ← filepath_Abs input;
  match os_Stat path with Some false => Some path | _ => None end.

Definition flowSpecFromString (str : string) : option FlowSpec :=
  if Contains str "://" then
    '(u, _) ← ResolveRelayURL url_Parse str; Some (FlowRemote str u None)
  else
    match fileExists str with
    | Some path => Some (FlowLocal path)
    | None => '(u, fallback) ← ResolveRelayURL url_Parse str; Some (FlowRemote str u fallback)
    end.
End Names.

(** Reading a store; dialing a relay, or the one to fall back to, and reading from
    it; and the time that took. *)
Class Reads (W : Type) := {
  session : Type;
  ReadEventsFromStore : W -> string -> list filter_ -> (list Event * option string) * W;
  dialRelay : W -> URL -> option URL -> (session + string) * W;
  session_read : W -> session -> list filter_ -> (list Event * bool * option string) * W;
  Since : W -> W -> Z;
}.

Definition readEventsWithFallback `{Reads W} (w : W) (primary : URL) (fallback : option URL) (filters : list filter_)
    : (list Event * bool * option string) * W :=
  let '(sess, w) := dialRelay w primary fallback in
  match sess with
  | inr err => (([], false, Some err), w)
  | inl sess => session_read w sess filters
  end.

Definition maxOutboxRelays : nat := 8.

Record resolver := mkResolver {
  rs_relays : list string;
  rs_onlyHints : bool;
  rs_noHints : bool;
  rs_noOutbox : bool;
  rs_offline : bool;
}.

Section Resolve.
Context {W : Type} `{RelayNames} `{Reads W}.
(** [ev.Verify(WithoutPowCheck())] and [ev.Verify()] succeeding. *)
Variables VerifyNoPow Verify : Event -> bool.
(** The relays of the preferences, when there are some. *)
Variable prefs_relays : option (list string).
(** [nip65.ParseRelayList]: urls, and whether they are for writing. *)
Variable ParseRelayList : Event -> option (list (string * bool)).

Variable r : resolver.

Definition ReadTarget (w : W) (target : FlowSpec) (filters : list filter_) : TargetRead * W :=
  match target with
  | FlowLocal path =>
      let '((events, err), w') := ReadEventsFromStore w path filters in
      (mkRead (Label target) events false err (Since w w'), w')
  | FlowRemote _ uri fallback =>
      let '((events, restricted, err), w') := readEventsWithFallback w uri fallback filters in
      (mkRead (Label target) events restricted err (Since w w'), w')
  end.

Definition baseRelays : list string :=
  if Nat.ltb 0 (length (rs_relays r)) then rs_relays r
  else if rs_onlyHints r then []
  else default [] prefs_relays.

Definition firstRelays (rf : ref) : list string :=
  (if rs_noHints r then [] else rf_Hints rf) ++ (if rs_onlyHints r then [] else baseRelays).

(** [targets]: each once, without those to be skipped. *)
Fixpoint targets_from (relays : list string) (skip : list string) (seen : list string) : list FlowSpec :=
  match relays with
  | [] => []
  | raw :: relays =>
      match flowSpecFromString raw with
      | None => targets_from relays skip seen
      | Some t =>
          let key := relayKey (Label t) in
          if bool_decide (key ∈ seen) || bool_decide (key ∈ skip) then targets_from relays skip seen
          else t :: targets_from relays skip (key :: seen)
      end
  end.

Definition targets (relays skip : list string) : list FlowSpec := targets_from relays skip [].

(** ** Which copy *)

(** The loop of [best]: the copy picked, and the one among those that verify. *)
Definition best_step (addr : bool) (s : option eventCopy * option eventCopy) (c : eventCopy)
    : option eventCopy * option eventCopy :=
  let '(pick, pickValid) := s in
  let valid := VerifyNoPow (ec_Event c) in
  let better p := match p with
                  | None => true
                  | Some q => addr && newer (ec_Event c) (ec_Event q)
                  end in
  (if better pick then Some c else pick, if valid && better pickValid then Some c else pickValid).

Definition best (l : lookup) : option eventCopy :=
  let '(pick, pickValid) := foldl (best_step (rf_Addr (lk_Ref l))) (None, None) (lk_Copies l) in
  match pickValid with Some c => Some c | None => pick end.

Definition satisfied (l : lookup) : bool :=
  if inline (lk_Ref l) then true
  else if rf_Addr (lk_Ref l) then false
  else existsb (fun c => VerifyNoPow (ec_Event c)) (lk_Copies l).

(** Whether a lookup still asks. *)
Definition pending (everywhere : bool) (l : lookup) : bool :=
  if inline (lk_Ref l) then everywhere else everywhere || negb (satisfied l).

(** ** Asking *)

(** [record], for one lookup. *)
Definition record_one (res : TargetRead) (l : lookup) : lookup :=
  let rf := lk_Ref l in
  let match_ ev := match rf_Event rf with
                   | Some given => EqualFold (ev_ID ev) (ev_ID given)
                   | None => matches rf ev
                   end in
  let hits := List.filter match_ (tr_Events res) in
  mkLookup rf
    (lk_Copies l ++ if inline rf then [] else mkCopy (tr_Target res) <$> hits)
    (lk_Asked l ++ [mkAnswer (tr_Target res) (Nat.ltb 0 (length hits)) (tr_Restricted res)
                      (default ""%string (tr_Err res)) (tr_Elapsed res `quot` Millisecond)]).

Definition record (members : list nat) (res : TargetRead) (ls : list lookup) : list lookup :=
  foldl (fun ls i => alter (record_one res) i ls) ls members.

(** [filtersFor]: the addresses, then one filter of all ids. *)
Definition filtersFor (members : list nat) (ls : list lookup) : list filter_ :=
  let refs := omap (fun i => lk_Ref <$> ls !! i) members in
  let ids := omap (fun rf => match rf_Event rf with
                             | Some ev => Some (ev_ID ev)
                             | None => if rf_Addr rf then None else Some (rf_ID rf)
                             end) refs in
  (ref_filter <$> List.filter (fun rf => negb (inline rf) && rf_Addr rf) refs)
  ++ (if Nat.ltb 0 (length ids) then [FIDs ids] else []).

(** A group: the targets and the positions of the lookups that ask them. *)
Record group := mkGroup { g_targets : list FlowSpec; g_members : list nat }.

(** The map from keys to groups with the order of its keys. *)
Fixpoint add_member (key : string) (ts : list FlowSpec) (i : nat) (gs : list (string * group)) : list (string * group) :=
  match gs with
  | [] => [(key, mkGroup ts [i])]
  | (k, g) :: gs =>
      if String.eqb k key then (k, mkGroup (g_targets g) (g_members g ++ [i])) :: gs
      else (k, g) :: add_member key ts i gs
  end.

(** The first loop of [askEach]: [relaysFor] may ask relays for an author's
    relay list, so it threads [S]. *)
Section Grouping.
Context {S : Type}.
Variable relaysFor : S -> lookup -> list string * S.

Fixpoint build_groups (everywhere : bool) (i : nat) (ls : list lookup) (gs : list (string * group)) (s : S)
    : list (string * group) * S :=
  match ls with
  | [] => (gs, s)
  | l :: ls =>
      if negb (pending everywhere l) then build_groups everywhere (Datatypes.S i) ls gs s
      else
        let '(relays, s) := relaysFor s l in
        let ts := targets relays ((fun a => relayKey (ra_Relay a)) <$> lk_Asked l) in
        if Nat.eqb (length ts) 0 then build_groups everywhere (Datatypes.S i) ls gs s
        else build_groups everywhere (Datatypes.S i) ls (add_member (Join ((fun t => relayKey (Label t)) <$> ts) "|") ts i gs) s
  end.
End Grouping.

(** The second loop, for one group.  [readAll] keeps the results in the order
    of the targets. *)
Fixpoint ask_all (members : list nat) (fs : list filter_) (ts : list FlowSpec) (ls : list lookup) (w : W) : list lookup * W :=
  match ts with
  | [] => (ls, w)
  | t :: ts =>
      let '(res, w) := ReadTarget w t fs in
      ask_all members fs ts (record members res ls) w
  end.

Fixpoint ask_first (members : list nat) (ts : list FlowSpec) (ls : list lookup) (w : W) : list lookup * W :=
  match ts with
  | [] => (ls, w)
  | t :: ts =>
      let open := List.filter (fun i => match ls !! i with Some l => pending false l | None => false end) members in
      if Nat.eqb (length open) 0 then (ls, w)
      else
        let '(res, w) := ReadTarget w t (filtersFor open ls) in
        ask_first members ts (record open res ls) w
  end.

Definition ask_group (everywhere : bool) (s : list lookup * W) (g : string * group) : list lookup * W :=
  let '(ls, w) := s in
  if everywhere then ask_all (g_members g.2) (filtersFor (g_members g.2) ls) (g_targets g.2) ls w
  else ask_first (g_members g.2) (g_targets g.2) ls w.

(** ** The outbox *)

(** The newest relay list among what the relays answered, the author's own and
    verified. *)
Definition newest_list (author : string) (evs : list Event) : option Event :=
  foldl (fun best ev =>
    if negb (String.eqb (ev_PubKey ev) author) || negb (Verify ev) then best
    else match best with
         | None => Some ev
         | Some b => if ev_CreatedAt b <? ev_CreatedAt ev then Some ev else best
         end) None evs.

Fixpoint read_lists (author : string) (ts : list FlowSpec) (w : W) : list Event * W :=
  match ts with
  | [] => ([], w)
  | t :: ts =>
      let '(res, w) := ReadTarget w t [FRelayList author] in
      let '(evs, w) := read_lists author ts w in
      (tr_Events res ++ evs, w)
  end.

(** The cache and the relays. *)
Definition outboxRelays (s : gmap string (list string) * W) (author : string) (hints : list string)
    : list string * (gmap string (list string) * W) :=
  let '(outbox, w) := s in
  if rs_noOutbox r || rs_onlyHints r || rs_offline r || is_empty author then ([], (outbox, w))
  else
    match outbox !! author with
    | Some got => (got, (outbox, w))
    | None =>
        let outbox := <[author := []]> outbox in
        let where_ := targets (hints ++ baseRelays) [] in
        if Nat.eqb (length where_) 0 then ([], (outbox, w))
        else
          let '(evs, w) := read_lists author where_ w in
          match newest_list author evs with
          | None => ([], (outbox, w))
          | Some ev =>
              match ParseRelayList ev with
              | None => ([], (outbox, w))
              | Some list =>
                  let out := take maxOutboxRelays ((List.filter snd list).*1) in
                  (out, (<[author := out]> outbox, w))
              end
          end
    end.

(** ** [resolve] *)

Definition new_lookup (rf : ref) : lookup :=
  mkLookup rf (match rf_Event rf with Some ev => [mkCopy (rf_Source rf) ev] | None => [] end) [].

Definition author_of (l : lookup) : string :=
  match rf_Event (lk_Ref l) with Some ev => ev_PubKey ev | None => rf_Author (lk_Ref l) end.

Definition stage_one (everywhere : bool) (ls : list lookup) (w : W) : list lookup * W :=
  let '(gs, _) := build_groups (fun (u : unit) l => (firstRelays (lk_Ref l), u)) everywhere 0 ls [] tt in
  foldl (ask_group everywhere) (ls, w) gs.

Definition stage_two (everywhere : bool) (ls : list lookup) (w : W) : list lookup * W :=
  let '(gs, (_, w)) :=
    build_groups (fun s l => outboxRelays s (author_of l) (rf_Hints (lk_Ref l))) everywhere 0 ls [] (∅, w) in
  foldl (ask_group everywhere) (ls, w) gs.

Definition resolve (refs : list ref) (everywhere : bool) (w : W) : list lookup * W :=
  let ls := new_lookup <$> refs in
  if rs_offline r then (ls, w)
  else
    let '(ls, w) := stage_one everywhere ls w in
    stage_two everywhere ls w.

Definition foundOn (l : lookup) : list string := ra_Relay <$> List.filter ra_Found (lk_Asked l).

(** Why the references that were not found are missing. *)
Inductive missing_class := MissingOffline | MissingNoRelay | MissingRestricted | MissingUnreachable | MissingNotFound.

Definition missingError (missing : list lookup) : option missing_class :=
  if Nat.eqb (length missing) 0 then None
  else
    let answers := missing ≫= lk_Asked in
    Some (if rs_offline r then MissingOffline
          else if Nat.eqb (length answers) 0 then MissingNoRelay
          else if existsb ra_Restricted answers then MissingRestricted
          else if forallb (fun a => negb (is_empty (ra_Error a))) answers then MissingUnreachable
          else MissingNotFound).
End Resolve.
