(* ===== verification/EventResolveFacts.v ===== *)
(** * Finding events: what is asked and which copy is used

    Asking relays about groups of references is asking about each on its own,
    one relay after another until it is satisfied ([resolve_refines]); the copy
    used is the right one ([best_exact]); an event reported valid passed every
    check ([verify_sound], in [EventChecks]). *)
From S2P Require Import Prelude GoTime GoStrings GoNet GoEncoding Nostr EventResolve.
From stdpp Require Import options.
From Stdlib Require Import Ascii.

Local Open Scope nat_scope.

(** ** Joined keys *)

Definition no_bar (s : string) : bool := all_bytes (fun c => negb (Ascii.eqb c "|")) s.

Lemma Split_bar s : no_bar s = true -> Split s "|" = [s].
Proof.
  unfold no_bar. induction s as [|c s IH]; [done|]. cbn [all_bytes Split]. intros [Hc Hs]%andb_true_iff.
  apply negb_true_iff in Hc. by rewrite Hc, (IH Hs).
Qed.

Lemma Split_bar_app s t : no_bar s = true -> Split (s ++ String "|" t) "|" = (s :: Split t "|")%list.
Proof.
  unfold no_bar. induction s as [|c s IH]; [done|]. cbn [all_bytes]. intros [Hc Hs]%andb_true_iff.
  change (String c s ++ String "|" t)%string with (String c (s ++ String "|" t))%string. cbn [Split].
  apply negb_true_iff in Hc. by rewrite Hc, (IH Hs).
Qed.

Lemma Split_Join_bar ks : ks <> [] -> Forall (fun k => no_bar k = true) ks -> Split (Join ks "|") "|" = ks.
Proof.
  induction ks as [|k ks IH]; [done|]. intros _ [Hk Hks]%Forall_cons. destruct ks as [|k' ks].
  - by apply Split_bar.
  - change (Join (k :: k' :: ks) "|") with (k ++ String "|" (Join (k' :: ks) "|"))%string.
    rewrite Split_bar_app by done. by rewrite IH.
Qed.

(** Lists of keys without the separator are told apart by their joins. *)
Lemma Join_bar_inj ks ks' :
  ks <> [] -> ks' <> [] -> Forall (fun k => no_bar k = true) ks -> Forall (fun k => no_bar k = true) ks' ->
  Join ks "|" = Join ks' "|" -> ks = ks'.
Proof. intros H1 H2 H3 H4 He. rewrite <- (Split_Join_bar ks), <- (Split_Join_bar ks') by done. by rewrite He. Qed.

Section Asking.
Context {W : Type} `{RelayNames} `{Reads W}.
Variables VerifyNoPow Verify : Event -> bool.
Variable prefs_relays : option (list string).
Variable ParseRelayList : Event -> option (list (string * bool)).
Variable r : resolver.

(** A target answers under its label. *)
Lemma ReadTarget_label (w : W) t fs : tr_Target (ReadTarget w t fs).1 = Label t.
Proof.
  destruct t as [path|relay uri fallback]; cbn.
  - by destruct (ReadEventsFromStore w path fs) as [[]].
  - by destruct (readEventsWithFallback w uri fallback fs) as [[[]]].
Qed.

Local Abbreviation pending := (pending VerifyNoPow).

(** ** One lookup on its own *)

(** It is told what each relay answers for as long as it asks. *)
Definition ask_seq (everywhere : bool) (rs : list TargetRead) (l : lookup) : lookup :=
  foldl (fun l res => if pending everywhere l then record_one res l else l) l rs.

Lemma ask_seq_done everywhere rs l : pending everywhere l = false -> ask_seq everywhere rs l = l.
Proof. intros Hp. unfold ask_seq. induction rs as [|x rs IH]; [done|]. cbn. by rewrite Hp. Qed.

Lemma ask_seq_app everywhere rs rs' l : ask_seq everywhere (rs ++ rs') l = ask_seq everywhere rs' (ask_seq everywhere rs l).
Proof. unfold ask_seq. by rewrite foldl_app. Qed.

Lemma pending_everywhere l : pending true l = true.
Proof. unfold EventResolve.pending. by destruct (inline (lk_Ref l)). Qed.

(** ** One answer filed under a group *)

Lemma record_lookup members res ls i :
  NoDup members ->
  record members res ls !! i = if decide (i ∈ members) then record_one res <$> ls !! i else ls !! i.
Proof.
  unfold record. intros Hn. revert ls. induction members as [|j members IH]; intros ls; [done|].
  apply NoDup_cons in Hn as [Hj Hn]. cbn [foldl]. rewrite IH by done.
  destruct (decide (i = j)) as [->|Hij].
  - rewrite decide_False by done. rewrite decide_True by (by left). apply list_lookup_alter_eq.
  - rewrite list_lookup_alter_ne by done. destruct (decide (i ∈ members)) as [Hi|Hi].
    + by rewrite decide_True by (by right).
    + rewrite decide_False; [done|]. by intros [->|?]%elem_of_cons.
Qed.

(** What a group does to the lookups: its members are told answers of the
    targets in order, the others nothing. *)
Definition asked_as (everywhere : bool) (members : list nat) (ts : list FlowSpec) (ls ls' : list lookup) : Prop :=
  forall i l, ls !! i = Some l ->
    if decide (i ∈ members)
    then exists rs, tr_Target <$> rs = Label <$> ts /\ ls' !! i = Some (ask_seq everywhere rs l)
    else ls' !! i = Some l.

Lemma ask_all_as members fs ts ls w :
  NoDup members -> asked_as true members ts ls (ask_all members fs ts ls w).1.
Proof.
  intros Hn. revert ls w. induction ts as [|t ts IH]; intros ls w i l Hi.
  { cbn. destruct (decide _); [|done]. exists []. done. }
  cbn [ask_all]. destruct (ReadTarget w t fs) as [res w'] eqn:E.
  assert (Ht : tr_Target res = Label t) by (pose proof (ReadTarget_label w t fs) as Ht; by rewrite E in Ht).
  specialize (IH (record members res ls) w' i). pose proof (record_lookup members res ls i Hn) as Hr. rewrite Hi in Hr.
  destruct (decide (i ∈ members)) as [Hm|Hm].
  - destruct (IH _ Hr) as (rs & Hrs & Hl). exists (res :: rs). split; [cbn; by rewrite Hrs, Ht|].
    rewrite Hl. unfold ask_seq at 2. cbn [foldl]. by rewrite pending_everywhere.
  - by apply IH.
Qed.

(** The lookups that still ask. *)
Definition open_of (members : list nat) (ls : list lookup) : list nat :=
  List.filter (fun i => match ls !! i with Some l => pending false l | None => false end) members.

Lemma open_of_elem members ls i l : ls !! i = Some l -> i ∈ open_of members ls <-> i ∈ members /\ pending false l = true.
Proof. intros Hi. unfold open_of. rewrite !list_elem_of_In, filter_In. by rewrite Hi. Qed.

Lemma open_of_NoDup members ls : NoDup members -> NoDup (open_of members ls).
Proof. rewrite !NoDup_ListNoDup. apply List.NoDup_filter. Qed.

Definition no_answer (t : FlowSpec) : TargetRead := mkRead (Label t) [] false None 0.

Lemma ask_first_as members ts ls w :
  NoDup members -> asked_as false members ts ls (ask_first VerifyNoPow members ts ls w).1.
Proof.
  intros Hn. revert ls w. induction ts as [|t ts IH]; intros ls w i l Hi.
  { cbn. destruct (decide _); [|done]. exists []. done. }
  cbn [ask_first]. fold (open_of members ls).
  destruct (Nat.eqb_spec (length (open_of members ls)) 0) as [Ho|Ho].
  { destruct (decide (i ∈ members)) as [Hm|Hm]; [|done]. exists (no_answer <$> (t :: ts)). split.
    - rewrite <- list_fmap_compose. done.
    - rewrite ask_seq_done; [done|]. destruct (pending false l) eqn:Hp; [|done].
      apply length_zero_iff_nil in Ho. assert (Hx : i ∈ open_of members ls) by (by eapply open_of_elem).
      rewrite Ho in Hx. by apply elem_of_nil in Hx. }
  destruct (ReadTarget w t _) as [res w'] eqn:E.
  assert (Ht : tr_Target res = Label t) by (pose proof (ReadTarget_label w t (filtersFor (open_of members ls) ls)) as Ht; by rewrite E in Ht).
  pose proof (record_lookup (open_of members ls) res ls i (open_of_NoDup _ _ Hn)) as Hr. rewrite Hi in Hr.
  specialize (IH (record (open_of members ls) res ls) w' i).
  destruct (decide (i ∈ members)) as [Hm|Hm].
  - destruct (decide (i ∈ open_of members ls)) as [Hio|Hio].
    + destruct (IH _ Hr) as (rs & Hrs & Hl). exists (res :: rs). split; [cbn; by rewrite Hrs, Ht|].
      rewrite Hl. unfold ask_seq at 2. cbn [foldl]. apply (open_of_elem _ _ _ _ Hi) in Hio as [_ ->]. done.
    + destruct (IH _ Hr) as (rs & Hrs & Hl). exists (res :: rs). split; [cbn; by rewrite Hrs, Ht|].
      rewrite Hl. unfold ask_seq at 2. cbn [foldl]. destruct (pending false l) eqn:Hp; [|done].
      exfalso. apply Hio. by eapply open_of_elem.
  - rewrite decide_False in Hr by (by rewrite (open_of_elem _ _ _ _ Hi); tauto). by apply IH.
Qed.

Lemma ask_group_as everywhere ls w kg :
  NoDup (g_members kg.2) ->
  asked_as everywhere (g_members kg.2) (g_targets kg.2) ls (ask_group VerifyNoPow everywhere (ls, w) kg).1.
Proof.
  intros Hn. unfold ask_group. destruct everywhere; [by apply ask_all_as|by apply ask_first_as].
Qed.

(** ** Groups *)

Definition keys (ts : list string) : list string := relayKey <$> ts.

(** The keys of targets. *)
Definition tkeys (ts : list FlowSpec) : list string := keys (Label <$> ts).

Lemma tkeys_eq ts : (fun t => relayKey (Label t)) <$> ts = tkeys ts.
Proof. unfold tkeys, keys. by rewrite <- list_fmap_compose. Qed.

Definition members_of (gs : list (string * group)) : list nat := gs ≫= (fun kg => g_members kg.2).

(** The plans a joined key tells apart. *)
Definition separated (ps : list (list FlowSpec)) : Prop :=
  forall p q, p ∈ ps -> q ∈ ps -> p <> [] -> q <> [] -> Join (tkeys p) "|" = Join (tkeys q) "|" -> tkeys p = tkeys q.

(** A group's key is that of its targets, which some lookup was to ask. *)
Definition keyed_groups (ps : list (list FlowSpec)) (gs : list (string * group)) : Prop :=
  forall k g, (k, g) ∈ gs -> k = Join (tkeys (g_targets g)) "|" /\ g_targets g ∈ ps /\ g_targets g <> [].

Definition assigned (gs : list (string * group)) (j : nat) (ts : list FlowSpec) : Prop :=
  exists k g, (k, g) ∈ gs /\ j ∈ g_members g /\ k = Join (tkeys ts) "|".

Lemma add_member_members key ts i gs : members_of (add_member key ts i gs) ≡ₚ i :: members_of gs.
Proof.
  induction gs as [|[k g] gs IH]; [done|]. cbn [add_member]. destruct (String.eqb k key).
  - cbn. rewrite <- app_assoc. cbn. symmetry. apply Permutation_middle.
  - unfold members_of in *. cbn [mbind list_bind]. rewrite IH. symmetry. apply Permutation_middle.
Qed.

Lemma add_member_keyed ps ts i gs :
  ts ∈ ps -> ts <> [] -> keyed_groups ps gs -> keyed_groups ps (add_member (Join (tkeys ts) "|") ts i gs).
Proof.
  intros Hp Hne. induction gs as [|[k g] gs IH]; intros Hk k' g' Hin; cbn [add_member] in Hin.
  - apply list_elem_of_singleton in Hin. injection Hin as -> ->. done.
  - destruct (String.eqb_spec k (Join (tkeys ts) "|")) as [He|He].
    + apply elem_of_cons in Hin as [[= -> ->]|Hin]; [apply (Hk k g); by left|]. apply Hk. by right.
    + apply elem_of_cons in Hin as [[= -> ->]|Hin]; [apply Hk; by left|].
      apply IH; [|done]. intros k0 g0 H0'. apply Hk. by right.
Qed.

Lemma add_member_old key ts i gs j ts' : assigned gs j ts' -> assigned (add_member key ts i gs) j ts'.
Proof.
  intros (k & g & Hin & Hj & Hk). revert Hin. induction gs as [|[k0 g0] gs IH]; intros Hin; [by apply elem_of_nil in Hin|].
  cbn [add_member]. destruct (String.eqb k0 key).
  - apply elem_of_cons in Hin as [[= <- <-]|Hin].
    + eexists _, _. split; [by left|]. split; [|done]. cbn. apply elem_of_app. by left.
    + exists k, g. split; [by right|done].
  - apply elem_of_cons in Hin as [[= <- <-]|Hin].
    + exists k, g. split; [by left|done].
    + destruct (IH Hin) as (k' & g' & Hin' & ? & ?). exists k', g'. split; [by right|done].
Qed.

Lemma add_member_new ts i gs : assigned (add_member (Join (tkeys ts) "|") ts i gs) i ts.
Proof.
  induction gs as [|[k g] gs IH]; cbn [add_member].
  - eexists _, _. split; [by left|]. split; [by left|done].
  - destruct (String.eqb_spec k (Join (tkeys ts) "|")) as [->|He].
    + eexists _, _. split; [by left|]. split; [|done]. cbn. apply elem_of_app. right. by left.
    + destruct IH as (k' & g' & Hin & ? & ?). exists k', g'. split; [by right|done].
Qed.

(** Grouping lookups by what each is to ask. *)
Fixpoint group_plans (i : nat) (ps : list (list FlowSpec)) (gs : list (string * group)) : list (string * group) :=
  match ps with
  | [] => gs
  | p :: ps =>
      if Nat.eqb (length p) 0 then group_plans (S i) ps gs
      else group_plans (S i) ps (add_member (Join (tkeys p) "|") p i gs)
  end.

Record grouped (ps : list (list FlowSpec)) (gs : list (string * group)) : Prop := {
  gr_once : NoDup (members_of gs);
  gr_keyed : keyed_groups ps gs;
  gr_all : forall j p, ps !! j = Some p -> p <> [] -> assigned gs j p;
  gr_only : forall j, j ∈ members_of gs -> exists p, ps !! j = Some p /\ p <> [];
}.

Lemma group_plans_grouped pre ps gs :
  grouped pre gs -> grouped (pre ++ ps) (group_plans (length pre) ps gs).
Proof.
  revert pre gs. induction ps as [|p ps IH]; intros pre gs Hg; [by rewrite app_nil_r|]. cbn [group_plans].
  assert (Hmono : keyed_groups pre gs -> keyed_groups (pre ++ [p]) gs).
  { intros Hk k g Hin. destruct (Hk k g Hin) as (? & ? & ?). split_and!; [done|apply elem_of_app; by left|done]. }
  replace (S (length pre)) with (length (pre ++ [p])) by (rewrite length_app; cbn; lia).
  replace (pre ++ p :: ps) with ((pre ++ [p]) ++ ps) by (by rewrite <- app_assoc).
  destruct (Nat.eqb_spec (length p) 0) as [Hl|Hl]; apply IH; destruct Hg as [H1 H2 H3 H4].
  - apply length_zero_iff_nil in Hl as ->. split; [done|by apply Hmono| |].
    + intros j q Hj Hq. apply lookup_app_Some in Hj as [Hj|[_ Hj]]; [by apply H3|].
      apply list_lookup_singleton_Some in Hj as [_ <-]. done.
    + intros j Hj. destruct (H4 j Hj) as (q & Hq & ?). exists q. split; [|done]. by apply lookup_app_l_Some.
  - assert (Hne : p <> []) by (by destruct p). split.
    + rewrite add_member_members. apply NoDup_cons. split; [|done].
      intros Hin. destruct (H4 _ Hin) as (q & Hq & _). apply lookup_lt_Some in Hq. lia.
    + apply add_member_keyed; [apply elem_of_app; right; by left|done|by apply Hmono].
    + intros j q Hj Hq. apply lookup_app_Some in Hj as [Hj|[Hge Hj]]; [by apply add_member_old, H3|].
      apply list_lookup_singleton_Some in Hj as [Hz <-]. replace j with (length pre) by lia. apply add_member_new.
    + intros j Hj. rewrite add_member_members in Hj. apply elem_of_cons in Hj as [->|Hj].
      * exists p. split; [|done]. by rewrite lookup_app_r, Nat.sub_diag by lia.
      * destruct (H4 j Hj) as (q & Hq & ?). exists q. split; [|done]. by apply lookup_app_l_Some.
Qed.

(** Asking the groups one after another. *)
Lemma ask_groups_as everywhere gs ls w :
  NoDup (members_of gs) ->
  forall i l, ls !! i = Some l ->
  (i ∉ members_of gs -> (foldl (ask_group VerifyNoPow everywhere) (ls, w) gs).1 !! i = Some l) /\
  (forall k g, (k, g) ∈ gs -> i ∈ g_members g ->
     exists rs, tr_Target <$> rs = Label <$> g_targets g /\
       (foldl (ask_group VerifyNoPow everywhere) (ls, w) gs).1 !! i = Some (ask_seq everywhere rs l)).
Proof.
  revert ls w. induction gs as [|kg gs IH]; intros ls w Hn i l Hi.
  { split; [done|]. intros k g Hin. by apply elem_of_nil in Hin. }
  unfold members_of in Hn. cbn [mbind list_bind] in Hn. fold (members_of gs) in Hn.
  apply NoDup_app in Hn as (Hn1 & Hdis & Hn2). cbn [foldl].
  pose proof (ask_group_as everywhere ls w kg Hn1 i l Hi) as Hg.
  destruct (ask_group VerifyNoPow everywhere (ls, w) kg) as [ls' w']. cbn [fst] in Hg.
  destruct (decide (i ∈ g_members kg.2)) as [Hm|Hm].
  - destruct Hg as (rs & Hrs & Hl). destruct (IH ls' w' Hn2 i _ Hl) as [Hout _]. split.
    + intros Hno. exfalso. apply Hno. unfold members_of. cbn. apply elem_of_app. by left.
    + intros k g Hin Hig. apply elem_of_cons in Hin as [He|Hin].
      * subst kg. exists rs. split; [done|]. apply Hout. by apply Hdis.
      * exfalso. apply (Hdis i Hm). unfold members_of. apply list_elem_of_bind. by exists (k, g).
  - destruct (IH ls' w' Hn2 i _ Hg) as [Hout Hin']. split.
    + intros Hno. apply Hout. intros Hx. apply Hno. unfold members_of. cbn. apply elem_of_app. by right.
    + intros k g Hin Hig. apply elem_of_cons in Hin as [He|Hin]; [by subst kg|]. by eapply Hin'.
Qed.

(** Each lookup is told answers of relays with the keys it was to ask. *)
Lemma grouped_asks everywhere ps gs ls (w : W) :
  separated ps -> grouped ps gs ->
  forall i l p, ls !! i = Some l -> ps !! i = Some p ->
  exists rs, keys (tr_Target <$> rs) = tkeys p /\
    (foldl (ask_group VerifyNoPow everywhere) (ls, w) gs).1 !! i = Some (ask_seq everywhere rs l).
Proof.
  intros Hps [H1 H2 H3 H4] i l p Hi Hp. destruct (ask_groups_as everywhere gs ls w H1 i l Hi) as [Hout Hin].
  destruct (decide (p = [])) as [->|Hne].
  - exists []. split; [done|]. apply Hout. intros Hx. destruct (H4 i Hx) as (q & Hq & Hqn). by rewrite Hp in Hq; injection Hq as <-.
  - destruct (H3 i p Hp Hne) as (k & g & Hkg & Hm & Hk). destruct (Hin k g Hkg Hm) as (rs & Hrs & Hl).
    exists rs. split; [|done]. rewrite Hrs. destruct (H2 k g Hkg) as (Hk' & Hgp & Hgn).
    apply Hps; [done|by eapply list_elem_of_lookup_2|done|done|congruence].
Qed.

(** ** What each lookup is to ask *)

Definition asked_keys (l : lookup) : list string := (fun a => relayKey (ra_Relay a)) <$> lk_Asked l.

Section Plans.
Context {S : Type}.
Variable relaysFor : S -> lookup -> list string * S.

Fixpoint plan_lookups (everywhere : bool) (ls : list lookup) (s : S) : list (list FlowSpec) * S :=
  match ls with
  | [] => ([], s)
  | l :: ls =>
      if negb (pending everywhere l) then let '(ps, s) := plan_lookups everywhere ls s in ([] :: ps, s)
      else
        let '(relays, s) := relaysFor s l in
        let '(ps, s) := plan_lookups everywhere ls s in
        (targets relays (asked_keys l) :: ps, s)
  end.

Lemma build_groups_plans everywhere i ls gs s :
  build_groups VerifyNoPow relaysFor everywhere i ls gs s =
  (group_plans i (plan_lookups everywhere ls s).1 gs, (plan_lookups everywhere ls s).2).
Proof.
  revert i gs s. induction ls as [|l ls IH]; intros i gs s; [done|]. cbn [build_groups plan_lookups].
  destruct (negb (pending everywhere l)).
  - rewrite IH. by destruct (plan_lookups everywhere ls s) as [ps s'].
  - destruct (relaysFor s l) as [relays s']. fold (asked_keys l). rewrite !IH.
    destruct (plan_lookups everywhere ls s') as [ps s'']. cbn [group_plans fst snd]. rewrite tkeys_eq.
    by destruct (Nat.eqb (length (targets relays (asked_keys l))) 0).
Qed.

Lemma plan_lookups_lookup (Inv : S -> Prop) everywhere ls s i l :
  (forall s l, Inv s -> Inv (relaysFor s l).2) -> Inv s -> ls !! i = Some l ->
  exists p, (plan_lookups everywhere ls s).1 !! i = Some p /\
    (if pending everywhere l
     then exists s0, Inv s0 /\ p = targets (relaysFor s0 l).1 (asked_keys l)
     else p = []).
Proof.
  intros Hinv. revert s i. induction ls as [|x ls IH]; intros s i Hs Hi; [done|]. cbn [plan_lookups].
  destruct (pending everywhere x) eqn:Hx; cbn [negb].
  - destruct (relaysFor s x) as [relays s'] eqn:Er. specialize (IH s'). destruct (plan_lookups everywhere ls s') as [ps s''].
    destruct i as [|i]; [|apply IH; [pose proof (Hinv s x Hs) as Hs'; by rewrite Er in Hs'|done]].
    injection Hi as <-. eexists. split; [done|]. rewrite Hx. exists s. by rewrite Er.
  - specialize (IH s). destruct (plan_lookups everywhere ls s) as [ps s''].
    destruct i as [|i]; [|by apply IH]. injection Hi as <-. eexists. split; [done|]. by rewrite Hx.
Qed.

Lemma plan_lookups_length everywhere ls s : length (plan_lookups everywhere ls s).1 = length ls.
Proof.
  revert s. induction ls as [|x ls IH]; intros s; [done|]. cbn [plan_lookups]. destruct (negb _).
  - specialize (IH s). destruct (plan_lookups everywhere ls s). cbn in *. by rewrite IH.
  - destruct (relaysFor s x) as [relays s']. specialize (IH s'). destruct (plan_lookups everywhere ls s'). cbn in *. by rewrite IH.
Qed.
End Plans.

(** ** Targets *)

Lemma targets_from_elem relays skip seen t :
  t ∈ targets_from relays skip seen ->
  (exists raw, raw ∈ relays /\ flowSpecFromString raw = Some t) /\ (relayKey (Label t) ∉ skip) /\ (relayKey (Label t) ∉ seen).
Proof.
  revert seen. induction relays as [|raw relays IH]; intros seen Ht; [by apply elem_of_nil in Ht|]. cbn in Ht.
  assert (Hmore : forall seen', t ∈ targets_from relays skip seen' ->
    (exists raw0, raw0 ∈ raw :: relays /\ flowSpecFromString raw0 = Some t) /\ (relayKey (Label t) ∉ skip) /\ (relayKey (Label t) ∉ seen')).
  { intros seen' Hx. destruct (IH seen' Hx) as ((raw0 & ? & ?) & ? & ?). split_and!; try done. exists raw0. split; [by right|done]. }
  destruct (flowSpecFromString raw) as [t'|] eqn:El; [|by apply Hmore].
  destruct (bool_decide (relayKey (Label t') ∈ seen)) eqn:E1; [by apply Hmore|].
  destruct (bool_decide (relayKey (Label t') ∈ skip)) eqn:E2; [by apply Hmore|].
  propify. cbn in Ht. apply elem_of_cons in Ht as [->|Ht]; [split_and!; try done; exists raw; split; [by left|done]|].
  destruct (Hmore _ Ht) as (? & ? & Hs). split_and!; [done|done|]. intros Hx. apply Hs. by right.
Qed.

Lemma targets_from_NoDup relays skip seen : NoDup (tkeys (targets_from relays skip seen)).
Proof.
  rewrite <- tkeys_eq. revert seen. induction relays as [|raw relays IH]; intros seen; [constructor|]. cbn.
  destruct (flowSpecFromString raw) as [t|]; [|apply IH]. destruct (_ || _); [apply IH|]. cbn. constructor; [|apply IH].
  intros (t' & Heq & Ht')%list_elem_of_fmap. apply targets_from_elem in Ht' as (_ & _ & Hs). apply Hs. rewrite <- Heq. by left.
Qed.

Lemma targets_from_complete relays skip seen raw t :
  raw ∈ relays -> flowSpecFromString raw = Some t ->
  relayKey (Label t) ∈ tkeys (targets_from relays skip seen) \/ relayKey (Label t) ∈ skip \/ relayKey (Label t) ∈ seen.
Proof.
  rewrite <- tkeys_eq. revert seen. induction relays as [|raw' relays IH]; intros seen Hr Hl; [by apply elem_of_nil in Hr|]. cbn.
  apply elem_of_cons in Hr as [<-|Hr].
  - rewrite Hl. destruct (bool_decide (relayKey (Label t) ∈ seen)) eqn:E1; [propify; tauto|].
    destruct (bool_decide (relayKey (Label t) ∈ skip)) eqn:E2; [propify; tauto|]. left. cbn. by left.
  - destruct (flowSpecFromString raw') as [t'|]; [|by apply IH].
    destruct (bool_decide (relayKey (Label t') ∈ seen)) eqn:E1; [by apply IH|].
    destruct (bool_decide (relayKey (Label t') ∈ skip)) eqn:E2; [by apply IH|]. cbn.
    destruct (IH (relayKey (Label t') :: seen) Hr Hl) as [Hx|[Hx|[Hx|Hx]%elem_of_cons]].
    + left. by right.
    + tauto.
    + left. rewrite Hx. by left.
    + tauto.
Qed.

(** Relays whose keys have no separator in them. *)
Definition barless (relays : list string) : Prop :=
  forall raw t, raw ∈ relays -> flowSpecFromString raw = Some t -> no_bar (relayKey (Label t)) = true.

Lemma targets_barless relays skip : barless relays -> Forall (fun k => no_bar k = true) (tkeys (targets relays skip)).
Proof.
  intros Hb. rewrite <- tkeys_eq. apply Forall_fmap, Forall_forall. intros t Ht.
  apply targets_from_elem in Ht as ((raw & Hr & Hl) & _). cbn. by eapply Hb.
Qed.

Lemma barless_separated ps : Forall (fun p => Forall (fun k => no_bar k = true) (tkeys p)) ps -> separated ps.
Proof.
  intros Hps p q Hp Hq Hpn Hqn. rewrite Forall_forall in Hps.
  apply Join_bar_inj; [by destruct p|by destruct q|by apply Hps|by apply Hps].
Qed.

(** ** Answers told *)

Definition told (rs : list TargetRead) (l : lookup) : lookup := foldl (fun l res => record_one res l) l rs.

Lemma told_app rs rs' l : told (rs ++ rs') l = told rs' (told rs l).
Proof. unfold told. by rewrite foldl_app. Qed.

Lemma told_Ref rs l : lk_Ref (told rs l) = lk_Ref l.
Proof. induction rs as [|x rs IH] using rev_ind; [done|]. by rewrite told_app. Qed.

Lemma told_asked rs l : asked_keys (told rs l) = asked_keys l ++ keys (tr_Target <$> rs).
Proof.
  induction rs as [|x rs IH] using rev_ind; [by rewrite app_nil_r|]. rewrite told_app. unfold asked_keys, keys in *.
  cbn [told foldl record_one lk_Asked]. rewrite !fmap_app, IH, <- app_assoc. done.
Qed.

Lemma told_copies rs l c :
  inline (lk_Ref l) = false -> c ∈ lk_Copies (told rs l) -> c ∈ lk_Copies l \/ matches (lk_Ref l) (ec_Event c) = true.
Proof.
  intros Hi. induction rs as [|x rs IH] using rev_ind; [by left|]. rewrite told_app. unfold told at 1. cbn [foldl record_one lk_Copies].
  rewrite told_Ref, Hi, elem_of_app. intros [Hc|Hc]; [by apply IH|]. right.
  apply list_elem_of_fmap in Hc as (ev & -> & Hev). apply list_elem_of_In, filter_In in Hev as [_ Hm]. cbn.
  unfold inline in Hi. by destruct (rf_Event (lk_Ref l)).
Qed.

Lemma told_inline rs l : inline (lk_Ref l) = true -> lk_Copies (told rs l) = lk_Copies l.
Proof.
  intros Hi. induction rs as [|x rs IH] using rev_ind; [done|]. rewrite told_app. unfold told at 1. cbn [foldl record_one lk_Copies].
  by rewrite told_Ref, Hi, app_nil_r.
Qed.

(** A lookup is told answers for as long as it asks. *)
Lemma ask_seq_told everywhere rs l :
  exists n, n <= length rs /\ ask_seq everywhere rs l = told (take n rs) l /\
    (forall m, m < n -> pending everywhere (told (take m rs) l) = true) /\
    (pending everywhere (ask_seq everywhere rs l) = true -> n = length rs).
Proof.
  revert l. induction rs as [|x rs IH]; intros l.
  { exists 0. split_and!; [done|done|lia|done]. }
  destruct (pending everywhere l) eqn:Hp.
  - destruct (IH (record_one x l)) as (n & Hn & Hl & Hm & Hend). exists (S n). unfold ask_seq in *. cbn [foldl length]. rewrite Hp.
    split_and!; [lia|done| |intros He; f_equal; by apply Hend].
    intros [|m] Hlt; [done|]. cbn [take]. apply Hm. lia.
  - exists 0. rewrite ask_seq_done by done. split_and!; [lia|done|lia|]. by rewrite Hp.
Qed.

(** ** The stages *)

Section Stage.
Context {S : Type}.
Variable relaysFor : S -> lookup -> list string * S.
Variable Inv : S -> Prop.
Hypothesis Hinv : forall s l, Inv s -> Inv (relaysFor s l).2.

(** One reference, or relays without separators in their keys. *)
Lemma plans_separated everywhere ls s :
  Inv s -> length ls <= 1 \/ (forall s l, Inv s -> l ∈ ls -> barless (relaysFor s l).1) ->
  separated (plan_lookups relaysFor everywhere ls s).1.
Proof using Hinv.
  intros Hs [Hl|Hb].
  - intros p q (i & Hi)%list_elem_of_lookup (j & Hj)%list_elem_of_lookup _ _ _.
    pose proof (plan_lookups_length relaysFor everywhere ls s) as Hlen.
    pose proof (lookup_lt_Some _ _ _ Hi). pose proof (lookup_lt_Some _ _ _ Hj). assert (i = j) as -> by lia. congruence.
  - apply barless_separated, Forall_forall. intros p (j & Hj)%list_elem_of_lookup.
    destruct (lookup_lt_is_Some_2 ls j) as [x Hx].
    { rewrite <- (plan_lookups_length relaysFor everywhere ls s). by eapply lookup_lt_Some. }
    destruct (plan_lookups_lookup relaysFor Inv everywhere ls s j x Hinv Hs Hx) as (p' & Hp' & Hc).
    rewrite Hj in Hp'. injection Hp' as <-.
    destruct (pending everywhere x); [|by subst p]. destruct Hc as (s1 & Hs1 & ->).
    apply targets_barless, Hb; [done|by eapply list_elem_of_lookup_2].
Qed.

(** A stage tells each lookup answers of its own targets, none it asked before. *)
Lemma stage_tells everywhere ls s (w : W) :
  Inv s -> length ls <= 1 \/ (forall s l, Inv s -> l ∈ ls -> barless (relaysFor s l).1) ->
  forall i l, ls !! i = Some l ->
  exists rs s0, (foldl (ask_group VerifyNoPow everywhere) (ls, w)
              (build_groups VerifyNoPow relaysFor everywhere 0 ls [] s).1).1 !! i = Some (told rs l) /\
    NoDup (keys (tr_Target <$> rs)) /\
    (forall k, k ∈ keys (tr_Target <$> rs) -> k ∉ asked_keys l) /\
    (forall m, m < length rs -> pending everywhere (told (take m rs) l) = true) /\
    (pending everywhere (told rs l) = true -> keys (tr_Target <$> rs) = tkeys (targets (relaysFor s0 l).1 (asked_keys l))).
Proof using Hinv.
  intros Hs Hsep i l Hi. rewrite build_groups_plans. cbn [fst].
  pose proof (plans_separated everywhere ls s Hs Hsep) as Hps.
  assert (Hgr : grouped (plan_lookups relaysFor everywhere ls s).1 (group_plans 0 (plan_lookups relaysFor everywhere ls s).1 [])).
  { apply (group_plans_grouped []). split; [constructor| | |].
    - intros k g Hin. by apply elem_of_nil in Hin.
    - done.
    - intros j Hj. by apply elem_of_nil in Hj. }
  destruct (plan_lookups_lookup relaysFor Inv everywhere ls s i l Hinv Hs Hi) as (p & Hp & Hc).
  destruct (grouped_asks everywhere _ _ ls w Hps Hgr i l p Hi Hp) as (rs & Hrs & Hl).
  destruct (ask_seq_told everywhere rs l) as (n & Hn & Htold & Hm & Hend). rewrite Htold in Hl, Hend.
  destruct (pending everywhere l) eqn:Hpl.
  - destruct Hc as (s0 & _ & ->). exists (take n rs), s0. split; [done|].
    assert (Hk : keys (tr_Target <$> take n rs) = take n (tkeys (targets (relaysFor s0 l).1 (asked_keys l)))).
    { rewrite <- Hrs. unfold keys. by rewrite !fmap_take. }
    split_and!.
    + rewrite Hk. eapply sublist_NoDup; [|apply sublist_take]. apply targets_from_NoDup.
    + intros k Hkin. rewrite Hk in Hkin. eapply elem_of_sublist in Hkin; [|apply sublist_take]. rewrite <- tkeys_eq in Hkin.
      apply list_elem_of_fmap in Hkin as (t & -> & Ht). by apply targets_from_elem in Ht as (_ & ? & _).
    + intros m Hlt. rewrite length_take in Hlt. rewrite take_take, Nat.min_l by lia. apply Hm. lia.
    + intros He. rewrite Hk. specialize (Hend He). rewrite take_ge; [done|].
      rewrite <- Hrs. unfold keys. rewrite !length_fmap. lia.
  - subst p. assert (rs = []) as -> by (unfold tkeys, keys in Hrs; by destruct rs). exists [], s. rewrite take_nil in Hl. split; [done|].
    split_and!; [constructor|by intros k ?%elem_of_nil|cbn; lia|]. cbn. by rewrite Hpl.
Qed.
End Stage.

(** Asking keeps the lookups there are. *)
Lemma record_length members res ls : length (record members res ls) = length ls.
Proof. unfold record. revert ls. induction members as [|i members IH]; intros ls; [done|]. cbn. by rewrite IH, length_alter. Qed.

Lemma ask_group_length everywhere ls (w : W) kg : length (ask_group VerifyNoPow everywhere (ls, w) kg).1 = length ls.
Proof.
  unfold ask_group. destruct everywhere.
  - generalize (filtersFor (g_members kg.2) ls). intros fs. revert ls w.
    induction (g_targets kg.2) as [|t ts IH]; intros ls w; [done|]. cbn [ask_all].
    destruct (ReadTarget w t fs) as [res w']. by rewrite IH, record_length.
  - revert ls w. induction (g_targets kg.2) as [|t ts IH]; intros ls w; [done|]. cbn [ask_first].
    destruct (Nat.eqb _ 0); [done|]. destruct (ReadTarget w t _) as [res w']. by rewrite IH, record_length.
Qed.

Lemma stage_length {S} (relaysFor : S -> lookup -> list string * S) everywhere ls s (w : W) :
  length (foldl (ask_group VerifyNoPow everywhere) (ls, w) (build_groups VerifyNoPow relaysFor everywhere 0 ls [] s).1).1 = length ls.
Proof.
  generalize (build_groups VerifyNoPow relaysFor everywhere 0 ls [] s).1. intros gs. revert ls w.
  induction gs as [|kg gs IH]; intros ls w; [done|]. cbn [foldl].
  pose proof (ask_group_length everywhere ls w kg) as Hl. destruct (ask_group VerifyNoPow everywhere (ls, w) kg) as [ls' w'].
  cbn in Hl. by rewrite IH.
Qed.

(** ** Relays in play *)

(** The relays of a relay list that a relay served. *)
Definition outbox_relay (raw : string) : Prop :=
  exists w t fs ev us, ev ∈ tr_Events (ReadTarget (W := W) w t fs).1 /\ ParseRelayList ev = Some us /\ (raw, true) ∈ us.

(** With several references at a time, no relay in play has the separator of
    joined keys in its label. *)
Definition told_apart (refs : list ref) : Prop :=
  length refs <= 1 \/
  ((forall rf, rf ∈ refs -> barless (firstRelays prefs_relays r rf)) /\
   (forall raw t, outbox_relay raw -> flowSpecFromString raw = Some t -> no_bar (relayKey (Label t)) = true)).

(** What the cache of relay lists holds was served. *)
Definition cache_served (s : gmap string (list string) * W) : Prop :=
  forall author out raw, s.1 !! author = Some out -> raw ∈ out -> outbox_relay raw.

Lemma cache_served_empty (w : W) : cache_served (∅, w).
Proof. intros a o raw Ha. cbn in Ha. by rewrite lookup_empty in Ha. Qed.

Lemma read_lists_served author ts (w : W) ev :
  ev ∈ (read_lists author ts w).1 -> exists w t fs, ev ∈ tr_Events (ReadTarget (W := W) w t fs).1.
Proof.
  revert w. induction ts as [|t ts IH]; intros w He; [by apply elem_of_nil in He|]. cbn [read_lists] in He.
  destruct (ReadTarget w t [FRelayList author]) as [res w'] eqn:Er. specialize (IH w').
  destruct (read_lists author ts w') as [evs w'']. cbn in *. apply elem_of_app in He as [He|He]; [|by apply IH].
  exists w, t, [FRelayList author]. by rewrite Er.
Qed.

Lemma newest_list_elem author evs ev : newest_list Verify author evs = Some ev -> ev ∈ evs.
Proof.
  unfold newest_list. induction evs as [|x evs IH] using rev_ind; [done|]. rewrite foldl_app. cbn [foldl].
  rewrite elem_of_app. destruct (_ || _); [by intros ?%IH; left|].
  destruct (foldl _ None evs) as [b|]; [destruct (_ <? _)%Z|]; intros E; [injection E as <-; right; by left|by left; apply IH|injection E as <-; right; by left].
Qed.

Lemma outboxRelays_served (s : gmap string (list string) * W) author hints :
  cache_served s ->
  (forall raw, raw ∈ (outboxRelays Verify prefs_relays ParseRelayList r s author hints).1 -> outbox_relay raw) /\
  cache_served (outboxRelays Verify prefs_relays ParseRelayList r s author hints).2.
Proof.
  intros Hs. destruct s as [outbox w]. unfold outboxRelays.
  assert (Hnil : forall raw : string, raw ∈ ([] : list string) -> outbox_relay raw) by (by intros raw ?%elem_of_nil).
  destruct (_ || _); [done|]. destruct (outbox !! author) as [got|] eqn:Eo; [split; [intros raw; by apply (Hs author got)|done]|].
  assert (Hset : forall w out, (forall raw, raw ∈ out -> outbox_relay raw) -> cache_served (<[author := out]> outbox, w)).
  { intros w' out Hout a o raw. cbn. intros [[<- <-]|[_ Ha]]%lookup_insert_Some; [by apply Hout|by eapply Hs]. }
  destruct (Nat.eqb _ 0); [split; [done|by apply Hset]|].
  pose proof (read_lists_served author (targets (hints ++ baseRelays prefs_relays r) []) w) as Hread.
  destruct (read_lists author _ w) as [evs w'] eqn:Er. cbn [fst] in Hread.
  destruct (newest_list Verify author evs) as [ev|] eqn:En; [|split; [done|by apply Hset]].
  apply newest_list_elem, Hread in En as (w0 & t & fs & Hev).
  destruct (ParseRelayList ev) as [us|] eqn:Ep; [|split; [done|by apply Hset]].
  assert (Hout : forall raw, raw ∈ take maxOutboxRelays (List.filter snd us).*1 -> outbox_relay raw).
  { intros raw Hraw. eapply elem_of_sublist in Hraw; [|apply sublist_take].
    apply list_elem_of_fmap in Hraw as ([u b] & -> & Hin).
    apply list_elem_of_In, filter_In in Hin as [Hin Hb]. cbn in Hb. subst b.
    exists w0, t, fs, ev, us. split_and!; [done|done|by apply list_elem_of_In]. }
  split; [done|]. rewrite insert_insert_eq. by apply Hset.
Qed.

Lemma told_matches rs rf c :
  c ∈ lk_Copies (told rs (new_lookup rf)) ->
  match rf_Event rf with Some ev => ec_Event c = ev | None => matches rf (ec_Event c) = true end.
Proof.
  intros Hc. destruct (rf_Event rf) as [ev|] eqn:Er.
  - rewrite told_inline in Hc by (unfold inline; cbn; by rewrite Er). unfold new_lookup in Hc. rewrite Er in Hc.
    cbn in Hc. apply list_elem_of_singleton in Hc as ->. done.
  - apply told_copies in Hc; [|unfold inline; cbn; by rewrite Er]. unfold new_lookup in Hc. rewrite Er in Hc. cbn in Hc.
    destruct Hc as [Hc|Hc]; [by apply elem_of_nil in Hc|done].
Qed.

(** C36: what a run of [resolve] does for one reference, when it is the only one or
    no relay in play has a '|' in its label ([joined_keys_collide] shows what
    happens otherwise): the answers it is told, in order, are from relays that
    all differ; each was asked only while the reference was open (not yet
    answered with a copy that verifies, or relays are asked everywhere); if it is
    still open, all its hints and base relays that name a target were asked; and
    every copy is the one given or matches the reference. *)
Theorem resolve_refines (refs : list ref) (everywhere : bool) (w : W) (j : nat) (rf : ref) :
  rs_offline r = false -> told_apart refs -> refs !! j = Some rf ->
  exists rs,
    (resolve VerifyNoPow Verify prefs_relays ParseRelayList r refs everywhere w).1 !! j
      = Some (told rs (new_lookup rf)) /\
    NoDup (keys (tr_Target <$> rs)) /\
    (forall m, m < length rs -> pending everywhere (told (take m rs) (new_lookup rf)) = true) /\
    (pending everywhere (told rs (new_lookup rf)) = true ->
     forall raw t, raw ∈ firstRelays prefs_relays r rf -> flowSpecFromString raw = Some t ->
       relayKey (Label t) ∈ keys (tr_Target <$> rs)) /\
    (forall c, c ∈ lk_Copies (told rs (new_lookup rf)) ->
       match rf_Event rf with Some ev => ec_Event c = ev | None => matches rf (ec_Event c) = true end).
Proof.
  intros Hoff Hapart Hj. unfold resolve. rewrite Hoff.
  assert (Hj0 : (new_lookup <$> refs) !! j = Some (new_lookup rf)) by (by rewrite list_lookup_fmap, Hj).
  unfold stage_one.
  destruct (stage_tells (fun (u : unit) l => (firstRelays prefs_relays r (lk_Ref l), u)) (fun _ => True) ltac:(done)
              everywhere (new_lookup <$> refs) tt w I) with (i := j) (l := new_lookup rf)
    as (rs1 & s1 & Hl1 & Hn1 & _ & Hm1 & He1); [|done|].
  { destruct Hapart as [Hlen|[Hb _]]; [left; by rewrite length_fmap|right].
    intros s l _ (rf' & -> & Hrf)%list_elem_of_fmap. by apply Hb. }
  pose proof (stage_length (fun (u : unit) l => (firstRelays prefs_relays r (lk_Ref l), u)) everywhere (new_lookup <$> refs) tt w) as Hlen1.
  destruct (build_groups VerifyNoPow (fun (u : unit) l => (firstRelays prefs_relays r (lk_Ref l), u)) everywhere 0
              (new_lookup <$> refs) [] tt) as [gs1 u1]. cbn [fst] in Hl1, Hlen1.
  destruct (foldl (ask_group VerifyNoPow everywhere) (new_lookup <$> refs, w) gs1) as [ls1 w1]. cbn [fst] in Hl1, Hlen1.
  unfold stage_two.
  set (two := fun s l => outboxRelays Verify prefs_relays ParseRelayList r s (author_of l) (rf_Hints (lk_Ref l))).
  pose proof (fun w2 Hx => stage_tells two cache_served
                (fun s l Hs => proj2 (outboxRelays_served s (author_of l) (rf_Hints (lk_Ref l)) Hs))
                everywhere ls1 (∅, w1) w2 (cache_served_empty w1) Hx j _ Hl1) as H2.
  destruct (build_groups VerifyNoPow two everywhere 0 ls1 [] (∅, w1)) as [gs2 [ob2 w2]]. cbn [fst] in H2.
  destruct (H2 w2) as (rs2 & s2 & Hl2 & Hn2 & Hd2 & Hm2 & _).
  { destruct Hapart as [Hlen|[_ Hb]]; [left; rewrite Hlen1, length_fmap; done|right].
    intros s l Hs _ raw t Hraw. apply Hb. by apply (outboxRelays_served s (author_of l) (rf_Hints (lk_Ref l)) Hs). }
  clear H2.
  exists (rs1 ++ rs2). rewrite told_app, fmap_app.
  assert (Hkeys : asked_keys (told rs1 (new_lookup rf)) = keys (tr_Target <$> rs1)) by (by rewrite told_asked).
  rewrite Hkeys in Hd2. unfold keys. rewrite fmap_app. fold (keys (tr_Target <$> rs1)). fold (keys (tr_Target <$> rs2)).
  split; [done|]. split.
  { apply NoDup_app. split_and!; [done| |done]. intros k Hk Hk'. by apply (Hd2 k). }
  assert (Hopen : forall m, m < length (rs1 ++ rs2) -> pending everywhere (told (take m (rs1 ++ rs2)) (new_lookup rf)) = true).
  { intros m Hlt. rewrite length_app in Hlt. destruct (decide (m < length rs1)) as [Hlt1|Hge].
    - rewrite take_app_le by lia. by apply Hm1.
    - rewrite take_app_ge by lia. rewrite told_app. apply Hm2. lia. }
  split; [done|]. split.
  - intros Hpend raw t Hraw Hlab. apply elem_of_app. left. destruct rs2 as [|x rs2].
    + destruct (targets_from_complete (firstRelays prefs_relays r rf) [] [] raw t Hraw Hlab) as [Hx|[Hx|Hx]];
        [|by apply elem_of_nil in Hx..]. rewrite (He1 Hpend). exact Hx.
    + assert (Hp1 : pending everywhere (told rs1 (new_lookup rf)) = true) by (apply (Hm2 0); cbn; lia).
      destruct (targets_from_complete (firstRelays prefs_relays r rf) [] [] raw t Hraw Hlab) as [Hx|[Hx|Hx]];
        [|by apply elem_of_nil in Hx..]. rewrite (He1 Hp1). exact Hx.
  - intros c. rewrite <- told_app. apply told_matches.
Qed.
End Asking.

(** ** The copy used *)

Section Best.
Variable VerifyNoPow : Event -> bool.

Lemma ltb_leb a b : String.ltb a b = negb (String.leb b a).
Proof. unfold String.ltb, String.leb. rewrite (String.compare_antisym a b). by destruct (String.compare b a). Qed.

Lemma not_newer a b :
  newer a b = false <->
  (ev_CreatedAt a < ev_CreatedAt b)%Z \/ (ev_CreatedAt a = ev_CreatedAt b /\ String.le (ev_ID b) (ev_ID a)).
Proof.
  unfold newer, String.le. rewrite Is_true_true. destruct (Z.eqb_spec (ev_CreatedAt a) (ev_CreatedAt b)) as [He|He]; cbn [negb].
  - rewrite ltb_leb, negb_false_iff. split; [auto|]. intros [?|[_ ?]]; [lia|done].
  - rewrite Z.ltb_ge. split; [left; lia|]. intros [?|[? _]]; [lia|done].
Qed.

Lemma not_newer_refl a : newer a a = false.
Proof. apply not_newer. right. done. Qed.

Lemma not_newer_trans a b c : newer a b = false -> newer b c = false -> newer a c = false.
Proof.
  rewrite !not_newer. intros [H1|[H1 H1']] [H2|[H2 H2']]; [left; lia..|]. right. split; [lia|]. by etrans.
Qed.

Lemma newer_not a b : newer a b = true -> newer b a = false.
Proof.
  unfold newer. rewrite (Z.eqb_sym (ev_CreatedAt b)). destruct (Z.eqb_spec (ev_CreatedAt a) (ev_CreatedAt b)); cbn [negb].
  - rewrite !ltb_leb, negb_true_iff, negb_false_iff. intros Hl. by destruct (String.leb_total (ev_ID a) (ev_ID b)) as [?|?]; [|congruence].
  - rewrite Z.ltb_lt, Z.ltb_ge. lia.
Qed.

(** A choice made among [cs]: the first, or one that none is newer than. *)
Definition chosen (addr : bool) (cs : list eventCopy) (o : option eventCopy) : Prop :=
  match o with
  | None => cs = []
  | Some c => c ∈ cs /\ (if addr then forall c', c' ∈ cs -> newer (ec_Event c') (ec_Event c) = false else head cs = Some c)
  end.

Lemma chosen_step addr cs o c :
  chosen addr cs o ->
  chosen addr (cs ++ [c]) (if match o with None => true | Some q => addr && newer (ec_Event c) (ec_Event q) end then Some c else o).
Proof.
  destruct o as [q|]; cbn [chosen].
  - intros [Hq Hc]. destruct addr; cbn [andb].
    + destruct (newer (ec_Event c) (ec_Event q)) eqn:En; (split; [apply elem_of_app; auto|]).
      * right. by left.
      * intros c' [Hc'| ->%list_elem_of_singleton]%elem_of_app; [|apply not_newer_refl].
        eapply not_newer_trans; [by apply Hc|]. by apply newer_not.
      * intros c' [Hc'| ->%list_elem_of_singleton]%elem_of_app; [by apply Hc|done].
    + split; [apply elem_of_app; by left|]. by destruct cs.
  - intros ->. split; [by left|]. destruct addr; [|done]. intros c' ->%list_elem_of_singleton. apply not_newer_refl.
Qed.

(** The copies a command may act on: those that verify, or all if none does. *)
Definition candidates (l : lookup) : list eventCopy :=
  if existsb (fun c => VerifyNoPow (ec_Event c)) (lk_Copies l)
  then List.filter (fun c => VerifyNoPow (ec_Event c)) (lk_Copies l) else lk_Copies l.

(** [best] picks from the copies that verify, or from all when none does: for
    an id the first, for an address one that none is newer than (later, or as
    late with a lower id); it picks none only if there is no copy. *)
Theorem best_exact (l : lookup) : chosen (rf_Addr (lk_Ref l)) (candidates l) (best VerifyNoPow l).
Proof.
  unfold best, candidates. set (valid := fun c => VerifyNoPow (ec_Event c)).
  assert (Hinv : forall cs, chosen (rf_Addr (lk_Ref l)) cs (foldl (best_step VerifyNoPow (rf_Addr (lk_Ref l))) (None, None) cs).1 /\
    chosen (rf_Addr (lk_Ref l)) (List.filter valid cs) (foldl (best_step VerifyNoPow (rf_Addr (lk_Ref l))) (None, None) cs).2).
  { intros cs. induction cs as [|c cs [IH1 IH2]] using rev_ind; [done|]. rewrite foldl_app, List.filter_app. cbn [foldl List.filter].
    destruct (foldl _ _ cs) as [pick pickValid]. cbn [fst snd best_step] in *. split; [by apply chosen_step|].
    unfold valid at 2. destruct (VerifyNoPow (ec_Event c)); cbn [andb]; [by apply chosen_step|by rewrite app_nil_r]. }
  destruct (Hinv (lk_Copies l)) as [H1 H2]. destruct (foldl _ _ (lk_Copies l)) as [pick pickValid]. cbn [fst snd] in *.
  destruct pickValid as [c|].
  - destruct H2 as [Hc H2]. assert (existsb valid (lk_Copies l) = true) as ->.
    { apply list_elem_of_In, filter_In in Hc as [Hc Hv]. apply existsb_exists. eauto. }
    done.
  - cbn [chosen] in H2. assert (existsb valid (lk_Copies l) = false) as ->; [|done].
    apply not_true_iff_false. intros (c & Hc & Hv)%existsb_exists.
    assert (Hx : In c (List.filter valid (lk_Copies l))) by (by apply filter_In). by rewrite H2 in Hx.
Qed.
End Best.
