(* ===== verification/EventChecks.v ===== *)
(** * Verifying an event

    Models [src/cli/event/checks.go] and the checks of [verify.go] on a lookup's
    copies and on deletions.  The libraries that hash, verify and validate are
    the interface [EventLib]; quotes are left out of the texts of checks.

    Proved: [verify_sound], an event reported valid has the id its content
    hashes to, a signature by its author, is what the reference and the caller
    asked for, and satisfies everything its tags claim. *)
From S2P Require Import Prelude GoTime GoStrings GoFormat GoEncoding Nostr.
From S2P Require Import EventResolve EventResolveFacts.
From stdpp Require Import options.
From Stdlib Require Import Ascii.

Local Open Scope Z_scope.

Definition statusOK : string := "ok".
Definition statusFail : string := "fail".
Definition statusSkip : string := "skip".

Record check := mkCheck { ck_Name : string; ck_Status : string; ck_Detail : string }.

Definition ok (name detail : string) : check := mkCheck name statusOK detail.
Definition fail_ (name detail : string) : check := mkCheck name statusFail detail.
Definition skip (name detail : string) : check := mkCheck name statusSkip detail.

(** What the caller requires: an author ("" for any), a kind (-1 for any). *)
Record expect := mkExpect { wt_Author : string; wt_Kind : Z; wt_MinPow : Z; wt_MaxSkew : Z; wt_Now : Z }.

(** An attestation's owner and its conditions on kinds and times. *)
Record AuthTag := mkAuthTag { at_Owner : string; at_Kind : Z -> bool; at_Time : Z -> bool }.

(** nmilat and the signature library; [None] of a validation is success. *)
Class EventLib := {
  Validate : Event -> option string;
  HashID : Event -> result string string;
  signature : Type;
  public_key : Type;
  ParseSignature : string -> result string signature;
  ParsePubKey : string -> result string public_key;
  sig_Verify : signature -> string -> public_key -> bool;
  Difficulty : string -> result string Z;
  ValidatePow : Event -> option string;
  GetExpiration : list (list string) -> result string Z;
  VerifyDelegationToken : string -> string -> string -> string -> option string;
  ValidateConditions : string -> Z -> Z -> option string;
  OATagName : string;
  ParseAuthTag : list (list string) -> string -> result string AuthTag;
  KindZapReceipt : Z;
  KindZapRequest : Z;
  ValidateZapReceiptForRelay : Event -> option string;
  ValidateZapRequestForRelay : Event -> option string;
  EncodeNpub : string -> option string;
  VerifyAll : Event -> bool;
  VerifyWithoutPow : Event -> bool;
  KindDeletion : Z;
  RFC3339 : Z -> string;
}.

Section Checks.
Context `{EventLib}.

Definition npub (hexKey : string) : string := default hexKey (EncodeNpub hexKey).

(** The first tag with the name. *)
Fixpoint find_tag (tags : list (list string)) (name : string) : option (list string) :=
  match tags with
  | [] => None
  | t :: tags => match t with
                 | n :: _ => if String.eqb n name then Some t else find_tag tags name
                 | [] => find_tag tags name
                 end
  end.

Definition findTag (ev : Event) (name : string) : option (list string) := find_tag (ev_Tags ev) name.
Definition nonceTag (ev : Event) : option (list string) := findTag ev "nonce".

Definition checkSig (ev : Event) (hash : string) : check :=
  match hex_DecodeString (ev_Sig ev) with
  | None => fail_ "sig" "missing or not hex"
  | Some sigBytes =>
      if is_empty sigBytes then fail_ "sig" "missing or not hex"
      else
        match ParseSignature sigBytes with
        | Err e => fail_ "sig" e
        | Ok sig =>
            match hex_DecodeString (ev_PubKey ev) with
            | None => fail_ "sig" "pubkey is not hex"
            | Some pubBytes =>
                match ParsePubKey pubBytes with
                | Err e => fail_ "sig" ("pubkey: " ++ e)
                | Ok pub =>
                    if sig_Verify sig hash pub then ok "sig" ""
                    else fail_ "sig" "signature does not match the content and pubkey"
                end
            end
        end
  end.

Definition coord (kind : Z) (pubkey d : string) : string := (pretty kind ++ ":" ++ pubkey ++ ":" ++ d)%string.

Definition checkRef (ev : Event) (rf : ref) : check :=
  if rf_Addr rf then
    let want := coord (rf_Kind rf) (rf_Author rf) (rf_D rf) in
    let got := coord (ev_Kind ev) (ev_PubKey ev) (dTag ev) in
    if EqualFold want got then ok "reference" "" else fail_ "reference" ("relay returned " ++ got ++ " for " ++ want)
  else if EqualFold (ev_ID ev) (rf_ID rf) then ok "reference" ""
  else fail_ "reference" ("relay returned " ++ ev_ID ev ++ " for " ++ rf_ID rf).

Definition checkPow (ev : Event) (idOK : bool) (minPow : Z) : check :=
  let hasNonce := match nonceTag ev with Some _ => true | None => false end in
  if negb hasNonce && (minPow <=? 0) then skip "pow" "no nonce tag"
  else if negb idOK then fail_ "pow" "id does not match the content"
  else
    match Difficulty (ev_ID ev) with
    | Err e => fail_ "pow" e
    | Ok got =>
        match (if hasNonce then ValidatePow ev else None) with
        | Some e => fail_ "pow" e
        | None =>
            if (0 <? minPow) && (got <? minPow)
            then fail_ "pow" ("difficulty " ++ pretty got ++ ", need " ++ pretty minPow)
            else ok "pow" ("difficulty " ++ pretty got)
        end
    end.

(** [uint64(z)] of an [int64] *)
Definition to_uint64 (z : Z) : Z := z `mod` two64.

Definition checkExpiration (ev : Event) (now : Z) : option check :=
  match findTag ev "expiration" with
  | None => None
  | Some _ =>
      match GetExpiration (ev_Tags ev) with
      | Err e => Some (fail_ "expiration" e)
      | Ok at_ =>
          if at_ <=? to_uint64 (Time_Unix now)
          then Some (fail_ "expiration" ("expired at " ++ RFC3339 at_))
          else Some (ok "expiration" ("expires at " ++ RFC3339 at_))
      end
  end.

Definition checkDelegation (ev : Event) : option check :=
  match findTag ev "delegation" with
  | None => None
  | Some [_; issuer; conditions; sig] =>
      match VerifyDelegationToken issuer (ev_PubKey ev) conditions sig with
      | Some e => Some (fail_ "delegation" e)
      | None =>
          match ValidateConditions conditions (ev_Kind ev) (ev_CreatedAt ev) with
          | Some e => Some (fail_ "delegation" e)
          | None => Some (ok "delegation" ("delegated by " ++ npub issuer))
          end
      end
  | Some _ => Some (fail_ "delegation" "want [delegation, <pubkey>, <conditions>, <sig>]")
  end.

Definition checkOwnerAuth (ev : Event) : option check :=
  match findTag ev OATagName with
  | None => None
  | Some _ =>
      match ParseAuthTag (ev_Tags ev) (ev_PubKey ev) with
      | Err e => Some (fail_ "owner_auth" e)
      | Ok tag =>
          if negb (at_Kind tag (ev_Kind ev)) || negb (at_Time tag (ev_CreatedAt ev))
          then Some (fail_ "owner_auth" "event does not meet the attestation's conditions")
          else Some (ok "owner_auth" ("attested by " ++ npub (at_Owner tag)))
      end
  end.

Definition checkZap (ev : Event) : option check :=
  if ev_Kind ev =? KindZapReceipt then
    Some (match ValidateZapReceiptForRelay ev with
          | Some e => fail_ "zap" e
          | None => ok "zap" "receipt matches its request and invoice"
          end)
  else if ev_Kind ev =? KindZapRequest then
    Some (match ValidateZapRequestForRelay ev with Some e => fail_ "zap" e | None => ok "zap" "" end)
  else None.

Definition opt_list (o : option check) : list check := match o with Some c => [c] | None => [] end.

Definition authorCheck (ev : Event) (rf : option ref) (want : expect) : list check :=
  let author := if is_empty (wt_Author want)
                then match rf with Some rf => rf_Author rf | None => ""%string end
                else wt_Author want in
  if is_empty author then []
  else if EqualFold (ev_PubKey ev) author then [ok "author" ""]
  else [fail_ "author" ("signed by " ++ npub (ev_PubKey ev) ++ ", expected " ++ npub author)].

Definition kindCheck (ev : Event) (rf : option ref) (want : expect) : list check :=
  let kind := match rf with
              | Some rf => if (wt_Kind want <? 0) && (0 <=? rf_Kind rf) && negb (rf_Addr rf) then rf_Kind rf else wt_Kind want
              | None => wt_Kind want
              end in
  if kind <? 0 then []
  else if ev_Kind ev =? kind then [ok "kind" ""]
  else [fail_ "kind" ("kind " ++ pretty (ev_Kind ev) ++ ", expected " ++ pretty kind)].

Definition skewCheck (ev : Event) (want : expect) : list check :=
  if 0 <? wt_MaxSkew want then
    let limit := to_uint64 (Time_Unix (Time_Add (wt_Now want) (wt_MaxSkew want))) in
    if limit <? ev_CreatedAt ev then [fail_ "created_at" (RFC3339 (ev_CreatedAt ev) ++ " is more than " ++ Duration_String (wt_MaxSkew want) ++ " in the future")]
    else [ok "created_at" ""]
  else [].

Definition checkEvent (ev : Event) (rf : option ref) (want : expect) : list check :=
  match Validate ev with
  | Some e => [fail_ "format" e]
  | None =>
      ok "format" "" ::
      match HashID ev with
      | Err e => [fail_ "id" e]
      | Ok hash =>
          let computed := hex_EncodeToString hash in
          let idOK := EqualFold computed (ev_ID ev) in
          (if idOK then ok "id" "" else fail_ "id" ("content hashes to " ++ computed)) ::
          checkSig ev hash ::
          match rf with Some rf => if inline rf then [] else [checkRef ev rf] | None => [] end ++
          authorCheck ev rf want ++ kindCheck ev rf want ++
          [checkPow ev idOK (wt_MinPow want)] ++ skewCheck ev want ++
          opt_list (checkExpiration ev (wt_Now want)) ++ opt_list (checkDelegation ev) ++
          opt_list (checkOwnerAuth ev) ++ opt_list (checkZap ev)
      end
  end.

Definition failed (c : check) : bool := String.eqb (ck_Status c) statusFail.

Definition verdict (checks : list check) : string := if existsb failed checks then "invalid" else "valid".

Definition failures (checks : list check) : list string := ck_Name <$> List.filter failed checks.

(** ** The copies and deletions of an event *)

Definition checkCopies (l : lookup) : check :=
  let have := length (foundOn l) in
  if Nat.eqb have 0 && Nat.leb (length (lk_Copies l)) 1 then skip "copies" "no relay holds it"
  else
    let bad := ec_Source <$> List.filter (fun c => negb (VerifyWithoutPow (ec_Event c))) (lk_Copies l) in
    if Nat.ltb 0 (length bad) then fail_ "copies" ("invalid copy from " ++ Join bad ", ")
    else
      let detail := ("held by " ++ pretty (Z.of_nat have) ++ " of " ++ pretty (Z.of_nat (length (lk_Asked l))) ++ " relay(s)")%string in
      let stale := match best VerifyWithoutPow l with
                   | Some b => if rf_Addr (lk_Ref l)
                               then ec_Source <$> List.filter (fun c => negb (String.eqb (ev_ID (ec_Event c)) (ev_ID (ec_Event b)))) (lk_Copies l)
                               else []
                   | None => []
                   end in
      ok "copies" (if Nat.ltb 0 (length stale) then (detail ++ "; older version on " ++ Join stale ", ")%string else detail).

Definition coordinate (ev : Event) : string :=
  if (30000 <=? ev_Kind ev) && (ev_Kind ev <? 40000) then coord (ev_Kind ev) (ev_PubKey ev) (dTag ev)
  else if (ev_Kind ev =? 0) || (ev_Kind ev =? 3) || ((10000 <=? ev_Kind ev) && (ev_Kind ev <? 20000))
  then coord (ev_Kind ev) (ev_PubKey ev) ""
  else ""%string.

Definition has_pair (name : string) (p : string -> bool) (tags : list (list string)) : bool :=
  existsb (fun t => match t with n :: x :: _ => String.eqb n name && p x | _ => false end) tags.

Definition deletesID (del : Event) (id : string) : bool := has_pair "e" (fun x => EqualFold x id) (ev_Tags del).
Definition deletesAddress (del : Event) (c : string) : bool := has_pair "a" (fun x => String.eqb x c) (ev_Tags del).

(** Whether a deletion a relay returned counts. *)
Definition deletes (ev del : Event) : bool :=
  String.eqb (ev_PubKey del) (ev_PubKey ev) && VerifyAll del &&
  ((negb (is_empty (coordinate ev)) && deletesAddress del (coordinate ev) && (ev_CreatedAt ev <=? ev_CreatedAt del)) ||
   deletesID del (ev_ID ev)).

(** [checkDeleted] of what the relays answered, in order. *)
Definition checkDeleted (ev : Event) (answers : list TargetRead) : check :=
  let reached := List.filter (fun a => match tr_Err a with None => true | Some _ => false end) answers in
  if Nat.eqb (length answers) 0 then skip "deleted" "no relay to ask"
  else
    match List.find (fun x => deletes ev x.2) (a ← reached; (fun del => (tr_Target a, del)) <$> tr_Events a) with
    | Some (target, del) => fail_ "deleted" ("deleted by " ++ ev_ID del ++ " on " ++ target)
    | None => if Nat.eqb (length reached) 0 then skip "deleted" "no relay could be reached"
              else ok "deleted" ("no deletion on " ++ pretty (Z.of_nat (length reached)) ++ " relay(s)")
    end.

(** ** [verify] *)

(** What [runVerify] reports of a lookup: the relays' answers about deletions
    when they are asked for. *)
Definition verify_checks (cross : bool) (deleted : option (list TargetRead)) (want : expect) (l : lookup) (ev : Event) : list check :=
  checkEvent ev (Some (lk_Ref l)) want ++ (if cross then [checkCopies l] else []) ++
  match deleted with Some answers => [checkDeleted ev answers] | None => [] end.

Definition verify_status (cross : bool) (deleted : option (list TargetRead)) (want : expect) (l : lookup) : string :=
  match best VerifyWithoutPow l with
  | None => "missing"
  | Some c => verdict (verify_checks cross deleted want l (ec_Event c))
  end.

(** ** Soundness *)

(** The event's signature over the hash, by the author's key. *)
Definition signed (ev : Event) (hash : string) : Prop :=
  exists sb sig pb pub, hex_DecodeString (ev_Sig ev) = Some sb /\ ParseSignature sb = Ok sig /\
    hex_DecodeString (ev_PubKey ev) = Some pb /\ ParsePubKey pb = Ok pub /\ sig_Verify sig hash pub = true.

(** What passing each check means. *)
Definition names (ev : Event) (rf : ref) : Prop :=
  if rf_Addr rf then EqualFold (coord (rf_Kind rf) (rf_Author rf) (rf_D rf)) (coord (ev_Kind ev) (ev_PubKey ev) (dTag ev)) = true
  else EqualFold (ev_ID ev) (rf_ID rf) = true.

Definition worked (ev : Event) (minPow : Z) : Prop :=
  (0 < minPow -> exists d, Difficulty (ev_ID ev) = Ok d /\ minPow <= d) /\
  (is_Some (nonceTag ev) -> ValidatePow ev = None).

Definition unexpired (ev : Event) (now : Z) : Prop :=
  is_Some (findTag ev "expiration") -> exists at_, GetExpiration (ev_Tags ev) = Ok at_ /\ to_uint64 (Time_Unix now) < at_.

Definition delegated (ev : Event) : Prop :=
  is_Some (findTag ev "delegation") ->
  exists n issuer conditions sig, findTag ev "delegation" = Some [n; issuer; conditions; sig] /\
    VerifyDelegationToken issuer (ev_PubKey ev) conditions sig = None /\
    ValidateConditions conditions (ev_Kind ev) (ev_CreatedAt ev) = None.

Definition attested (ev : Event) : Prop :=
  is_Some (findTag ev OATagName) ->
  exists tag, ParseAuthTag (ev_Tags ev) (ev_PubKey ev) = Ok tag /\ at_Kind tag (ev_Kind ev) = true /\ at_Time tag (ev_CreatedAt ev) = true.

Lemma checkSig_ok ev hash : failed (checkSig ev hash) = false -> signed ev hash.
Proof.
  unfold checkSig, signed. destruct (hex_DecodeString (ev_Sig ev)) as [sb|]; [|done]. destruct (is_empty sb); [done|].
  destruct (ParseSignature sb) as [sig|] eqn:E1; [|done]. destruct (hex_DecodeString (ev_PubKey ev)) as [pb|]; [|done].
  destruct (ParsePubKey pb) as [pub|] eqn:E2; [|done]. destruct (sig_Verify sig hash pub) eqn:E3; [|done].
  intros _. exists sb, sig, pb, pub. done.
Qed.

Lemma checkRef_ok ev rf : failed (checkRef ev rf) = false -> names ev rf.
Proof.
  unfold checkRef, names. destruct (rf_Addr rf).
  - by destruct (EqualFold _ _).
  - by destruct (EqualFold _ _).
Qed.

Lemma checkPow_ok ev minPow : failed (checkPow ev true minPow) = false -> worked ev minPow.
Proof.
  unfold checkPow, worked. destruct (nonceTag ev) as [t|]; cbn [negb andb].
  - destruct (Difficulty (ev_ID ev)) as [d|]; [|done]. destruct (ValidatePow ev); [done|].
    destruct (Z.ltb_spec 0 minPow); cbn [andb]; [|split; [lia|done]].
    destruct (Z.ltb_spec d minPow); [done|]. split; [|done]. exists d. split; [done|lia].
  - destruct (Z.leb_spec minPow 0); [intros _; split; [lia|by intros [? ?]]|].
    destruct (Difficulty (ev_ID ev)) as [d|]; [|done]. destruct (Z.ltb_spec 0 minPow); [|lia]. cbn [andb].
    destruct (Z.ltb_spec d minPow); [done|]. split; [|by intros [? ?]]. exists d. split; [done|lia].
Qed.

Lemma existsb_failed_app a b : existsb failed (a ++ b) = false <-> existsb failed a = false /\ existsb failed b = false.
Proof. rewrite existsb_app. apply orb_false_iff. Qed.

Lemma checkExpiration_ok ev now : existsb failed (opt_list (checkExpiration ev now)) = false -> unexpired ev now.
Proof.
  unfold checkExpiration, unexpired. destruct (findTag ev "expiration"); [|by intros _ [? ?]].
  destruct (GetExpiration (ev_Tags ev)) as [at_|]; [|done]. destruct (Z.leb_spec at_ (to_uint64 (Time_Unix now))); [done|]. eauto.
Qed.

Lemma checkDelegation_ok ev : existsb failed (opt_list (checkDelegation ev)) = false -> delegated ev.
Proof.
  unfold checkDelegation, delegated. destruct (findTag ev "delegation") as [t|]; [|by intros _ [? ?]].
  destruct t as [|n [|issuer [|conditions [|sig [|]]]]]; try done.
  destruct (VerifyDelegationToken _ _ _ _) eqn:E1; [done|]. destruct (ValidateConditions _ _ _) eqn:E2; [done|].
  intros _ _. by exists n, issuer, conditions, sig.
Qed.

Lemma checkOwnerAuth_ok ev : existsb failed (opt_list (checkOwnerAuth ev)) = false -> attested ev.
Proof.
  unfold checkOwnerAuth, attested. destruct (findTag ev OATagName) as [t|]; [|by intros _ [? ?]].
  destruct (ParseAuthTag _ _) as [tag|]; [|done].
  destruct (at_Kind tag (ev_Kind ev)) eqn:E1, (at_Time tag (ev_CreatedAt ev)) eqn:E2; cbn; try done. intros _ _. by exists tag.
Qed.

Lemma checkZap_ok ev :
  existsb failed (opt_list (checkZap ev)) = false ->
  (ev_Kind ev = KindZapReceipt -> ValidateZapReceiptForRelay ev = None) /\
  (ev_Kind ev = KindZapRequest -> ev_Kind ev <> KindZapReceipt -> ValidateZapRequestForRelay ev = None).
Proof.
  unfold checkZap. destruct (Z.eqb_spec (ev_Kind ev) KindZapReceipt) as [He|He].
  - cbn. destruct (ValidateZapReceiptForRelay ev); [done|]. done.
  - destruct (Z.eqb_spec (ev_Kind ev) KindZapRequest); cbn; [|done]. by destruct (ValidateZapRequestForRelay ev).
Qed.

(** The author and the kind a caller asks for, or else the reference does. *)
Definition asked_author (want : expect) (rf : ref) : string :=
  if is_empty (wt_Author want) then rf_Author rf else wt_Author want.

Definition asked_kind (want : expect) (rf : ref) : Z :=
  if (wt_Kind want <? 0) && (0 <=? rf_Kind rf) && negb (rf_Addr rf) then rf_Kind rf else wt_Kind want.

Lemma authorCheck_ok ev rf want :
  existsb failed (authorCheck ev (Some rf) want) = false ->
  asked_author want rf <> ""%string -> EqualFold (ev_PubKey ev) (asked_author want rf) = true.
Proof.
  unfold authorCheck. cbv zeta. fold (asked_author want rf). intros Hf Hne.
  destruct (asked_author want rf) as [|a s]; [done|]. cbn [is_empty] in Hf. by destruct (EqualFold _ _).
Qed.

Lemma kindCheck_ok ev rf want :
  existsb failed (kindCheck ev (Some rf) want) = false -> 0 <= asked_kind want rf -> ev_Kind ev = asked_kind want rf.
Proof.
  unfold kindCheck. cbv zeta. fold (asked_kind want rf). intros Hf Hk.
  rewrite (proj2 (Z.ltb_ge _ _) Hk) in Hf. by destruct (Z.eqb_spec (ev_Kind ev) (asked_kind want rf)).
Qed.

Lemma checkCopies_ok l :
  failed (checkCopies l) = false -> (foundOn l <> [] \/ 1 < length (lk_Copies l))%nat ->
  forall c, c ∈ lk_Copies l -> VerifyWithoutPow (ec_Event c) = true.
Proof.
  unfold checkCopies. intros Hf Hn c Hc.
  assert (E : Nat.eqb (length (foundOn l)) 0 && Nat.leb (length (lk_Copies l)) 1 = false).
  { destruct Hn as [Hn|Hn]; [by destruct (foundOn l)|]. rewrite (proj2 (Nat.leb_gt _ _) Hn). by rewrite andb_false_r. }
  rewrite E in Hf. destruct (VerifyWithoutPow (ec_Event c)) eqn:Ec; [done|]. exfalso.
  destruct (List.filter (fun c => negb (VerifyWithoutPow (ec_Event c))) (lk_Copies l)) as [|b bs] eqn:Eb; [|done].
  assert (Hin : In c (List.filter (fun c => negb (VerifyWithoutPow (ec_Event c))) (lk_Copies l))).
  { apply filter_In. split; [by apply list_elem_of_In|]. by rewrite Ec. }
  by rewrite Eb in Hin.
Qed.

Lemma checkDeleted_ok ev answers :
  failed (checkDeleted ev answers) = false ->
  forall a del, a ∈ answers -> tr_Err a = None -> del ∈ tr_Events a -> deletes ev del = false.
Proof.
  unfold checkDeleted. intros Hf a del Ha He Hd. destruct (Nat.eqb_spec (length answers) 0) as [Hl|_].
  { destruct answers; [|done]. by apply not_elem_of_nil in Ha. }
  destruct (List.find _ _) as [[t d]|] eqn:Ef; [done|].
  destruct (deletes ev del) eqn:Ed; [|done]. exfalso.
  assert (Hin : In (tr_Target a, del) (a ← List.filter (fun a => match tr_Err a with None => true | Some _ => false end) answers;
                                         (fun del => (tr_Target a, del)) <$> tr_Events a)).
  { apply list_elem_of_In, list_elem_of_bind. exists a. split; [by apply list_elem_of_fmap_2|].
    apply list_elem_of_In, filter_In. split; [by apply list_elem_of_In|]. by rewrite He. }
  pose proof (List.find_none _ _ Ef _ Hin) as Hn. cbn in Hn. congruence.
Qed.

(** C35: an event that [verify] reports valid is the copy chosen, is well formed,
    has the id its content hashes to and a signature over that hash by its own
    author; is what the pointer names, if it was not given in full; is by the
    author and of the kind asked for, by the caller or else by the reference; has
    the work asked for and the work its nonce commits to; is not dated too far
    ahead and has not expired; and its delegation, its owner's attestation and
    its zap receipt or request hold.  If copies are compared and a relay holds it,
    every copy the lookup kept verifies (of an event given in full it keeps that
    one only, [cross_inline_unchecked]); if deletions are asked for, no relay
    that answered returned one that deletes it. *)
Theorem verify_sound (cross : bool) (deleted : option (list TargetRead)) (want : expect) (l : lookup) :
  verify_status cross deleted want l = "valid"%string ->
  exists c hash, best VerifyWithoutPow l = Some c /\
    Validate (ec_Event c) = None /\ HashID (ec_Event c) = Ok hash /\
    EqualFold (hex_EncodeToString hash) (ev_ID (ec_Event c)) = true /\ signed (ec_Event c) hash /\
    (inline (lk_Ref l) = false -> names (ec_Event c) (lk_Ref l)) /\
    (asked_author want (lk_Ref l) <> ""%string -> EqualFold (ev_PubKey (ec_Event c)) (asked_author want (lk_Ref l)) = true) /\
    (0 <= asked_kind want (lk_Ref l) -> ev_Kind (ec_Event c) = asked_kind want (lk_Ref l)) /\
    worked (ec_Event c) (wt_MinPow want) /\
    (0 < wt_MaxSkew want -> ev_CreatedAt (ec_Event c) <= to_uint64 (Time_Unix (Time_Add (wt_Now want) (wt_MaxSkew want)))) /\
    unexpired (ec_Event c) (wt_Now want) /\ delegated (ec_Event c) /\ attested (ec_Event c) /\
    (ev_Kind (ec_Event c) = KindZapReceipt -> ValidateZapReceiptForRelay (ec_Event c) = None) /\
    (ev_Kind (ec_Event c) = KindZapRequest -> ev_Kind (ec_Event c) <> KindZapReceipt ->
       ValidateZapRequestForRelay (ec_Event c) = None) /\
    (cross = true -> (foundOn l <> [] \/ 1 < length (lk_Copies l))%nat ->
       forall c', c' ∈ lk_Copies l -> VerifyWithoutPow (ec_Event c') = true) /\
    (forall answers a del, deleted = Some answers -> a ∈ answers -> tr_Err a = None -> del ∈ tr_Events a ->
       deletes (ec_Event c) del = false).
Proof.
  unfold verify_status. destruct (best VerifyWithoutPow l) as [c|]; [|done]. unfold verdict.
  destruct (existsb failed _) eqn:Hf; [done|]. intros _. unfold verify_checks in Hf.
  apply existsb_failed_app in Hf as [Hf Hrest]. apply existsb_failed_app in Hrest as [Hcross Hdeleted].
  unfold checkEvent in Hf. destruct (Validate (ec_Event c)) eqn:Ev; [done|]. cbn [existsb] in Hf.
  apply orb_false_iff in Hf as [_ Hf]. destruct (HashID (ec_Event c)) as [hash|] eqn:Eh; [|done]. cbn [existsb app] in Hf.
  apply orb_false_iff in Hf as [Hid Hf]. apply orb_false_iff in Hf as [Hsig Hf].
  apply existsb_failed_app in Hf as [Href Hf]. apply existsb_failed_app in Hf as [Hauth Hf].
  apply existsb_failed_app in Hf as [Hkind Hf]. cbn [existsb app] in Hf. apply orb_false_iff in Hf as [Hpow Hf].
  apply existsb_failed_app in Hf as [Hskew Hf]. apply existsb_failed_app in Hf as [Hexp Hf].
  apply existsb_failed_app in Hf as [Hdel Hf]. apply existsb_failed_app in Hf as [Hoa Hzap].
  destruct (EqualFold (hex_EncodeToString hash) (ev_ID (ec_Event c))) eqn:Ei; [|done].
  exists c, hash. split_and!; try done.
  - by apply checkSig_ok.
  - intros Hi. rewrite Hi in Href. cbn [existsb] in Href. apply orb_false_iff in Href as [Href _]. by apply checkRef_ok.
  - by apply authorCheck_ok.
  - by apply kindCheck_ok.
  - by apply checkPow_ok.
  - intros Hs. unfold skewCheck in Hskew. rewrite (proj2 (Z.ltb_lt _ _) Hs) in Hskew.
    destruct (Z.ltb_spec (to_uint64 (Time_Unix (Time_Add (wt_Now want) (wt_MaxSkew want)))) (ev_CreatedAt (ec_Event c))); [done|lia].
  - by apply checkExpiration_ok.
  - by apply checkDelegation_ok.
  - by apply checkOwnerAuth_ok.
  - by apply checkZap_ok.
  - by apply checkZap_ok.
  - intros ->. apply checkCopies_ok. cbn [existsb] in Hcross. by apply orb_false_iff in Hcross as [? _].
  - intros answers a d ->. apply checkDeleted_ok. cbn [existsb] in Hdeleted. by apply orb_false_iff in Hdeleted as [? _].
Qed.
End Checks.

(** * Looking up and verifying: instances

    A library in which an event hashes to the bytes of its content, relays that
    hold one event, and the theorems of [EventResolveFacts] and [EventChecks] on
    them; and the copy of a relay that [verify --cross-relays] does not look at. *)

(** An event hashes to its content and is signed by repeating it. *)
#[export] Instance ex_lib : EventLib := {|
  Validate _ := None;
  HashID ev := Ok (ev_Content ev);
  signature := string;
  public_key := string;
  ParseSignature s := Ok s;
  ParsePubKey s := Ok s;
  sig_Verify sig hash _ := String.eqb sig hash;
  Difficulty _ := Ok 10;
  ValidatePow _ := None;
  GetExpiration _ := Ok 100;
  VerifyDelegationToken _ _ _ _ := None;
  ValidateConditions _ _ _ := None;
  OATagName := "auth";
  ParseAuthTag _ _ := Ok (mkAuthTag "" (fun _ => true) (fun _ => true));
  KindZapReceipt := 9735;
  KindZapRequest := 9734;
  ValidateZapReceiptForRelay _ := None;
  ValidateZapRequestForRelay _ := None;
  EncodeNpub _ := None;
  VerifyAll ev := String.eqb (hex_EncodeToString (ev_Content ev)) (ev_ID ev);
  VerifyWithoutPow ev := String.eqb (hex_EncodeToString (ev_Content ev)) (ev_ID ev);
  KindDeletion := 5;
  RFC3339 z := pretty z;
|}.

Definition ex_ev : Event := mkEvent "6869" "aa" 50 1 [["expiration"; "100"]]%string "hi" "6869".
(** The same id with another content. *)
Definition ex_bad : Event := mkEvent "6869" "aa" 50 1 [] "ho" "6869".

Definition ex_ref : ref := mkRef "6869" "6869" false "" (-1) "" ["wss://a.example/"]%string None "".

#[export] Instance ex_names : RelayNames := {|
  url_Parse raw := if Contains raw "://" then Some (mkURL raw "wss" "host") else None;
  filepath_Abs raw := Some ("/work/" ++ raw)%string;
  os_Stat _ := None;
|}.

(** The second relay has a copy that does not verify, the third the event. *)
#[export] Instance ex_reads : Reads nat := {|
  ReadEventsFromStore w _ _ := (([], Some "no such store"%string), w);
  session := string;
  dialRelay w u _ := (inl (u_text u), S w);
  session_read w at_ _ :=
    ((if String.eqb at_ "wss://b.example" then [ex_bad]
      else if String.eqb at_ "wss://c.example" then [ex_ev] else [], false, None), S w);
  Since w w' := Z.of_nat (w' - w);
|}.

Definition ex_resolver : resolver :=
  mkResolver ["WSS://A.example"; "wss://b.example"; "wss://c.example"; "wss://d.example"]%string false false false false.

Definition ex_lookups (refs : list ref) (everywhere : bool) : list lookup :=
  (resolve VerifyWithoutPow VerifyAll None (fun _ => None) ex_resolver refs everywhere 0%nat).1.

(** The hint is the first base relay, asked once; asking stops at the copy that
    verifies. *)
Lemma resolve_refines_witness :
  exists l, ex_lookups [ex_ref] false !! 0%nat = Some l /\
    NoDup (asked_keys l) /\
    ra_Relay <$> lk_Asked l = ["wss://a.example/"; "wss://b.example"; "wss://c.example"]%string /\
    Forall (fun c => matches ex_ref (ec_Event c) = true) (lk_Copies l).
Proof.
  destruct (resolve_refines VerifyWithoutPow VerifyAll None (fun _ => None) ex_resolver
              [ex_ref] false 0%nat 0%nat ex_ref eq_refl ltac:(left; cbn; lia) eq_refl)
    as (rs & Hl & Hn & _ & _ & Hc).
  exists (told rs (new_lookup ex_ref)). split; [exact Hl|]. split; [|split].
  - by rewrite told_asked.
  - assert (E : (fun l => ra_Relay <$> lk_Asked l) <$> (ex_lookups [ex_ref] false !! 0%nat) =
                Some ["wss://a.example/"; "wss://b.example"; "wss://c.example"]%string) by (vm_compute; reflexivity).
    unfold ex_lookups in E. rewrite Hl in E. by injection E.
  - apply Forall_forall. intros c. apply Hc.
Defined.

Definition ex_want : expect := mkExpect "" (-1) 5 0 (Unix_ 60).

Lemma verify_sound_witness :
  exists l, ex_lookups [ex_ref] false !! 0%nat = Some l /\ verify_status false None ex_want l = "valid"%string /\
    exists c hash, best VerifyWithoutPow l = Some c /\ HashID (ec_Event c) = Ok hash /\ signed (ec_Event c) hash /\
      unexpired (ec_Event c) (Unix_ 60).
Proof.
  destruct (ex_lookups [ex_ref] false !! 0%nat) as [l|] eqn:El; [|vm_compute in El; discriminate El].
  exists l. split; [reflexivity|].
  assert (Hv : verify_status false None ex_want l = "valid"%string).
  { assert (E : (fun l => verify_status false None ex_want l) <$> (ex_lookups [ex_ref] false !! 0%nat) = Some "valid"%string)
      by (vm_compute; reflexivity). rewrite El in E. by injection E. }
  split; [exact Hv|]. destruct (verify_sound false None ex_want l Hv) as
    (c & hash & Hb & _ & Hh & _ & Hs & _ & _ & _ & _ & _ & Hu & _).
  exists c, hash. split_and!; assumption.
Defined.

(** An event given in full is not compared with the copies relays serve: one
    that does not verify goes unreported. *)
Example cross_inline_unchecked :
  (fun l => (verify_status true None ex_want l, ck_Detail (checkCopies l))) <$>
    (ex_lookups [inlineRef "stdin" ex_ev] true !! 0%nat) = Some ("valid", "held by 2 of 4 relay(s)")%string /\
  VerifyWithoutPow ex_bad = false.
Proof. vm_compute. done. Qed.

(** The same event by reference: the bad copy is reported. *)
Example cross_pointer_checked :
  (verify_status true None ex_want <$> ex_lookups [ex_ref] true !! 0%nat) = Some "invalid"%string.
Proof. vm_compute. done. Qed.

(** Two references are asked about together when their relays' keys join to one
    text. A '|' in the query of a hint makes one relay's key the join of two: the
    second reference, which names two relays, is asked about only at the first's. *)
Example joined_keys_collide :
  let only := mkResolver [] true false true false in
  let one := mkRef "a" "a" false "" (-1) "" ["wss://x/?q=a|wss://c.example"]%string None "" in
  let two := mkRef "6869" "6869" false "" (-1) "" ["wss://x/?q=a"; "wss://c.example"]%string None "" in
  let asked refs := (fun l => ra_Relay <$> lk_Asked l) <$>
    (resolve VerifyWithoutPow VerifyAll None (fun _ => None) only refs false 0%nat).1 in
  asked [two] = [["wss://x/?q=a"; "wss://c.example"]]%string /\
  asked [one; two] = [["wss://x/?q=a|wss://c.example"]; ["wss://x/?q=a|wss://c.example"]]%string.
Proof. vm_compute. done. Qed.
