(* ===== verification/ClientVault.v ===== *)
(** * The vault of identities and the preferences

    Models [src/client/vault/vault.go] (the vault's own key, its entries and
    their file) and [src/client/prefs/prefs.go] (the preferences that hold the
    vault's key, the relay and Blossom lists and the relay contexts).  Keys,
    their encodings and the encryption (nmilat, secp256k1) are the interface
    [VaultLib]; the YAML of the two files is [VaultYaml]; reading and writing a
    file go as their arguments say. *)
From S2P Require Import Prelude GoTime GoStrings GoNet GoEncoding.
From stdpp Require Import options.
From Stdlib Require Import Ascii.

Local Open Scope Z_scope.

(** ** Data *)

Record Entry := mkEntry { en_Label : string; en_Npub : string; en_EncryptedNsec : string; en_CreatedAt : string }.

#[export] Instance Entry_eq_dec : EqDecision Entry.
Proof. solve_decision. Defined.

Record VaultIdentityRef := mkVaultRef { vr_Npub : string; vr_EncryptedNsec : string }.

Record Prefs := mkPrefs {
  pr_Relays : list string;
  pr_VaultIdentity : option VaultIdentityRef;
  pr_BlossomServers : list string;
  pr_RelayContexts : gmap string string;
  pr_CurrentRelayContext : string;
}.

Definition no_prefs : Prefs := mkPrefs [] None [] ∅ "".

Inductive verr :=
| ErrLabelExists | ErrKeyExists | ErrVaultKeyMissing | ErrVaultExists | ErrNoVault | ErrCorrupted | ErrNotSaved
| ErrHex | ErrParse (e : string) | ErrIO (e : string) | ErrLib (e : string).

(** ** Libraries *)

(** Encryption is randomised: the random bytes are an argument.  [fold] is
    Unicode simple case folding: [strings.EqualFold] compares folded strings. *)
Class VaultLib := {
  GetPublicKey : string -> result verr string;
  EncodePublicKey : string -> result verr string;
  DecodePublicKey : string -> result verr string;
  NormalizeToHex : string -> string;
  ParsePubKey : string -> result verr string;
  GenerateConversationKey : string -> string -> result verr string;
  nip44_Encrypt : string -> string -> string -> result verr string;
  nip44_Decrypt : string -> string -> result verr string;
  nip49_Encrypt : string -> string -> string -> result verr string;
  nip49_Decrypt : string -> string -> result verr string;
  fold : string -> string;
}.

Class VaultYaml := {
  vf_Marshal : list Entry -> string;
  vf_Unmarshal : string -> result string (list Entry);
  pf_Marshal : Prefs -> string;
  pf_Unmarshal : string -> result string Prefs;
}.

(** ** Files *)

(** A file that is missing, one that cannot be read, one with contents. *)
Inductive file := Missing | Unreadable (e : string) | Contents (data : string).

(** How [os.MkdirAll] and [os.WriteFile] go: a write that fails has truncated
    the file and written a part. *)
Inductive write := WriteOk | WriteRefused (e : string) | WriteTorn (e part : string).

Definition write_file (o : write) (data : string) (f : file) : option verr * file :=
  match o with
  | WriteOk => (None, Contents data)
  | WriteRefused e => (Some (ErrIO e), f)
  | WriteTorn e part => (Some (ErrIO e), Contents part)
  end.

(** prefs.yaml and vault.yaml. *)
Record home := mkHome { h_prefs : file; h_vault : file }.

Section Vault.
Context `{VaultLib} `{VaultYaml}.

Definition EqualFold (s t : string) : bool := String.eqb (fold s) (fold t).

(** ** Preferences *)

Definition Prefs_Load (h : home) : result verr Prefs :=
  match h_prefs h with
  | Missing => Ok no_prefs
  | Unreadable e => Err (ErrIO e)
  | Contents data => wrap_err ErrParse (pf_Unmarshal data)
  end.

Definition Prefs_Save (o : write) (p : Prefs) (h : home) : option verr * home :=
  let '(err, f) := write_file o (pf_Marshal p) (h_prefs h) in (err, mkHome f (h_vault h)).

Definition set_relays (rs : list string) (p : Prefs) : Prefs :=
  mkPrefs rs (pr_VaultIdentity p) (pr_BlossomServers p) (pr_RelayContexts p) (pr_CurrentRelayContext p).
Definition set_identity (v : VaultIdentityRef) (p : Prefs) : Prefs :=
  mkPrefs (pr_Relays p) (Some v) (pr_BlossomServers p) (pr_RelayContexts p) (pr_CurrentRelayContext p).
Definition set_servers (rs : list string) (p : Prefs) : Prefs :=
  mkPrefs (pr_Relays p) (pr_VaultIdentity p) rs (pr_RelayContexts p) (pr_CurrentRelayContext p).
Definition set_contexts (cs : gmap string string) (cur : string) (p : Prefs) : Prefs :=
  mkPrefs (pr_Relays p) (pr_VaultIdentity p) (pr_BlossomServers p) cs cur.

(** [slices.Index] and [slices.Delete] of one element: the first is removed. *)
Fixpoint remove_first (x : string) (l : list string) : list string :=
  match l with
  | [] => []
  | y :: l => if String.eqb x y then l else y :: remove_first x l
  end.

(** [valid] is [ResolveRelayURL] of the relay, and the checks on the scheme for
    a server. *)
Definition AddRelay (valid : option verr) (relay : string) (p : Prefs) : result verr (bool * Prefs) :=
  match valid with
  | Some e => Err e
  | None => if bool_decide (relay ∈ pr_Relays p) then Ok (false, p)
            else Ok (true, set_relays (pr_Relays p ++ [relay]) p)
  end.

Definition RemoveRelay (relay : string) (p : Prefs) : bool * Prefs :=
  if bool_decide (relay ∈ pr_Relays p) then (true, set_relays (remove_first relay (pr_Relays p)) p) else (false, p).

Definition AddBlossomServer (valid : option verr) (server : string) (p : Prefs) : result verr (bool * Prefs) :=
  match valid with
  | Some e => Err e
  | None => if bool_decide (server ∈ pr_BlossomServers p) then Ok (false, p)
            else Ok (true, set_servers (pr_BlossomServers p ++ [server]) p)
  end.

Definition RemoveBlossomServer (server : string) (p : Prefs) : bool * Prefs :=
  if bool_decide (server ∈ pr_BlossomServers p)
  then (true, set_servers (remove_first server (pr_BlossomServers p)) p) else (false, p).

(** [abs] is the path made absolute, an error when it is no regular file. *)
Definition AddRelayContext (name : string) (abs : result verr string) (p : Prefs) : result verr (string * Prefs) :=
  if is_empty name then Err (ErrLib "context name must not be empty")
  else
    a ← abs;
    Ok (a, set_contexts (<[name := a]> (pr_RelayContexts p)) (pr_CurrentRelayContext p) p).

Definition RemoveRelayContext (name : string) (p : Prefs) : bool * Prefs :=
  match pr_RelayContexts p !! name with
  | None => (false, p)
  | Some _ =>
      (true, set_contexts (delete name (pr_RelayContexts p))
               (if String.eqb (pr_CurrentRelayContext p) name then ""%string else pr_CurrentRelayContext p) p)
  end.

Definition UseRelayContext (name : string) (p : Prefs) : result verr Prefs :=
  match pr_RelayContexts p !! name with
  | None => Err (ErrLib "no such relay context")
  | Some _ => Ok (set_contexts (pr_RelayContexts p) name p)
  end.

Definition CurrentRelayContextPath (p : Prefs) : option string :=
  if is_empty (pr_CurrentRelayContext p) then None else pr_RelayContexts p !! pr_CurrentRelayContext p.

(** ** Entries *)

Definition LoadEntries (h : home) : result verr (list Entry) :=
  match h_vault h with
  | Missing => Ok []
  | Unreadable e => Err (ErrIO e)
  | Contents data => wrap_err ErrParse (vf_Unmarshal data)
  end.

Definition SaveEntries (o : write) (entries : list Entry) (h : home) : option verr * home :=
  let '(err, f) := write_file o (vf_Marshal entries) (h_vault h) in (err, mkHome (h_prefs h) f).

Definition hex_bytes (s : string) : result verr string :=
  match hex_DecodeString s with Some b => Ok b | None => Err ErrHex end.

(** [btcec.PrivKeyFromBytes] takes the bytes as they are. *)
Definition deriveEntryConversationKey (vaultPriv entryNpub : string) : result verr string :=
  priv ← hex_bytes vaultPriv;
  entryPubHex ← DecodePublicKey entryNpub;
  pubBytes ← hex_bytes entryPubHex;
  pubKey ← ParsePubKey pubBytes;
  GenerateConversationKey priv pubKey.

(** The loop that refuses a key or a label that is there. *)
Fixpoint check_new (npub label : string) (entries : list Entry) : result verr unit :=
  match entries with
  | [] => Ok ()
  | e :: entries =>
      if String.eqb (en_Npub e) npub then Err ErrKeyExists
      else if EqualFold (en_Label e) label then Err ErrLabelExists
      else check_new npub label entries
  end.

(** The label an entry gets. *)
Definition label_or (label npub : string) : string :=
  let label := TrimSpace label in if is_empty label then npub else label.

(** [AddEntry] up to the save: the entry and the entries to be saved. *)
Definition new_entry (h : home) (nonce now vaultPriv label priv : string) : result verr (Entry * list Entry) :=
  entryPubHex ← GetPublicKey priv;
  npub ← EncodePublicKey entryPubHex;
  let label := label_or label npub in
  entries ← LoadEntries h;
  check_new npub label entries;;
  convKey ← deriveEntryConversationKey vaultPriv npub;
  encryptedNsec ← nip44_Encrypt nonce priv convKey;
  let entry := mkEntry label npub encryptedNsec now in
  Ok (entry, entries ++ [entry]).

Definition AddEntry (o : write) (nonce now vaultPriv label priv : string) (h : home) : result verr Entry * home :=
  match new_entry h nonce now vaultPriv label priv with
  | Err e => (Err e, h)
  | Ok (entry, entries) =>
      let '(err, h) := SaveEntries o entries h in
      (match err with Some e => Err e | None => Ok entry end, h)
  end.

(** The loop of [RelabelEntry]: the last entry with the key. *)
Fixpoint relabel_index (npub label : string) (i : nat) (idx : option nat) (entries : list Entry) : result verr (option nat) :=
  match entries with
  | [] => Ok idx
  | e :: entries =>
      if String.eqb (en_Npub e) npub then relabel_index npub label (S i) (Some i) entries
      else if EqualFold (en_Label e) label then Err ErrLabelExists
      else relabel_index npub label (S i) idx entries
  end.

Definition with_label (label : string) (e : Entry) : Entry :=
  mkEntry label (en_Npub e) (en_EncryptedNsec e) (en_CreatedAt e).

Definition relabelled (h : home) (npub label : string) : result verr (nat * list Entry) :=
  let label := label_or label npub in
  entries ← LoadEntries h;
  idx ← relabel_index npub label 0 None entries;
  match idx with
  | None => Err ErrNotSaved
  | Some i => Ok (i, alter (with_label label) i entries)
  end.

Definition RelabelEntry (o : write) (npub label : string) (h : home) : result verr (option Entry) * home :=
  match relabelled h npub label with
  | Err e => (Err e, h)
  | Ok (i, entries) =>
      let '(err, h) := SaveEntries o entries h in
      (match err with Some e => Err e | None => Ok (entries !! i) end, h)
  end.

(** The loop of [RemoveEntry]: the first entry with the key and the others. *)
Fixpoint without_entry (npub : string) (entries : list Entry) : option (Entry * list Entry) :=
  match entries with
  | [] => None
  | e :: entries =>
      if String.eqb (en_Npub e) npub then Some (e, entries)
      else '(x, rest) ← without_entry npub entries; Some (x, e :: rest)
  end.

Definition RemoveEntry (o : write) (npub : string) (h : home) : result verr Entry * home :=
  match LoadEntries h with
  | Err e => (Err e, h)
  | Ok entries =>
      match without_entry npub entries with
      | None => (Err ErrNotSaved, h)
      | Some (e, rest) =>
          let '(err, h) := SaveEntries o rest h in
          (match err with Some e => Err e | None => Ok e end, h)
      end
  end.

Definition DecryptEntry (vaultPriv : string) (e : Entry) : result verr string :=
  convKey ← deriveEntryConversationKey vaultPriv (en_Npub e);
  nip44_Decrypt (en_EncryptedNsec e) convKey.

(** An entry whose key does not decode is skipped. *)
Definition has_hex (targetHex : string) (e : Entry) : bool :=
  match DecodePublicKey (en_Npub e) with Ok h => EqualFold h targetHex | Err _ => false end.

Definition FindEntry (labelOrNpub : string) (h : home) : result verr (option Entry) :=
  let trimmed := TrimSpace labelOrNpub in
  if is_empty trimmed then Ok None
  else
    entries ← LoadEntries h;
    match List.find (fun e => EqualFold (en_Label e) trimmed) entries with
    | Some e => Ok (Some e)
    | None => Ok (List.find (has_hex (ToLower (NormalizeToHex trimmed))) entries)
    end.

(** ** The vault's key *)

Definition Vault_Exists (h : home) : result verr bool :=
  p ← Prefs_Load h; Ok (bool_decide (is_Some (pr_VaultIdentity p))).

(** Saved entries that can be read: their key must not be lost. *)
Definition entries_remain (h : home) : bool :=
  match LoadEntries h with Ok entries => Nat.ltb 0 (length entries) | Err _ => false end.

(** [id]: what [GenerateIdentity] answers, the npub and the private key. *)
Definition CreateIdentity (o : write) (nonce : string) (id : result verr (string * string)) (password : string) (h : home)
    : result verr (string * string) * home :=
  match (p ← Prefs_Load h;
         refuse_if (bool_decide (is_Some (pr_VaultIdentity p))) ErrVaultExists;;
         refuse_if (entries_remain h) ErrVaultKeyMissing;;
         '(npub, priv) ← id;
         enc ← nip49_Encrypt nonce priv password;
         Ok (npub, priv, set_identity (mkVaultRef npub enc) p)) with
  | Err e => (Err e, h)
  | Ok (npub, priv, p) =>
      let '(err, h) := Prefs_Save o p h in
      (match err with Some e => Err e | None => Ok (npub, priv) end, h)
  end.

Definition Unlock (password : string) (h : home) : result verr string :=
  p ← Prefs_Load h;
  match pr_VaultIdentity p with
  | None => if entries_remain h then Err ErrVaultKeyMissing else Err ErrNoVault
  | Some v =>
      privHex ← nip49_Decrypt (vr_EncryptedNsec v) password;
      pubHex ← GetPublicKey privHex;
      npub ← EncodePublicKey pubHex;
      if String.eqb npub (vr_Npub v) then Ok privHex else Err ErrCorrupted
  end.
End Vault.

(** * The vault keeps the keys saved in it

    [vault_keeps]: after any operations whose writes are not cut short the vault
    holds exactly the keys added and not removed, under distinct labels, and each
    decrypts to the private key that was saved.  [create_unlock]: the vault's own
    key comes back with its password; [create_refuses]: it is not replaced while
    entries remain. *)

(** What the libraries document: what was encrypted decrypts with the same key,
    what was written is read. *)
Class VaultLibLaws (L : VaultLib) : Prop := {
  nip44_roundtrip nonce p k c : nip44_Encrypt nonce p k = Ok c -> nip44_Decrypt c k = Ok p;
  nip49_roundtrip nonce p pw c : nip49_Encrypt nonce p pw = Ok c -> nip49_Decrypt c pw = Ok p;
}.

Class VaultYamlLaws (Y : VaultYaml) : Prop := {
  vf_roundtrip es : vf_Unmarshal (vf_Marshal es) = Ok es;
  pf_roundtrip p : pf_Unmarshal (pf_Marshal p) = Ok p;
}.

Lemma filter_all {A} (P : A -> Prop) `{forall x, Decision (P x)} (l : list A) :
  (forall x, x ∈ l -> P x) -> filter P l = l.
Proof.
  induction l as [|x l IH]; intros Hl; [done|]. rewrite filter_cons, decide_True by (apply Hl; by left).
  f_equal. apply IH. intros y Hy. apply Hl. by right.
Qed.

Section Facts.
Context `{L : VaultLib} `{Y : VaultYaml} {LL : VaultLibLaws L} {YL : VaultYamlLaws Y}.
Variable v : string.

(** ** Operations and what they mean *)

(** A key saved: its public form, its label and the private key. *)
Record saved := mkSaved { sv_npub : string; sv_label : string; sv_priv : string }.

Inductive vop :=
| VAdd (o : write) (nonce now label priv : string)
| VRelabel (o : write) (npub label : string)
| VRemove (o : write) (npub : string)
| VCreate (o : write) (nonce : string) (id : result verr (string * string)) (password : string).

Definition vop_write (op : vop) : write :=
  match op with VAdd o _ _ _ _ => o | VRelabel o _ _ => o | VRemove o _ => o | VCreate o _ _ _ => o end.

(** A write that is not cut short. *)
Definition untorn (op : vop) : Prop := match vop_write op with WriteTorn _ _ => False | _ => True end.

Definition relabel_saved (npub label : string) (k : saved) : saved :=
  if String.eqb (sv_npub k) npub then mkSaved npub label (sv_priv k) else k.

(** The home directory and the keys the successful operations leave. *)
Definition vstep (s : home * list saved) (op : vop) : home * list saved :=
  let '(h, ks) := s in
  match op with
  | VAdd o nonce now label priv =>
      match AddEntry o nonce now v label priv h with
      | (Ok e, h) => (h, ks ++ [mkSaved (en_Npub e) (en_Label e) priv])
      | (Err _, h) => (h, ks)
      end
  | VRelabel o npub label =>
      match RelabelEntry o npub label h with
      | (Ok _, h) => (h, relabel_saved npub (label_or label npub) <$> ks)
      | (Err _, h) => (h, ks)
      end
  | VRemove o npub =>
      match RemoveEntry o npub h with
      | (Ok _, h) => (h, filter (fun k => sv_npub k <> npub) ks)
      | (Err _, h) => (h, ks)
      end
  | VCreate o nonce id password => ((CreateIdentity o nonce id password h).2, ks)
  end.

Definition vrun (h : home) (ops : list vop) : home * list saved := foldl vstep (h, []) ops.

(** An entry that holds a saved key. *)
Definition holds (e : Entry) (k : saved) : Prop :=
  en_Npub e = sv_npub k /\ en_Label e = sv_label k /\ DecryptEntry v e = Ok (sv_priv k).

Record vault_ok (h : home) (ks : list saved) (es : list Entry) : Prop := {
  vo_load : LoadEntries h = Ok es;
  vo_holds : Forall2 holds es ks;
  vo_keys : NoDup (en_Npub <$> es);
  vo_labels : NoDup ((fun e => fold (en_Label e)) <$> es);
}.

(** ** The loops *)

Lemma EqualFold_false s t : ClientVault.EqualFold s t = false <-> fold s <> fold t.
Proof. unfold ClientVault.EqualFold. apply String.eqb_neq. Qed.

Lemma check_new_ok npub label es u :
  check_new npub label es = Ok u -> forall e, e ∈ es -> en_Npub e <> npub /\ fold (en_Label e) <> fold label.
Proof.
  induction es as [|e es IH]; intros Hc e' He'; [by apply elem_of_nil in He'|]. cbn in Hc.
  destruct (String.eqb_spec (en_Npub e) npub); [done|].
  destruct (ClientVault.EqualFold (en_Label e) label) eqn:E; [done|]. apply EqualFold_false in E.
  apply elem_of_cons in He' as [->|He']; [done|]. by apply IH.
Qed.

Lemma relabel_index_ok npub label i0 idx es r :
  relabel_index npub label i0 idx es = Ok r ->
  (forall e, e ∈ es -> en_Npub e <> npub -> fold (en_Label e) <> fold label) /\
  (r = idx \/ exists j e, r = Some (i0 + j)%nat /\ es !! j = Some e /\ en_Npub e = npub).
Proof.
  revert i0 idx. induction es as [|e es IH]; intros i0 idx Hr; cbn in Hr.
  { injection Hr as <-. split; [|by left]. intros e He. by apply elem_of_nil in He. }
  destruct (String.eqb_spec (en_Npub e) npub) as [He|He].
  - apply IH in Hr as [Hl Hr]. split.
    { intros e' [->|He']%elem_of_cons; [done|]. by apply Hl. }
    right. destruct Hr as [->|(j & e' & -> & Hj & He')].
    + exists 0%nat, e. split_and!; [f_equal; lia|done|done].
    + exists (S j), e'. split_and!; [f_equal; lia|done|done].
  - destruct (ClientVault.EqualFold (en_Label e) label) eqn:E; [done|]. apply EqualFold_false in E.
    apply IH in Hr as [Hl Hr]. split.
    { intros e' [->|He']%elem_of_cons; [done|]. by apply Hl. }
    destruct Hr as [->|(j & e' & -> & Hj & He')]; [by left|]. right. exists (S j), e'. split_and!; [f_equal; lia|done|done].
Qed.

Lemma alter_key npub f i es e :
  NoDup (en_Npub <$> es) -> es !! i = Some e -> en_Npub e = npub ->
  alter f i es = (fun e => if String.eqb (en_Npub e) npub then f e else e) <$> es.
Proof.
  intros Hn Hi <-. apply list_eq. intros j. rewrite list_lookup_fmap.
  destruct (decide (i = j)) as [->|Hij].
  - rewrite list_lookup_alter_eq, Hi. cbn. by rewrite String.eqb_refl.
  - rewrite list_lookup_alter_ne by done. destruct (es !! j) as [e'|] eqn:Hj; [|done]. cbn.
    destruct (String.eqb_spec (en_Npub e') (en_Npub e)) as [He|He]; [|done].
    exfalso. apply Hij. eapply (NoDup_lookup _ _ _ _ Hn); rewrite list_lookup_fmap; [by rewrite Hi|by rewrite Hj, <- He].
Qed.

Lemma without_entry_ok npub es e rest :
  NoDup (en_Npub <$> es) -> without_entry npub es = Some (e, rest) -> rest = filter (fun e => en_Npub e <> npub) es.
Proof.
  revert e rest. induction es as [|x es IH]; intros e rest Hn Hw; [done|]. cbn in Hw, Hn.
  apply NoDup_cons in Hn as [Hx Hn]. rewrite filter_cons. destruct (String.eqb_spec (en_Npub x) npub) as [He|He].
  - injection Hw as <- <-. rewrite decide_False by tauto. symmetry. apply filter_all. intros y Hy Hy'. apply Hx.
    apply list_elem_of_fmap. exists y. split; [congruence|done].
  - rewrite decide_True by done. destruct (without_entry npub es) as [[e' rest']|] eqn:E; [|done].
    injection Hw as <- <-. f_equal. by eapply IH.
Qed.

Lemma Forall2_filter {A B} (R : A -> B -> Prop) (P : A -> Prop) (Q : B -> Prop)
    `{forall x, Decision (P x)} `{forall x, Decision (Q x)} l k :
  (forall x y, R x y -> P x <-> Q y) -> Forall2 R l k -> Forall2 R (filter P l) (filter Q k).
Proof.
  intros Hpq. induction 1 as [|x y l k Hxy Hlk IH]; [constructor|]. rewrite !filter_cons. specialize (Hpq x y Hxy).
  destruct (decide (P x)), (decide (Q y)); try tauto. by constructor.
Qed.

Lemma NoDup_filter_fmap {A B} (f : A -> B) (P : A -> Prop) `{forall x, Decision (P x)} l :
  NoDup (f <$> l) -> NoDup (f <$> filter P l).
Proof.
  induction l as [|x l IH]; [done|]. rewrite filter_cons, fmap_cons. intros [Hx Hn]%NoDup_cons.
  destruct (decide (P x)); [|by apply IH]. cbn. apply NoDup_cons. split; [|by apply IH].
  intros Hin. apply Hx. apply list_elem_of_fmap in Hin as (y & -> & [_ Hy]%list_elem_of_filter).
  by apply list_elem_of_fmap_2.
Qed.

(** One key gets a label that no other key has. *)
Lemma relabel_NoDup npub x es :
  NoDup (en_Npub <$> es) -> NoDup ((fun e => fold (en_Label e)) <$> es) ->
  (forall e, e ∈ es -> en_Npub e <> npub -> fold (en_Label e) <> x) ->
  NoDup ((fun e => if String.eqb (en_Npub e) npub then x else fold (en_Label e)) <$> es).
Proof.
  induction es as [|e es IH]; intros Hk Hl Hx; [constructor|]. cbn in *.
  apply NoDup_cons in Hk as [Hk1 Hk]. apply NoDup_cons in Hl as [Hl1 Hl].
  constructor; [|apply IH; [done|done|intros e' He'; apply Hx; by right]].
  intros (e' & Heq & He')%list_elem_of_fmap.
  assert (Hne : en_Npub e' <> en_Npub e) by (intros Hq; apply Hk1; rewrite <- Hq; by apply list_elem_of_fmap_2).
  destruct (String.eqb_spec (en_Npub e) npub) as [E1|E1]; destruct (String.eqb_spec (en_Npub e') npub) as [E2|E2].
  - congruence.
  - by apply (Hx e'); [right|done|].
  - by apply (Hx e); [left|done|].
  - apply Hl1. rewrite Heq. by apply (list_elem_of_fmap_2 (fun e => fold (en_Label e))).
Qed.

(** ** The operations *)

Lemma SaveEntries_load o es h err h' :
  (match o with WriteTorn _ _ => False | _ => True end) -> SaveEntries o es h = (err, h') ->
  match err with None => LoadEntries h' = Ok es | Some _ => LoadEntries h' = LoadEntries h end.
Proof using YL.
  intros Ho. unfold SaveEntries, write_file. destruct o; [| |done]; intros [= <- <-]; [|done].
  unfold LoadEntries. cbn. by rewrite vf_roundtrip.
Qed.

(** A step keeps the vault right. *)
Lemma vstep_ok h ks es op :
  untorn op -> vault_ok h ks es -> exists es', vault_ok (vstep (h, ks) op).1 (vstep (h, ks) op).2 es'.
Proof using LL YL.
  intros Hu [Hl Hh Hk Hlab]. unfold untorn in Hu. destruct op as [o nonce now label priv|o npub label|o npub|o nonce id pw]; cbn [vop_write] in Hu; cbn [vstep].
  - unfold AddEntry. destruct (new_entry h nonce now v label priv) as [[e es']|er] eqn:En; [|by exists es].
    destruct (SaveEntries o es' h) as [err h'] eqn:Es. apply SaveEntries_load in Es; [|done].
    destruct err as [er|]; cbn [fst snd]; [by exists es; split; [rewrite Es|..]|].
    unfold new_entry in En. unbind En. rewrite Hl in B1. injection B1 as <-. injection En as <- <-.
    pose proof (check_new_ok _ _ _ _ B2) as Hnew. exists (es ++ [mkEntry (label_or label r0) r0 r3 now]).
    split; [done| | |].
    + apply Forall2_app; [done|]. constructor; [|constructor]. split_and!; [done|done|].
      unfold DecryptEntry. cbn [en_Npub en_EncryptedNsec]. rewrite B3. cbn. by eapply nip44_roundtrip.
    + rewrite fmap_app. apply NoDup_app. split_and!; [done| |apply NoDup_singleton].
      intros x (e & -> & He)%list_elem_of_fmap Hx%list_elem_of_singleton. by destruct (Hnew e He).
    + rewrite fmap_app. apply NoDup_app. split_and!; [done| |apply NoDup_singleton].
      intros x (e & -> & He)%list_elem_of_fmap Hx%list_elem_of_singleton. by destruct (Hnew e He).
  - unfold RelabelEntry. destruct (relabelled h npub label) as [[i es']|er] eqn:En; [|by exists es].
    destruct (SaveEntries o es' h) as [err h'] eqn:Es. apply SaveEntries_load in Es; [|done].
    destruct err as [er|]; cbn [fst snd]; [by exists es; split; [rewrite Es|..]|].
    unfold relabelled in En. rewrite Hl in En. cbn [mbind result_bind] in En. unbind En.
    destruct r as [j|]; [|done]. injection En as -> <-. apply relabel_index_ok in B as [Hdiff [Hj|(j & e & [= ->] & Hj & He)]]; [done|].
    cbn [Nat.add] in Es. rewrite (alter_key npub _ j es e Hk Hj He) in Es.
    eexists. split; [exact Es| | |].
    + apply Forall2_fmap. eapply Forall2_impl; [exact Hh|]. intros x k (H1 & H2 & H3). unfold relabel_saved. rewrite <- H1.
      destruct (String.eqb_spec (en_Npub x) npub) as [Hx|Hx]; [|done]. split_and!; [done|done|]. exact H3.
    + rewrite <- list_fmap_compose. erewrite list_fmap_ext; [exact Hk|]. intros ? x _. cbn.
      by destruct (String.eqb (en_Npub x) npub).
    + rewrite <- list_fmap_compose. erewrite list_fmap_ext; [apply (relabel_NoDup npub (fold (label_or label npub)) es Hk Hlab Hdiff)|].
      intros ? x _. cbn. by destruct (String.eqb (en_Npub x) npub).
  - unfold RemoveEntry. rewrite Hl. destruct (without_entry npub es) as [[e rest]|] eqn:Ew; [|by exists es].
    destruct (SaveEntries o rest h) as [err h'] eqn:Es. apply SaveEntries_load in Es; [|done].
    destruct err as [er|]; cbn [fst snd]; [by exists es; split; [rewrite Es|..]|].
    apply without_entry_ok in Ew as ->; [|done]. eexists. split; [exact Es| | |].
    + eapply Forall2_filter; [|exact Hh]. intros x k (H1 & _). by rewrite H1.
    + by apply NoDup_filter_fmap.
    + by apply NoDup_filter_fmap.
  - exists es. split; [|done..]. rewrite <- Hl. unfold CreateIdentity.
    destruct (_ ≫= _) as [[[npub priv] p]|]; [|done]. unfold Prefs_Save. by destruct (write_file _ _ _).
Qed.

Lemma vrun_ok h ops es0 :
  LoadEntries h = Ok es0 -> es0 = [] -> Forall untorn ops -> exists es, vault_ok (vrun h ops).1 (vrun h ops).2 es.
Proof using LL YL.
  intros Hl -> Hu. induction ops as [|op ops IH] using rev_ind.
  - exists []. split; [done|constructor..].
  - apply Forall_app in Hu as [Hu Hop]. apply Forall_cons in Hop as [Hop _]. destruct (IH Hu) as (es & Hv).
    unfold vrun in *. rewrite foldl_app. cbn [foldl]. destruct (foldl vstep (h, []) ops) as [h' ks]. by eapply vstep_ok.
Qed.

(** A vault that has a key keeps it. *)
Lemma vstep_identity s op p :
  Prefs_Load s.1 = Ok p -> is_Some (pr_VaultIdentity p) -> h_prefs (vstep s op).1 = h_prefs s.1.
Proof.
  destruct s as [h ks]. cbn [fst]. intros Hp Hv. destruct op as [o nonce now label priv|o npub label|o npub|o nonce id pw]; cbn [vstep].
  - unfold AddEntry. destruct (new_entry h nonce now v label priv) as [[e es]|]; [|done].
    unfold SaveEntries. destruct (write_file _ _ _) as [[er|] f]; done.
  - unfold RelabelEntry. destruct (relabelled h npub label) as [[i es]|]; [|done].
    unfold SaveEntries. destruct (write_file _ _ _) as [[er|] f]; done.
  - unfold RemoveEntry. destruct (LoadEntries h) as [es|]; [|done]. destruct (without_entry npub es) as [[e rest]|]; [|done].
    unfold SaveEntries. destruct (write_file _ _ _) as [[er|] f]; done.
  - unfold CreateIdentity. rewrite Hp. cbn [mbind result_bind]. by rewrite bool_decide_eq_true_2.
Qed.

Lemma Unlock_identity pw h p : Unlock pw h = Ok p -> exists q, Prefs_Load h = Ok q /\ is_Some (pr_VaultIdentity q).
Proof.
  unfold Unlock. destruct (Prefs_Load h) as [q|]; [|done]. cbn [mbind result_bind]. intros Hu. exists q. split; [done|].
  destruct (pr_VaultIdentity q); [eauto|]. by destruct (entries_remain h).
Qed.

Lemma Unlock_prefs pw h h' p : h_prefs h' = h_prefs h -> Unlock pw h = Ok p -> Unlock pw h' = Ok p.
Proof.
  intros Hp. unfold Unlock, Prefs_Load. rewrite Hp. destruct (match h_prefs h with Missing => _ | _ => _ end) as [q|]; [|done].
  cbn [mbind result_bind]. destruct (pr_VaultIdentity q); [done|]. by destruct (entries_remain h).
Qed.

Lemma vrun_unlock pw h ops p : Unlock pw h = Ok p -> Unlock pw (vrun h ops).1 = Ok p.
Proof.
  intros Hu. induction ops as [|op ops IH] using rev_ind; [done|]. unfold vrun in *. rewrite foldl_app. cbn [foldl].
  eapply Unlock_prefs; [|exact IH]. destruct (Unlock_identity _ _ _ IH) as (q & Hq & Hi). by eapply vstep_identity.
Qed.

Lemma find_label q e es :
  NoDup ((fun e => fold (en_Label e)) <$> es) -> e ∈ es -> fold q = fold (en_Label e) ->
  List.find (fun e => ClientVault.EqualFold (en_Label e) q) es = Some e.
Proof.
  intros Hn He Hq. induction es as [|x es IH]; [by apply elem_of_nil in He|]. cbn in Hn |- *.
  apply NoDup_cons in Hn as [Hx Hn]. apply elem_of_cons in He as [->|He].
  - unfold ClientVault.EqualFold. by rewrite Hq, String.eqb_refl.
  - assert (ClientVault.EqualFold (en_Label x) q = false) as ->; [|by apply IH].
    apply EqualFold_false. intros Hf. apply Hx. rewrite Hf, Hq. by apply (list_elem_of_fmap_2 (fun e => fold (en_Label e))).
Qed.

(** C33: from an empty vault, after any additions, changes of labels, removals and
    attempts to create a vault key, by one process at a time and with no write cut
    short ([concurrent_adds_lose], [torn_write_loses]): the vault holds exactly the
    keys that were added and not removed, in order, under the labels last given;
    each entry decrypts with the vault key to the private key that was saved; keys
    and (case-folded) labels are distinct, so a label finds its entry; and a
    password that unlocked the vault still does. *)
Theorem vault_keeps (h : home) (ops : list vop) :
  LoadEntries h = Ok [] -> Forall untorn ops ->
  exists es : list Entry,
    LoadEntries (vrun h ops).1 = Ok es /\
    Forall2 holds es (vrun h ops).2 /\
    NoDup (en_Npub <$> es) /\ NoDup ((fun e => fold (en_Label e)) <$> es) /\
    (forall e q, e ∈ es -> TrimSpace q <> ""%string -> fold (TrimSpace q) = fold (en_Label e) ->
       FindEntry q (vrun h ops).1 = Ok (Some e)) /\
    (forall pw p, Unlock pw h = Ok p -> Unlock pw (vrun h ops).1 = Ok p).
Proof using LL YL.
  intros Hl Hu. destruct (vrun_ok h ops [] Hl eq_refl Hu) as (es & [H1 H2 H3 H4]). exists es. split_and!; try done.
  - intros e q He Hq Hf. unfold FindEntry. destruct (TrimSpace q) as [|c t] eqn:Et; [done|].
    cbn [is_empty]. rewrite H1. cbn [mbind result_bind]. by rewrite (find_label _ e).
  - intros pw p. apply vrun_unlock.
Qed.

(** The key a new vault gets comes back with its password. *)
Lemma create_unlock nonce npub priv pub pw h h' r :
  GetPublicKey priv = Ok pub -> EncodePublicKey pub = Ok npub ->
  CreateIdentity WriteOk nonce (Ok (npub, priv)) pw h = (Ok r, h') -> r = (npub, priv) /\ Unlock pw h' = Ok priv.
Proof using LL YL.
  intros Hg He Hc. unfold CreateIdentity in Hc.
  destruct (_ ≫= _) as [[[n pr] p]|er] eqn:E in Hc; [|done]. unbind E. injection B2 as <- <-. injection E as <- <- <-.
  unfold Prefs_Save, write_file in Hc. injection Hc as <- <-. split; [done|].
  unfold Unlock, Prefs_Load. cbn [h_prefs]. rewrite pf_roundtrip. cbn.
  rewrite (nip49_roundtrip _ _ _ _ B3). cbn. rewrite Hg. cbn. rewrite He. cbn. by rewrite String.eqb_refl.
Qed.

(** While entries can be read and the key is gone, no new one is made. *)
Lemma create_refuses o nonce id pw h p :
  Prefs_Load h = Ok p -> entries_remain h = true ->
  exists e, CreateIdentity o nonce id pw h = (Err e, h).
Proof.
  intros Hp Hr. unfold CreateIdentity. rewrite Hp, Hr. cbn [mbind result_bind].
  destruct (bool_decide _); cbn; eauto.
Qed.
End Facts.

(** ** Instances *)

(** Keys that are their own public keys, and a cipher that hides nothing. *)
#[export] Instance ex_lib : VaultLib := {|
  GetPublicKey s := Ok s;
  EncodePublicKey s := Ok ("npub" ++ s)%string;
  DecodePublicKey s := match CutPrefix s "npub" with Some h => Ok h | None => Err (ErrLib "not an npub") end;
  NormalizeToHex s := TrimPrefix s "npub";
  ParsePubKey s := Ok s;
  GenerateConversationKey a b := Ok (a ++ b)%string;
  nip44_Encrypt _ p _ := Ok p;
  nip44_Decrypt c _ := Ok c;
  nip49_Encrypt _ p _ := Ok p;
  nip49_Decrypt c _ := Ok c;
  fold := ToLower;
|}.

#[export] Instance ex_lib_laws : VaultLibLaws ex_lib.
Proof. split; cbn; by intros ? ? ? ? [= <-]. Qed.

Definition entry_tuple (e : Entry) := (en_Label e, en_Npub e, en_EncryptedNsec e, en_CreatedAt e).
Definition entry_of_tuple (t : string * string * string * string) : Entry :=
  let '(a, b, c, d) := t in mkEntry a b c d.

Definition prefs_tuple (p : Prefs) :=
  (pr_Relays p, (fun v => (vr_Npub v, vr_EncryptedNsec v)) <$> pr_VaultIdentity p, pr_BlossomServers p,
   pr_RelayContexts p, pr_CurrentRelayContext p).
Definition prefs_of_tuple
    (t : list string * option (string * string) * list string * gmap string string * string) : Prefs :=
  let '(a, b, c, d, e) := t in mkPrefs a ((fun v => mkVaultRef v.1 v.2) <$> b) c d e.

#[export] Instance ex_yaml : VaultYaml := {|
  vf_Marshal es := text_of (entry_tuple <$> es);
  vf_Unmarshal s := match of_text s with Some ts => Ok (entry_of_tuple <$> ts) | None => Err "bad"%string end;
  pf_Marshal p := text_of (prefs_tuple p);
  pf_Unmarshal s := match of_text s with Some t => Ok (prefs_of_tuple t) | None => Err "bad"%string end;
|}.

#[export] Instance ex_yaml_laws : VaultYamlLaws ex_yaml.
Proof.
  split; cbn; intros x; rewrite of_text_of; f_equal.
  - induction x as [|[] x IH]; [done|]. cbn. by rewrite IH.
  - destruct x as [? [[]|] ? ? ?]; done.
Qed.

Definition ex_home : home := mkHome Missing Missing.

(** Two keys saved, the second under its own npub; one relabelled; one that is
    there already refused; one removed. *)
Definition ex_vops : list vop :=
  [VAdd WriteOk "n" "t" " Work " "aa";
   VAdd WriteOk "n" "t" "" "bb";
   VAdd WriteOk "n" "t" "WORK" "cc";
   VAdd (WriteRefused "no directory") "n" "t" "x" "dd";
   VRelabel WriteOk "npubbb" "Home";
   VRemove WriteOk "npubaa"].

Lemma vault_keeps_witness :
  LoadEntries (vrun "00" ex_home ex_vops).1 = Ok [mkEntry "Home" "npubbb" "bb" "t"] /\
  FindEntry "home" (vrun "00" ex_home ex_vops).1 = Ok (Some (mkEntry "Home" "npubbb" "bb" "t")) /\
  DecryptEntry "00" (mkEntry "Home" "npubbb" "bb" "t") = Ok "bb"%string.
Proof.
  destruct (vault_keeps "00" ex_home ex_vops) as (es & Hl & Hh & _ & _ & Hf & _);
    [done|repeat constructor|].
  assert (Hes : es = [mkEntry "Home" "npubbb" "bb" "t"]).
  { assert (E : LoadEntries (vrun "00" ex_home ex_vops).1 = Ok [mkEntry "Home" "npubbb" "bb" "t"]) by (vm_compute; reflexivity).
    rewrite E in Hl. by injection Hl as <-. }
  subst es. split; [exact Hl|]. split.
  - apply Hf; [by left|by vm_compute|by vm_compute].
  - assert (E : (vrun "00" ex_home ex_vops).2 = [mkSaved "npubbb" "Home" "bb"]) by (vm_compute; reflexivity).
    rewrite E in Hh. apply Forall2_cons in Hh as [(_ & _ & Hd) _]. exact Hd.
Defined.

(** A label may be another key's npub: the npub then finds the wrong entry, and
    that key, saved without a label, is refused though its default label is
    meant to be unique. *)
Example shadowed_npub :
  (FindEntry "npubaa" (vrun "00" ex_home [VAdd WriteOk "n" "t" "work" "aa"; VAdd WriteOk "n" "t" "npubaa" "bb"]).1 =
     Ok (Some (mkEntry "npubaa" "npubbb" "bb" "t"))) /\
  (AddEntry WriteOk "n" "t" "00" "" "aa" (vrun "00" ex_home [VAdd WriteOk "n" "t" "npubaa" "bb"]).1).1 = Err ErrLabelExists.
Proof. vm_compute. done. Qed.

(** A write that is cut short after the file was truncated leaves an empty
    vault: every key saved before is lost. *)
Example torn_write_loses :
  LoadEntries (vrun "00" ex_home [VAdd WriteOk "n" "t" "work" "aa"; VRelabel (WriteTorn "no space" "") "npubaa" "w"]).1 =
  Ok [].
Proof. vm_compute. done. Qed.

(** With entries that cannot be read a new vault key is made, and they are
    orphaned. *)
Example unreadable_orphans :
  (CreateIdentity WriteOk "n" (Ok ("npubff", "ff")%string) "pw" (mkHome Missing (Unreadable "permission denied"))).1 =
  Ok ("npubff", "ff")%string.
Proof. vm_compute. done. Qed.

(** Two commands that add a key at the same time read the same entries; the one
    that saves last drops the other's key. *)
Example concurrent_adds_lose :
  match new_entry ex_home "n" "t" "00" "a" "aa", new_entry ex_home "n" "t" "00" "b" "bb" with
  | Ok (_, es1), Ok (_, es2) =>
      LoadEntries (SaveEntries WriteOk es2 (SaveEntries WriteOk es1 ex_home).2).2 = Ok [mkEntry "b" "npubbb" "bb" "t"]
  | _, _ => False
  end.
Proof. vm_compute. done. Qed.
