(* ===== verification/KeyResolve.v ===== *)
(** * Which key a command signs with

    Models [src/client/identity.go] ([ResolveIdentifier] and its relatives) and
    [src/cli/keyresolve/resolve.go]: how a name (a vault label, an npub, a hex
    key, an nsec, an nprofile or a nip-05 address) becomes a key, over the vault
    of [ClientVault].  The NIP-19 codecs and the fetch of a nip-05 document are
    parameters ([IdentLib]); what the user types at a prompt is an argument.

    Proved: [identity_exact], a saved key is found by its label and by its npub,
    and whatever key is returned belongs to the identity that was named, as long
    as no label is another key's npub; [wrong_key_signs] shows what happens
    otherwise. *)
From S2P Require Import Prelude GoTime GoStrings GoEncoding ClientVault.
From stdpp Require Import options.
From Stdlib Require Import Ascii.

Local Open Scope Z_scope.

(** ** Libraries *)

(** What a fetch of a nip-05 document gives: an error, another status than OK, a
    body that does not decode, the names. *)
Inductive nip05_answer := FetchFails (e : string) | BadStatus (status : string) | BadBody (e : string) | Names (m : gmap string string).

Class IdentLib := {
  DecodePrivateKey : string -> result verr string;
  EncodePrivateKey : string -> result verr string;
  DecodeProfile : string -> result verr (string * list string);
  DecodeNprofile : string -> result verr string;
  DecodeNote : string -> result verr string;
  DecodeEvent : string -> result verr string;
  Validate32Key : string -> bool;
  GetNip05URL : string -> string;
  fetch_nip05 : string -> nip05_answer;
}.

Inductive ierr :=
| EEmpty
| EUnknown
| EInvalid (what : string) (e : verr)
| EVault (e : verr)
| ENip05 (why : string)
| ELib (e : verr).

Record IdentityInspection := mkInspection {
  ii_Npub : string;
  ii_PubKeyHex : string;
  ii_Nip05 : string;
  ii_Relays : list string;
  ii_InVault : bool;
  ii_VaultLabel : string;
  ii_PrivKeyHex : string;
  ii_Nsec : string;
}.

Section Identity.
Context `{VaultLib} `{VaultYaml} `{IdentLib}.

(** ** nip-05 *)

Definition fetchNip05PubKey (url name : string) : result ierr string :=
  match fetch_nip05 url with
  | FetchFails e => Err (ENip05 ("failed: " ++ e))
  | BadStatus s => Err (ENip05 ("server returned " ++ s))
  | BadBody e => Err (ENip05 ("invalid response: " ++ e))
  | Names m =>
      match m !! name with
      | None => Err (ENip05 "not found")
      | Some pubHex => if negb (Validate32Key pubHex) then Err (ENip05 "returned an invalid pubkey") else Ok (ToLower pubHex)
      end
  end.

Definition ResolveNip05 (identifier : string) : result ierr string :=
  let '(name, _, ok) := Cut identifier "@" in
  if negb ok || is_empty name then Err (ENip05 "invalid nip-05 identifier") else
  let url := GetNip05URL identifier in
  if is_empty url then Err (ENip05 "invalid nip-05 identifier") else fetchNip05PubKey url name.

(** ** Identifiers *)

Inductive FindIdentifier := FindID (id : string) | FindAuthor (pubHex : string).

Definition ResolveFindIdentifier (input : string) : result ierr FindIdentifier :=
  let trimmed := TrimSpace input in
  if HasPrefix trimmed "note1" then id ← wrap_err (EInvalid "note") (DecodeNote trimmed); Ok (FindID id)
  else if HasPrefix trimmed "nevent1" then id ← wrap_err (EInvalid "nevent") (DecodeEvent trimmed); Ok (FindID id)
  else if HasPrefix trimmed "npub1" then p ← wrap_err (EInvalid "npub") (DecodePublicKey trimmed); Ok (FindAuthor p)
  else if HasPrefix trimmed "nprofile1" then p ← wrap_err (EInvalid "nprofile") (DecodeNprofile trimmed); Ok (FindAuthor p)
  else if Contains trimmed "@" then p ← ResolveNip05 trimmed; Ok (FindAuthor p)
  else Ok (FindID trimmed).

(** The vault's entry for a public key, as the result reports it. *)
Definition in_vault (npub : string) (h : home) : result ierr (bool * string) :=
  entry ← wrap_err EVault (FindEntry npub h);
  Ok (match entry with Some e => (true, en_Label e) | None => (false, ""%string) end).

(** An nsec. *)
Definition resolve_nsec (trimmed : string) (h : home) : result ierr IdentityInspection :=
  privHex ← wrap_err (EInvalid "nsec") (DecodePrivateKey trimmed);
  pubHex ← wrap_err (EInvalid "nsec") (GetPublicKey privHex);
  npub ← wrap_err ELib (EncodePublicKey pubHex);
  nsec ← wrap_err ELib (EncodePrivateKey privHex);
  v ← in_vault npub h;
  Ok (mkInspection npub pubHex "" [] v.1 v.2 privHex nsec).

(** An npub, an nprofile, a hex key or a nip-05 address: the key, the address
    and the relays. *)
Definition resolve_shape (trimmed : string) : result ierr (string * string * list string) :=
  if HasPrefix trimmed "npub1" then p ← wrap_err (EInvalid "npub") (DecodePublicKey trimmed); Ok (p, ""%string, [])
  else if HasPrefix trimmed "nprofile1" then p ← wrap_err (EInvalid "nprofile") (DecodeProfile trimmed); Ok (p.1, ""%string, p.2)
  else if Validate32Key trimmed then Ok (ToLower trimmed, ""%string, [])
  else if Contains trimmed "@" then p ← ResolveNip05 trimmed; Ok (p, trimmed, [])
  else Err EUnknown.

Definition ResolveIdentifier (input : string) (h : home) : result ierr IdentityInspection :=
  let trimmed := TrimSpace input in
  if is_empty trimmed then Err EEmpty
  else if HasPrefix trimmed "nsec1" then resolve_nsec trimmed h
  else
    found ← wrap_err EVault (FindEntry trimmed h);
    match (match found with Some e => if EqualFold (en_Label e) trimmed then Some e else None | None => None end) with
    | Some e =>
        pubHex ← wrap_err (EInvalid "vault entry") (DecodePublicKey (en_Npub e));
        Ok (mkInspection (en_Npub e) pubHex "" [] true (en_Label e) "" "")
    | None =>
        s ← resolve_shape trimmed;
        let '(pubHex, nip05, relays) := s in
        npub ← wrap_err ELib (EncodePublicKey pubHex);
        v ← in_vault npub h;
        Ok (mkInspection npub pubHex nip05 relays v.1 v.2 "" "")
    end.

Definition isHexPrefix (s : string) : bool :=
  if is_empty s || Nat.ltb 64 (String.length s) then false else all_bytes is_hex_byte s.

(** One author of a filter: its replacement. *)
Definition resolve_author (h : home) (a : string) : result (string * ierr) string :=
  if isHexPrefix a then Ok a
  else if Contains a "@" then wrap_err (fun e => (""%string, e)) (ResolveNip05 a)
  else
    match ResolveIdentifier a h with
    | Ok insp => Ok (ToLower (ii_PubKeyHex insp))
    | Err e => if HasPrefix a "npub1" || HasPrefix a "nprofile1" then Err (a, e) else Ok a
    end.

(** The authors of all filters, replaced in place up to the first that fails. *)
Fixpoint resolve_authors (h : home) (l : list string) : option (string * ierr) * list string :=
  match l with
  | [] => (None, [])
  | a :: l =>
      match resolve_author h a with
      | Err e => (Some e, a :: l)
      | Ok a => let '(err, l) := resolve_authors h l in (err, a :: l)
      end
  end.

Fixpoint ResolveFilterAuthors (h : home) (specs : list (list string)) : option (string * ierr) * list (list string) :=
  match specs with
  | [] => (None, [])
  | authors :: specs =>
      match resolve_authors h authors with
      | (Some e, authors) => (Some e, authors :: specs)
      | (None, authors) => let '(err, specs) := ResolveFilterAuthors h specs in (err, authors :: specs)
      end
  end.

(** ** Errors of commands *)

Inductive ErrorCode := CodeUsage | CodeInvalidInput | CodeNotFound | CodeConflict | CodeNetwork | CodeAuth | CodeUnsupported | CodeInternal.

(** The code and the input an error reports; an error that is not classified
    counts as internal ([codeOf]). *)
Record cli_error := mkCliError { ce_code : ErrorCode; ce_input : string }.

Definition RedactSecretInput (s : string) : string := if HasPrefix s "nsec1" then ""%string else s.

Definition ClassifyIdentifierError (identifier : string) (err : ierr) : cli_error :=
  let input := RedactSecretInput identifier in
  if Contains identifier "@" then mkCliError CodeNetwork input
  else match err with EUnknown => mkCliError CodeNotFound input | _ => mkCliError CodeInvalidInput input end.

Definition Pubkey (value : string) (h : home) : result cli_error string :=
  resolved ← wrap_err (ClassifyIdentifierError value) (ResolveIdentifier value h);
  Ok (ToLower (ii_PubKeyHex resolved)).

Definition PubkeyArg (value : string) (h : home) : result cli_error string :=
  match ResolveIdentifier value h with
  | Err EUnknown => Err (mkCliError CodeInvalidInput (RedactSecretInput value))
  | Err e => Err (ClassifyIdentifierError value e)
  | Ok resolved => Ok (ToLower (ii_PubKeyHex resolved))
  end.

Definition VaultError (e : verr) : cli_error :=
  match e with ErrVaultKeyMissing => mkCliError CodeNotFound "" | _ => mkCliError CodeAuth "" end.

(** ** Passwords *)

(** The terminals a password may be read from: the controlling one, if it opens,
    and standard input, if it is one; each with what reading it gives. *)
Record terminal := mkTerminal { t_tty : option (result string string); t_stdin : option (result string string) }.

Inductive pwerr := ErrNoTerminal | ErrRead (e : string) | ErrPasswordRequired | ErrPasswordEmpty | ErrPasswordMismatch.

Definition readSecretTTY (t : terminal) : result pwerr string :=
  match t_tty t with
  | Some r => wrap_err ErrRead r
  | None => match t_stdin t with Some r => wrap_err ErrRead r | None => Err ErrNoTerminal end
  end.

(** What a command finds: the configured password ([NCLI_VAULT_PASSWORD]), the
    configured identity and the terminals at two prompts. *)
Record environment := mkEnvironment { vn_password : string; vn_identity : string; vn_first : terminal; vn_second : terminal }.

Definition ResolveVaultPassword (env : environment) (jsonMode : bool) : result pwerr string :=
  if negb (is_empty (vn_password env)) then Ok (vn_password env)
  else if jsonMode then Err ErrPasswordRequired
  else readSecretTTY (vn_first env).

Definition promptNewPassword (env : environment) : result pwerr string :=
  pw ← readSecretTTY (vn_first env);
  refuse_if (is_empty pw) ErrPasswordEmpty;;
  confirm ← readSecretTTY (vn_second env);
  refuse_if (negb (String.eqb pw confirm)) ErrPasswordMismatch;;
  Ok pw.

Definition ResolveNewVaultPassword (env : environment) (jsonMode : bool) : result pwerr string :=
  if negb (is_empty (vn_password env)) then Ok (vn_password env)
  else if jsonMode then Err ErrPasswordRequired
  else promptNewPassword env.

(** [o], [nonce] and [id]: how writing the preferences goes, and the key that
    would be generated. *)
Definition UnlockOrCreateVault (env : environment) (jsonMode : bool) (o : write) (nonce : string)
    (id : result verr (string * string)) (h : home) : result cli_error string * home :=
  match Vault_Exists h with
  | Err _ => (Err (mkCliError CodeInternal ""), h)
  | Ok false =>
      match ResolveNewVaultPassword env jsonMode with
      | Err _ => (Err (mkCliError CodeUsage ""), h)
      | Ok password =>
          match CreateIdentity o nonce id password h with
          | (Err ErrVaultKeyMissing, h) => (Err (mkCliError CodeNotFound ""), h)
          | (Err _, h) => (Err (mkCliError CodeInternal ""), h)
          | (Ok (_, privHex), h) => (Ok privHex, h)
          end
      end
  | Ok true =>
      (match ResolveVaultPassword env jsonMode with
       | Err _ => Err (mkCliError CodeUsage "")
       | Ok password => wrap_err VaultError (Unlock password h)
       end, h)
  end.

(** ** Signing keys *)

(** The empty key: the identity has no private key here. *)
Definition ResolveSigningKey (env : environment) (jsonMode : bool) (resolved : IdentityInspection) (h : home)
    : result cli_error string :=
  if negb (is_empty (ii_PrivKeyHex resolved)) then Ok (ii_PrivKeyHex resolved)
  else if negb (ii_InVault resolved) then Ok ""%string
  else
    password ← wrap_err (fun _ => mkCliError CodeUsage "") (ResolveVaultPassword env jsonMode);
    vaultPrivKeyHex ← wrap_err VaultError (Unlock password h);
    found ← wrap_err (fun _ => mkCliError CodeInternal "") (FindEntry (ii_Npub resolved) h);
    match found with
    | None => Err (mkCliError CodeNotFound (ii_Npub resolved))
    | Some entry => wrap_err (fun _ => mkCliError CodeInternal "") (DecryptEntry vaultPrivKeyHex entry)
    end.

Definition resolveNamedIdentity (env : environment) (identity : string) (jsonMode : bool) (h : home) : result cli_error string :=
  resolved ← wrap_err (ClassifyIdentifierError identity) (ResolveIdentifier identity h);
  privKeyHex ← ResolveSigningKey env jsonMode resolved h;
  refuse_if (is_empty privKeyHex) (mkCliError CodeAuth "");;
  Ok privKeyHex.

(** The identity a flag or the configuration names. *)
Definition named_identity (env : environment) (identityFlag : string) : string :=
  if is_empty identityFlag then vn_identity env else identityFlag.

Definition ResolveIdentity (env : environment) (identityFlag : string) (h : home) : result cli_error string :=
  let identity := named_identity env identityFlag in
  identity ←
    (if is_empty identity then
       entries ← wrap_err (fun _ => mkCliError CodeInternal "") (LoadEntries h);
       match entries with
       | [e] => Ok (en_Label e)
       | _ => Err (mkCliError CodeUsage "")
       end
     else Ok identity);
  resolveNamedIdentity env identity false h.

Definition ResolveIdentityOptional (env : environment) (identityFlag : string) (jsonMode : bool) (h : home)
    : result cli_error string :=
  let identity := named_identity env identityFlag in
  if is_empty identity then
    entries ← wrap_err (fun _ => mkCliError CodeInternal "") (LoadEntries h);
    match entries with
    | [e] => match resolveNamedIdentity env (en_Label e) jsonMode h with Ok k => Ok k | Err _ => Ok ""%string end
    | _ => Ok ""%string
    end
  else resolveNamedIdentity env identity jsonMode h.
End Identity.

(** ** Facts *)

Ltac case_decide_ascii := match goal with |- context [ascii_dec ?x ?y] => destruct (ascii_dec x y); subst end.

(** What NIP-19 documents: an npub decodes to a key that encodes to it, is
    recognisable and has no blanks around it, and a key's case does not matter. *)
Class NpubLaws (L : VaultLib) : Prop := {
  npub_decodes p n : EncodePublicKey p = Ok n -> exists q, DecodePublicKey n = Ok q /\ EncodePublicKey q = Ok n;
  npub_text p n : EncodePublicKey p = Ok n -> HasPrefix n "npub1" = true /\ TrimSpace n = n;
  npub_normal p n q : EncodePublicKey p = Ok n -> DecodePublicKey n = Ok q -> fold (ToLower (NormalizeToHex n)) = fold q;
  npub_fold p q n m : EncodePublicKey p = Ok n -> EncodePublicKey q = Ok m -> fold p = fold q -> n = m;
}.

Section Facts.
Context `{L : VaultLib} `{Y : VaultYaml} `{I : IdentLib} {LL : VaultLibLaws L} {YL : VaultYamlLaws Y} {NL : NpubLaws L}.
Variable v : string.

(** A private key of an npub. *)
Definition private_of (priv npub : string) : Prop := exists pub, GetPublicKey priv = Ok pub /\ EncodePublicKey pub = Ok npub.

Lemma new_entry_key h nonce now label priv e es : new_entry h nonce now v label priv = Ok (e, es) -> private_of priv (en_Npub e).
Proof. intros E. unfold new_entry in E. unbind E. injection E as <- _. by exists r. Qed.

(** Saved keys are the keys of their npubs. *)
Lemma vrun_keys h ops : Forall (fun k => private_of (sv_priv k) (sv_npub k)) (vrun v h ops).2.
Proof.
  induction ops as [|op ops IH] using rev_ind; [constructor|]. unfold vrun in *. rewrite foldl_app. cbn [foldl].
  destruct (foldl (vstep v) (h, []) ops) as [h' ks]. cbn [fst snd] in *. destruct op as [o nonce now label priv|o npub label|o npub|o nonce id pw]; cbn [vstep].
  - unfold AddEntry. destruct (new_entry _ _ _ _ _ _) as [[e es]|] eqn:E; [|done]. apply new_entry_key in E.
    destruct (SaveEntries _ _ _) as [[|] h'']; [done|]. apply Forall_app. split; [done|]. by constructor.
  - destruct (RelabelEntry _ _ _ _) as [[] h'']; [|done]. cbn [snd]. apply Forall_fmap. eapply Forall_impl; [exact IH|].
    intros k Hk. cbn. unfold relabel_saved. destruct (String.eqb_spec (sv_npub k) npub) as [<-|]; done.
  - destruct (RemoveEntry _ _ _) as [[] h'']; [|done]. cbn [snd].
    apply Forall_forall. intros k [_ Hk]%list_elem_of_filter. by eapply Forall_forall in IH.
  - done.
Qed.

(** The vault after a run: its entries and the keys they hold. *)
Record vault_at (h : home) (es : list Entry) : Prop := {
  va_load : LoadEntries h = Ok es;
  va_npubs : NoDup (en_Npub <$> es);
  va_labels : NoDup ((fun e => fold (en_Label e)) <$> es);
  va_keys : forall e, e ∈ es -> exists priv, DecryptEntry v e = Ok priv /\ private_of priv (en_Npub e);
  va_own : forall e p n, e ∈ es -> EncodePublicKey p = Ok n -> fold (en_Label e) = fold n -> en_Npub e = n;
}.

Lemma is_empty_npub p n : EncodePublicKey p = Ok n -> is_empty n = false.
Proof using NL. intros [Hp _]%npub_text. by destruct n. Qed.

Lemma same_npub h es e e' : vault_at h es -> e ∈ es -> e' ∈ es -> en_Npub e = en_Npub e' -> e = e'.
Proof.
  intros Hv (i & Hi)%list_elem_of_lookup (j & Hj)%list_elem_of_lookup He.
  assert (i = j) as <-; [|congruence].
  eapply (NoDup_lookup _ _ _ _ (va_npubs _ _ Hv)); rewrite list_lookup_fmap; [by rewrite Hi|by rewrite Hj; cbn; rewrite He].
Qed.

(** An npub finds the entry of that key, and only that. *)
Lemma find_npub_sound h es p n e :
  vault_at h es -> EncodePublicKey p = Ok n -> FindEntry n h = Ok (Some e) -> e ∈ es /\ en_Npub e = n.
Proof using NL.
  intros Hv Hp. unfold FindEntry. rewrite (proj2 (npub_text _ _ Hp)), (is_empty_npub _ _ Hp), (va_load _ _ Hv). cbn [mbind result_bind].
  destruct (List.find _ es) as [x|] eqn:Ef.
  - intros [= <-]. apply List.find_some in Ef as [Hin Hl]. apply list_elem_of_In in Hin. split; [done|].
    apply String.eqb_eq in Hl. by eapply (va_own _ _ Hv).
  - intros [= Eh]. apply List.find_some in Eh as [Hin Hh]. apply list_elem_of_In in Hin. split; [done|].
    unfold has_hex in Hh. destruct (DecodePublicKey (en_Npub e)) as [q|] eqn:Ed; [|done]. apply String.eqb_eq in Hh.
    destruct (npub_decodes _ _ Hp) as (q' & Hq' & Hq). rewrite (npub_normal _ _ _ Hp Hq') in Hh.
    destruct (va_keys _ _ Hv _ Hin) as (priv & _ & pub & _ & Hpub). destruct (npub_decodes _ _ Hpub) as (q1 & Hq1 & Hq2).
    rewrite Ed in Hq1. injection Hq1 as <-. by eapply npub_fold.
Qed.

Lemma find_npub_complete h es e : vault_at h es -> e ∈ es -> FindEntry (en_Npub e) h = Ok (Some e).
Proof using NL.
  intros Hv He. destruct (va_keys _ _ Hv _ He) as (priv & _ & pub & _ & Hpub).
  assert (Hs : exists e', FindEntry (en_Npub e) h = Ok (Some e')).
  { unfold FindEntry. rewrite (proj2 (npub_text _ _ Hpub)), (is_empty_npub _ _ Hpub), (va_load _ _ Hv). cbn [mbind result_bind].
    destruct (List.find _ es) as [x|] eqn:Ef; [by exists x|].
    destruct (List.find (has_hex _) es) as [x|] eqn:Eh; [by exists x|]. exfalso.
    pose proof (List.find_none _ _ Eh e) as Hn. rewrite <- list_elem_of_In in Hn. specialize (Hn He). unfold has_hex in Hn.
    destruct (npub_decodes _ _ Hpub) as (q & Hq & _). rewrite Hq in Hn. unfold EqualFold in Hn.
    by rewrite (npub_normal _ _ _ Hpub Hq), String.eqb_refl in Hn. }
  destruct Hs as (e' & Hs). destruct (find_npub_sound _ _ _ _ _ Hv Hpub Hs) as [He' Hn]. rewrite Hs. by rewrite (same_npub _ _ _ _ Hv He' He Hn).
Qed.

(** A resolved identity, unlocked with the vault's password, gives its own key. *)
Lemma signing_sound env json pw h es r p key :
  vault_at h es -> ResolveVaultPassword env json = Ok pw -> Unlock pw h = Ok v ->
  EncodePublicKey p = Ok (ii_Npub r) -> (ii_PrivKeyHex r <> ""%string -> private_of (ii_PrivKeyHex r) (ii_Npub r)) ->
  ResolveSigningKey env json r h = Ok key -> key <> ""%string -> private_of key (ii_Npub r).
Proof using NL.
  intros Hv Hpw Hu Hp Hk. unfold ResolveSigningKey. destruct (ii_PrivKeyHex r) as [|c s] eqn:Er; cbn [is_empty negb].
  2: { intros [= <-] _. by apply Hk. }
  destruct (ii_InVault r); cbn [negb]; [|by intros [= <-]]. rewrite Hpw. cbn [wrap_err mbind result_bind]. rewrite Hu. cbn [wrap_err mbind result_bind].
  destruct (FindEntry (ii_Npub r) h) as [[e|]|] eqn:Ef; cbn [wrap_err mbind result_bind]; [|done|done].
  destruct (find_npub_sound _ _ _ _ _ Hv Hp Ef) as [He Hn]. destruct (va_keys _ _ Hv _ He) as (priv & Hd & Hpriv).
  rewrite Hd. cbn [wrap_err]. intros [= <-] _. by rewrite <- Hn.
Qed.

(** The same for an entry of the vault. *)
Lemma signing_entry env json pw h es e r priv :
  vault_at h es -> ResolveVaultPassword env json = Ok pw -> Unlock pw h = Ok v ->
  e ∈ es -> DecryptEntry v e = Ok priv -> ii_Npub r = en_Npub e -> ii_PrivKeyHex r = ""%string -> ii_InVault r = true ->
  ResolveSigningKey env json r h = Ok priv.
Proof using NL.
  intros Hv Hpw Hu He Hd Hn Hp Hi. unfold ResolveSigningKey. rewrite Hp, Hi. cbn [is_empty negb]. rewrite Hpw. cbn [wrap_err mbind result_bind]. rewrite Hu. cbn [wrap_err mbind result_bind].
  rewrite Hn, (find_npub_complete _ _ _ Hv He). cbn [wrap_err mbind result_bind]. by rewrite Hd.
Qed.

Lemma ResolveIdentifier_label name h es e :
  vault_at h es -> e ∈ es -> TrimSpace name = name -> name <> ""%string -> HasPrefix name "nsec1" = false ->
  fold name = fold (en_Label e) ->
  exists pubHex, ResolveIdentifier name h = Ok (mkInspection (en_Npub e) pubHex "" [] true (en_Label e) "" "").
Proof using NL.
  intros Hv He Ht Hne Hns Hf. unfold ResolveIdentifier. rewrite Ht, Hns.
  assert (He' : is_empty name = false) by (by destruct name). rewrite He'. unfold FindEntry. rewrite Ht, He', (va_load _ _ Hv).
  cbn [mbind result_bind]. rewrite (find_label name e es (va_labels _ _ Hv) He Hf). cbn [wrap_err mbind result_bind].
  unfold EqualFold at 1. rewrite Hf, String.eqb_refl. destruct (va_keys _ _ Hv _ He) as (priv & _ & pub & _ & Hpub).
  destruct (npub_decodes _ _ Hpub) as (q & Hq & _). rewrite Hq. by exists q.
Qed.

Lemma npub_not_nsec n : HasPrefix n "npub1" = true -> HasPrefix n "nsec1" = false.
Proof.
  unfold HasPrefix. destruct n as [|a [|b n]]; [done| |]; cbn [String.prefix]; repeat case_decide_ascii; done.
Qed.

Lemma ResolveIdentifier_npub h es e :
  vault_at h es -> e ∈ es ->
  exists pubHex label, ResolveIdentifier (en_Npub e) h = Ok (mkInspection (en_Npub e) pubHex "" [] true label "" "").
Proof using NL.
  intros Hv He. destruct (va_keys _ _ Hv _ He) as (priv & _ & pub & _ & Hpub). destruct (npub_text _ _ Hpub) as [Hpre Htrim].
  destruct (npub_decodes _ _ Hpub) as (q & Hq & Hq').
  unfold ResolveIdentifier. rewrite Htrim, (is_empty_npub _ _ Hpub), (npub_not_nsec _ Hpre), (find_npub_complete _ _ _ Hv He).
  cbn [wrap_err mbind result_bind]. destruct (EqualFold (en_Label e) (en_Npub e)).
  - rewrite Hq. by exists q, (en_Label e).
  - unfold resolve_shape. rewrite Hpre, Hq. cbn [wrap_err mbind result_bind]. rewrite Hq'. cbn [wrap_err mbind result_bind].
    unfold in_vault. rewrite (find_npub_complete _ _ _ Hv He). by exists q, (en_Label e).
Qed.

(** What a resolved identity is: an npub, and the private key only if it was given. *)
Lemma ResolveIdentifier_sound name h es r :
  vault_at h es -> ResolveIdentifier name h = Ok r ->
  (exists p, EncodePublicKey p = Ok (ii_Npub r)) /\ (ii_PrivKeyHex r <> ""%string -> private_of (ii_PrivKeyHex r) (ii_Npub r)).
Proof using NL.
  intros Hv. unfold ResolveIdentifier. destruct (is_empty _); [done|]. destruct (HasPrefix _ "nsec1").
  - unfold resolve_nsec. intros E. unbind E. injection E as <-. cbn. rewrite ?wrap_err_Ok in *. split; [by eexists|]. intros _. by exists r1.
  - intros E. unbind_step E. apply wrap_err_Ok in B.
    destruct (match r0 with Some e => if EqualFold (en_Label e) (TrimSpace name) then Some e else None | None => None end) as [e|] eqn:Ee.
    + unbind E. injection E as <-. cbn. split; [|done].
      assert (He : e ∈ es).
      { destruct r0 as [e0|]; [|done]. assert (e0 = e) as -> by (destruct (EqualFold _ _); congruence).
        unfold FindEntry in B. destruct (is_empty _); [done|]. rewrite (va_load _ _ Hv) in B. cbn [mbind result_bind] in B.
        destruct (List.find _ es) as [x|] eqn:Ef.
        - injection B as <-. apply List.find_some in Ef as [Hin _]. by apply list_elem_of_In.
        - injection B as Ef2. apply List.find_some in Ef2 as [Hin _]. by apply list_elem_of_In. }
      destruct (va_keys _ _ Hv _ He) as (priv & _ & pub & _ & Hpub). by exists pub.
    + apply bind_Ok in E as ([[pubHex nip05] relays] & _ & E). unbind E. injection E as <-. cbn.
      rewrite wrap_err_Ok in *. split; [by eexists|done].
Qed.

Lemma vault_at_run h0 ops es :
  LoadEntries h0 = Ok [] -> Forall untorn ops -> LoadEntries (vrun v h0 ops).1 = Ok es ->
  (forall e p n, e ∈ es -> EncodePublicKey p = Ok n -> fold (en_Label e) = fold n -> en_Npub e = n) ->
  vault_at (vrun v h0 ops).1 es /\ Forall2 (holds v) es (vrun v h0 ops).2.
Proof using LL YL.
  intros H0 Hu Hl Hown. destruct (vrun_ok v h0 ops [] H0 eq_refl Hu) as (es' & [H1 H2 H3 H4]). rewrite Hl in H1. injection H1 as <-.
  split; [|done]. split; try done. intros e He. apply list_elem_of_lookup in He as (i & Hi).
  eapply Forall2_lookup_l in H2 as (k & Hk & Hn & _ & Hd); [|done]. exists (sv_priv k). split; [done|].
  pose proof (vrun_keys h0 ops) as Hks. eapply Forall_lookup_1 in Hks; [|done]. by rewrite Hn.
Qed.

(** C34: in a vault made by any additions, relabellings and removals, where no
    label is another key's npub, with the vault's password at hand: a saved key
    is what its npub and its label (in any case, unless it looks like an nsec)
    give, and it is what is taken when it is the only one and none is named; and
    whatever key is returned for any name belongs to the identity the name
    resolves to, never to another. *)
Theorem identity_exact env json pw h0 ops es :
  LoadEntries h0 = Ok [] -> Forall untorn ops -> LoadEntries (vrun v h0 ops).1 = Ok es ->
  (forall e p n, e ∈ es -> EncodePublicKey p = Ok n -> fold (en_Label e) = fold n -> en_Npub e = n) ->
  ResolveVaultPassword env json = Ok pw -> Unlock pw (vrun v h0 ops).1 = Ok v ->
  (forall k, k ∈ (vrun v h0 ops).2 -> sv_priv k <> ""%string ->
     resolveNamedIdentity env (sv_npub k) json (vrun v h0 ops).1 = Ok (sv_priv k) /\
     (forall name, TrimSpace name = name -> name <> ""%string -> HasPrefix name "nsec1" = false -> fold name = fold (sv_label k) ->
        resolveNamedIdentity env name json (vrun v h0 ops).1 = Ok (sv_priv k)) /\
     ((vrun v h0 ops).2 = [k] -> vn_identity env = ""%string -> TrimSpace (sv_label k) = sv_label k -> sv_label k <> ""%string ->
        HasPrefix (sv_label k) "nsec1" = false ->
        ResolveIdentityOptional env "" json (vrun v h0 ops).1 = Ok (sv_priv k))) /\
  (forall name key, resolveNamedIdentity env name json (vrun v h0 ops).1 = Ok key ->
     exists r, ResolveIdentifier name (vrun v h0 ops).1 = Ok r /\ private_of key (ii_Npub r)).
Proof using LL YL NL.
  intros H0 Hu Hl Hown Hpw Hun. destruct (vault_at_run _ _ _ H0 Hu Hl Hown) as [Hv Hh].
  set (h := (vrun v h0 ops).1) in *. set (ks := (vrun v h0 ops).2) in *.
  assert (Hlab : forall k, k ∈ ks -> sv_priv k <> ""%string -> forall name, TrimSpace name = name -> name <> ""%string ->
     HasPrefix name "nsec1" = false -> fold name = fold (sv_label k) -> resolveNamedIdentity env name json h = Ok (sv_priv k)).
  { intros k (i & Hi)%list_elem_of_lookup Hp name Ht Hne Hns Hf. eapply Forall2_lookup_r in Hh as (e & He & Hn & Hlb & Hd); [|done].
    apply list_elem_of_lookup_2 in He. rewrite <- Hlb in Hf.
    destruct (ResolveIdentifier_label name h es e Hv He Ht Hne Hns Hf) as (q & Hr). unfold resolveNamedIdentity. rewrite Hr.
    cbn [wrap_err mbind result_bind]. rewrite (signing_entry env json pw h es e _ (sv_priv k) Hv Hpw Hun He Hd); [|done..].
    cbn [mbind result_bind]. by destruct (sv_priv k). }
  split.
  - intros k Hk Hp. split; [|split; [by apply Hlab|]].
    + apply list_elem_of_lookup in Hk as (i & Hi). eapply Forall2_lookup_r in Hh as (e & He & Hn & Hlb & Hd); [|done].
      apply list_elem_of_lookup_2 in He. destruct (ResolveIdentifier_npub h es e Hv He) as (q & lb & Hr).
      unfold resolveNamedIdentity. rewrite <- Hn, Hr. cbn [wrap_err mbind result_bind].
      rewrite (signing_entry env json pw h es e _ (sv_priv k) Hv Hpw Hun He Hd); [|done..]. cbn [mbind result_bind]. by destruct (sv_priv k).
    + intros Hone Hid Ht Hne Hns. unfold ResolveIdentityOptional, named_identity. cbn [is_empty]. rewrite Hid. cbn [is_empty].
      rewrite Hl. cbn [wrap_err mbind result_bind]. rewrite Hone in Hh. destruct es as [|e [|]]; [by inversion Hh| |by inversion Hh as [|? ? ? ? ? Hx]; inversion Hx].
      apply Forall2_cons in Hh as [(Hn & Hlb & Hd) _]. rewrite Hlb. by rewrite (Hlab k Hk Hp _ Ht Hne Hns eq_refl).
  - intros name key E. unfold resolveNamedIdentity in E. unbind E. injection E as <-. apply wrap_err_Ok in B.
    destruct (ResolveIdentifier_sound name h es r Hv B) as [[p Hp] Hk]. exists r. split; [done|].
    apply (signing_sound env json pw h es r p r0 Hv Hpw Hun Hp Hk B0). by destruct r0.
Qed.
End Facts.

(** ** Instances *)

(** Keys of hex digits that are their own public keys, and a cipher that hides
    nothing. *)
#[local] Instance ex_keys : VaultLib := {|
  GetPublicKey s := Ok s;
  EncodePublicKey s := if all_bytes is_hex_byte s then Ok ("npub1" ++ ToLower s)%string else Err (ErrLib "not a key");
  DecodePublicKey s := match CutPrefix s "npub1" with Some h => Ok h | None => Err (ErrLib "not an npub") end;
  NormalizeToHex s := TrimPrefix s "npub1";
  ParsePubKey s := Ok s;
  GenerateConversationKey a b := Ok (a ++ b)%string;
  nip44_Encrypt _ p _ := Ok p;
  nip44_Decrypt c _ := Ok c;
  nip49_Encrypt _ p pw := Ok (pw ++ p)%string;
  nip49_Decrypt c pw := match CutPrefix c pw with Some p => Ok p | None => Err (ErrLib "wrong password") end;
  fold := ToLower;
|}.

Lemma TrimSpace_word s : graphic s -> TrimSpace s = s.
Proof.
  destruct s as [|c s]; [done|]. intros Hs. assert (Hc : is_graph c = true) by (cbn [all_bytes] in Hs; by apply andb_true_iff in Hs as [? _]). destruct (rev_string (String c s) "") as [|d t] eqn:E.
  { by apply (f_equal is_empty) in E; rewrite rev_string_empty in E. }
  apply (f_equal (fun x => rev_string x "")) in E. rewrite rev_string_inv in E. cbn [rev_string] in E. rewrite rev_string_spec in E.
  rewrite E, all_bytes_app in Hs. cbn [all_bytes] in Hs. rewrite !andb_true_iff in Hs. destruct Hs as (_ & Hd & _).
  by apply (TrimSpace_graph c s d (rev_string t "")).
Qed.

Lemma ToLower_hex_byte s : all_bytes is_hex_byte s = true -> all_bytes is_hex_byte (ToLower s) = true.
Proof.
  induction s as [|c s IH]; cbn [all_bytes ToLower]; [done|]. rewrite !andb_true_iff. intros [Hc Hs].
  split; [|by apply IH]. revert Hc. by destruct c as [[] [] [] [] [] [] [] []].
Qed.

Lemma hex_byte_graphic s : all_bytes is_hex_byte s = true -> graphic s.
Proof. apply all_bytes_impl. intros c. by destruct c as [[] [] [] [] [] [] [] []]. Qed.

Lemma ex_npub p n : EncodePublicKey p = Ok n -> all_bytes is_hex_byte p = true /\ n = ("npub1" ++ ToLower p)%string.
Proof. cbn [EncodePublicKey ex_keys]. destruct (all_bytes is_hex_byte p); [|done]. by intros [= <-]. Qed.

Lemma ex_npub_decodes p : DecodePublicKey ("npub1" ++ ToLower p) = Ok (ToLower p).
Proof. cbn [DecodePublicKey ex_keys]. by rewrite (proj2 (CutPrefix_Some _ _ _) eq_refl). Qed.

#[local] Instance ex_keys_laws : VaultLibLaws ex_keys.
Proof.
  split; cbn; intros ? p k c [= <-]; [done|]. by rewrite (proj2 (CutPrefix_Some _ _ _) eq_refl).
Qed.

#[local] Instance ex_npub_laws : NpubLaws ex_keys.
Proof.
  split.
  - intros p n [Hp ->]%ex_npub. exists (ToLower p). split; [apply ex_npub_decodes|].
    cbn [EncodePublicKey ex_keys]. by rewrite (ToLower_hex_byte _ Hp), ToLower_idem.
  - intros p n [Hp ->]%ex_npub. split; [by destruct (ToLower p)|].
    apply TrimSpace_word. rewrite all_bytes_app, andb_true_iff. split; [done|]. by apply hex_byte_graphic, ToLower_hex_byte.
  - intros p n q [Hp ->]%ex_npub. rewrite ex_npub_decodes. intros [= <-]. cbn [NormalizeToHex fold ex_keys].
    unfold TrimPrefix. rewrite (proj2 (CutPrefix_Some _ _ _) eq_refl). unfold from_option, id. by rewrite !ToLower_idem.
  - intros p q n m [_ ->]%ex_npub [_ ->]%ex_npub Hf. cbn [fold ex_keys] in Hf. by rewrite Hf.
Qed.

(** One key per domain, and secrets that are written as they are. *)
#[local] Instance ex_ident : IdentLib := {|
  DecodePrivateKey s := match CutPrefix s "nsec1" with Some h => Ok h | None => Err (ErrLib "not an nsec") end;
  EncodePrivateKey s := Ok ("nsec1" ++ s)%string;
  DecodeProfile s := match CutPrefix s "nprofile1" with Some h => Ok (h, []) | None => Err (ErrLib "not an nprofile") end;
  DecodeNprofile s := match CutPrefix s "nprofile1" with Some h => Ok h | None => Err (ErrLib "not an nprofile") end;
  DecodeNote s := match CutPrefix s "note1" with Some h => Ok h | None => Err (ErrLib "not a note") end;
  DecodeEvent s := match CutPrefix s "nevent1" with Some h => Ok h | None => Err (ErrLib "not an event") end;
  Validate32Key s := Nat.eqb (String.length s) 64 && all_bytes is_hex_byte s;
  GetNip05URL s := let '(_, domain, _) := Cut s "@" in domain;
  fetch_nip05 _ := FetchFails "no network";
|}.

(** The configured password, and nobody at the terminal. *)
Definition ex_env : environment := mkEnvironment "pw" "" (mkTerminal None None) (mkTerminal None None).

(** A vault, and two keys saved in it, one without a label. *)
Definition ex_kops : list vop :=
  [VCreate WriteOk "n" (Ok ("npub100", "00")%string) "pw";
   VAdd WriteOk "n" "t" " Work " "aa";
   VAdd WriteOk "n" "t" "" "bb"].

Lemma identity_exact_witness :
  (vrun "00" ex_home ex_kops).2 = [mkSaved "npub1aa" "Work" "aa"; mkSaved "npub1bb" "npub1bb" "bb"] /\
  resolveNamedIdentity ex_env "npub1aa" true (vrun "00" ex_home ex_kops).1 = Ok "aa"%string /\
  resolveNamedIdentity ex_env "WORK" true (vrun "00" ex_home ex_kops).1 = Ok "aa"%string.
Proof.
  assert (E : (vrun "00" ex_home ex_kops).2 = [mkSaved "npub1aa" "Work" "aa"; mkSaved "npub1bb" "npub1bb" "bb"]) by (vm_compute; reflexivity).
  destruct (identity_exact "00" ex_env true "pw" ex_home ex_kops
              [mkEntry "Work" "npub1aa" "aa" "t"; mkEntry "npub1bb" "npub1bb" "bb" "t"]) as [Hs _].
  - done.
  - repeat constructor.
  - by vm_compute.
  - intros e p n He [_ ->]%ex_npub Hf. set_unfold. destruct He as [->|[->|[]]]; [done|]. change ("npub1bb" = "npub1" ++ ToLower (ToLower p))%string in Hf. by rewrite ToLower_idem in Hf.
  - done.
  - by vm_compute.
  - split; [exact E|]. destruct (Hs (mkSaved "npub1aa" "Work" "aa")) as (Hn & Hl & _); [rewrite E; by left|done|].
    split; [exact Hn|]. by apply Hl.
Defined.

(** A key saved under another's npub: naming that other by its label signs with
    the wrong key, although its identity was resolved. *)
Example wrong_key_signs :
  let h := (vrun "00" ex_home [VCreate WriteOk "n" (Ok ("npub100", "00")%string) "pw"; VAdd WriteOk "n" "t" "work" "aa";
                               VAdd WriteOk "n" "t" "npub1aa" "bb"]).1 in
  ii_Npub <$> (match ResolveIdentifier "work" h with Ok r => Some r | Err _ => None end) = Some "npub1aa"%string /\
  resolveNamedIdentity ex_env "work" true h = Ok "bb"%string.
Proof. vm_compute. done. Qed.

(** An nsec with a blank before it is read as one and echoed by its error. *)
Example spaced_nsec_echoed :
  ResolveIdentifier " nsec1zz" ex_home = Err (ELib (ErrLib "not a key")) /\
  Pubkey " nsec1zz" ex_home = Err (mkCliError CodeInvalidInput " nsec1zz") /\
  Pubkey "nsec1zz" ex_home = Err (mkCliError CodeInvalidInput "").
Proof. vm_compute. done. Qed.
