(* ===== verification/HuddleRtp.v ===== *)
(** * A huddle room over RTP

    Models [src/huddle/rtp]: the sink that repacketizes a room's frames as RTP
    ([rtp.go]) and the way back ([ingest.go]).  The sender of frames, the writer
    goroutine and [Close] share the sink; each of their atomic steps is an
    [action], so a list of actions is an interleaving.  The frame codec of the
    nmilat library, the track factory, the random SSRC and the packet writer are
    parameters; bytes are numbers below 256. *)
From S2P Require Import Prelude GoTime.
From stdpp Require Import options.

Local Open Scope Z_scope.

Abbreviation byte := Z (only parsing).

(** ** The frame codec ([nmilat/huddle/wire], [room.Frame.Payload]) *)

Record FrameHeader := mkHeader {
  fh_Seq : Z;
  fh_Ts48k : Z;
  fh_LevelDbov : Z;
  fh_Flags : Z;
}.

Class Wire := {
  LevelSilenceFloor : Z;
  FlagDTX : Z;
  ClampLevel : Z -> Z;
  IsDTX : FrameHeader -> bool;
  EncodeFrame : FrameHeader -> list byte -> list byte;
  (** the header, when there is one, and the Opus bytes of a client frame *)
  FramePayload : list byte -> option FrameHeader * list byte;
}.

(** [room.Frame]: its author's key and the client's bytes. *)
Record Frame := mkFrame { fr_Author : string; fr_Client : list byte }.

(** ** Packets and tracks *)

(** [rtp.Packet]: the fields set or read here; [pk_Extension] is
    [GetExtension]. *)
Record Packet := mkPacket {
  pk_Version : Z;
  pk_Marker : bool;
  pk_PayloadType : Z;
  pk_SequenceNumber : Z;
  pk_Timestamp : Z;
  pk_SSRC : Z;
  pk_Extension : Z -> list byte;
  pk_Payload : list byte;
}.

Definition OpusPayloadType : Z := 111.
Definition DefaultQueueDepth : Z := 8.

Record queued := mkQueued {
  qd_author : string;
  qd_timestamp : Z;
  qd_marker : bool;
  qd_payload : list byte;
}.

(** The writer is the number of the factory call that made it. *)
Record track := mkTrack {
  tk_writer : nat;
  tk_ssrc : Z;
  tk_seq : Z;
  tk_silent : bool;
}.

(** [Config], with [NewTrack] there or not; [New] puts the defaults in. *)
Record Config := mkConfig {
  cf_NewTrack : bool;
  cf_PayloadType : Z;
  cf_QueueDepth : Z;
}.

(** The state shared by the sender, the writer goroutine and [Close]. *)
Record Sink := mkSink {
  sk_cfg : Config;
  sk_queue : list queued;
  sk_done : bool;
  sk_writing : bool;               (* the writer goroutine runs *)
  sk_dropped : Z;
  sk_tracks : gmap string track;
  sk_made : nat;                   (* calls of the factory *)
}.

Definition with_defaults (cfg : Config) : Config :=
  mkConfig (cf_NewTrack cfg)
    (if cf_PayloadType cfg =? 0 then OpusPayloadType else cf_PayloadType cfg)
    (if cf_QueueDepth cfg <? 1 then DefaultQueueDepth else cf_QueueDepth cfg).

(** [None] is [ErrNoTrackFactory]. *)
Definition New (cfg : Config) : option Sink :=
  if negb (cf_NewTrack cfg) then None
  else Some (mkSink (with_defaults cfg) [] false true 0 ∅ 0).

Definition set_queue (q : list queued) (s : Sink) : Sink :=
  mkSink (sk_cfg s) q (sk_done s) (sk_writing s) (sk_dropped s) (sk_tracks s) (sk_made s).
Definition set_done (s : Sink) : Sink :=
  mkSink (sk_cfg s) (sk_queue s) true (sk_writing s) (sk_dropped s) (sk_tracks s) (sk_made s).
Definition set_stopped (s : Sink) : Sink :=
  mkSink (sk_cfg s) (sk_queue s) (sk_done s) false (sk_dropped s) (sk_tracks s) (sk_made s).
Definition set_dropped (n : Z) (s : Sink) : Sink :=
  mkSink (sk_cfg s) (sk_queue s) (sk_done s) (sk_writing s) n (sk_tracks s) (sk_made s).
Definition set_track (a : string) (t : track) (s : Sink) : Sink :=
  mkSink (sk_cfg s) (sk_queue s) (sk_done s) (sk_writing s) (sk_dropped s) (<[a := t]> (sk_tracks s)) (sk_made s).
Definition set_made (s : Sink) : Sink :=
  mkSink (sk_cfg s) (sk_queue s) (sk_done s) (sk_writing s) (sk_dropped s) (sk_tracks s) (S (sk_made s)).

Definition Tracks (s : Sink) : nat := size (sk_tracks s).
Definition Dropped (s : Sink) : Z := sk_dropped s.

Section Sink.
Context `{Wire}.

(** The item [SendFrame] queues; [None] when the frame carries no audio. *)
Definition frame_item (f : Frame) : option queued :=
  let '(header, payload) := FramePayload (fr_Client f) in
  match payload with
  | [] => None
  | _ => Some (match header with
               | Some h => mkQueued (fr_Author f) (fh_Ts48k h) (negb (IsDTX h)) payload
               | None => mkQueued (fr_Author f) 0 false payload
               end)
  end.

(** [SendFrame]'s [select]: with room and [done] closed either may be taken,
    which [pick] says. *)
Definition SendFrame (f : Frame) (pick : bool) (s : Sink) : bool * Sink :=
  match frame_item f with
  | None => (true, s)
  | Some item =>
      let room := Z.of_nat (length (sk_queue s)) <? cf_QueueDepth (sk_cfg s) in
      if room && negb (sk_done s && pick) then (true, set_queue (sk_queue s ++ [item]) s)
      else if sk_done s then (false, s)
      else (false, set_dropped ((sk_dropped s + 1) mod two64) s)
  end.

(** [SendControl]: what goes to [OnControl], when it is set. *)
Definition SendControl {A} (onControl : bool) (c : A) : bool * list A := (true, if onControl then [c] else []).

(** ** The writer *)

(** [trackFor]; [made] says whether the factory gives a writer and [ssrc] what
    [NewSSRC] gives. *)
Definition trackFor (author : string) (made : bool) (ssrc : option Z) (s : Sink) : option track * Sink :=
  match sk_tracks s !! author with
  | Some t => (Some t, s)
  | None =>
      let s := set_made s in
      if negb made then (None, s)
      else match ssrc with
           | None => (None, s)
           | Some n => let t := mkTrack (sk_made s) n 0 true in (Some t, set_track author t s)
           end
  end.

(** [write]: the packet and the writer it goes to. *)
Definition write (item : queued) (made : bool) (ssrc : option Z) (s : Sink) : option (nat * Packet) * Sink :=
  match trackFor (qd_author item) made ssrc s with
  | (None, s) => (None, s)
  | (Some t, s) =>
      let marker := qd_marker item && tk_silent t in
      let t := mkTrack (tk_writer t) (tk_ssrc t) ((tk_seq t + 1) mod 65536) (negb (qd_marker item)) in
      (Some (tk_writer t, mkPacket 2 marker (cf_PayloadType (sk_cfg s)) (tk_seq t) (qd_timestamp item) (tk_ssrc t)
                            (fun _ => []) (qd_payload item)),
       set_track (qd_author item) t s)
  end.

(** ** Interleavings *)

Inductive action :=
| ASend (f : Frame) (pick : bool)
| AWrite (made : bool) (ssrc : option Z)    (* the writer takes an item *)
| AStop                                     (* the writer takes [done] *)
| AClose.                                   (* [Close], up to its wait *)

(** What an action shows: the answer of [SendFrame], and for a taken item the
    packet and its writer or that it was lost. *)
Inductive shown :=
| SSent (item : option queued) (ok : bool)
| SWrote (item : queued) (writer : nat) (p : Packet)
| SLost (item : queued).

(** [None] when the action cannot be taken. *)
Definition sink_step (a : action) (s : Sink) : option (list shown * Sink) :=
  match a with
  | ASend f pick => let '(ok, s) := SendFrame f pick s in Some ([SSent (frame_item f) ok], s)
  | AWrite made ssrc =>
      if negb (sk_writing s) then None else
      match sk_queue s with
      | [] => None
      | item :: q =>
          match write item made ssrc (set_queue q s) with
          | (Some (w, p), s) => Some ([SWrote item w p], s)
          | (None, s) => Some ([SLost item], s)
          end
      end
  | AStop => if sk_writing s && sk_done s then Some ([], set_stopped s) else None
  | AClose => Some ([], set_done s)
  end.

Fixpoint sink_run (l : list action) (s : Sink) : option (list shown * Sink) :=
  match l with
  | [] => Some ([], s)
  | a :: l => '(o, s) ← sink_step a s; '(o', s) ← sink_run l s; Some ((o ++ o')%list, s)
  end.

(** ** The way back ([ingest.go]) *)

Definition AudioLevelExtensionURI : string := "urn:ietf:params:rtp-hdrext:ssrc-audio-level".

(** [AudioLevel]: the level and the voice bit, when present.  [int8] of seven
    bits is the number itself, and so is its negation. *)
Definition AudioLevel (p : Packet) (extID : Z) : option (Z * bool) :=
  if extID =? 0 then None else
  match pk_Extension p extID with
  | [] => None
  | b :: _ => Some (ClampLevel (- Z.land b 127), negb (Z.land b 128 =? 0))
  end.

Definition FrameFromRTP (p : Packet) (audioLevelExtID : Z) : option (list byte) :=
  match pk_Payload p with
  | [] => None
  | _ =>
      let header := mkHeader (pk_SequenceNumber p) (pk_Timestamp p) LevelSilenceFloor 0 in
      let header :=
        match AudioLevel p audioLevelExtID with
        | Some (level, voice) =>
            mkHeader (fh_Seq header) (fh_Ts48k header) level
              (if voice then fh_Flags header else Z.lor (fh_Flags header) FlagDTX)
        | None => header
        end in
      Some (EncodeFrame header (pk_Payload p))
  end.

End Sink.

(** * A huddle room over RTP: every speaker's audio, verbatim and in order

    [render] says what a speaker's stream should be: the packets of the written
    frames, numbered from one modulo 65536.  [sink_faithful] shows that the sink
    produces it in every interleaving, and [bridge_verbatim] that audio which
    came in over RTP leaves as it came. *)

(** ** What was shown *)

Definition accepted (o : list shown) : list queued :=
  omap (fun x => match x with SSent (Some it) true => Some it | _ => None end) o.

Definition refused (o : list shown) : list queued :=
  omap (fun x => match x with SSent (Some it) false => Some it | _ => None end) o.

Definition taken (o : list shown) : list queued :=
  omap (fun x => match x with SWrote it _ _ | SLost it => Some it | _ => None end) o.

Definition of_author (a : string) (l : list queued) : list queued := filter (fun it => qd_author it = a) l.

Definition written (o : list shown) : list queued :=
  omap (fun x => match x with SWrote it _ _ => Some it | _ => None end) o.

Definition lost (o : list shown) : list queued :=
  omap (fun x => match x with SLost it => Some it | _ => None end) o.

(** The packets for [a], each with its writer. *)
Definition packets (a : string) (o : list shown) : list (nat * Packet) :=
  omap (fun x => match x with
                 | SWrote it w p => if bool_decide (qd_author it = a) then Some (w, p) else None
                 | _ => None end) o.

(** ** A speaker's stream *)

Definition packet_of (pt ssrc seq : Z) (silent : bool) (it : queued) : Packet :=
  mkPacket 2 (qd_marker it && silent) pt (seq mod 65536) (qd_timestamp it) ssrc (fun _ => []) (qd_payload it).

(** Whether the last frame was comfort noise, or there was none. *)
Definition silent_after (l : list queued) : bool := match last l with Some it => negb (qd_marker it) | None => true end.

(** The stream of the frames [l]: the [k]-th packet carries number [k] modulo
    65536, the frame's own timestamp and bytes, and the marker exactly when the
    frame is voice and none came before it or the one before it was noise. *)
Definition render (pt ssrc : Z) (l : list queued) : list Packet :=
  imap (fun k it => packet_of pt ssrc (Z.of_nat k + 1) (silent_after (take k l)) it) l.

Lemma render_snoc pt ssrc l it :
  render pt ssrc (l ++ [it])
  = (render pt ssrc l ++ [packet_of pt ssrc (Z.of_nat (length l) + 1) (silent_after l) it])%list.
Proof.
  unfold render. rewrite imap_app. f_equal.
  - apply imap_ext. intros k x Hk. f_equal. rewrite take_app_le; [done|]. apply lookup_lt_Some in Hk. lia.
  - cbn [imap]. unfold compose. rewrite Nat.add_0_r, take_app_length. done.
Qed.

(** ** The invariant of a run *)

(** A speaker's track against what was written for them. *)
Definition track_ok (pt : Z) (o : list shown) (a : string) (t : option track) : Prop :=
  match t with
  | None => of_author a (written o) = [] /\ packets a o = []
  | Some t =>
      packets a o = (fun p => (tk_writer t, p)) <$> render pt (tk_ssrc t) (of_author a (written o)) /\
      tk_seq t = Z.of_nat (length (of_author a (written o))) mod 65536 /\
      tk_silent t = silent_after (of_author a (written o))
  end.

Section Facts.
Context `{Wire}.

Record run_ok (cfg : Config) (o : list shown) (s : Sink) : Prop := {
  ok_cfg : sk_cfg s = cfg;
  ok_queue : accepted o = (taken o ++ sk_queue s)%list;
  ok_depth : Z.of_nat (length (sk_queue s)) <= cf_QueueDepth cfg;
  ok_stopped : sk_writing s = false -> sk_done s = true;
  ok_dropped : sk_done s = false -> sk_dropped s = Z.of_nat (length (refused o)) mod two64;
  ok_track : forall a, track_ok (cf_PayloadType cfg) o a (sk_tracks s !! a);
}.

Lemma accepted_app o o' : accepted (o ++ o') = (accepted o ++ accepted o')%list.
Proof. apply omap_app. Qed.
Lemma refused_app o o' : refused (o ++ o') = (refused o ++ refused o')%list.
Proof. apply omap_app. Qed.
Lemma taken_app o o' : taken (o ++ o') = (taken o ++ taken o')%list.
Proof. apply omap_app. Qed.
Lemma written_app o o' : written (o ++ o') = (written o ++ written o')%list.
Proof. apply omap_app. Qed.
Lemma lost_app o o' : lost (o ++ o') = (lost o ++ lost o')%list.
Proof. apply omap_app. Qed.
Lemma packets_app a o o' : packets a (o ++ o') = (packets a o ++ packets a o')%list.
Proof. apply omap_app. Qed.
Lemma of_author_app a l l' : of_author a (l ++ l') = (of_author a l ++ of_author a l')%list.
Proof. apply filter_app. Qed.

Create Rewrite HintDb shown.
#[local] Hint Rewrite accepted_app refused_app taken_app written_app lost_app packets_app of_author_app : shown.

(** What is shown without a packet leaves a track as it was. *)
Lemma track_same pt o x a t : written [x] = [] -> track_ok pt o a t -> track_ok pt (o ++ [x]) a t.
Proof.
  intros Hx. unfold track_ok. autorewrite with shown. rewrite Hx.
  assert (packets a [x] = []) as -> by by destruct x. cbn [of_author filter list_filter]. by rewrite !app_nil_r.
Qed.

(** A packet written on a track. *)
Lemma track_wrote pt o it t :
  track_ok pt o (qd_author it) (Some t) ->
  let t' := mkTrack (tk_writer t) (tk_ssrc t) ((tk_seq t + 1) mod 65536) (negb (qd_marker it)) in
  let p := mkPacket 2 (qd_marker it && tk_silent t) pt (tk_seq t') (qd_timestamp it) (tk_ssrc t) (fun _ => []) (qd_payload it) in
  track_ok pt (o ++ [SWrote it (tk_writer t) p]) (qd_author it) (Some t').
Proof.
  intros (Hp & Hseq & Hsil) t' p. unfold track_ok. autorewrite with shown.
  assert (of_author (qd_author it) (written [SWrote it (tk_writer t) p]) = [it]) as ->.
  { unfold of_author, written. cbn. by rewrite decide_True. }
  assert (packets (qd_author it) [SWrote it (tk_writer t) p] = [(tk_writer t, p)]) as ->.
  { unfold packets. cbn. by rewrite bool_decide_eq_true_2. }
  rewrite render_snoc, fmap_app, Hp, length_app. subst t' p. cbn [length fmap list_fmap tk_writer tk_ssrc tk_seq tk_silent].
  unfold packet_of. rewrite Hseq, Hsil, Zplus_mod_idemp_l. split_and!; [done|do 2 f_equal; lia|].
  unfold silent_after. by rewrite last_snoc.
Qed.

Lemma track_other pt o it w p a t : qd_author it <> a -> track_ok pt o a t -> track_ok pt (o ++ [SWrote it w p]) a t.
Proof.
  intros Hne. unfold track_ok. autorewrite with shown.
  assert (of_author a (written [SWrote it w p]) = []) as -> by (unfold of_author, written; cbn; by rewrite decide_False).
  assert (packets a [SWrote it w p] = []) as -> by (unfold packets; cbn; by rewrite bool_decide_eq_false_2).
  by rewrite !app_nil_r.
Qed.

Lemma send_frame_ok cfg o s f pick :
  run_ok cfg o s -> run_ok cfg (o ++ [SSent (frame_item f) (SendFrame f pick s).1]) (SendFrame f pick s).2.
Proof.
  intros [Hc Hq Hd Hs Hr Ht].
  assert (forall x, written [x] = [] -> forall a, track_ok (cf_PayloadType cfg) (o ++ [x]) a (sk_tracks s !! a)) as Htr
    by (intros; by apply track_same).
  unfold SendFrame. destruct (frame_item f) as [it|] eqn:Ef.
  2: { split; cbn [fst snd]; autorewrite with shown; cbn [accepted refused taken omap list_omap]; rewrite ?app_nil_r; try done. by apply Htr. }
  destruct (Z.ltb_spec (Z.of_nat (length (sk_queue s))) (cf_QueueDepth (sk_cfg s))) as [Hlt|Hge];
    [destruct (sk_done s && pick) eqn:Ep|]; cbn [negb andb].
  2: { split; cbn [fst snd set_queue sk_cfg sk_queue sk_done sk_writing sk_dropped sk_tracks]; autorewrite with shown;
         cbn [accepted refused taken omap list_omap]; rewrite ?app_nil_r; try done.
       - by rewrite Hq, (assoc_L (++)).
       - rewrite length_app. cbn. rewrite Hc in Hlt. lia.
       - by apply Htr. }
  all: destruct (sk_done s) eqn:Ed; [|try done].
  1, 2: split; cbn [fst snd]; autorewrite with shown; cbn [accepted refused taken omap list_omap]; rewrite ?app_nil_r, ?Ed; try done; by apply Htr.
  split; cbn [fst snd set_dropped sk_cfg sk_queue sk_done sk_writing sk_dropped sk_tracks]; autorewrite with shown;
    cbn [accepted refused taken omap list_omap]; rewrite ?app_nil_r, ?Ed; try done; [|by apply Htr].
  intros _. rewrite Hr, length_app by done. cbn [length]. by rewrite Nat2Z.inj_add, Zplus_mod_idemp_l.
Qed.

(** ** The writer's step *)

Lemma trackFor_ok pt o a made ssrc s :
  (forall b, track_ok pt o b (sk_tracks s !! b)) ->
  let '(t, s') := trackFor a made ssrc s in
  (forall b, track_ok pt o b (sk_tracks s' !! b)) /\ sk_tracks s' !! a = t /\
  sk_cfg s' = sk_cfg s /\ sk_queue s' = sk_queue s /\ sk_done s' = sk_done s /\ sk_writing s' = sk_writing s /\
  sk_dropped s' = sk_dropped s.
Proof.
  intros Ht. unfold trackFor. destruct (sk_tracks s !! a) as [t|] eqn:E; [done|].
  destruct made; cbn [negb]; [|done]. destruct ssrc as [n|]; [|done].
  cbn [set_track set_made sk_tracks sk_cfg sk_queue sk_done sk_writing sk_dropped]. split_and!; try done; [|by rewrite lookup_insert_eq].
  intros b. destruct (decide (b = a)) as [->|Hne]; [|by rewrite lookup_insert_ne].
  rewrite lookup_insert_eq. specialize (Ht a). rewrite E in Ht. destruct Ht as [Hw Hp]. unfold track_ok. by rewrite Hw, Hp.
Qed.

Lemma write_ok cfg o s it q made ssrc :
  run_ok cfg o s -> sk_queue s = it :: q ->
  match write it made ssrc (set_queue q s) with
  | (Some (w, p), s') => run_ok cfg (o ++ [SWrote it w p]) s'
  | (None, s') => run_ok cfg (o ++ [SLost it]) s'
  end.
Proof.
  intros [Hc Hq Hd Hs Hr Ht] Hqe. unfold write.
  pose proof (trackFor_ok (cf_PayloadType cfg) o (qd_author it) made ssrc (set_queue q s) Ht) as Hf.
  destruct (trackFor _ _ _ _) as [[t|] s']; destruct Hf as (Ht' & Hat & E1 & E2 & E3 & E4 & E5);
    cbn [set_queue sk_cfg sk_queue sk_done sk_writing sk_dropped] in *; rewrite Hqe in Hq, Hd; cbn [length] in Hd.
  - split; cbn [set_track sk_cfg sk_queue sk_done sk_writing sk_dropped sk_tracks]; autorewrite with shown;
      cbn [accepted refused taken omap list_omap]; rewrite ?app_nil_r, ?E1, ?E2, ?E3, ?E4, ?E5; try done; [|lia|].
    + rewrite Hq. by rewrite <- (assoc_L (++)).
    + intros a. destruct (decide (a = qd_author it)) as [->|Hne].
      * rewrite lookup_insert_eq, Hc. apply (track_wrote _ _ _ t). by rewrite <- Hat.
      * rewrite lookup_insert_ne by done. by apply track_other.
  - split; autorewrite with shown; cbn [accepted refused taken omap list_omap]; rewrite ?app_nil_r, ?E1, ?E2, ?E3, ?E4, ?E5; try done; [|lia|].
    + rewrite Hq. by rewrite <- (assoc_L (++)).
    + intros a. by apply track_same.
Qed.

Lemma sink_step_ok cfg o s a o' s' : run_ok cfg o s -> sink_step a s = Some (o', s') -> run_ok cfg (o ++ o') s'.
Proof.
  intros HI. destruct a as [f pick|made ssrc| |]; cbn [sink_step].
  - pose proof (send_frame_ok cfg o s f pick HI) as Hs. destruct (SendFrame f pick s) as [ok s1]. by intros [= <- <-].
  - destruct (sk_writing s); cbn [negb]; [|done]. destruct (sk_queue s) as [|it q] eqn:Eq; [done|].
    pose proof (write_ok cfg o s it q made ssrc HI Eq) as Hw. destruct (write _ _ _ _) as [[[w p]|] s1]; by intros [= <- <-].
  - destruct (sk_writing s && sk_done s) eqn:E; [|done]. intros [= <- <-]. rewrite app_nil_r. apply andb_true_iff in E as [_ E].
    by destruct HI.
  - intros [= <- <-]. rewrite app_nil_r. destruct HI. split; done.
Qed.

Lemma sink_run_ok cfg l o s o' s' : run_ok cfg o s -> sink_run l s = Some (o', s') -> run_ok cfg (o ++ o') s'.
Proof.
  revert o s o'. induction l as [|a l IH]; intros o s o' HI; cbn [sink_run].
  - intros [= <- <-]. by rewrite app_nil_r.
  - destruct (sink_step a s) as [[o1 s1]|] eqn:E; cbn [mbind option_bind]; [|done].
    destruct (sink_run l s1) as [[o2 s2]|] eqn:E2; cbn [mbind option_bind]; [|done]. intros [= <- <-].
    rewrite (assoc_L (++)). eapply IH; [by eapply sink_step_ok|done].
Qed.

Lemma New_ok cfg s : New cfg = Some s -> run_ok (with_defaults cfg) [] s.
Proof.
  unfold New. destruct (cf_NewTrack cfg); cbn [negb]; [|done]. intros [= <-]. split; try done.
  cbn [sk_queue length with_defaults cf_QueueDepth]. destruct (Z.ltb_spec (cf_QueueDepth cfg) 1); [done|lia].
Qed.

(** The written frames are the taken ones, less the lost ones. *)
Lemma written_taken o : written o `sublist_of` taken o /\ (lost o = [] -> written o = taken o).
Proof.
  induction o as [|x o [IH1 IH2]]; [done|].
  change (x :: o) with ([x] ++ o)%list. autorewrite with shown.
  destruct x; cbn [written taken lost omap list_omap app]; auto.
  - split; [by constructor|]. intros Hl. by rewrite IH2.
  - split; [by constructor|done].
Qed.

(** C25: whatever the interleaving of the room's sends, the writer and [Close]:
    the frames accepted are those taken by the writer, in order, followed by
    those still queued, never more than the queue's depth; and a speaker's
    packets, all on one writer and SSRC, are the stream of their written frames:
    numbered one by one modulo 65536, with the author's timestamp and bytes and
    the marker on the first voice after noise.  A frame that was taken is written
    unless its track could not be made; a frame refused before [Close] is
    counted. *)
Theorem sink_faithful cfg s0 l o s :
  New cfg = Some s0 -> sink_run l s0 = Some (o, s) ->
  accepted o = (taken o ++ sk_queue s)%list /\ Z.of_nat (length (sk_queue s)) <= cf_QueueDepth (sk_cfg s) /\
  (written o `sublist_of` taken o) /\ (lost o = [] -> written o = taken o) /\
  (sk_done s = false -> Dropped s = Z.of_nat (length (refused o)) mod two64) /\
  forall a, exists w ssrc,
    packets a o = (fun p => (w, p)) <$> render (cf_PayloadType (sk_cfg s)) ssrc (of_author a (written o)).
Proof.
  intros Hn Hr. pose proof (sink_run_ok _ _ _ _ _ _ (New_ok _ _ Hn) Hr) as [Hc Hq Hd _ Hdr Ht]. cbn [app] in *.
  destruct (written_taken o) as [Hw1 Hw2]. split_and!; try done; [by rewrite Hc|].
  intros a. specialize (Ht a). rewrite Hc. destruct (sk_tracks s !! a) as [t|]; destruct Ht as [Hp Hx].
  - exists (tk_writer t), (tk_ssrc t). done.
  - exists 0%nat, 0. by rewrite Hx, Hp.
Qed.

(** ** From RTP to RTP *)

(** What the frame codec is documented to do: the header and bytes of an encoded
    frame are read back, and the flag says whether a header marks noise. *)
Class WireLaws := {
  payload_encode h p : p <> [] -> FramePayload (EncodeFrame h p) = (Some h, p);
  IsDTX_flag h : IsDTX h = negb (Z.land (fh_Flags h) FlagDTX =? 0);
  FlagDTX_pos : 0 < FlagDTX;
}.

(** Audio that a peer sends over RTP reaches the other peers' tracks as it
    was: the frame made of a packet with audio is queued, when there is room,
    with the packet's timestamp and bytes, and as voice exactly unless the
    packet's level extension says there is none. *)
Theorem bridge_verbatim `{!WireLaws} p ext author s :
  pk_Payload p <> [] -> sk_done s = false -> Z.of_nat (length (sk_queue s)) < cf_QueueDepth (sk_cfg s) ->
  exists frame, FrameFromRTP p ext = Some frame /\
    SendFrame (mkFrame author frame) false s
    = (true, set_queue (sk_queue s ++
        [mkQueued author (pk_Timestamp p)
           (match AudioLevel p ext with Some (_, voice) => voice | None => true end) (pk_Payload p)]) s).
Proof.
  intros Hp Hd Hroom. unfold FrameFromRTP. destruct (pk_Payload p) as [|b pl] eqn:Epl; [done|]. eexists. split; [reflexivity|].
  unfold SendFrame, frame_item. cbn [fr_Client fr_Author]. rewrite payload_encode by done.
  rewrite Hd. apply Z.ltb_lt in Hroom. rewrite Hroom. cbn [andb negb]. rewrite IsDTX_flag.
  destruct (AudioLevel p ext) as [[level [|]]|]; cbn [fh_Ts48k fh_Flags]; rewrite ?Z.land_0_l, ?Z.lor_0_l, ?Z.land_diag; try done.
  pose proof FlagDTX_pos. by destruct (Z.eqb_spec FlagDTX 0); [lia|].
Qed.

End Facts.

(** ** On a concrete codec *)

(** Four numbers before the audio. *)
Definition ex_wire : Wire := {|
  LevelSilenceFloor := -127;
  FlagDTX := 1;
  ClampLevel l := Z.max (-127) (Z.min 0 l);
  IsDTX h := negb (Z.land (fh_Flags h) 1 =? 0);
  EncodeFrame h p := fh_Seq h :: fh_Ts48k h :: fh_LevelDbov h :: fh_Flags h :: p;
  FramePayload f := match f with a :: b :: c :: d :: p => (Some (mkHeader a b c d), p) | p => (None, p) end;
|}.

#[local] Existing Instance ex_wire.

#[local] Instance ex_wire_laws : WireLaws.
Proof. by split; [intros []| |]. Qed.

Definition ex_config : Config := mkConfig true 0 2.

(** Two frames of noise and voice by one speaker, one of another; the queue holds
    two, so the third waits for the writer and a fourth is dropped. *)
Definition ex_frame (a : string) (ts flags : Z) : Frame := mkFrame a [1; ts; -20; flags; 42].

Definition ex_actions : list action :=
  [ASend (ex_frame "a" 960 1) false; ASend (ex_frame "b" 10 0) false; ASend (ex_frame "a" 1920 0) false;
   AWrite true (Some 7); ASend (ex_frame "a" 2880 0) false; AWrite true (Some 8); AWrite true None; AClose; AStop].

Definition ex_run : list shown * Sink :=
  default ([], mkSink ex_config [] false true 0 ∅ 0) (New ex_config ≫= sink_run ex_actions).

Lemma sink_faithful_witness :
  length (accepted ex_run.1) = 3%nat /\ length (refused ex_run.1) = 1%nat /\
  accepted ex_run.1 = (taken ex_run.1 ++ sk_queue ex_run.2)%list.
Proof.
  split; [vm_compute; reflexivity|]. split; [vm_compute; reflexivity|].
  refine (proj1 (sink_faithful (H := ex_wire) ex_config (mkSink (with_defaults ex_config) [] false true 0 ∅ 0) ex_actions
    ex_run.1 ex_run.2 _ _)).
  - reflexivity.
  - vm_compute. reflexivity.
Defined.

(** Voice after noise is marked, with the next number. *)
Lemma sink_marks_voice :
  (fun wp => (pk_SequenceNumber wp.2, pk_Marker wp.2, pk_Timestamp wp.2)) <$> packets "a" ex_run.1
  = [(1, false, 960); (2, true, 2880)].
Proof. vm_compute. reflexivity. Qed.

Definition ex_packet : Packet := mkPacket 2 false 111 5 4800 1 (fun id => if id =? 3 then [20] else []) [1; 2; 3].

Lemma bridge_verbatim_witness :
  exists frame, FrameFromRTP ex_packet 3 = Some frame /\
    SendFrame (mkFrame "a" frame) false (mkSink ex_config [] false true 0 ∅ 0)
    = (true, set_queue [mkQueued "a" 4800 false [1; 2; 3]] (mkSink ex_config [] false true 0 ∅ 0)).
Proof.
  apply (bridge_verbatim ex_packet 3 "a" (mkSink ex_config [] false true 0 ∅ 0)).
  - discriminate.
  - reflexivity.
  - vm_compute. reflexivity.
Defined.
