(* ===== verification/HuddleSfu.v ===== *)
(** * Serving a huddle to WebRTC peers: sessions and video

    Models [src/huddle/sfu]: the endpoint's checks ([sfu.go]), the handshake and
    lifetime of a session ([session.go]) and the video forwarded among the peers
    of a room ([video.go]).  Negotiation is in [HuddleNegotiation].  The
    WebSocket, the room manager, nip42 and the WebRTC library are parameters or
    given by their outcomes. *)
From S2P Require Import Prelude GoTime GoStrings Nostr HuddleRtp.
From stdpp Require Import options.

Local Open Scope Z_scope.

(** ** The endpoint *)

Definition DefaultAuthTimeout : Z := 5 * Second.
Definition DefaultWriteTimeout : Z := 10 * Second.

Definition authTimeout (d : Z) : Z := if d <=? 0 then DefaultAuthTimeout else d.
Definition writeTimeout (d : Z) : Z := if d <=? 0 then DefaultWriteTimeout else d.

Inductive code :=
| CodeAuthFailed | CodeJoinRejected | CodeRoomFull | CodeRoomEnded | CodeUpgradeRequired
| CodeRoomUnavailable | CodeAudioUnavailable | CodeNegotiationFailed.

#[export] Instance code_eq_dec : EqDecision code.
Proof. solve_decision. Defined.

(** [checkOrigin]; [host] is the host of the parsed origin, when it parses. *)
Definition checkOrigin (host : string -> option string) (origin : string) (allowed : list string) : bool :=
  if is_empty origin || bool_decide (allowed = []) then true else
  match host origin with
  | None => false
  | Some h => existsb (fun a => String.eqb a "*" || EqualFold a origin || EqualFold a h) allowed
  end.

(** [ServeHTTP] before the upgrade: the status of a refusal. *)
Definition ServeHTTP_refusal (roomID : string) (rooms : bool) : option Z :=
  if is_empty roomID then Some 400 else if negb rooms then Some 503 else None.

(** ** Video *)

(** [videoHub]: the sessions of each room. *)
Abbreviation videoHub := (gmap string (gset nat)).

Definition hub_join (roomID : string) (s : nat) (h : videoHub) : videoHub :=
  <[roomID := {[s]} ∪ default ∅ (h !! roomID)]> h.

Definition hub_leave (roomID : string) (s : nat) (h : videoHub) : videoHub :=
  let left := default ∅ (h !! roomID) ∖ {[s]} in
  if bool_decide (left = ∅) then delete roomID h else <[roomID := left]> h.

Definition subscribers (roomID : string) (except : nat) (h : videoHub) : gset nat :=
  default ∅ (h !! roomID) ∖ {[except]}.

Record publication := mkPublication {
  pb_Publisher : string;
  pb_TrackID : string;
  pb_StreamID : string;
  pb_Codec : string;
  pb_SSRC : Z;
  pb_owner : nat;
}.

Definition pub_key (p : publication) : string := pb_Publisher p ++ "/" ++ pb_TrackID p.

Definition keyframeInterval : Z := 500 * Millisecond.

(** [subscription]; its track is identified by the labels it was made with. *)
Record subscription := mkSubscription {
  sb_track : string * string * string;     (* codec, track id, stream id *)
  sb_owner : option nat;
  sb_ssrc : Z;
  sb_lastRequest : Z;
  sb_heardFromPeer : bool;
}.

Definition adopt (p : publication) (b : subscription) : bool * subscription :=
  if bool_decide (sb_owner b = Some (pb_owner p)) && (sb_ssrc b =? pb_SSRC p) then (false, b)
  else (true, mkSubscription (sb_track b) (Some (pb_owner p)) (pb_SSRC p) (sb_lastRequest b) (sb_heardFromPeer b)).

(** [requestKeyframe] of a subscription: the session asked, for which SSRC. *)
Definition requestKeyframe (force : bool) (now : Z) (b : subscription) : option (nat * Z) * subscription :=
  if negb force && (Time_Sub now (sb_lastRequest b) <? keyframeInterval) then (None, b)
  else ((fun o => (o, sb_ssrc b)) <$> sb_owner b,
        mkSubscription (sb_track b) (sb_owner b) (sb_ssrc b) now (sb_heardFromPeer b)).

(** What a subscriber keeps: [videoTracks]. *)
Abbreviation videoTracks := (gmap string subscription).

(** [subscriptionFor]; [made] and [added] say whether the track can be made and
    added.  A fresh one is renegotiated. *)
Definition subscriptionFor (made added : bool) (p : publication) (v : videoTracks) : option (subscription * bool) * videoTracks :=
  match v !! pub_key p with
  | Some b => (Some (b, false), v)
  | None =>
      if negb made || negb added then (None, v)
      else let b := mkSubscription (pb_Codec p, pb_TrackID p, pb_StreamID p) None 0 0 false in
           (Some (b, true), <[pub_key p := b]> v)
  end.

(** [writeVideo]: the keyframe asked for, and the track the packet goes to. *)
Definition writeVideo (made added : bool) (now : Z) (p : publication) (v : videoTracks)
    : option (nat * Z) * option (string * string * string) * videoTracks :=
  match subscriptionFor made added p v with
  | (None, v) => (None, None, v)
  | (Some (b, fresh), v) =>
      let '(moved, b) := adopt p b in
      let '(req, b) := if fresh || moved then requestKeyframe true now b else (None, b) in
      (req, Some (sb_track b), <[pub_key p := b]> v)
  end.

(** One packet of a publisher's track, to every other session of the room:
    each subscriber has its own luck and clock. *)
Definition forwardVideo (luck : nat -> bool * bool * Z) (roomID : string) (p : publication) (h : videoHub)
    (vs : gmap nat videoTracks) : gmap nat videoTracks * gmap nat (option (string * string * string)) :=
  let one (s : nat) (v : videoTracks) := let '(made, added, now) := luck s in writeVideo made added now p v in
  let subs := subscribers roomID (pb_owner p) h in
  (map_imap (fun s v => Some (if bool_decide (s ∈ subs) then (one s v).2 else v)) vs,
   map_imap (fun s v => if bool_decide (s ∈ subs) then Some (one s v).1.2 else None) vs).

(** A subscriber's feedback: a picture is lost, or anything else. *)
Inductive feedback := PictureLoss | FullIntra | OtherFeedback.

Definition wants_keyframe (f : feedback) : bool := match f with OtherFeedback => false | _ => true end.

(** The requests for a batch of feedback read at [now]. *)
Fixpoint request_all (now : Z) (fs : list feedback) (b : subscription) : list (nat * Z) * subscription :=
  match fs with
  | [] => ([], b)
  | f :: fs =>
      if wants_keyframe f then
        let '(r, b) := requestKeyframe false now b in
        let '(rs, b) := request_all now fs b in (option_list r ++ rs, b)
      else request_all now fs b
  end%list.

(** [readSubscriberRTCP]: one batch. *)
Definition readSubscriberRTCP (now : Z) (fs : list feedback) (b : subscription) : list (nat * Z) * subscription :=
  let first := negb (sb_heardFromPeer b) in
  let b := mkSubscription (sb_track b) (sb_owner b) (sb_ssrc b) (sb_lastRequest b) true in
  if first then let '(r, b) := requestKeyframe true now b in (option_list r, b)
  else request_all now fs b.

(** ** Audio from a peer *)

Section Inbound.
Context `{Wire} (ValidClientFrame : Z -> list Z -> bool).

(** The negotiated id of the level extension; an id is cut to eight bits. *)
Definition level_id (exts : list (string * Z)) : Z :=
  match list_find (fun e => e.1 = AudioLevelExtensionURI) exts with
  | Some (_, e) => e.2 mod 256
  | None => 0
  end.

(** [publishInbound]: what one packet broadcasts. *)
Definition publishInbound (version : Z) (exts : list (string * Z)) (p : Packet) : option (list Z) :=
  match FrameFromRTP p (level_id exts) with
  | None => None
  | Some frame => if ValidClientFrame version frame then Some frame else None
  end.

End Inbound.

(** ** A session's life *)

(** [room.PeerInfo], and what is said of it. *)
Record PeerInfo := mkPeerInfo { pi_Pubkey : string; pi_Index : Z; pi_Epoch : Z }.

Record peerMessage := mkPeerMessage { pm_Pubkey : string; pm_PeerIndex : Z; pm_Epoch : Z }.

Definition rosterMessages (peers : list PeerInfo) : list peerMessage :=
  (fun p => mkPeerMessage (pi_Pubkey p) (pi_Index p) (pi_Epoch p)) <$> peers.

Record Roster := mkRoster { rs_Revision : Z; rs_Peers : list PeerInfo }.

(** What the server writes to a client or has the room broadcast. *)
Inductive signal :=
| GChallenge (challenge : string)
| GError (c : code) (text : string) (current : option Z)
| GJoined (revision : Z) (pubkey : string) (index epoch : Z) (peers : list peerMessage)
| GLeft (revision : Z) (pubkey : string) (index epoch : Z).

(** A message of the client before it is in: an auth, another, or one that
    cannot be read. *)
Inductive inbound := IAuth (ev : option Event) (version : option Z) | IOther | IError.

(** [readAuth] *)
Fixpoint readAuth (msgs : list inbound) : option (option Event * option Z) :=
  match msgs with
  | IAuth ev v :: _ => Some (ev, v)
  | IOther :: msgs => readAuth msgs
  | IError :: _ | [] => None
  end.

Inductive join_error := ErrRoomFull | ErrRoomEnded | ErrUpgradeRequired | ErrBadVersion | ErrTooManyRooms | ErrJoinOther.

(** [writeJoinError]; [current] is the room's version, when the room is there. *)
Definition writeJoinError (CurrentProtocolVersion : Z) (current : option Z) (e : join_error) : signal :=
  match e with
  | ErrRoomFull => GError CodeRoomFull "room participant capacity reached" None
  | ErrRoomEnded => GError CodeRoomEnded "huddle has ended" None
  | ErrUpgradeRequired => GError CodeUpgradeRequired "huddle audio protocol version not supported by this room" current
  | ErrBadVersion => GError CodeUpgradeRequired "unsupported huddle audio protocol version" (Some CurrentProtocolVersion)
  | ErrTooManyRooms => GError CodeRoomUnavailable "relay is hosting too many rooms" None
  | ErrJoinOther => GError CodeJoinRejected "join rejected" None
  end.

(** nip42 and the event's check. *)
Class Admission := {
  ValidateAuthEvent : Z -> list (list string) -> Z -> string -> string -> bool;
  VerifyEvent : Event -> bool;
  DefaultProtocolVersion : Z;
  CurrentProtocolVersion : Z;
}.

(** What a session holds. *)
Record held := mkHeld {
  hd_pc : bool;          (* an open peer connection *)
  hd_sink : bool;        (* a running writer goroutine *)
  hd_peer : option PeerInfo;   (* a place in the room *)
  hd_hub : bool;         (* a place among the room's video peers *)
}.

Definition nothing : held := mkHeld false false None false.

(** The session's surroundings: the configuration, the client's messages, and
    what its steps come to.  [su_join] is the answer of [Rooms.Join] (the peer's
    index and epoch, and the roster), [su_leftRevision] the roster's revision
    after the peer left, [su_roomVersion] what [Rooms.Get] finds; the last two
    say whether the challenge and the joined message are written. *)
Record surroundings := mkSurroundings {
  su_enabled : bool;
  su_relayURL : string;
  su_roomID : string;
  su_challenge : string;
  su_messages : list inbound;
  su_authorize : option (string -> string -> bool);
  su_newPC : bool;
  su_join : string -> Z -> result join_error (Z * Z * Roster);
  su_leftRevision : Z;
  su_roomVersion : option Z;
  su_writeChallenge : bool;
  su_writeJoined : bool;
}.

Section Session.
Context `{Admission}.

(** The steps after the client is authenticated as [pubkey]. *)
Definition handshake_join (e : surroundings) (pubkey : string) (version : Z) : bool * held * list signal * list signal :=
  if match su_authorize e with Some ok => negb (ok (su_roomID e) pubkey) | None => false end
  then (false, nothing, [GError CodeJoinRejected "not permitted to join this room" None], [])
  else if negb (su_newPC e)
  then (false, nothing, [GError CodeNegotiationFailed "could not create a peer connection" None], [])
  else match New (mkConfig true 0 0) with
       | None => (false, mkHeld true false None false, [GError CodeNegotiationFailed "could not build the audio sink" None], [])
       | Some _ =>
           match su_join e pubkey version with
           | Err err => (false, mkHeld true true None false,
                         [writeJoinError CurrentProtocolVersion (su_roomVersion e) err], [])
           | Ok (index, epoch, roster) =>
               let h := mkHeld true true (Some (mkPeerInfo pubkey index epoch)) true in
               let joined := GJoined (rs_Revision roster) pubkey index epoch (rosterMessages (rs_Peers roster)) in
               if su_writeJoined e then (true, h, [joined], [joined]) else (false, h, [], [])
           end
       end.

(** [handshake]: whether the peer is in, what is held then, what was written to
    the client and what the room's others are sent ([announceJoin]). *)
Definition handshake (e : surroundings) : bool * held * list signal * list signal :=
  if negb (su_writeChallenge e) then (false, nothing, [], []) else
  let out := [GChallenge (su_challenge e)] in
  let fail := (false, nothing, (out ++ [GError CodeAuthFailed "auth failed" None])%list, []) in
  match readAuth (su_messages e) with
  | None => (false, nothing, out, [])
  | Some (None, _) => (false, nothing, (out ++ [GError CodeAuthFailed "auth event is missing" None])%list, [])
  | Some (Some ev, version) =>
      if negb (ValidateAuthEvent (ev_Kind ev) (ev_Tags ev) (ev_CreatedAt ev) (su_challenge e) (su_relayURL e)) then fail
      else if negb (VerifyEvent ev) then fail
      else let '(ok, h, out', told) := handshake_join e (ev_PubKey ev) (default DefaultProtocolVersion version) in
           (ok, h, (out ++ out')%list, told)
  end.

(** [teardown]: what is left, and what the room's others are sent. *)
Definition teardown (leftRevision : Z) (h : held) : held * list signal :=
  (nothing, match hd_peer h with
            | Some p => [GLeft leftRevision (pi_Pubkey p) (pi_Index p) (pi_Epoch p)]
            | None => []
            end).

(** [run]: what is still held when it returns, what was written to the client and
    what the others were sent. *)
Definition run (e : surroundings) : held * list signal * list signal :=
  if negb (su_enabled e)
  then (nothing, [GError CodeAudioUnavailable "this relay does not serve huddle audio" None], [])
  else match handshake e with
       | (false, h, out, told) => (h, out, told)
       | (true, h, out, told) => let '(h, bye) := teardown (su_leftRevision e) h in (h, out, (told ++ bye)%list)
       end.

End Session.
