(* ===== verification/HuddleSfuFacts.v ===== *)
(** * Serving a huddle to WebRTC peers: admission, rooms and keyframes

    Who is let in and what is held afterwards ([session_admits], with
    [joined_write_leaves_peer] for what is not given back); who receives a
    packet of video ([video_to_others]); how often a publisher is asked for a
    keyframe ([keyframes_throttled]). *)
From S2P Require Import Prelude GoTime GoStrings Nostr HuddleRtp HuddleSfu.
From stdpp Require Import options.
From Stdlib Require Import Sorted.

Local Open Scope Z_scope.

(** ** The sessions of a room *)

(** Sessions come and go; the hub should hold the pairs that are there. *)
Inductive presence := Joins (roomID : string) (s : nat) | Leaves (roomID : string) (s : nat).

Definition hub_step (h : videoHub) (x : presence) : videoHub :=
  match x with Joins r s => hub_join r s h | Leaves r s => hub_leave r s h end.

Definition there_step (m : gset (string * nat)) (x : presence) : gset (string * nat) :=
  match x with Joins r s => {[(r, s)]} ∪ m | Leaves r s => m ∖ {[(r, s)]} end.

(** The hub holds exactly [m], and no empty room. *)
Record hub_ok (m : gset (string * nat)) (h : videoHub) : Prop := {
  ho_in : forall r s, s ∈ default ∅ (h !! r) <-> (r, s) ∈ m;
  ho_empty : forall r, h !! r <> Some ∅;
}.

Lemma hub_step_ok m h x : hub_ok m h -> hub_ok (there_step m x) (hub_step h x).
Proof.
  intros [Hin Hne]. destruct x as [r s|r s]; cbn [hub_step there_step].
  - unfold hub_join. split.
    + intros r' s'. destruct (decide (r' = r)) as [->|Hr]; [rewrite lookup_insert_eq|rewrite lookup_insert_ne by done]; cbn;
        [rewrite elem_of_union, Hin|rewrite Hin]; set_solver.
    + intros r'. destruct (decide (r' = r)) as [->|Hr]; [rewrite lookup_insert_eq|by rewrite lookup_insert_ne].
      intros [= E]. set_solver.
  - unfold hub_leave. set (l := default ∅ (h !! r) ∖ {[s]}). assert (forall s', s' ∈ l <-> (r, s') ∈ m /\ s' <> s) as Hl.
    { intros s'. subst l. rewrite elem_of_difference, Hin, not_elem_of_singleton. done. }
    case_bool_decide as E.
    + split.
      * intros r' s'. destruct (decide (r' = r)) as [->|Hr]; [rewrite lookup_delete_eq|rewrite lookup_delete_ne, Hin by done; set_solver].
        cbn. rewrite E in Hl. specialize (Hl s'). set_solver.
      * intros r'. destruct (decide (r' = r)) as [->|Hr]; [by rewrite lookup_delete_eq|by rewrite lookup_delete_ne].
    + split.
      * intros r' s'. destruct (decide (r' = r)) as [->|Hr]; [rewrite lookup_insert_eq|rewrite lookup_insert_ne, Hin by done; set_solver].
        cbn. rewrite Hl. set_solver.
      * intros r'. destruct (decide (r' = r)) as [->|Hr]; [rewrite lookup_insert_eq; congruence|by rewrite lookup_insert_ne].
Qed.

Lemma hub_run_ok xs : hub_ok (fold_left there_step xs ∅) (fold_left hub_step xs ∅).
Proof.
  induction xs as [|x xs IH] using rev_ind.
  - split; [|by intros r]. intros r s. cbn. rewrite lookup_empty. set_solver.
  - rewrite !fold_left_app. by apply hub_step_ok.
Qed.

(** ** Who receives video *)

(** After any joins and leaves, a packet of a publisher's video is written
    for exactly the other sessions that are in the room, each on a track that
    carries the publisher's own codec, track and stream labels, or not at all
    when its track cannot be made; everyone else's tracks are untouched, the
    publisher's included, and rooms nobody is in are forgotten. *)
Theorem video_to_others xs luck roomID p vs vs' sent :
  (forall s b, vs !! s = Some b -> forall k x, b !! k = Some x ->
     exists q, pub_key q = k /\ sb_track x = (pb_Codec q, pb_TrackID q, pb_StreamID q)) ->
  let there := fold_left there_step xs ∅ in
  let h := fold_left hub_step xs ∅ in
  forwardVideo luck roomID p h vs = (vs', sent) ->
  (forall s, is_Some (sent !! s) <-> is_Some (vs !! s) /\ (roomID, s) ∈ there /\ s <> pb_owner p) /\
  (forall s t, sent !! s = Some (Some t) -> exists q, pub_key q = pub_key p /\ t = (pb_Codec q, pb_TrackID q, pb_StreamID q)) /\
  (forall s, sent !! s = None -> vs' !! s = vs !! s) /\
  (forall r, (forall s, (r, s) ∉ there) -> h !! r = None).
Proof.
  intros Hvs there h. unfold forwardVideo. cbv zeta. intros [= <- <-]. pose proof (hub_run_ok xs) as [Hin Hne]. fold there h in Hin, Hne.
  assert (forall s, s ∈ subscribers roomID (pb_owner p) h <-> (roomID, s) ∈ there /\ s <> pb_owner p) as Hsub.
  { intros s. unfold subscribers. by rewrite elem_of_difference, not_elem_of_singleton, Hin. }
  split_and!.
  - intros s. rewrite map_lookup_imap. destruct (vs !! s) as [v|]; cbn; [|split; [by intros []|by intros [[] _]]].
    case_bool_decide as E; rewrite Hsub in E; [|split; [by intros []|tauto]]. split; eauto.
  - intros s t. rewrite map_lookup_imap. destruct (vs !! s) as [v|] eqn:Ev; cbn; [|done]. case_bool_decide; [|done].
    destruct (luck s) as [[made added] now]. unfold writeVideo, subscriptionFor.
    destruct (v !! pub_key p) as [b|] eqn:Eb.
    + destruct (Hvs s v Ev _ _ Eb) as (q & Hq & Ht). unfold adopt, requestKeyframe. cbn [negb andb orb].
      destruct (_ && _); cbn [fst snd]; cbn; intros [= <-]; eauto.
    + destruct (negb made || negb added); [done|]. unfold adopt, requestKeyframe. cbn. intros [= <-]. eauto.
  - intros s. rewrite !map_lookup_imap. destruct (vs !! s) as [v|]; cbn; [|done]. by case_bool_decide.
  - intros r Hr. destruct (h !! r) as [m|] eqn:E; [|done]. exfalso. apply (Hne r). rewrite E. f_equal. apply set_eq. intros s.
    specialize (Hin r s). rewrite E in Hin. cbn in Hin. specialize (Hr s). set_solver.
Qed.

(** ** Keyframe requests *)

(** What happens to a subscription: a packet of a publication arrives, or a batch
    of feedback. *)
Inductive watch := Arrives (p : publication) | Feedback (fs : list feedback).

(** The requests made at a moment, and whether each was forced. *)
Definition watch_step (fresh : bool) (now : Z) (w : watch) (b : subscription) : list (Z * bool) * subscription :=
  match w with
  | Arrives p =>
      let '(moved, b) := adopt p b in
      if fresh || moved then let '(r, b) := requestKeyframe true now b in (const (now, true) <$> option_list r, b) else ([], b)
  | Feedback fs =>
      let '(rs, b') := readSubscriberRTCP now fs b in (const (now, negb (sb_heardFromPeer b)) <$> rs, b')
  end.

Fixpoint watch_run (l : list (Z * watch)) (b : subscription) : list (Z * bool) * subscription :=
  match l with
  | [] => ([], b)
  | (now, w) :: l => let '(rs, b) := watch_step false now w b in let '(rs', b) := watch_run l b in ((rs ++ rs')%list, b)
  end.

(** A request that was not forced comes an interval after every earlier one. *)
Definition spaced (rs : list (Z * bool)) : Prop :=
  forall i j t t' f, rs !! i = Some (t', f) -> rs !! j = Some (t, false) -> (i < j)%nat -> keyframeInterval <= t - t'.

(** All requests so far, the last at most at the recorded time. *)
Record watch_ok (now : Z) (rs : list (Z * bool)) (b : subscription) : Prop := {
  wo_last : Forall (fun r => r.1 <= sb_lastRequest b) rs;
  wo_now : Forall (fun r => r.1 <= now) rs;
  wo_spaced : spaced rs;
}.

Lemma spaced_out_snoc rs t f :
  spaced rs -> (f = false -> Forall (fun r => keyframeInterval <= t - r.1) rs) -> spaced (rs ++ [(t, f)]).
Proof.
  intros Hs Hf i j u u' g Hi Hj Hlt. apply lookup_app_Some in Hj as [Hj|[Hge Hj]].
  - rewrite lookup_app_l in Hi by (apply lookup_lt_Some in Hj; lia). by eapply Hs.
  - apply list_lookup_singleton_Some in Hj as [Hz [= <- ->]]. rewrite lookup_app_l in Hi by lia.
    specialize (Hf eq_refl). rewrite Forall_forall in Hf. apply (Hf (u', g)). by eapply list_elem_of_lookup_2.
Qed.

Lemma request_ok force now rs b :
  watch_ok now rs b ->
  let '(r, b') := requestKeyframe force now b in
  watch_ok now (rs ++ (const (now, force) <$> option_list r)) b' /\ sb_heardFromPeer b' = sb_heardFromPeer b.
Proof.
  intros [Hl Hn Hs]. unfold requestKeyframe. destruct force; cbn [negb andb].
  - destruct (sb_owner b); cbn; rewrite ?app_nil_r; (split; [|done]); split; cbn; rewrite ?Forall_app, ?Forall_singleton; cbn;
      try (split; [done|lia]); try done. by apply spaced_out_snoc.
  - destruct (Z.ltb_spec (Time_Sub now (sb_lastRequest b)) keyframeInterval) as [Hlt|Hge]; cbn [option_list fmap list_fmap];
      [by rewrite app_nil_r|].
    assert (keyframeInterval <= now - sb_lastRequest b) as Hgap.
    { assert (keyframeInterval - 1 < Time_Sub now (sb_lastRequest b)) as Hx by lia.
      apply Time_Sub_gt in Hx; [lia|done|done]. }
    destruct (sb_owner b); cbn; rewrite ?app_nil_r; (split; [|done]); split; cbn; rewrite ?Forall_app, ?Forall_singleton; cbn;
      try (split; [done|lia]); try done.
    apply spaced_out_snoc; [done|]. intros _. eapply Forall_impl; [exact Hl|]. intros r Hr. cbn in *. lia.
Qed.

Lemma watch_ok_same now rs b b' : watch_ok now rs b -> sb_lastRequest b' = sb_lastRequest b -> watch_ok now rs b'.
Proof. intros [Hl Hn Hs] E. split; [by rewrite E|done|done]. Qed.

Lemma request_all_ok now fs rs b :
  watch_ok now rs b ->
  let '(r, b') := request_all now fs b in watch_ok now (rs ++ (const (now, false) <$> r)) b'.
Proof.
  revert rs b. induction fs as [|f fs IH]; intros rs b Hw; cbn [request_all]; [by rewrite app_nil_r|].
  destruct (wants_keyframe f); [|by apply IH]. pose proof (request_ok false now rs b Hw) as Hr.
  destruct (requestKeyframe false now b) as [r b1]. destruct Hr as [Hr _]. specialize (IH _ _ Hr).
  destruct (request_all now fs b1) as [r' b2]. rewrite fmap_app, (assoc_L (++)). done.
Qed.

Lemma watch_step_ok now w rs b :
  watch_ok now rs b -> let '(r, b') := watch_step false now w b in watch_ok now (rs ++ r) b'.
Proof.
  intros Hw. destruct w as [p|fs]; cbn [watch_step orb].
  - unfold adopt. destruct (_ && _); [by rewrite app_nil_r|].
    set (b1 := mkSubscription _ _ _ _ _). pose proof (request_ok true now rs b1 (watch_ok_same now rs b b1 Hw eq_refl)) as Hr.
    destruct (requestKeyframe true now b1) as [r b2]. by destruct Hr.
  - unfold readSubscriberRTCP. set (b1 := mkSubscription _ _ _ _ true). assert (watch_ok now rs b1) as Hw1 by by apply (watch_ok_same now rs b).
    destruct (sb_heardFromPeer b) eqn:E; cbn [negb].
    + pose proof (request_all_ok now fs rs b1 Hw1) as Hr. by destruct (request_all now fs b1).
    + pose proof (request_ok true now rs b1 Hw1) as Hr. destruct (requestKeyframe true now b1) as [r b2]. by destruct Hr.
Qed.

Lemma watch_run_ok l now rs b :
  watch_ok now rs b -> StronglySorted (fun x y => x.1 <= y.1) l -> Forall (fun x => now <= x.1) l ->
  let '(r, _) := watch_run l b in spaced (rs ++ r).
Proof.
  revert now rs b. induction l as [|[t w] l IH]; intros now rs b Hw Hs Hf; cbn [watch_run]; [rewrite app_nil_r; apply Hw|].
  apply StronglySorted_inv in Hs as [Hs Ht]. apply Forall_cons in Hf as [Hle _]. cbn in Hle.
  assert (watch_ok t rs b) as Hw'. { destruct Hw as [H1 H2 H3]. split; [done| |done]. eapply Forall_impl; [exact H2|]. intros x Hx. cbn in *. lia. }
  pose proof (watch_step_ok t w rs b Hw') as Hst. destruct (watch_step false t w b) as [r b1].
  specialize (IH t _ _ Hst Hs Ht). destruct (watch_run l b1) as [r' b2]. by rewrite (assoc_L (++)).
Qed.

(** However often a subscriber complains, its publisher is asked for a
    keyframe at most twice a second: a request made for a complaint comes half a
    second or more after every request before it.  Only the first sign of the
    subscriber and a stream that starts or moves ask at once. *)
Theorem keyframes_throttled l b :
  StronglySorted (fun x y => x.1 <= y.1) l ->
  forall i j t t' f, (watch_run l b).1 !! i = Some (t', f) -> (watch_run l b).1 !! j = Some (t, false) -> (i < j)%nat ->
  500000000 <= t - t'.
Proof.
  intros Hs. set (now := match l with x :: _ => x.1 | [] => 0 end).
  assert (Forall (fun x => now <= x.1) l) as Hf.
  { destruct l as [|x l]; [constructor|]. apply StronglySorted_inv in Hs as [_ Hf]. constructor; [subst now; lia|done]. }
  pose proof (watch_run_ok l now [] b ltac:(by split) Hs Hf) as Hr. destruct (watch_run l b) as [r b']. cbn [fst app] in *. exact Hr.
Qed.

(** ** Admission *)

Section Session.
Context `{Admission}.

(** The client showed itself as [ev] and may join. *)
Record admissible (e : surroundings) (ev : Event) (version : Z) : Prop := {
  ad_auth : exists v, readAuth (su_messages e) = Some (Some ev, v) /\ version = default DefaultProtocolVersion v;
  ad_valid : ValidateAuthEvent (ev_Kind ev) (ev_Tags ev) (ev_CreatedAt ev) (su_challenge e) (su_relayURL e) = true;
  ad_verified : VerifyEvent ev = true;
  ad_authorized : forall ok, su_authorize e = Some ok -> ok (su_roomID e) (ev_PubKey ev) = true;
  ad_pc : su_newPC e = true;
}.

(** Nobody is told that someone joined. *)
Definition no_joined (out : list signal) : Prop := forall rev pk i ep ps, GJoined rev pk i ep ps ∉ out.

Lemma handshake_spec e :
  match handshake e with
  | (ok, h, out, told) =>
      (h = nothing /\ ok = false /\ no_joined out /\ told = []) \/
      exists ev version, admissible e ev version /\
        match su_join e (ev_PubKey ev) version with
        | Err err => ok = false /\ h = mkHeld true true None false /\ no_joined out /\ told = []
        | Ok (i, ep, roster) =>
            let joined := GJoined (rs_Revision roster) (ev_PubKey ev) i ep (rosterMessages (rs_Peers roster)) in
            ok = su_writeJoined e /\ h = mkHeld true true (Some (mkPeerInfo (ev_PubKey ev) i ep)) true /\
            (if su_writeJoined e then out = [GChallenge (su_challenge e); joined] /\ told = [joined] else no_joined out /\ told = [])
        end
  end.
Proof.
  unfold handshake, no_joined. destruct (su_writeChallenge e); cbn [negb]; [|left; set_solver].
  destruct (readAuth (su_messages e)) as [[[ev|] v]|] eqn:Ea; [|left; set_solver..].
  destruct (ValidateAuthEvent _ _ _ _ _) eqn:Ev; cbn [negb]; [|left; set_solver].
  destruct (VerifyEvent ev) eqn:Ef; cbn [negb]; [|left; set_solver].
  set (version := default DefaultProtocolVersion v). unfold handshake_join.
  destruct (match su_authorize e with Some ok => negb (ok (su_roomID e) (ev_PubKey ev)) | None => false end) eqn:Eo; [left; set_solver|].
  destruct (su_newPC e) eqn:Ep; cbn [negb]; [|left; set_solver].
  change (New (mkConfig true 0 0)) with (Some (mkSink (with_defaults (mkConfig true 0 0)) [] false true 0 ∅ 0)). cbv iota beta.
  assert (admissible e ev version) as Had.
  { split; try done; [by exists v|]. intros ok Hok. rewrite Hok in Eo. by apply negb_false_iff in Eo. }
  destruct (su_join e (ev_PubKey ev) version) as [[[i ep] roster]|err] eqn:Ej; [destruct (su_writeJoined e) eqn:Ew|];
    right; exists ev, version; rewrite Ej; (split; [done|]).
  - done.
  - set_solver.
  - split_and!; try done. intros rev pk i ep ps [Hx|Hx]%elem_of_cons; [done|].
    apply list_elem_of_singleton in Hx. by destruct err.
Qed.

(** C23: a peer is told it joined only after it answered this connection's
    challenge with a verified event for this relay, was permitted, and the room
    took it, all under the same key; when [run] returns after that, its place in
    the room and among the video peers, its peer connection and its writer are
    given back, and the others were sent that it joined and that it left, under
    the index and epoch the room gave it.  Otherwise the others hear nothing, and
    what a refused join or a failed write of the joined message leaves behind is
    exactly what was taken by then. *)
Theorem session_admits e :
  let '(h, out, told) := run e in
  (forall rev pk i ep ps, GJoined rev pk i ep ps ∈ out ->
     h = nothing /\ told = [GJoined rev pk i ep ps; GLeft (su_leftRevision e) pk i ep] /\
     exists ev version roster, admissible e ev version /\ pk = ev_PubKey ev /\
       su_join e pk version = Ok (i, ep, roster) /\ rev = rs_Revision roster /\ ps = rosterMessages (rs_Peers roster)) /\
  ((forall rev pk i ep ps, GJoined rev pk i ep ps ∉ out) -> told = []) /\
  (h <> nothing -> told = [] /\ exists ev version, admissible e ev version /\
     match su_join e (ev_PubKey ev) version with
     | Err _ => h = mkHeld true true None false
     | Ok (i, ep, _) => su_writeJoined e = false /\ h = mkHeld true true (Some (mkPeerInfo (ev_PubKey ev) i ep)) true
     end).
Proof.
  unfold run. destruct (su_enabled e); cbn [negb]; [|set_solver].
  pose proof (handshake_spec e) as Hs. destruct (handshake e) as [[[ok h] out] told].
  destruct Hs as [(-> & -> & Hno & ->)|(ev & version & Had & Hs)]; [split_and!; [by intros ????? ?%Hno|done|done]|].
  destruct (su_join e (ev_PubKey ev) version) as [[[i ep] roster]|err] eqn:Ej.
  - destruct Hs as (-> & -> & Hw). destruct (su_writeJoined e) eqn:Ew; cbn [teardown hd_peer pi_Pubkey pi_Index pi_Epoch].
    + destruct Hw as [-> ->]. split_and!; [|set_solver|done].
      intros rev pk i' ep' ps [Hx|Hx]%elem_of_cons; [done|]. apply list_elem_of_singleton in Hx as [= -> -> -> -> ->].
      split_and!; [done|done|]. by exists ev, version, roster.
    + destruct Hw as [Hno ->]. split_and!; [by intros ????? ?%Hno|done|]. intros _. split; [done|]. exists ev, version. by rewrite Ej.
  - destruct Hs as (-> & -> & Hno & ->). split_and!; [by intros ????? ?%Hno|done|].
    intros _. split; [done|]. exists ev, version. by rewrite Ej.
Qed.

End Session.

(** ** On concrete sessions *)

Definition ex_admission : Admission := {|
  ValidateAuthEvent kind tags _ challenge url := (kind =? 22242) && bool_decide (tags = [["relay"; url]; ["challenge"; challenge]]);
  VerifyEvent e := String.eqb (ev_Sig e) "ok";
  DefaultProtocolVersion := 2;
  CurrentProtocolVersion := 3;
|}.

Definition ex_auth : Event := mkEvent "id" "alice" 0 22242 [["relay"; "wss://r"]; ["challenge"; "c"]]%string "" "ok".

Definition ex_surroundings (writes : bool) : surroundings :=
  mkSurroundings true "wss://r" "room" "c" [IOther; IAuth (Some ex_auth) (Some 3)] None true
    (fun pk _ => Ok (1, 0, mkRoster 7 [mkPeerInfo "bob" 0 4; mkPeerInfo pk 1 0])) 8 (Some 3) true writes.

(** The connection breaks before the joined message is written: [run] returns
    with the peer still in the room and among the video peers, its peer
    connection open and its writer running, and nobody is told. *)
Lemma joined_write_leaves_peer :
  run (H := ex_admission) (ex_surroundings false) = (mkHeld true true (Some (mkPeerInfo "alice" 1 0)) true, [GChallenge "c"], []).
Proof. vm_compute. reflexivity. Qed.

Lemma session_comes_and_goes :
  let joined := GJoined 7 "alice" 1 0 [mkPeerMessage "bob" 0 4; mkPeerMessage "alice" 1 0] in
  run (H := ex_admission) (ex_surroundings true) = (nothing, [GChallenge "c"; joined], [joined; GLeft 8 "alice" 1 0]).
Proof. vm_compute. reflexivity. Qed.

(** Two peers and one who left; the first sends a packet. *)
Definition ex_pub : publication := mkPublication "alice" "cam" "alice" "vp8" 9 1.

Lemma video_to_others_witness :
  let '(vs', sent) := forwardVideo (fun _ => (true, true, 5)) "room" ex_pub
    (fold_left hub_step [Joins "room" 1; Joins "room" 2; Joins "room" 3; Leaves "room" 3]%string ∅)
    {[1%nat := ∅; 2%nat := ∅; 3%nat := ∅]} in
  (forall s, is_Some (sent !! s) <-> is_Some (({[1%nat := ∅; 2%nat := ∅; 3%nat := ∅]} : gmap nat videoTracks) !! s) /\
     ("room"%string, s) ∈ fold_left there_step [Joins "room" 1; Joins "room" 2; Joins "room" 3; Leaves "room" 3]%string ∅ /\ s <> 1%nat).
Proof.
  destruct (forwardVideo _ _ _ _ _) as [vs' sent] eqn:E.
  apply (video_to_others [Joins "room" 1; Joins "room" 2; Joins "room" 3; Leaves "room" 3]%string (fun _ => (true, true, 5)) "room" ex_pub
    ({[1%nat := ∅; 2%nat := ∅; 3%nat := ∅]} : gmap nat videoTracks) vs' sent); [|exact E].
  intros s b Hb k x Hk. assert (b = ∅) as ->; [|by rewrite lookup_empty in Hk].
  apply lookup_insert_Some in Hb as [[_ <-]|[_ Hb]]; [done|]. apply lookup_insert_Some in Hb as [[_ <-]|[_ Hb]]; [done|].
  by apply lookup_singleton_Some in Hb as [_ <-].
Defined.

(** Complaints every 200 ms, after the stream started. *)
Definition ex_watch : list (Z * watch) :=
  (10000000000, Arrives ex_pub) :: ((fun k => (10000000000 + k * 200000000, Feedback [PictureLoss])) <$> seqZ 1 8).

Lemma keyframes_throttled_witness :
  let b := mkSubscription ("vp8", "cam", "alice")%string None 0 0 true in
  (watch_run ex_watch b).1 = [(10000000000, true); (10600000000, false); (11200000000, false)] /\
  500000000 <= 11200000000 - 10600000000.
Proof.
  split; [vm_compute; reflexivity|].
  apply (keyframes_throttled ex_watch (mkSubscription ("vp8", "cam", "alice")%string None 0 0 true)) with (i := 1%nat) (j := 2%nat) (f := false);
    [|vm_compute; reflexivity|vm_compute; reflexivity|lia].
  repeat (constructor; [|repeat (constructor; [vm_compute; discriminate|]); constructor]). constructor.
Defined.
