(* ===== verification/HuddleNegotiation.v ===== *)
(** * Signalling with a WebRTC peer: descriptions and candidates

    Models the negotiation of [src/huddle/sfu/session.go]: [renegotiate],
    [handleOffer], [handleAnswer], the held-back ICE candidates and the order of
    what is written.  Three kinds of goroutines share a session: the signalling
    loop, those that add a track (a speaker's or a video's) and ICE gathering.
    Each is a program of atomic steps, cut where it takes or leaves a lock or
    calls the peer connection, so any interleaving is a sequence of [nstep]s.
    The peer connection is a parameter with the laws of WebRTC's signalling
    states.  A write to the client's WebSocket can fail, and as that library
    documents, every later one then fails too. *)
From S2P Require Import Prelude.
From stdpp Require Import options.

Local Open Scope nat_scope.

(** ** The peer connection *)

Inductive SignalingState := Stable | HaveLocalOffer | HaveRemoteOffer.

#[export] Instance SignalingState_eq_dec : EqDecision SignalingState.
Proof. solve_decision. Defined.

(** A candidate and a description's text stand for themselves; an operation that
    can fail is also told whether it does, for reasons of its own ([luck]). *)
Class PeerConnection := {
  pc : Type;
  candidate : Type;
  newPC : pc;
  signaling : pc -> SignalingState;
  remoteSet : pc -> bool;
  AddTrack : bool -> pc -> option pc;
  CreateOffer : bool -> pc -> option string;
  SetLocalOffer : bool -> string -> pc -> option pc;
  SetRemoteOffer : bool -> string -> pc -> option pc;
  SetLocalAnswer : bool -> pc -> option (string * pc);     (* CreateAnswer and SetLocalDescription *)
  SetRemoteAnswer : bool -> string -> pc -> option pc;
  AddICECandidate : bool -> candidate -> pc -> pc;
}.

Definition maxPendingCandidates : nat := 64.

(** ** The session *)

Section Negotiation.
Context `{PeerConnection}.

(** What is written to the client. *)
Inductive written :=
| WOffer (sdp : string)
| WAnswer (sdp : string)
| WCandidate (c : candidate)
| WError (text : string).

(** Where a goroutine is; the argument of the last constructor is what is left
    to write after a description. *)
Inductive prog :=
| PIdle
| PRenegotiate                       (* before [negotiateMu.Lock] *)
| POffer                             (* locked, stable: [CreateOffer] next *)
| PSetOffer (sdp : string)
| PWriteOffer (sdp : string)
| PRelease (cs : list candidate)     (* the offer is written; candidates, then unlock *)
| PAnswer                            (* [handleOffer]: the offer was accepted *)
| PWriteAnswer (sdp : string)
| PReleaseAnswer (cs : list candidate)
| PNegotiated                        (* before the lock that sets [negotiated] *)
| PSettled                           (* [handleAnswer]: before the lock that reads [pendingTracks] *)
| PGathered (c : candidate).         (* a candidate that may go out *)

Record session := mkSession {
  ss_pc : pc;
  ss_negotiated : bool;
  ss_pendingTracks : bool;
  ss_lock : option nat;              (* who holds [negotiateMu] *)
  ss_pendingRemote : list candidate;
  ss_localSent : bool;
  ss_pendingLocal : list candidate;
  ss_prog : gmap nat prog;           (* goroutine 0 is the signalling loop *)
  ss_out : list written;
  ss_broken : bool;                  (* a write to the WebSocket failed *)
}.

Definition newSession : session := mkSession newPC false false None [] false [] ∅ [] false.

Definition prog_of (t : nat) (s : session) : prog := default PIdle (ss_prog s !! t).

Definition set_pc (p : pc) (s : session) : session :=
  mkSession p (ss_negotiated s) (ss_pendingTracks s) (ss_lock s) (ss_pendingRemote s) (ss_localSent s) (ss_pendingLocal s) (ss_prog s) (ss_out s) (ss_broken s).
Definition set_negotiated (s : session) : session :=
  mkSession (ss_pc s) true (ss_pendingTracks s) (ss_lock s) (ss_pendingRemote s) (ss_localSent s) (ss_pendingLocal s) (ss_prog s) (ss_out s) (ss_broken s).
Definition set_pendingTracks (b : bool) (s : session) : session :=
  mkSession (ss_pc s) (ss_negotiated s) b (ss_lock s) (ss_pendingRemote s) (ss_localSent s) (ss_pendingLocal s) (ss_prog s) (ss_out s) (ss_broken s).
Definition set_lock (o : option nat) (s : session) : session :=
  mkSession (ss_pc s) (ss_negotiated s) (ss_pendingTracks s) o (ss_pendingRemote s) (ss_localSent s) (ss_pendingLocal s) (ss_prog s) (ss_out s) (ss_broken s).
Definition set_pendingRemote (l : list candidate) (s : session) : session :=
  mkSession (ss_pc s) (ss_negotiated s) (ss_pendingTracks s) (ss_lock s) l (ss_localSent s) (ss_pendingLocal s) (ss_prog s) (ss_out s) (ss_broken s).
Definition set_local (sent : bool) (l : list candidate) (s : session) : session :=
  mkSession (ss_pc s) (ss_negotiated s) (ss_pendingTracks s) (ss_lock s) (ss_pendingRemote s) sent l (ss_prog s) (ss_out s) (ss_broken s).
Definition goto (t : nat) (p : prog) (s : session) : session :=
  mkSession (ss_pc s) (ss_negotiated s) (ss_pendingTracks s) (ss_lock s) (ss_pendingRemote s) (ss_localSent s) (ss_pendingLocal s) (<[t := p]> (ss_prog s)) (ss_out s) (ss_broken s).
Definition put (w : written) (s : session) : session :=
  mkSession (ss_pc s) (ss_negotiated s) (ss_pendingTracks s) (ss_lock s) (ss_pendingRemote s) (ss_localSent s) (ss_pendingLocal s) (ss_prog s) (ss_out s ++ [w]) (ss_broken s).
Definition set_broken (s : session) : session :=
  mkSession (ss_pc s) (ss_negotiated s) (ss_pendingTracks s) (ss_lock s) (ss_pendingRemote s) (ss_localSent s) (ss_pendingLocal s) (ss_prog s) (ss_out s) true.

(** [writeLocked], and whether it succeeds; [sent] says whether the connection
    takes this message. *)
Definition writeLocked (sent : bool) (w : written) (s : session) : bool * session :=
  if ss_broken s || negb sent then (false, set_broken s) else (true, put w s).

(** ** Candidates *)

(** [addRemoteCandidate] *)
Definition addRemoteCandidate (luck : bool) (c : candidate) (s : session) : session :=
  if negb (remoteSet (ss_pc s)) then
    if maxPendingCandidates <=? length (ss_pendingRemote s) then s
    else set_pendingRemote (ss_pendingRemote s ++ [c]) s
  else set_pc (AddICECandidate luck c (ss_pc s)) s.

(** [flushRemoteCandidates] *)
Definition flushRemoteCandidates (luck : bool) (s : session) : session :=
  let pending := ss_pendingRemote s in
  set_pc (fold_left (fun p c => AddICECandidate luck c p) pending (ss_pc s)) (set_pendingRemote [] s).

(** [queueLocalCandidate], and whether the candidate may go out now. *)
Definition queueLocalCandidate (c : candidate) (s : session) : bool * session :=
  if ss_localSent s then (true, s)
  else if length (ss_pendingLocal s) <? maxPendingCandidates
  then (false, set_local false (ss_pendingLocal s ++ [c]) s) else (false, s).

(** [writeDescription] up to its unlock: whether the description was written,
    and the candidates it releases. *)
Definition writeDescription (sent : bool) (w : written) (s : session) : bool * list candidate * session :=
  let '(ok, s) := writeLocked sent w s in (ok, ss_pendingLocal s, set_local true [] s).

(** ** The goroutines *)

(** What sets a goroutine off: a track is added; a message of the client; a
    gathered candidate. *)
Inductive event :=
| EvTrack
| EvOffer (sdp : string)
| EvAnswer (sdp : string)
| EvCandidate (c : candidate)
| EvGather (c : candidate).

(** [renegotiate]'s check, with the lock just taken by [t]. *)
Definition renegotiate_check (t : nat) (s : session) : session :=
  if negb (ss_negotiated s) || negb (bool_decide (signaling (ss_pc s) = Stable))
  then goto t PIdle (set_pendingTracks true s)
  else goto t POffer (set_lock (Some t) (set_pendingTracks false s)).

(** Start goroutine [t] with an event. *)
Definition nstart (t : nat) (e : event) (luck sent : bool) (s : session) : session :=
  match e with
  | EvTrack =>
      match AddTrack luck (ss_pc s) with
      | None => s
      | Some p => goto t PRenegotiate (set_pc p s)
      end
  | EvOffer sdp =>
      match SetRemoteOffer luck sdp (ss_pc s) with
      | None => (writeLocked sent (WError "could not accept the offer") s).2
      | Some p => goto t PAnswer (flushRemoteCandidates luck (set_pc p s))
      end
  | EvAnswer sdp =>
      match SetRemoteAnswer luck sdp (ss_pc s) with
      | None => s
      | Some p => goto t PSettled (flushRemoteCandidates luck (set_pc p s))
      end
  | EvCandidate c => addRemoteCandidate luck c s
  | EvGather c =>
      let '(now, s) := queueLocalCandidate c s in
      if now then goto t (PGathered c) s else s
  end.

(** Only the signalling loop handles messages, and only another goroutine adds
    tracks or gathers. *)
Definition may_start (t : nat) (e : event) : bool :=
  match e with
  | EvOffer _ | EvAnswer _ | EvCandidate _ => t =? 0
  | EvTrack | EvGather _ => negb (t =? 0)
  end.

(** The next step of goroutine [t]; [None] when it cannot move. *)
Definition nadvance (t : nat) (luck sent : bool) (s : session) : option session :=
  match prog_of t s with
  | PIdle => None
  | PRenegotiate => if bool_decide (ss_lock s = None) then Some (renegotiate_check t s) else None
  | POffer =>
      Some match CreateOffer luck (ss_pc s) with
           | None => goto t PIdle (set_lock None s)
           | Some sdp => goto t (PSetOffer sdp) s
           end
  | PSetOffer sdp =>
      Some match SetLocalOffer luck sdp (ss_pc s) with
           | None => goto t PIdle (set_lock None s)
           | Some p => goto t (PWriteOffer sdp) (set_pc p s)
           end
  | PWriteOffer sdp =>
      let '(ok, cs, s) := writeDescription sent (WOffer sdp) s in
      Some (if ok then goto t (PRelease cs) s else goto t PIdle (set_lock None s))
  | PRelease [] => Some (goto t PIdle (set_lock None s))
  | PRelease (c :: cs) =>
      let '(ok, s) := writeLocked sent (WCandidate c) s in
      Some (if ok then goto t (PRelease cs) s else goto t PIdle (set_lock None s))
  | PAnswer =>
      Some match SetLocalAnswer luck (ss_pc s) with
           | None => goto t PIdle (writeLocked sent (WError "could not answer") s).2
           | Some (sdp, p) => goto t (PWriteAnswer sdp) (set_pc p s)
           end
  | PWriteAnswer sdp =>
      let '(ok, cs, s) := writeDescription sent (WAnswer sdp) s in
      Some (if ok then goto t (PReleaseAnswer cs) s else goto t PIdle s)
  | PReleaseAnswer [] => Some (goto t PNegotiated s)
  | PReleaseAnswer (c :: cs) =>
      let '(ok, s) := writeLocked sent (WCandidate c) s in
      Some (if ok then goto t (PReleaseAnswer cs) s else goto t PIdle s)
  | PNegotiated =>
      if bool_decide (ss_lock s = None)
      then Some (let s := set_negotiated s in if ss_pendingTracks s then goto t PRenegotiate s else goto t PIdle s)
      else None
  | PSettled =>
      if bool_decide (ss_lock s = None)
      then Some (if ss_pendingTracks s then goto t PRenegotiate s else goto t PIdle s)
      else None
  | PGathered c => Some (goto t PIdle (writeLocked sent (WCandidate c) s).2)
  end.

(** A step of the session: an idle goroutine starts, or one goes on. *)
Inductive nstep : session -> session -> Prop :=
| NStart t e luck sent s : prog_of t s = PIdle -> may_start t e = true -> nstep s (nstart t e luck sent s)
| NAdvance t luck sent s s' : nadvance t luck sent s = Some s' -> nstep s s'.

End Negotiation.
