(* ===== verification/HuddleNegotiationFacts.v ===== *)
(** * Signalling with a WebRTC peer: no track is left out

    An invariant over all interleavings shows that the goroutines of a session
    never block each other, come to rest, and leave no added track undescribed
    unless an offer was refused or a write failed ([negotiation_complete]); and that a candidate
    never precedes the first description ([candidates_ordered]).
    [glare_loses_track] is the interleaving in which an offer cannot be set. *)
From S2P Require Import Prelude HuddleNegotiation.
From stdpp Require Import options.

Local Open Scope nat_scope.

(** ** What WebRTC promises *)

(** A connection's tracks, how many of them its last local description names,
    and how many an offer names. *)
Class PCLaws `{PeerConnection} := {
  tracks : pc -> nat;
  described : pc -> nat;
  offer_tracks : string -> nat;
  new_laws : tracks newPC = 0 /\ described newPC = 0;
  AddTrack_laws luck p p' : AddTrack luck p = Some p' ->
    tracks p' = S (tracks p) /\ described p' = described p /\ signaling p' = signaling p;
  CreateOffer_laws luck p sdp : CreateOffer luck p = Some sdp -> offer_tracks sdp = tracks p;
  SetLocalOffer_laws luck sdp p p' : SetLocalOffer luck sdp p = Some p' ->
    signaling p' = HaveLocalOffer /\ tracks p' = tracks p /\ described p' = offer_tracks sdp;
  SetRemoteOffer_laws luck sdp p p' : SetRemoteOffer luck sdp p = Some p' ->
    signaling p' = HaveRemoteOffer /\ tracks p' = tracks p /\ described p' = described p;
  SetLocalAnswer_laws luck p sdp p' : SetLocalAnswer luck p = Some (sdp, p') ->
    signaling p' = Stable /\ tracks p' = tracks p /\
    (described p <= tracks p -> described p <= described p' <= tracks p);
  SetRemoteAnswer_laws luck sdp p p' : SetRemoteAnswer luck sdp p = Some p' ->
    signaling p' = Stable /\ tracks p' = tracks p /\ described p' = described p;
  AddICECandidate_laws luck c p :
    signaling (AddICECandidate luck c p) = signaling p /\ tracks (AddICECandidate luck c p) = tracks p /\
    described (AddICECandidate luck c p) = described p;
}.

Section Facts.
Context `{PCLaws}.

Lemma prog_of_goto t t' p s : prog_of t' (goto t p s) = if decide (t' = t) then p else prog_of t' s.
Proof.
  unfold prog_of, goto. cbn [ss_prog]. case_decide; subst; [by rewrite lookup_insert_eq|by rewrite lookup_insert_ne].
Qed.

Lemma flush_laws luck s :
  let s' := flushRemoteCandidates luck s in
  signaling (ss_pc s') = signaling (ss_pc s) /\ tracks (ss_pc s') = tracks (ss_pc s) /\ described (ss_pc s') = described (ss_pc s).
Proof.
  cbn [flushRemoteCandidates set_pc set_pendingRemote ss_pc]. generalize (ss_pc s) as p.
  induction (ss_pendingRemote s) as [|c l IH]; intros p; cbn [fold_left]; [done|].
  destruct (IH (AddICECandidate luck c p)) as (-> & -> & ->). apply AddICECandidate_laws.
Qed.

(** ** The invariant *)

(** The steps made with [negotiateMu] held. *)
Definition locked (p : prog) : bool :=
  match p with POffer | PSetOffer _ | PWriteOffer _ | PRelease _ => true | _ => false end.

(** The signalling loop is about to look at [pendingTracks]. *)
Definition looking (p : prog) : bool :=
  match p with PWriteAnswer _ | PReleaseAnswer _ | PNegotiated | PSettled | PRenegotiate => true | _ => false end.

(** A track is noted, or a goroutine is about to offer. *)
Definition waiting (s : session) : Prop := ss_pendingTracks s = true \/ exists t, prog_of t s = PRenegotiate.

Record ninv (s : session) : Prop := {
  ni_lock : forall t, locked (prog_of t s) = true <-> ss_lock s = Some t;
  ni_counts : described (ss_pc s) <= tracks (ss_pc s);
  ni_offer : forall t sdp, prog_of t s = PSetOffer sdp ->
    offer_tracks sdp <= tracks (ss_pc s) /\ (offer_tracks sdp < tracks (ss_pc s) -> waiting s);
  ni_owed : described (ss_pc s) < tracks (ss_pc s) ->
    waiting s \/ exists t, prog_of t s = POffer \/ exists sdp, prog_of t s = PSetOffer sdp;
  ni_noted : ss_pendingTracks s = true ->
    ss_negotiated s = false \/ signaling (ss_pc s) <> Stable \/ looking (prog_of 0 s) = true;
}.

Lemma ninv_new : ninv newSession.
Proof.
  destruct new_laws as [E1 E2]. split; cbn [newSession ss_pc ss_pendingTracks ss_lock]; try lia; done.
Qed.

(** Making, setting or writing a description, or writing a candidate it
    releases, fails in this step. *)
Definition step_fails (t : nat) (luck sent : bool) (s : session) : Prop :=
  match prog_of t s with
  | POffer => CreateOffer luck (ss_pc s) = None
  | PSetOffer sdp => SetLocalOffer luck sdp (ss_pc s) = None
  | PWriteOffer _ | PWriteAnswer _ | PRelease (_ :: _) | PReleaseAnswer (_ :: _) => ss_broken s || negb sent = true
  | _ => False
  end.

(** An offer cannot be made, or cannot be set, in this step. *)
Definition offer_refused (t : nat) (luck : bool) (s : session) : bool :=
  match prog_of t s with
  | POffer => match CreateOffer luck (ss_pc s) with None => true | Some _ => false end
  | PSetOffer sdp => match SetLocalOffer luck sdp (ss_pc s) with None => true | Some _ => false end
  | _ => false
  end.

(** The sessions any interleaving reaches, and whether an offer was refused on
    the way. *)
Inductive reached : session -> bool -> Prop :=
| RNew : reached newSession false
| RStart t e luck sent s f : reached s f -> prog_of t s = PIdle -> may_start t e = true -> reached (nstart t e luck sent s) f
| RAdvance t luck sent s s' f : reached s f -> nadvance t luck sent s = Some s' -> reached s' (f || offer_refused t luck s).

(** What a write does. *)
Lemma writeLocked_spec sent w s :
  (ss_broken s || negb sent = false /\ ss_broken s = false /\ writeLocked sent w s = (true, put w s)) \/
  (ss_broken s || negb sent = true /\ writeLocked sent w s = (false, set_broken s)).
Proof. unfold writeLocked. destruct (ss_broken s), sent; cbn; auto. Qed.

(** [t] moved to [p'], everyone else stayed. *)
Definition moved (t : nat) (p' : prog) (s s' : session) : Prop :=
  forall t', prog_of t' s' = if decide (t' = t) then p' else prog_of t' s.

Lemma moved_goto t p' s s1 : ss_prog s1 = ss_prog s -> moved t p' s (goto t p' s1).
Proof. intros E t'. rewrite prog_of_goto. unfold prog_of. by rewrite E. Qed.

Ltac self_or_other := match goal with |- context [decide (?a = ?b)] => destruct (decide (a = b)) end.

Lemma moved_same t p' s s' : moved t p' s s' -> prog_of t s' = p'.
Proof. intros Hm. rewrite Hm. by rewrite decide_True. Qed.

Lemma moved_other t t' p' s s' : moved t p' s s' -> t' <> t -> prog_of t' s' = prog_of t' s.
Proof. intros Hm Hne. rewrite Hm. by rewrite decide_False. Qed.

(** Someone else who waits, or is at a point [t] was not at, still is. *)
Lemma moved_at (P : prog -> Prop) t p' s s' :
  moved t p' s s' -> ~ P (prog_of t s) -> (exists t', P (prog_of t' s)) -> exists t', P (prog_of t' s').
Proof.
  intros Hm Hn [t' Ht']. exists t'. rewrite (moved_other _ _ _ _ _ Hm); [done|]. by intros ->.
Qed.

Lemma moved_waiting t p' s s' :
  moved t p' s s' -> prog_of t s <> PRenegotiate -> ss_pendingTracks s' = ss_pendingTracks s -> waiting s -> waiting s'.
Proof.
  intros Hm Hn Hp [?|Hw]; [left; congruence|right]. by apply (moved_at (fun p => p = PRenegotiate) t p' s).
Qed.

(** Whoever has the lock is the only one at its steps. *)
Lemma locked_unique s t t' : ninv s -> locked (prog_of t s) = true -> locked (prog_of t' s) = true -> t = t'.
Proof. intros HI H1%(ni_lock _ HI) H2%(ni_lock _ HI). congruence. Qed.

Definition quiet (p : prog) : bool := match p with PRenegotiate => false | p => negb (locked p) end.

Lemma quiet_spec p : quiet p = true -> locked p = false /\ p <> PRenegotiate /\ p <> POffer /\ forall sdp, p <> PSetOffer sdp.
Proof. by destruct p. Qed.

(** A step away from the lock that leaves the tracks and the notes alone. *)
Lemma ninv_quiet s s' t p' :
  ninv s -> moved t p' s s' -> quiet (prog_of t s) = true -> quiet p' = true ->
  ss_lock s' = ss_lock s -> ss_pendingTracks s' = ss_pendingTracks s -> ss_negotiated s' = ss_negotiated s ->
  tracks (ss_pc s') = tracks (ss_pc s) -> described (ss_pc s) <= described (ss_pc s') <= tracks (ss_pc s) ->
  (signaling (ss_pc s') = Stable ->
     looking (prog_of 0 s') = true \/
     (signaling (ss_pc s) = Stable /\ (looking (prog_of 0 s) = true -> looking (prog_of 0 s') = true))) ->
  ninv s'.
Proof.
  intros HI Hm Hq Hq' Hlock Hpend Hneg Htr Hde Hsig. apply quiet_spec in Hq as (Q1 & Q2 & Q3 & Q4), Hq' as (R1 & R2 & R3 & R4).
  assert (waiting s -> waiting s') as Hw by by eapply moved_waiting.
  assert (forall t' q, prog_of t' s' = q -> q <> p' -> prog_of t' s = q) as Hback.
  { intros t' q Hq Hne. rewrite Hm in Hq. destruct (decide (t' = t)); congruence. }
  split.
  - intros t'. rewrite Hlock, <- (ni_lock _ HI t'), Hm. self_or_other; [subst|done]. by rewrite R1, Q1.
  - lia.
  - intros t' sdp Ht'%Hback; [|done]. rewrite Htr. destruct (ni_offer _ HI t' sdp Ht'). auto.
  - intros Hlt. rewrite Htr in Hlt. destruct (ni_owed _ HI ltac:(lia)) as [?|Hex]; [auto|right].
    apply (moved_at (fun p => p = POffer \/ exists sdp, p = PSetOffer sdp) t p' s s' Hm); [|done].
    intros [?|[sdp ?]]; [done|by apply (Q4 sdp)].
  - rewrite Hpend, Hneg. intros Hp. destruct (decide (signaling (ss_pc s') = Stable)) as [Hst|]; [|auto].
    destruct (Hsig Hst) as [?|[Hst0 Hlk]]; [auto|]. destruct (ni_noted _ HI Hp) as [?|[?|?]]; auto.
Qed.

(** A track is added. *)
Lemma ninv_track s t luck p :
  ninv s -> prog_of t s = PIdle -> t <> 0 -> AddTrack luck (ss_pc s) = Some p -> ninv (goto t PRenegotiate (set_pc p s)).
Proof.
  intros HI Hidle Ht0 Hadd. apply AddTrack_laws in Hadd as (E1 & E2 & E3). set (s' := goto t PRenegotiate (set_pc p s)).
  assert (moved t PRenegotiate s s') as Hm by by apply moved_goto.
  assert (waiting s') as Hw by (right; exists t; by eapply moved_same).
  split; cbn [s' goto set_pc ss_pc ss_lock ss_pendingTracks ss_negotiated].
  - intros t'. rewrite <- (ni_lock _ HI t'), Hm. self_or_other; [subst|done]. by rewrite Hidle.
  - pose proof (ni_counts _ HI). lia.
  - intros t' sdp. rewrite Hm. self_or_other; [done|]. intros Ht'%(ni_offer _ HI). split; [lia|done].
  - by left.
  - rewrite E3. intros Hp. rewrite (moved_other _ _ _ _ _ Hm) by lia. by apply (ni_noted _ HI).
Qed.

(** [renegotiate] takes the lock. *)
Lemma ninv_check s t : ninv s -> prog_of t s = PRenegotiate -> ss_lock s = None -> ninv (renegotiate_check t s).
Proof.
  intros HI Hp Hl. assert (forall t', locked (prog_of t' s) = false) as Hnl.
  { intros t'. destruct (locked (prog_of t' s)) eqn:E; [|done]. apply (ni_lock _ HI) in E. congruence. }
  unfold renegotiate_check. destruct (negb (ss_negotiated s) || _) eqn:E.
  - set (s' := goto t PIdle _). assert (moved t PIdle s s') as Hm by by apply moved_goto.
    assert (waiting s') as Hw by by left.
    split; cbn [s' goto set_pendingTracks ss_pc ss_lock ss_pendingTracks ss_negotiated].
    + intros t'. rewrite <- (ni_lock _ HI t'), Hm. self_or_other; [subst|done]. by rewrite Hp.
    + apply HI.
    + intros t' sdp. rewrite Hm. self_or_other; [done|]. intros Ht'%(ni_offer _ HI). split; [lia|done].
    + by left.
    + intros _. apply orb_true_iff in E as [->%negb_true_iff|E%negb_true_iff]; [by left|right; left].
      by apply bool_decide_eq_false in E.
  - set (s' := goto t POffer _). assert (moved t POffer s s') as Hm by by apply moved_goto.
    split; cbn [s' goto set_pendingTracks set_lock ss_pc ss_lock ss_pendingTracks ss_negotiated].
    + intros t'. rewrite Hm. self_or_other; [by subst|]. rewrite Hnl. split; [done|congruence].
    + apply HI.
    + intros t' sdp. rewrite Hm. self_or_other; [done|]. intros Hx. specialize (Hnl t'). by rewrite Hx in Hnl.
    + intros _. right. exists t. left. by eapply moved_same.
    + done.
Qed.

(** The offer is made. *)
Lemma ninv_offer s t luck sdp :
  ninv s -> prog_of t s = POffer -> CreateOffer luck (ss_pc s) = Some sdp -> ninv (goto t (PSetOffer sdp) s).
Proof.
  intros HI Hp Ho. apply CreateOffer_laws in Ho. set (s' := goto t _ s).
  assert (moved t (PSetOffer sdp) s s') as Hm by by apply moved_goto.
  assert (waiting s -> waiting s') as Hw by (eapply moved_waiting; [done|by rewrite Hp|done]).
  split; cbn [s' goto ss_pc ss_lock ss_pendingTracks ss_negotiated].
  - intros t'. rewrite <- (ni_lock _ HI t'), Hm. self_or_other; [subst|done]. by rewrite Hp.
  - apply HI.
  - intros t' sdp'. rewrite Hm. self_or_other.
    + intros [= <-]. split; lia.
    + intros Ht'. destruct (ni_offer _ HI t' sdp' Ht'). auto.
  - intros _. right. exists t. right. exists sdp. by eapply moved_same.
  - intros Hpe. destruct (ni_noted _ HI Hpe) as [?|[?|Hlk]]; [auto..|]. right. right. rewrite Hm.
    self_or_other; [subst; by rewrite Hp in Hlk|done].
Qed.

(** The offer is set. *)
Lemma ninv_set s t luck sdp p :
  ninv s -> prog_of t s = PSetOffer sdp -> SetLocalOffer luck sdp (ss_pc s) = Some p ->
  ninv (goto t (PWriteOffer sdp) (set_pc p s)).
Proof.
  intros HI Hp Ho. apply SetLocalOffer_laws in Ho as (E1 & E2 & E3). set (s' := goto t _ _).
  assert (moved t (PWriteOffer sdp) s s') as Hm by by apply moved_goto.
  destruct (ni_offer _ HI t sdp Hp) as [Hle Hwait].
  assert (waiting s -> waiting s') as Hw by (eapply moved_waiting; [done|by rewrite Hp|done]).
  split; cbn [s' goto set_pc ss_pc ss_lock ss_pendingTracks ss_negotiated].
  - intros t'. rewrite <- (ni_lock _ HI t'), Hm. self_or_other; [subst|done]. by rewrite Hp.
  - lia.
  - intros t' sdp'. rewrite Hm. self_or_other; [done|]. intros Ht'. destruct (ni_offer _ HI t' sdp' Ht'). rewrite E2. auto.
  - rewrite E2, E3. intros Hlt. left. auto.
  - intros _. rewrite E1. auto.
Qed.

(** The lock's holder goes on without touching the tracks. *)
Lemma ninv_holder s s' t p' :
  ninv s -> moved t p' s s' -> locked (prog_of t s) = true -> prog_of t s <> POffer -> (forall sdp, prog_of t s <> PSetOffer sdp) ->
  quiet p' = true \/ (exists cs, p' = PRelease cs) -> ss_lock s' = (if locked p' then Some t else None) ->
  ss_pendingTracks s' = ss_pendingTracks s -> ss_negotiated s' = ss_negotiated s -> ss_pc s' = ss_pc s ->
  ninv s'.
Proof.
  intros HI Hm Hlk H1 H2 Hp' Hlock Hpend Hneg Hpc.
  assert (waiting s -> waiting s') as Hw.
  { eapply moved_waiting; [done| |done]. intros Hx. by rewrite Hx in Hlk. }
  assert (p' <> POffer /\ forall sdp, p' <> PSetOffer sdp) as [N1 N2].
  { destruct Hp' as [(?&?&?&?)%quiet_spec|[cs ->]]; done. }
  split; rewrite ?Hpc.
  - intros t'. rewrite Hlock, Hm. self_or_other; [subst; destruct (locked p'); [done|split; congruence]|].
    split.
    + intros Hl. exfalso. eauto using locked_unique.
    + destruct (locked p'); congruence.
  - apply HI.
  - intros t' sdp. rewrite Hm. self_or_other; [by intros ?%N2|]. intros Ht'. destruct (ni_offer _ HI t' sdp Ht'). auto.
  - intros Hlt. destruct (ni_owed _ HI Hlt) as [?|Hex]; [auto|right].
    apply (moved_at (fun p => p = POffer \/ exists sdp, p = PSetOffer sdp) t p' s s' Hm); [|done].
    intros [?|[sdp ?]]; [done|by apply (H2 sdp)].
  - rewrite Hpend, Hneg. intros Hp. destruct (ni_noted _ HI Hp) as [?|[?|Hlook]]; [auto..|]. right. right.
    rewrite Hm. self_or_other; [subst|done]. by destruct (prog_of 0 s).
Qed.

(** The signalling loop looks at the notes. *)
Lemma ninv_look s t neg :
  ninv s -> quiet (prog_of t s) = true -> (neg = true \/ neg = ss_negotiated s) -> ss_lock s = None -> t = 0 ->
  let s0 := if neg && negb (ss_negotiated s) then set_negotiated s else s in
  ninv (if ss_pendingTracks s then goto t PRenegotiate s0 else goto t PIdle s0).
Proof.
  intros HI Hq Hneg Hl -> s0. apply quiet_spec in Hq as (Q1 & Q2 & Q3 & Q4).
  assert (ss_pc s0 = ss_pc s /\ ss_lock s0 = ss_lock s /\ ss_pendingTracks s0 = ss_pendingTracks s /\ ss_prog s0 = ss_prog s) as (E1 & E2 & E3 & E4)
    by (subst s0; by destruct (neg && _)).
  set (p' := if ss_pendingTracks s then PRenegotiate else PIdle).
  replace (if ss_pendingTracks s then goto 0 PRenegotiate s0 else goto 0 PIdle s0) with (goto 0 p' s0)
    by (subst p'; by destruct (ss_pendingTracks s)).
  set (s' := goto 0 p' s0). assert (moved 0 p' s s') as Hm.
  { intros t'. subst s'. rewrite prog_of_goto. self_or_other; [done|]. unfold prog_of. by rewrite E4. }
  assert (waiting s -> waiting s') as Hw by by eapply moved_waiting.
  split; cbn [s' goto ss_pc ss_lock ss_pendingTracks]; rewrite ?E1, ?E2, ?E3.
  - intros t'. rewrite <- (ni_lock _ HI t'), Hm. self_or_other; [subst|done]. rewrite Q1. subst p'. by destruct (ss_pendingTracks s).
  - apply HI.
  - intros t' sdp. rewrite Hm. self_or_other; [subst p'; by destruct (ss_pendingTracks s)|].
    intros Ht'. destruct (ni_offer _ HI t' sdp Ht'). auto.
  - intros Hlt. destruct (ni_owed _ HI Hlt) as [?|Hex]; [auto|right].
    apply (moved_at (fun p => p = POffer \/ exists sdp, p = PSetOffer sdp) 0 p' s s' Hm); [|done].
    intros [?|[sdp ?]]; [done|by apply (Q4 sdp)].
  - intros Hp. right. right. rewrite (moved_same _ _ _ _ Hm). subst p'. by rewrite Hp.
Qed.

(** ** Every step *)

Lemma moved_stay t s s' : ss_prog s' = ss_prog s -> moved t (prog_of t s) s s'.
Proof. intros E t'. unfold prog_of at 1. rewrite E. fold (prog_of t' s). self_or_other; [by subst|done]. Qed.

(** A step of an unlocked goroutine that changes neither tracks nor signalling
    and does not take the loop's eyes off the notes. *)
Lemma ninv_plain s s' t p' :
  ninv s -> moved t p' s s' -> quiet (prog_of t s) = true -> quiet p' = true ->
  (looking (prog_of t s) = true -> looking p' = true) ->
  ss_lock s' = ss_lock s -> ss_pendingTracks s' = ss_pendingTracks s -> ss_negotiated s' = ss_negotiated s ->
  signaling (ss_pc s') = signaling (ss_pc s) -> tracks (ss_pc s') = tracks (ss_pc s) ->
  described (ss_pc s') = described (ss_pc s) -> ninv s'.
Proof.
  intros HI Hm Hq Hq' Hlk E1 E2 E3 E4 E5 E6. eapply ninv_quiet; [done|done|done|done|done..| |].
  - rewrite E6. pose proof (ni_counts _ HI). lia.
  - intros Hst. right. rewrite <- E4. split; [done|]. rewrite Hm. self_or_other; [subst; auto|auto].
Qed.

Lemma nstart_inv t e luck sent s :
  ninv s -> prog_of t s = PIdle -> may_start t e = true -> ninv (nstart t e luck sent s).
Proof.
  intros HI Hp Hs.
  assert (forall s' p', moved t p' s s' -> quiet p' = true -> ss_lock s' = ss_lock s -> ss_pendingTracks s' = ss_pendingTracks s ->
    ss_negotiated s' = ss_negotiated s -> signaling (ss_pc s') = signaling (ss_pc s) -> tracks (ss_pc s') = tracks (ss_pc s) ->
    described (ss_pc s') = described (ss_pc s) -> ninv s') as Hplain.
  { intros s' p' Hm Hq'. eapply ninv_plain; [done|done|by rewrite Hp|done|by rewrite Hp]. }
  destruct e as [|sdp|sdp|c|c]; cbn [may_start nstart] in *.
  - destruct (AddTrack luck (ss_pc s)) as [p|] eqn:E; [|done]. apply negb_true_iff, Nat.eqb_neq in Hs. by eapply ninv_track.
  - destruct (SetRemoteOffer luck sdp (ss_pc s)) as [p|] eqn:E;
      [|destruct (writeLocked_spec sent (WError "could not accept the offer") s) as [(_ & _ & ->)|[_ ->]];
        (apply (Hplain _ PIdle); try done; rewrite <- Hp; by apply moved_stay)].
    apply SetRemoteOffer_laws in E as (E1 & E2 & E3). destruct (flush_laws luck (set_pc p s)) as (F1 & F2 & F3).
    eapply (ninv_quiet s _ t PAnswer); try done; [by apply moved_goto|by rewrite Hp|..]; cbn [goto ss_pc]; rewrite ?F1, ?F2, ?F3; cbn [set_pc ss_pc].
    + done.
    + rewrite E3. pose proof (ni_counts _ HI). lia.
    + by rewrite E1.
  - destruct (SetRemoteAnswer luck sdp (ss_pc s)) as [p|] eqn:E; [|done]. apply Nat.eqb_eq in Hs as ->.
    apply SetRemoteAnswer_laws in E as (E1 & E2 & E3). destruct (flush_laws luck (set_pc p s)) as (F1 & F2 & F3).
    set (s' := goto 0 PSettled _). assert (moved 0 PSettled s s') as Hm by by apply moved_goto.
    eapply (ninv_quiet s s' 0 PSettled); try done; [by rewrite Hp|..]; cbn [s' goto ss_pc]; rewrite ?F1, ?F2, ?F3; cbn [set_pc ss_pc].
    + done.
    + rewrite E3. pose proof (ni_counts _ HI). lia.
    + intros _. left. by rewrite (moved_same _ _ _ _ Hm).
  - unfold addRemoteCandidate. destruct (negb _); [destruct (_ <=? _); [done|]|]; (apply (Hplain _ PIdle); try done;
      [rewrite <- Hp; by apply moved_stay|..]); apply AddICECandidate_laws.
  - unfold queueLocalCandidate. destruct (ss_localSent s).
    + apply (Hplain _ (PGathered c)); try done. by apply moved_goto.
    + destruct (_ <? _); [|done]. apply (Hplain _ PIdle); try done. rewrite <- Hp. by apply moved_stay.
Qed.

Lemma nadvance_inv t luck sent s s' :
  ninv s -> (prog_of t s = PIdle \/ t = 0 \/ match prog_of t s with PSettled | PNegotiated => False | _ => True end) ->
  (match prog_of t s with PAnswer | PWriteAnswer _ | PReleaseAnswer _ => t = 0 | _ => True end) ->
  ~ step_fails t luck sent s -> nadvance t luck sent s = Some s' -> ninv s'.
Proof.
  intros HI Hsig Hans Hof. unfold step_fails in Hof. unfold nadvance.
  destruct (prog_of t s) as [| | |sdp|sdp|cs| |sdp|cs| | |c] eqn:Hp; [done|..].
  - destruct (decide (ss_lock s = None)); [|by rewrite bool_decide_eq_false_2]. rewrite bool_decide_eq_true_2 by done.
    intros [= <-]. by apply ninv_check.
  - destruct (CreateOffer luck (ss_pc s)) as [sdp|] eqn:E; [|done]. intros [= <-]. by eapply ninv_offer.
  - destruct (SetLocalOffer luck sdp (ss_pc s)) as [p|] eqn:E; [|done]. intros [= <-]. by eapply ninv_set.
  - unfold writeDescription. destruct (writeLocked_spec sent (WOffer sdp) s) as [(_ & _ & ->)|[? _]]; [|done].
    intros [= <-]. eapply (ninv_holder s _ t (PRelease _)); try done; [by apply moved_goto|by rewrite Hp..|right; eauto|].
    apply (ni_lock _ HI). by rewrite Hp.
  - assert (ss_lock s = Some t) as Hl by (apply (ni_lock _ HI); by rewrite Hp).
    destruct cs as [|c cs].
    + intros [= <-]. eapply (ninv_holder s _ t PIdle); try done; [by apply moved_goto|by rewrite Hp..|by left].
    + destruct (writeLocked_spec sent (WCandidate c) s) as [(_ & _ & ->)|[? _]]; [|done]. intros [= <-].
      eapply (ninv_holder s _ t (PRelease _)); try done; [by apply moved_goto|by rewrite Hp..|right; eauto].
  - destruct (SetLocalAnswer luck (ss_pc s)) as [[sdp p]|] eqn:E; intros [= <-].
    + apply SetLocalAnswer_laws in E as (E1 & E2 & E3). subst t. set (s' := goto 0 _ _).
      assert (moved 0 (PWriteAnswer sdp) s s') as Hm by by apply moved_goto.
      eapply (ninv_quiet s s' 0 (PWriteAnswer sdp)); try done; [by rewrite Hp|apply E3, HI|]. intros _. left. by rewrite (moved_same _ _ _ _ Hm).
    + destruct (writeLocked_spec sent (WError "could not answer") s) as [(_ & _ & ->)|[_ ->]];
        (eapply (ninv_plain s _ t PIdle); try done; [by apply moved_goto|by rewrite Hp..]).
  - unfold writeDescription. destruct (writeLocked_spec sent (WAnswer sdp) s) as [(_ & _ & ->)|[? _]]; [|done].
    intros [= <-]. eapply (ninv_plain s _ t (PReleaseAnswer _)); try done; [by apply moved_goto|by rewrite Hp..].
  - destruct cs as [|c cs].
    + intros [= <-]. eapply (ninv_plain s _ t PNegotiated); try done; [by apply moved_goto|by rewrite Hp..].
    + destruct (writeLocked_spec sent (WCandidate c) s) as [(_ & _ & ->)|[? _]]; [|done]. intros [= <-].
      eapply (ninv_plain s _ t (PReleaseAnswer _)); try done; [by apply moved_goto|by rewrite Hp..].
  - destruct (decide (ss_lock s = None)) as [Hl|]; [|by rewrite bool_decide_eq_false_2]. rewrite bool_decide_eq_true_2 by done.
    intros [= <-]. destruct Hsig as [?|[->|?]]; [done| |done].
    pose proof (ninv_look s 0 true HI ltac:(by rewrite Hp) ltac:(by left) Hl eq_refl) as HL. cbn [andb set_negotiated ss_pendingTracks] in *.
    destruct (ss_negotiated s) eqn:En; cbn [negb] in HL; [|done]. replace (set_negotiated s) with s; [done|]. destruct s; cbn in *; by subst.
  - destruct (decide (ss_lock s = None)) as [Hl|]; [|by rewrite bool_decide_eq_false_2]. rewrite bool_decide_eq_true_2 by done.
    intros [= <-]. destruct Hsig as [?|[->|?]]; [done| |done].
    pose proof (ninv_look s 0 (ss_negotiated s) HI ltac:(by rewrite Hp) ltac:(by right) Hl eq_refl) as HL. cbn zeta in HL.
    by rewrite andb_negb_r in HL.
  - destruct (writeLocked_spec sent (WCandidate c) s) as [(_ & _ & ->)|[_ ->]]; intros [= <-];
      (eapply (ninv_plain s _ t PIdle); try done; [by apply moved_goto|by rewrite Hp..]).
Qed.

(** ** What is written, and by whom *)

Definition is_description (w : written) : bool := match w with WOffer _ | WAnswer _ => true | _ => false end.

Definition described_first (out : list written) : Prop :=
  forall pre c post, out = (pre ++ WCandidate c :: post)%list -> existsb is_description pre = true.

(** A candidate may be written: a description was, or nothing can be. *)
Definition cleared (s : session) : bool := existsb is_description (ss_out s) || ss_broken s.

(** What a goroutine's place says: only the loop answers, and candidates are on
    their way only when they are [clear]. *)
Definition place_ok (clear : bool) (t : nat) (p : prog) : Prop :=
  match p with
  | PAnswer | PWriteAnswer _ | PNegotiated | PSettled => t = 0
  | PReleaseAnswer cs => t = 0 /\ clear = true /\ length cs <= maxPendingCandidates
  | PRelease cs => clear = true /\ length cs <= maxPendingCandidates
  | PGathered _ => clear = true
  | _ => True
  end.

Record winv (s : session) : Prop := {
  wi_place : forall t, place_ok (cleared s) t (prog_of t s);
  wi_first : described_first (ss_out s);
  wi_sent : ss_localSent s = true -> cleared s = true;
  wi_local : length (ss_pendingLocal s) <= maxPendingCandidates;
  wi_remote : length (ss_pendingRemote s) <= maxPendingCandidates;
}.

Lemma described_first_snoc out w :
  described_first out -> (forall c, w = WCandidate c -> existsb is_description out = true) -> described_first (out ++ [w]).
Proof.
  intros Hf Hw pre c post E. destruct post as [|x post _] using rev_ind.
  - apply app_inj_tail in E as [-> ->]. by eapply Hw.
  - rewrite app_comm_cons, (assoc_L (++)) in E. apply app_inj_tail in E as [-> _]. by eapply Hf.
Qed.

Lemma cleared_grows s s' ws :
  ss_out s' = (ss_out s ++ ws)%list -> (ss_broken s = true -> ss_broken s' = true) -> cleared s = true -> cleared s' = true.
Proof.
  unfold cleared. intros -> Hb. rewrite existsb_app. destruct (existsb _ (ss_out s)); [done|]. cbn.
  intros E. rewrite Hb by done. by rewrite orb_true_r.
Qed.

Lemma place_grows b b' t p : (b = true -> b' = true) -> place_ok b t p -> place_ok b' t p.
Proof. destruct p; cbn [place_ok]; naive_solver. Qed.

(** [t] moves on and writes [ws]. *)
Lemma winv_move s s' t p' ws :
  winv s -> moved t p' s s' -> ss_out s' = (ss_out s ++ ws)%list -> length ws <= 1 ->
  (ss_broken s = true -> ss_broken s' = true) ->
  (forall c, ws = [WCandidate c] -> existsb is_description (ss_out s) = true) ->
  place_ok (cleared s') t p' -> (ss_localSent s' = true -> cleared s' = true) ->
  length (ss_pendingLocal s') <= maxPendingCandidates -> length (ss_pendingRemote s') <= maxPendingCandidates -> winv s'.
Proof.
  intros HI Hm Hout Hws Hb Hc Hp Hs Hl Hr. split; try done.
  - intros t'. rewrite Hm. self_or_other; [by subst|]. eapply place_grows; [by eapply cleared_grows|apply HI].
  - rewrite Hout. destruct ws as [|w [|]]; [rewrite app_nil_r; apply HI| |cbn in Hws; lia].
    apply described_first_snoc; [apply HI|]. intros c ->. by apply (Hc c).
Qed.

(** [t] writes [w], which is clear if it is a candidate, and then goes where
    whether it succeeded takes it. *)
Lemma winv_write sent w s t (p1 p2 : prog) (f1 f2 : session -> session) :
  winv s -> (forall c, w = WCandidate c -> cleared s = true) ->
  (forall f s1, f = f1 \/ f = f2 -> ss_prog (f s1) = ss_prog s1 /\ ss_out (f s1) = ss_out s1 /\ ss_broken (f s1) = ss_broken s1 /\
     length (ss_pendingLocal (f s1)) <= length (ss_pendingLocal s1) /\ ss_pendingRemote (f s1) = ss_pendingRemote s1 /\
     (ss_localSent (f s1) = true -> ss_localSent s1 = true \/ is_description w = true)) ->
  place_ok (cleared s || is_description w) t p1 -> place_ok true t p2 ->
  let '(ok, s1) := writeLocked sent w s in winv (if ok then goto t p1 (f1 s1) else goto t p2 (f2 s1)).
Proof.
  intros HI Hc Hf Hp1 Hp2. destruct (writeLocked_spec sent w s) as [(_ & Hnb & ->)|[_ ->]].
  - destruct (Hf f1 (put w s) (or_introl eq_refl)) as (E1 & E2 & E3 & E4 & E5 & E6).
    assert (cleared (goto t p1 (f1 (put w s))) = cleared s || is_description w) as Ecl.
    { unfold cleared. cbn [goto ss_out ss_broken]. rewrite E2, E3. cbn [put ss_out ss_broken]. rewrite existsb_app, Hnb. cbn.
      by rewrite !orb_false_r. }
    eapply (winv_move s _ t p1 [w]); [done|by apply moved_goto| |cbn; lia|by rewrite Hnb| |by rewrite Ecl| |..].
    + cbn [goto ss_out]. by rewrite E2.
    + intros c [= ->]. specialize (Hc c eq_refl). unfold cleared in Hc. by rewrite Hnb, orb_false_r in Hc.
    + rewrite Ecl. cbn [goto ss_localSent]. intros [->%(wi_sent _ HI)| ->]%E6; [done|apply orb_true_r].
    + cbn [goto ss_pendingLocal]. pose proof (wi_local _ HI). cbn [put ss_pendingLocal] in E4. lia.
    + cbn [goto ss_pendingRemote]. rewrite E5. apply HI.
  - destruct (Hf f2 (set_broken s) (or_intror eq_refl)) as (E1 & E2 & E3 & E4 & E5 & E6).
    assert (cleared (goto t p2 (f2 (set_broken s))) = true) as Ecl.
    { unfold cleared. cbn [goto ss_broken]. rewrite E3. apply orb_true_r. }
    eapply (winv_move s _ t p2 []); [done|by apply moved_goto| |cbn; lia| |done|by rewrite Ecl|by rewrite Ecl|..].
    + cbn [goto ss_out]. by rewrite E2, app_nil_r.
    + intros _. cbn [goto ss_broken]. by rewrite E3.
    + cbn [goto ss_pendingLocal]. pose proof (wi_local _ HI). cbn [set_broken ss_pendingLocal] in E4. lia.
    + cbn [goto ss_pendingRemote]. rewrite E5. apply HI.
Qed.

Lemma flush_frame luck s :
  let s' := flushRemoteCandidates luck s in
  ss_prog s' = ss_prog s /\ ss_out s' = ss_out s /\ ss_localSent s' = ss_localSent s /\ ss_pendingLocal s' = ss_pendingLocal s /\
  ss_pendingRemote s' = [].
Proof. done. Qed.

Ltac settle_move :=
  try done; try (by apply moved_goto); try (match goal with E : prog_of _ _ = PIdle |- _ => rewrite <- E; by apply moved_stay end);
  try (by rewrite app_nil_r); try (cbn; lia).

Lemma winv_start t e luck sent s : winv s -> prog_of t s = PIdle -> may_start t e = true -> winv (nstart t e luck sent s).
Proof.
  intros HI Hp Hs. pose proof HI as [I1 I2 I3 I4 I5].
  destruct e as [|sdp|sdp|c|c]; cbn [may_start nstart] in *; try (apply Nat.eqb_eq in Hs; subst t).
  - destruct (AddTrack luck (ss_pc s)) as [p|]; [|done]. eapply (winv_move s _ t PRenegotiate []); settle_move.
  - destruct (SetRemoteOffer luck sdp (ss_pc s)) as [p|].
    + eapply (winv_move s _ 0 PAnswer []); settle_move.
    + destruct (writeLocked_spec sent (WError "could not accept the offer") s) as [(_ & Hb & ->)|[_ ->]].
      * eapply (winv_move s _ 0 PIdle [_]); settle_move. intros E. eapply (cleared_grows s _ [_]); [done|done|by apply I3].
      * eapply (winv_move s _ 0 PIdle []); settle_move. intros _. apply orb_true_r.
  - destruct (SetRemoteAnswer luck sdp (ss_pc s)) as [p|]; [|done].
    eapply (winv_move s _ 0 PSettled []); settle_move.
  - unfold addRemoteCandidate. destruct (negb _); [destruct (Nat.leb_spec maxPendingCandidates (length (ss_pendingRemote s))); [done|]|];
      (eapply (winv_move s _ 0 PIdle []); settle_move).
    cbn [set_pendingRemote ss_pendingRemote]. rewrite length_app. cbn. lia.
  - unfold queueLocalCandidate. destruct (ss_localSent s) eqn:El.
    + eapply (winv_move s _ t (PGathered c) []); settle_move; [by apply I3|intros _; by apply I3].
    + destruct (Nat.ltb_spec (length (ss_pendingLocal s)) maxPendingCandidates); [|done].
      eapply (winv_move s _ t PIdle []); settle_move.
      cbn [set_local ss_pendingLocal]. rewrite length_app. cbn. lia.
Qed.

Lemma writeLocked_local sent w s :
  (let '(ok, s1) := writeLocked sent w s in (ok, ss_pendingLocal s1, set_local true [] s1))
  = (let '(ok, s1) := writeLocked sent w s in (ok, ss_pendingLocal s, set_local true [] s1)).
Proof. by destruct (writeLocked_spec sent w s) as [(_ & _ & ->)|[_ ->]]. Qed.

Ltac settle_write :=
  cbn [place_ok is_description]; rewrite ?orb_true_r, ?orb_false_r; try done; try (by intros ? [= ->]);
  try (intros ? ? [-> | ->]; cbn; split_and!; auto; lia); try (split_and!; auto; lia).

Lemma winv_advance t luck sent s s' : winv s -> nadvance t luck sent s = Some s' -> winv s'.
Proof.
  intros HI. pose proof HI as [I1 I2 I3 I4 I5].
  assert (forall p' s1, ss_prog s1 = ss_prog s -> ss_out s1 = ss_out s -> ss_broken s1 = ss_broken s -> ss_localSent s1 = ss_localSent s ->
    ss_pendingLocal s1 = ss_pendingLocal s -> ss_pendingRemote s1 = ss_pendingRemote s -> place_ok (cleared s) t p' -> winv (goto t p' s1)) as Hsilent.
  { intros p' s1 E1 E2 E3 E4 E5 E6 Hpl.
    assert (cleared (goto t p' s1) = cleared s) as Ecl by (unfold cleared; cbn [goto ss_out ss_broken]; by rewrite E2, E3).
    eapply (winv_move s _ t p' []); try done; [by apply moved_goto|cbn; by rewrite E2, app_nil_r|cbn; lia|..];
      cbn [goto ss_out ss_localSent ss_pendingLocal ss_pendingRemote ss_broken]; rewrite ?Ecl, ?E2, ?E3, ?E4, ?E5, ?E6; done. }
  unfold nadvance. specialize (I1 t) as Hpt. destruct (prog_of t s) as [| | |sdp|sdp|cs| |sdp|cs| | |c] eqn:Hp; cbn [place_ok] in Hpt; [done|..].
  - unfold renegotiate_check. case_bool_decide; [|done]. intros [= <-]. destruct (_ || _); by apply Hsilent.
  - destruct (CreateOffer _ _); intros [= <-]; by apply Hsilent.
  - destruct (SetLocalOffer _ _ _); intros [= <-]; by apply Hsilent.
  - pose proof (winv_write sent (WOffer sdp) s t (PRelease (ss_pendingLocal s)) PIdle (set_local true []) (fun s => set_lock None (set_local true [] s)) HI) as Hw.
    unfold writeDescription. rewrite (writeLocked_local sent (WOffer sdp) s). destruct (writeLocked sent (WOffer sdp) s) as [ok s1].
    intros [= <-]. apply Hw; settle_write.
  - destruct cs as [|c cs]; [intros [= <-]; by apply Hsilent|]. destruct Hpt as [Hd Hl]. cbn [length] in Hl.
    pose proof (winv_write sent (WCandidate c) s t (PRelease cs) PIdle id (set_lock None) HI) as Hw.
    destruct (writeLocked sent (WCandidate c) s) as [ok s1]. intros [= <-]. apply Hw; settle_write.
  - destruct (SetLocalAnswer _ _) as [[sdp p]|]; [intros [= <-]; by apply Hsilent|].
    pose proof (winv_write sent (WError "could not answer") s t PIdle PIdle id id HI) as Hw.
    destruct (writeLocked sent _ s) as [ok s1]. intros [= <-]. cbn [snd]. destruct ok; apply Hw; settle_write.
  - pose proof (winv_write sent (WAnswer sdp) s t (PReleaseAnswer (ss_pendingLocal s)) PIdle (set_local true []) (set_local true []) HI) as Hw.
    unfold writeDescription. rewrite (writeLocked_local sent (WAnswer sdp) s). destruct (writeLocked sent (WAnswer sdp) s) as [ok s1].
    intros [= <-]. apply Hw; settle_write.
  - destruct Hpt as (-> & Hd & Hl). destruct cs as [|c cs]; [intros [= <-]; by apply Hsilent|]. cbn [length] in Hl.
    pose proof (winv_write sent (WCandidate c) s 0 (PReleaseAnswer cs) PIdle id id HI) as Hw.
    destruct (writeLocked sent (WCandidate c) s) as [ok s1]. intros [= <-]. apply Hw; settle_write.
  - case_bool_decide; [|done]. intros [= <-]. cbn [set_negotiated ss_pendingTracks]. destruct (ss_pendingTracks s); by apply Hsilent.
  - case_bool_decide; [|done]. intros [= <-]. destruct (ss_pendingTracks s); by apply Hsilent.
  - pose proof (winv_write sent (WCandidate c) s t PIdle PIdle id id HI) as Hw.
    destruct (writeLocked sent _ s) as [ok s1]. intros [= <-]. cbn [snd]. destruct ok; apply Hw; settle_write.
Qed.

Lemma winv_new : winv newSession.
Proof.
  split; cbn; try lia; try done. intros pre c post E. by destruct pre.
Qed.

Lemma winv_reachable s : rtc nstep newSession s -> winv s.
Proof.
  intros Hr. remember newSession as s0 eqn:E0. assert (winv s0) as Hw by (subst; apply winv_new). clear E0.
  induction Hr as [|s0 s1 s2 Hst _ IH]; [done|]. apply IH. destruct Hst; [by apply winv_start|by eapply winv_advance].
Qed.

(** [reached] leaves no interleaving out. *)
Lemma reached_all s : rtc nstep newSession s <-> exists f, reached s f.
Proof.
  split.
  - intros Hr. assert (exists f, reached newSession f) as Hx by (exists false; constructor). revert Hx.
    induction Hr as [|s0 s1 s2 Hst _ IH]; [done|]. intros [f Hf]. apply IH. destruct Hst; eexists; by econstructor.
  - intros [f Hf]. induction Hf as [|t e luck sent s f _ IH Hp Hm|t luck sent s s' f _ IH Ha]; [done|..];
      (eapply rtc_r; [exact IH|]); by econstructor.
Qed.

(** A failure is an offer's, or breaks the connection. *)
Lemma step_fails_spec t luck sent s s' :
  nadvance t luck sent s = Some s' -> step_fails t luck sent s -> offer_refused t luck s = true \/ ss_broken s' = true.
Proof.
  unfold nadvance, step_fails, offer_refused. destruct (prog_of t s) as [| | |sdp|sdp|[|c cs]| |sdp|[|c cs]| | |c]; try done.
  - by intros _ ->; left.
  - by intros _ ->; left.
  - unfold writeDescription, writeLocked. intros Ha E. rewrite E in Ha. injection Ha as <-. by right.
  - unfold writeLocked. intros Ha E. rewrite E in Ha. injection Ha as <-. by right.
  - unfold writeDescription, writeLocked. intros Ha E. rewrite E in Ha. injection Ha as <-. by right.
  - unfold writeLocked. intros Ha E. rewrite E in Ha. injection Ha as <-. by right.
Qed.

(** A broken connection stays so. *)
Lemma broken_stays s s' : nstep s s' -> ss_broken s = true -> ss_broken s' = true.
Proof.
  intros Hst Hb. destruct Hst as [t e luck sent s _ _|t luck sent s s' Ha].
  - destruct e; cbn; unfold writeLocked, addRemoteCandidate, queueLocalCandidate; repeat case_match; simplify_eq; cbn; done.
  - unfold nadvance, renegotiate_check, writeDescription, writeLocked in Ha. rewrite Hb in Ha. cbn [orb] in Ha.
    repeat case_match; simplify_eq; cbn; done.
Qed.

Lemma nadvance_inv_ok t luck sent s s' :
  ninv s -> winv s -> ~ step_fails t luck sent s -> nadvance t luck sent s = Some s' -> ninv s'.
Proof.
  intros Hn Hw Hf Ha. pose proof (wi_place _ Hw t) as Hpl. eapply nadvance_inv; try done.
  - destruct (prog_of t s); cbn [place_ok] in Hpl; auto.
  - destruct (prog_of t s); cbn [place_ok] in Hpl; tauto.
Qed.

Lemma ninv_reached s f : reached s f -> f = false -> ss_broken s = false -> ninv s.
Proof.
  induction 1 as [|t e luck sent s f Hr IH Hp Hm|t luck sent s s' f Hr IH Ha]; intros Hf Hb; [apply ninv_new|..].
  - apply nstart_inv; [|done|done]. apply IH; [done|]. destruct (ss_broken s) eqn:E; [|done].
    rewrite <- Hb. symmetry. by apply (broken_stays s); [apply NStart|].
  - apply orb_false_iff in Hf as [Hf1 Hf2]. assert (ss_broken s = false) as Hb0.
    { destruct (ss_broken s) eqn:E; [|done]. rewrite <- Hb. symmetry. by apply (broken_stays s); [eapply NAdvance|]. }
    assert (winv s) as Hw by (apply winv_reachable, reached_all; eauto).
    apply (nadvance_inv_ok t luck sent s); [by apply IH|done| |done].
    intros Hx. destruct (step_fails_spec _ _ _ _ _ Ha Hx); congruence.
Qed.

(** The lock, whatever fails. *)
Definition linv (s : session) : Prop := forall t, locked (prog_of t s) = true <-> ss_lock s = Some t.

Lemma linv_move s s' t p' :
  linv s -> moved t p' s s' -> ss_lock s' = (if locked p' then Some t else if locked (prog_of t s) then None else ss_lock s) ->
  (locked p' = true -> locked (prog_of t s) = true \/ ss_lock s = None) -> linv s'.
Proof.
  intros HI Hm Hl Hok t'. unfold linv in HI. rewrite Hm, Hl. self_or_other; [subst t'|].
  - destruct (locked p') eqn:Ep; [done|]. destruct (locked (prog_of t s)) eqn:Et; [done|]. rewrite <- (HI t), Et. done.
  - rewrite (HI t'). destruct (locked p') eqn:Ep.
    + split; [|congruence]. intros Hx. destruct (Hok eq_refl) as [Ht%HI|Ht]; congruence.
    + destruct (locked (prog_of t s)) eqn:Et; [|done]. apply HI in Et. split; congruence.
Qed.

Lemma linv_stay s s' : linv s -> ss_prog s' = ss_prog s -> ss_lock s' = ss_lock s -> linv s'.
Proof. intros HI Hp Hl t. unfold prog_of. rewrite Hp, Hl. apply HI. Qed.

Lemma linv_step s s' : linv s -> nstep s s' -> linv s'.
Proof.
  intros HI Hst. revert HI. destruct Hst as [t e luck sent s0 Hp Hm|t luck sent s0 s1 Ha]; intros HI.
  - destruct e; cbn; unfold writeLocked, addRemoteCandidate, queueLocalCandidate, flushRemoteCandidates; repeat case_match; simplify_eq;
      try done; try (by apply (linv_stay _ _ HI)); (eapply (linv_move _ _ t _ HI); [by apply moved_goto|by rewrite Hp|done]).
  - unfold nadvance, renegotiate_check, writeDescription, writeLocked in Ha. destruct (prog_of t s0) as [| | |sdp|sdp|[|c cs]| |sdp|[|c cs]| | |c] eqn:Hp; [done|..];
      repeat case_match; simplify_eq;
      (eapply (linv_move s0 _ t); [done|by apply moved_goto|rewrite Hp; cbn|cbn; rewrite ?Hp; auto]); try done;
      try (apply HI; by rewrite Hp).
    intros _. right. by eapply bool_decide_eq_true_1.
Qed.

Lemma linv_reachable s : rtc nstep newSession s -> linv s.
Proof.
  intros Hr. assert (linv newSession) as Hn by done. revert Hn. induction Hr; eauto using linv_step.
Qed.

(** ** Rest *)

(** How many steps a goroutine has left at most. *)
Definition weight (p : prog) : nat :=
  match p with
  | PIdle => 0
  | PGathered _ => 1
  | PRelease cs => 1 + length cs
  | PWriteOffer _ => 66
  | PSetOffer _ => 67
  | POffer => 68
  | PRenegotiate => 69
  | PSettled | PNegotiated => 70
  | PReleaseAnswer cs => 71 + length cs
  | PWriteAnswer _ => 136
  | PAnswer => 137
  end.

Lemma nadvance_weight t luck sent s s' :
  winv s -> nadvance t luck sent s = Some s' -> weight (prog_of t s') < weight (prog_of t s) <= 137.
Proof.
  intros HI. pose proof (wi_place _ HI t) as Hpl. pose proof (wi_local _ HI) as Hl. unfold nadvance.
  unfold maxPendingCandidates in *.
  destruct (prog_of t s) as [| | |sdp|sdp|[|c cs]| |sdp|[|c cs]| | |c] eqn:Hp; cbn [place_ok weight] in *; [done|..];
    unfold renegotiate_check, writeDescription, writeLocked; repeat case_match; simplify_eq; intros [= <-]; rewrite !prog_of_goto, decide_True by done;
    cbn [weight length maxPendingCandidates] in *; unfold maxPendingCandidates in *; lia.
Qed.

(** The lock's holder can go on, and without one so can everyone. *)
Lemma someone_advances s t :
  linv s -> prog_of t s <> PIdle -> exists t', forall luck sent, is_Some (nadvance t' luck sent s).
Proof.
  intros HI Hne. destruct (ss_lock s) as [h|] eqn:El.
  - exists h. intros luck sent. pose proof (proj2 (HI h) El) as Hh. unfold nadvance.
    destruct (prog_of h s) as [| | | | |[|] | | | | | |]; try done; eauto; unfold writeDescription; destruct (writeLocked _ _ s); eauto.
  - exists t. intros luck sent. unfold nadvance. rewrite El, bool_decide_eq_true_2 by done.
    destruct (prog_of t s) as [| | | | |[|] | | |[|] | | |]; try done; eauto; unfold writeDescription; destruct (writeLocked _ _ s); eauto.
Qed.

(** C24: in every interleaving of the signalling loop with goroutines that add
    tracks and gather candidates, whatever fails, a goroutine has at most 137 steps
    to go and each of them brings it nearer its end, and never is everyone
    blocked.  Whenever all have come to rest after a first exchange with the
    signalling state stable, every track that was added is named by the last
    description, unless a write to the client failed, which ends the session, or an
    offer could not be made or set, which does happen when both sides offer at once
    ([glare_loses_track]). *)
Theorem negotiation_complete s refused :
  reached s refused ->
  (forall t luck sent s', nadvance t luck sent s = Some s' -> weight (prog_of t s') < weight (prog_of t s) <= 137) /\
  (forall t, prog_of t s <> PIdle -> exists t', forall luck sent, is_Some (nadvance t' luck sent s)) /\
  ((forall t, prog_of t s = PIdle) -> signaling (ss_pc s) = Stable -> ss_negotiated s = true ->
   described (ss_pc s) = tracks (ss_pc s) \/ ss_broken s = true \/ refused = true).
Proof.
  intros Hr. assert (rtc nstep newSession s) as Hs by (apply reached_all; eauto). split_and!.
  - intros t luck sent s'. by apply nadvance_weight, winv_reachable.
  - intros t. by apply someone_advances, linv_reachable.
  - intros Hidle Hst Hneg. destruct refused; [auto|]. destruct (ss_broken s) eqn:Hb; [auto|]. left.
    pose proof (ninv_reached s false Hr eq_refl Hb) as HI. clear Hr Hs.
    destruct (decide (described (ss_pc s) < tracks (ss_pc s))) as [Hlt|]; [|pose proof (ni_counts _ HI); lia].
    exfalso. destruct (ni_owed _ HI Hlt) as [[Hp|[t Ht]]|[t [Ht|[sdp Ht]]]]; [|by rewrite Hidle in Ht..].
    destruct (ni_noted _ HI Hp) as [?|[?|Hlk]]; [congruence|done|]. by rewrite Hidle in Hlk.
Qed.

(** The client never sees a candidate before a description, whichever
    goroutine writes it and whatever fails; and at most 64 candidates are held
    back in either direction. *)
Theorem candidates_ordered s :
  rtc nstep newSession s ->
  (forall pre c post, ss_out s = (pre ++ WCandidate c :: post)%list -> existsb is_description pre = true) /\
  length (ss_pendingLocal s) <= 64 /\ length (ss_pendingRemote s) <= 64.
Proof. intros Hw%winv_reachable. split_and!; [exact (wi_first _ Hw)|exact (wi_local _ Hw)|exact (wi_remote _ Hw)]. Qed.

End Facts.

(** ** A connection *)

(** The signalling state, the tracks, how many are described, whether a remote
    description was set, and the candidates taken.  An offer's text is as long as
    it names tracks. *)
Record ex_pc := mkPC { xp_sig : SignalingState; xp_tracks : nat; xp_described : nat; xp_remote : bool; xp_ice : list nat }.

Definition ex_offer (n : nat) : string := String.concat "" (replicate n "m").

Definition ex_connection : PeerConnection := {|
  pc := ex_pc;
  candidate := nat;
  newPC := mkPC Stable 0 0 false [];
  signaling := xp_sig;
  remoteSet := xp_remote;
  AddTrack luck p := if luck then Some (mkPC (xp_sig p) (S (xp_tracks p)) (xp_described p) (xp_remote p) (xp_ice p)) else None;
  CreateOffer luck p := if luck then Some (ex_offer (xp_tracks p)) else None;
  SetLocalOffer luck sdp p :=
    if luck && negb (bool_decide (xp_sig p = HaveRemoteOffer))
    then Some (mkPC HaveLocalOffer (xp_tracks p) (String.length sdp) (xp_remote p) (xp_ice p)) else None;
  SetRemoteOffer luck sdp p :=
    if luck && negb (bool_decide (xp_sig p = HaveLocalOffer))
    then Some (mkPC HaveRemoteOffer (xp_tracks p) (xp_described p) true (xp_ice p)) else None;
  SetLocalAnswer luck p :=
    if luck && bool_decide (xp_sig p = HaveRemoteOffer)
    then Some ("answer"%string, mkPC Stable (xp_tracks p) (xp_described p) (xp_remote p) (xp_ice p)) else None;
  SetRemoteAnswer luck sdp p :=
    if luck && bool_decide (xp_sig p = HaveLocalOffer)
    then Some (mkPC Stable (xp_tracks p) (xp_described p) true (xp_ice p)) else None;
  AddICECandidate luck c p := mkPC (xp_sig p) (xp_tracks p) (xp_described p) (xp_remote p) (xp_ice p ++ [c]);
|}.

Lemma ex_offer_length n : String.length (ex_offer n) = n.
Proof.
  unfold ex_offer. induction n as [|n IH]; [done|]. cbn [replicate]. destruct n as [|n]; [done|].
  change (String.length (String.concat "" ("m" :: replicate (S n) "m"))) with (S (String.length (String.concat "" (replicate (S n) "m")))).
  by rewrite IH.
Qed.

#[local] Existing Instance ex_connection.

#[local] Instance ex_laws : PCLaws.
Proof.
  refine {| tracks := xp_tracks : pc -> nat; described := xp_described : pc -> nat; offer_tracks := String.length |}; cbn; try done.
  - intros [] p p'; [|done]. by intros [= <-].
  - intros [] p sdp; [|done]. intros [= <-]. apply ex_offer_length.
  - intros luck sdp p p'. destruct (_ && _); [|done]. by intros [= <-].
  - intros luck sdp p p'. destruct (_ && _); [|done]. by intros [= <-].
  - intros luck p sdp p'. destruct (_ && _); [|done]. intros [= <- <-]. split_and!; [done|done|cbn; lia].
  - intros luck sdp p p'. destruct (_ && _); [|done]. by intros [= <-].
Defined.

(** Runs of it. *)
Inductive doing := Start (t : nat) (e : event) | Go (t : nat).

Definition nact (a : doing) (s : session) : option session :=
  match a with
  | Start t e =>
      match prog_of t s with
      | PIdle => if may_start t e then Some (nstart t e true true s) else None
      | _ => None
      end
  | Go t => nadvance t true true s
  end.

Fixpoint nrun (l : list doing) (s : session) : option session :=
  match l with
  | [] => Some s
  | a :: l => s ← nact a s; nrun l s
  end.

Lemma nact_step a s s' : nact a s = Some s' -> nstep s s'.
Proof.
  destruct a as [t e|t]; cbn [nact]; [|by eapply NAdvance].
  destruct (prog_of t s) eqn:Hp; try done. destruct (may_start t e) eqn:Hm; [|done]. intros [= <-]. by apply NStart.
Qed.

Lemma nrun_steps l s s' : nrun l s = Some s' -> rtc nstep s s'.
Proof.
  revert s. induction l as [|a l IH]; intros s; cbn [nrun]; [by intros [= ->]|].
  destruct (nact a s) as [s1|] eqn:E; cbn; [|done]. intros Hr. eapply rtc_l; [by eapply nact_step|auto].
Qed.

(** The same, noting whether an offer was refused. *)
Fixpoint nrun_noted (l : list doing) (f : bool) (s : session) : option (session * bool) :=
  match l with
  | [] => Some (s, f)
  | a :: l => s' ← nact a s; nrun_noted l (f || match a with Go t => offer_refused t true s | _ => false end) s'
  end.

Lemma nrun_noted_reached l f s s' f' : reached s f -> nrun_noted l f s = Some (s', f') -> reached s' f'.
Proof.
  revert f s. induction l as [|a l IH]; intros f s Hr; cbn [nrun_noted]; [by intros [= <- <-]|].
  destruct (nact a s) as [s1|] eqn:E; cbn [mbind option_bind]; [|done]. apply IH. destruct a as [t e|t]; cbn [nact] in E.
  - rewrite orb_false_r. destruct (prog_of t s) eqn:Hp; try done. destruct (may_start t e) eqn:Hm; [|done]. injection E as <-. by apply RStart.
  - by eapply RAdvance.
Qed.

(** The client offers and is answered. *)
Definition ex_exchange : list doing := [Start 0 (EvOffer "o"); Go 0; Go 0; Go 0; Go 0].

(** Then a track is added, offered and answered; and meanwhile a candidate is
    gathered. *)
Definition ex_smooth : list doing :=
  Start 2 (EvGather 7) :: ex_exchange ++
  [Go 0; Start 1 EvTrack; Go 1; Go 1; Go 1; Go 1; Go 1; Start 0 (EvAnswer "a"); Go 0].

Definition ex_end : session := default newSession (nrun ex_smooth newSession).

Lemma ex_end_reached : reached ex_end false.
Proof. apply (nrun_noted_reached ex_smooth false newSession); [constructor|]. vm_compute. reflexivity. Qed.

Lemma all_idle s : forallb (fun kp => match kp.2 with PIdle => true | _ => false end) (map_to_list (ss_prog s)) = true ->
  forall t, prog_of t s = PIdle.
Proof.
  rewrite forallb_forall. intros Hf t. unfold prog_of. destruct (ss_prog s !! t) as [p|] eqn:E; [|done].
  apply elem_of_map_to_list, list_elem_of_In, Hf in E. cbn in *. by destruct p.
Qed.

Lemma negotiation_complete_witness :
  tracks (ss_pc ex_end) = 1 /\ described (ss_pc ex_end) = tracks (ss_pc ex_end).
Proof.
  split; [vm_compute; reflexivity|].
  destruct (proj2 (proj2 (negotiation_complete ex_end false ex_end_reached))) as [E|[E|E]]; [| | |exact E|vm_compute in E; discriminate E|discriminate E].
  - apply all_idle. vm_compute. reflexivity.
  - vm_compute. reflexivity.
  - vm_compute. reflexivity.
Defined.

Lemma candidates_ordered_witness :
  ss_out ex_end = [WAnswer "answer"; WCandidate 7; WOffer "m"]%string /\ length (ss_pendingLocal ex_end) <= 64.
Proof.
  split; [vm_compute; reflexivity|].
  apply (candidates_ordered ex_end). apply reached_all. exists false. exact ex_end_reached.
Defined.

(** A track is added while the client offers anew: the offer is made in the
    stable state, the client's offer comes in before it is set, setting it fails,
    and the track is no longer noted.  Everything is at rest and settled, and the
    client never hears of the track. *)
Definition ex_glare : list doing :=
  ex_exchange ++ [Start 1 EvTrack; Go 1; Start 0 (EvOffer "o2"); Go 1; Go 1; Go 0; Go 0; Go 0; Go 0].

Lemma glare_loses_track :
  exists s, rtc nstep newSession s /\ (forall t, prog_of t s = PIdle) /\ signaling (ss_pc s) = Stable /\
    ss_negotiated s = true /\ ss_pendingTracks s = false /\ tracks (ss_pc s) = 1 /\ described (ss_pc s) = 0.
Proof.
  exists (default newSession (nrun ex_glare newSession)). split_and!; try (vm_compute; reflexivity).
  - apply (nrun_steps ex_glare). vm_compute. reflexivity.
  - apply all_idle. vm_compute. reflexivity.
Qed.
